(* ===== verification/_CoqProject ===== *)
-Q . S2P
Prelude.v
Utils.v
Strings.v
Encode.v
Strbuf.v
RuleTokens.v
RuleParse.v
RulesWf.v
UdevList.v
System.v
Device.v
DeviceProofs.v
DeviceFrame.v
DeviceProps.v
DeviceNew.v
Enumerate.v
EnumerateProps.v
Node.v
NodeLinks.v
Event.v
Hwdb.v
HwdbTrie.v
HwdbLookup.v
HwdbFile.v
HwdbSearch.v
HwdbProps.v
Monitor.v
MonitorFilter.v
MonitorProps.v
Udevd.v
UdevdQueue.v
UdevdSafety.v
UdevdWorkers.v
UdevdSystem.v
UdevdLive.v
Hashmap.v
HashmapLists.v
HashmapProps.v
ConfFiles.v
RuleCheck.v
EventProps.v
RuleApply.v
RuleMatch.v
RuleWalk.v
RuleFinal.v
EventRun.v
EventRunProps.v
BuiltinPath.v
Parents.v
BuiltinNet.v
BuiltinUsb.v
BuiltinInput.v
BuiltinProps.v
Util.v
Control.v
Synth.v
Getopt.v
Scsi.v
ScsiProps.v
ScsiId.v
Cdrom.v
Collect.v
AtaId.v
RuleStatic.v
Udevadm.v
UdevadmInfo.v
Helpers.v
Log.v
BuiltinLib.v
HwdbCmd.v
UtilIo.v
TimeUtil.v
BuiltinEnd.v
