(* ===== verification/Prelude.v ===== *)
(** * Verification of udev

    udev is the device manager of this repository: the daemon [udevd] gets the
    kernel's messages about devices, queues them, and lets worker processes
    apply the rules of [/etc/udev/rules.d] to each; a rule sets properties,
    names, permissions and links of the device and runs programs.  What a
    worker found is kept in a database under [/run/udev], and the hardware
    database adds properties by modalias.  libudev gives other programs access
    to devices, their properties and the database.

    ** The parts and the files that model them

    - Strings and numbers.  [Prelude]: bytes, C strings, integers of a width,
      the functions of the C library that the sources call, bisection.
      [Utils]: lib/utils (str.h, parse-uint.c, parse-value.c, parse-argv.c,
      path/, lookup-user.c, lookup-group.c); the parsers that change their
      input in place work on a memory of bytes.  [Strings]: shared/strxcpyx.c
      and shared/utf8.c.  [Encode]: shared/device-nodes.c and the string
      functions of lib/libudev-util.c.
    - [Strbuf]: shared/strbuf.c, the buffer that stores each string once.  Its
      clients (the rules, the hardware database) are proved against the class
      [StringPool], of which [strbuf] is an instance.
    - [UdevList]: lib/libudev-list.c, a ring of nodes in a store with a sorted
      array of its entries, proved to implement a plain list ([spec_add],
      [spec_find], [spec_delete]); its clients use the plain list.
    - [System]: the class of what is asked of the operating system (files,
      links, environment), with the state monad the code that uses it is
      written in, and lib/utils/path/mkdir.c.  An instance is given where a
      witness needs one.
    - [Device], [DeviceFrame], [DeviceProofs], [DeviceProps]: lib/device, a
      device with its lists, the uevent file, the database, the environment of
      programs and the message to listeners.  [DeviceFrame] is what holds along
      every operation (the class [DeviceRel]); [DeviceProps] and [Parents] use it.
    - [RuleTokens], [RuleParse], [RulesWf]: src/core/udev-rules.c, from the
      rules files to the array of tokens.  [RuleApply] with [RuleMatch],
      [RuleWalk], [RuleFinal]: the walk over the array for an event.
    - [Event], [EventProps]: src/core/udev-event.c, the event, the expansion of
      formats and running programs (the class [Programs]), and the calls of
      builtins (src/core/builtin/udev-builtin.c).  [EventRun],
      [EventRunProps]: the rest of that file, from the output and the end of a
      program to executing the rules and the programs of an event,
      src/core/udev-watch.c, and the body of a worker of src/udevd/udevd.c.
    - [BuiltinPath], [BuiltinNet], [BuiltinUsb], [BuiltinInput], with
      [BuiltinProps]: the builtin commands path_id, hwdb, net_id, usb_id,
      input_id and keyboard (src/core/builtin), on the device of an event and
      its parents.  [BuiltinLib]: blkid, kmod and btrfs over the libraries they
      call, and the table of the commands with their start and end.
      [Parents]: the walks up the parents end, whatever the builtin commands
      are that climb no other way; [BuiltinEnd] puts in the ones of the table
      and proves that of them.
    - [Hwdb], [HwdbLookup] with [HwdbTrie], [HwdbFile], [HwdbSearch],
      [HwdbProps]: src/udevadm/udevadm-hwdb.c and lib/libudev-hwdb.c, the
      compiler of the hardware database, the format of its file and the lookup.
      [HwdbCmd]: the command that runs the compiler and replaces the file.
    - [DeviceNew]: devices by their identifier or from an environment
      (lib/device/libudev-device.c).  [Node], [NodeLinks]:
      src/core/udev-node.c, the permissions of nodes and the links in /dev.
      [Enumerate], [EnumerateProps]: lib/libudev-enumerate.c, the search for
      devices.
    - [Hashmap] with [HashmapLists], [HashmapProps]: shared/hashmap.c on a heap
      of entries, and shared/siphash24.c.
    - [Monitor], [MonitorFilter], [MonitorProps]: lib/libudev-monitor.c with
      shared/MurmurHash2.c, the messages between the daemon and listeners and
      their filters.
    - [Udevd] with [UdevdQueue], [UdevdSafety], [UdevdWorkers], [UdevdSystem],
      [UdevdLive]: src/udevd/udevd.c, the queue of events, the workers, and one
      round of the main loop as a function of the state and of what the round
      sees ([input]).  [Control]: its options, the kernel command line and the
      messages of the control socket (src/core/udev-ctrl.c), the library
      context (lib/libudev.c) and lib/libudev-queue.c.  [Synth]: what it does
      when a watched node was closed.  [RuleStatic]: the permissions of static
      nodes (src/core/udev-rules.c).
    - [RuleCheck]: src/udevrule, the program that checks rules files, proved
      against the parser of the rules.
    - [Getopt]: the options of a command line, as the programs use
      [getopt_long].  [Udevadm]: src/udevadm, the commands trigger, settle and
      control; [UdevadmInfo]: info, monitor, test and test-builtin.
    - The programs that rules call: [Scsi], [ScsiProps], [ScsiId]
      (src/scsi_id), [Cdrom] (src/cdrom_id), [AtaId] (src/ata_id), [Collect]
      (src/collect) and [Helpers] (src/accelerometer, src/v4l_id,
      src/mtd_probe), with the answers of the hardware as parameters.
    - Shared files of systemd.  [ConfFiles]: shared/conf-files.c, path-util.c
      and strv.c, which files of several directories are read.  [Util]: the
      strings of shared/util.c.  [UtilIo]: its calls that repeat a system call,
      its bisection and growing arrays.  [TimeUtil]: shared/time-util.c.
      [Log]: shared/log.c, where messages go.

    Definitions have the name of the C function they model; a loop of a
    function is a Fixpoint of its own ([busy_loop] of [is_devpath_busy]).  A C
    struct is a Record with the same member names where they are free; static
    variables are members of the state ([daemon]).

    ** What the theorems show

    - Rules: every rules file, however malformed, becomes an array that is
      well formed ([rules_load_wf]); walking it for an event ends, stays
      inside the array and does what a list of rules with labels means
      ([apply_to_event_refines]); values assigned with [:=] stay
      ([final_parts_kept], [id_assignment]); no rules
      and no device make the walk endless, with the builtin commands that
      they call ([apply_to_event_ends]); keys match as documented
      ([match_key_alternatives]).
    - Daemon: events of dependent devices run one at a time and in the order of
      the kernel, in every reachable state ([running_events_in_order]); the
      cache of the search for blocking events changes nothing
      ([is_devpath_busy_exact]); no event or worker is used after it was freed
      ([no_use_after_free]); the queue is worked off ([queue_worked_off]).
    - Commands: a command that udevadm sends is the one the daemon carries out
      ([control_command_handled], [control_round_trip]); the static
      nodes of a rule get its permissions and tags ([static_perms_exact]);
      cleaning the database removes what is not sticky ([cleanup_db_exact]);
      a line that the rule checker accepts is one the parser reads
      ([checked_line_parsed]).
    - Programs: the serial number is made of the best descriptor of the page
      ([page83_exact]); the database of collect is read as its words, with
      those of the restarts in front ([checkout_words]).
    - Files: a configuration file hides those of the same name in later
      directories ([conf_files_list_exact]); lines of the log are written once
      ([log_lines_written]).
    - Hardware database: what is looked up in the compiled file is what the
      source files say ([hwdb_lookup_exact], [import_file_print]).
    - Device: the database is read back as written ([db_round_trip]),
      properties are a map, the recursion between properties and files ends
      ([properties_list_fixpoint]), and after any operations on a device the
      environment of programs is that of its properties, inside its buffers
      ([properties_envp_exact]).
    - Links: a link goes to the device of the highest priority that claims it
      ([link_target_priority]) and is replaced atomically
      ([node_symlink_atomic]); identifiers lead back to their device
      ([device_id_round_trip]).
    - Events: the output of a program is cut at pieces that do not fit
      ([spawn_read_result]), its end is reported as it was
      ([spawn_wait_status]); a renamed network interface has its new names
      ([netif_renamed_names]).
    - Builtin commands: the tag of a path is made of its words
      ([path_tag_words]), the interfaces of a usb device are listed once and
      inside the array ([packed_info_exact]), bit maps are read as the kernel
      wrote them ([cap_mask_round_trip]).
    - Enumeration: the list has every device found, once, in the order of the
      paths but for the devices that come late: md and dm devices, and the
      control device of a sound card ([enumerate_list_exact]).
    - Monitor: the kernel's filter keeps what the receiver's filter lets through
      ([kernel_filter_exact]), within the bounds of its program
      ([filter_program_size]); messages are read as they were written
      ([monitor_message_received]) and only trusted ones are
      ([receive_device_trusted]).
    - Containers and strings: the list, the string buffer and the hash table
      ([hashmap_refines]) implement their specifications; encoders, parsers and decoders are inverse to each other
      or exact; copies stay inside their buffers, but for the cases named.

    ** Fuel and bounds

    A Fixpoint that is not structural takes fuel, and a theorem says that its
    fuel is enough: the walk over the rules goes forward, so the number of
    tokens is enough; bisection has the length of the array; a step down a trie
    takes a character of the string, and the children of a node of the database
    file lie in front of it; the properties of a device load files, which sets
    flags that end the recursion ([properties_list_fixpoint]); the loops over
    strings have their length.  The walks to the parent devices take fuel that
    is a parameter, since the parents are what the file system says; the bound
    for the length of paths is enough when the directories of devices are not
    links ([Parents]).  So does mkdir along a path.  The loops that wait
    (settle, the end of a program, the log) take what they see as a list or an
    oracle, and a theorem says when they end.

    ** Assumptions

    Memory is available where an allocation failure is not a case of the
    model (it is one in [strbuf_add_string]).  A file is read as a whole when
    it is opened.  Processes of the daemon do not reuse a number while the
    daemon may still hear of the old one ([fork_ok]); the kernel numbers its
    messages upwards ([device_ok]); [no_use_after_free] has the condition that
    a worker that ends with success has answered, which the code does not
    enforce ([silent_worker_freed] and [killed_worker_stuck] show what happens
    without it).  All builtins are compiled in, SELinux is not.  fnmatch is a
    parameter; a builtin command that the rules run is one in [Event], and is
    the one of the table in [BuiltinEnd]; the kernel's packet filter
    and the socket are classes whose laws are their documentation, as are the
    laws of links in [NodeLinks] and of directories in [Parents], and those of
    permissions in [RuleStatic].  The libraries of blkid and kmod, the ioctls of
    the programs, the angles of the accelerometer and the answers to the writes
    of the log are parameters.

    ** Not modelled

    Reference counts and the release of memory; creating sockets, and epoll but
    for what a round of the daemon or a reader sees of it; what the daemon's
    main does before its loop; SELinux labels (shared/label.c); terminals, and
    sizes with a fraction (floating point), in shared/util.c; the structured
    messages of the log; help texts and debugging output; opening and locking
    the file of collect; the test programs. *)

From Stdlib Require Import ZArith Lia Ascii Sorted.
From stdpp Require Import prelude gmap strings sorting.
#[global] Open Scope Z_scope.
#[global] Set Warnings "-uniform-inheritance,-clear-no-such-hyp".
#[global] Set Default Goal Selector "!".

(** * Bytes and C strings

    A [char] is an [ascii]; a NUL-terminated C string is the list of the
    bytes before its terminator.  String literals stand for their bytes. *)

Abbreviation byte := ascii.
Abbreviation bytes := (list ascii).
Coercion String.list_ascii_of_string : String.string >-> list.

Declare Scope udev_scope.
Delimit Scope udev_scope with udev.
#[global] Open Scope udev_scope.
Notation "a '==c' b" := (Ascii.eqb a b) (at level 70, no associativity) : udev_scope.

Definition nul : byte := "000"%char.

(** The value of a byte read as [unsigned char]. *)
Definition code (c : byte) : Z := Z.of_N (N_of_ascii c).
(** The byte an integer is stored as ([(char) z], modulo 256). *)
Definition chr (z : Z) : byte := ascii_of_N (Z.to_N (z mod 256)).

(** A list of bytes is the contents of a C string when no byte is NUL. *)
Definition cstr (s : bytes) : Prop := Forall (fun c => c <> nul) s.
#[export] Instance cstr_dec s : Decision (cstr s) := _.

(** * Machine integers *)

Definition wrap (w z : Z) : Z := z mod 2 ^ w.
Abbreviation u8 := (wrap 8).
Abbreviation u16 := (wrap 16).
Abbreviation u32 := (wrap 32).
Abbreviation u64 := (wrap 64).
(** Two's complement reading of the low [w] bits. *)
Definition swrap (w z : Z) : Z := (z + 2 ^ (w - 1)) mod 2 ^ w - 2 ^ (w - 1).
Abbreviation s32 := (swrap 32).

(** Little endian, [n] bytes. *)
Fixpoint le_bytes (n : nat) (z : Z) : bytes :=
  match n with O => [] | S n => chr z :: le_bytes n (z / 256) end.
Fixpoint le_val (s : bytes) : Z :=
  match s with [] => 0 | c :: s => code c + 256 * le_val s end.

(** * The standard library functions the sources call *)

(** <ctype.h> in the C locale. *)
Definition isspace (c : byte) : bool :=
  (code c =? 32) || ((9 <=? code c) && (code c <=? 13)).
Definition isblank (c : byte) : bool := (code c =? 32) || (code c =? 9).

(** [strchr]: the suffix that starts with the first [c]; looking for NUL
    finds the terminator. *)
Fixpoint strchr (s : bytes) (c : byte) : option bytes :=
  match s with
  | [] => if c ==c nul then Some [] else None
  | x :: s' => if x ==c c then Some s else strchr s' c
  end.

(** The part of [s] before the first [c], and the part behind it. *)
Fixpoint split_chr (s : bytes) (c : byte) : bytes * option bytes :=
  match s with
  | [] => ([], None)
  | x :: s' => if x ==c c then ([], Some s')
               else let '(a, r) := split_chr s' c in (x :: a, r)
  end.

(** [startswith] of shared/util.h, and the [strncmp] idiom: what follows the
    prefix. *)
Fixpoint startswith (s p : bytes) : option bytes :=
  match p, s with
  | [], _ => Some s
  | a :: p', b :: s' => if a ==c b then startswith s' p' else None
  | _ :: _, [] => None
  end.

Fixpoint strstr (s p : bytes) : option bytes :=
  match startswith s p with
  | Some _ => Some s
  | None => match s with [] => None | _ :: s' => strstr s' p end
  end.

(** The sign of [strcmp]: bytes compare as unsigned. *)
Fixpoint strcmp (a b : bytes) : comparison :=
  match a, b with
  | [], [] => Eq
  | [], _ :: _ => Lt
  | _ :: _, [] => Gt
  | x :: a', y :: b' =>
      match code x ?= code y with Eq => strcmp a' b' | c => c end
  end.

Definition digit_val (c : byte) : option Z :=
  let n := code c in
  if (48 <=? n) && (n <=? 57) then Some (n - 48)
  else if (65 <=? n) && (n <=? 90) then Some (n - 55)
  else if (97 <=? n) && (n <=? 122) then Some (n - 87)
  else None.

(** The digits of base [base] at the head of [s]: their value and the rest. *)
Fixpoint strto_digits (base acc : Z) (s : bytes) : Z * bytes :=
  match s with
  | [] => (acc, [])
  | c :: s' => match digit_val c with
               | Some d => if d <? base then strto_digits base (acc * base + d) s'
                           else (acc, s)
               | None => (acc, s)
               end
  end.

Fixpoint skip_space (s : bytes) : bytes :=
  match s with
  | c :: s' => if isspace c then skip_space s' else s
  | [] => []
  end.

(** Bases 8 and 10 only, which have no prefix: sign, magnitude and endptr;
    the endptr is the start of the string when there is no digit. *)
Definition strto (base : Z) (str : bytes) : bool * Z * bytes :=
  let s := skip_space str in
  let '(neg, s1) := match s with
                    | c :: s' => if c ==c "-" then (true, s')
                                 else if c ==c "+" then (false, s') else (false, s)
                    | [] => (false, s)
                    end in
  let '(v, rest) := strto_digits base 0 s1 in
  if (length rest =? length s1)%nat then (false, 0, str) else (neg, v, rest).

Definition strtoul (base : Z) (str : bytes) : Z * bytes :=
  let '(neg, v, rest) := strto base str in
  if 2 ^ 64 <=? v then (2 ^ 64 - 1, rest)
  else ((if neg then u64 (- v) else v), rest).

Definition strtol (base : Z) (str : bytes) : Z * bytes :=
  let '(neg, v, rest) := strto base str in
  (if neg then Z.max (- v) (- 2 ^ 63) else Z.min v (2 ^ 63 - 1), rest).

Definition atoi (str : bytes) : Z := s32 (fst (strtol 10 str)).

(** Lines of a file. *)
Definition UTIL_PATH_SIZE : nat := 1024.
Definition UTIL_NAME_SIZE : nat := 512.
Definition UTIL_LINE_SIZE : nat := Z.to_nat 16384.
#[global] Arguments UTIL_PATH_SIZE : simpl never.
#[global] Arguments UTIL_NAME_SIZE : simpl never.
#[global] Arguments UTIL_LINE_SIZE : simpl never.
Definition newline : byte := "010"%char.

Fixpoint read_line (n : nat) (f : bytes) : bytes * bytes :=
  match n, f with
  | O, _ | _, [] => ([], f)
  | S n', c :: f' =>
      if c ==c newline then ([c], f') else let '(l, r) := read_line n' f' in (c :: l, r)
  end.
(** [fgets] of a buffer of [n] bytes: what is read, and the rest of the
    file. *)
Definition fgets (n : nat) (f : bytes) : option (bytes * bytes) :=
  if (n <=? 1)%nat then Some ([], f)
  else match f with [] => None | _ => Some (read_line (n - 1) f) end.

(** [bsearch] over an array [l], and the bisection of [list_search]: [cmp]
    compares the key with an element.  The result is the index found, or the
    index where the key belongs. *)
Fixpoint bsearch_loop {A} (cmp : A -> comparison) (l : list A) (fuel first last : nat)
    : nat + nat :=
  match fuel with
  | O => inr first
  | S fuel' =>
      if (first <? last)%nat then
        let i := ((first + last) / 2)%nat in
        match cmp <$> l !! i with
        | Some Lt => bsearch_loop cmp l fuel' first i
        | Some Gt => bsearch_loop cmp l fuel' (i + 1) last
        | Some Eq => inl i
        | None => inr first
        end
      else inr first
  end.
Definition bsearch {A} (cmp : A -> comparison) (l : list A) : nat + nat :=
  bsearch_loop cmp l (S (length l)) 0 (length l).

(** [qsort]; the order of elements that compare equal is not looked at. *)
Fixpoint insert_by {A} (lt : A -> A -> bool) (x : A) (l : list A) : list A :=
  match l with
  | [] => [x]
  | y :: l' => if lt x y then x :: l else y :: insert_by lt x l'
  end.
Definition qsort {A} (lt : A -> A -> bool) (l : list A) : list A := foldr (insert_by lt) [] l.

(** [fnmatch pattern string] without flags. *)
Class Glob := fnmatch : bytes -> bytes -> bool.

(** * Tactics *)

Create HintDb udev.
Create Rewrite HintDb udev.

(** Turn the boolean byte tests of the context and the goal into equations. *)
Ltac byte_cases :=
  repeat match goal with
  | H : (?a ==c ?b) = true |- _ => apply Ascii.eqb_eq in H; subst
  | H : (?a ==c ?b) = false |- _ => apply Ascii.eqb_neq in H
  | |- context [?a ==c ?a] => rewrite Ascii.eqb_refl
  end.

(** Split on the scrutinee of the first [if] or [match] of the goal. *)
Ltac split_if :=
  match goal with
  | |- context [if ?b then _ else _] => let E := fresh "E" in destruct b eqn:E
  | |- context [match ?x with _ => _ end] => let E := fresh "E" in destruct x eqn:E
  end.

(** * Lemmas on bytes *)

Lemma eqbP (a b : byte) : reflect (a = b) (a ==c b).
Proof. apply Ascii.eqb_spec. Qed.

Lemma code_range c : 0 <= code c < 256.
Proof. unfold code. pose proof (N_ascii_bounded c). lia. Qed.

Lemma code_inj a b : code a = code b -> a = b.
Proof.
  unfold code. intros H. apply N2Z.inj in H.
  by rewrite <- (ascii_N_embedding a), H, ascii_N_embedding.
Qed.

Lemma chr_code c : chr (code c) = c.
Proof.
  unfold chr. rewrite Z.mod_small by apply code_range.
  unfold code. by rewrite N2Z.id, ascii_N_embedding.
Qed.

Lemma code_chr z : code (chr z) = z mod 256.
Proof.
  pose proof (Z.mod_pos_bound z 256). unfold code, chr.
  rewrite N_ascii_embedding; lia.
Qed.

Lemma nul_code c : c = nul <-> code c = 0.
Proof. split; [by intros ->|]. intros H. by apply code_inj. Qed.

#[export] Hint Resolve code_range : udev.
#[export] Hint Rewrite chr_code code_chr : udev.

(** Facts that hold of the 256 bytes are checked by enumeration. *)
Lemma byte_ind (P : byte -> bool) :
  forallb P (chr <$> (Z.of_nat <$> seq 0 256)) = true -> forall c, P c = true.
Proof.
  intros H c. rewrite forallb_forall in H. apply H, list_elem_of_In.
  pose proof (code_range c).
  apply list_elem_of_fmap. exists (code c). split; [by rewrite chr_code|].
  apply list_elem_of_fmap. exists (Z.to_nat (code c)). split; [lia|].
  apply elem_of_seq. lia.
Qed.

(** * Lemmas on integers *)

Lemma wrap_range w z : 0 <= w -> 0 <= wrap w z < 2 ^ w.
Proof. intros. apply Z.mod_pos_bound. lia. Qed.

Lemma wrap_small w z : 0 <= z < 2 ^ w -> wrap w z = z.
Proof. apply Z.mod_small. Qed.

Lemma wrap_wrap w z : wrap w (wrap w z) = wrap w z.
Proof. apply Zmod_mod. Qed.

Lemma wrap_mul_l w a b : 0 <= w -> wrap w (wrap w a * b) = wrap w (a * b).
Proof. intros. apply Zmult_mod_idemp_l. Qed.

Lemma wrap_add_l w a b : wrap w (wrap w a + b) = wrap w (a + b).
Proof. apply Zplus_mod_idemp_l. Qed.

#[export] Hint Resolve wrap_range wrap_small : udev.
#[export] Hint Rewrite wrap_wrap wrap_add_l : udev.

Lemma le_bytes_length n z : length (le_bytes n z) = n.
Proof. revert z. induction n as [|n IH]; intros z; simpl; [done|]. by rewrite IH. Qed.
Lemma le_val_bytes n z : le_val (le_bytes n z) = z mod 256 ^ Z.of_nat n.
Proof.
  revert z. induction n as [|n IH]; intros z; [by rewrite Z.mod_1_r|]. cbn [le_bytes le_val]. rewrite IH, code_chr.
  rewrite Nat2Z.inj_succ, Z.pow_succ_r by lia. rewrite Z.rem_mul_r by lia. lia.
Qed.

(** * Lemmas on the string functions *)

Lemma read_line_app n (l rest : bytes) :
  newline ∉ l -> (length l < n)%nat -> read_line n (l ++ newline :: rest) = (l ++ [newline], rest).
Proof.
  revert n. induction l as [|c l IH]; intros n Hn Hl; (destruct n as [|n]; [simpl in Hl; lia|]); [done|].
  cbn [app read_line]. destruct (eqbP c newline) as [->|]; [set_solver|].
  rewrite IH; [done|set_solver|simpl in Hl; lia].
Qed.

Lemma startswith_Some s p r : startswith s p = Some r <-> s = p ++ r.
Proof.
  revert s. induction p as [|a p IH]; intros [|b s]; simpl;
    try (split; intros; simplify_eq; done).
  destruct (eqbP a b) as [->|Hne].
  - rewrite IH. split; intros; simplify_eq; done.
  - split; intros; simplify_eq.
Qed.

Lemma startswith_app p r : startswith (p ++ r) p = Some r.
Proof. by apply startswith_Some. Qed.

Lemma strchr_Some s c r :
  c <> nul -> (strchr s c = Some r <-> (exists a r', s = a ++ r /\ r = c :: r' /\ c ∉ a)).
Proof.
  intros Hc. induction s as [|x s IH]; simpl.
  - destruct (eqbP c nul); [done|]. split; [done|]. by intros ([] & ? & ? & -> & ?); simplify_eq/=.
  - destruct (eqbP x c) as [->|Hne].
    + split; [intros [= <-]; exists [], s; set_solver|].
      intros ([|y a] & r' & ? & -> & ?); simplify_eq/=; [done|]. set_solver.
    + rewrite IH. split.
      * intros (a & r' & -> & -> & ?). exists (x :: a), r'. set_solver.
      * intros ([|y a] & r' & ? & -> & ?); simplify_eq/=. exists a, r'. set_solver.
Qed.

Lemma strchr_None s c : c <> nul -> (strchr s c = None <-> c ∉ s).
Proof.
  intros Hc. induction s as [|x s IH]; simpl.
  - destruct (eqbP c nul); [done|]. set_solver.
  - destruct (eqbP x c) as [->|]; [set_solver|]. rewrite IH. set_solver.
Qed.

Lemma split_chr_None s c : c ∉ s -> split_chr s c = (s, None).
Proof.
  induction s as [|x s IH]; simpl; [done|]. intros H.
  destruct (eqbP x c) as [->|]; [set_solver|]. rewrite IH by set_solver. done.
Qed.

Lemma split_chr_app a s c : c ∉ a -> split_chr (a ++ c :: s) c = (a, Some s).
Proof.
  induction a as [|x a IH]; simpl; intros H; [by rewrite Ascii.eqb_refl|].
  destruct (eqbP x c) as [->|]; [set_solver|]. rewrite IH by set_solver. done.
Qed.

Lemma split_chr_inv s c a o :
  split_chr s c = (a, o) -> s = a ++ (match o with Some r => c :: r | None => [] end) /\ c ∉ a.
Proof.
  revert a o. induction s as [|x s IH]; simpl; intros a o.
  - intros [= <- <-]. set_solver.
  - destruct (eqbP x c) as [->|]; [intros [= <- <-]; set_solver|].
    destruct (split_chr s c) as [a' o'] eqn:E. intros [= <- <-].
    destruct (IH a' o' eq_refl) as [-> ?]. set_solver.
Qed.

(** * [strcmp] is a total order on strings *)

Lemma strcmp_eq a b : strcmp a b = Eq <-> a = b.
Proof.
  revert b. induction a as [|x a IH]; intros [|y b]; simpl; try done.
  destruct (Z.compare_spec (code x) (code y)) as [H|H|H].
  - apply code_inj in H as ->. rewrite IH. split; congruence.
  - split; [done|]. intros [= -> ->]. lia.
  - split; [done|]. intros [= -> ->]. lia.
Qed.

Lemma strcmp_refl a : strcmp a a = Eq.
Proof. by apply strcmp_eq. Qed.

Lemma strcmp_antisym a b : strcmp b a = CompOpp (strcmp a b).
Proof.
  revert b. induction a as [|x a IH]; intros [|y b]; simpl; try done.
  rewrite (Z.compare_antisym (code x)). rewrite IH. by destruct (code x ?= code y).
Qed.

Lemma strcmp_trans a b c : strcmp a b = Lt -> strcmp b c = Lt -> strcmp a c = Lt.
Proof.
  revert b c. induction a as [|x a IH]; intros [|y b] [|z c]; simpl; try done.
  destruct (Z.compare_spec (code x) (code y)) as [H|H|H];
    destruct (Z.compare_spec (code y) (code z)) as [H'|H'|H'];
    destruct (Z.compare_spec (code x) (code z)); try lia; try done. apply IH.
Qed.

Definition str_lt (a b : bytes) : Prop := strcmp a b = Lt.
#[export] Instance str_lt_dec : RelDecision str_lt.
Proof. intros a b. unfold str_lt. apply _. Defined.
#[export] Instance str_lt_trans : Transitive str_lt.
Proof. intros a b c. apply strcmp_trans. Qed.
#[export] Instance str_lt_irrefl : Irreflexive str_lt.
Proof. intros a. red. unfold str_lt. by rewrite strcmp_refl. Qed.

Lemma strcmp_gt a b : strcmp a b = Gt <-> str_lt b a.
Proof. unfold str_lt. rewrite (strcmp_antisym a b). by destruct (strcmp a b). Qed.

Lemma StronglySorted_lookup {A} (R : A -> A -> Prop) (l : list A) :
  StronglySorted R l ->
  forall i j x y, (i < j)%nat -> l !! i = Some x -> l !! j = Some y -> R x y.
Proof.
  induction 1 as [|z l _ IH Hz]; intros i j x y Hij Hx Hy; [done|].
  destruct i as [|i], j as [|j]; try lia; simplify_eq/=.
  - rewrite Forall_lookup in Hz. by apply (Hz j).
  - apply (IH i j); auto with lia.
Qed.

(** * Bisection *)

Section bsearch.
Context {A : Type} (cmp : A -> comparison) (l : list A).

(** The elements are in strictly increasing order as far as the key can tell. *)
Definition key_sorted : Prop :=
  forall i j x y, (i < j)%nat -> l !! i = Some x -> l !! j = Some y ->
  (cmp x <> Gt -> cmp y = Lt) /\ (cmp y <> Lt -> cmp x = Gt).

(** [i] is where a key that is not in the array belongs. *)
Definition insertion_point (i : nat) : Prop :=
  (i <= length l)%nat /\
  forall j x, l !! j = Some x -> ((j < i)%nat -> cmp x = Gt) /\ ((i <= j)%nat -> cmp x = Lt).

Definition bsearch_ok (r : nat + nat) : Prop :=
  match r with
  | inl i => exists x, l !! i = Some x /\ cmp x = Eq
  | inr i => insertion_point i
  end.

Hypothesis Hsorted : key_sorted.

Lemma bsearch_loop_ok fuel first last :
  (last - first < fuel)%nat -> (first <= last <= length l)%nat ->
  (forall j x, l !! j = Some x ->
    ((j < first)%nat -> cmp x = Gt) /\ ((last <= j)%nat -> cmp x = Lt)) ->
  bsearch_ok (bsearch_loop cmp l fuel first last).
Proof using Hsorted.
  revert first last. induction fuel as [|fuel IH]; intros first last Hf Hr Hinv; [lia|].
  cbn [bsearch_loop]. destruct (Nat.ltb_spec first last) as [Hlt|Hge].
  2: { split; [lia|]. intros j x Hj. destruct (Hinv j x Hj). split; intros; auto with lia. }
  set (i := ((first + last) / 2)%nat).
  assert (first <= i < last)%nat as Hi.
  { unfold i. split; [apply Nat.div_le_lower_bound|apply Nat.Div0.div_lt_upper_bound]; lia. }
  destruct (lookup_lt_is_Some_2 l i) as [m Hm]; [lia|]. rewrite Hm. simpl.
  destruct (cmp m) eqn:Em; simpl; [by exists m|apply IH; [lia|lia|]..];
    intros j x Hj; destruct (Hinv j x Hj); (split; intros Hji; [|]); auto.
  - destruct (decide (j = i)) as [->|]; [congruence|].
    apply (Hsorted i j m x); auto with lia. congruence.
  - destruct (decide (j = i)) as [->|]; [congruence|].
    apply (Hsorted j i x m); auto with lia. congruence.
Qed.

Lemma bsearch_spec : bsearch_ok (bsearch cmp l).
Proof using Hsorted.
  apply bsearch_loop_ok; [lia|lia|]. intros j x Hj.
  apply lookup_lt_Some in Hj. lia.
Qed.
End bsearch.

(** An array sorted by a key satisfies the bisection's precondition. *)
Lemma key_sorted_str {A} (key : A -> bytes) (k : bytes) (l : list A) :
  StronglySorted str_lt (key <$> l) -> key_sorted (fun x => strcmp k (key x)) l.
Proof.
  intros Hs i j x y Hij Hx Hy.
  assert (str_lt (key x) (key y)) as Hxy.
  { apply (StronglySorted_lookup _ _ Hs i j); [done|..];
      by rewrite list_lookup_fmap, ?Hx, ?Hy. }
  split; intros H.
  - destruct (strcmp k (key x)) eqn:E; [apply strcmp_eq in E as ->; done|by eapply strcmp_trans|done].
  - destruct (strcmp k (key y)) eqn:E; [apply strcmp_eq in E as ->; by apply strcmp_gt|done|].
    apply strcmp_gt in E. apply strcmp_gt. by etrans.
Qed.

Lemma key_sorted_Z {A} (key : A -> Z) (k : Z) (l : list A) :
  StronglySorted Z.lt (key <$> l) -> key_sorted (fun x => k ?= key x) l.
Proof.
  intros Hs i j x y Hij Hx Hy.
  assert (key x < key y) as Hxy.
  { apply (StronglySorted_lookup _ _ Hs i j); [done|..];
      by rewrite list_lookup_fmap, ?Hx, ?Hy. }
  split; destruct (Z.compare_spec k (key x)), (Z.compare_spec k (key y)); try done; lia.
Qed.

(** A strictly increasing array of characters that are not NUL has at most 255
    elements. *)
Lemma StronglySorted_filter {A} (R : relation A) (P : A -> Prop) `{forall x, Decision (P x)} l :
  StronglySorted R l -> StronglySorted R (filter P l).
Proof.
  induction 1 as [|x l _ IH Hx]; [constructor|]. rewrite filter_cons. destruct (decide (P x)); [|done].
  constructor; [done|]. rewrite Forall_forall in *. intros y [_ Hy]%list_elem_of_filter. by apply Hx.
Qed.
Lemma StronglySorted_NoDup {A} (R : relation A) `{!StrictOrder R} l : StronglySorted R l -> NoDup l.
Proof.
  induction 1 as [|x l _ IH Hx]; constructor; [|done]. intros Hin. rewrite Forall_forall in Hx.
  destruct (irreflexivity R x). by apply Hx.
Qed.
Lemma StronglySorted_Z_NoDup (l : list Z) : StronglySorted Z.lt l -> NoDup l.
Proof. apply (StronglySorted_NoDup Z.lt). Qed.
Lemma byte_keys_bound (l : list Z) : StronglySorted Z.lt l -> Forall (fun z => 0 < z < 256) l -> (length l <= 255)%nat.
Proof.
  intros Hs Hl. rewrite Forall_forall in Hl.
  assert (l ⊆ (fun k => Z.of_nat k) <$> seq 1 255) as Hsub.
  { intros z Hz. specialize (Hl z Hz). apply list_elem_of_fmap. exists (Z.to_nat z). split; [lia|]. apply elem_of_seq. lia. }
  pose proof (submseteq_length _ _ (NoDup_submseteq _ _ (StronglySorted_Z_NoDup l Hs) Hsub)) as Hle.
  by rewrite length_fmap, length_seq in Hle.
Qed.

(** * Sorting *)

#[export] Instance str_lt_strict : StrictOrder str_lt.
Proof. split; apply _. Qed.
Lemma str_total a b : str_lt a b \/ a = b \/ str_lt b a.
Proof. unfold str_lt. destruct (strcmp a b) eqn:E; [apply strcmp_eq in E; by auto|by auto|]. right; right. by apply strcmp_gt. Qed.

Section qsort.
Context {A K : Type} (key : A -> K) (R : relation K) `{!StrictOrder R} (lt : A -> A -> bool).
Hypothesis Hlt : forall x y, lt x y = true <-> R (key x) (key y).
Hypothesis Htotal : forall a b, R a b \/ a = b \/ R b a.

Lemma insert_by_perm x l : insert_by lt x l ≡ₚ x :: l.
Proof using. induction l as [|y l IH]; simpl; [done|]. destruct (lt x y); [done|]. rewrite IH. constructor. Qed.
Lemma qsort_perm l : qsort lt l ≡ₚ l.
Proof using. induction l as [|x l IH]; [done|]. simpl. by rewrite insert_by_perm, IH. Qed.
Lemma insert_by_sorted x l :
  StronglySorted R (key <$> l) -> key x ∉ key <$> l -> StronglySorted R (key <$> insert_by lt x l).
Proof using All.
  induction l as [|y l IH]; intros Hs Hx; [by repeat constructor|]. rewrite fmap_cons in *. simpl.
  apply StronglySorted_inv in Hs as [Hs Hy]. apply not_elem_of_cons in Hx as [Hne Hx].
  destruct (lt x y) eqn:E.
  - apply Hlt in E. constructor; [by constructor|]. constructor; [done|]. eapply Forall_impl; [exact Hy|].
    intros k Hk. by etrans.
  - assert (R (key y) (key x)) as Hyx.
    { destruct (Htotal (key x) (key y)) as [H|[H|H]]; [apply Hlt in H; congruence|congruence|done]. }
    constructor; [by apply IH|]. change (Forall (R (key y)) (key <$> insert_by lt x l)). rewrite insert_by_perm.
    rewrite fmap_cons. by constructor.
Qed.
Lemma qsort_sorted l : NoDup (key <$> l) -> StronglySorted R (key <$> qsort lt l).
Proof using All.
  induction l as [|x l IH]; intros Hnd; [constructor|]. rewrite fmap_cons in Hnd. apply NoDup_cons in Hnd as [Hx Hnd].
  simpl. apply insert_by_sorted; [by apply IH|]. by rewrite qsort_perm.
Qed.
(** With elements that compare equal. *)
Lemma insert_by_weak x l :
  StronglySorted (fun a b => R a b \/ a = b) (key <$> l) -> StronglySorted (fun a b => R a b \/ a = b) (key <$> insert_by lt x l).
Proof using All.
  induction l as [|y l IH]; intros Hs; [by repeat constructor|]. rewrite fmap_cons in *. simpl.
  apply StronglySorted_inv in Hs as [Hs Hy]. destruct (lt x y) eqn:E.
  - apply Hlt in E. constructor; [by constructor|]. constructor; [by left|]. eapply Forall_impl; [exact Hy|].
    intros k [Hk| <-]; left; [by etrans|done].
  - constructor; [by apply IH|]. change (Forall (fun b => R (key y) b \/ key y = b) (key <$> insert_by lt x l)).
    rewrite insert_by_perm, fmap_cons. constructor; [|done].
    destruct (Htotal (key x) (key y)) as [H|[H|H]]; [apply Hlt in H; congruence|by right|by left].
Qed.
Lemma qsort_weak l : StronglySorted (fun a b => R a b \/ a = b) (key <$> qsort lt l).
Proof using All. induction l as [|x l IH]; [constructor|]. simpl. by apply insert_by_weak. Qed.
End qsort.
Lemma qsort_Forall2 {A B} (R : A -> B -> Prop) lt lt' l l' :
  (forall x x' y y', R x x' -> R y y' -> lt x y = lt' x' y') -> Forall2 R l l' -> Forall2 R (qsort lt l) (qsort lt' l').
Proof.
  intros Hlt H. induction H as [|x x' l l' Hx _ IH]; [constructor|]. simpl. clear -Hlt Hx IH.
  induction IH as [|y y' m m' Hy Hm IH]; simpl; [by repeat constructor|]. rewrite (Hlt x x' y y') by done.
  destruct (lt' x' y'); [repeat constructor; done|by constructor].
Qed.
