(* ===== verification/Utils.v ===== *)
(** The utility module lib/utils: the string helpers of str.h, the number,
    value and command-line parsers, the path helpers and the user and group
    lookup. *)

From Stdlib Require Import ZArith Lia Ascii.
From stdpp Require Import prelude gmap strings sorting.
From S2P Require Import Prelude.

(** * lib/utils/str.h *)

Module Str.

(** A [char *] that may be NULL is an [option bytes]. *)
Definition str_empty (str : option bytes) : bool :=
  match str with None => true | Some [] => true | Some (_ :: _) => false end.

Fixpoint str_eq_loop (str1 str2 : bytes) : bool :=
  match str1, str2 with
  | [], [] => true
  | a :: s1, b :: s2 => if a ==c b then str_eq_loop s1 s2 else false
  | _, _ => false
  end.

Definition str_eq (str1 str2 : option bytes) : bool :=
  match str1, str2 with
  | Some s1, Some s2 => str_eq_loop s1 s2
  | None, None => true
  | _, _ => false
  end.

(** The bytes stored at [dst] before the terminator, and the result. *)
Fixpoint str_copy_loop (src : bytes) (size : nat) : bytes * nat :=
  match src with
  | c :: src' =>
      if (1 <? size)%nat then
        let '(out, rem) := str_copy_loop src' (size - 1) in (c :: out, rem)
      else ([], size)
  | [] => ([], size)
  end.

Definition str_copy (src : bytes) (size : nat) : bytes * nat :=
  let '(out, rem) := str_copy_loop src size in (out, (size - rem)%nat).

(** [struct str_t]; [val] is the NUL-terminated contents. *)
Record str_t := mk_str { len : nat; size : nat; val : bytes }.

(** [None] is a failed [calloc]. *)
Definition str_new (alloc_ok : bool) (size : nat) : option str_t :=
  if alloc_ok then Some (mk_str 0 size []) else None.

(** [junk] is what a block that [realloc] returns fresh holds. *)
Definition str_resize (alloc_ok : bool) (junk : str_t) (dst : option str_t) (newsize : nat)
    : Z * option str_t :=
  match dst with
  | Some str =>
      if (newsize <=? size str)%nat then (0, dst)
      else if alloc_ok then (0, Some (mk_str (len str) newsize (val str))) else (-1, dst)
  | None => if alloc_ok then (0, Some (mk_str (len junk) newsize (val junk))) else (-1, dst)
  end.

Definition str_reset (str : str_t) : str_t := mk_str 0 (size str) [].

Definition str_set (alloc_ok : bool) (junk : str_t) (dst : option str_t) (str : bytes) (n : nat)
    : Z * option str_t :=
  match str_resize alloc_ok junk dst (n + 1) with
  | (0, Some d) =>
      let '(out, m) := str_copy str (size d) in (0, Some (mk_str m (size d) out))
  | (_, d) => (-1, d)
  end.

(** The copy goes behind the current contents, bounded by the whole size. *)
Definition str_append (alloc_ok : bool) (junk : str_t) (dst : option str_t) (str : bytes) (n : nat)
    : Z * option str_t :=
  let n' := match dst with Some d => (n + len d)%nat | None => n end in
  match str_resize alloc_ok junk dst (n' + 1) with
  | (0, Some d) =>
      let '(out, m) := str_copy str (size d) in
      (0, Some (mk_str (len d + m) (size d) (take (len d) (val d) ++ out)))
  | (_, d) => (-1, d)
  end.

Lemma str_eq_loop_spec s1 s2 : str_eq_loop s1 s2 = bool_decide (s1 = s2).
Proof.
  revert s2. induction s1 as [|a s1 IH]; intros [|b s2]; simpl; try done.
  destruct (eqbP a b) as [->|].
  - rewrite IH. apply bool_decide_ext. naive_solver.
  - symmetry. apply bool_decide_eq_false. naive_solver.
Qed.

Lemma str_eq_spec s1 s2 : str_eq s1 s2 = bool_decide (s1 = s2).
Proof.
  destruct s1, s2; simpl; rewrite ?str_eq_loop_spec; try done.
  apply bool_decide_ext. naive_solver.
Qed.

Lemma str_copy_loop_spec src n :
  str_copy_loop src n = (take (n - 1) src, (n - length (take (n - 1) src))%nat).
Proof.
  revert n. induction src as [|c src IH]; intros n; cbn [str_copy_loop].
  - rewrite take_nil. simpl. f_equal. lia.
  - destruct (Nat.ltb_spec 1 n) as [Hn|Hn].
    + rewrite IH. destruct n as [|[|n]]; [lia|lia|]. simpl.
      rewrite Nat.sub_0_r. f_equal.
    + replace (n - 1)%nat with 0%nat by lia. simpl. f_equal. lia.
Qed.

Lemma str_copy_spec src n :
  str_copy src n = (take (n - 1) src, length (take (n - 1) src)).
Proof.
  unfold str_copy. rewrite str_copy_loop_spec. f_equal.
  rewrite length_take. lia.
Qed.

End Str.
Export Str.

(** * lib/utils.h *)

Definition char_hex (val : Z) : byte :=
  if val <? 10 then chr (48 + val) else chr (97 + val - 10).

(** [ch>>4 & 0xf] on the (signed) character: the high and the low nibble. *)
Definition char_encode (ch : byte) : bytes :=
  ["\"%char; "x"%char;
   char_hex (Z.land (Z.shiftr (swrap 8 (code ch)) 4) 0xf);
   char_hex (Z.land (swrap 8 (code ch)) 0xf)].

(** * lib/utils/parse-uint.c *)

Fixpoint parse_uint_loop (p : bytes) (val : Z) : option Z :=
  match p with
  | [] => Some val
  | c :: p' =>
      if (code c <? 48) || (57 <? code c) then None
      else
        let val := if 0 <? val then u32 (val * 10) else val in
        parse_uint_loop p' (u32 (val + (code c - 48)))
  end.

(** [None] is the result -1 with [errno] EINVAL. *)
Definition parse_uint (str : option bytes) : option Z :=
  match str with None => None | Some s => parse_uint_loop s 0 end.

Definition is_digit (c : byte) : bool := (48 <=? code c) && (code c <=? 57).
(** The value of a digit string in unbounded arithmetic. *)
Definition dec_value (acc : Z) (s : bytes) : Z :=
  fold_left (fun acc c => acc * 10 + (code c - 48)) s acc.

Lemma parse_uint_loop_spec p val :
  0 <= val < 2 ^ 32 ->
  parse_uint_loop p val = if forallb is_digit p then Some (u32 (dec_value val p)) else None.
Proof.
  revert val. induction p as [|c p IH]; intros val Hv; simpl.
  { by rewrite wrap_small. }
  unfold is_digit at 1. destruct (Z.ltb_spec (code c) 48), (Z.leb_spec 48 (code c)); try lia; simpl;
    destruct (Z.ltb_spec 57 (code c)), (Z.leb_spec (code c) 57); try lia; simpl; try done.
  rewrite IH by (apply wrap_range; lia). case_match; [|done]. f_equal.
  assert (forall l a b, u32 a = u32 b -> u32 (dec_value a l) = u32 (dec_value b l)) as Hc.
  { induction l as [|d l IHl]; intros a b Hab; simpl; [done|]. apply IHl. unfold wrap in *.
    rewrite Z.add_mod, Z.mul_mod, Hab, <- Z.mul_mod, <- Z.add_mod by lia. done. }
  apply Hc. rewrite wrap_wrap. destruct (Z.ltb_spec 0 val).
  - by rewrite wrap_add_l.
  - replace val with 0 by lia. done.
Qed.

(** [parse_uint] accepts exactly the strings of decimal digits (the empty
    one included) and returns their value modulo 2^32: it never reports an
    overflow. *)
Theorem parse_uint_spec s :
  parse_uint (Some s) =
    if forallb is_digit s then Some (u32 (dec_value 0 s)) else None.
Proof. apply parse_uint_loop_spec. lia. Qed.

(** * Strings in memory

    The in-place parsers work on a byte array; an address is an index. *)

Module Mem.

Definition rd (m : bytes) (i : nat) : byte := default nul (m !! i).
Definition wr (m : bytes) (i : nat) (c : byte) : bytes := <[i := c]> m.

(** The C string at an address. *)
Fixpoint until_nul (s : bytes) : bytes :=
  match s with
  | [] => []
  | c :: s' => if c ==c nul then [] else c :: until_nul s'
  end.
Definition cstr_at (m : bytes) (a : nat) : bytes := until_nul (drop a m).

(** [w] and its terminator are stored at [a]. *)
Definition str_at (m : bytes) (a : nat) (w : bytes) : Prop :=
  cstr w /\ exists post, drop a m = w ++ nul :: post.

Lemma until_nul_app w post : cstr w -> until_nul (w ++ nul :: post) = w.
Proof.
  induction 1 as [|c w Hc _ IH]; simpl; [done|].
  destruct (eqbP c nul); [done|]. by rewrite IH.
Qed.

Lemma until_nul_cstr w : cstr w -> until_nul w = w.
Proof. induction 1 as [|c w Hc _ IH]; simpl; [done|]. destruct (eqbP c nul); [done|]. by rewrite IH. Qed.

Lemma str_at_cstr m a w : str_at m a w -> cstr_at m a = w.
Proof. intros [Hw [post Hd]]. unfold cstr_at. rewrite Hd. by apply until_nul_app. Qed.

(** Two memories that agree below [p] hold the same strings there. *)
Definition agree (p : nat) (m m' : bytes) : Prop :=
  length m' = length m /\ take p m' = take p m.

Lemma agree_refl p m : agree p m m.
Proof. done. Qed.
Lemma agree_trans p m1 m2 m3 : agree p m1 m2 -> agree p m2 m3 -> agree p m1 m3.
Proof. unfold agree. intros [-> ->]. by intros [-> ->]. Qed.
Lemma agree_le p q m m' : (p <= q)%nat -> agree q m m' -> agree p m m'.
Proof.
  intros Hle [? Ht]. split; [done|].
  replace p with (p `min` q)%nat by lia. by rewrite <- !take_take, Ht.
Qed.
Lemma agree_wr p m i c : (p <= i)%nat -> agree p m (wr m i c).
Proof. intros. split; [by apply length_insert|]. by apply take_insert_ge. Qed.

Lemma str_at_agree p m m' a w :
  agree p m m' -> (a + length w < p <= length m)%nat -> str_at m a w -> str_at m' a w.
Proof.
  intros [Hl Ht] Hp [Hw [post Hd]]. split; [done|].
  exists (drop (a + length w + 1) m').
  assert (take (length w + 1) (drop a m') = w ++ [nul]) as Hx.
  { rewrite take_drop_commute.
    replace (take (a + (length w + 1)) m') with (take (a + (length w + 1)) m).
    2: { replace (a + (length w + 1))%nat with ((a + (length w + 1)) `min` p)%nat by lia.
         by rewrite <- !take_take, Ht. }
    rewrite <- take_drop_commute, Hd, take_app_add'; [done|lia]. }
  rewrite <- (take_drop (length w + 1) (drop a m')), Hx, <- app_assoc, drop_drop.
  simpl. do 3 f_equal. lia.
Qed.

Lemma drop_cons_rd m p c s : drop p m = c :: s -> rd m p = c /\ (p < length m)%nat /\ drop (p + 1) m = s.
Proof.
  intros H. assert (m !! p = Some c) as Hp.
  { replace p with (p + 0)%nat by lia. by rewrite <- lookup_drop, H. }
  unfold rd. rewrite Hp. split; [done|]. split; [by eapply lookup_lt_Some|].
  by rewrite <- drop_drop, H.
Qed.

Lemma drop_wr p m i c : (i < p)%nat -> drop p (wr m i c) = drop p m.
Proof. intros. by apply drop_insert_lt. Qed.

Lemma rd_wr_ne m i j c : i <> j -> rd (wr m i c) j = rd m j.
Proof. intros. unfold rd, wr. by rewrite list_lookup_insert_ne. Qed.

End Mem.

(** * lib/utils/parse-value.c *)

Module ParseValue.
Import Mem.

Definition dquote : byte := "034"%char.
Definition squote : byte := "'"%char.

(** The loop of [parse_value]: the memory, the write pointer and [len] when it
    stops. *)
Fixpoint parse_value_loop (fuel : nat) (m : bytes) (str val len : nat) : option (bytes * nat * nat) :=
  match fuel with
  | O => None
  | S fuel' =>
      let c := rd m (str + len) in
      if negb (c ==c nul) && negb (c ==c rd m str) then
        let len := if (c ==c "\") && (rd m (str + len + 1) ==c rd m str) then (len + 1)%nat else len in
        parse_value_loop fuel' (wr m val (rd m (str + len))) str (val + 1) (len + 1)
      else Some (m, val, len)
  end.

(** [str] and [val] are addresses, possibly of the same buffer; the result is
    the number of bytes consumed, or -1. *)
Definition parse_value (m : bytes) (str val : nat) : option (bytes * Z) :=
  if negb (rd m str ==c dquote) && negb (rd m str ==c squote) then Some (m, -1)
  else
    '(m, val, len) ← parse_value_loop (S (length m)) m str val 1;
    if rd m (str + len) ==c nul then Some (m, -1)
    else Some (wr m val nul, Z.of_nat (len + 1)).

(** The value between a quote and the closing one, the quote escaped by a
    backslash, and the number of bytes up to the closing quote; [None] when
    it is missing.  This is what [parse_value] computes. *)
Fixpoint unquote (q : byte) (s : bytes) : option (bytes * nat) :=
  match s with
  | [] => None
  | c :: s' =>
      if c ==c q then Some ([], O)
      else
        match s' with
        | d :: s'' =>
            if (c ==c "\") && (d ==c q) then
              '(v, n) ← unquote q s''; Some (d :: v, (n + 2)%nat)
            else '(v, n) ← unquote q s'; Some (c :: v, (n + 1)%nat)
        | [] => None
        end
  end.

(** The inverse: escape the quotes of a value. *)
Definition quote_body (q : byte) (v : bytes) : bytes :=
  v ≫= (fun c => if c ==c q then ["\"%char; c] else [c]).


Lemma cstr_cons c s : cstr (c :: s) <-> c <> nul /\ cstr s.
Proof. unfold cstr. by rewrite Forall_cons. Qed.

Lemma loop_step fuel m str val len c :
  rd m (str + len) = c -> c <> nul -> c <> rd m str ->
  parse_value_loop (S fuel) m str val len =
    let len' := if (c ==c "\") && (rd m (str + len + 1) ==c rd m str) then (len + 1)%nat else len in
    parse_value_loop fuel (wr m val (rd m (str + len'))) str (val + 1) (len' + 1).
Proof.
  intros <- H1 H2. cbn [parse_value_loop].
  by rewrite (proj2 (Ascii.eqb_neq _ _) H1), (proj2 (Ascii.eqb_neq _ _) H2).
Qed.

Lemma loop_stop fuel m str val len :
  rd m (str + len) = nul \/ rd m (str + len) = rd m str ->
  parse_value_loop (S fuel) m str val len = Some (m, val, len).
Proof.
  intros H. cbn [parse_value_loop].
  destruct (eqbP (rd m (str + len)) nul); [done|].
  destruct (eqbP (rd m (str + len)) (rd m str)); [done|]. naive_solver.
Qed.

(** What one run of the loop leaves behind when the rest of the source holds
    the value [v], ended [n] bytes on. *)
Definition loop_found (m : bytes) (str val len : nat) (v : bytes) (n : nat)
    (r : option (bytes * nat * nat)) : Prop :=
  exists m', r = Some (m', val + length v, len + n)%nat /\ agree val m m' /\
    take (length v) (drop val m') = v /\
    drop (str + len + n) m' = drop (str + len + n) m.
Definition loop_missing (m : bytes) (str val len : nat) (body : bytes)
    (r : option (bytes * nat * nat)) : Prop :=
  exists m' val', r = Some (m', val', len + length body)%nat /\ agree val m m' /\
    drop (str + len + length body) m' = drop (str + len + length body) m.

Lemma found_step m str val len len' c v n r :
  (str < val <= str + len)%nat -> (len <= len')%nat -> (val < length m)%nat ->
  loop_found (wr m val c) str (val + 1) (len' + 1) v n r ->
  loop_found m str val len (c :: v) (n + (len' + 1 - len)) r.
Proof.
  intros Hv Hl Hm (m' & -> & Hag & Hv' & Hd). exists m'.
  split; [do 2 f_equal; [f_equal; simpl; lia|lia]|]. split; [|split].
  - eapply agree_trans; [by apply agree_wr|]. eapply agree_le; [|done]. lia.
  - assert (m' !! val = Some c) as Hc.
    { destruct Hag as [_ Ht].
      rewrite <- (lookup_take_lt _ (val + 1)) by lia.
      rewrite Ht, lookup_take_lt by lia. by apply list_lookup_insert_eq. }
    rewrite (drop_S _ _ _ Hc). simpl. by rewrite <- Nat.add_1_r, Hv'.
  - replace (str + len + (n + (len' + 1 - len)))%nat with (str + (len' + 1) + n)%nat by lia.
    rewrite Hd. apply drop_wr. lia.
Qed.

Lemma missing_step m str val len len' c body body' r :
  (str < val <= str + len)%nat -> (len <= len')%nat ->
  (length body = length body' + (len' + 1 - len))%nat ->
  loop_missing (wr m val c) str (val + 1) (len' + 1) body' r ->
  loop_missing m str val len body r.
Proof.
  intros Hv Hl Hb (m' & val' & -> & Hag & Hd). exists m', val'.
  split; [do 2 f_equal; lia|]. split.
  - eapply agree_trans; [by apply agree_wr|]. eapply agree_le; [|done]. lia.
  - replace (str + len + length body)%nat with (str + (len' + 1) + length body')%nat by lia.
    rewrite Hd. apply drop_wr. lia.
Qed.

Definition loop_result (m : bytes) (str val len : nat) (q : byte) (body : bytes)
    (r : option (bytes * nat * nat)) : Prop :=
  match unquote q body with
  | Some (v, n) => loop_found m str val len v n r
  | None => loop_missing m str val len body r
  end.

Lemma parse_value_loop_ok q fuel m str val len body post :
  (length body < fuel)%nat -> q <> nul -> rd m str = q -> cstr body ->
  (str < val <= str + len)%nat -> drop (str + len) m = body ++ nul :: post ->
  loop_result m str val len q body (parse_value_loop fuel m str val len).
Proof.
  intros Hf Hq Hs. revert m val len body Hs Hf.
  induction fuel as [|fuel IH]; intros m val len body Hs Hf Hb Hv Hd; [lia|].
  unfold loop_result. destruct body as [|c body].
  { apply drop_cons_rd in Hd as (Hr & _ & _).
    rewrite loop_stop by auto. exists m, val. repeat split; do 2 f_equal; simpl; lia. }
  apply cstr_cons in Hb as [Hc Hb]. simpl in Hf.
  pose proof (drop_cons_rd _ _ _ _ Hd) as (Hr & Hlt & Hd').
  cbn [unquote]. destruct (eqbP c q) as [->|Hcq].
  { rewrite loop_stop by (right; congruence). exists m.
    simpl. rewrite !Nat.add_0_r. done. }
  rewrite (loop_step _ _ _ _ _ c) by congruence. cbn zeta. rewrite Hs.
  assert (forall x, rd (wr m val x) str = q) as Hs' by (intros; rewrite rd_wr_ne; [done|lia]).
  assert (forall n x, (val < n)%nat -> drop n (wr m val x) = drop n m) as Hdw
    by (intros; by apply drop_wr).
  destruct body as [|d body].
  - apply drop_cons_rd in Hd' as (Hr' & _ & Hd'). rewrite Hr'.
    rewrite (proj2 (Ascii.eqb_neq nul q)), andb_false_r by done.
    opose proof* (IH (wr m val (rd m (str + len))) (val + 1)%nat (len + 1)%nat []) as Hi;
      [done|simpl; lia|constructor|lia| |].
    { rewrite Hdw, Nat.add_assoc by lia. by apply drop_cons_rd in Hd as (_ & _ & ->). }
    eapply (missing_step _ _ _ _ len _ _ []); [lia|lia|simpl; lia|exact Hi].
  - pose proof (drop_cons_rd _ _ _ _ Hd') as (Hr' & _ & Hd''). rewrite Hr'.
    pose proof Hb as [_ Hb']%cstr_cons. simpl in Hf.
    destruct ((c ==c "\") && (d ==c q)) eqn:E.
    + opose proof* (IH (wr m val (rd m (str + (len + 1)))) (val + 1)%nat (len + 1 + 1)%nat body) as Hi;
        [done|lia|done|lia|rewrite Hdw by lia; etrans; [|exact Hd'']; f_equal; lia|].
      unfold loop_result in Hi. destruct (unquote q body) as [[v n]|]; simpl.
      * rewrite Nat.add_assoc, Hr' in Hi. replace (n + 2)%nat with (n + (len + 1 + 1 - len))%nat by lia.
        rewrite Nat.add_assoc, Hr'. eapply found_step; [lia|lia|lia|done].
      * eapply (missing_step _ _ _ len (len + 1) _ _ body); [lia|lia|simpl; lia|].
        by rewrite Nat.add_assoc in Hi |- *.
    + opose proof* (IH (wr m val (rd m (str + len))) (val + 1)%nat (len + 1)%nat (d :: body)) as Hi;
        [done|simpl; lia|done|lia|rewrite Hdw by lia; etrans; [|exact Hd']; f_equal; lia|].
      unfold loop_result in Hi. destruct (unquote q (d :: body)) as [[v n]|]; simpl.
      * rewrite Hr in Hi |- *. replace (n + 1)%nat with (n + (len + 1 - len))%nat by lia.
        eapply found_step; [lia|lia|lia|done].
      * eapply (missing_step _ _ _ len len _ _ (d :: body)); [lia|lia|simpl; lia|done].
Qed.

(** ** The unquoted value *)

(** The quoted text up to its end, the bytes behind it and the value. *)
Lemma unquote_split q body :
  match unquote q body with
  | Some (v, n) => exists a rest, body = a ++ q :: rest /\ length a = n /\
      (length v <= n)%nat /\ (forall P : byte -> Prop, Forall P body -> Forall P v)
  | None => True
  end.
Proof.
  induction body as [body IH] using (induction_ltof1 _ (@length byte)). unfold ltof in IH.
  destruct body as [|c s]; simpl; [done|].
  destruct (eqbP c q) as [->|Hc].
  { exists [], s. split_and!; [done..|]. by constructor. }
  destruct s as [|d s]; [done|].
  destruct ((c ==c "\") && (d ==c q)) eqn:E.
  - specialize (IH s ltac:(simpl; lia)).
    destruct (unquote q s) as [[v n]|]; simpl; [|done].
    destruct IH as (a & rest & -> & <- & Hl & HF). exists (c :: d :: a), rest.
    split; [done|]. split; [simpl; lia|]. split; [simpl; lia|].
    intros P HP. inversion HP as [|? ? _ HP']; subst. inversion HP'; subst. constructor; auto.
  - specialize (IH (d :: s) ltac:(simpl; lia)).
    destruct (unquote q (d :: s)) as [[v n]|]; simpl; [|done].
    destruct IH as (a & rest & Hd & <- & Hl & HF). exists (c :: a), rest.
    split; [by rewrite Hd|]. split; [simpl; lia|]. split; [simpl; lia|].
    intros P HP. inversion HP; subst. constructor; auto.
Qed.

Lemma quote_body_cons q c v :
  quote_body q (c :: v) = (if c ==c q then ["\"%char; c] else [c]) ++ quote_body q v.
Proof. done. Qed.

Lemma parse_value_in_place_aux q m str body post :
  q = dquote \/ q = squote -> cstr body ->
  drop str m = q :: body ++ nul :: post ->
  match unquote q body with
  | Some (v, n) =>
      exists m', parse_value m str (str + 1) = Some (m', Z.of_nat (n + 2)) /\
        str_at m' (str + 1) v /\ agree (str + 1) m m' /\
        drop (str + n + 2) m' = drop (str + n + 2) m
  | None =>
      exists m', parse_value m str (str + 1) = Some (m', -1) /\ agree (str + 1) m m' /\
        drop (str + 1 + length body) m' = nul :: post
  end.
Proof.
  intros Hq Hb Hd. pose proof (drop_cons_rd _ _ _ _ Hd) as (Hr & Hlt & Hd').
  assert (q <> nul) as Hqn by (by destruct Hq as [-> | ->]).
  assert (length body < S (length m))%nat as Hf.
  { apply (f_equal length) in Hd'. rewrite length_app, length_drop in Hd'. lia. }
  pose proof (parse_value_loop_ok q _ m str (str + 1) 1 body post Hf Hqn Hr Hb
                ltac:(lia) Hd') as Hl.
  unfold parse_value, loop_result in *. rewrite Hr.
  replace (negb (q ==c dquote) && negb (q ==c squote)) with false
    by (by destruct Hq as [-> | ->]).
  pose proof (unquote_split q body) as Hu. destruct (unquote q body) as [[v n]|].
  - destruct Hl as (m1 & -> & Hag & Hv & Hdr). destruct Hu as (a & rest & -> & Hn & Hvn & Hvc).
    simpl. assert (drop (str + S n) m1 = q :: rest ++ nul :: post) as Hd1.
    { change (S n) with (1 + n)%nat. rewrite <- Nat.add_assoc in Hdr. rewrite Hdr, Nat.add_assoc, <- drop_drop, Hd'.
      rewrite <- app_assoc, <- Hn, drop_app_length. done. }
    pose proof (drop_cons_rd _ _ _ _ Hd1) as (-> & Hlt1 & Hd2).
    rewrite (proj2 (Ascii.eqb_neq q nul)) by done.
    eexists. split; [do 3 f_equal; lia|]. split; [|split].
    + split; [by apply Hvc|].
      exists (drop (str + 1 + length v + 1) m1). unfold wr.
      rewrite (drop_insert_ge _ _ (_ + _)) by lia.
      replace (str + 1 + length v - (str + 1))%nat with (length v) by lia.
      rewrite <- (take_drop (length v) (drop (str + 1) m1)), Hv, drop_drop.
      rewrite insert_app_r_alt, Nat.sub_diag by lia.
      destruct (drop (str + 1 + length v) m1) as [|x y] eqn:Ey.
      { apply (f_equal length) in Ey. rewrite length_drop in Ey. simpl in Ey. lia. }
      simpl. do 2 f_equal. by rewrite <- drop_drop, Ey.
    + eapply agree_trans; [done|]. apply agree_wr. lia.
    + rewrite drop_wr by lia. replace (str + n + 2)%nat with (str + 1 + n + 1)%nat by lia.
      rewrite <- (drop_drop m1), <- (drop_drop m), Hdr. done.
  - destruct Hl as (m1 & val' & -> & Hag & Hdr). simpl.
    rewrite <- (drop_drop m), Hd', drop_app_length, <- Nat.add_assoc in Hdr. simpl in Hdr.
    pose proof (drop_cons_rd _ _ _ _ Hdr) as (-> & _ & _). simpl.
    exists m1. split; [done|]. split; [done|]. by rewrite <- Nat.add_assoc.
Qed.

(** [parse_value] run in place, as [get_key] and [parse_argv] call it (the
    value is written over the quoted text it is read from), computes the
    unquoted value all the same: on success it returns the bytes consumed with
    both quotes, leaves the NUL-terminated value at [str + 1], and touches
    nothing before it or behind the closing quote; when the closing quote is
    missing it returns -1 and what is behind the string is untouched. *)
Lemma parse_value_in_place q m str body post :
  q = dquote \/ q = squote -> cstr body ->
  drop str m = q :: body ++ nul :: post ->
  match unquote q body with
  | Some (v, n) =>
      exists m', parse_value m str (str + 1) = Some (m', Z.of_nat (n + 2)) /\
        str_at m' (str + 1) v /\ agree (str + 1) m m' /\
        drop (str + n + 2) m' = drop (str + n + 2) m
  | None =>
      exists m', parse_value m str (str + 1) = Some (m', -1) /\ agree (str + 1) m m' /\
        drop (str + 1 + length body) m' = nul :: post
  end.
Proof. apply parse_value_in_place_aux. Qed.

Lemma parse_value_in_place_witness :
  exists m', parse_value (dquote :: ("a b" ++ [dquote]) ++ [nul]) 0 (0 + 1) = Some (m', Z.of_nat (3 + 2)).
Proof.
  destruct (parse_value_in_place dquote (dquote :: ("a b" ++ [dquote]) ++ [nul]) 0 ("a b" ++ [dquote]) [])
    as (m' & H & _); [by left|repeat constructor; done|reflexivity|by exists m'].
Defined.

Lemma unquote_cons q c d s :
  unquote q (c :: d :: s) =
    if c ==c q then Some ([], O)
    else if (c ==c "\") && (d ==c q) then '(v, n) ← unquote q s; Some (d :: v, (n + 2)%nat)
    else '(v, n) ← unquote q (d :: s); Some (c :: v, (n + 1)%nat).
Proof. done. Qed.

Lemma cstr_quote_body q v : cstr v -> cstr (quote_body q v).
Proof.
  induction 1 as [|c v Hc Hv IH]; [constructor|]. rewrite quote_body_cons.
  apply Forall_app. split; [|done]. destruct (c ==c q); by repeat constructor.
Qed.

Lemma unquote_quote q v rest :
  q <> "\"%char -> last v <> Some "\"%char ->
  unquote q (quote_body q v ++ q :: rest) = Some (v, length (quote_body q v)).
Proof.
  intros Hq. induction v as [|c v IH]; intros Hl.
  { simpl. by rewrite Ascii.eqb_refl. }
  assert (last v <> Some "\"%char) as Hl' by (by destruct v).
  specialize (IH Hl'). rewrite quote_body_cons. destruct (eqbP c q) as [->|Hc].
  - cbn [app unquote]. rewrite (proj2 (Ascii.eqb_neq "\" q)) by done.
    rewrite !Ascii.eqb_refl. cbn [andb]. rewrite IH. simpl. do 2 f_equal. lia.
  - cbn [app unquote]. rewrite (proj2 (Ascii.eqb_neq c q)) by done.
    assert (exists d s, quote_body q v ++ q :: rest = d :: s /\ (c = "\"%char -> d <> q)) as (d & s & Hd & Hdq).
    { destruct v as [|d v]; [eexists _, _; split; [done|]; naive_solver|].
      rewrite quote_body_cons. destruct (eqbP d q); eexists _, _; split; done || naive_solver. }
    rewrite Hd in IH |- *. destruct (eqbP c "\"); [rewrite (proj2 (Ascii.eqb_neq d q)) by auto|];
      cbn [andb]; rewrite IH; simpl; do 2 f_equal; lia.
Qed.

Lemma unquote_last q body v n :
  unquote q body = Some (v, n) -> q <> "\"%char -> last v <> Some "\"%char.
Proof.
  revert v n. induction body as [body IH] using (induction_ltof1 _ (@length byte)).
  unfold ltof in IH. intros v n. destruct body as [|c [|d s]]; [done| |rewrite unquote_cons].
  { simpl. destruct (c ==c q); [by intros [= <- <-]|done]. }
  destruct (eqbP c q); [by intros [= <- <-]|].
  destruct ((c ==c "\") && (d ==c q)) eqn:E.
  - destruct (unquote q s) as [[v' n']|] eqn:Eu; [|done]. intros [= <- <-] Hq.
    apply andb_true_iff in E as [_ Ed]. apply Ascii.eqb_eq in Ed as ->.
    apply IH in Eu; [|simpl; lia|done]. destruct v'; [simpl; congruence|exact Eu].
  - destruct (unquote q (d :: s)) as [[v' n']|] eqn:Eu; [|done]. intros [= <- <-] Hq.
    pose proof Eu as Eu'. apply IH in Eu'; [|simpl; lia|done].
    destruct v' as [|]; [|done]. intros [= ->].
    destruct s as [|e s]; [simpl in Eu|rewrite unquote_cons in Eu];
      (destruct (d ==c q); [done|]); [done|].
    by destruct ((d ==c "\") && (e ==c q)); [destruct (unquote q s) as [[]|]|
      destruct (unquote q (e :: s)) as [[]|]]; simplify_eq/=.
Qed.

(** quoting and [parse_value] are inverse: a value written between quotes
    with its quotes escaped is read back, for every value that does not end in
    a backslash; and no text makes [parse_value] return a value that ends in
    one, so these are exactly the values the rules syntax can express. *)
Lemma parse_value_round_trip q v m str tail post :
  q = dquote \/ q = squote -> cstr v -> cstr tail ->
  (last v <> Some "\"%char ->
   drop str m = q :: (quote_body q v ++ q :: tail) ++ nul :: post ->
   exists m', parse_value m str (str + 1) = Some (m', Z.of_nat (length (quote_body q v) + 2)) /\
     str_at m' (str + 1) v) /\
  (forall body m' res, cstr body -> drop str m = q :: body ++ nul :: post ->
   parse_value m str (str + 1) = Some (m', res) -> 0 <= res ->
   last (cstr_at m' (str + 1)) <> Some "\"%char).
Proof.
  intros Hq Hv Ht. assert (q <> "\"%char) as Hqb by (by destruct Hq as [-> | ->]).
  split.
  - intros Hl Hd. eapply parse_value_in_place_aux in Hd; [|done|].
    + rewrite unquote_quote in Hd by done. destruct Hd as (m' & Hp & Hs & _). by exists m'.
    + apply Forall_app. split; [by apply cstr_quote_body|].
      constructor; [by destruct Hq as [-> | ->]|done].
  - intros body m' res Hb Hd Hp Hres. eapply parse_value_in_place_aux in Hd; [|done|done].
    destruct (unquote q body) as [[w n]|] eqn:E.
    + destruct Hd as (m1 & Hp' & Hs & _). rewrite Hp in Hp'. simplify_eq.
      rewrite (str_at_cstr _ _ _ Hs). by eapply unquote_last.
    + destruct Hd as (m1 & Hp' & _). rewrite Hp in Hp'. by simplify_eq.
Qed.

Lemma parse_value_round_trip_witness :
  exists m', parse_value (dquote :: (quote_body dquote "a" ++ [dquote]) ++ [nul]) 0 (0 + 1) =
    Some (m', Z.of_nat (length (quote_body dquote "a") + 2)) /\ str_at m' (0 + 1) "a".
Proof.
  destruct (parse_value_round_trip dquote "a" (dquote :: (quote_body dquote "a" ++ [dquote]) ++ [nul]) 0 [] [])
    as [H _]; [by left|by repeat constructor|constructor|]. apply H; [done|reflexivity].
Defined.

End ParseValue.

(** * lib/utils/parse-argv.c *)

Module ParseArgv.
Import Mem ParseValue.

(** [argv] is the caller's zeroed array; [p] the scanning pointer. *)
Fixpoint parse_argv_loop (fuel : nat) (m : bytes) (p : nat) (argv : gmap nat nat) (i : nat)
    : option (bytes * gmap nat nat * nat) :=
  match fuel with
  | O => None
  | S fuel' =>
      let c := rd m p in
      if c ==c nul then Some (m, argv, i)
      else if (c ==c squote) || (c ==c dquote) then
        '(m, res) ← parse_value m p (p + 1);
        if res <? 0 then Some (m, argv, i)
        else parse_argv_loop fuel' m (p + Z.to_nat res) (<[i := (p + 1)%nat]> argv) (i + 1)
      else if c ==c " " then
        match argv !! i with
        | Some _ => parse_argv_loop fuel' (wr m p nul) (p + 1) argv (i + 1)
        | None => parse_argv_loop fuel' m (p + 1) argv i
        end
      else
        parse_argv_loop fuel' m (p + 1)
          (match argv !! i with Some _ => argv | None => <[i := p]> argv end) i
  end.

(** The memory and the array afterwards, and the number of arguments. *)
Definition parse_argv (m : bytes) (cmd : nat) : option (bytes * gmap nat nat * nat) :=
  '(m, argv, i) ← parse_argv_loop (S (length m)) m cmd ∅ 0;
  Some (m, argv, match argv !! i with Some _ => (i + 1)%nat | None => i end).

(** The argument vector as strings. *)
Definition argv_strings (r : option (bytes * gmap nat nat * nat)) : option (list bytes) :=
  '(m, argv, n) ← r;
  Some ((fun i => match argv !! i with Some a => cstr_at m a | None => [] end) <$> seq 0 n).

End ParseArgv.

(** * lib/utils/path *)

Module Path.

(** encode.c: the bytes stored before the terminator and the result; [size]
    is only counted down, modulo the width of [size_t]. *)
Fixpoint path_encode_loop (src : bytes) (size : Z) : bytes * Z :=
  match src with
  | [] => ([], size)
  | c :: src' =>
      if (c ==c "/") || (c ==c "\") then
        let '(out, size') := path_encode_loop src' (u64 (size - 4)) in
        (char_encode c ++ out, size')
      else
        let '(out, size') := path_encode_loop src' (u64 (size - 1)) in (c :: out, size')
  end.
Definition path_encode (src : bytes) (size : Z) : bytes * Z :=
  let '(out, size') := path_encode_loop src size in (out, u64 (size - size')).

(** relative.c.  The first loop: the rest of [from] behind the last slash the
    two paths share up to their first difference ([p], with the slash), and
    the rests of both. *)
Fixpoint common_prefix (p from to : bytes) : bytes * bytes * bytes :=
  match from with
  | [] => (p, from, to)
  | f :: from' =>
      match to with
      | t :: to' =>
          if f ==c t then common_prefix (if f ==c "/" then from else p) from' to'
          else (p, from, to)
      | [] => (p, from, to)
      end
  end.

(** The second loop: one [../] for each slash left in [to]; [None] is the
    EOVERFLOW exit. *)
Fixpoint parent_dirs (to : bytes) (size : nat) : option (bytes * nat) :=
  match to with
  | [] => Some ([], size)
  | c :: to' =>
      if c ==c "/" then
        if (size <? 4)%nat then None
        else '(out, size) ← parent_dirs to' (size - 3);
             Some ("."%char :: "."%char :: "/"%char :: out, size)
      else parent_dirs to' size
  end.

(** The third loop: copy what is left of [p]. *)
Fixpoint copy_path (p : bytes) (size : nat) : option (bytes * nat) :=
  match p with
  | [] => Some ([], size)
  | c :: p' =>
      if (size <? 2)%nat then None
      else '(out, size) ← copy_path p' (size - 1); Some (c :: out, size)
  end.

(** The two loops after the first one, with its pointers. *)
Definition link_target (p from' to' : bytes) (size : nat) : option (bytes * nat) :=
  if (length p =? length from')%nat then (* p == from *)
    '(out, size') ← copy_path p size; Some (out, (size - size')%nat)
  else
    '(dots, size1) ← parent_dirs to' size;
    '(out, size2) ← copy_path (drop 1 p) size1;
    Some (dots ++ out, (size - size2)%nat).

(** [None]: the result is 0 and [errno] is set. *)
Definition path_relative (from to : option bytes) (size : nat) : option (bytes * nat) :=
  if str_empty from || str_empty to then None
  else
    let from := default [] from in
    let to := default [] to in
    let '(p, from', to') := common_prefix from from to in
    link_target p from' to' size.

Example path_relative_ex1 :
  path_relative (Some ("/one/two" : bytes)) (Some ("/two/one" : bytes)) 1024
  = Some ("../one/two" : bytes, 10%nat).
Proof. vm_compute. reflexivity. Qed.
Example path_relative_ex2 :
  path_relative (Some ("/path/1onew/2" : bytes)) (Some ("/path/1" : bytes)) 1024
  = Some ("1onew/2" : bytes, 7%nat).
Proof. vm_compute. reflexivity. Qed.

(** ** Paths as lists of components *)

Fixpoint split_slash (s : bytes) : list bytes :=
  match s with
  | [] => [[]]
  | c :: s' =>
      if c ==c "/" then [] :: split_slash s'
      else match split_slash s' with
           | x :: r => (c :: x) :: r
           | [] => [[c]]
           end
  end.

(** Following one component of a relative path from a directory. *)
Definition walk (dir : list bytes) (comp : bytes) : list bytes :=
  if bool_decide (comp = ".."%string :> bytes) then removelast dir else dir ++ [comp].
(** The file a relative link target denotes, from the directory of the link. *)
Definition resolve (link target : bytes) : list bytes :=
  fold_left walk (split_slash target) (removelast (split_slash link)).

Lemma split_slash_nonempty s : split_slash s <> [].
Proof. destruct s as [|c s]; simpl; [done|]. by repeat case_match. Qed.

Lemma split_slash_app a b : split_slash (a ++ "/"%char :: b) = split_slash a ++ split_slash b.
Proof.
  induction a as [|c a IH]; simpl; [done|]. destruct (c ==c "/"); rewrite IH; [done|].
  destruct (split_slash a) eqn:E; [by apply split_slash_nonempty in E|done].
Qed.

Lemma common_prefix_spec p0 from to p f t b :
  common_prefix p0 from to = (p, f, t) -> p0 = b ++ from ->
  exists a, from = a ++ f /\ to = a ++ t /\
    ((exists a1 a2, a = a1 ++ "/"%char :: a2 /\ p = "/"%char :: a2 ++ f /\ "/"%char ∉ a2)
     \/ (p = p0 /\ "/"%char ∉ a)).
Proof.
  revert p0 to b. induction from as [|c from IH]; intros p0 to b; simpl.
  { intros [= <- <- <-] _. exists []. split_and!; [done..|]. right. set_solver. }
  destruct to as [|d to].
  { intros [= <- <- <-] _. exists []. split_and!; [done..|]. right. set_solver. }
  destruct (eqbP c d) as [<-|].
  2: { intros [= <- <- <-] _. exists []. split_and!; [done..|]. right. set_solver. }
  intros H Hp. destruct (eqbP c "/") as [->|Hc].
  - apply (IH _ _ ["/"%char]) in H; [|done]. destruct H as (a & -> & -> & Ha).
    exists ("/"%char :: a). split_and!; [done..|]. left.
    destruct Ha as [(a1 & a2 & -> & -> & ?)|[-> ?]].
    + by exists ("/"%char :: a1), a2.
    + by exists [], a.
  - apply (IH _ _ (b ++ [c])) in H; [|by rewrite Hp, <- app_assoc].
    destruct H as (a & -> & -> & Ha). exists (c :: a). split_and!; [done..|].
    destruct Ha as [(a1 & a2 & -> & -> & ?)|[-> ?]].
    + left. by exists (c :: a1), a2.
    + right. set_solver.
Qed.

Definition dots (k : nat) : bytes := mjoin (replicate k (".." ++ "/" : bytes)).

Lemma parent_dirs_spec to size out size' :
  parent_dirs to size = Some (out, size') ->
  out = dots (length (split_slash to) - 1) /\ (length out + size' = size)%nat /\
  (0 < size -> 0 < size')%nat.
Proof.
  revert size out. induction to as [|c to IH]; simpl; intros size out H; [by simplify_eq|].
  destruct (c ==c "/").
  - destruct (size <? 4)%nat eqn:E; [done|]. apply Nat.ltb_ge in E.
    destruct (parent_dirs to (size - 3)) as [[o s]|] eqn:Ep; [|done]. simplify_eq/=.
    apply IH in Ep as (-> & ? & ?). destruct (split_slash to) eqn:Es; [by apply split_slash_nonempty in Es|].
    simpl in *. rewrite Nat.sub_0_r in *. split; [done|]. simpl. lia.
  - apply IH in H as (-> & ? & ?). split; [|done].
    destruct (split_slash to) eqn:Es; [by apply split_slash_nonempty in Es|done].
Qed.

Lemma copy_path_spec p size out size' :
  copy_path p size = Some (out, size') -> out = p /\ (length out + size' = size)%nat.
Proof.
  revert size out. induction p as [|c p IH]; simpl; intros size out H; [by simplify_eq|].
  destruct (size <? 2)%nat eqn:E; [done|]. apply Nat.ltb_ge in E.
  destruct (copy_path p (size - 1)) as [[o s]|] eqn:Ep; [|done]. simplify_eq/=.
  apply IH in Ep as [-> ?]. split; [done|lia].
Qed.

Lemma walk_dots k rest pre suf :
  length suf = k ->
  fold_left walk (split_slash (dots k ++ rest)) (pre ++ suf) = fold_left walk (split_slash rest) pre.
Proof.
  revert suf. induction k as [|k IH]; intros suf Hk.
  { destruct suf; [|done]. by rewrite app_nil_r. }
  destruct suf as [|x suf _] using rev_ind; [done|].
  rewrite length_app in Hk. simpl in Hk.
  change (dots (S k) ++ rest) with (String.list_ascii_of_string ".." ++ "/"%char :: (dots k ++ rest)).
  rewrite split_slash_app.
  change (split_slash ".." ++ ?l) with ((".." : bytes) :: l). cbn [fold_left].
  unfold walk at 2. rewrite bool_decide_true by done.
  rewrite app_assoc, removelast_last. apply IH. lia.
Qed.

Lemma walk_plain l pre :
  Forall (fun c => c <> ".." :> bytes) l -> fold_left walk l pre = pre ++ l.
Proof.
  revert pre. induction l as [|c l IH]; intros pre Hl; simpl; [by rewrite app_nil_r|].
  apply Forall_cons in Hl as [Hc Hl]. unfold walk at 2. rewrite bool_decide_false by done.
  rewrite IH by done. by rewrite <- app_assoc.
Qed.

Lemma copy_path_room p size out size' :
  copy_path p size = Some (out, size') -> p = [] \/ (0 < size')%nat.
Proof.
  revert size out. induction p as [|c p IH]; simpl; intros size out H; [by left|right].
  destruct (size <? 2)%nat eqn:E; [done|]. apply Nat.ltb_ge in E.
  destruct (copy_path p (size - 1)) as [[o s]|] eqn:Ep; [|done]. simplify_eq/=.
  apply copy_path_spec in Ep as Hs. apply IH in Ep as [-> |]; [|done].
  destruct Hs as [-> Hs]. simpl in Hs. lia.
Qed.

Lemma split_slash_no_slash a b :
  "/"%char ∉ a -> length (split_slash (a ++ b)) = length (split_slash b).
Proof.
  induction a as [|c a IH]; intros Ha; [done|]. simpl.
  destruct (eqbP c "/") as [->|]; [set_solver|]. rewrite <- IH by set_solver.
  destruct (split_slash (a ++ b)) eqn:E; [by apply split_slash_nonempty in E|done].
Qed.

Lemma length_removelast {A} (l : list A) : length (removelast l) = (length l - 1)%nat.
Proof.
  destruct l as [|x l _] using rev_ind; [done|].
  rewrite removelast_last, length_app. simpl. lia.
Qed.

(** the link target [path_relative] builds for absolute paths is correct:
    followed from the directory of [to] it leads to [from], whatever the two
    paths share; the result is its length, and with the terminator it fits in
    the buffer. *)
Lemma path_relative_resolves f t size out n :
  let from := "/"%char :: f in let to := "/"%char :: t in
  Forall (fun c => c <> ".." :> bytes) (split_slash from) ->
  path_relative (Some from) (Some to) size = Some (out, n) ->
  resolve to out = split_slash from /\ n = length out /\ (size = 0 \/ n < size)%nat.
Proof.
  intros from to Hdd.
  change (path_relative (Some from) (Some to) size) with
    (let '(p, from', to') := common_prefix from f t in link_target p from' to' size).
  destruct (common_prefix from f t) as [[p f'] t'] eqn:Ecp.
  apply (common_prefix_spec _ _ _ _ _ _ ["/"%char]) in Ecp; [|done].
  destruct Ecp as (a & -> & -> & Ha).
  assert (exists a1 a2, "/"%char :: a = a1 ++ "/"%char :: a2 /\ p = "/"%char :: a2 ++ f' /\ "/"%char ∉ a2)
    as (a1 & a2 & Heq & -> & Hn).
  { destruct Ha as [(a1 & a2 & -> & -> & ?)|[-> ?]];
      [by exists ("/"%char :: a1), a2|by exists [], a]. }
  assert (from = a1 ++ "/"%char :: (a2 ++ f') /\ to = a1 ++ "/"%char :: (a2 ++ t')) as [Hf Ht].
  { unfold from, to. by rewrite !app_comm_cons, Heq, <- !app_assoc. }
  unfold link_target.
  rewrite (proj2 (Nat.eqb_neq _ _)) by (simpl; rewrite length_app; lia).
  destruct (parent_dirs t' size) as [[ds s1]|] eqn:Ep; [|done]. cbn [mbind option_bind].
  destruct (copy_path (drop 1 ("/"%char :: a2 ++ f')) s1) as [[o s2]|] eqn:Ec; [|done].
  intros [= <- <-]. clearbody from to. subst from to.
  pose proof (copy_path_room _ _ _ _ Ec) as Hroom.
  apply parent_dirs_spec in Ep as (-> & Hl1 & Hpos). apply copy_path_spec in Ec as [-> Hl2].
  change (drop 1 ("/"%char :: a2 ++ f')) with (drop 0 (a2 ++ f')) in *. rewrite drop_0 in *.
  split.
  2: { rewrite length_app. destruct Hroom as [Hr|]; [rewrite Hr in *; simpl in *|]; lia. }
  unfold resolve. rewrite !split_slash_app in *.
  assert (length (split_slash (a2 ++ t')) = length (split_slash t')) as Hlen
    by (by apply split_slash_no_slash).
  rewrite removelast_app by apply split_slash_nonempty.
  rewrite walk_dots by (rewrite length_removelast; lia).
  apply walk_plain. by apply Forall_app in Hdd as [_ ?].
Qed.

Lemma path_relative_resolves_witness : resolve "/dev/a/b" "../c" = split_slash "/dev/c".
Proof.
  apply (path_relative_resolves "dev/c" "dev/a/b" 100 "../c" 4); [|vm_compute; reflexivity].
  repeat constructor; done.
Defined.

End Path.

(** * lib/utils/lookup-user.c and lookup-group.c *)

Module Lookup.
Section lookup.
(** The user (or group) database: is there an entry with this id, and the
    id of the entry with this name. *)
Variable getpwuid : Z -> bool.
Variable getpwnam : bytes -> option Z.

(** [None] is the result -1. *)
Definition lookup_user (user : option bytes) : option Z :=
  match user with
  | None => None
  | Some name =>
      if str_eq (Some ("root" : bytes)) user then Some 0
      else match parse_uint user with
           | Some uid => if getpwuid uid then Some uid else None
           | None => getpwnam name
           end
  end.
End lookup.

(** lookup_group is the same program over getgrgid and getgrnam. *)
Definition lookup_group (getgrgid : Z -> bool) (getgrnam : bytes -> option Z)
    (group : option bytes) : option Z :=
  match group with
  | None => None
  | Some name =>
      if str_eq (Some ("root" : bytes)) group then Some 0
      else match parse_uint group with
           | Some gid => if getgrgid gid then Some gid else None
           | None => getgrnam name
           end
  end.
End Lookup.

Example parse_argv_ex :
  let cmd := ("/bin/sh  -d   'one two'    'three'" : bytes) in
  ParseArgv.argv_strings (ParseArgv.parse_argv (cmd ++ [nul]) 0)
  = Some (["/bin/sh" : bytes; "-d" : bytes; "one two" : bytes; "three" : bytes]).
Proof. vm_compute. reflexivity. Qed.
