(* ===== verification/Strings.v ===== *)
(** The bounded string copies of shared/strxcpyx.c and the UTF-8 decoder of
    shared/utf8.c, with the theorems that the copies stay inside their buffer
    and that the decoder accepts exactly UTF-8. *)

From Stdlib Require Import ZArith Lia Ascii.
From stdpp Require Import prelude gmap strings sorting.
From S2P Require Import Prelude Utils.
Import Mem.

(** * shared/strxcpyx.c *)

Module Strxcpyx.

(** A destination: the bytes stored before the write pointer and the size
    that is left from there on.  Every function also stores a NUL at the
    pointer it leaves. *)
Record dst := mk_dst { out : bytes; left_ : nat }.

Definition dst_new (size : nat) : dst := mk_dst [] size.

Definition strpcpy (d : dst) (src : bytes) : dst :=
  let len := length src in
  let size := left_ d in
  if (size <=? len)%nat then
    mk_dst (if (1 <? size)%nat then out d ++ take (size - 1) src else out d) 0
  else if (0 <? len)%nat then mk_dst (out d ++ src) (size - len)
  else mk_dst (out d) size.

(** [src] is what [vsnprintf] formats; it stores a NUL itself, which is
    inside [out] when the pointer is moved behind it. *)
Definition strpcpyf (d : dst) (src : bytes) : dst :=
  let i := length src in
  if (i <? left_ d)%nat then mk_dst (out d ++ src) (left_ d - i)
  else mk_dst (out d ++ (if (0 <? left_ d)%nat then take (left_ d - 1) src ++ [nul] else [])) 0.

Definition strpcpyl (d : dst) (srcs : list bytes) : dst := fold_left strpcpy srcs d.
Definition strscpy (size : nat) (src : bytes) : bytes * nat :=
  let d := strpcpy (dst_new size) src in (out d, left_ d).
Definition strscpyl (size : nat) (srcs : list bytes) : bytes * nat :=
  let d := strpcpyl (dst_new size) srcs in (out d, left_ d).

(** [n] bytes were available at the start: what is stored and what is left
    never exceed them, and the terminator fits. *)
Definition dst_ok (n : nat) (d : dst) : Prop :=
  (length (out d) < n)%nat /\ (left_ d <> 0 -> length (out d) + left_ d = n)%nat.

Lemma dst_new_ok n : (0 < n)%nat -> dst_ok n (dst_new n).
Proof. unfold dst_ok. simpl. lia. Qed.

Lemma strpcpy_ok n d src : dst_ok n d -> dst_ok n (strpcpy d src).
Proof.
  unfold dst_ok, strpcpy. intros [H1 H2].
  destruct (Nat.leb_spec (left_ d) (length src)), (Nat.ltb_spec 1 (left_ d)),
    (Nat.ltb_spec 0 (length src)); simpl; rewrite ?length_app, ?length_take; lia.
Qed.

Lemma strpcpyl_ok n d srcs : dst_ok n d -> dst_ok n (strpcpyl d srcs).
Proof. revert d. induction srcs; intros d Hd; simpl; auto using strpcpy_ok. Qed.
#[export] Hint Resolve dst_new_ok strpcpy_ok strpcpyl_ok : udev.

Lemma strpcpy_prefix n d src :
  dst_ok n d -> out d `prefix_of` out (strpcpy d src).
Proof.
  intros _. unfold strpcpy. repeat case_match; simpl; auto using prefix_app_r.
Qed.

(** Everything is copied that fits in front of the terminator. *)
Lemma strpcpyl_eq l d :
  left_ d <> 0%nat ->
  strpcpyl d l = mk_dst (out d ++ take (left_ d - 1) (mjoin l))
    (if (length (mjoin l) <? left_ d)%nat then (left_ d - length (mjoin l))%nat else 0).
Proof.
  assert (forall d l, left_ d = 0%nat -> strpcpyl d l = d) as H0.
  { clear d l. intros d l. revert d. induction l as [|s l IH]; intros [o z] Hz; simpl in *; [done|].
    subst z. by rewrite IH. }
  revert d. induction l as [|s l IH]; intros [o z] Hz; simpl in *.
  { rewrite take_nil, app_nil_r, Nat.sub_0_r. by destruct z. }
  change (fold_left strpcpy l (strpcpy (mk_dst o z) s)) with (strpcpyl (strpcpy (mk_dst o z) s) l).
  unfold strpcpy. cbn [left_ out]. rewrite length_app.
  destruct (Nat.leb_spec z (length s)) as [Hle|Hgt].
  - rewrite H0 by done. rewrite (proj2 (Nat.ltb_ge (length s + _) z)) by lia.
    rewrite take_app_le by lia. destruct (Nat.ltb_spec 1 z); [done|].
    replace (z - 1)%nat with 0%nat by lia. by rewrite take_0, app_nil_r.
  - assert ((if (0 <? length s)%nat then mk_dst (o ++ s) (z - length s) else mk_dst o z)
      = mk_dst (o ++ s) (z - length s)) as ->.
    { destruct s; simpl; [|done]. by rewrite app_nil_r, Nat.sub_0_r. }
    rewrite IH; cbn [left_ out]; [|lia].
    rewrite <- app_assoc, take_app, (take_ge s) by lia.
    f_equal; [do 3 f_equal; lia|].
    destruct (Nat.ltb_spec (length (mjoin l)) (z - length s)),
      (Nat.ltb_spec (length s + length (mjoin l)) z); lia.
Qed.

(** Strings that fit are copied whole. *)
Lemma strpcpyl_fits l d :
  (length (mjoin l) < left_ d)%nat -> strpcpyl d l = mk_dst (out d ++ mjoin l) (left_ d - length (mjoin l)).
Proof.
  intros H. rewrite strpcpyl_eq by lia. rewrite (proj2 (Nat.ltb_lt _ _)) by done. by rewrite take_ge by lia.
Qed.
Lemma strscpyl_fits l size : (length (mjoin l) < size)%nat -> fst (strscpyl size l) = mjoin l.
Proof. intros H. unfold strscpyl. by rewrite strpcpyl_fits. Qed.
Lemma strscpy_fits s size : (length s < size)%nat -> fst (strscpy size s) = s.
Proof.
  intros H. change (strscpy size s) with (strscpyl size [s]). rewrite strscpyl_fits; [by apply app_nil_r|].
  unfold mjoin, list_join. by rewrite app_nil_r.
Qed.

(** the bounded copies write only inside the buffer they are given: the
    strings stored by any sequence of [strpcpy] and [strpcpyl] calls on a
    buffer of [size] bytes stay, with the terminator, within [size] bytes, and
    the result is the concatenation cut to [size - 1] bytes; a remaining size
    of 0 reports the truncation. *)
Lemma strscpyl_truncates size srcs :
  (0 < size)%nat ->
  strscpyl size srcs =
    (take (size - 1) (mjoin srcs),
     if (length (mjoin srcs) <? size)%nat then (size - length (mjoin srcs))%nat else 0%nat).
Proof. intros Hs. unfold strscpyl. rewrite strpcpyl_eq by (simpl; lia). done. Qed.

Lemma strscpyl_truncates_witness : strscpyl 4 ["ab" : bytes; "cde" : bytes] = ("abc" : bytes, 0%nat).
Proof. apply (strscpyl_truncates 4 ["ab" : bytes; "cde" : bytes]). lia. Defined.

(** [strpcpyf] does not keep this bound: when the formatted text does not
    fit, the pointer is moved by the whole size, so the final NUL goes one byte
    behind the end of a buffer that was exactly used up. *)
Theorem strpcpyf_off_by_one n src :
  (0 < n <= length src)%nat ->
  length (out (strpcpyf (dst_new n) src)) = n /\ ~ dst_ok n (strpcpyf (dst_new n) src).
Proof.
  intros Hn. unfold strpcpyf, dst_ok. simpl.
  rewrite (proj2 (Nat.ltb_ge _ _)), (proj2 (Nat.ltb_lt 0 n)) by lia. simpl.
  rewrite length_app, length_take. simpl. lia.
Qed.

Lemma strpcpyf_off_by_one_witness : length (out (strpcpyf (dst_new 2) "abc")) = 2%nat.
Proof. apply (strpcpyf_off_by_one 2 "abc"). simpl. lia. Defined.

End Strxcpyx.
Export Strxcpyx.

(** * shared/utf8.c *)

Module Utf8.

Definition EINVAL : Z := 22.

(** [str[i]]; the terminator is NUL. *)
Definition at_ (s : bytes) (i : nat) : Z := code (nth i s nul).

Definition is_unicode_valid (ch : Z) : bool :=
  if 0x110000 <=? ch then false
  else if Z.land ch 0xFFFFF800 =? 0xD800 then false
  else if (0xFDD0 <=? ch) && (ch <=? 0xFDEF) then false
  else if Z.land ch 0xFFFE =? 0xFFFE then false
  else true.

Definition is_unicode_control (ch : Z) : bool :=
  ((ch <? 32) && negb (ch =? 9) && negb (ch =? 10)) || ((0x7F <=? ch) && (ch <=? 0x9F)).

Definition utf8_encoded_expected_len (str : bytes) : Z :=
  let c := at_ str 0 in
  if c <? 0x80 then 1
  else if Z.land c 0xe0 =? 0xc0 then 2
  else if Z.land c 0xf0 =? 0xe0 then 3
  else if Z.land c 0xf8 =? 0xf0 then 4
  else if Z.land c 0xfc =? 0xf8 then 5
  else if Z.land c 0xfe =? 0xfc then 6
  else 0.

(** The loop over [str[i]], ..., [str[i + n - 1]]. *)
Fixpoint unichar_loop (str : bytes) (n i : nat) (unichar : Z) : Z :=
  match n with
  | O => unichar
  | S n' =>
      if negb (Z.land (at_ str i) 0xc0 =? 0x80) then - EINVAL
      else unichar_loop str n' (S i)
             (Z.lor (Z.shiftl unichar 6) (Z.land (at_ str i) 0x3f))
  end.

Definition utf8_encoded_to_unichar (str : bytes) : Z :=
  let len := utf8_encoded_expected_len str in
  let c := at_ str 0 in
  if len =? 1 then c
  else if len =? 2 then unichar_loop str 1 1 (Z.land c 0x1f)
  else if len =? 3 then unichar_loop str 2 1 (Z.land c 0x0f)
  else if len =? 4 then unichar_loop str 3 1 (Z.land c 0x07)
  else if len =? 5 then unichar_loop str 4 1 (Z.land c 0x03)
  else if len =? 6 then unichar_loop str 5 1 (Z.land c 0x01)
  else - EINVAL.

Definition utf8_unichar_to_encoded_len (unichar : Z) : Z :=
  if unichar <? 0x80 then 1
  else if unichar <? 0x800 then 2
  else if unichar <? 0x10000 then 3
  else if unichar <? 0x200000 then 4
  else if unichar <? 0x4000000 then 5
  else 6.

Definition utf8_encoded_valid_unichar (str : bytes) : Z :=
  let len := utf8_encoded_expected_len str in
  if len =? 0 then - EINVAL
  else if len =? 1 then 1
  else if negb (forallb (fun i => Z.land (at_ str i) 0x80 =? 0x80) (seq 0 (Z.to_nat len)))
  then - EINVAL
  else
    let unichar := utf8_encoded_to_unichar str in
    if negb (utf8_unichar_to_encoded_len unichar =? len) then - EINVAL
    else if negb (is_unicode_valid (u32 unichar)) then - EINVAL
    else len.

(** The loops that walk a string character by character have at most one
    step per byte. *)
Fixpoint utf8_is_valid_loop (fuel : nat) (p : bytes) : bool :=
  match fuel, p with
  | O, _ => false
  | _, [] => true
  | S fuel', _ =>
      let len := utf8_encoded_valid_unichar p in
      if len <? 0 then false else utf8_is_valid_loop fuel' (drop (Z.to_nat len) p)
  end.
Definition utf8_is_valid (str : bytes) : bool := utf8_is_valid_loop (S (length str)) str.

(** U+FFFD. *)
Definition UTF8_REPLACEMENT_CHARACTER : bytes := [chr 0xef; chr 0xbf; chr 0xbd].

Fixpoint utf8_escape_invalid_loop (fuel : nat) (str : bytes) : bytes :=
  match fuel, str with
  | O, _ | _, [] => []
  | S fuel', c :: str' =>
      let len := utf8_encoded_valid_unichar str in
      if 0 <? len
      then take (Z.to_nat len) str ++ utf8_escape_invalid_loop fuel' (drop (Z.to_nat len) str)
      else UTF8_REPLACEMENT_CHARACTER ++ utf8_escape_invalid_loop fuel' str'
  end.
Definition utf8_escape_invalid (str : bytes) : bytes :=
  utf8_escape_invalid_loop (S (length str)) str.

Definition ascii_is_valid (str : bytes) : bool := forallb (fun c => negb (128 <=? code c)) str.

(** The 16-bit little-endian units of the input, up to a unit of 0. *)
Fixpoint utf16_to_utf8 (f : list (byte * byte)) : bytes :=
  match f with
  | [] => []
  | (f0, f1) :: f' =>
      let c := u16 (Z.lor (Z.shiftl (code f1) 8) (code f0)) in
      if c =? 0 then []
      else if c <? 0x80 then chr c :: utf16_to_utf8 f'
      else if c <? 0x800 then
        chr (Z.lor 0xc0 (Z.shiftr c 6)) :: chr (Z.lor 0x80 (Z.land c 0x3f)) :: utf16_to_utf8 f'
      else
        chr (Z.lor 0xe0 (Z.shiftr c 12)) :: chr (Z.lor 0x80 (Z.land (Z.shiftr c 6) 0x3f)) ::
        chr (Z.lor 0x80 (Z.land c 0x3f)) :: utf16_to_utf8 f'
  end.

(** * The encoding it decodes *)

(** UTF-8, by arithmetic (RFC 3629). *)
Definition utf8_encode (ch : Z) : bytes :=
  if ch <? 0x80 then [chr ch]
  else if ch <? 0x800 then [chr (0xc0 + ch / 64); chr (0x80 + ch mod 64)]
  else if ch <? 0x10000 then
    [chr (0xe0 + ch / 4096); chr (0x80 + ch / 64 mod 64); chr (0x80 + ch mod 64)]
  else [chr (0xf0 + ch / 262144); chr (0x80 + ch / 4096 mod 64);
        chr (0x80 + ch / 64 mod 64); chr (0x80 + ch mod 64)].

Definition range (P : Z -> bool) (lo hi : Z) (c : byte) : bool :=
  eqb (P (code c)) ((lo <=? code c) && (code c <=? hi)).

Lemma range_ok P lo hi :
  forallb (range P lo hi) (chr <$> (Z.of_nat <$> seq 0 256)) = true ->
  forall c, P (code c) = (lo <=? code c) && (code c <=? hi).
Proof. intros H c. apply eqb_prop. by apply (byte_ind (range P lo hi)). Qed.

Lemma lead2 c : (Z.land (code c) 0xe0 =? 0xc0) = (0xc0 <=? code c) && (code c <=? 0xdf).
Proof. apply (range_ok (fun z => Z.land z 0xe0 =? 0xc0)). reflexivity. Qed.
Lemma lead3 c : (Z.land (code c) 0xf0 =? 0xe0) = (0xe0 <=? code c) && (code c <=? 0xef).
Proof. apply (range_ok (fun z => Z.land z 0xf0 =? 0xe0)). reflexivity. Qed.
Lemma lead4 c : (Z.land (code c) 0xf8 =? 0xf0) = (0xf0 <=? code c) && (code c <=? 0xf7).
Proof. apply (range_ok (fun z => Z.land z 0xf8 =? 0xf0)). reflexivity. Qed.
Lemma cont c : (Z.land (code c) 0xc0 =? 0x80) = (0x80 <=? code c) && (code c <=? 0xbf).
Proof. apply (range_ok (fun z => Z.land z 0xc0 =? 0x80)). reflexivity. Qed.
Lemma high c : (Z.land (code c) 0x80 =? 0x80) = (0x80 <=? code c) && (code c <=? 0xff).
Proof. apply (range_ok (fun z => Z.land z 0x80 =? 0x80)). reflexivity. Qed.

Lemma shift_or a b : 0 <= b < 64 -> Z.lor (Z.shiftl a 6) b = a * 64 + b.
Proof.
  intros Hb. rewrite Z.shiftl_mul_pow2 by lia. change (2 ^ 6) with 64.
  assert (Z.land (a * 64) b = 0) as H0.
  { apply Z.bits_inj'. intros n Hn. rewrite Z.land_spec, Z.bits_0. change 64 with (2 ^ 6).
    destruct (Z.ltb_spec n 6); [by rewrite Z.mul_pow2_bits_low by lia|].
    replace b with (b mod 2 ^ 6) by (apply Z.mod_small; lia).
    rewrite Z.mod_pow2_bits_high by lia. apply andb_false_r. }
  pose proof (Z.add_lor_land (a * 64) b). lia.
Qed.

Lemma land63 a : Z.land a 0x3f = a mod 64.
Proof. apply (Z.land_ones a 6). lia. Qed.

Definition lead_len (c : byte) : Z :=
  let n := code c in
  if n <=? 0x7f then 1 else if n <=? 0xbf then 0 else if n <=? 0xdf then 2
  else if n <=? 0xef then 3 else if n <=? 0xf7 then 4 else if n <=? 0xfb then 5
  else if n <=? 0xfd then 6 else 0.

Lemma expected_len_lead c s : utf8_encoded_expected_len (c :: s) = lead_len c.
Proof.
  change (utf8_encoded_expected_len (c :: s)) with (utf8_encoded_expected_len [c]).
  apply Z.eqb_eq.
  by apply (byte_ind (fun c => utf8_encoded_expected_len [c] =? lead_len c)).
Qed.

Definition cont_byte (x : Z) : byte := chr (0x80 + x).
Definition fold6 (u : Z) (xs : list Z) : Z := fold_left (fun u x => u * 64 + x) xs u.

Lemma unichar_loop_inv s n i u :
  unichar_loop s n i u = - EINVAL \/
  exists xs, length xs = n /\ Forall (fun x => 0 <= x < 64) xs /\
    take n (drop i s) = (cont_byte <$> xs) /\ unichar_loop s n i u = fold6 u xs.
Proof.
  revert i u. induction n as [|n IH]; intros i u.
  { right. exists []. by rewrite take_0. }
  cbn [unichar_loop]. unfold at_. rewrite cont.
  destruct (Z.leb_spec 0x80 (code (nth i s nul))) as [H1|]; [|by left].
  destruct (Z.leb_spec (code (nth i s nul)) 0xbf) as [H2|]; [|by left]. simpl negb.
  destruct (s !! i) as [c|] eqn:Hi.
  2: { rewrite nth_lookup, Hi in H1. by cbn in H1. }
  rewrite nth_lookup, Hi in *. simpl default in *. cbv iota.
  pose proof (Z.mod_pos_bound (code c) 64 ltac:(lia)).
  rewrite land63, shift_or by done.
  destruct (IH (S i) (u * 64 + code c mod 64)) as [->|(xs & Hl & Hf & Ht & ->)]; [by left|right].
  exists (code c mod 64 :: xs). split_and!; [by simpl; f_equal|by constructor| |done].
  rewrite (drop_S s c i) by done. simpl. rewrite Ht. f_equal. unfold cont_byte.
  rewrite <- (chr_code c) at 1. f_equal. Z.div_mod_to_equations. lia.
Qed.

Lemma unichar_loop_app pre xs rest u :
  Forall (fun x => 0 <= x < 64) xs ->
  unichar_loop (pre ++ (cont_byte <$> xs) ++ rest) (length xs) (length pre) u = fold6 u xs.
Proof.
  intros Hf. revert pre u. induction Hf as [|x xs Hx _ IH]; intros pre u; [done|].
  cbn [length unichar_loop fmap list_fmap app]. unfold at_.
  rewrite (app_nth2 pre), Nat.sub_diag by lia. cbn [nth].
  assert (code (cont_byte x) = 0x80 + x) as Hc.
  { unfold cont_byte. rewrite code_chr. apply Z.mod_small. lia. }
  rewrite cont, Hc. rewrite (proj2 (Z.leb_le _ _)), (proj2 (Z.leb_le _ 0xbf)) by lia. simpl negb.
  cbv iota. rewrite land63. replace ((0x80 + x) mod 64) with x by (Z.div_mod_to_equations; lia).
  rewrite shift_or by done.
  specialize (IH (pre ++ [cont_byte x]) (u * 64 + x)).
  rewrite <- app_assoc, length_app, Nat.add_1_r in IH. apply IH.
Qed.

(** The character behind a leading byte and [n] continuation bytes. *)
Lemma multi_inv c s n u :
  let ch := unichar_loop (c :: s) n 1 u in
  0 <= u -> 1 < utf8_unichar_to_encoded_len ch ->
  exists xs, length xs = n /\ Forall (fun x => 0 <= x < 64) xs /\
    s = (cont_byte <$> xs) ++ drop n s /\ ch = fold6 u xs.
Proof.
  intros ch Hu Hch. subst ch.
  destruct (unichar_loop_inv (c :: s) n 1 u) as [H|(xs & Hl & Hf & Ht & H)]; rewrite H in *.
  { by cbn in Hch. }
  exists xs. split_and!; [done..| |done]. rewrite <- Ht. by rewrite take_drop.
Qed.

Lemma ascii_valid c : code c <= 0x7f -> is_unicode_valid (code c) = true.
Proof.
  intros H. opose proof (byte_ind (fun c => (128 <=? code c) || is_unicode_valid (code c)) _ c) as Hb;
    [reflexivity|]. simpl in Hb. rewrite (proj2 (Z.leb_gt _ _)) in Hb by lia. done.
Qed.

Lemma lead_len_inv c n :
  lead_len c = n -> n <> 0 ->
  (n = 1 /\ code c <= 0x7f) \/ (n = 2 /\ 0xc0 <= code c <= 0xdf) \/
  (n = 3 /\ 0xe0 <= code c <= 0xef) \/ (n = 4 /\ 0xf0 <= code c <= 0xf7) \/
  (n = 5 /\ 0xf8 <= code c <= 0xfb) \/ (n = 6 /\ 0xfc <= code c <= 0xfd).
Proof.
  unfold lead_len. intros <-.
  repeat match goal with |- context [?a <=? ?b] => destruct (Z.leb_spec a b) end; lia.
Qed.

Lemma encoded_len_inv ch n :
  utf8_unichar_to_encoded_len ch = n -> is_unicode_valid (u32 ch) = true -> 0 <= ch < 2 ^ 31 ->
  is_unicode_valid ch = true /\ ch < 0x110000 /\
  ((n = 1 /\ ch < 0x80) \/ (n = 2 /\ 0x80 <= ch < 0x800) \/
   (n = 3 /\ 0x800 <= ch < 0x10000) \/ (n = 4 /\ 0x10000 <= ch)).
Proof.
  intros <- Hv Hr. rewrite wrap_small in Hv by lia. split; [done|].
  assert (ch < 0x110000) as Hlt.
  { unfold is_unicode_valid in Hv. destruct (Z.leb_spec 0x110000 ch); [done|lia]. }
  split; [done|]. unfold utf8_unichar_to_encoded_len.
  repeat match goal with |- context [?a <? ?b] => destruct (Z.ltb_spec a b) end; lia.
Qed.

Lemma utf8_encode_lead ch :
  utf8_encode ch =
    if ch <? 0x80 then [chr ch]
    else if ch <? 0x800 then chr (0xc0 + ch / 64) :: (cont_byte <$> [ch mod 64])
    else if ch <? 0x10000 then
      chr (0xe0 + ch / 4096) :: (cont_byte <$> [ch / 64 mod 64; ch mod 64])
    else chr (0xf0 + ch / 262144) ::
      (cont_byte <$> [ch / 4096 mod 64; ch / 64 mod 64; ch mod 64]).
Proof. reflexivity. Qed.

Ltac decide_ltb :=
  repeat match goal with
  | |- context [?a <? ?b] =>
      first [rewrite (proj2 (Z.ltb_lt a b)) by lia | rewrite (proj2 (Z.ltb_ge a b)) by lia]
  | |- context [?a <=? ?b] =>
      first [rewrite (proj2 (Z.leb_le a b)) by (Z.div_mod_to_equations; lia)
            |rewrite (proj2 (Z.leb_gt a b)) by (Z.div_mod_to_equations; lia)]
  end; cbv iota.

Ltac inv_digits H Hf :=
  repeat match type of H with
  | length ?xs = S _ => destruct xs as [|? xs]; simpl in H; [done|]; apply Nat.succ_inj in H;
                        apply Forall_cons in Hf as [? Hf]
  | length ?xs = O => destruct xs; [clear H Hf|done]
  end.

Lemma multi_valid c s k u len (n : nat) :
  let ch := unichar_loop (c :: s) k 1 u in
  (if negb (utf8_unichar_to_encoded_len ch =? len) then - EINVAL
   else if negb (is_unicode_valid (u32 ch)) then - EINVAL else len) = Z.of_nat n ->
  1 < len -> 0 <= u ->
  Z.of_nat n = len /\ utf8_unichar_to_encoded_len ch = len /\ is_unicode_valid (u32 ch) = true /\
  exists xs, length xs = k /\ Forall (fun x => 0 <= x < 64) xs /\
    s = (cont_byte <$> xs) ++ drop k s /\ ch = fold6 u xs.
Proof.
  intros ch. unfold EINVAL. destruct (Z.eqb_spec (utf8_unichar_to_encoded_len ch) len) as [Hl|]; simpl; [|lia].
  destruct (is_unicode_valid (u32 ch)); simpl; [|lia]. intros <- Hlen Hu. split_and!; [done..|].
  apply multi_inv; [done|]. subst ch. lia.
Qed.

Lemma digit_mod a b : 0 <= b < 64 -> (a * 64 + b) mod 64 = b.
Proof. intros. rewrite Z.add_comm, Z.mod_add by lia. by apply Z.mod_small. Qed.
Lemma digit_div a b : 0 <= b < 64 -> (a * 64 + b) / 64 = a.
Proof. intros. rewrite Z.add_comm, Z.div_add by lia. rewrite Z.div_small; lia. Qed.
Lemma digit_div2 a b c : 0 <= b < 64 -> 0 <= c < 64 -> ((a * 64 + b) * 64 + c) / 4096 = a.
Proof. intros. change 4096 with (64 * 64). rewrite <- Z.div_div, !digit_div; lia. Qed.
Lemma digit_div3 a b c d :
  0 <= b < 64 -> 0 <= c < 64 -> 0 <= d < 64 ->
  (((a * 64 + b) * 64 + c) * 64 + d) / 262144 = a.
Proof. intros. change 262144 with (64 * 4096). rewrite <- Z.div_div, digit_div, digit_div2; lia. Qed.

Lemma utf8_valid_inv s n :
  s <> [] -> (0 < n)%nat -> utf8_encoded_valid_unichar s = Z.of_nat n ->
  let ch := utf8_encoded_to_unichar s in
  0 <= ch /\ is_unicode_valid ch = true /\ n = length (utf8_encode ch) /\
  exists rest, s = utf8_encode ch ++ rest.
Proof.
  destruct s as [|c s]; [done|]. intros _ Hn Hv ch. pose proof (code_range c) as Hc.
  subst ch. unfold utf8_encoded_valid_unichar, utf8_encoded_to_unichar in *.
  rewrite expected_len_lead in *. change (at_ (c :: s) 0) with (code c) in *.
  destruct (Z.eqb_spec (lead_len c) 0) as [|Hne]; [unfold EINVAL in *; lia|].
  destruct (lead_len_inv c _ eq_refl Hne) as [[E Hr]|[[E Hr]|[[E Hr]|[[E Hr]|[[E Hr]|[E Hr]]]]]];
    rewrite E in *; cbn [Z.eqb Pos.eqb] in *; cbv iota in *.
  1: { assert (n = 1%nat) as -> by lia. split; [lia|]. split; [by apply ascii_valid|].
       unfold utf8_encode. decide_ltb. rewrite chr_code. split; [done|by exists s]. }
  all: destruct (forallb _ _); cbn [negb] in Hv; [|unfold EINVAL in *; lia].
  all: apply multi_valid in Hv as (Hnl & Hl & Hval & xs & Hx & Hf & Hs & Hch);
    [|lia|apply Z.land_nonneg; lia].
  all: rewrite Hch in *; inv_digits Hx Hf; unfold fold6 in *; cbn [fold_left] in *.
  all: pose proof (Z.land_ones (code c) 5 ltac:(lia)) as Hm5;
    pose proof (Z.land_ones (code c) 4 ltac:(lia)) as Hm4;
    pose proof (Z.land_ones (code c) 3 ltac:(lia)) as Hm3;
    pose proof (Z.land_ones (code c) 2 ltac:(lia)) as Hm2;
    pose proof (Z.land_ones (code c) 1 ltac:(lia)) as Hm1.
  all: change (Z.ones 5) with 0x1f in *; change (Z.ones 4) with 0x0f in *;
    change (Z.ones 3) with 0x07 in *; change (Z.ones 2) with 0x03 in *; change (Z.ones 1) with 0x01 in *.
  all: rewrite ?Hm5, ?Hm4, ?Hm3, ?Hm2, ?Hm1 in *; clear Hm1 Hm2 Hm3 Hm4 Hm5.
  all: first [replace (code c mod 2 ^ 5) with (code c - 0xc0) in * by (Z.div_mod_to_equations; lia)
    | replace (code c mod 2 ^ 4) with (code c - 0xe0) in * by (Z.div_mod_to_equations; lia)
    | replace (code c mod 2 ^ 3) with (code c - 0xf0) in * by (Z.div_mod_to_equations; lia)
    | replace (code c mod 2 ^ 2) with (code c - 0xf8) in * by (Z.div_mod_to_equations; lia)
    | replace (code c mod 2 ^ 1) with (code c - 0xfc) in * by (Z.div_mod_to_equations; lia)].
  all: destruct (encoded_len_inv _ _ Hl Hval) as (Hv & Hlt & Hcase); [lia|].
  all: split; [lia|]; split; [done|].
  all: rewrite utf8_encode_lead; decide_ltb; rewrite ?digit_div, ?digit_div2, ?digit_div3, ?digit_mod by lia.
  all: split; [simpl; lia|eexists; rewrite Hs at 1; simpl; do 2 f_equal].
  all: by rewrite <- (chr_code c) at 1; f_equal; lia.
Qed.

Lemma code_chr_small z : 0 <= z < 256 -> code (chr z) = z.
Proof. intros. rewrite code_chr. by apply Z.mod_small. Qed.

Lemma code_cont x : 0 <= x < 64 -> code (cont_byte x) = 0x80 + x.
Proof. intros. apply code_chr_small. lia. Qed.

(** A character of [k] > 1 bytes: leading byte [c], continuation bytes [xs]. *)
Lemma multi_encode c xs rest ch :
  let k := S (length xs) in
  Forall (fun x => 0 <= x < 64) xs -> (1 < k < 5)%nat ->
  lead_len c = Z.of_nat k -> 0xc0 <= code c ->
  fold6 (if (k =? 2)%nat then Z.land (code c) 0x1f else if (k =? 3)%nat then Z.land (code c) 0x0f
         else Z.land (code c) 0x07) xs = ch ->
  0 <= ch < 2 ^ 31 -> is_unicode_valid ch = true ->
  utf8_unichar_to_encoded_len ch = Z.of_nat k ->
  utf8_encoded_valid_unichar (c :: (cont_byte <$> xs) ++ rest) = Z.of_nat k /\
  utf8_encoded_to_unichar (c :: (cont_byte <$> xs) ++ rest) = ch.
Proof.
  intros k Hf Hk Hl Hc Hfold Hch Hv He. subst k.
  set (s := c :: (cont_byte <$> xs) ++ rest).
  assert (utf8_encoded_to_unichar s = ch) as Hto.
  { subst s. unfold utf8_encoded_to_unichar. rewrite expected_len_lead, Hl.
    change (at_ (c :: (cont_byte <$> xs) ++ rest) 0) with (code c).
    rewrite <- Hfold.
    destruct xs as [|x1 [|x2 [|x3 [|]]]]; simpl in Hk; try lia;
      apply (unichar_loop_app [c] _ rest _ Hf). }
  split; [|done]. unfold utf8_encoded_valid_unichar. rewrite Hto, He, wrap_small by lia.
  assert (utf8_encoded_expected_len s = Z.of_nat (S (length xs))) as ->.
  { unfold s. by rewrite expected_len_lead. }
  rewrite Nat2Z.id, Hv, Z.eqb_refl.
  assert (forallb (fun i => Z.land (at_ s i) 0x80 =? 0x80) (seq 0 (S (length xs))) = true) as ->.
  { apply forallb_forall. intros i Hi. apply in_seq in Hi. unfold at_. rewrite high.
    apply andb_true_iff. pose proof (code_range (nth i s nul)). split; apply Z.leb_le; [|lia].
    destruct i as [|i]; [simpl; lia|]. simpl. rewrite app_nth1 by (rewrite length_fmap; lia).
    rewrite nth_lookup, list_lookup_fmap.
    destruct (lookup_lt_is_Some_2 xs i) as [x Hx]; [lia|]. rewrite Hx. simpl.
    rewrite Forall_lookup in Hf. specialize (Hf i x Hx). rewrite code_cont by done. lia. }
  destruct (Z.eqb_spec (Z.of_nat (S (length xs))) 0); [lia|].
  destruct (Z.eqb_spec (Z.of_nat (S (length xs))) 1); [lia|done].
Qed.

Lemma utf8_valid_encode ch rest :
  0 <= ch -> is_unicode_valid ch = true ->
  utf8_encoded_valid_unichar (utf8_encode ch ++ rest) = Z.of_nat (length (utf8_encode ch)) /\
  utf8_encoded_to_unichar (utf8_encode ch ++ rest) = ch.
Proof.
  intros H0 Hv. assert (ch < 0x110000) as Hlt.
  { unfold is_unicode_valid in Hv. destruct (Z.leb_spec 0x110000 ch); [done|lia]. }
  rewrite utf8_encode_lead.
  destruct (Z.ltb_spec ch 0x80); [|destruct (Z.ltb_spec ch 0x800); [|destruct (Z.ltb_spec ch 0x10000)]].
  1: { unfold utf8_encoded_valid_unichar, utf8_encoded_to_unichar. simpl app.
    rewrite expected_len_lead. unfold lead_len, at_. simpl nth. rewrite code_chr_small by lia.
    rewrite (proj2 (Z.leb_le _ _)) by lia. done. }
  all: match goal with
       | |- context [chr ?b :: (cont_byte <$> ?xs)] => 
           opose proof (multi_encode (chr b) xs rest) as Hm
       end; rewrite length_cons, length_fmap.
  all: apply Hm; [repeat (constructor; [apply Z.mod_pos_bound; lia|]); constructor|simpl; lia| | | |lia|done|].
  all: unfold lead_len, utf8_unichar_to_encoded_len, fold6; cbn [fold_left length Nat.eqb].
  all: rewrite ?code_chr_small by (Z.div_mod_to_equations; lia).
  all: try (Z.div_mod_to_equations; lia).
  all: decide_ltb; try reflexivity.
  all: change 0x1f with (Z.ones 5); change 0x0f with (Z.ones 4); change 0x07 with (Z.ones 3);
    rewrite Z.land_ones by lia; clear Hm Hv.
  all: replace (ch / 4096) with (ch / 64 / 64) by (rewrite Z.div_div; [done|lia|lia]);
    try replace (ch / 262144) with (ch / 64 / 64 / 64) by (rewrite !Z.div_div; [done|lia..]).
  all: Z.div_mod_to_equations; lia.
Qed.

(** [utf8_encoded_valid_unichar] accepts exactly UTF-8: it returns [n] > 0
    and [utf8_encoded_to_unichar] returns [ch] if and only if the string
    starts with the (shortest) encoding of [ch], whose length is [n], and [ch]
    is a Unicode character the decoder accepts.  So overlong forms,
    surrogates, values above U+10FFFF and truncated sequences are refused. *)
Lemma utf8_valid_iff s n ch :
  s <> [] -> (0 < n)%nat ->
  utf8_encoded_valid_unichar s = Z.of_nat n /\ utf8_encoded_to_unichar s = ch <->
  0 <= ch /\ is_unicode_valid ch = true /\ n = length (utf8_encode ch) /\
  exists rest, s = utf8_encode ch ++ rest.
Proof.
  intros Hs Hn. split.
  - intros [Hv <-]. by apply utf8_valid_inv.
  - intros (H0 & Hv & -> & rest & ->). by apply utf8_valid_encode.
Qed.

Lemma utf8_valid_iff_witness :
  utf8_encoded_to_unichar [chr 0xc3; chr 0xa9; chr 0x21] = 0xe9.
Proof.
  apply (utf8_valid_iff [chr 0xc3; chr 0xa9; chr 0x21] 2 0xe9); [done|lia|].
  split_and!; [lia|reflexivity|reflexivity|]. exists [chr 0x21]. reflexivity.
Defined.

Lemma utf8_encode_length ch : (1 <= length (utf8_encode ch) <= 4)%nat.
Proof. unfold utf8_encode. repeat split_if; simpl; lia. Qed.

(** The result is negative, or the number of bytes of the character. *)
Lemma valid_unichar_cases s :
  s <> [] ->
  utf8_encoded_valid_unichar s < 0 \/
  exists ch rest, 0 <= ch /\ is_unicode_valid ch = true /\ s = utf8_encode ch ++ rest /\
    utf8_encoded_valid_unichar s = Z.of_nat (length (utf8_encode ch)).
Proof.
  intros Hs. destruct (Z.ltb_spec (utf8_encoded_valid_unichar s) 0) as [|Hge]; [by left|right].
  destruct (utf8_valid_inv s (Z.to_nat (utf8_encoded_valid_unichar s)))
    as (H0 & Hv & Hn & rest & Hr); [done| |by rewrite Z2Nat.id|].
  { assert (utf8_encoded_valid_unichar s <> 0); [|lia].
    unfold utf8_encoded_valid_unichar, EINVAL in *.
    destruct s as [|c s]; [done|]. rewrite expected_len_lead in *.
    destruct (Z.eqb_spec (lead_len c) 0); [lia|]. repeat case_match; lia. }
  exists (utf8_encoded_to_unichar s), rest. split_and!; [done..|lia].
Qed.

(** A string of Unicode characters. *)
Definition utf8_string (s : bytes) : Prop :=
  exists chs, Forall (fun ch => 0 <= ch /\ is_unicode_valid ch = true) chs /\
    s = mjoin (utf8_encode <$> chs).

Lemma utf8_string_cons ch s :
  0 <= ch -> is_unicode_valid ch = true -> utf8_string s -> utf8_string (utf8_encode ch ++ s).
Proof. intros H0 Hv (chs & Hf & ->). exists (ch :: chs). split; [by constructor|done]. Qed.

Lemma utf8_is_valid_loop_ok fuel s :
  (length s < fuel)%nat -> (utf8_is_valid_loop fuel s = true <-> utf8_string s).
Proof.
  revert s. induction fuel as [|fuel IH]; intros s Hl; [lia|].
  destruct s as [|c s']; [split; [by exists []|done]|].
  set (s := c :: s') in *. change (utf8_is_valid_loop (S fuel) s) with
    (let len := utf8_encoded_valid_unichar s in
     if len <? 0 then false else utf8_is_valid_loop fuel (drop (Z.to_nat len) s)). cbv zeta.
  destruct (valid_unichar_cases s ltac:(done)) as [Hneg|(ch & rest & H0 & Hv & Hs & Hn)].
  - rewrite (proj2 (Z.ltb_lt _ _) Hneg). split; [done|]. intros (chs & Hf & Hs).
    destruct chs as [|ch chs]; [done|]. apply Forall_cons in Hf as [[H0 Hv] _].
    destruct (utf8_valid_encode ch (mjoin (utf8_encode <$> chs)) H0 Hv) as [He _].
    change (s = utf8_encode ch ++ mjoin (utf8_encode <$> chs)) in Hs.
    rewrite Hs, He in Hneg. lia.
  - rewrite Hn, (proj2 (Z.ltb_ge _ _)) by lia. rewrite Nat2Z.id, Hs, drop_app_length.
    pose proof (utf8_encode_length ch). rewrite IH.
    2: { apply (f_equal length) in Hs. rewrite length_app in Hs. lia. }
    split; [by apply utf8_string_cons|]. intros (chs & Hf & Hr).
    destruct chs as [|ch' chs].
    { apply (f_equal length) in Hr. rewrite length_app in Hr. simpl in Hr. lia. }
    apply Forall_cons in Hf as [[H0' Hv'] Hf].
    destruct (utf8_valid_encode ch' (mjoin (utf8_encode <$> chs)) H0' Hv') as [_ Ht'].
    destruct (utf8_valid_encode ch rest H0 Hv) as [_ Ht].
    change (utf8_encode ch ++ rest = utf8_encode ch' ++ mjoin (utf8_encode <$> chs)) in Hr.
    rewrite Hr in Ht. assert (ch' = ch) as -> by congruence.
    apply app_inv_head in Hr. by exists chs.
Qed.

(** [utf8_is_valid] accepts exactly the strings that are a sequence of
    encoded characters, and [utf8_escape_invalid] turns every string into one
    and keeps the strings that already are. *)
Theorem utf8_escape_invalid_ok s :
  (utf8_is_valid s = true <-> utf8_string s) /\
  utf8_is_valid (utf8_escape_invalid s) = true /\
  (utf8_is_valid s = true -> utf8_escape_invalid s = s).
Proof.
  unfold utf8_is_valid. rewrite !utf8_is_valid_loop_ok by lia. split; [done|].
  unfold utf8_escape_invalid.
  assert (forall fuel s, (length s < fuel)%nat -> utf8_string (utf8_escape_invalid_loop fuel s) /\
    (utf8_is_valid_loop fuel s = true -> utf8_escape_invalid_loop fuel s = s)) as H.
  2: { destruct (H (S (length s)) s ltac:(lia)) as [? H2]. split; [done|]. intros Hs.
       apply H2. by apply utf8_is_valid_loop_ok; [lia|]. }
  clear s. induction fuel as [|fuel IH]; intros s Hl; [lia|].
  destruct s as [|c s']; [split; [by exists []|done]|].
  cbn [utf8_escape_invalid_loop utf8_is_valid_loop].
  destruct (valid_unichar_cases (c :: s') ltac:(done)) as [Hneg|(ch & rest & H0 & Hv & Hs & Hn)].
  - rewrite (proj2 (Z.ltb_lt _ _) Hneg), (proj2 (Z.ltb_ge 0 _)) by lia. split; [|done].
    apply (utf8_string_cons 0xfffd); [lia|reflexivity|]. apply IH. simpl in Hl. lia.
  - pose proof (utf8_encode_length ch). rewrite Hn, (proj2 (Z.ltb_lt 0 _)) by lia.
    rewrite (proj2 (Z.ltb_ge _ 0)) by lia. rewrite Nat2Z.id, Hs, take_app_length, drop_app_length.
    destruct (IH rest) as [H1 H2].
    { apply (f_equal length) in Hs. rewrite length_app in Hs. lia. }
    split; [by apply utf8_string_cons|]. intros Hr. by rewrite H2.
Qed.
End Utf8.
Export Utf8.
