(* ===== verification/Encode.v ===== *)
(** Making strings safe for device node names and properties: the encoding of
    shared/device-nodes.c and the replacement functions of
    lib/libudev-util.c. *)

From Stdlib Require Import ZArith Lia Ascii.
From stdpp Require Import prelude gmap strings sorting.
From S2P Require Import Prelude Utils Strings.

Module Encode.

(** * shared/device-nodes.c *)

Definition whitelisted_char_for_devnode (c : byte) (white : option bytes) : bool :=
  ((48 <=? code c) && (code c <=? 57)) ||
  ((65 <=? code c) && (code c <=? 90)) ||
  ((97 <=? code c) && (code c <=? 122)) ||
  bool_decide (strchr "#+-.:=@_" c <> None) ||
  match white with Some w => bool_decide (strchr w c <> None) | None => false end.

(** What is written from the current character on, [left] (= [len - j]) bytes
    being available, and the result. *)
Fixpoint encode_loop (fuel : nat) (str : bytes) (left : nat) : bytes * Z :=
  match fuel, str with
  | O, _ => ([], - EINVAL)
  | S _, [] => if (left <? 1)%nat then ([], - EINVAL) else ([], 0)
  | S fuel', c :: str' =>
      let seqlen := utf8_encoded_valid_unichar str in
      if 1 <? seqlen then
        let n := Z.to_nat seqlen in
        if (left <? n)%nat then ([], - EINVAL)
        else let '(out, r) := encode_loop fuel' (drop n str) (left - n) in (take n str ++ out, r)
      else if (c ==c "\") || negb (whitelisted_char_for_devnode c None) then
        if (left <? 4)%nat then ([], - EINVAL)
        else let '(out, r) := encode_loop fuel' str' (left - 4) in (char_encode c ++ out, r)
      else
        if (left <? 1)%nat then ([], - EINVAL)
        else let '(out, r) := encode_loop fuel' str' (left - 1) in (c :: out, r)
  end.
Definition encode_devnode_name (str : bytes) (len : nat) : bytes * Z :=
  encode_loop (S (length str)) str len.
(** The public name of the encoding. *)
Definition udev_util_encode_string : bytes -> nat -> bytes * Z := encode_devnode_name.

(** * lib/libudev-util.c *)

Definition LOG_ERR : Z := 3.
Definition LOG_INFO : Z := 6.
Definition LOG_DEBUG : Z := 7.

Definition util_log_priority (priority : bytes) : Z :=
  let '(prio, endptr) := strtol 10 priority in
  if match endptr with [] => true | c :: _ => isspace c end then s32 prio
  else if startswith priority "err" is Some _ then LOG_ERR
  else if startswith priority "info" is Some _ then LOG_INFO
  else if startswith priority "debug" is Some _ then LOG_DEBUG
  else 0.

(** The loop shortens the path from its end. *)
Fixpoint trailing_loop (c : byte) (rpath : bytes) : bytes :=
  match rpath with
  | x :: r => if x ==c c then trailing_loop c r else rpath
  | [] => []
  end.
Definition util_remove_trailing_chars (path : bytes) (c : byte) : bytes :=
  rev (trailing_loop c (rev path)).

(** [while (len && isspace(str[len-1])) len--]. *)
Fixpoint strip_len (str : bytes) (len : nat) : nat :=
  match len with
  | O => O
  | S len' => if isspace (nth len' str nul) then strip_len str len' else len
  end.
(** [while (isspace(str[i]) && (i < len)) i++]; [fuel] steps at most. *)
Fixpoint lead_loop (fuel : nat) (str : bytes) (len i : nat) : nat :=
  match fuel with
  | O => i
  | S fuel' =>
      if isspace (nth i str nul) && (i <? len)%nat then lead_loop fuel' str len (S i) else i
  end.
(** [while (isspace(str[i])) i++]. *)
Fixpoint space_loop (fuel : nat) (str : bytes) (i : nat) : nat :=
  match fuel with
  | O => i
  | S fuel' => if isspace (nth i str nul) then space_loop fuel' str (S i) else i
  end.
Fixpoint whitespace_loop (fuel : nat) (str : bytes) (len i : nat) : bytes :=
  match fuel with
  | O => []
  | S fuel' =>
      if (i <? len)%nat then
        if isspace (nth i str nul) then
          let i' := space_loop (length str) str i in
          "_"%char :: nth i' str nul :: whitespace_loop fuel' str len (S i')
        else nth i str nul :: whitespace_loop fuel' str len (S i)
      else []
  end.
Definition util_replace_whitespace (str : bytes) (len : nat) : bytes :=
  let len := strip_len str (Nat.min (length str) len) in
  let i := lead_loop (length str) str len 0 in
  whitespace_loop (length str) str len i.

(** The string and the number of replacements. *)
Fixpoint replace_loop (fuel : nat) (str : bytes) (white : option bytes) : bytes * Z :=
  match fuel, str with
  | O, _ | _, [] => ([], 0)
  | S fuel', c :: str' =>
      if whitelisted_char_for_devnode c white then
        let '(out, r) := replace_loop fuel' str' white in (c :: out, r)
      else if (c ==c "\") && (nth 0 str' nul ==c "x") then
        let '(out, r) := replace_loop fuel' (drop 2 str) white in (take 2 str ++ out, r)
      else
        let len := utf8_encoded_valid_unichar str in
        if 1 <? len then
          let n := Z.to_nat len in
          let '(out, r) := replace_loop fuel' (drop n str) white in (take n str ++ out, r)
        else if isspace c &&
                match white with Some w => bool_decide (strchr w " " <> None) | None => false end
        then let '(out, r) := replace_loop fuel' str' white in (" "%char :: out, r + 1)
        else let '(out, r) := replace_loop fuel' str' white in ("_"%char :: out, r + 1)
  end.
Definition util_replace_chars (str : bytes) (white : option bytes) : bytes * Z :=
  replace_loop (S (length str)) str white.

Example replace_ex :
  util_replace_chars "a b$\x41 c" (Some (" $" : bytes)) = ("a b$\x41 c" : bytes, 0) /\
  util_replace_chars "a b/c" None = ("a_b_c" : bytes, 2) /\
  util_replace_whitespace "  a  b c  zz" 9 = "a_b_c".
Proof. vm_compute. auto. Qed.

(** * Safe strings *)

Definition is_white (white : option bytes) (c : byte) : Prop :=
  whitelisted_char_for_devnode c white = true.

(** The pieces a safe string is made of. *)
Inductive piece (white : option bytes) : bytes -> Prop :=
| piece_white c : is_white white c -> piece white [c]
| piece_hex : piece white "\x"
| piece_utf8 ch : 0x80 <= ch -> is_unicode_valid ch = true -> piece white (utf8_encode ch).

Inductive clean (white : option bytes) : bytes -> Prop :=
| clean_nil : clean white []
| clean_app p s : piece white p -> clean white s -> clean white (p ++ s).

(** The extra characters allowed are ASCII characters. *)
Definition ascii_white (white : option bytes) : Prop :=
  match white with Some w => Forall (fun c => code c < 128) w | None => True end.

Lemma is_white_ascii white c :
  ascii_white white -> is_white white c -> code c < 128.
Proof.
  unfold is_white, whitelisted_char_for_devnode. intros Hw.
  rewrite !orb_true_iff, !andb_true_iff, !Z.leb_le, bool_decide_eq_true.
  intros [[[[H|H]|H]|H]|H]; try lia.
  - revert H. opose proof (byte_ind (fun c => bool_decide (strchr "#+-.:=@_" c = None) || (code c <? 128)) _ c)
      as Hb; [vm_compute; reflexivity|]. simpl in Hb.
    apply orb_true_iff in Hb as [Hb%bool_decide_eq_true|Hb%Z.ltb_lt]; [|done]. intros H. by destruct H.
  - destruct white as [w|]; [|done]. apply bool_decide_eq_true in H. simpl in Hw.
    destruct (decide (c = nul)) as [->|Hc]; [done|].
    destruct (strchr w c) as [r|] eqn:E; [|by destruct H].
    apply strchr_Some in E as (a & r' & -> & -> & _); [|done].
    apply Forall_app in Hw as [_ Hw]. by apply Forall_cons in Hw as [? _].
Qed.

Lemma whitelisted_mono c white :
  whitelisted_char_for_devnode c None = true -> is_white white c.
Proof.
  unfold is_white, whitelisted_char_for_devnode. rewrite orb_false_r. intros ->. done.
Qed.

Lemma white_hex v white : 0 <= v < 16 -> is_white white (char_hex v).
Proof.
  intros Hv. apply whitelisted_mono.
  assert (forallb (fun v => whitelisted_char_for_devnode (char_hex v) None)
    (Z.of_nat <$> seq 0 16) = true) as H by reflexivity.
  rewrite forallb_forall in H. apply H. apply list_elem_of_In, list_elem_of_fmap.
  exists (Z.to_nat v). split; [lia|]. apply elem_of_seq. lia.
Qed.

Lemma white_underscore white : is_white white "_".
Proof. by apply whitelisted_mono. Qed.

Lemma nibble_range c n : 0 <= n -> 0 <= Z.land (Z.shiftr (swrap 8 (code c)) n) 0xf < 16.
Proof. intros. rewrite (Z.land_ones _ 4) by lia. by apply Z.mod_pos_bound. Qed.

Lemma clean_piece white p : piece white p -> clean white p.
Proof. intros. rewrite <- (app_nil_r p). by constructor; [|constructor]. Qed.

Lemma clean_char white c s : is_white white c -> clean white s -> clean white (c :: s).
Proof. intros. by apply (clean_app _ [c]); [constructor|]. Qed.
#[local] Hint Resolve clean_char white_underscore white_hex clean_piece : udev.
#[local] Hint Constructors piece clean : udev.

Lemma clean_char_encode white c s : clean white s -> clean white (char_encode c ++ s).
Proof.
  intros Hs. unfold char_encode.
  change (clean white (("\x" : bytes) ++ char_hex (Z.land (Z.shiftr (swrap 8 (code c)) 4) 15) ::
    char_hex (Z.land (swrap 8 (code c)) 15) :: s)).
  pose proof (nibble_range c 0 ltac:(lia)) as H0. rewrite Z.shiftr_0_r in H0.
  pose proof (nibble_range c 4 ltac:(lia)) as H4. auto with udev.
Qed.

Lemma utf8_encode_nonnil ch : utf8_encode ch <> [].
Proof. pose proof (utf8_encode_length ch). destruct (utf8_encode ch); simpl in *; [lia|done]. Qed.

(** A character of more than one byte has only bytes that are not ASCII. *)
Lemma utf8_encode_head ch c s :
  0x80 <= ch -> is_unicode_valid ch = true -> utf8_encode ch = c :: s ->
  128 <= code c /\ (1 <= length s)%nat.
Proof.
  intros Hch Hv He. assert (ch < 0x110000) as Hlt.
  { unfold is_unicode_valid in Hv. destruct (Z.leb_spec 0x110000 ch); [done|lia]. }
  unfold utf8_encode in He. revert He.
  rewrite (proj2 (Z.ltb_ge ch 0x80)) by lia.
  destruct (Z.ltb_spec ch 0x800); [|destruct (Z.ltb_spec ch 0x10000)]; intros [= <- <-];
    (split; [|simpl; lia]); rewrite code_chr_small; Z.div_mod_to_equations; lia.
Qed.

(** The multi-byte case of the loops. *)
Lemma valid_unichar_multi s :
  s <> [] -> 1 < utf8_encoded_valid_unichar s ->
  exists ch rest, 0x80 <= ch /\ is_unicode_valid ch = true /\ s = utf8_encode ch ++ rest /\
    utf8_encoded_valid_unichar s = Z.of_nat (length (utf8_encode ch)).
Proof.
  intros Hs Hn. destruct (valid_unichar_cases s Hs) as [?|(ch & rest & H0 & Hv & He & Hl)]; [lia|].
  exists ch, rest. split_and!; [|done..]. destruct (Z.ltb_spec ch 0x80) as [Hlt|]; [|lia].
  rewrite Hl in Hn. unfold utf8_encode in Hn. rewrite (proj2 (Z.ltb_lt _ _) Hlt) in Hn. simpl in Hn. lia.
Qed.

(** * The replacement loop *)

(** A piece is kept, whatever follows it. *)
Lemma replace_loop_piece white p s fuel :
  ascii_white white -> piece white p -> (length (p ++ s) < fuel)%nat ->
  exists fuel', (length s < fuel')%nat /\
    replace_loop fuel (p ++ s) white =
      let '(out, r) := replace_loop fuel' s white in (p ++ out, r).
Proof.
  intros Hw Hp Hf. destruct fuel as [|fuel]; [lia|].
  destruct Hp as [c Hc| |ch Hch Hv].
  - exists fuel. simpl in *. split; [lia|]. by rewrite Hc.
  - change (("\x" : bytes) ++ s) with ("\"%char :: "x"%char :: s) in *.
    cbn [replace_loop length] in *.
    destruct (whitelisted_char_for_devnode "\" white) eqn:E.
    + destruct fuel as [|fuel]; [lia|]. exists fuel. split; [lia|]. cbn [replace_loop].
      rewrite (whitelisted_mono "x" white) by done. by destruct (replace_loop fuel s white).
    + exists fuel. split; [lia|]. done.
  - destruct (utf8_encode ch) as [|c u] eqn:Eu; [by apply utf8_encode_nonnil in Eu|].
    destruct (utf8_encode_head ch c u Hch Hv Eu) as [Hc Hl].
    exists fuel. simpl in Hf. rewrite length_app in Hf. split; [lia|].
    change ((c :: u) ++ s) with (c :: (u ++ s)). cbn [replace_loop].
    destruct (whitelisted_char_for_devnode c white) eqn:E.
    { apply (is_white_ascii white) in E; [lia|done]. }
    destruct (eqbP c "\") as [->|_]; [by cbn in Hc|]. simpl andb.
    change (c :: u ++ s) with ((c :: u) ++ s). rewrite <- Eu.
    destruct (utf8_valid_encode ch s) as [-> _]; [lia|done|].
    rewrite Eu at 1. rewrite (proj2 (Z.ltb_lt _ _)) by (simpl; lia).
    by rewrite Nat2Z.id, take_app_length, drop_app_length.
Qed.

Lemma replace_loop_clean white s fuel :
  ascii_white white -> clean white s -> (length s < fuel)%nat ->
  replace_loop fuel s white = (s, 0).
Proof.
  intros Hw Hs. revert fuel. induction Hs as [|p s Hp _ IH]; intros fuel Hf.
  { by destruct fuel. }
  destruct (replace_loop_piece white p s fuel Hw Hp Hf) as (fuel' & Hf' & ->). by rewrite IH.
Qed.

(** The positions where two strings differ. *)
Fixpoint differ (a b : bytes) : Z :=
  match a, b with
  | x :: a', y :: b' => (if x ==c y then 0 else 1) + differ a' b'
  | _, _ => 0
  end.

Lemma differ_app p a b : differ (p ++ a) (p ++ b) = differ a b.
Proof. induction p; simpl; [done|]. rewrite Ascii.eqb_refl. lia. Qed.

Lemma replace_loop_ok white s fuel :
  ascii_white white -> (length s < fuel)%nat ->
  let '(out, n) := replace_loop fuel s white in
  clean white out /\ length out = length s /\ n = differ s out.
Proof.
  intros Hw. revert s. induction fuel as [|fuel IH]; intros s Hf; [lia|].
  destruct s as [|c s]; [split_and!; [constructor|done..]|]. simpl in Hf.
  cbn [replace_loop].
  assert (Hrest : forall x, is_white white x -> (c ==c x) = false ->
    let '(out, n) := let '(out, r) := replace_loop fuel s white in (x :: out, r + 1) in
    clean white out /\ length out = length (c :: s) /\ n = differ (c :: s) out).
  { intros x Hx Hne. specialize (IH s ltac:(lia)). destruct (replace_loop _ _ _) as [out n].
    destruct IH as (Hc & Hl & ->).
    split_and!; [auto with udev|simpl; by rewrite Hl|simpl; rewrite Hne; lia]. }
  destruct (whitelisted_char_for_devnode c white) eqn:E.
  { specialize (IH s ltac:(lia)). destruct (replace_loop _ _ _) as [out n].
    destruct IH as (Hc & Hl & ->). simpl. rewrite Ascii.eqb_refl, Hl. auto with udev. }
  assert (Hsub : forall x, is_white white x -> (c ==c x) = false).
  { intros x Hx. destruct (eqbP c x) as [->|]; [|done]. unfold is_white in Hx. congruence. }
  destruct ((c ==c "\") && (nth 0 s nul ==c "x")) eqn:Ex.
  { apply andb_true_iff in Ex as [->%Ascii.eqb_eq Hx%Ascii.eqb_eq].
    destruct s as [|x s]; [done|]. simpl in Hx. subst x. simpl in Hf.
    specialize (IH s ltac:(lia)). cbn [drop take]. destruct (replace_loop _ _ _) as [out n].
    destruct IH as (Hc & Hl & ->). split_and!; [|simpl; by rewrite Hl|done].
    by apply (clean_app _ "\x"); [constructor|]. }
  destruct (Z.ltb_spec 1 (utf8_encoded_valid_unichar (c :: s))) as [Hlen|Hlen].
  { destruct (valid_unichar_multi (c :: s)) as (ch & rest & Hch & Hv & Hs & ->); [done|done|].
    rewrite Hs, Nat2Z.id, take_app_length, drop_app_length.
    pose proof (utf8_encode_length ch). apply (f_equal length) in Hs as Hl.
    rewrite length_app in Hl. simpl in Hl.
    specialize (IH rest ltac:(lia)). destruct (replace_loop _ _ _) as [out n].
    destruct IH as (Hc & Hlo & ->). rewrite !length_app, differ_app. split_and!; [|lia|done].
    constructor; [|done]. by constructor. }
  destruct (isspace c && _) eqn:Esp; (apply Hrest; [|apply Hsub]); auto with udev.
  all: apply andb_true_iff in Esp as [_ Hsp]; destruct white as [w|]; [|done];
    unfold is_white, whitelisted_char_for_devnode; rewrite Hsp; apply orb_true_r.
Qed.

(** [util_replace_chars] leaves only safe strings: the result, of the same
    length, is made of allowed characters, hex escapes and valid multi-byte
    UTF-8; the count is the number of bytes that changed; and running it
    again changes nothing. *)
Theorem util_replace_chars_ok s white :
  ascii_white white ->
  let '(out, n) := util_replace_chars s white in
  clean white out /\ length out = length s /\ n = differ s out /\
  util_replace_chars out white = (out, 0).
Proof.
  intros Hw. unfold util_replace_chars.
  pose proof (replace_loop_ok white s (S (length s)) Hw ltac:(lia)) as H.
  destruct (replace_loop _ s _) as [out n]. destruct H as (Hc & Hl & Hn).
  split_and!; [done..|]. apply replace_loop_clean; [done|done|lia].
Qed.

Lemma util_replace_chars_ok_witness :
  util_replace_chars "a_b" None = (("a_b" : bytes), 0).
Proof. apply (util_replace_chars_ok "a;b" None). constructor. Defined.

(** * The device node encoding *)

Definition hex_value (c : byte) : Z := default 0 (digit_val c).
(** What a reader of an encoded name computes. *)
Fixpoint unescape (s : bytes) : bytes :=
  match s with
  | [] => []
  | c :: r =>
      match r with
      | x :: a :: b :: r' =>
          if (c ==c "\") && (x ==c "x") then chr (hex_value a * 16 + hex_value b) :: unescape r'
          else c :: unescape r
      | _ => c :: unescape r
      end
  end.

Lemma unescape_cons c s : c <> "\"%char -> unescape (c :: s) = c :: unescape s.
Proof.
  intros Hc. cbn [unescape]. destruct (eqbP c "\"); [done|]. simpl. by repeat case_match.
Qed.

Lemma unescape_char_encode c s : unescape (char_encode c ++ s) = c :: unescape s.
Proof.
  unfold char_encode. set (a := char_hex (Z.land (Z.shiftr (swrap 8 (code c)) 4) 15)).
  set (b := char_hex (Z.land (swrap 8 (code c)) 15)).
  change (chr (hex_value a * 16 + hex_value b) :: unescape s = c :: unescape s).
  f_equal. subst a b. apply Ascii.eqb_eq. revert c. by apply byte_ind.
Qed.

Lemma utf8_encode_high ch :
  0x80 <= ch -> is_unicode_valid ch = true -> Forall (fun c => 128 <= code c) (utf8_encode ch).
Proof.
  intros Hch Hv. assert (ch < 0x110000) as Hlt.
  { unfold is_unicode_valid in Hv. destruct (Z.leb_spec 0x110000 ch); [done|lia]. }
  unfold utf8_encode. rewrite (proj2 (Z.ltb_ge ch 0x80)) by lia.
  destruct (Z.ltb_spec ch 0x800); [|destruct (Z.ltb_spec ch 0x10000)];
    repeat (constructor; [rewrite code_chr_small; Z.div_mod_to_equations; lia|]); constructor.
Qed.

Lemma unescape_app_high p s :
  Forall (fun c => 128 <= code c) p -> unescape (p ++ s) = p ++ unescape s.
Proof.
  induction 1 as [|c p Hc _ IH]; [done|]. simpl app. rewrite unescape_cons, IH; [done|].
  intros ->. by cbn in Hc.
Qed.

(** The encoded form [enc] of what is left of the string: what the loop
    stores when there is room for it and the terminator, and it fails when
    there is not. *)
Definition encodes (fuel : nat) (s enc : bytes) : Prop :=
  clean None enc /\ unescape enc = s /\ (length enc <= 4 * length s)%nat /\
  forall len, ((length enc < len)%nat -> encode_loop fuel s len = (enc, 0)) /\
    ((len <= length enc)%nat -> (encode_loop fuel s len).2 = - EINVAL).

(** One step of the loop that stores [p] for the piece [q] of the string. *)
Lemma encodes_step fuel fuel' q p s enc :
  (forall len, encode_loop fuel' (q ++ s) len =
    if (len <? length p)%nat then ([], - EINVAL)
    else let '(out, r) := encode_loop fuel s (len - length p) in (p ++ out, r)) ->
  clean None (p ++ enc) -> unescape (p ++ enc) = q ++ unescape enc ->
  (length p <= 4 * length q)%nat ->
  encodes fuel s enc -> encodes fuel' (q ++ s) (p ++ enc).
Proof.
  intros Hstep Hc Hu Hl (_ & Hs & Hle & Hlen).
  split; [done|]. split; [by rewrite Hu, Hs|]. rewrite !length_app. split; [lia|].
  intros len. rewrite Hstep. destruct (Hlen (len - length p)%nat) as [H1 H2].
  destruct (Nat.ltb_spec len (length p)); (split; intros Hn; [try lia|try done]).
  - rewrite H1 by lia. done.
  - specialize (H2 ltac:(lia)). by destruct (encode_loop fuel s _).
Qed.

Lemma encode_loop_ok s fuel :
  (length s < fuel)%nat -> exists enc, encodes fuel s enc.
Proof.
  revert s. induction fuel as [|fuel IH]; intros s Hf; [lia|].
  destruct s as [|c s].
  { exists []. split; [constructor|]. split_and!; [done|done|]. intros len. cbn [encode_loop].
    destruct (Nat.ltb_spec len 1); simpl; split; intros; done || lia. }
  simpl in Hf.
  destruct (Z.ltb_spec 1 (utf8_encoded_valid_unichar (c :: s))) as [Hn|Hn].
  - destruct (valid_unichar_multi (c :: s)) as (ch & rest & Hch & Hv & Hs & Hl); [done|done|].
    pose proof (utf8_encode_length ch). apply (f_equal length) in Hs as Hls.
    rewrite length_app in Hls. simpl in Hls. destruct (IH rest ltac:(lia)) as [enc He].
    exists (utf8_encode ch ++ enc). rewrite Hs. apply (encodes_step fuel); [| | |lia|done].
    + intros len. rewrite <- Hs. cbn [encode_loop]. rewrite (proj2 (Z.ltb_lt _ _) Hn), Hl, Nat2Z.id, Hs.
      by rewrite drop_app_length, take_app_length.
    + destruct He. constructor; [by constructor|done].
    + apply unescape_app_high. by apply utf8_encode_high.
  - destruct (IH s ltac:(lia)) as [enc He].
    assert (forall len, encode_loop (S fuel) (c :: s) len =
      (let p := if (c ==c "\") || negb (whitelisted_char_for_devnode c None)
                then char_encode c else [c] in
      if (len <? length p)%nat then ([], - EINVAL)
      else let '(out, r) := encode_loop fuel s (len - length p) in (p ++ out, r))) as Hstep.
    { intros len. cbn [encode_loop]. rewrite (proj2 (Z.ltb_ge _ _) Hn).
      by destruct ((c ==c "\") || negb (whitelisted_char_for_devnode c None)). }
    destruct ((c ==c "\") || negb (whitelisted_char_for_devnode c None)) eqn:E; eexists;
      (apply (encodes_step fuel _ [c]); [exact Hstep| | |simpl; lia|done]); destruct He.
    + by apply clean_char_encode.
    + apply unescape_char_encode.
    + apply orb_false_iff in E as [_ E%negb_false_iff]. by apply clean_char.
    + apply orb_false_iff in E as [E%Ascii.eqb_neq _]. by apply unescape_cons.
Qed.

(** The device node encoding.  Every string has an encoded form of at most
    four times its length, which only has characters that are safe in a device
    node name (so [util_replace_chars] keeps it), and from which the string is
    recovered, so different strings have different encodings;
    [encode_devnode_name] stores it when it fits with its terminator and
    fails otherwise. *)
Lemma encode_devnode_name_round_trip s :
  exists enc,
    unescape enc = s /\ clean None enc /\ util_replace_chars enc None = (enc, 0) /\
    (length enc <= 4 * length s)%nat /\
    forall len, ((length enc < len)%nat -> encode_devnode_name s len = (enc, 0)) /\
      ((len <= length enc)%nat -> (encode_devnode_name s len).2 = - EINVAL).
Proof.
  destruct (encode_loop_ok s (S (length s)) ltac:(lia)) as (enc & Hc & Hu & Hl & Hlen).
  exists enc. split_and!; [done|done| |done|done].
  apply replace_loop_clean; [done|done|lia].
Qed.

(** * White space *)

(** Every run of white space between other characters becomes one
    underscore, and white space at the end is dropped. *)
Fixpoint squeeze (pending : bool) (s : bytes) : bytes :=
  match s with
  | [] => []
  | c :: s' => if isspace c then squeeze true s'
               else (if pending then ["_"%char] else []) ++ c :: squeeze false s'
  end.

(** The string between the two ends of the stripped part. *)
Definition slice (s : bytes) (i len : nat) : bytes := take (len - i) (drop i s).

Lemma slice_S s i len c :
  (i < len)%nat -> s !! i = Some c -> slice s i len = c :: slice s (S i) len.
Proof.
  intros Hi Hc. unfold slice. rewrite (drop_S s c i Hc).
  by replace (len - i)%nat with (S (len - S i)) by lia.
Qed.

Lemma slice_end s i len : (len <= i)%nat -> slice s i len = [].
Proof. intros. unfold slice. by replace (len - i)%nat with 0%nat by lia. Qed.

Lemma squeeze_trailing p s c :
  isspace c = true -> squeeze p (s ++ [c]) = squeeze p s.
Proof.
  intros Hc. revert p. induction s as [|x s IH]; intros p; simpl; [by rewrite Hc|].
  rewrite !IH. done.
Qed.

Lemma strip_len_ok s len :
  (len <= length s)%nat ->
  (strip_len s len <= len)%nat /\
  (forall p, squeeze p (take (strip_len s len) s) = squeeze p (take len s)) /\
  (forall i, strip_len s len = S i -> isspace (nth i s nul) = false).
Proof.
  induction len as [|len IH]; intros Hl; [done|]. simpl.
  destruct (isspace (nth len s nul)) eqn:E.
  - destruct (IH ltac:(lia)) as (H1 & H2 & H3). split_and!; [lia| |done]. intros p. rewrite H2.
    destruct (lookup_lt_is_Some_2 s len) as [c Hc]; [lia|].
    rewrite (take_S_r s len c Hc), squeeze_trailing; [done|].
    by rewrite nth_lookup, Hc in E.
  - split_and!; [done|done|]. by intros i [= <-].
Qed.

Section whitespace.
Context (s : bytes) (len : nat).
Hypothesis Hlen : (len <= length s)%nat.
Hypothesis Hlast : forall i, len = S i -> isspace (nth i s nul) = false.

Lemma space_loop_ok fuel i :
  (i < len)%nat -> (len - i <= fuel)%nat ->
  let i' := space_loop fuel s i in
  (i <= i' < len)%nat /\ isspace (nth i' s nul) = false /\
  squeeze true (slice s i' len) = squeeze true (slice s i len).
Proof using Hlen Hlast.
  revert i. induction fuel as [|fuel IH]; intros i Hi Hf; [lia|]. cbn [space_loop].
  destruct (isspace (nth i s nul)) eqn:E; [|split_and!; [lia|lia|done|done]].
  assert (S i <> len). { intros <-. rewrite (Hlast i eq_refl) in E. done. }
  destruct (IH (S i)) as (H1 & H2 & H3); [lia|lia|]. split_and!; [lia|lia|done|].
  rewrite H3. destruct (lookup_lt_is_Some_2 s i) as [c Hc]; [lia|].
  rewrite (slice_S s i len c Hi Hc). simpl. rewrite nth_lookup, Hc in E. simpl in E. by rewrite E.
Qed.

Lemma lead_loop_ok fuel i :
  (i <= len)%nat -> (len - i <= fuel)%nat ->
  squeeze false (slice s (lead_loop fuel s len i) len) =
    squeeze false (skip_space (slice s i len)).
Proof using Hlen.
  revert i. induction fuel as [|fuel IH]; intros i Hi Hf; cbn [lead_loop].
  { by rewrite slice_end by lia. }
  destruct (Nat.ltb_spec i len) as [Hlt|].
  2: { by rewrite andb_false_r, slice_end by lia. }
  rewrite andb_true_r. destruct (lookup_lt_is_Some_2 s i) as [c Hc]; [lia|].
  rewrite nth_lookup, Hc. simpl. rewrite (slice_S s i len c Hlt Hc). simpl.
  destruct (isspace c) eqn:E; [apply IH; lia|].
  rewrite (slice_S s i len c Hlt Hc). simpl. by rewrite E.
Qed.

Lemma whitespace_loop_ok fuel i :
  (len - i <= fuel)%nat -> (len <= length s)%nat -> (fuel <= length s)%nat ->
  whitespace_loop fuel s len i = squeeze false (slice s i len).
Proof using Hlen Hlast.
  revert i. induction fuel as [|fuel IH]; intros i Hf Hl Hfl; cbn [whitespace_loop].
  { by rewrite slice_end by lia. }
  destruct (Nat.ltb_spec i len) as [Hlt|]; [|by rewrite slice_end by lia].
  destruct (lookup_lt_is_Some_2 s i) as [c Hc]; [lia|].
  rewrite (slice_S s i len c Hlt Hc). simpl.
  destruct (isspace (nth i s nul)) eqn:E; rewrite nth_lookup, Hc in E; simpl in E; rewrite E.
  2: { rewrite nth_lookup, Hc, IH by lia. done. }
  assert (S i <> len).
  { intros <-. specialize (Hlast i eq_refl). rewrite nth_lookup, Hc in Hlast. simpl in Hlast.
    congruence. }
  destruct (space_loop_ok (length s) i) as (H1 & H2 & H3); [done|lia|].
  set (i' := space_loop (length s) s i) in *.
  rewrite (slice_S s i len c Hlt Hc) in H3. simpl in H3. rewrite E in H3. rewrite <- H3.
  destruct (lookup_lt_is_Some_2 s i') as [c' Hc']; [lia|].
  rewrite (slice_S s i' len c' ltac:(lia) Hc'). simpl. rewrite nth_lookup, Hc' in H2 |- *.
  simpl in H2 |- *. rewrite H2, IH by lia. done.
Qed.
End whitespace.

Lemma slice_0 s len : slice s 0 len = take len s.
Proof. unfold slice. by rewrite Nat.sub_0_r. Qed.

Lemma squeeze_skip s : squeeze false (skip_space s) = tail (squeeze true s).
Proof.
  induction s as [|c s IH]; simpl; [done|]. destruct (isspace c) eqn:E; [done|].
  simpl. by rewrite E.
Qed.

Lemma squeeze_length p s : (length (squeeze p s) <= length s + (if p then 1 else 0))%nat.
Proof.
  revert p. induction s as [|c s IH]; intros p; simpl; [lia|].
  pose proof (IH true) as Ht. pose proof (IH false) as Hf. simpl in Ht, Hf.
  destruct (isspace c); [destruct p; lia|]. rewrite length_app. destruct p; simpl; lia.
Qed.

Lemma squeeze_no_space p s : Forall (fun c => isspace c = false) (squeeze p s).
Proof.
  revert p. induction s as [|c s IH]; intros p; simpl; [constructor|].
  destruct (isspace c) eqn:E; [done|]. destruct p; simpl; auto.
Qed.

Lemma skip_space_length s : (length (skip_space s) <= length s)%nat.
Proof. induction s as [|c s IH]; simpl; [lia|]. destruct (isspace c); simpl; lia. Qed.

(** [util_replace_whitespace] takes the first [len] characters, drops the
    white space at both ends and turns every other run of it into one
    underscore.  The result has no white space and no more than [len] (and no
    more than [strlen]) characters, so with its terminator it fits in
    [len + 1] bytes. *)
Theorem util_replace_whitespace_ok s len :
  util_replace_whitespace s len = squeeze false (skip_space (take len s)) /\
  Forall (fun c => isspace c = false) (util_replace_whitespace s len) /\
  (length (util_replace_whitespace s len) <= Nat.min len (length s))%nat.
Proof.
  assert (util_replace_whitespace s len = squeeze false (skip_space (take len s))) as Heq.
  { unfold util_replace_whitespace. set (n := Nat.min (length s) len).
    assert (n <= length s)%nat as Hn by (unfold n; lia).
    destruct (strip_len_ok s n Hn) as (H1 & H2 & H3).
    set (m := strip_len s n) in *. assert (m <= length s)%nat by lia. clearbody m.
    rewrite whitespace_loop_ok by (done || lia). rewrite lead_loop_ok by lia. rewrite slice_0.
    replace (take len s) with (take n s).
    2: { unfold n. destruct (Nat.min_spec (length s) len) as [[? ->]|[? ->]]; [|done].
         by rewrite !take_ge by lia. }
    by rewrite !squeeze_skip, H2. }
  rewrite Heq. split_and!; [done|apply squeeze_no_space|].
  etrans; [apply squeeze_length|]. pose proof (skip_space_length (take len s)) as Hl.
  rewrite length_take in Hl. rewrite Nat.add_0_r. exact Hl.
Qed.

Lemma trailing_loop_ok c r :
  exists n, r = repeat c n ++ trailing_loop c r /\
    (forall t, trailing_loop c r <> c :: t).
Proof.
  induction r as [|x r IH]; [by exists 0%nat|]. simpl.
  destruct (eqbP x c) as [->|Hne].
  - destruct IH as (n & Hr & Ht). exists (S n). simpl. split; [by f_equal|done].
  - exists 0%nat. split; [done|]. intros t [= ? _]. done.
Qed.

(** [util_remove_trailing_chars] removes exactly the copies of the
    character at the end of the path. *)
Theorem util_remove_trailing_chars_ok path c :
  exists n, path = util_remove_trailing_chars path c ++ repeat c n /\
    (forall t, util_remove_trailing_chars path c <> t ++ [c]).
Proof.
  unfold util_remove_trailing_chars.
  destruct (trailing_loop_ok c (rev path)) as (n & Hr & Ht). exists n. split.
  - apply (f_equal (@rev _)) in Hr. rewrite rev_involutive, rev_app_distr, rev_repeat in Hr. done.
  - intros t Hrt. apply (f_equal (@rev _)) in Hrt.
    rewrite rev_involutive, rev_app_distr in Hrt. by apply (Ht (rev t)).
Qed.
End Encode.
Export Encode.
