(* ===== verification/Strbuf.v ===== *)
(** shared/strbuf.c: the string buffer that stores the strings of the rules
    and of the hardware database once, tails shared, with the trie that finds
    them again; and the interface it offers its clients. *)

From Stdlib Require Import ZArith Lia Ascii.
From stdpp Require Import prelude gmap strings sorting.
From S2P Require Import Prelude Utils.
Import Mem.
#[local] Set Warnings "-register-all".

Module Strbuf.

(** [struct strbuf_node]; the children array has [children_count] entries. *)
Inductive strbuf_node := Node {
  value_off : nat;
  value_len : nat;
  children : list (byte * strbuf_node)
}.

(** [struct strbuf]; [len] is the length of [buf]. *)
Record strbuf := mk_strbuf {
  buf : bytes;
  root : option strbuf_node;
  nodes_count : nat;
  in_count : nat;
  in_len : nat;
  dedup_len : nat;
  dedup_count : nat
}.

Definition strbuf_new : strbuf := mk_strbuf [nul] (Some (Node 0 0 [])) 1 0 0 0 0.

Definition strbuf_complete (str : strbuf) : strbuf :=
  mk_strbuf (buf str) None (nodes_count str) (in_count str) (in_len str)
    (dedup_len str) (dedup_count str).

Definition strbuf_children_cmp (c1 c2 : byte) : Z := code c1 - code c2.

(** The bisection of [bubbleinsert]: behind the entries that are not greater. *)
Fixpoint bubble_loop (l : list (byte * strbuf_node)) (c : byte) (fuel left right : nat) : nat :=
  match fuel with
  | O => left
  | S fuel' =>
      if (left <? right)%nat then
        let middle := ((right + left) / 2)%nat in
        match l !! middle with
        | Some e =>
            if strbuf_children_cmp (fst e) c <=? 0 then bubble_loop l c fuel' (middle + 1) right
            else bubble_loop l c fuel' left middle
        | None => left
        end
      else left
  end.
Definition bubbleinsert (l : list (byte * strbuf_node)) (c : byte) (n : strbuf_node)
    : list (byte * strbuf_node) :=
  let left := bubble_loop l c (S (length l)) 0 (length l) in
  take left l ++ (c, n) :: drop left l.

(** [bsearch] among the children. *)
Definition child_index (n : strbuf_node) (c : byte) : option (nat * strbuf_node) :=
  match bsearch (fun e : byte * strbuf_node => strbuf_children_cmp c (fst e) ?= 0) (children n) with
  | inl i => (fun e => (i, snd e)) <$> children n !! i
  | inr _ => None
  end.

(** The body of the loop's match: the current node's string ends in [s]. *)
Definition node_matches (b : bytes) (n : strbuf_node) (s rem : bytes) : bool :=
  bool_decide (rem = []) ||
  ((length s <=? value_len n)%nat &&
   bool_decide (take (length s) (drop (value_off n + value_len n - length s) b) = s)).

(** The search from node [n]; [rem] holds the characters of [s] still to be
    looked up, the last one first, so it is empty when [depth == len].  The
    result is the offset found, or the node with the new child [new] added
    where the search ended. *)
Fixpoint trie_add (b s : bytes) (new : strbuf_node) (rem : bytes) (n : strbuf_node)
    : nat + strbuf_node :=
  if node_matches b n s rem then inl (value_off n + value_len n - length s)%nat
  else
    match rem with
    | [] => inl 0%nat (* not reached: an empty [rem] matches *)
    | c :: rem' =>
        match child_index n c with
        | Some (i, child) =>
            match trie_add b s new rem' child with
            | inl off => inl off
            | inr child' =>
                inr (Node (value_off n) (value_len n) (<[i := (c, child')]> (children n)))
            end
        | None => inr (Node (value_off n) (value_len n) (bubbleinsert (children n) c new))
        end
    end.

(** The allocation that fails, if one does. *)
Inductive alloc := AllocOk | FailBuf | FailNode | FailChildren.

Definition ENOMEM : Z := 12.
Definition EINVAL : Z := 22.

Definition strbuf_add_string (a : alloc) (str : strbuf) (s : bytes) : strbuf * Z :=
  match root str with
  | None => (str, - EINVAL)
  | Some r =>
      if (length s =? 0)%nat then (str, 0)
      else
        let len := length s in
        let in_count' := S (in_count str) in
        let in_len' := (in_len str + len)%nat in
        let off := length (buf str) in
        match trie_add (buf str) s (Node off len []) (rev s) r with
        | inl off =>
            (mk_strbuf (buf str) (root str) (nodes_count str) in_count' in_len'
               (dedup_len str + len) (S (dedup_count str)), Z.of_nat off)
        | inr r' =>
            match a with
            | FailBuf =>
                (mk_strbuf (buf str) (root str) (nodes_count str) in_count' in_len'
                   (dedup_len str) (dedup_count str), - ENOMEM)
            | FailNode | FailChildren =>
                (mk_strbuf (buf str ++ s ++ [nul]) (root str) (nodes_count str) in_count' in_len'
                   (dedup_len str) (dedup_count str), - ENOMEM)
            | AllocOk =>
                (mk_strbuf (buf str ++ s ++ [nul]) (Some r') (S (nodes_count str)) in_count' in_len'
                   (dedup_len str) (dedup_count str), Z.of_nat off)
            end
        end
  end.

(** Reading a stored string, as the clients do: [str->buf + off]. *)
Definition strbuf_str (str : strbuf) (off : Z) : bytes := cstr_at (buf str) (Z.to_nat off).

Example strbuf_ex :
  let '(s1, o1) := strbuf_add_string AllocOk strbuf_new "block" in
  let '(s2, o2) := strbuf_add_string AllocOk s1 "lock" in
  let '(s3, o3) := strbuf_add_string AllocOk s2 "rock" in
  let '(s4, o4) := strbuf_add_string AllocOk s3 "block" in
  (o1, o2, o3, o4, nodes_count s4, dedup_count s4) = (1, 2, 7, 1, 3%nat, 2%nat).
Proof. vm_compute. reflexivity. Qed.

(** * Sorted children *)

Definition keys (l : list (byte * strbuf_node)) : list Z := (fun e => code e.1) <$> l.
Definition sorted_children (l : list (byte * strbuf_node)) : Prop := StronglySorted Z.lt (keys l).

Lemma bubble_loop_ok l c fuel left right :
  sorted_children l -> (right - left < fuel)%nat -> (left <= right <= length l)%nat ->
  (forall j e, l !! j = Some e ->
    ((j < left)%nat -> code e.1 <= code c) /\ ((right <= j)%nat -> code c < code e.1)) ->
  let i := bubble_loop l c fuel left right in
  (i <= length l)%nat /\
  forall j e, l !! j = Some e ->
    ((j < i)%nat -> code e.1 <= code c) /\ ((i <= j)%nat -> code c < code e.1).
Proof.
  intros Hs. pose proof (StronglySorted_lookup _ _ Hs) as Hlt.
  revert left right. induction fuel as [|fuel IH]; intros left right Hf Hr Hinv; [lia|].
  cbn [bubble_loop]. destruct (Nat.ltb_spec left right) as [Hl|Hl].
  2: { split; [lia|]. intros j e Hj. destruct (Hinv j e Hj). split; intros; auto with lia. }
  set (m := ((right + left) / 2)%nat).
  assert (left <= m < right)%nat as Hm.
  { unfold m. split; [apply Nat.div_le_lower_bound|apply Nat.Div0.div_lt_upper_bound]; lia. }
  destruct (lookup_lt_is_Some_2 l m) as [x Hx]; [lia|]. rewrite Hx. unfold strbuf_children_cmp.
  assert (forall j e, l !! j = Some e -> (j < m)%nat -> code e.1 < code x.1) as Hb.
  { intros j e Hj Hjm. apply (Hlt j m); [done|..]; unfold keys;
      rewrite list_lookup_fmap, ?Hj, ?Hx; done. }
  assert (forall j e, l !! j = Some e -> (m < j)%nat -> code x.1 < code e.1) as Ha.
  { intros j e Hj Hjm. apply (Hlt m j); [done|..]; unfold keys;
      rewrite list_lookup_fmap, ?Hj, ?Hx; done. }
  destruct (Z.leb_spec (code x.1 - code c) 0); apply IH; try lia;
    intros j e Hj; destruct (Hinv j e Hj); split; intros Hji; auto.
  - destruct (decide (j = m)) as [->|]; [simplify_eq; lia|].
    specialize (Hb j e Hj). lia.
  - destruct (decide (j = m)) as [->|]; [simplify_eq; lia|].
    specialize (Ha j e Hj). lia.
Qed.

Lemma sorted_mid l1 l2 e :
  sorted_children (l1 ++ l2) ->
  Forall (fun x => code x.1 < code e.1) l1 -> Forall (fun x => code e.1 < code x.1) l2 ->
  sorted_children (l1 ++ e :: l2).
Proof.
  unfold sorted_children, keys. rewrite !fmap_app, fmap_cons. intros Hs H1 H2.
  induction l1 as [|x l1 IH]; simpl in *.
  - constructor; [done|]. by apply Forall_fmap.
  - apply StronglySorted_inv in Hs as [Hs Hx]. apply Forall_cons in H1 as [Hxe H1].
    constructor; [by apply IH|].
    apply Forall_app in Hx as [Hx1 Hx2]. apply Forall_app. split; [done|].
    by constructor.
Qed.

Lemma bubbleinsert_ok l c n :
  sorted_children l -> (forall e, e ∈ l -> e.1 <> c) ->
  exists l1 l2, l = l1 ++ l2 /\ bubbleinsert l c n = l1 ++ (c, n) :: l2 /\
    sorted_children (bubbleinsert l c n).
Proof.
  intros Hs Hc. unfold bubbleinsert.
  destruct (bubble_loop_ok l c (S (length l)) 0 (length l)) as [Hi Hb]; [done|lia|lia| |].
  { intros j e Hj. apply lookup_lt_Some in Hj. lia. }
  set (i := bubble_loop l c (S (length l)) 0 (length l)) in *.
  exists (take i l), (drop i l). split_and!; [by rewrite take_drop|done|].
  apply sorted_mid; [by rewrite take_drop|..]; apply Forall_lookup; intros j e Hj; simpl.
  - apply lookup_take_Some in Hj as [Hj Hji]. destruct (Hb j e Hj) as [Hle _].
    specialize (Hle Hji). assert (code e.1 <> code c); [|lia].
    intros He. apply code_inj in He. apply (Hc e); [|done]. by eapply list_elem_of_lookup_2.
  - rewrite lookup_drop in Hj. destruct (Hb _ e Hj) as [_ Hlt]. apply Hlt. lia.
Qed.

Lemma child_key_sorted l c :
  sorted_children l ->
  key_sorted (fun e : byte * strbuf_node => strbuf_children_cmp c e.1 ?= 0) l.
Proof.
  intros Hs i j x y Hij Hx Hy.
  destruct (key_sorted_Z (fun e : byte * strbuf_node => code e.1) (code c) l Hs i j x y Hij Hx Hy).
  unfold strbuf_children_cmp. rewrite <- !Z.compare_sub; done.
Qed.

Lemma child_index_Some n c i ch :
  sorted_children (children n) ->
  (child_index n c = Some (i, ch) <-> children n !! i = Some (c, ch)).
Proof.
  intros Hs. unfold child_index.
  pose proof (bsearch_spec _ _ (child_key_sorted (children n) c Hs)) as Hb.
  assert (forall e, (strbuf_children_cmp c e ?= 0) = Eq -> e = c) as Heq.
  { intros e He. unfold strbuf_children_cmp in He. apply Z.compare_eq in He.
    symmetry. apply code_inj. lia. }
  destruct (bsearch _ _) as [k|k]; simpl in Hb.
  - destruct Hb as ([d m] & Hk & He). apply Heq in He. simpl in He. subst d. rewrite Hk. simpl.
    split; [by intros [= <- <-]|]. intros Hi. destruct (decide (i = k)) as [->|Hne]; [congruence|].
    exfalso. pose proof (StronglySorted_lookup _ _ Hs) as Hlt. unfold keys in Hlt.
    destruct (decide (i < k)%nat).
    + opose proof* (Hlt i k (code c) (code c)); [lia|by rewrite list_lookup_fmap, Hi|
        by rewrite list_lookup_fmap, Hk|lia].
    + opose proof* (Hlt k i (code c) (code c)); [lia|by rewrite list_lookup_fmap, Hk|
        by rewrite list_lookup_fmap, Hi|lia].
  - split; [done|]. intros Hi. exfalso. destruct Hb as [_ Hb].
    destruct (Hb _ _ Hi) as [H1 H2]. simpl in *. unfold strbuf_children_cmp in *.
    rewrite Z.sub_diag in *. destruct (decide (i < k)%nat) as [Hik|Hik];
      [by specialize (H1 Hik)|by specialize (H2 ltac:(lia))].
Qed.

Lemma child_index_None n c :
  sorted_children (children n) -> child_index n c = None ->
  forall e, e ∈ children n -> e.1 <> c.
Proof.
  intros Hs Hn [d m] He Hd. simpl in Hd. subst d. apply list_elem_of_lookup in He as [i Hi].
  apply (child_index_Some n c i m Hs) in Hi. congruence.
Qed.

(** * The trie describes the buffer *)

(** Below [n], reached by looking up the characters of [t] from the last one:
    every node's string is stored, NUL-terminated, and ends in its path. *)
Inductive node_ok (b : bytes) : bytes -> strbuf_node -> Prop :=
  node_ok_intro t n p :
    str_at b (value_off n) (p ++ t) -> value_len n = length (p ++ t) ->
    sorted_children (children n) ->
    (forall c ch, (c, ch) ∈ children n -> node_ok b (c :: t) ch) ->
    node_ok b t n.

Definition strbuf_ok (str : strbuf) : Prop :=
  str_at (buf str) 0 [] /\ exists r, root str = Some r /\ node_ok (buf str) [] r.

Lemma str_at_app b ext a w : str_at b a w -> str_at (b ++ ext) a w.
Proof.
  intros [Hw [post Hd]]. split; [done|]. exists (post ++ ext).
  assert (a < length b)%nat.
  { apply (f_equal length) in Hd. rewrite length_app, length_drop in Hd. simpl in Hd. lia. }
  rewrite drop_app_le by lia. rewrite Hd, <- app_assoc. done.
Qed.

Lemma node_ok_app b ext t n : node_ok b t n -> node_ok (b ++ ext) t n.
Proof. induction 1. econstructor; eauto using str_at_app. Qed.
#[local] Hint Resolve str_at_app node_ok_app : udev.

Lemma strbuf_new_ok : strbuf_ok strbuf_new.
Proof.
  split; [split; [constructor|by exists []]|].
  exists (Node 0 0 []). split; [done|]. apply (node_ok_intro _ [] _ []); simpl.
  - split; [constructor|by exists []].
  - done.
  - constructor.
  - intros c ch Hc. by apply not_elem_of_nil in Hc.
Qed.

(** * Matching at one node *)

Lemma str_at_suffix b a p w : str_at b a (p ++ w) -> str_at b (a + length p) w.
Proof.
  intros [Hw [post Hd]]. split; [by apply Forall_app in Hw as [_ ?]|]. exists post.
  by rewrite <- drop_drop, Hd, <- app_assoc, drop_app_length.
Qed.

Lemma str_at_take b a w : str_at b a w -> take (length w) (drop a b) = w.
Proof. intros [_ [post Hd]]. by rewrite Hd, take_app_length. Qed.

(** A node matches exactly the strings its own string ends in (and the path
    itself, which needs no comparison). *)
Lemma node_matches_spec b t n s rem :
  node_ok b t n -> s = rev rem ++ t ->
  exists v, str_at b (value_off n) v /\ value_len n = length v /\
    (node_matches b n s rem = true <-> exists v0, v = v0 ++ s).
Proof.
  intros Hn ->. inversion Hn as [? ? p Hv Hl _ _]; subst. exists (p ++ t).
  split_and!; [done..|]. unfold node_matches. rewrite Hl, orb_true_iff, andb_true_iff,
    !bool_decide_eq_true, Nat.leb_le. split.
  - intros [-> | [Hle Ht]]; [by exists p|].
    set (k := (length (p ++ t) - length (rev rem ++ t))%nat) in *.
    exists (take k (p ++ t)). rewrite <- (take_drop k (p ++ t)) in Hv.
    apply str_at_suffix, str_at_take in Hv. rewrite length_take, length_drop in Hv.
    rewrite <- (take_drop k (p ++ t)) at 1. f_equal. etrans; [symmetry; exact Hv|].
    etrans; [|exact Ht]. f_equal; [|f_equal]; subst k; lia.
  - intros [v0 Hv0]. destruct rem as [|c rem]; [by left|right].
    rewrite Hv0 in Hv |- *. rewrite (length_app v0). split; [lia|].
    apply str_at_suffix, str_at_take in Hv.
    by replace (value_off n + (length v0 + length (rev (c :: rem) ++ t)) -
      length (rev (c :: rem) ++ t))%nat with (value_off n + length v0)%nat by lia.
Qed.

Lemma node_matches_off b t n s rem :
  node_ok b t n -> s = rev rem ++ t -> node_matches b n s rem = true ->
  str_at b (value_off n + value_len n - length s) s.
Proof.
  intros Hn Hs Hm. destruct (node_matches_spec b t n s rem Hn Hs) as (v & Hv & Hl & [Hx _]).
  destruct (Hx Hm) as [v0 ->]. rewrite Hl, length_app.
  apply str_at_suffix in Hv.
  by replace (value_off n + (length v0 + length s) - length s)%nat with (value_off n + length v0)%nat by lia.
Qed.

Lemma node_matches_app b ext t n s rem :
  node_ok b t n -> s = rev rem ++ t -> node_matches (b ++ ext) n s rem = node_matches b n s rem.
Proof.
  intros Hn Hs.
  destruct (node_matches_spec b t n s rem Hn Hs) as (v & Hv & Hl & H1).
  destruct (node_matches_spec (b ++ ext) t n s rem (node_ok_app _ _ _ _ Hn) Hs) as (v' & Hv' & Hl' & H2).
  assert (v' = v) as ->.
  { apply (str_at_app _ ext) in Hv. apply str_at_cstr in Hv, Hv'. congruence. }
  apply eq_true_iff_eq. by rewrite H1, H2.
Qed.

Lemma node_child b t n c i ch :
  node_ok b t n -> child_index n c = Some (i, ch) ->
  node_ok b (c :: t) ch /\ children n !! i = Some (c, ch).
Proof.
  intros Hn Hc. inversion Hn as [? ? p _ _ Hs Hch]; subst.
  apply child_index_Some in Hc; [|done]. split; [|done].
  apply Hch. by eapply list_elem_of_lookup_2.
Qed.

Lemma rem_step (s rem t : bytes) c : s = rev (c :: rem) ++ t -> s = rev rem ++ c :: t.
Proof. intros ->. simpl. by rewrite <- app_assoc. Qed.
#[local] Hint Resolve rem_step : udev.

(** * The search *)

Lemma trie_add_cons b s new c rem n :
  trie_add b s new (c :: rem) n =
    if node_matches b n s (c :: rem) then inl (value_off n + value_len n - length s)%nat
    else match child_index n c with
         | Some (i, child) =>
             match trie_add b s new rem child with
             | inl off => inl off
             | inr child' => inr (Node (value_off n) (value_len n) (<[i := (c, child')]> (children n)))
             end
         | None => inr (Node (value_off n) (value_len n) (bubbleinsert (children n) c new))
         end.
Proof. done. Qed.

Lemma trie_add_nil b s new n :
  trie_add b s new [] n = inl (value_off n + value_len n - length s)%nat.
Proof. done. Qed.

Lemma trie_found b s new rem n t off :
  node_ok b t n -> s = rev rem ++ t -> trie_add b s new rem n = inl off -> str_at b off s.
Proof.
  revert n t. induction rem as [|c rem IH]; intros n t Hn Hs.
  - rewrite trie_add_nil. intros [= <-]. by apply (node_matches_off b t n s []).
  - rewrite trie_add_cons. destruct (node_matches b n s (c :: rem)) eqn:Em.
    { intros [= <-]. by apply (node_matches_off b t n s (c :: rem)). }
    destruct (child_index n c) as [[i ch]|] eqn:Ec; [|done].
    destruct (trie_add b s new rem ch) eqn:Et; [|done]. intros [= <-].
    apply (node_child b t) in Ec as [Hch _]; eauto with udev.
Qed.

(** The result of a search depends neither on what was appended to the buffer
    nor on the node to be added. *)
Lemma trie_found_app b ext s new new' rem n t off :
  node_ok b t n -> s = rev rem ++ t ->
  trie_add b s new rem n = inl off -> trie_add (b ++ ext) s new' rem n = inl off.
Proof.
  revert n t. induction rem as [|c rem IH]; intros n t Hn Hs; [done|].
  rewrite !trie_add_cons, (node_matches_app b ext t) by done.
  destruct (node_matches b n s (c :: rem)); [done|].
  destruct (child_index n c) as [[i ch]|] eqn:Ec; [|done].
  destruct (trie_add b s new rem ch) eqn:Et; [|done]. intros [= <-].
  apply (node_child b t) in Ec as [Hch _]; [|done].
  erewrite IH by eauto with udev. done.
Qed.

(** * The insertion *)

Lemma sorted_insert_same l i c ch ch' :
  l !! i = Some (c, ch) -> sorted_children l -> sorted_children (<[i := (c, ch')]> l).
Proof.
  intros Hi. unfold sorted_children, keys. rewrite list_fmap_insert, list_insert_id; [done|].
  by rewrite list_lookup_fmap, Hi.
Qed.

Lemma trie_insert_ok b ext s off rem n n' t :
  node_ok b t n -> s = rev rem ++ t -> str_at (b ++ ext) off s ->
  trie_add b s (Node off (length s) []) rem n = inr n' -> node_ok (b ++ ext) t n'.
Proof.
  revert n n' t. induction rem as [|c rem IH]; intros n n' t Hn Hs Hoff; [done|].
  rewrite trie_add_cons. destruct (node_matches b n s (c :: rem)); [done|].
  inversion Hn as [? ? p Hv Hl Hso Hch]; subst t0 n0.
  destruct (child_index n c) as [[i ch]|] eqn:Ec.
  - pose proof (node_child b t n c i ch Hn Ec) as [Hok Hi].
    destruct (trie_add b s (Node off (length s) []) rem ch) as [|ch'] eqn:Et; [done|].
    intros [= <-]. apply (node_ok_intro _ _ _ p); simpl; eauto with udev.
    + by eapply sorted_insert_same.
    + intros d m Hd. apply list_elem_of_lookup in Hd as [j Hj].
      destruct (decide (j = i)) as [->|Hne].
      * rewrite list_lookup_insert_eq in Hj by (by eapply lookup_lt_Some). simplify_eq.
        eapply IH; eauto with udev.
      * rewrite list_lookup_insert_ne in Hj by done.
        apply node_ok_app, Hch. by eapply list_elem_of_lookup_2.
  - intros [= <-]. pose proof (child_index_None _ _ Hso Ec) as Hc.
    destruct (bubbleinsert_ok _ c (Node off (length s) []) Hso Hc) as (l1 & l2 & Hl12 & Hb & Hs').
    apply (node_ok_intro _ _ _ p); simpl; eauto with udev. rewrite Hb.
    intros d m Hd. rewrite Hl12 in Hch.
    assert ((d, m) ∈ l1 ++ l2 \/ (d, m) = (c, Node off (length s) [])) as [Hd'|Hd'] by set_solver.
    + by apply node_ok_app, Hch.
    + injection Hd' as -> ->. apply rem_step in Hs. apply (node_ok_intro _ _ _ (rev rem)); simpl.
      * by rewrite <- Hs.
      * by rewrite <- Hs.
      * constructor.
      * intros ? ? Hx. by apply not_elem_of_nil in Hx.
Qed.

(** Looking up a key among children changed in another place. *)
Lemma child_index_insert_ne n o l c i ch ch' d j m :
  sorted_children (children n) -> child_index n c = Some (i, ch) -> d <> c ->
  child_index n d = Some (j, m) ->
  child_index (Node o l (<[i := (c, ch')]> (children n))) d = Some (j, m).
Proof.
  intros Hs Hc Hd Hj. apply child_index_Some in Hc, Hj; [|done..].
  apply child_index_Some; simpl; [by eapply sorted_insert_same|].
  rewrite list_lookup_insert_ne; [done|]. congruence.
Qed.

Lemma child_index_insert_eq n o l c i ch ch' :
  sorted_children (children n) -> child_index n c = Some (i, ch) ->
  child_index (Node o l (<[i := (c, ch')]> (children n))) c = Some (i, ch').
Proof.
  intros Hs Hc. apply child_index_Some in Hc; [|done].
  apply child_index_Some; simpl; [by eapply sorted_insert_same|].
  apply list_lookup_insert_eq. by eapply lookup_lt_Some.
Qed.

Lemma child_index_bubble n o l c m :
  sorted_children (children n) -> child_index n c = None ->
  exists i, child_index (Node o l (bubbleinsert (children n) c m)) c = Some (i, m) /\
  forall d j ch, child_index n d = Some (j, ch) ->
    exists j', child_index (Node o l (bubbleinsert (children n) c m)) d = Some (j', ch).
Proof.
  intros Hs Hc. pose proof (child_index_None _ _ Hs Hc) as Hne.
  destruct (bubbleinsert_ok _ c m Hs Hne) as (l1 & l2 & Hl & Hb & Hs').
  rewrite Hb in *. exists (length l1). split.
  { apply child_index_Some; [done|]. simpl. by rewrite list_lookup_middle. }
  intros d j ch Hj. apply child_index_Some in Hj; [|done].
  apply list_elem_of_lookup_2 in Hj. rewrite Hl in Hj.
  assert ((d, ch) ∈ l1 ++ (c, m) :: l2) as [j' Hj']%list_elem_of_lookup by set_solver.
  exists j'. by apply child_index_Some.
Qed.

Lemma node_matches_fields b n ch s rem :
  node_matches b (Node (value_off n) (value_len n) ch) s rem = node_matches b n s rem.
Proof. done. Qed.

Lemma node_sorted b t n : node_ok b t n -> sorted_children (children n).
Proof. by inversion 1. Qed.
#[local] Hint Resolve node_sorted : udev.

(** After the insertion the string is found at its offset. *)
Lemma trie_insert_found b ext s off new' rem n n' t :
  node_ok b t n -> s = rev rem ++ t -> str_at (b ++ ext) off s ->
  trie_add b s (Node off (length s) []) rem n = inr n' ->
  trie_add (b ++ ext) s new' rem n' = inl off.
Proof.
  revert n n' t. induction rem as [|c rem IH]; intros n n' t Hn Hs Hoff; [done|].
  rewrite !trie_add_cons. destruct (node_matches b n s (c :: rem)) eqn:Em; [done|].
  destruct (child_index n c) as [[i ch]|] eqn:Ec.
  - destruct (trie_add b s (Node off (length s) []) rem ch) as [|ch'] eqn:Et; [done|].
    intros [= <-]. rewrite node_matches_fields, (node_matches_app b ext t), Em by done.
    erewrite child_index_insert_eq by eauto with udev.
    apply (node_child b t) in Ec as [Hok _]; [|done]. erewrite IH; eauto with udev.
  - intros [= <-]. rewrite node_matches_fields, (node_matches_app b ext t), Em by done.
    destruct (child_index_bubble n (value_off n) (value_len n) c (Node off (length s) []))
      as (i & -> & _); eauto with udev.
    assert (trie_add (b ++ ext) s new' rem (Node off (length s) []) = inl off) as ->; [|done].
    assert (node_matches (b ++ ext) (Node off (length s) []) s rem = true) as Hm.
    { unfold node_matches. simpl. rewrite Nat.leb_refl.
      replace (off + length s - length s)%nat with off by lia.
      rewrite (str_at_take _ _ _ Hoff), (bool_decide_true (s = s)) by done. apply orb_true_r. }
    destruct rem; [rewrite trie_add_nil|rewrite trie_add_cons, Hm]; simpl; f_equal; lia.
Qed.

(** ... and every other string still is where it was. *)
Lemma trie_insert_stable b ext s new new' new2 rem n n' t u remu offu :
  node_ok b t n -> s = rev rem ++ t -> u = rev remu ++ t ->
  trie_add b s new rem n = inr n' -> trie_add b u new2 remu n = inl offu ->
  trie_add (b ++ ext) u new' remu n' = inl offu.
Proof.
  revert n n' t rem. induction remu as [|d remu IH]; intros n n' t rem Hn Hs Hu;
    (destruct rem as [|c rem]; [done|]); rewrite trie_add_cons;
    destruct (node_matches b n s (c :: rem)) eqn:Em; try done.
  { destruct (child_index n c) as [[i ch]|];
      [destruct (trie_add b s new rem ch); [done|]|]; by intros [= <-] [= <-]. }
  destruct (child_index n c) as [[i ch]|] eqn:Ec.
  - destruct (trie_add b s new rem ch) as [|ch'] eqn:Et; [done|]. intros [= <-].
    rewrite !trie_add_cons, node_matches_fields, (node_matches_app b ext t) by done. simpl.
    destruct (node_matches b n u (d :: remu)); [done|].
    destruct (child_index n d) as [[j m]|] eqn:Ed; [|done].
    destruct (trie_add b u new2 remu m) as [o|] eqn:Eu; [|done]. intros [= <-].
    destruct (decide (d = c)) as [->|Hne].
    + rewrite Ec in Ed. simplify_eq. erewrite child_index_insert_eq by eauto with udev.
      apply (node_child b t) in Ec as [Hok _]; [|done]. erewrite IH; eauto with udev.
    + erewrite child_index_insert_ne by eauto with udev.
      apply (node_child b t) in Ed as [Hok _]; [|done].
      erewrite trie_found_app; eauto with udev.
  - intros [= <-].
    rewrite !trie_add_cons, node_matches_fields, (node_matches_app b ext t) by done. simpl.
    destruct (node_matches b n u (d :: remu)); [done|].
    destruct (child_index n d) as [[j m]|] eqn:Ed; [|done].
    destruct (trie_add b u new2 remu m) as [o|] eqn:Eu; [|done]. intros [= <-].
    destruct (child_index_bubble n (value_off n) (value_len n) c new) as (_ & _ & Hb); eauto with udev.
    destruct (Hb _ _ _ Ed) as [j' ->].
    apply (node_child b t) in Ed as [Hok _]; [|done].
    erewrite trie_found_app; eauto with udev.
Qed.

(** A tail of a string that is found is found. *)
Lemma trie_found_tail b w s x remw rems n t off :
  node_ok b t n -> w = rev remw ++ t -> s = rev rems ++ t -> w = x ++ s ->
  trie_add b w (Node 0 0 []) remw n = inl off ->
  exists off', trie_add b s (Node 0 0 []) rems n = inl off'.
Proof.
  revert n t remw. induction rems as [|c rems IH]; intros n t remw Hn Hw Hs Hx Hf.
  { rewrite trie_add_nil. eauto. }
  assert (exists r, remw = c :: r) as [remw' ->].
  { assert (rev remw = x ++ rev (c :: rems)) as Hr.
    { rewrite Hx, Hs, app_assoc in Hw. by apply app_inv_tail in Hw. }
    simpl in Hr. rewrite app_assoc in Hr. apply (f_equal (@rev byte)) in Hr.
    rewrite rev_app_distr, rev_involutive in Hr. simpl in Hr. eauto. }
  rewrite trie_add_cons in Hf |- *.
  destruct (node_matches b n s (c :: rems)) eqn:Em; [eauto|].
  destruct (node_matches b n w (c :: remw')) eqn:Ew.
  - destruct (node_matches_spec b t n s _ Hn Hs) as (v & Hv & _ & [_ H1]).
    destruct (node_matches_spec b t n w _ Hn Hw) as (v' & Hv' & _ & [H2 _]).
    apply str_at_cstr in Hv, Hv'. destruct (H2 Ew) as [v0 Hv0].
    exfalso. rewrite H1 in Em; [done|]. exists (v0 ++ x). rewrite <- app_assoc, <- Hx. congruence.
  - destruct (child_index n c) as [[i ch]|] eqn:Ec; [|done].
    destruct (trie_add b w (Node 0 0 []) remw' ch) eqn:Et; [|done]. simplify_eq.
    apply (node_child b t) in Ec as [Hok _]; [|done].
    destruct (IH ch (c :: t) remw' Hok) as [off' ->]; eauto with udev.
Qed.

(** * The operations *)

(** A string is known when the search finds it. *)
Definition finds (str : strbuf) (s : bytes) (off : nat) : Prop :=
  exists r, root str = Some r /\ trie_add (buf str) s (Node 0 0 []) (rev s) r = inl off.

Lemma trie_found_new b s new new' rem n t off :
  node_ok b t n -> s = rev rem ++ t ->
  trie_add b s new rem n = inl off -> trie_add b s new' rem n = inl off.
Proof.
  intros Hn Hs Hf. rewrite <- (app_nil_r b). by eapply trie_found_app.
Qed.

Lemma rev_tail (s : bytes) : s = rev (rev s) ++ [].
Proof. by rewrite rev_involutive, app_nil_r. Qed.
#[local] Hint Resolve rev_tail : udev.

(** The two outcomes of adding a non-empty string. *)
Lemma add_string_cases a str s :
  strbuf_ok str -> cstr s -> s <> [] ->
  (exists off, finds str s off /\ str_at (buf str) off s /\
     buf (strbuf_add_string a str s).1 = buf str /\
     root (strbuf_add_string a str s).1 = root str /\
     nodes_count (strbuf_add_string a str s).1 = nodes_count str /\
     (strbuf_add_string a str s).2 = Z.of_nat off) \/
  (exists r r', root str = Some r /\
     trie_add (buf str) s (Node (length (buf str)) (length s) []) (rev s) r = inr r' /\
     str_at (buf str ++ s ++ [nul]) (length (buf str)) s /\
     (strbuf_add_string a str s).2 =
       match a with AllocOk => Z.of_nat (length (buf str)) | _ => - ENOMEM end /\
     buf (strbuf_add_string a str s).1 =
       match a with FailBuf => buf str | _ => buf str ++ s ++ [nul] end /\
     root (strbuf_add_string a str s).1 = match a with AllocOk => Some r' | _ => Some r end).
Proof.
  intros (_ & r & Hr & Hok) Hs Hne. unfold strbuf_add_string. rewrite Hr.
  destruct (length s =? 0)%nat eqn:E; [apply Nat.eqb_eq in E; by destruct s|].
  destruct (trie_add _ _ _ _ _) as [off|r'] eqn:Et; [left|right].
  - exists off. simpl. split_and!; [|by eapply trie_found; eauto with udev|done..].
    exists r. split; [done|]. by eapply trie_found_new; eauto with udev.
  - exists r, r'. split; [done|]. split; [done|]. split; [|by destruct a].
    split; [done|]. exists []. by rewrite drop_app_length.
Qed.

Lemma finds_unique str s off off' : finds str s off -> finds str s off' -> off = off'.
Proof. intros (r & Hr & Hf) (r' & Hr' & Hf'). congruence. Qed.
(** What is added to the trie is not found in it. *)
Lemma finds_not_new str s off r r' new :
  strbuf_ok str -> root str = Some r -> trie_add (buf str) s new (rev s) r = inr r' -> ~ finds str s off.
Proof.
  intros (_ & r0 & Hr0 & Hok) Hr Hi (r1 & Hr1 & Hf). simplify_eq.
  apply (trie_found_new _ _ _ new _ _ [] _ Hok (rev_tail s)) in Hf. congruence.
Qed.

Lemma add_string_nil a str : strbuf_ok str -> strbuf_add_string a str [] = (str, 0).
Proof. intros (_ & r & Hr & _). unfold strbuf_add_string. by rewrite Hr. Qed.

Lemma add_string_prefix a str s :
  strbuf_ok str -> cstr s -> exists ext, buf (strbuf_add_string a str s).1 = buf str ++ ext.
Proof.
  intros Hok Hs. destruct (decide (s = [])) as [->|Hne].
  { rewrite add_string_nil by done. exists []. by rewrite app_nil_r. }
  destruct (add_string_cases a str s Hok Hs Hne)
    as [(off & _ & _ & -> & _)|(r & r' & _ & _ & _ & _ & -> & _)].
  - exists []. by rewrite app_nil_r.
  - destruct a; eauto. exists []. by rewrite app_nil_r.
Qed.

Lemma add_string_ok a str s :
  strbuf_ok str -> cstr s -> strbuf_ok (strbuf_add_string a str s).1.
Proof.
  intros Hok Hs. destruct (decide (s = [])) as [->|Hne]; [by rewrite add_string_nil|].
  destruct (add_string_cases a str s Hok Hs Hne)
    as [(off & _ & _ & Hb & Hr & _)|(r & r' & Hr & Ht & Hat & _ & Hb & Hr')].
  - unfold strbuf_ok. by rewrite Hb, Hr.
  - destruct Hok as (H0 & r0 & Hr0 & Hn). assert (r0 = r) as -> by congruence.
    unfold strbuf_ok. rewrite Hb, Hr'. split; [by destruct a; auto using str_at_app|].
    destruct a; eexists; (split; [done|]); auto using node_ok_app.
    apply (trie_insert_ok (buf str) (s ++ [nul]) s (length (buf str)) (rev s) r r' []);
      auto with udev.
Qed.

Lemma add_string_finds_new str s :
  strbuf_ok str -> cstr s -> s <> [] ->
  exists off, finds (strbuf_add_string AllocOk str s).1 s off /\
    (strbuf_add_string AllocOk str s).2 = Z.of_nat off /\
    str_at (buf (strbuf_add_string AllocOk str s).1) off s.
Proof.
  intros Hok Hs Hne.
  destruct (add_string_cases AllocOk str s Hok Hs Hne)
    as [(off & (r & Hr & Hf) & Hat & Hb & Hro & _ & Ho)|(r & r' & Hr & Ht & Hat & Ho & Hb & Hr')].
  - exists off. rewrite Hb. split_and!; [|done|done]. exists r. by rewrite Hro, Hb.
  - exists (length (buf str)). rewrite Hb. split_and!; [|done|done].
    exists r'. rewrite Hb, Hr'. split; [done|].
    destruct Hok as (_ & r0 & Hr0 & Hn). rewrite Hr in Hr0. simplify_eq.
    eapply trie_insert_found; eauto with udev.
Qed.

Lemma add_string_finds_old str s u off :
  strbuf_ok str -> cstr s -> finds str u off -> finds (strbuf_add_string AllocOk str s).1 u off.
Proof.
  intros Hok Hs Hu. destruct (decide (s = [])) as [->|Hne]; [by rewrite add_string_nil|].
  destruct (add_string_cases AllocOk str s Hok Hs Hne)
    as [(o & _ & _ & Hb & Hro & _)|(r & r' & Hr & Ht & _ & _ & Hb & Hr')].
  - destruct Hu as (r & Hr & Hf). exists r. by rewrite Hro, Hb.
  - destruct Hu as (r0 & Hr0 & Hf). destruct Hok as (_ & r1 & Hr1 & Hn).
    assert (r0 = r) as -> by congruence. assert (r1 = r) as -> by congruence.
    exists r'. split; [done|]. rewrite Hb.
    eapply (trie_insert_stable (buf str) (s ++ [nul]) s _ _ _ (rev s) r r' []); eauto with udev.
Qed.

(** C20: adding a string keeps the buffer and its trie consistent, whatever
    allocation fails, and never changes a string stored earlier: every offset
    handed out stays valid.  A string that the trie finds is stored there
    already: its offset is the result and the buffer and the trie stay as they
    are, so that no allocation can fail.  For any other string but the empty
    one, which is at offset 0, the result is the end of the old buffer, where
    the string itself is read back, if memory is available, and -ENOMEM with
    the trie left as it was whichever of the three allocations fails. *)
Theorem strbuf_add_string_correct a str s :
  strbuf_ok str -> cstr s ->
  let '(str', res) := strbuf_add_string a str s in
  strbuf_ok str' /\
  (forall off w, str_at (buf str) off w -> str_at (buf str') off w) /\
  (res = - ENOMEM \/ (0 <= res /\ strbuf_str str' res = s)) /\
  (a = AllocOk -> 0 <= res) /\
  (s = [] -> str' = str /\ res = 0) /\
  (forall off, s <> [] -> finds str s off -> buf str' = buf str /\ root str' = root str /\ res = Z.of_nat off) /\
  (s <> [] -> (forall off, ~ finds str s off) ->
     res = match a with AllocOk => Z.of_nat (length (buf str)) | _ => - ENOMEM end /\
     (a <> AllocOk -> root str' = root str)).
Proof.
  intros Hok Hs. pose proof (add_string_ok a str s Hok Hs) as Hok'.
  destruct (add_string_prefix a str s Hok Hs) as [ext Hext].
  destruct (strbuf_add_string a str s) as [str' res] eqn:E. simpl in *.
  split; [done|]. split; [rewrite Hext; eauto using str_at_app|].
  destruct (decide (s = [])) as [->|Hne].
  { rewrite add_string_nil in E by done. simplify_eq. split; [right|done].
    split; [done|]. by apply str_at_cstr, Hok. }
  destruct (add_string_cases a str s Hok Hs Hne)
    as [(off & Hf & Hat & Hb & Hr & _ & Ho)|(r & r' & Hr & Hi & Hat & Ho & Hb & Hr')]; rewrite E in *; simpl in *; subst res.
  - split; [right; split; [lia|]|]; [unfold strbuf_str; rewrite Nat2Z.id, Hb; by apply str_at_cstr|].
    split; [lia|]. split; [done|]. split; [|by intros _ Hn; destruct (Hn off)].
    intros off' _ Hf'. by rewrite (finds_unique _ _ _ _ Hf' Hf).
  - assert (forall off, ~ finds str s off) as Hn by (intros off Hf; exact (finds_not_new str s off r r' _ Hok Hr Hi Hf)).
    split; [|split; [destruct a; lia || done|split; [done|split; [by intros off _ Hf; destruct (Hn off)|]]]].
    + destruct a; [right|by left..]. split; [lia|]. unfold strbuf_str. rewrite Nat2Z.id, Hb. by apply str_at_cstr.
    + intros _ _. split; [done|]. intros Ha. rewrite Hr', Hr. by destruct a.
Qed.

Lemma strbuf_add_string_correct_witness :
  let '(str', res) := strbuf_add_string FailNode strbuf_new "abc" in strbuf_ok str' /\ res = - ENOMEM.
Proof.
  pose proof (strbuf_add_string_correct FailNode strbuf_new "abc" strbuf_new_ok ltac:(by repeat constructor)) as H.
  destruct (strbuf_add_string FailNode strbuf_new "abc") as [str' res].
  destruct H as (H1 & _ & _ & _ & _ & _ & H2). split; [exact H1|]. apply H2; [done|]. intros off (r & [= <-] & Hf). done.
Defined.

Definition add_all (str : strbuf) (us : list bytes) : strbuf :=
  fold_left (fun st u => (strbuf_add_string AllocOk st u).1) us str.

Lemma add_all_finds str us u off :
  strbuf_ok str -> Forall cstr us -> finds str u off ->
  strbuf_ok (add_all str us) /\ finds (add_all str us) u off.
Proof.
  intros Hok Hus. revert str Hok. induction Hus as [|v us Hv _ IH]; intros str Hok Hf; [done|].
  apply IH; auto using add_string_ok, add_string_finds_old.
Qed.

(** De-duplication.  Once a string has been added, adding it again later
    returns the same offset, and adding any non-empty tail of it stores
    nothing: the buffer and the trie stay as they are and an offset where the
    tail is read is returned. *)
Lemma strbuf_dedup str w us x s :
  strbuf_ok str -> cstr w -> Forall cstr us -> w = x ++ s -> s <> [] ->
  let '(str1, off1) := strbuf_add_string AllocOk str w in
  let str2 := add_all str1 us in
  let '(str3, off3) := strbuf_add_string AllocOk str2 s in
  buf str3 = buf str2 /\ root str3 = root str2 /\ nodes_count str3 = nodes_count str2 /\
  strbuf_str str3 off3 = s /\ (x = [] -> off3 = off1).
Proof.
  intros Hok Hw Hus Hx Hne. assert (w <> []) as Hwne by (subst; by destruct x).
  assert (cstr s) as Hs by (subst; by apply Forall_app in Hw as [_ ?]).
  pose proof (add_string_ok AllocOk str w Hok Hw) as Hok1.
  destruct (add_string_finds_new str w Hok Hw Hwne) as (off & Hf & Ho & _).
  destruct (strbuf_add_string AllocOk str w) as [str1 off1]. simpl in *.
  destruct (add_all_finds str1 us w off Hok1 Hus Hf) as [Hok2 (r & Hr & Hf2)].
  set (str2 := add_all str1 us) in *.
  assert (exists o, finds str2 s o /\ (x = [] -> o = off)) as (o & Hfs & Hox).
  { destruct Hok2 as (_ & r0 & Hr0 & Hn). rewrite Hr in Hr0. simplify_eq.
    destruct (trie_found_tail (buf str2) (x ++ s) s x (rev (x ++ s)) (rev s) r0 [] off)
      as [o Hfo]; eauto with udev.
    exists o. split; [by exists r0|]. intros ->. simpl in Hf2. congruence. }
  destruct (add_string_cases AllocOk str2 s Hok2 Hs Hne)
    as [(o' & (r' & Hr' & Hf') & Hat & Hb & Hro & Hnc & Ho')|(r' & r2 & Hr' & Ht & _)].
  - destruct (strbuf_add_string AllocOk str2 s) as [str3 off3]. simpl in *. subst off3 off1.
    split_and!; [done..| |].
    + unfold strbuf_str. rewrite Nat2Z.id, Hb. by apply str_at_cstr.
    + intros Hx0. rewrite <- (Hox Hx0). destruct Hfs as (r1 & Hr1 & Hf1). congruence.
  - exfalso. destruct Hfs as (r1 & Hr1 & Hf1). destruct Hok2 as (_ & r0 & Hr0 & Hn).
    assert (r1 = r') as -> by congruence. assert (r0 = r') as -> by congruence.
    eapply (trie_found_new _ _ _ (Node (length (buf str2)) (length s) [])) in Hf1;
      eauto with udev. congruence.
Qed.

Lemma strbuf_dedup_witness :
  let '(str1, off1) := strbuf_add_string AllocOk strbuf_new "block" in
  let '(str3, off3) := strbuf_add_string AllocOk (add_all str1 ["x" : bytes]) "lock" in
  buf str3 = buf (add_all str1 ["x" : bytes]).
Proof.
  pose proof (strbuf_dedup strbuf_new "block" ["x" : bytes] "b" "lock" strbuf_new_ok
    ltac:(by repeat constructor) ltac:(by repeat constructor) eq_refl ltac:(done)) as H.
  destruct (strbuf_add_string AllocOk strbuf_new "block") as [str1 off1]. cbv zeta in H.
  destruct (strbuf_add_string AllocOk (add_all str1 ["x" : bytes]) "lock") as [str3 off3]. apply H.
Defined.

(** The nodes of the trie. *)
Inductive in_trie : strbuf_node -> strbuf_node -> Prop :=
| in_trie_here n : in_trie n n
| in_trie_child n c ch m : (c, ch) ∈ children n -> in_trie ch m -> in_trie n m.

(** [children_count] is a [uint8_t], and never overflows: the characters
    of the children of a node are distinct and none is NUL, so every node of
    the trie has at most 255 of them. *)
Theorem strbuf_children_count_bound str r n :
  strbuf_ok str -> root str = Some r -> in_trie r n ->
  (length (children n) <= 255)%nat.
Proof.
  intros (_ & r' & Hr' & Hn) Hr. rewrite Hr in Hr'. simplify_eq.
  assert (forall t, node_ok (buf str) t r' -> in_trie r' n -> exists t', node_ok (buf str) t' n) as Hsub.
  { clear. intros t Hn Hin. revert t Hn. induction Hin as [|m c ch n Hc _ IH]; [eauto|].
    intros t Hn. inversion Hn; subst. eauto. }
  intros Hin. destruct (Hsub [] Hn Hin) as [t Hnt]. clear Hsub Hn Hin.
  inversion Hnt as [? ? p Hv Hl Hs Hch]; subst.
  assert (Forall (fun z => 0 < z < 256) (keys (children n))) as Hk.
  { apply Forall_forall. intros z ([c ch] & -> & Hc)%list_elem_of_fmap. cbn [fst].
    specialize (Hch c ch Hc). inversion Hch as [? ? q [Hq _] _ _ _]; subst.
    apply Forall_app in Hq as [_ Hq]. apply Forall_cons in Hq as [Hq _]. rewrite nul_code in Hq. pose proof (code_range c). lia. }
  apply byte_keys_bound in Hk; [|done]. unfold keys in Hk. by rewrite length_fmap in Hk.
Qed.

Lemma strbuf_children_count_bound_witness : (length (children (Node 0 0 [])) <= 255)%nat.
Proof.
  apply (strbuf_children_count_bound strbuf_new (Node 0 0 []) (Node 0 0 []));
    [apply strbuf_new_ok|reflexivity|constructor].
Defined.

End Strbuf.

(** * What the clients rely on

    The rules and the hardware database use a string buffer through this
    interface: adding a string returns an offset where it is read back, for as
    long as strings are only added.  Memory is available (an allocation
    failure is a case of [strbuf_add_string], not of the interface). *)
Class StringPool (P : Type) := {
  pool_new : P;
  pool_add : P -> bytes -> P * Z;
  pool_str : P -> Z -> bytes;
  pool_complete : P -> P;
  pool_ok : P -> Prop;
  pool_has : P -> Z -> bytes -> Prop;
  (** All offsets are below the size. *)
  pool_size : P -> Z;
  pool_new_ok : pool_ok pool_new;
  pool_add_ok p s : pool_ok p -> cstr s -> pool_ok (pool_add p s).1;
  pool_add_has p s : pool_ok p -> cstr s -> pool_has (pool_add p s).1 (pool_add p s).2 s;
  pool_add_mono p s off w :
    pool_ok p -> cstr s -> pool_has p off w -> pool_has (pool_add p s).1 off w;
  pool_complete_has p off w : pool_has p off w -> pool_has (pool_complete p) off w;
  pool_complete_size p : pool_size (pool_complete p) = pool_size p;
  pool_has_str p off w : pool_has p off w -> pool_str p off = w;
  pool_add_nonneg p s : pool_ok p -> cstr s -> 0 <= (pool_add p s).2;
  pool_size_mono p s : pool_ok p -> cstr s -> pool_size p <= pool_size (pool_add p s).1;
  pool_add_size p s : pool_ok p -> cstr s -> (pool_add p s).2 < pool_size (pool_add p s).1;
  (** 0 is the offset of the empty string only. *)
  pool_add_zero p s : pool_ok p -> cstr s -> (pool_add p s).2 = 0 -> s = [];
  pool_new_nil : pool_has pool_new 0 [];
  (** The tail of a string is a string. *)
  pool_has_suffix p off a w : pool_has p off (a ++ w) -> pool_has p (off + Z.of_nat (length a)) w;
  (** The strings lie in one buffer, which can be written to a file. *)
  pool_buf : P -> bytes;
  pool_has_buf p off w : pool_has p off w -> 0 <= off /\ str_at (pool_buf p) (Z.to_nat off) w
}.
#[export] Hint Resolve pool_new_ok pool_add_ok pool_add_has pool_add_mono : udev.

Import Strbuf.

Definition strbuf_has (str : strbuf) (off : Z) (w : bytes) : Prop :=
  0 <= off /\ str_at (buf str) (Z.to_nat off) w.

Lemma strbuf_add_cases str s :
  strbuf_ok str -> cstr s ->
  let '(str', res) := strbuf_add_string AllocOk str s in
  strbuf_ok str' /\ strbuf_has str' res s /\
  (forall off w, str_at (buf str) off w -> str_at (buf str') off w).
Proof.
  intros Hok Hs. pose proof (add_string_ok AllocOk str s Hok Hs) as Hok'.
  destruct (add_string_prefix AllocOk str s Hok Hs) as [ext Hext].
  destruct (decide (s = [])) as [->|Hne].
  { rewrite add_string_nil by done. split; [done|]. split; [split; [done|apply Hok]|done]. }
  destruct (add_string_finds_new str s Hok Hs Hne) as (off & _ & Ho & Hat).
  destruct (strbuf_add_string AllocOk str s) as [str' res]. simpl in *. subst res.
  split; [done|]. split; [split; [lia|by rewrite Nat2Z.id]|].
  intros. rewrite Hext. by apply str_at_app.
Qed.

#[export] Program Instance strbuf_pool : StringPool strbuf := {|
  pool_new := strbuf_new;
  pool_add := strbuf_add_string AllocOk;
  pool_str := strbuf_str;
  pool_complete := strbuf_complete;
  pool_ok := strbuf_ok;
  pool_has := strbuf_has;
  pool_size := fun str => Z.of_nat (length (buf str));
  pool_buf := buf
|}.
Next Obligation. apply strbuf_new_ok. Qed.
Next Obligation. auto using add_string_ok. Qed.
Next Obligation.
  intros p s Hok Hs. pose proof (strbuf_add_cases p s Hok Hs) as H.
  by destruct (strbuf_add_string _ _ _) as [? ?], H as (_ & H & _).
Qed.
Next Obligation.
  intros p s off w Hok Hs [H0 Hw]. pose proof (strbuf_add_cases p s Hok Hs) as H.
  destruct (strbuf_add_string _ _ _) as [? ?], H as (_ & _ & H). split; auto.
Qed.
Next Obligation. done. Qed.
Next Obligation. done. Qed.
Next Obligation. intros p off w [_ Hw]. by apply str_at_cstr. Qed.
Next Obligation.
  intros p s Hok Hs. pose proof (strbuf_add_cases p s Hok Hs) as H.
  by destruct (strbuf_add_string _ _ _) as [? ?], H as (_ & [H _] & _).
Qed.
Next Obligation.
  intros p s Hok Hs. simpl. destruct (add_string_prefix AllocOk p s Hok Hs) as [ext ->].
  rewrite length_app. lia.
Qed.
Next Obligation.
  intros p s Hok Hs. pose proof (strbuf_add_cases p s Hok Hs) as H. simpl.
  destruct (strbuf_add_string _ _ _) as [p' off], H as (_ & [H0 [_ [post Hd]]] & _). simpl.
  apply (f_equal length) in Hd. rewrite length_drop, length_app in Hd. simpl in Hd. lia.
Qed.
Next Obligation.
  intros p s Hok Hs. pose proof (strbuf_add_cases p s Hok Hs) as H.
  destruct (strbuf_add_string _ _ _) as [p' off], H as ((Hnil & _) & [_ H] & _). simpl. intros ->.
  change (Z.to_nat 0) with 0%nat in H. apply str_at_cstr in H, Hnil. congruence.
Qed.
Next Obligation. split; [done|]. split; [constructor|]. by exists []. Qed.
Next Obligation.
  intros p off a w [H0 H]. split; [lia|]. apply str_at_suffix in H. replace (Z.to_nat (off + Z.of_nat (length a))) with
    (Z.to_nat off + length a)%nat by lia. done.
Qed.
Next Obligation. done. Qed.
