(* ===== verification/RuleTokens.v ===== *)
(** src/core/udev-rules.c, first part: the tokens a rules file is compiled to,
    the token array and the temporary array of one rule ([add_token],
    [rule_add_key], [sort_token]), and the scanner of one key
    ([get_key], [get_key_attribute]). *)

From Stdlib Require Import ZArith Lia Ascii.
From stdpp Require Import prelude gmap strings sorting.
From S2P Require Import Prelude Utils Strings Encode Strbuf.
Import ParseValue.

Module RuleTokens.

(** * Data *)

Inductive operation_type :=
| OP_UNSET | OP_MATCH | OP_NOMATCH | OP_MATCH_MAX | OP_ADD | OP_ASSIGN | OP_ASSIGN_FINAL.
#[export] Instance operation_type_eq_dec : EqDecision operation_type.
Proof. solve_decision. Defined.

Definition op_num (op : operation_type) : Z :=
  match op with
  | OP_UNSET => 0 | OP_MATCH => 1 | OP_NOMATCH => 2 | OP_MATCH_MAX => 3
  | OP_ADD => 4 | OP_ASSIGN => 5 | OP_ASSIGN_FINAL => 6
  end.

Inductive string_glob_type := GL_UNSET | GL_PLAIN | GL_GLOB | GL_SPLIT | GL_SPLIT_GLOB | GL_SOMETHING.
#[export] Instance string_glob_type_eq_dec : EqDecision string_glob_type.
Proof. solve_decision. Defined.

Inductive string_subst_type := SB_UNSET | SB_NONE | SB_FORMAT | SB_SUBSYS.
#[export] Instance string_subst_type_eq_dec : EqDecision string_subst_type.
Proof. solve_decision. Defined.

Inductive token_type :=
| TK_UNSET | TK_RULE
| TK_M_ACTION | TK_M_DEVPATH | TK_M_KERNEL | TK_M_DEVLINK | TK_M_NAME | TK_M_ENV | TK_M_TAG
| TK_M_SUBSYSTEM | TK_M_DRIVER | TK_M_WAITFOR | TK_M_ATTR
| TK_M_PARENTS_MIN | TK_M_KERNELS | TK_M_SUBSYSTEMS | TK_M_DRIVERS | TK_M_ATTRS | TK_M_TAGS
| TK_M_PARENTS_MAX
| TK_M_TEST | TK_M_PROGRAM | TK_M_IMPORT_FILE | TK_M_IMPORT_PROG | TK_M_IMPORT_BUILTIN
| TK_M_IMPORT_DB | TK_M_IMPORT_CMDLINE | TK_M_IMPORT_PARENT | TK_M_RESULT | TK_M_MAX
| TK_A_STRING_ESCAPE_NONE | TK_A_STRING_ESCAPE_REPLACE | TK_A_DB_PERSIST | TK_A_INOTIFY_WATCH
| TK_A_DEVLINK_PRIO | TK_A_OWNER | TK_A_GROUP | TK_A_MODE | TK_A_OWNER_ID | TK_A_GROUP_ID
| TK_A_MODE_ID | TK_A_TAG | TK_A_STATIC_NODE | TK_A_SECLABEL | TK_A_ENV | TK_A_NAME
| TK_A_DEVLINK | TK_A_ATTR | TK_A_RUN_BUILTIN | TK_A_RUN_PROGRAM | TK_A_GOTO
| TK_END.

(** The values of the enumeration, in order. *)
Definition token_types : list token_type :=
  [TK_UNSET; TK_RULE; TK_M_ACTION; TK_M_DEVPATH; TK_M_KERNEL; TK_M_DEVLINK; TK_M_NAME; TK_M_ENV;
   TK_M_TAG; TK_M_SUBSYSTEM; TK_M_DRIVER; TK_M_WAITFOR; TK_M_ATTR; TK_M_PARENTS_MIN; TK_M_KERNELS;
   TK_M_SUBSYSTEMS; TK_M_DRIVERS; TK_M_ATTRS; TK_M_TAGS; TK_M_PARENTS_MAX; TK_M_TEST; TK_M_PROGRAM;
   TK_M_IMPORT_FILE; TK_M_IMPORT_PROG; TK_M_IMPORT_BUILTIN; TK_M_IMPORT_DB; TK_M_IMPORT_CMDLINE;
   TK_M_IMPORT_PARENT; TK_M_RESULT; TK_M_MAX; TK_A_STRING_ESCAPE_NONE; TK_A_STRING_ESCAPE_REPLACE;
   TK_A_DB_PERSIST; TK_A_INOTIFY_WATCH; TK_A_DEVLINK_PRIO; TK_A_OWNER; TK_A_GROUP; TK_A_MODE;
   TK_A_OWNER_ID; TK_A_GROUP_ID; TK_A_MODE_ID; TK_A_TAG; TK_A_STATIC_NODE; TK_A_SECLABEL; TK_A_ENV;
   TK_A_NAME; TK_A_DEVLINK; TK_A_ATTR; TK_A_RUN_BUILTIN; TK_A_RUN_PROGRAM; TK_A_GOTO; TK_END].
(** The integer value of a token type. *)
Definition tt (t : token_type) : Z :=
  match t with
  | TK_UNSET => 0 | TK_RULE => 1
  | TK_M_ACTION => 2 | TK_M_DEVPATH => 3 | TK_M_KERNEL => 4 | TK_M_DEVLINK => 5 | TK_M_NAME => 6
  | TK_M_ENV => 7 | TK_M_TAG => 8 | TK_M_SUBSYSTEM => 9 | TK_M_DRIVER => 10 | TK_M_WAITFOR => 11
  | TK_M_ATTR => 12 | TK_M_PARENTS_MIN => 13 | TK_M_KERNELS => 14 | TK_M_SUBSYSTEMS => 15
  | TK_M_DRIVERS => 16 | TK_M_ATTRS => 17 | TK_M_TAGS => 18 | TK_M_PARENTS_MAX => 19
  | TK_M_TEST => 20 | TK_M_PROGRAM => 21 | TK_M_IMPORT_FILE => 22 | TK_M_IMPORT_PROG => 23
  | TK_M_IMPORT_BUILTIN => 24 | TK_M_IMPORT_DB => 25 | TK_M_IMPORT_CMDLINE => 26
  | TK_M_IMPORT_PARENT => 27 | TK_M_RESULT => 28 | TK_M_MAX => 29
  | TK_A_STRING_ESCAPE_NONE => 30 | TK_A_STRING_ESCAPE_REPLACE => 31 | TK_A_DB_PERSIST => 32
  | TK_A_INOTIFY_WATCH => 33 | TK_A_DEVLINK_PRIO => 34 | TK_A_OWNER => 35 | TK_A_GROUP => 36
  | TK_A_MODE => 37 | TK_A_OWNER_ID => 38 | TK_A_GROUP_ID => 39 | TK_A_MODE_ID => 40
  | TK_A_TAG => 41 | TK_A_STATIC_NODE => 42 | TK_A_SECLABEL => 43 | TK_A_ENV => 44
  | TK_A_NAME => 45 | TK_A_DEVLINK => 46 | TK_A_ATTR => 47 | TK_A_RUN_BUILTIN => 48
  | TK_A_RUN_PROGRAM => 49 | TK_A_GOTO => 50 | TK_END => 51
  end.

Lemma token_types_tt t : token_types !! Z.to_nat (tt t) = Some t.
Proof. by destruct t. Qed.
#[export] Instance tt_inj : Inj (=) (=) tt.
Proof. intros a b H. pose proof (token_types_tt a). pose proof (token_types_tt b). congruence. Qed.
#[export] Instance token_type_eq_dec : EqDecision token_type.
Proof.
  intros a b. destruct (decide (tt a = tt b)) as [H|H].
  - left. by apply tt_inj.
  - right. by intros ->.
Defined.

(** The two members of [struct token].  [data] is the 32-bit union that ends a
    key token: [attr_off], [rule_goto], [mode], [uid], [gid], [devlink_prio],
    [watch] and [builtin_cmd]. *)
Record rule_token := mk_rule_token {
  can_set_name : bool;
  has_static_node : bool;
  token_count : Z;
  label_off : Z;
  filename_off : Z;
  filename_line : Z
}.
Record key_token := mk_key_token {
  type : token_type;
  op : operation_type;
  glob : string_glob_type;
  subst : string_subst_type;
  attrsubst : string_subst_type;
  value_off : Z;
  data : Z
}.
Inductive token := RuleToken (r : rule_token) | KeyToken (k : key_token).

Definition zero_key : key_token := mk_key_token TK_UNSET OP_UNSET GL_UNSET SB_UNSET SB_UNSET 0 0.
Definition token_type_of (t : token) : token_type :=
  match t with RuleToken _ => TK_RULE | KeyToken k => type k end.
Definition end_token : token := KeyToken (mk_key_token TK_END OP_UNSET GL_UNSET SB_UNSET SB_UNSET 0 0).

Definition set_type (ty : token_type) (k : key_token) : key_token :=
  mk_key_token ty (op k) (glob k) (subst k) (attrsubst k) (value_off k) (data k).
Definition set_data (d : Z) (k : key_token) : key_token :=
  mk_key_token (type k) (op k) (glob k) (subst k) (attrsubst k) (value_off k) d.

Section tokens.
Context {P : Type} `{Hpool : StringPool P}.

(** [struct rules]; [token_cur] is the length of [tokens]. *)
Record rules := mk_rules {
  tokens : list token;
  token_max : nat;
  strbuf : P
}.

Definition rules_str (r : rules) (off : Z) : bytes := pool_str (strbuf r) off.
Definition rules_add_string (r : rules) (s : bytes) : rules * Z :=
  let '(p, off) := pool_add (strbuf r) s in (mk_rules (tokens r) (token_max r) p, u32 off).

Definition PREALLOC_TOKEN : nat := 2048.
Definition rules_new (size : nat) : rules := mk_rules [] size pool_new.

Definition add_token (r : rules) (t : token) : rules :=
  let max := if (token_max r <=? length (tokens r) + 1)%nat
             then (token_max r + (if (token_max r <? 8)%nat then 8 else token_max r))%nat
             else token_max r in
  mk_rules (tokens r ++ [t]) max (strbuf r).

(** [struct rule_tmp]; [token_cur] is the length of [tmp_token], an array of
    [MAX_TK] tokens.  [tmp_over] is set when a token has been written behind
    the end of the array. *)
Definition MAX_TK : nat := 64.
Record rule_tmp := mk_rule_tmp {
  tmp_rule : rule_token;
  tmp_token : list key_token;
  tmp_over : bool
}.

Definition string_is_glob (s : bytes) : bool :=
  existsb (fun c => (c ==c "*") || (c ==c "?") || (c ==c "[")) s.

Definition glob_of (value : bytes) : string_glob_type :=
  let has_split := if strchr value "|" is Some _ then true else false in
  let has_glob := string_is_glob value in
  if has_split && has_glob then GL_SPLIT_GLOB
  else if has_split then GL_SPLIT
  else if has_glob then
    if str_eq (Some value) (Some ("?*" : bytes)) then GL_SOMETHING else GL_GLOB
  else GL_PLAIN.

Definition subst_of (value : bytes) : string_subst_type :=
  if nth 0 value nul ==c "[" then SB_SUBSYS
  else if (if strchr value "%" is Some _ then true else false) ||
          (if strchr value "$" is Some _ then true else false) then SB_FORMAT
  else SB_NONE.

(** The [data] argument of [rule_add_key]: a string for the attribute, or the
    integer behind the pointer. *)
Inductive key_data := NoData | AttrData (attr : bytes) | IntData (n : Z).

(** What the [switch] of [rule_add_key] does with a type. *)
Inductive key_class :=
| KValue | KValueInt | KValueAttr | KNone | KInt | KWrong.
Definition key_class_of (t : token_type) : key_class :=
  match t with
  | TK_M_IMPORT_BUILTIN | TK_A_RUN_BUILTIN | TK_A_RUN_PROGRAM | TK_M_TEST => KValueInt
  | TK_M_ENV | TK_M_ATTR | TK_M_ATTRS | TK_A_ATTR | TK_A_ENV | TK_A_SECLABEL => KValueAttr
  | TK_A_STRING_ESCAPE_NONE | TK_A_STRING_ESCAPE_REPLACE | TK_A_DB_PERSIST => KNone
  | TK_A_INOTIFY_WATCH | TK_A_DEVLINK_PRIO | TK_A_OWNER_ID | TK_A_GROUP_ID | TK_A_MODE_ID => KInt
  | TK_RULE | TK_M_PARENTS_MIN | TK_M_PARENTS_MAX | TK_M_MAX | TK_END | TK_UNSET => KWrong
  | _ => KValue
  end.

(** The rules (their string buffer grows), the temporary rule and the result.
    The fixed [value] of the source may be NULL. *)
Definition rule_add_key (r : rules) (tmp : rule_tmp) (ty : token_type) (o : operation_type)
    (value : option bytes) (d : key_data) : rules * rule_tmp * Z :=
  let v := default [] value in
  let '(r, voff, dat, attr) :=
    match key_class_of ty, d with
    | KValue, _ => let '(r, off) := rules_add_string r v in (r, off, 0, None)
    | KValueInt, IntData n => let '(r, off) := rules_add_string r v in (r, off, u32 n, None)
    | KValueInt, _ => let '(r, off) := rules_add_string r v in (r, off, 0, None)
    | KValueAttr, AttrData a =>
        let '(r, off) := rules_add_string r v in
        let '(r, aoff) := rules_add_string r a in (r, off, aoff, Some a)
    | KInt, IntData n => (r, 0, u32 n, None)
    | _, _ => (r, 0, 0, None)
    end in
  let over := tmp_over tmp || (MAX_TK <=? length (tmp_token tmp))%nat in
  match key_class_of ty with
  | KWrong => (r, mk_rule_tmp (tmp_rule tmp) (tmp_token tmp) over, -1)
  | _ =>
      let k := mk_key_token ty o
        (match value with Some v => if tt ty <? tt TK_M_MAX then glob_of v else GL_UNSET
                     | None => GL_UNSET end)
        (match value with Some v => if tt TK_M_MAX <? tt ty then subst_of v else SB_UNSET
                     | None => SB_UNSET end)
        (match attr with Some a => subst_of a | None => SB_UNSET end)
        voff dat in
      let toks := tmp_token tmp ++ [k] in
      (r, mk_rule_tmp (tmp_rule tmp) toks over, if (MAX_TK <=? length toks)%nat then -1 else 0)
  end.

(** * Sorting the keys of a rule *)

(** The scan for the smallest type in [j .. end): the smallest so far. *)
Fixpoint find_smallest (toks : list key_token) (n j : nat) (best : token_type * nat)
    : token_type * nat :=
  match n with
  | O => best
  | S n' =>
      let ty := type (nth j toks zero_key) in
      let best :=
        if bool_decide (ty = TK_UNSET) then best
        else if bool_decide (fst best = TK_UNSET) || (tt ty <? tt (fst best)) then (ty, j)
        else best in
      find_smallest toks n' (S j) best
  end.

Fixpoint sort_loop (r : rules) (toks : list key_token) (n start end_ : nat) : rules :=
  match n with
  | O => r
  | S n' =>
      let next_idx := snd (find_smallest toks (end_ - start) start (TK_UNSET, 0%nat)) in
      let t := nth next_idx toks zero_key in
      let r := add_token r (KeyToken t) in
      let toks := <[next_idx := set_type TK_UNSET t]> toks in
      let start' := if (next_idx =? start)%nat then S start else start in
      let end' := if (next_idx + 1 =? end_)%nat then (end_ - 1)%nat else end_ in
      sort_loop r toks n' start' end'
  end.
Definition sort_token (r : rules) (tmp : rule_tmp) : rules :=
  let n := length (tmp_token tmp) in sort_loop r (tmp_token tmp) n 0 n.

End tokens.

(** * Scanning a key *)

Fixpoint skip_sep (s : bytes) : bytes :=
  match s with
  | c :: s' => if isspace c || (c ==c ",") then skip_sep s' else s
  | [] => []
  end.

(** Whether the key ends here. *)
Definition key_end (s : bytes) : bool :=
  match s with
  | [] => false
  | c :: s' =>
      isspace c || (c ==c "=") ||
      (((c ==c "+") || (c ==c "!") || (c ==c ":")) && (nth 0 s' nul ==c "="))
  end.
Fixpoint scan_key (s : bytes) : option (bytes * bytes) :=
  match s with
  | [] => None
  | c :: s' =>
      if key_end s then Some ([], s)
      else '(k, r) ← scan_key s'; Some (c :: k, r)
  end.

Definition get_op (s : bytes) : option (operation_type * bytes) :=
  match s with
  | [] => None
  | c :: s' =>
      let eq1 := nth 0 s' nul ==c "=" in
      if (c ==c "=") && eq1 then Some (OP_MATCH, drop 2 s)
      else if (c ==c "!") && eq1 then Some (OP_NOMATCH, drop 2 s)
      else if (c ==c "+") && eq1 then Some (OP_ADD, drop 2 s)
      else if c ==c "=" then Some (OP_ASSIGN, s')
      else if (c ==c ":") && eq1 then Some (OP_ASSIGN_FINAL, drop 2 s)
      else None
  end.

(** The key, the operation, the value and the rest of the line; [None] is the
    result -1, which leaves the position of the line where it was. *)
Definition get_key (line : bytes) : option (bytes * operation_type * bytes * bytes) :=
  match line with
  | [] => None
  | _ =>
      match skip_sep line with
      | [] => None
      | c :: s =>
          '(k, s) ← scan_key s;
          match skip_space s with
          | [] => None
          | s =>
              '(o, s) ← get_op s;
              match skip_space s with
              | [] => None
              | q :: s =>
                  if negb (q ==c dquote) then None
                  else '(v, n) ← unquote dquote s; Some (c :: k, o, v, drop (n + 1) s)
              end
          end
      end
  end.

Definition get_key_attribute (str : bytes) : option bytes :=
  match strchr str "{" with
  | Some (_ :: attr) => match split_chr attr "}" with (a, Some _) => Some a | _ => None end
  | _ => None
  end.

Example get_key_ex :
  (get_key (", ENV{A}!= 'x'")) = None /\
  get_key (", ENV{A}!= " ++ [dquote] ++ "a\" ++ [dquote] ++ "b" ++ [dquote] ++ ", C")
  = Some (("ENV{A}" : bytes), OP_NOMATCH, (("a" ++ [dquote] ++ "b") : bytes), (", C" : bytes)).
Proof. vm_compute. auto. Qed.

(** * [sort_token] is a stable sort *)

Definition le_type (a b : key_token) : Prop := tt (type a) <= tt (type b).
Definition lt_type (a b : key_token) : Prop := tt (type a) < tt (type b).
#[export] Instance le_type_trans : Transitive le_type.
Proof. intros a b c. unfold le_type. lia. Qed.

Definition marked (k : key_token) : Prop := type k = TK_UNSET.
#[export] Instance marked_dec k : Decision (marked k).
Proof. unfold marked. apply _. Defined.
Definition unmarked (k : key_token) : Prop := ~ marked k.

(** Taking out the first smallest element, again and again. *)
Inductive picks : list key_token -> list key_token -> Prop :=
| picks_nil : picks [] []
| picks_cons l1 t l2 out :
    Forall (lt_type t) l1 -> Forall (le_type t) l2 -> picks (l1 ++ l2) out ->
    picks (l1 ++ t :: l2) (t :: out).

Lemma picks_perm l out : picks l out -> l ≡ₚ out.
Proof. induction 1 as [|l1 t l2 out _ _ _ IH]; [done|]. by rewrite <- Permutation_middle, IH. Qed.

Lemma picks_sorted l out : picks l out -> StronglySorted le_type out.
Proof.
  induction 1 as [|l1 t l2 out H1 H2 Hp IH]; constructor; [done|].
  rewrite <- (picks_perm _ _ Hp). apply Forall_app. split; [|done].
  eapply Forall_impl; [exact H1|]. unfold lt_type, le_type. lia.
Qed.

Lemma picks_stable l out ty :
  picks l out -> filter (fun k => type k = ty) out = filter (fun k => type k = ty) l.
Proof.
  induction 1 as [|l1 t l2 out H1 H2 _ IH]; [done|].
  rewrite filter_app in IH |- *. rewrite !filter_cons. case_decide as Ht; [|done].
  rewrite IH. assert (filter (fun k => type k = ty) l1 = []) as ->; [|done].
  clear -H1 Ht. induction H1 as [|x l1 Hx _ IHl]; [done|]. rewrite filter_cons_False; [done|].
  unfold lt_type in Hx. intros Hxt. rewrite Ht, Hxt in Hx. lia.
Qed.

Definition type_at (toks : list key_token) (k : nat) : token_type := type (nth k toks zero_key).

Lemma find_smallest_spec toks n j b i0 :
  let at_ := type_at toks in
  let '(ty, i) := find_smallest toks n j (b, i0) in
  ((ty, i) = (b, i0) /\
   forall k, (j <= k < j + n)%nat -> at_ k <> TK_UNSET -> b <> TK_UNSET /\ tt b <= tt (at_ k)) \/
  ((j <= i < j + n)%nat /\ ty = at_ i /\ ty <> TK_UNSET /\ (b <> TK_UNSET -> tt ty < tt b) /\
   (forall k, (j <= k < i)%nat -> at_ k <> TK_UNSET -> tt ty < tt (at_ k)) /\
   (forall k, (i <= k < j + n)%nat -> at_ k <> TK_UNSET -> tt ty <= tt (at_ k))).
Proof.
  intros at_. revert j b i0. induction n as [|n IH]; intros j b i0.
  { simpl. left. split; [done|lia]. }
  cbn [find_smallest fst]. change (type (nth j toks zero_key)) with (at_ j).
  set (c := at_ j).
  case_bool_decide as Hc; [|destruct (bool_decide (b = TK_UNSET) || (tt c <? tt b)) eqn:E].
  - specialize (IH (S j) b i0). destruct (find_smallest _ _ _ _) as [ty i].
    destruct IH as [[-> H]|(Hi & Hty & Hn & Hb & H1 & H2)]; [left|right].
    + split; [done|]. intros k Hk Hu. apply H; [|done]. destruct (decide (k = j)) as [->|]; [done|lia].
    + split_and!; [lia..|done|done|done| |].
      * intros k Hk Hu. apply H1; [|done]. destruct (decide (k = j)) as [->|]; [done|lia].
      * intros k Hk Hu. apply H2; [lia|done].
  - specialize (IH (S j) c j). destruct (find_smallest _ _ _ _) as [ty i]. right.
    assert (b <> TK_UNSET -> tt c < tt b) as Hcb.
    { intros Hb. apply orb_true_iff in E as [E%bool_decide_eq_true|E%Z.ltb_lt]; done. }
    destruct IH as [[[= -> ->] H]|(Hi & Hty & Hn & Hb & H1 & H2)].
    + split_and!; [lia|lia|done|done|done|lia|].
      intros k Hk Hu. destruct (decide (k = j)) as [->|]; [done|]. apply H; [lia|done].
    + specialize (Hb Hc). split_and!; [lia|lia|done|done|intros Hb'; specialize (Hcb Hb'); lia| |].
      * intros k Hk Hu. destruct (decide (k = j)) as [->|]; [done|]. apply H1; [lia|done].
      * intros k Hk Hu. apply H2; [lia|done].
  - apply orb_false_iff in E as [E1%bool_decide_eq_false E2%Z.ltb_ge].
    specialize (IH (S j) b i0). destruct (find_smallest _ _ _ _) as [ty i].
    destruct IH as [[-> H]|(Hi & Hty & Hn & Hb & H1 & H2)]; [left|right].
    + split; [done|]. intros k Hk Hu. destruct (decide (k = j)) as [->|]; [done|]. apply H; [lia|done].
    + specialize (Hb E1) as Hb'. split_and!; [lia..|done|done|done| |].
      * intros k Hk Hu. destruct (decide (k = j)) as [->|]; [subst c; lia|]. apply H1; [lia|done].
      * intros k Hk Hu. apply H2; [lia|done].
Qed.

Section sort.
Context {P : Type} `{Hpool : StringPool P}.
Implicit Types (r : @rules P) (toks : list key_token).

(** The array has room for the next token. *)
Definition room r : Prop := (length (tokens r) < token_max r)%nat.

Lemma add_token_room r t : room r -> room (add_token r t).
Proof.
  unfold room, add_token. simpl. rewrite length_app. simpl. intros.
  destruct (Nat.leb_spec (token_max r) (length (tokens r) + 1)), (Nat.ltb_spec (token_max r) 8); lia.
Qed.

(** The positions outside [start .. end) are done. *)
Definition shrunk toks (start end_ : nat) : Prop :=
  (end_ <= length toks)%nat /\
  forall k, (k < start \/ end_ <= k)%nat -> type_at toks k = TK_UNSET.

Lemma unmarked_exists toks start end_ :
  shrunk toks start end_ -> filter unmarked toks <> [] ->
  exists k, (start <= k < start + (end_ - start))%nat /\ type_at toks k <> TK_UNSET.
Proof.
  intros [Hlen Hout] Hne. destruct (filter unmarked toks) as [|x l] eqn:E; [done|].
  assert (x ∈ filter unmarked toks) as Hx by (rewrite E; left).
  apply list_elem_of_filter in Hx as [Hu Hx]. apply list_elem_of_lookup in Hx as [k Hk].
  assert (type_at toks k <> TK_UNSET) as Hk'.
  { unfold type_at. by rewrite nth_lookup, Hk. }
  exists k. split; [|done]. destruct (decide (k < start)%nat); [by rewrite Hout in Hk' by lia|].
  destruct (decide (end_ <= k)%nat); [by rewrite Hout in Hk' by lia|]. lia.
Qed.

Lemma filter_split toks i t :
  toks !! i = Some t -> unmarked t ->
  filter unmarked toks = filter unmarked (take i toks) ++ t :: filter unmarked (drop (S i) toks) /\
  filter unmarked (<[i := set_type TK_UNSET t]> toks) =
    filter unmarked (take i toks) ++ filter unmarked (drop (S i) toks).
Proof.
  intros Hi Hu. split.
  - rewrite <- (take_drop_middle toks i t Hi) at 1. by rewrite filter_app, filter_cons_True.
  - rewrite insert_take_drop by (by apply lookup_lt_Some in Hi).
    rewrite filter_app, filter_cons_False; [done|]. unfold unmarked, marked. simpl. intros H. by apply H.
Qed.

Lemma Forall_filter_pos (Q : key_token -> Prop) toks :
  (forall k t, toks !! k = Some t -> unmarked t -> Q t) -> Forall Q (filter unmarked toks).
Proof.
  intros H. apply Forall_forall. intros t Ht. apply list_elem_of_filter in Ht as [Hu Ht].
  apply list_elem_of_lookup in Ht as [k Hk]. eauto.
Qed.

Lemma sort_loop_ok n toks start end_ r :
  shrunk toks start end_ -> length (filter unmarked toks) = n ->
  let r' := sort_loop r toks n start end_ in
  exists out, picks (filter unmarked toks) out /\
    tokens r' = tokens r ++ (KeyToken <$> out) /\ strbuf r' = strbuf r /\ (room r -> room r').
Proof.
  revert toks start end_ r. induction n as [|n IH]; intros toks start end_ r Hsh Hlen.
  { apply nil_length_inv in Hlen as ->. exists []. rewrite app_nil_r. by split; [constructor|]. }
  destruct (unmarked_exists toks start end_ Hsh) as (k0 & Hk0 & Hu0); [by intros E; rewrite E in Hlen|].
  destruct Hsh as [Hend Hout]. cbn [sort_loop].
  pose proof (find_smallest_spec toks (end_ - start) start TK_UNSET 0) as Hf.
  destruct (find_smallest _ _ _ _) as [ty i]. simpl in Hf. simpl snd.
  destruct Hf as [[_ Hf]|(Hi & Hty & Hn & _ & H1 & H2)]; [by destruct (Hf k0 Hk0 Hu0)|].
  destruct (lookup_lt_is_Some_2 toks i) as [t Ht]; [lia|].
  assert (nth i toks zero_key = t) as Hnth by (by rewrite nth_lookup, Ht). rewrite Hnth.
  assert (type t = ty) as Hty' by (rewrite Hty; unfold type_at; by rewrite Hnth).
  assert (unmarked t) as Hu by (unfold unmarked, marked; congruence).
  destruct (filter_split toks i t Ht Hu) as [Hf1 Hf2].
  set (toks' := <[i := set_type TK_UNSET t]> toks) in *.
  assert (forall k, type_at toks' k = if (k =? i)%nat then TK_UNSET else type_at toks k) as Hat.
  { intros k. unfold type_at, toks'. rewrite !nth_lookup. destruct (Nat.eqb_spec k i) as [->|Hne].
    - rewrite list_lookup_insert_eq by lia. done.
    - by rewrite list_lookup_insert_ne by done. }
  assert (forall k x, toks !! k = Some x -> unmarked x -> (start <= k < end_)%nat) as Hin.
  { intros k x Hk Hx. destruct (decide (start <= k < end_)%nat) as [|Hno]; [done|].
    exfalso. apply Hx. unfold marked. specialize (Hout k). unfold type_at in Hout.
    rewrite nth_lookup, Hk in Hout. apply Hout. lia. }
  edestruct (IH toks' (if (i =? start)%nat then S start else start)
    (if (i + 1 =? end_)%nat then (end_ - 1)%nat else end_) (add_token r (KeyToken t)))
    as (out & Hp & Htk & Hs & Hr).
  - split; [unfold toks'; rewrite length_insert; case_match; lia|].
    intros k Hk. rewrite Hat. destruct (Nat.eqb_spec k i); [done|]. apply Hout.
    destruct (Nat.eqb_spec i start), (Nat.eqb_spec (i + 1) end_); lia.
  - rewrite Hf2. rewrite Hf1 in Hlen. rewrite length_app in *. simpl in Hlen. lia.
  - exists (t :: out). rewrite Hf1. split_and!.
    + constructor; [| |by rewrite <- Hf2].
      * apply Forall_filter_pos. intros k x Hk Hx. apply lookup_take_Some in Hk as [Hk Hki].
        specialize (Hin k x Hk Hx). specialize (H1 k). unfold type_at in H1.
        rewrite nth_lookup, Hk in H1. unfold lt_type. rewrite Hty'. apply H1; [lia|done].
      * apply Forall_filter_pos. intros k x Hk Hx. rewrite lookup_drop in Hk.
        specialize (Hin _ x Hk Hx). specialize (H2 (S i + k)%nat). unfold type_at in H2.
        rewrite nth_lookup, Hk in H2. unfold le_type. rewrite Hty'. apply H2; [lia|done].
    + rewrite Htk. simpl. by rewrite <- app_assoc.
    + done.
    + intros. by apply Hr, add_token_room.
Qed.

(** The tokens of the rule, in the order in which they are matched and
    executed. *)
Lemma sort_token_picks r tmp :
  Forall unmarked (tmp_token tmp) ->
  exists out, picks (tmp_token tmp) out /\
    tokens (sort_token r tmp) = tokens r ++ (KeyToken <$> out) /\
    strbuf (sort_token r tmp) = strbuf r /\ (room r -> room (sort_token r tmp)).
Proof.
  intros Hu. assert (filter unmarked (tmp_token tmp) = tmp_token tmp) as Hf.
  { clear -Hu. induction Hu as [|x l Hx _ IH]; [done|]. by rewrite filter_cons_True, IH. }
  pose proof (sort_loop_ok (length (tmp_token tmp)) (tmp_token tmp) 0 (length (tmp_token tmp)) r) as H.
  rewrite Hf in H. apply H; [|done]. split; [done|]. intros k [Hk|Hk]; [lia|].
  unfold type_at. by rewrite nth_overflow.
Qed.

Lemma sort_token_sorted r tmp :
  Forall unmarked (tmp_token tmp) ->
  exists out,
    tokens (sort_token r tmp) = tokens r ++ (KeyToken <$> out) /\
    tmp_token tmp ≡ₚ out /\ StronglySorted le_type out /\
    strbuf (sort_token r tmp) = strbuf r /\ (room r -> room (sort_token r tmp)).
Proof.
  intros Hu. destruct (sort_token_picks r tmp Hu) as (out & Hp & Ht & Hs & Hr). exists out.
  split_and!; [done|by apply picks_perm|by eapply picks_sorted|done..].
Qed.

(** C16: [sort_token] appends the keys of a rule to the token array sorted by
    type, and stably: the array gets a permutation of the keys, in increasing
    order of type, keys of the same type in the order of the rule, and
    nothing else changes; the array never gets full. *)
Theorem sort_token_stable r tmp :
  Forall unmarked (tmp_token tmp) ->
  exists out,
    tokens (sort_token r tmp) = tokens r ++ (KeyToken <$> out) /\
    tmp_token tmp ≡ₚ out /\ StronglySorted le_type out /\
    (forall ty, filter (fun k => type k = ty) out = filter (fun k => type k = ty) (tmp_token tmp)) /\
    strbuf (sort_token r tmp) = strbuf r /\ (room r -> room (sort_token r tmp)).
Proof.
  intros Hu. destruct (sort_token_picks r tmp Hu) as (out & Hp & Ht & Hs & Hr). exists out.
  split_and!; [done|by apply picks_perm|by eapply picks_sorted|intros; by apply picks_stable|done..].
Qed.

End sort.

Lemma sort_token_stable_witness :
  let k ty v := mk_key_token ty OP_MATCH GL_PLAIN SB_UNSET SB_UNSET v 0 in
  let tmp := mk_rule_tmp (mk_rule_token false false 0 0 0 0)
    [k TK_M_TAG 1; k TK_M_KERNEL 2; k TK_M_TAG 3; k TK_M_ACTION 4] false in
  exists out,
    tokens (sort_token (P := Strbuf.strbuf) (rules_new 8) tmp) = [] ++ (KeyToken <$> out) /\
    StronglySorted le_type out.
Proof.
  intros k tmp. destruct (sort_token_stable (rules_new 8 : @rules Strbuf.strbuf) tmp) as (out & Ht & _ & Hs & _).
  - repeat constructor; done.
  - exists out. split; [exact Ht|exact Hs].
Defined.

(** * [get_key] reads back what is written *)

(** The characters of a key behind its first one. *)
Definition key_char (c : byte) : bool := negb (isspace c || (c ==c "=")).
(** The characters that begin an operator with an equals sign behind them. *)
Definition op_mark (c : byte) : bool := (c ==c "+") || (c ==c "!") || (c ==c ":").
(** A key that can be told from the [tail] behind it: it begins with neither a
    space nor a comma, has no space and no equals sign further on, and does not
    end in what becomes another operator with the [tail]. *)
Definition key_ok (k tail : bytes) : Prop :=
  match k with
  | [] => False
  | c :: k' =>
      isspace c = false /\ c <> ","%char /\ Forall (fun c => key_char c = true) k' /\
      (head tail = Some "="%char -> forall x, last k' = Some x -> op_mark x = false)
  end.
Definition op_str (o : operation_type) : bytes :=
  match o with
  | OP_MATCH => "==" | OP_NOMATCH => "!=" | OP_ADD => "+=" | OP_ASSIGN => "=" | OP_ASSIGN_FINAL => ":="
  | OP_UNSET | OP_MATCH_MAX => []
  end.
Definition is_sep (c : byte) : bool := isspace c || (c ==c ",").

(** A key of a rule, with the separators in front of it and the white space
    around its operator. *)
Definition print_key (sep k sp1 : bytes) (o : operation_type) (sp2 v : bytes) : bytes :=
  sep ++ k ++ sp1 ++ op_str o ++ sp2 ++ dquote :: quote_body dquote v ++ [dquote].

Lemma skip_sep_app sep c s :
  Forall (fun c => is_sep c = true) sep -> isspace c = false -> c <> ","%char ->
  skip_sep (sep ++ c :: s) = c :: s.
Proof.
  intros Hs H1 H2. induction Hs as [|x sep Hx _ IH]; cbn [app skip_sep].
  - by rewrite H1, (proj2 (Ascii.eqb_neq _ _) H2).
  - unfold is_sep in Hx. by rewrite Hx.
Qed.

Lemma skip_space_app sp c s :
  Forall (fun c => isspace c = true) sp -> isspace c = false -> skip_space (sp ++ c :: s) = c :: s.
Proof. intros Hs Hc. induction Hs as [|x sp Hx _ IH]; simpl; [by rewrite Hc|by rewrite Hx]. Qed.

Lemma scan_key_app k s :
  Forall (fun c => key_char c = true) k ->
  (head s = Some "="%char -> forall x, last k = Some x -> op_mark x = false) ->
  key_end s = true -> scan_key (k ++ s) = Some (k, s).
Proof.
  intros Hk. revert s. induction Hk as [|c k Hc Hk IH]; intros s Hm Hs.
  - destruct s as [|c s]; [done|]. cbn [app scan_key]. by rewrite Hs.
  - cbn [app scan_key].
    assert (op_mark c && (nth 0 (k ++ s) nul ==c "=") = false) as Hn.
    { destruct k as [|d k].
      - destruct s as [|d s]; [done|]. cbn [app nth]. destruct (eqbP d "="%char) as [->|]; [|by rewrite andb_false_r].
        by rewrite (Hm eq_refl c).
      - cbn [app nth]. apply Forall_inv, negb_true_iff, orb_false_iff in Hk as [_ ->]. by rewrite andb_false_r. }
    unfold key_end. fold (op_mark c). rewrite Hn. apply negb_true_iff in Hc. rewrite Hc. cbn [orb].
    rewrite IH; [done| |done]. intros Hh x Hx. apply (Hm Hh). by destruct k.
Qed.

Lemma op_str_head o :
  o <> OP_UNSET -> o <> OP_MATCH_MAX ->
  exists c s, op_str o = c :: s /\ isspace c = false /\ forall t, key_end ((c :: s) ++ t) = true.
Proof. intros. by destruct o; try done; eexists _, _. Qed.

Lemma get_op_app o c s :
  o <> OP_UNSET -> o <> OP_MATCH_MAX -> c <> "="%char ->
  get_op (op_str o ++ c :: s) = Some (o, c :: s).
Proof.
  intros ? ? Hc. destruct o; try done. change (op_str OP_ASSIGN ++ c :: s) with ("="%char :: c :: s).
  cbn [get_op nth]. by rewrite (proj2 (Ascii.eqb_neq _ _) Hc).
Qed.

Lemma get_key_printed sep k sp1 o sp2 v rest :
  Forall (fun c => is_sep c = true) sep -> key_ok k (sp1 ++ op_str o) ->
  Forall (fun c => isspace c = true) sp1 -> Forall (fun c => isspace c = true) sp2 ->
  o <> OP_UNSET -> o <> OP_MATCH_MAX -> last v <> Some "\"%char ->
  get_key (print_key sep k sp1 o sp2 v ++ rest) = Some (k, o, v, rest).
Proof.
  intros Hsep Hk Hs1 Hs2 Ho1 Ho2 Hv. unfold print_key. rewrite <- !app_assoc.
  destruct k as [|c k]; [done|]. destruct Hk as (Hc1 & Hc2 & Hk & Hm).
  destruct (op_str_head o Ho1 Ho2) as (oc & os & Hop & Hosp & Hend).
  set (tail := sp1 ++ op_str o ++ sp2 ++ (dquote :: quote_body dquote v ++ [dquote]) ++ rest).
  assert (key_end tail = true) as Het.
  { subst tail. destruct sp1 as [|x sp1]; [rewrite Hop; apply Hend|].
    apply Forall_cons in Hs1 as [Hx _]. cbn [app key_end]. by rewrite Hx. }
  unfold get_key. cbn [app]. rewrite skip_sep_app by done.
  destruct (sep ++ c :: k ++ tail) eqn:E; [by destruct sep|]. clear E.
  rewrite scan_key_app; [|done| |done].
  2: { intros Hh. apply Hm. subst tail. destruct sp1; [|done]. by rewrite Hop in Hh |- *. }
  cbn [mbind option_bind]. subst tail.
  assert (forall t, skip_space (sp1 ++ op_str o ++ t) = op_str o ++ t) as ->.
  { intros t. rewrite Hop. by apply skip_space_app. }
  assert (exists x t, sp2 ++ (dquote :: quote_body dquote v ++ [dquote]) ++ rest = x :: t /\ x <> "="%char)
    as (x & t & Ht & Hx).
  { destruct sp2 as [|x sp2]; [eexists _, _; split; [reflexivity|done]|].
    eexists _, _; split; [reflexivity|]. apply Forall_cons in Hs2 as [Hx _]. by intros ->. }
  rewrite Ht. destruct (op_str o ++ x :: t) eqn:E; [by rewrite Hop in E|]. rewrite <- E.
  rewrite get_op_app by done. cbn [mbind option_bind]. rewrite <- Ht. cbn [app].
  rewrite skip_space_app by done. cbn [negb]. rewrite Ascii.eqb_refl. cbn [negb].
  rewrite <- app_assoc. cbn [app]. rewrite unquote_quote by done. cbn [mbind option_bind].
  do 2 f_equal. rewrite Nat.add_1_r.
  rewrite <- (app_nil_r (quote_body dquote v)) at 1.
  replace (quote_body dquote v ++ dquote :: rest) with ((quote_body dquote v ++ [dquote]) ++ rest)
    by by rewrite <- app_assoc.
  apply drop_app_length'. rewrite !length_app. simpl. lia.
Qed.
(** No value that is read ends in a backslash. *)
Lemma get_key_value_last line k o v rest :
  get_key line = Some (k, o, v, rest) -> last v <> Some "\"%char.
Proof.
  unfold get_key. destruct line; [done|]. destruct (skip_sep _) as [|c s]; [done|].
  destruct (scan_key s) as [[k' s1]|]; [|done]. cbn [mbind option_bind].
  destruct (skip_space s1) as [|d s2]; [done|]. destruct (get_op _) as [[o' s3]|]; [|done]. cbn [mbind option_bind].
  destruct (skip_space s3) as [|q s4]; [done|]. destruct (negb _); [done|].
  destruct (unquote dquote s4) as [[v' n]|] eqn:E; [|done]. intros [= _ _ <- _]. by eapply unquote_last.
Qed.

(** C18: the rule syntax round trip: a key-value pair is written with any
    separators in front, any white space around the operator and the quotes of
    the value escaped.  The key may be any text that [key_ok] accepts in front
    of its operator: no space or comma at its beginning, no space and no equals
    sign behind that, and no plus, exclamation or colon directly in front of an
    operator that begins with an equals sign.  [get_key] reads back exactly the
    key, the operator and the value and continues behind the closing quote if
    and only if the value does not end in a backslash; a value that does cannot
    be written, for the closing quote is taken as escaped. *)
Theorem get_key_print sep k sp1 o sp2 v rest :
  Forall (fun c => is_sep c = true) sep -> key_ok k (sp1 ++ op_str o) ->
  Forall (fun c => isspace c = true) sp1 -> Forall (fun c => isspace c = true) sp2 ->
  o <> OP_UNSET -> o <> OP_MATCH_MAX ->
  get_key (print_key sep k sp1 o sp2 v ++ rest) = Some (k, o, v, rest) <-> last v <> Some "\"%char.
Proof. intros. split; [apply get_key_value_last|by apply get_key_printed]. Qed.

Lemma get_key_print_witness :
  get_key (print_key ", " "ATTR{a+b:c}" " " OP_NOMATCH [] "a b" ++ ", X") =
    Some (("ATTR{a+b:c}" : bytes), OP_NOMATCH, ("a b" : bytes), (", X" : bytes)).
Proof.
  apply get_key_print; try done; try (repeat constructor; done).
Defined.
(** A value that ends in a backslash runs on into the next key. *)
Example backslash_runs_on :
  get_key (print_key [] "ENV{A}" [] OP_ASSIGN [] "a\" ++ (", ENV{B}=" : bytes) ++ [dquote] ++ "b" ++ [dquote]) =
    Some (("ENV{A}" : bytes), OP_ASSIGN, (("a" : bytes) ++ [dquote] ++ ", ENV{B}=" : bytes), (("b" : bytes) ++ [dquote] : bytes)).
Proof. vm_compute. done. Qed.

End RuleTokens.
Export RuleTokens.
