(* ===== verification/RuleParse.v ===== *)
(** src/core/udev-rules.c, second part: from the rules files to the token
    array ([add_uid], [add_gid], [add_rule], [parse_file], [rules_load],
    [udev_rules_reload]). *)

From Stdlib Require Import ZArith Lia Ascii.
From stdpp Require Import prelude gmap strings sorting.
From S2P Require Import Prelude Utils Strings Encode Strbuf RuleTokens.
Import Mem ParseValue Lookup.

Module RuleParse.

(** * The builtin commands (src/core/builtin/udev-builtin.c)

    All of them are compiled in (HAVE_BLKID and HAVE_KMOD). *)
Definition builtin_names : list bytes :=
  ["blkid" : bytes; "btrfs" : bytes; "hwdb" : bytes; "input_id" : bytes; "keyboard" : bytes;
   "kmod" : bytes; "net_id" : bytes; "path_id" : bytes; "usb_id" : bytes].
Definition UDEV_BUILTIN_MAX : Z := 9.

Fixpoint builtin_index (names : list bytes) (name : bytes) (i : Z) : Z :=
  match names with
  | [] => UDEV_BUILTIN_MAX
  | n :: names' => if str_eq (Some n) (Some name) then i else builtin_index names' name (i + 1)
  end.
Definition udev_builtin_lookup (command : bytes) : Z :=
  let name := (split_chr (strscpy UTIL_PATH_SIZE command).1 " ").1 in
  builtin_index builtin_names name 0.

Section parse.
Context {P : Type} `{Hpool : StringPool P}.
(** The user and group databases. *)
Context (getpwuid : Z -> bool) (getpwnam : bytes -> option Z).
Context (getgrgid : Z -> bool) (getgrnam : bytes -> option Z).

(** [struct udev_rules] without its time stamp.  The caches map the offset of
    a name to its id, [uids_cur] being the length of [uids].  [over] records
    that some rule wrote behind the end of its temporary token array. *)
Record udev_rules := mk_udev_rules {
  resolve_names : Z;
  u_rules : @rules P;
  uids : list (Z * Z);
  uids_max : nat;
  gids : list (Z * Z);
  gids_max : nat;
  over : bool
}.
Implicit Types (st : udev_rules) (tmp : rule_tmp).

Definition set_rules st r : udev_rules :=
  mk_udev_rules (resolve_names st) r (uids st) (uids_max st) (gids st) (gids_max st) (over st).
Definition set_over st b : udev_rules :=
  mk_udev_rules (resolve_names st) (u_rules st) (uids st) (uids_max st) (gids st) (gids_max st) b.

(** The linear search in a cache. *)
Fixpoint cache_lookup (r : @rules P) (cache : list (Z * Z)) (name : bytes) : option Z :=
  match cache with
  | [] => None
  | (off, id) :: cache' =>
      if str_eq (Some (rules_str r off)) (Some name) then Some id else cache_lookup r cache' name
  end.
Definition cache_grow (cur max : nat) : nat :=
  if (max <=? cur + 1)%nat then (max + (if (max <? 1)%nat then 8 else max))%nat else max.

Definition add_uid st (owner : bytes) : udev_rules * Z :=
  match cache_lookup (u_rules st) (uids st) owner with
  | Some uid => (st, uid)
  | None =>
      let uid := default 0 (lookup_user getpwuid getpwnam (Some owner)) in
      let max := cache_grow (length (uids st)) (uids_max st) in
      let '(r, off) := rules_add_string (u_rules st) owner in
      (mk_udev_rules (resolve_names st) r
         (if off =? 0 then uids st else uids st ++ [(off, uid)]) max
         (gids st) (gids_max st) (over st), uid)
  end.
Definition add_gid st (group : bytes) : udev_rules * Z :=
  match cache_lookup (u_rules st) (gids st) group with
  | Some gid => (st, gid)
  | None =>
      let gid := default 0 (lookup_group getgrgid getgrnam (Some group)) in
      let max := cache_grow (length (gids st)) (gids_max st) in
      let '(r, off) := rules_add_string (u_rules st) group in
      (mk_udev_rules (resolve_names st) r (uids st) (uids_max st)
         (if off =? 0 then gids st else gids st ++ [(off, gid)]) max (over st), gid)
  end.

(** * One key of a rule *)

(** [continue] with the next key, or [goto invalid]. *)
Inductive key_result := Cont st tmp | Invalid st tmp.

Definition add_key st tmp ty o (value : option bytes) d : udev_rules * rule_tmp * Z :=
  let '(r, tmp, res) := rule_add_key (u_rules st) tmp ty o value d in (set_rules st r, tmp, res).
(** [rule_add_key(...); continue;]: the result is not looked at. *)
Definition add_cont st tmp ty o value d : key_result :=
  let '(st, tmp, _) := add_key st tmp ty o value d in Cont st tmp.
(** [if (rule_add_key(...) != 0) goto invalid; continue;] *)
Definition add_check st tmp ty o value d : key_result :=
  let '(st, tmp, res) := add_key st tmp ty o value d in
  if res =? 0 then Cont st tmp else Invalid st tmp.

(** [op > OP_MATCH_MAX] and [op < OP_MATCH_MAX]. *)
Definition op_assigns (o : operation_type) : bool := op_num OP_MATCH_MAX <? op_num o.
Definition op_matches (o : operation_type) : bool := op_num o <? op_num OP_MATCH_MAX.

Definition key_match st tmp ty o (value : bytes) : key_result :=
  if op_assigns o then Invalid st tmp else add_cont st tmp ty o (Some value) NoData.

Definition set_can_set_name tmp : rule_tmp :=
  mk_rule_tmp
    (mk_rule_token true (has_static_node (tmp_rule tmp)) (token_count (tmp_rule tmp))
       (label_off (tmp_rule tmp)) (filename_off (tmp_rule tmp)) (filename_line (tmp_rule tmp)))
    (tmp_token tmp) (tmp_over tmp).
Definition set_has_static_node tmp : rule_tmp :=
  mk_rule_tmp
    (mk_rule_token (can_set_name (tmp_rule tmp)) true (token_count (tmp_rule tmp))
       (label_off (tmp_rule tmp)) (filename_off (tmp_rule tmp)) (filename_line (tmp_rule tmp)))
    (tmp_token tmp) (tmp_over tmp).
Definition set_label_off tmp (off : Z) : rule_tmp :=
  mk_rule_tmp
    (mk_rule_token (can_set_name (tmp_rule tmp)) (has_static_node (tmp_rule tmp))
       (token_count (tmp_rule tmp)) off (filename_off (tmp_rule tmp)) (filename_line (tmp_rule tmp)))
    (tmp_token tmp) (tmp_over tmp).
Definition can_name (k : key_result) : key_result :=
  match k with Cont st tmp => Cont st (set_can_set_name tmp) | Invalid st tmp => Invalid st tmp end.

Definition key_subsystem st tmp o (value : bytes) : key_result :=
  if op_assigns o then Invalid st tmp
  else if str_eq (Some value) (Some ("subsystem" : bytes)) ||
          str_eq (Some value) (Some ("bus" : bytes)) || str_eq (Some value) (Some ("class" : bytes))
  then add_cont st tmp TK_M_SUBSYSTEM o (Some ("subsystem|class|bus" : bytes)) NoData
  else add_cont st tmp TK_M_SUBSYSTEM o (Some value) NoData.

Definition key_attr st tmp (key : bytes) o (value : bytes) : key_result :=
  match get_key_attribute (drop 4 key) with
  | None => Invalid st tmp
  | Some attr =>
      add_cont st tmp (if op_matches o then TK_M_ATTR else TK_A_ATTR) o (Some value) (AttrData attr)
  end.

Definition key_seclabel st tmp (key : bytes) o (value : bytes) : key_result :=
  match get_key_attribute (drop 8 key) with
  | None => Invalid st tmp
  | Some attr => add_cont st tmp TK_A_SECLABEL o (Some value) (AttrData attr)
  end.

Definition key_attrs st tmp (key : bytes) o (value : bytes) : key_result :=
  if op_assigns o then Invalid st tmp
  else match get_key_attribute (drop 5 key) with
       | None => Invalid st tmp
       | Some attr => add_cont st tmp TK_M_ATTRS o (Some value) (AttrData attr)
       end.

Definition env_blacklist : list bytes :=
  ["ACTION" : bytes; "SUBSYSTEM" : bytes; "DEVTYPE" : bytes; "MAJOR" : bytes; "MINOR" : bytes;
   "DRIVER" : bytes; "IFINDEX" : bytes; "DEVNAME" : bytes; "DEVLINKS" : bytes; "DEVPATH" : bytes;
   "TAGS" : bytes].

Definition key_env st tmp (key : bytes) o (value : bytes) : key_result :=
  match get_key_attribute (drop 3 key) with
  | None => Invalid st tmp
  | Some attr =>
      if op_matches o then add_check st tmp TK_M_ENV o (Some value) (AttrData attr)
      else if existsb (fun b => str_eq (Some attr) (Some b)) env_blacklist then Invalid st tmp
      else add_check st tmp TK_A_ENV o (Some value) (AttrData attr)
  end.

Definition key_import st tmp (key : bytes) o (value : bytes) : key_result :=
  match get_key_attribute (drop 6 key) with
  | None => Cont st tmp
  | Some attr =>
      let eqs s := str_eq (Some attr) (Some s) in
      if eqs ("program" : bytes) then
        let cmd := udev_builtin_lookup value in
        if negb (nth 0 value nul ==c "/") && (cmd <? UDEV_BUILTIN_MAX)
        then add_cont st tmp TK_M_IMPORT_BUILTIN o (Some value) (IntData cmd)
        else add_cont st tmp TK_M_IMPORT_PROG o (Some value) NoData
      else if eqs ("builtin" : bytes) then
        let cmd := udev_builtin_lookup value in
        if cmd <? UDEV_BUILTIN_MAX
        then add_cont st tmp TK_M_IMPORT_BUILTIN o (Some value) (IntData cmd)
        else Cont st tmp
      else if eqs ("file" : bytes) then add_cont st tmp TK_M_IMPORT_FILE o (Some value) NoData
      else if eqs ("db" : bytes) then add_cont st tmp TK_M_IMPORT_DB o (Some value) NoData
      else if eqs ("cmdline" : bytes) then add_cont st tmp TK_M_IMPORT_CMDLINE o (Some value) NoData
      else if eqs ("parent" : bytes) then add_cont st tmp TK_M_IMPORT_PARENT o (Some value) NoData
      else Cont st tmp
  end.

Definition key_test st tmp (key : bytes) o (value : bytes) : key_result :=
  if op_assigns o then Invalid st tmp
  else match get_key_attribute (drop 4 key) with
       | Some attr => add_cont st tmp TK_M_TEST o (Some value) (IntData (u32 (strtol 8 attr).1))
       | None => add_cont st tmp TK_M_TEST o (Some value) NoData
       end.

Definition key_run st tmp (key : bytes) o (value : bytes) : key_result :=
  let attr := default ("program" : bytes) (get_key_attribute (drop 3 key)) in
  if str_eq (Some attr) (Some ("builtin" : bytes)) then
    let cmd := udev_builtin_lookup value in
    if cmd <? UDEV_BUILTIN_MAX then add_cont st tmp TK_A_RUN_BUILTIN o (Some value) (IntData cmd)
    else Cont st tmp
  else if str_eq (Some attr) (Some ("program" : bytes)) then
    add_cont st tmp TK_A_RUN_PROGRAM o (Some value) (IntData UDEV_BUILTIN_MAX)
  else Cont st tmp.

Definition key_label st tmp (value : bytes) : key_result :=
  let '(r, off) := rules_add_string (u_rules st) value in
  Cont (set_rules st r) (set_label_off tmp off).

Definition key_name st tmp o (value : bytes) : key_result :=
  if op_matches o then can_name (add_cont st tmp TK_M_NAME o (Some value) NoData)
  else if str_eq (Some value) (Some ("%k" : bytes)) then Cont st tmp
  else if nth 0 value nul ==c nul then Cont st tmp
  else can_name (add_cont st tmp TK_A_NAME o (Some value) NoData).

Definition is_name (st : udev_rules) (value : bytes) : bool :=
  (0 <? resolve_names st) && negb (if strchr "$%" (nth 0 value nul) is Some _ then true else false).

Definition key_owner st tmp o (value : bytes) : key_result :=
  let '(uid, endptr) := strtoul 10 value in
  can_name
    (match endptr with
     | [] => add_cont st tmp TK_A_OWNER_ID o None (IntData (u32 uid))
     | _ =>
         if is_name st value then
           let '(st, uid) := add_uid st value in
           add_cont st tmp TK_A_OWNER_ID o None (IntData uid)
         else if 0 <=? resolve_names st then add_cont st tmp TK_A_OWNER o (Some value) NoData
         else Cont st tmp
     end).

Definition key_group st tmp o (value : bytes) : key_result :=
  let '(gid, endptr) := strtoul 10 value in
  can_name
    (match endptr with
     | [] => add_cont st tmp TK_A_GROUP_ID o None (IntData (u32 gid))
     | _ =>
         if is_name st value then
           let '(st, gid) := add_gid st value in
           add_cont st tmp TK_A_GROUP_ID o None (IntData gid)
         else if 0 <=? resolve_names st then add_cont st tmp TK_A_GROUP o (Some value) NoData
         else Cont st tmp
     end).

Definition ACCESSPERMS : Z := 511.
Definition key_mode st tmp o (value : bytes) : key_result :=
  let '(mode, endptr) := strtol 8 value in
  can_name
    (match endptr with
     | [] => add_cont st tmp TK_A_MODE_ID o None (IntData (Z.land ACCESSPERMS mode))
     | _ => add_cont st tmp TK_A_MODE o (Some value) NoData
     end).

(** What follows the first occurrence of [p]. *)
Definition after (value p : bytes) : option bytes := drop (length p) <$> strstr value p.

Definition key_options st tmp o (value : bytes) : key_result :=
  let '(st, tmp) :=
    match after value "link_priority=" with
    | Some pos =>
        let '(st, tmp, _) := add_key st tmp TK_A_DEVLINK_PRIO o None (IntData (atoi pos)) in (st, tmp)
    | None => (st, tmp)
    end in
  let '(st, tmp) :=
    match after value "string_escape=" with
    | Some pos =>
        if startswith pos "none" is Some _ then
          let '(st, tmp, _) := add_key st tmp TK_A_STRING_ESCAPE_NONE o None NoData in (st, tmp)
        else if startswith pos "replace" is Some _ then
          let '(st, tmp, _) := add_key st tmp TK_A_STRING_ESCAPE_REPLACE o None NoData in (st, tmp)
        else (st, tmp)
    | None => (st, tmp)
    end in
  let '(st, tmp) :=
    match strstr value "db_persist" with
    | Some _ => let '(st, tmp, _) := add_key st tmp TK_A_DB_PERSIST o None NoData in (st, tmp)
    | None => (st, tmp)
    end in
  let '(st, tmp) :=
    match strstr value "nowatch" with
    | Some _ => let '(st, tmp, _) := add_key st tmp TK_A_INOTIFY_WATCH o None (IntData 0) in (st, tmp)
    | None =>
        match strstr value "watch" with
        | Some _ =>
            let '(st, tmp, _) := add_key st tmp TK_A_INOTIFY_WATCH o None (IntData 1) in (st, tmp)
        | None => (st, tmp)
        end
    end in
  match after value "static_node=" with
  | Some pos =>
      let '(st, tmp, _) := add_key st tmp TK_A_STATIC_NODE o (Some pos) NoData in
      Cont st (set_has_static_node tmp)
  | None => Cont st tmp
  end.

(** The body of the loop of [add_rule], for a key that was read. *)
Definition add_rule_key st tmp (key : bytes) (o : operation_type) (value : bytes) : key_result :=
  let eqs s := str_eq (Some key) (Some s) in
  let starts p := if startswith key p is Some _ then true else false in
  if eqs ("ACTION" : bytes) then key_match st tmp TK_M_ACTION o value
  else if eqs ("DEVPATH" : bytes) then key_match st tmp TK_M_DEVPATH o value
  else if eqs ("KERNEL" : bytes) then key_match st tmp TK_M_KERNEL o value
  else if eqs ("SUBSYSTEM" : bytes) then key_subsystem st tmp o value
  else if eqs ("DRIVER" : bytes) then key_match st tmp TK_M_DRIVER o value
  else if starts ("ATTR{" : bytes) then key_attr st tmp key o value
  else if starts ("SECLABEL{" : bytes) then key_seclabel st tmp key o value
  else if eqs ("KERNELS" : bytes) then key_match st tmp TK_M_KERNELS o value
  else if eqs ("SUBSYSTEMS" : bytes) then key_match st tmp TK_M_SUBSYSTEMS o value
  else if eqs ("DRIVERS" : bytes) then key_match st tmp TK_M_DRIVERS o value
  else if starts ("ATTRS{" : bytes) then key_attrs st tmp key o value
  else if eqs ("TAGS" : bytes) then key_match st tmp TK_M_TAGS o value
  else if starts ("ENV{" : bytes) then key_env st tmp key o value
  else if eqs ("TAG" : bytes) then
    add_cont st tmp (if op_matches o then TK_M_TAG else TK_A_TAG) o (Some value) NoData
  else if eqs ("PROGRAM" : bytes) then add_cont st tmp TK_M_PROGRAM o (Some value) NoData
  else if eqs ("RESULT" : bytes) then key_match st tmp TK_M_RESULT o value
  else if starts ("IMPORT" : bytes) then key_import st tmp key o value
  else if starts ("TEST" : bytes) then key_test st tmp key o value
  else if starts ("RUN" : bytes) then key_run st tmp key o value
  else if eqs ("WAIT_FOR" : bytes) || eqs ("WAIT_FOR_SYSFS" : bytes) then
    add_cont st tmp TK_M_WAITFOR OP_UNSET (Some value) NoData
  else if eqs ("LABEL" : bytes) then key_label st tmp value
  else if eqs ("GOTO" : bytes) then add_cont st tmp TK_A_GOTO OP_UNSET (Some value) NoData
  else if starts ("NAME" : bytes) then key_name st tmp o value
  else if eqs ("SYMLINK" : bytes) then
    can_name (add_cont st tmp (if op_matches o then TK_M_DEVLINK else TK_A_DEVLINK) o (Some value) NoData)
  else if eqs ("OWNER" : bytes) then key_owner st tmp o value
  else if eqs ("GROUP" : bytes) then key_group st tmp o value
  else if eqs ("MODE" : bytes) then key_mode st tmp o value
  else if eqs ("OPTIONS" : bytes) then key_options st tmp o value
  else Invalid st tmp.

(** Every key read shortens the line, so its length bounds the steps. *)
Fixpoint add_rule_loop (fuel : nat) st tmp (line : bytes) : key_result :=
  match fuel with
  | O => Cont st tmp
  | S fuel' =>
      match get_key line with
      | None => Cont st tmp
      | Some (key, o, value, rest) =>
          match add_rule_key st tmp key o value with
          | Cont st tmp => add_rule_loop fuel' st tmp rest
          | Invalid st tmp => Invalid st tmp
          end
      end
  end.

Definition USHRT_MAX : Z := 65535.

(** The rules and the result. *)
Definition add_rule st (line : bytes) (file_off lineno : Z) : udev_rules * Z :=
  let rule := mk_rule_token false false 0 0
    (if file_off <? USHRT_MAX then file_off else 0) (u16 lineno) in
  match add_rule_loop (S (length line)) st (mk_rule_tmp rule [] false) line with
  | Invalid st tmp => (set_over st (over st || tmp_over tmp), -1)
  | Cont st tmp =>
      let rt := tmp_rule tmp in
      let rt := mk_rule_token (can_set_name rt) (has_static_node rt)
        (u16 (1 + Z.of_nat (length (tmp_token tmp)))) (label_off rt) (filename_off rt)
        (filename_line rt) in
      let r := add_token (u_rules st) (RuleToken rt) in
      let r := sort_token r tmp in
      (set_over (set_rules st r) (over st || tmp_over tmp), 0)
  end.

(** * Files *)

(** Continuation lines: the line, [len], the rest of the file and the line
    number. *)
Fixpoint continue_loop (fuel : nat) (line : bytes) (len : nat) (f : bytes) (nr : Z)
    : bytes * nat * bytes * Z :=
  match fuel with
  | O => (line, len, f, nr)
  | S fuel' =>
      if nth (len - 2) line nul ==c "\" then
        match fgets (UTIL_LINE_SIZE - len + 2) f with
        | None => (line, len, f, nr)
        | Some (chunk, f') =>
            let line' := take (len - 2) line ++ until_nul chunk in
            if (length (until_nul chunk) <? 2)%nat then (line', len, f', nr)
            else continue_loop fuel' line' (length line') f' (nr + 1)
        end
      else (line, len, f, nr)
  end.

Fixpoint parse_lines (fuel : nat) st (f : bytes) (file_off nr : Z) : udev_rules :=
  match fuel with
  | O => st
  | S fuel' =>
      match fgets UTIL_LINE_SIZE f with
      | None => st
      | Some (chunk, f) =>
          let line := until_nul chunk in
          let nr := nr + 1 in
          let skipped := (length line - length (skip_space line))%nat in
          if nth skipped line nul ==c "#" then parse_lines fuel' st f file_off nr
          else if (length line <? 3)%nat then parse_lines fuel' st f file_off nr
          else
            let '(line, len, f, nr) := continue_loop (S (length f)) line (length line) f nr in
            if (UTIL_LINE_SIZE <=? len + 1)%nat then parse_lines fuel' st f file_off nr
            else
              let '(st, _) := add_rule st (drop skipped line) file_off nr in
              parse_lines fuel' st f file_off nr
      end
  end.

(** The first rule from [j] on whose label is [label]. *)
Fixpoint find_label (r : @rules P) (label : bytes) (n j : nat) : option nat :=
  match n with
  | O => None
  | S n' =>
      match tokens r !! j with
      | Some (RuleToken rt) =>
          if negb (label_off rt =? 0) && str_eq (Some label) (Some (rules_str r (label_off rt)))
          then Some j else find_label r label n' (S j)
      | _ => find_label r label n' (S j)
      end
  end.
Fixpoint link_loop (r : @rules P) (n i : nat) : @rules P :=
  match n with
  | O => r
  | S n' =>
      let r :=
        match tokens r !! i with
        | Some (KeyToken k) =>
            if bool_decide (type k = TK_A_GOTO) then
              match find_label r (rules_str r (value_off k)) (length (tokens r) - S i) (S i) with
              | Some j =>
                  mk_rules (<[i := KeyToken (set_data (u32 (Z.of_nat j)) k)]> (tokens r))
                    (token_max r) (strbuf r)
              | None => r
              end
            else r
        | _ => r
        end in
      link_loop r n' (S i)
  end.

(** A file that cannot be opened is [None]. *)
Definition parse_file st (filename : bytes) (contents : option bytes) : udev_rules * Z :=
  match contents with
  | None => (st, -1)
  | Some [] => (st, 0)
  | Some f =>
      let first_token := length (tokens (u_rules st)) in
      let '(r, file_off) := rules_add_string (u_rules st) filename in
      let st := parse_lines (S (length f)) (set_rules st r) f file_off 0 in
      let r := u_rules st in
      (set_rules st (link_loop r (length (tokens r) - (first_token + 1)) (first_token + 1)), 0)
  end.

Definition rules_load st (files : list (bytes * option bytes)) : udev_rules :=
  let r := fold_left (fun r f => (rules_add_string r f.1).1) files (rules_new PREALLOC_TOKEN) in
  let st := fold_left (fun st f => (parse_file st f.1 f.2).1) files (set_rules st r) in
  let r := add_token (u_rules st) end_token in
  let r := mk_rules (tokens r) (token_max r) (pool_complete (strbuf r)) in
  mk_udev_rules (resolve_names st) r [] 0 [] 0 (over st).

(** The listing of the rules directories fails with [None]: the rules stay. *)
Definition udev_rules_reload st (files : option (list (bytes * option bytes))) : udev_rules * Z :=
  match files with
  | None => (st, -1)
  | Some files => (rules_load st files, 0)
  end.

Definition udev_rules_new (resolve : Z) (files : option (list (bytes * option bytes)))
    : option udev_rules :=
  let st := mk_udev_rules resolve (rules_new PREALLOC_TOKEN) [] 0 [] 0 false in
  let '(st, res) := udev_rules_reload st files in
  if res <? 0 then None else Some st.

(** * What the strings of a rule are made of *)

Lemma cstr_app a b : cstr (a ++ b) <-> cstr a /\ cstr b.
Proof. apply Forall_app. Qed.
Lemma cstr_drop n s : cstr s -> cstr (drop n s).
Proof. apply Forall_drop. Qed.
Lemma cstr_skip_space s : cstr s -> cstr (skip_space s).
Proof. induction 1 as [|c s Hc Hs IH]; simpl; [constructor|]. destruct (isspace c); [done|by constructor]. Qed.
Lemma cstr_skip_sep s : cstr s -> cstr (skip_sep s).
Proof. induction 1 as [|c s Hc Hs IH]; simpl; [constructor|]. destruct (_ || _); [done|by constructor]. Qed.
Lemma cstr_strstr s p r : cstr s -> strstr s p = Some r -> cstr r.
Proof.
  induction 1 as [|c s Hc Hs IH]; cbn [strstr]; (destruct (startswith _ p) eqn:E; [intros [= <-]|]).
  - constructor.
  - done.
  - by constructor.
  - done.
Qed.
Lemma cstr_after s p r : cstr s -> after s p = Some r -> cstr r.
Proof.
  unfold after. intros Hs. destruct (strstr s p) as [t|] eqn:E; [|done]. intros [= <-].
  apply cstr_drop. by eapply cstr_strstr.
Qed.
Lemma cstr_until_nul s : cstr (until_nul s).
Proof.
  induction s as [|c s IH]; simpl; [constructor|]. destruct (eqbP c nul); [constructor|by constructor].
Qed.
Lemma cstr_take n s : cstr s -> cstr (take n s).
Proof. apply Forall_take. Qed.

Lemma cstr_get_key_attribute s a : cstr s -> get_key_attribute s = Some a -> cstr a.
Proof.
  intros Hs. unfold get_key_attribute. destruct (strchr s "{") as [[|c r]|] eqn:E; [done| |done].
  apply strchr_Some in E as (b & r' & -> & [= -> ->] & _); [|done].
  destruct (split_chr r' "}") as [x [y|]] eqn:Ex; [|done]. intros [= <-].
  apply split_chr_inv in Ex as [-> _]. apply cstr_app in Hs as [_ Hs].
  apply Forall_cons in Hs as [_ Hs]. by apply cstr_app in Hs as [? _].
Qed.

Lemma cstr_unquote q s v n : cstr s -> unquote q s = Some (v, n) -> cstr v /\ (n < length s)%nat.
Proof.
  revert v n. induction s as [s IH] using (induction_ltof1 _ (@length byte)).
  unfold ltof in IH. intros v n Hs. destruct s as [|c [|d s]]; [done| |rewrite unquote_cons].
  { simpl. destruct (c ==c q); [|done]. intros [= <- <-]. simpl. split; [constructor|lia]. }
  apply Forall_cons in Hs as [Hc Hds]. pose proof Hds as Hds'. apply Forall_cons in Hds as [Hd Hs].
  destruct (c ==c q); [intros [= <- <-]; simpl; split; [constructor|lia]|].
  destruct ((c ==c "\") && (d ==c q)).
  - destruct (unquote q s) as [[v' n']|] eqn:Eu; [|done]. intros [= <- <-].
    apply IH in Eu as [? ?]; [|simpl; lia|done]. split; [by constructor|simpl; lia].
  - destruct (unquote q (d :: s)) as [[v' n']|] eqn:Eu; [|done]. intros [= <- <-].
    apply IH in Eu as [? ?]; [|simpl; lia|done]. split; [by constructor|simpl in *; lia].
Qed.

Lemma scan_key_inv s k r : scan_key s = Some (k, r) -> s = k ++ r.
Proof.
  revert k r. induction s as [|c s IH]; cbn [scan_key]; [done|]. intros k r.
  destruct (key_end (c :: s)); [by intros [= <- <-]|].
  destruct (scan_key s) as [[k' r']|]; [|done]. intros [= <- <-]. by rewrite (IH k' r').
Qed.

Lemma get_op_inv s o r : get_op s = Some (o, r) -> exists n, r = drop n s /\ o <> OP_MATCH_MAX.
Proof.
  unfold get_op. destruct s as [|c s]; [done|].
  repeat (destruct (_ && _); [intros [= <- <-]; by exists 2%nat|]).
  destruct (c ==c "="); [intros [= <- <-]; by exists 1%nat|].
  destruct (_ && _); [intros [= <- <-]; by exists 2%nat|done].
Qed.

Lemma skip_sep_suffix s : exists p, s = p ++ skip_sep s.
Proof.
  induction s as [|c s [p IH]]; simpl; [by exists []|].
  destruct (_ || _); [exists (c :: p); simpl; by f_equal|by exists []].
Qed.
Lemma skip_space_suffix s : exists p, s = p ++ skip_space s.
Proof.
  induction s as [|c s [p IH]]; simpl; [by exists []|].
  destruct (isspace c); [exists (c :: p); simpl; by f_equal|by exists []].
Qed.

(** The key, the value and the rest of the line are strings of the line, and
    the rest is shorter. *)
Lemma get_key_inv line k o v rest :
  cstr line -> get_key line = Some (k, o, v, rest) ->
  cstr k /\ cstr v /\ cstr rest /\ (length rest < length line)%nat.
Proof.
  intros Hl. unfold get_key. destruct line as [|c0 l0]; [done|].
  set (line := c0 :: l0) in *. destruct (skip_sep_suffix line) as [p Hp].
  assert (cstr (skip_sep line)) as Hs by (by apply cstr_skip_sep).
  destruct (skip_sep line) as [|c s]; [done|].
  destruct (scan_key s) as [[k' s1]|] eqn:Ek; [|done]. cbn [mbind option_bind].
  apply scan_key_inv in Ek as ->. apply Forall_cons in Hs as [Hc Hs]. apply cstr_app in Hs as [Hk Hs1].
  destruct (skip_space_suffix s1) as [p1 Hp1]. pose proof (cstr_skip_space s1 Hs1) as Hs1'.
  destruct (skip_space s1) as [|x s2]; [done|].
  destruct (get_op (x :: s2)) as [[o' s3]|] eqn:Eo; [|done]. cbn [mbind option_bind].
  apply get_op_inv in Eo as (n & -> & _).
  pose proof (cstr_drop n _ Hs1') as Hs3. destruct (skip_space_suffix (drop n (x :: s2))) as [p3 Hp3].
  pose proof (cstr_skip_space _ Hs3) as Hs3'. destruct (skip_space (drop n (x :: s2))) as [|q s4]; [done|].
  destruct (q ==c dquote); [|done]. simpl negb. cbv iota. apply Forall_cons in Hs3' as [_ Hs4].
  destruct (unquote dquote s4) as [[v' m]|] eqn:Eu; [|done]. intros [= <- <- <- <-].
  apply cstr_unquote in Eu as [Hv Hm]; [|done]. split_and!; [by constructor|done|by apply cstr_drop|].
  apply (f_equal length) in Hp, Hp1, Hp3. rewrite ?length_app, ?length_drop in *. simpl in *.
  rewrite ?length_app, ?length_drop in *. simpl in *. lia.
Qed.

End parse.

End RuleParse.
Export RuleParse.
