(* ===== verification/RulesWf.v ===== *)
(** The well-formedness of the token array: what [rules_load] guarantees to
    the code that walks the array ([udev_rules_apply_to_event]). *)

From Stdlib Require Import ZArith Lia Ascii.
From stdpp Require Import prelude gmap strings sorting.
From S2P Require Import Prelude Utils Strings Encode Strbuf RuleTokens RuleParse.
Import Mem ParseValue Lookup.

Module RulesWf.

Definition has_value (ty : token_type) : bool :=
  match key_class_of ty with KValue | KValueInt | KValueAttr => true | _ => false end.
Definition has_attr (ty : token_type) : bool :=
  match key_class_of ty with KValueAttr => true | _ => false end.
Definition has_builtin (ty : token_type) : bool :=
  match ty with TK_M_IMPORT_BUILTIN | TK_A_RUN_BUILTIN => true | _ => false end.

Section wf.
Context {P : Type} `{Hpool : StringPool P}.
Implicit Types (p : P) (k : key_token) (rt : rule_token) (r : @rules P) (tmp : rule_tmp).

(** * The string buffer only grows *)

Definition extends p p' : Prop :=
  pool_ok p' /\ pool_size p <= pool_size p' /\ forall off w, pool_has p off w -> pool_has p' off w.

Lemma extends_refl p : pool_ok p -> extends p p.
Proof. by repeat split. Qed.
Lemma extends_trans p1 p2 p3 : extends p1 p2 -> extends p2 p3 -> extends p1 p3.
Proof. intros (H1 & H2 & H3) (H4 & H5 & H6). unfold extends. split_and!; [done|lia|auto]. Qed.
(** All strings stay where they are. *)
Definition keeps p p' : Prop := forall off w, pool_has p off w -> pool_has p' off w.
Lemma extends_keeps p p' : extends p p' -> keeps p p'.
Proof. by intros (_ & _ & ?). Qed.
Lemma extends_ok p p' : extends p p' -> pool_ok p'.
Proof. by intros (? & _). Qed.

Lemma rules_add_string_ok r s :
  pool_ok (strbuf r) -> cstr s ->
  let '(r', off) := rules_add_string r s in
  tokens r' = tokens r /\ token_max r' = token_max r /\ extends (strbuf r) (strbuf r') /\
  (pool_size (strbuf r') < 2 ^ 32 ->
   pool_has (strbuf r') off s /\ 0 <= off < 2 ^ 32 /\ (off = 0 -> s = [])).
Proof.
  intros Hok Hs. unfold rules_add_string.
  pose proof (pool_add_ok _ s Hok Hs). pose proof (pool_add_has _ s Hok Hs).
  pose proof (pool_add_nonneg _ s Hok Hs). pose proof (pool_add_size _ s Hok Hs).
  pose proof (pool_size_mono _ s Hok Hs). pose proof (pool_add_zero _ s Hok Hs).
  assert (forall off w, pool_has (strbuf r) off w -> pool_has (pool_add (strbuf r) s).1 off w)
    by eauto with udev.
  destruct (pool_add (strbuf r) s) as [p' off]. simpl in *. unfold extends. split_and!; [done..|].
  intros Hsz. rewrite wrap_small by lia. split_and!; [done|lia|lia|done].
Qed.

(** * Tokens *)

(** A key token describes its strings, and names a builtin that exists. *)
Definition key_wf p k : Prop :=
  key_class_of (type k) <> KWrong /\
  (has_value (type k) = true -> exists v, cstr v /\ pool_has p (value_off k) v /\
     (tt (type k) < tt TK_M_MAX -> glob k = glob_of v) /\
     (tt TK_M_MAX < tt (type k) -> subst k = subst_of v)) /\
  (has_attr (type k) = true -> exists a, cstr a /\ pool_has p (data k) a /\ attrsubst k = subst_of a) /\
  (has_builtin (type k) = true -> 0 <= data k < UDEV_BUILTIN_MAX).

Definition label_wf p rt : Prop :=
  label_off rt <> 0 -> exists l, cstr l /\ pool_has p (label_off rt) l.

Lemma key_wf_keeps p p' k : keeps p p' -> key_wf p k -> key_wf p' k.
Proof.
  intros He (H1 & H2 & H3 & H4). unfold key_wf. split_and!; [done| |intros H; destruct (H3 H) as (a & ? & ? & ?); eauto|done].
  intros H. destruct (H2 H) as (v & ? & ? & ? & ?). eauto 10.
Qed.
Lemma label_wf_keeps p p' rt : keeps p p' -> label_wf p rt -> label_wf p' rt.
Proof. intros He H Hl. destruct (H Hl) as (l & ? & ?). eauto. Qed.

(** The rule that is being read. *)
Definition goto_fresh k : Prop := type k = TK_A_GOTO -> data k = 0.
Definition tmp_wf p tmp : Prop :=
  (tmp_over tmp = false -> (length (tmp_token tmp) <= MAX_TK)%nat) /\
  (pool_size p < 2 ^ 32 ->
   Forall (fun k => key_wf p k /\ goto_fresh k) (tmp_token tmp) /\ label_wf p (tmp_rule tmp)) /\
  Forall unmarked (tmp_token tmp).

Lemma tmp_wf_extends p p' tmp : extends p p' -> tmp_wf p tmp -> tmp_wf p' tmp.
Proof.
  intros He (H1 & H2 & H3). unfold tmp_wf. split_and!; [done| |done]. intros Hsz.
  pose proof He as (Hok & Hle & Hm). destruct H2 as [H2 Hl]; [lia|]. split.
  - eapply Forall_impl; [exact H2|]. intros k [? ?]. split; [|done]. eapply key_wf_keeps; [exact Hm|done].
  - eapply label_wf_keeps; [exact Hm|done].
Qed.

(** * One key *)

(** The arguments of [rule_add_key] fit the type. *)
Definition data_fits (ty : token_type) (value : option bytes) (d : key_data) : Prop :=
  key_class_of ty <> KWrong /\
  (has_value ty = true -> exists v, value = Some v /\ cstr v) /\
  (has_attr ty = true -> exists a, d = AttrData a /\ cstr a) /\
  (has_builtin ty = true -> exists n, d = IntData n /\ 0 <= n < UDEV_BUILTIN_MAX).

(** What a key does besides to the state: the caches of the users and groups
    may get new names behind the ones they have. *)
Definition config (st : @udev_rules P) : bool * Z * list (Z * Z) * list (Z * Z) := (over st, resolve_names st, uids st, gids st).
Definition grows (c c' : bool * Z * list (Z * Z) * list (Z * Z)) : Prop :=
  c'.1.1 = c.1.1 /\ c.1.2 `prefix_of` c'.1.2 /\ c.2 `prefix_of` c'.2.
#[local] Instance grows_refl : Reflexive grows.
Proof. done. Qed.
#[local] Instance grows_trans : Transitive grows.
Proof. intros c1 c2 c3 (H1 & H2 & H3) (H4 & H5 & H6). split_and!; [congruence|by etrans|by etrans]. Qed.
(** What a step that reads one key may change: the temporary rule and the
    string buffer, which only grows. *)
Definition step (st : @udev_rules P) tmp (st' : @udev_rules P) tmp' : Prop :=
  tokens (u_rules st') = tokens (u_rules st) /\
  token_max (u_rules st') = token_max (u_rules st) /\
  grows (config st) (config st') /\
  extends (strbuf (u_rules st)) (strbuf (u_rules st')) /\
  (tmp_wf (strbuf (u_rules st)) tmp -> tmp_wf (strbuf (u_rules st')) tmp').

Lemma step_refl st tmp : pool_ok (strbuf (u_rules st)) -> step st tmp st tmp.
Proof. intros. unfold step. split_and!; [done..|by apply extends_refl|done]. Qed.

Lemma step_trans st1 tmp1 st2 tmp2 st3 tmp3 :
  step st1 tmp1 st2 tmp2 -> step st2 tmp2 st3 tmp3 -> step st1 tmp1 st3 tmp3.
Proof.
  intros (A1 & A2 & A3 & A4 & A5) (B1 & B2 & B3 & B4 & B5). unfold step.
  split_and!; [congruence|congruence|by etrans|by eapply extends_trans|auto].
Qed.

Lemma step_ok st tmp st' tmp' : step st tmp st' tmp' -> pool_ok (strbuf (u_rules st')).
Proof. intros (_ & _ & _ & H & _). by eapply extends_ok. Qed.

(** Adding a key whose strings are known to be stored. *)
Lemma tmp_wf_snoc p tmp k :
  tmp_wf p tmp -> unmarked k ->
  (pool_size p < 2 ^ 32 -> key_wf p k /\ goto_fresh k) ->
  tmp_wf p (mk_rule_tmp (tmp_rule tmp) (tmp_token tmp ++ [k])
    (tmp_over tmp || (MAX_TK <=? length (tmp_token tmp))%nat)).
Proof.
  intros (H1 & H2 & H3) Hu Hk. unfold tmp_wf. cbn [tmp_over tmp_token tmp_rule]. split_and!.
  - intros [Ho Hl]%orb_false_iff. apply Nat.leb_gt in Hl. rewrite length_app. simpl. lia.
  - intros Hsz. destruct (H2 Hsz) as [? ?]. split; [|done]. apply Forall_app. auto.
  - apply Forall_app. auto.
Qed.

Lemma class_unmarked ty : key_class_of ty <> KWrong -> ty <> TK_UNSET.
Proof. by intros ? ->. Qed.

Lemma rule_add_key_ok r tmp ty o value d :
  pool_ok (strbuf r) -> data_fits ty value d ->
  let '(r', tmp', _) := rule_add_key r tmp ty o value d in
  tokens r' = tokens r /\ token_max r' = token_max r /\ extends (strbuf r) (strbuf r') /\
  (tmp_wf (strbuf r) tmp -> tmp_wf (strbuf r') tmp').
Proof.
  intros Hok (Hc & Hv & Ha & Hb). unfold rule_add_key.
  assert (forall r' voff dat attr,
    tokens r' = tokens r -> token_max r' = token_max r -> extends (strbuf r) (strbuf r') ->
    let k := mk_key_token ty o
      (match value with Some v => if tt ty <? tt TK_M_MAX then glob_of v else GL_UNSET | None => GL_UNSET end)
      (match value with Some v => if tt TK_M_MAX <? tt ty then subst_of v else SB_UNSET | None => SB_UNSET end)
      (match attr with Some a => subst_of a | None => SB_UNSET end) voff dat in
    (pool_size (strbuf r') < 2 ^ 32 ->
      (has_value ty = true -> pool_has (strbuf r') voff (default [] value)) /\
      (has_attr ty = true -> exists a, attr = Some a /\ cstr a /\ pool_has (strbuf r') dat a) /\
      (has_builtin ty = true -> 0 <= dat < UDEV_BUILTIN_MAX) /\ (ty = TK_A_GOTO -> dat = 0)) ->
    tokens r' = tokens r /\ token_max r' = token_max r /\ extends (strbuf r) (strbuf r') /\
    (tmp_wf (strbuf r) tmp -> tmp_wf (strbuf r') (mk_rule_tmp (tmp_rule tmp) (tmp_token tmp ++ [k])
      (tmp_over tmp || (MAX_TK <=? length (tmp_token tmp))%nat)))) as Hgen.
  { intros r' voff dat attr Ht Hm He k Hk. split_and!; [done..|]. intros Hwf.
    apply (tmp_wf_extends _ _ _ He) in Hwf. apply tmp_wf_snoc; [done| |].
    { unfold unmarked, marked. by apply class_unmarked. }
    intros Hsz. destruct (Hk Hsz) as (K1 & K2 & K3 & K4). split; [|done].
    unfold key_wf. subst k. cbn [type value_off data glob subst attrsubst]. split_and!; [done| | |done].
    - intros H. destruct (Hv H) as (v & -> & Hcv). exists v. split_and!; [done|by apply K1| |].
      + intros Hlt. by rewrite (proj2 (Z.ltb_lt _ _) Hlt).
      + intros Hlt. by rewrite (proj2 (Z.ltb_lt _ _) Hlt).
    - intros H. destruct (K2 H) as (a & -> & ? & ?). by exists a. }
  assert (forall off, has_builtin ty = true -> (forall n, d = IntData n -> off = u32 n) ->
    0 <= off < UDEV_BUILTIN_MAX) as Hbi.
  { intros off H Hoff. destruct (Hb H) as (n & Hd & Hn). rewrite (Hoff n Hd).
    unfold UDEV_BUILTIN_MAX in *. rewrite wrap_small; lia. }
  assert (has_builtin ty = true -> key_class_of ty = KValueInt) as Hbc by by destruct ty.
  assert (ty = TK_A_GOTO -> key_class_of ty = KValue) as Hgc by by intros ->.
  unfold has_value, has_attr in Hv, Ha, Hgen.
  destruct (key_class_of ty) eqn:Ec; cbv beta iota zeta; try done.
  - destruct (Hv eq_refl) as (v & -> & Hcv). simpl default in *.
    pose proof (rules_add_string_ok r v Hok Hcv) as Hadd.
    destruct (rules_add_string r v) as [r' off]. destruct Hadd as (Ht & Hm & He & Hs).
    apply (Hgen r' off 0 None); [done..|]. intros Hsz. destruct (Hs Hsz) as (? & _).
    split_and!; [done|done|by intros ?%Hbc|done].
  - destruct (Hv eq_refl) as (v & -> & Hcv). simpl default in *.
    pose proof (rules_add_string_ok r v Hok Hcv) as Hadd.
    destruct (rules_add_string r v) as [r' off]. destruct Hadd as (Ht & Hm & He & Hs).
    destruct d as [|a|n];
      [apply (Hgen r' off 0 None)|apply (Hgen r' off 0 None)|apply (Hgen r' off (u32 n) None)];
      try done; intros Hsz; destruct (Hs Hsz) as (? & _);
      (split_and!; [done|done| |by intros ?%Hgc]); intros H'; destruct (Hb H') as (n' & ? & ?);
      simplify_eq. rewrite wrap_small; unfold UDEV_BUILTIN_MAX in *; lia.
  - destruct (Hv eq_refl) as (v & -> & Hcv). destruct (Ha eq_refl) as (a & -> & Hca).
    simpl default in *. pose proof (rules_add_string_ok r v Hok Hcv) as Hadd.
    destruct (rules_add_string r v) as [r1 off]. destruct Hadd as (Ht & Hm & He & Hs).
    pose proof (rules_add_string_ok r1 a (extends_ok _ _ He) Hca) as Hadd.
    destruct (rules_add_string r1 a) as [r2 aoff]. destruct Hadd as (Ht2 & Hm2 & He2 & Hs2).
    apply (Hgen r2 off aoff (Some a)); [congruence..|by eapply extends_trans|]. intros Hsz.
    destruct (Hs2 Hsz) as (? & _). pose proof He2 as (_ & Hle & Hmono).
    destruct Hs as (? & _); [lia|]. split_and!; [auto|by exists a|by intros ?%Hbc|by intros ?%Hgc].
  - apply (Hgen r 0 0 None); [done|done|by apply extends_refl|].
    intros _. split_and!; [done|done|by intros ?%Hbc|by intros ?%Hgc].
  - destruct d as [|a|n];
      [apply (Hgen r 0 0 None)|apply (Hgen r 0 0 None)|apply (Hgen r 0 (u32 n) None)];
      try done; try (by apply extends_refl); intros _; (split_and!; [done|done|by intros ?%Hbc|by intros ?%Hgc]).
Qed.

Lemma add_key_step st tmp ty o value d :
  pool_ok (strbuf (u_rules st)) -> data_fits ty value d ->
  let '(st', tmp', _) := add_key st tmp ty o value d in step st tmp st' tmp'.
Proof.
  intros Hok Hf. unfold add_key. pose proof (rule_add_key_ok (u_rules st) tmp ty o value d Hok Hf) as H.
  destruct (rule_add_key _ _ _ _ _ _) as [[r' tmp'] res]. destruct H as (? & ? & ? & ?).
  unfold step. simpl. done.
Qed.

Definition result_step st tmp (k : @key_result P) : Prop :=
  match k with Cont st' tmp' | Invalid st' tmp' => step st tmp st' tmp' end.

Lemma add_cont_step st tmp ty o value d :
  pool_ok (strbuf (u_rules st)) -> data_fits ty value d ->
  result_step st tmp (add_cont st tmp ty o value d).
Proof.
  intros Hok Hf. unfold add_cont. pose proof (add_key_step st tmp ty o value d Hok Hf) as H.
  by destruct (add_key _ _ _ _ _ _) as [[? ?] ?].
Qed.

Lemma add_check_step st tmp ty o value d :
  pool_ok (strbuf (u_rules st)) -> data_fits ty value d ->
  result_step st tmp (add_check st tmp ty o value d).
Proof.
  intros Hok Hf. unfold add_check. pose proof (add_key_step st tmp ty o value d Hok Hf) as H.
  destruct (add_key _ _ _ _ _ _) as [[? ?] res]. by destruct (res =? 0).
Qed.

Lemma can_name_step st tmp (k : @key_result P) : result_step st tmp k -> result_step st tmp (can_name k).
Proof.
  destruct k as [st' tmp'|]; [|done]. intros (? & ? & ? & ? & Hw). unfold result_step, step. simpl.
  split_and!; [done..|]. intros Ht. by destruct (Hw Ht).
Qed.

Lemma result_refl st tmp : pool_ok (strbuf (u_rules st)) ->
  result_step st tmp (Cont st tmp) /\ result_step st tmp (Invalid st tmp).
Proof. intros. split; by apply step_refl. Qed.

Lemma builtin_index_range names name i :
  (length names + Z.to_nat i <= 9)%nat -> 0 <= i ->
  0 <= builtin_index names name i.
Proof.
  revert i. induction names as [|n names IH]; intros i Hl Hi; simpl; [done|].
  destruct (str_eq_loop n name); [done|]. apply IH; simpl in Hl; lia.
Qed.

Lemma builtin_lookup_range value : 0 <= udev_builtin_lookup value.
Proof. apply builtin_index_range; [simpl; lia|lia]. Qed.

(** Adding a name to one of the caches. *)
Definition same_but_caches (st st' : @udev_rules P) : Prop :=
  tokens (u_rules st') = tokens (u_rules st) /\
  token_max (u_rules st') = token_max (u_rules st) /\
  grows (config st) (config st') /\ extends (strbuf (u_rules st)) (strbuf (u_rules st')).

Lemma add_uid_same getpwuid getpwnam st owner :
  pool_ok (strbuf (u_rules st)) -> cstr owner ->
  same_but_caches st (add_uid getpwuid getpwnam st owner).1.
Proof.
  intros Hok Ho. unfold add_uid. destruct (cache_lookup _ _ _).
  { unfold same_but_caches. split_and!; [done..|by apply extends_refl]. }
  pose proof (rules_add_string_ok (u_rules st) owner Hok Ho) as H.
  destruct (rules_add_string _ _) as [r off]. destruct H as (? & ? & ? & _). unfold same_but_caches. split_and!; [done..| |done].
  split_and!; [done| |]; simpl; destruct (off =? 0); try done; by apply prefix_app_r.
Qed.
Lemma add_gid_same getgrgid getgrnam st group :
  pool_ok (strbuf (u_rules st)) -> cstr group ->
  same_but_caches st (add_gid getgrgid getgrnam st group).1.
Proof.
  intros Hok Ho. unfold add_gid. destruct (cache_lookup _ _ _).
  { unfold same_but_caches. split_and!; [done..|by apply extends_refl]. }
  pose proof (rules_add_string_ok (u_rules st) group Hok Ho) as H.
  destruct (rules_add_string _ _) as [r off]. destruct H as (? & ? & ? & _). unfold same_but_caches. split_and!; [done..| |done].
  split_and!; [done| |]; simpl; destruct (off =? 0); try done; by apply prefix_app_r.
Qed.

Lemma same_step st tmp st' (k : @key_result P) :
  same_but_caches st st' -> result_step st' tmp k -> result_step st tmp k.
Proof.
  intros (A1 & A2 & A3 & A4) H.
  assert (step st tmp st' tmp) as Hs.
  { unfold step. split_and!; [done..|]. by apply tmp_wf_extends. }
  destruct k; by eapply step_trans.
Qed.

Lemma key_label_step st tmp value :
  pool_ok (strbuf (u_rules st)) -> cstr value -> result_step st tmp (key_label st tmp value).
Proof.
  intros Hok Hv. unfold key_label.
  pose proof (rules_add_string_ok (u_rules st) value Hok Hv) as H.
  destruct (rules_add_string _ _) as [r off]. destruct H as (? & ? & He & Hs).
  unfold result_step, step. simpl. split_and!; [done..|]. intros Hw.
  destruct (tmp_wf_extends _ _ _ He Hw) as (H1 & H2 & H3). split_and!; [done| |done].
  intros Hsz. destruct (Hs Hsz) as (Hh & _ & Hz). split; [by apply H2|].
  intros Hne. by exists value.
Qed.

Ltac fits :=
  try match goal with |- data_fits (if ?b then _ else _) _ _ => destruct b end;
  unfold data_fits; split_and!; try done; intros _; solve [eauto].
Ltac steps :=
  repeat match goal with
  | |- result_step _ _ (can_name _) => apply can_name_step
  | |- result_step _ _ (add_cont _ _ _ _ _ _) => apply add_cont_step; [done|]
  | |- result_step _ _ (add_check _ _ _ _ _ _) => apply add_check_step; [done|]
  | |- result_step _ _ (Cont _ _) => by apply step_refl
  | |- result_step _ _ (Invalid _ _) => by apply step_refl
  | |- result_step _ _ (if ?b then _ else _) => let E := fresh "E" in destruct b eqn:E
  end.

Lemma builtin_fits ty v cmd :
  has_builtin ty = true -> cstr v -> 0 <= cmd -> (cmd <? UDEV_BUILTIN_MAX) = true ->
  data_fits ty (Some v) (IntData cmd).
Proof. intros Ht ? ? ?%Z.ltb_lt. destruct ty; try done; fits. Qed.

Lemma key_import_step st tmp key o value :
  pool_ok (strbuf (u_rules st)) -> cstr key -> cstr value ->
  result_step st tmp (key_import st tmp key o value).
Proof.
  intros Hok Hk Hv. unfold key_import. destruct (get_key_attribute _) as [attr|]; steps; try fits.
  - apply andb_true_iff in E0 as [_ E0]. apply builtin_fits; auto using builtin_lookup_range.
  - apply builtin_fits; auto using builtin_lookup_range.
Qed.

Lemma key_run_step st tmp key o value :
  pool_ok (strbuf (u_rules st)) -> cstr key -> cstr value ->
  result_step st tmp (key_run st tmp key o value).
Proof.
  intros Hok Hk Hv. unfold key_run. steps; try fits.
  apply builtin_fits; auto using builtin_lookup_range.
Qed.

Lemma key_owner_step getpwuid getpwnam st tmp o value :
  pool_ok (strbuf (u_rules st)) -> cstr value ->
  result_step st tmp (key_owner getpwuid getpwnam st tmp o value).
Proof.
  intros Hok Hv. unfold key_owner. destruct (strtoul 10 value) as [uid [|c e]]; steps; try fits.
  pose proof (add_uid_same getpwuid getpwnam st value Hok Hv) as H.
  destruct (add_uid _ _ _ _) as [st' u]. simpl in H. eapply same_step; [exact H|].
  destruct H as (_ & _ & _ & He). apply add_cont_step; [by eapply extends_ok|fits].
Qed.
Lemma key_group_step getgrgid getgrnam st tmp o value :
  pool_ok (strbuf (u_rules st)) -> cstr value ->
  result_step st tmp (key_group getgrgid getgrnam st tmp o value).
Proof.
  intros Hok Hv. unfold key_group. destruct (strtoul 10 value) as [gid [|c e]]; steps; try fits.
  pose proof (add_gid_same getgrgid getgrnam st value Hok Hv) as H.
  destruct (add_gid _ _ _ _) as [st' u]. simpl in H. eapply same_step; [exact H|].
  destruct H as (_ & _ & _ & He). apply add_cont_step; [by eapply extends_ok|fits].
Qed.

(** The options are looked for one after the other. *)
Definition pair_step st tmp (x : @udev_rules P * rule_tmp) : Prop := step st tmp x.1 x.2.

Lemma pair_add st0 tmp0 st tmp ty o d :
  step st0 tmp0 st tmp -> data_fits ty None d ->
  pair_step st0 tmp0 (let '(st, tmp, _) := add_key st tmp ty o None d in (st, tmp)).
Proof.
  intros Hs Hf. pose proof (add_key_step st tmp ty o None d (step_ok _ _ _ _ Hs) Hf) as H.
  destruct (add_key _ _ _ _ _ _) as [[? ?] ?]. by eapply step_trans.
Qed.

Lemma key_options_step st tmp o value :
  pool_ok (strbuf (u_rules st)) -> cstr value -> result_step st tmp (key_options st tmp o value).
Proof.
  intros Hok Hv. unfold key_options. pose proof (step_refl st tmp Hok) as H0.
  match goal with |- context [let '(_, _) := ?x in _] => assert (pair_step st tmp x) as H1 end.
  { destruct (after value "link_priority="); [by apply pair_add; [|fits]|done]. }
  destruct (match after value "link_priority=" with Some _ => _ | None => _ end) as [st1 tmp1].
  match goal with |- context [let '(_, _) := ?x in _] => assert (pair_step st tmp x) as H2 end.
  { destruct (after value "string_escape="); [|done].
    destruct (startswith _ "none"); [by apply pair_add; [|fits]|].
    destruct (startswith _ "replace"); [by apply pair_add; [|fits]|done]. }
  destruct (match after value "string_escape=" with Some _ => _ | None => _ end) as [st2 tmp2].
  match goal with |- context [let '(_, _) := ?x in _] => assert (pair_step st tmp x) as H3 end.
  { destruct (strstr value "db_persist"); [by apply pair_add; [|fits]|done]. }
  destruct (match strstr value "db_persist" with Some _ => _ | None => _ end) as [st3 tmp3].
  match goal with |- context [let '(_, _) := ?x in _] => assert (pair_step st tmp x) as H4 end.
  { destruct (strstr value "nowatch"); [by apply pair_add; [|fits]|].
    destruct (strstr value "watch"); [by apply pair_add; [|fits]|done]. }
  destruct (match strstr value "nowatch" with Some _ => _ | None => _ end) as [st4 tmp4].
  destruct (after value "static_node=") as [pos|] eqn:E; [|done].
  assert (data_fits TK_A_STATIC_NODE (Some pos) NoData) as Hf.
  { apply cstr_after in E; [|done]. fits. }
  pose proof (add_key_step st4 tmp4 TK_A_STATIC_NODE o (Some pos) NoData (step_ok _ _ _ _ H4) Hf) as H5.
  destruct (add_key _ _ _ _ _ _) as [[st5 tmp5] ?]. simpl.
  eapply step_trans; [exact H4|]. eapply step_trans; [exact H5|].
  pose proof (step_ok _ _ _ _ H5) as Hok5. unfold step. simpl. split_and!; [done..|by apply extends_refl|].
  intros Hw. exact Hw.
Qed.

Lemma add_rule_key_step getpwuid getpwnam getgrgid getgrnam st tmp key o value :
  pool_ok (strbuf (u_rules st)) -> cstr key -> cstr value ->
  result_step st tmp (add_rule_key getpwuid getpwnam getgrgid getgrnam st tmp key o value).
Proof.
  intros Hok Hk Hv. unfold add_rule_key.
  assert (forall n a, get_key_attribute (drop n key) = Some a -> cstr a) as Ha.
  { intros n a. apply cstr_get_key_attribute. by apply cstr_drop. }
  assert (cstr "subsystem|class|bus") by by repeat constructor.
  assert (forall ty, has_value ty = true -> has_attr ty = false -> has_builtin ty = false ->
    forall o, result_step st tmp (key_match st tmp ty o value)) as Hm.
  { intros ty H1 H2 H3 o'. unfold key_match. steps. unfold data_fits. rewrite H1, H2, H3.
    split_and!; [by destruct ty|eauto|done..]. }
  repeat match goal with
  | |- result_step _ _ (if ?b then _ else _) => destruct b; [|]
  | |- result_step _ _ (key_match _ _ _ _ _) => by apply Hm
  end.
  all: try (unfold key_subsystem; steps; fits).
  all: try (unfold key_attr, key_seclabel, key_attrs, key_env;
    destruct (get_key_attribute _) as [a|] eqn:Ea; [apply Ha in Ea|]; steps; fits).
  all: try (by apply key_import_step || by apply key_run_step || by apply key_owner_step ||
    by apply key_group_step || by apply key_options_step || by apply key_label_step).
  all: try (unfold key_test; destruct (get_key_attribute _); steps; fits).
  all: try (unfold key_name; steps; fits).
  all: try (unfold key_mode; destruct (strtol _ _) as [? []]; steps; fits).
  all: steps; fits.
Qed.


(** * One rule *)

Section names.
Context (getpwuid : Z -> bool) (getpwnam : bytes -> option Z).
Context (getgrgid : Z -> bool) (getgrnam : bytes -> option Z).
#[local] Abbreviation add_rule_loop := (add_rule_loop getpwuid getpwnam getgrgid getgrnam).
#[local] Abbreviation add_rule := (add_rule getpwuid getpwnam getgrgid getgrnam).
#[local] Abbreviation parse_lines := (parse_lines getpwuid getpwnam getgrgid getgrnam).
#[local] Abbreviation parse_file := (parse_file getpwuid getpwnam getgrgid getgrnam).
#[local] Abbreviation rules_load := (rules_load getpwuid getpwnam getgrgid getgrnam).

Lemma add_rule_loop_step fuel st tmp line :
  pool_ok (strbuf (u_rules st)) -> cstr line -> result_step st tmp (add_rule_loop fuel st tmp line).
Proof.
  revert st tmp line. induction fuel as [|fuel IH]; intros st tmp line Hok Hl; [by apply step_refl|].
  cbn [RuleParse.add_rule_loop]. destruct (get_key line) as [[[[key o] value] rest]|] eqn:Ek;
    [|by apply step_refl].
  destruct (get_key_inv line key o value rest Hl Ek) as (Hk & Hv & Hr & _).
  pose proof (add_rule_key_step getpwuid getpwnam getgrgid getgrnam st tmp key o value Hok Hk Hv) as Hs.
  destruct (add_rule_key _ _ _ _ _ _ _ _ _) as [st' tmp'|]; [|done]. simpl in Hs.
  specialize (IH st' tmp' rest (step_ok _ _ _ _ Hs) Hr).
  destruct (add_rule_loop _ _ _ _) as [st2 tmp2|st2 tmp2]; by eapply step_trans.
Qed.

(** The tokens of a rule: its own token and its keys, sorted. *)
Definition rule_wf p rt (ks : list key_token) : Prop :=
  token_count rt = 1 + Z.of_nat (length ks) /\ (length ks <= MAX_TK)%nat /\ label_wf p rt /\
  Forall (key_wf p) ks /\ StronglySorted le_type ks.

(** A token array without its end: a sequence of rules. *)
Inductive blocks_wf p : list token -> Prop :=
| blocks_nil : blocks_wf p []
| blocks_cons rt ks rest :
    rule_wf p rt ks -> blocks_wf p rest ->
    blocks_wf p (RuleToken rt :: (KeyToken <$> ks) ++ rest).

Lemma rule_wf_keeps p p' rt ks : keeps p p' -> rule_wf p rt ks -> rule_wf p' rt ks.
Proof.
  intros He (H1 & H2 & H3 & H4 & H5). unfold rule_wf.
  split_and!; [done|done|by eapply label_wf_keeps| |done].
  eapply Forall_impl; [exact H4|]. intros k. by apply key_wf_keeps.
Qed.
Lemma blocks_wf_keeps p p' toks : keeps p p' -> blocks_wf p toks -> blocks_wf p' toks.
Proof. intros He. induction 1; constructor; [by eapply rule_wf_keeps|done]. Qed.
Lemma blocks_wf_app p a b : blocks_wf p a -> blocks_wf p b -> blocks_wf p (a ++ b).
Proof.
  induction 1; intros Hb; [done|]. simpl. rewrite <- app_assoc. constructor; auto.
Qed.
Lemma blocks_wf_one p rt ks : rule_wf p rt ks -> blocks_wf p (RuleToken rt :: (KeyToken <$> ks)).
Proof. intros H. rewrite <- (app_nil_r (_ <$> _)). by constructor; [|constructor]. Qed.

(** The target of a GOTO: the first later rule whose label is its value. *)
Definition goto_target p (toks : list token) (i : nat) k (j : nat) : Prop :=
  (i < j)%nat /\
  exists rt l, toks !! j = Some (RuleToken rt) /\ label_off rt <> 0 /\
    pool_has p (label_off rt) l /\ pool_has p (value_off k) l /\
    forall j' rt', (i < j' < j)%nat -> toks !! j' = Some (RuleToken rt') -> label_off rt' <> 0 ->
      exists l', pool_has p (label_off rt') l' /\ l' <> l.
Definition gotos_wf p (toks : list token) : Prop :=
  forall i k, toks !! i = Some (KeyToken k) -> type k = TK_A_GOTO ->
    data k = 0 \/ goto_target p toks i k (Z.to_nat (data k)).

Lemma goto_target_grow p p' toks more i k j :
  keeps p p' -> goto_target p toks i k j -> goto_target p' (toks ++ more) i k j.
Proof.
  intros He (Hij & rt & l & Hj & Hl & Hrt & Hk & Hfirst). split; [done|].
  assert (j < length toks)%nat as Hlt by by eapply lookup_lt_Some.
  exists rt, l. rewrite lookup_app_l by done. split_and!; [done|done|auto|auto|].
  intros j' rt' Hj' Hjt Hne. rewrite lookup_app_l in Hjt by lia.
  destruct (Hfirst j' rt' Hj' Hjt Hne) as (l' & ? & ?). eauto.
Qed.

Lemma gotos_wf_app p p' toks more :
  keeps p p' -> gotos_wf p toks ->
  (forall k, KeyToken k ∈ more -> type k = TK_A_GOTO -> data k = 0) -> gotos_wf p' (toks ++ more).
Proof.
  intros He Hg Hm i k Hi Hk. destruct (decide (i < length toks)%nat).
  - rewrite lookup_app_l in Hi by done. destruct (Hg i k Hi Hk) as [|Ht]; [by left|right].
    by eapply goto_target_grow.
  - left. apply Hm; [|done]. rewrite lookup_app_r in Hi by lia. by eapply list_elem_of_lookup_2.
Qed.

(** The state between two rules.  The array is described when no rule was too
    long for the temporary array and the 32-bit offsets and indices have not
    overflowed. *)
Definition fits32 (st : @udev_rules P) : Prop :=
  over st = false /\ pool_size (strbuf (u_rules st)) < 2 ^ 32 /\
  Z.of_nat (length (tokens (u_rules st))) < 2 ^ 32.
Definition state_wf (st : @udev_rules P) : Prop :=
  pool_ok (strbuf (u_rules st)) /\ room (u_rules st) /\
  (fits32 st -> blocks_wf (strbuf (u_rules st)) (tokens (u_rules st)) /\
                gotos_wf (strbuf (u_rules st)) (tokens (u_rules st))).

Lemma state_wf_more st st' more :
  state_wf st -> extends (strbuf (u_rules st)) (strbuf (u_rules st')) -> room (u_rules st') ->
  tokens (u_rules st') = tokens (u_rules st) ++ more -> (over st' = false -> over st = false) ->
  (fits32 st' -> blocks_wf (strbuf (u_rules st')) more /\
     forall k, KeyToken k ∈ more -> type k = TK_A_GOTO -> data k = 0) ->
  state_wf st'.
Proof.
  intros (Hok & Hroom & Hwf) He Hroom' Htk Hov Hmore. unfold state_wf.
  split_and!; [by eapply extends_ok|done|]. intros Hf.
  destruct (Hmore Hf) as [Hb Hg]. destruct Hwf as [H1 H2].
  { destruct Hf as (Ho & Hsz & Hn), He as (_ & ? & _). rewrite Htk, length_app in Hn.
    unfold fits32. split_and!; [auto|lia|lia]. }
  rewrite Htk. split; [apply blocks_wf_app; [eapply blocks_wf_keeps; [by apply extends_keeps|done]|done]|].
  eapply gotos_wf_app; [by apply extends_keeps|done|done].
Qed.

(** [add_rule] adds one rule, or nothing. *)
Lemma add_rule_state st line file_off lineno :
  state_wf st -> cstr line -> state_wf (add_rule st line file_off lineno).1.
Proof.
  intros (Hok & Hroom & Hwf) Hl. unfold RuleParse.add_rule.
  set (rt0 := mk_rule_token _ _ _ _ _ _).
  pose proof (add_rule_loop_step (S (length line)) st (mk_rule_tmp rt0 [] false) line Hok Hl) as Hs.
  assert (tmp_wf (strbuf (u_rules st)) (mk_rule_tmp rt0 [] false)) as Ht0.
  { unfold tmp_wf. simpl. split_and!; [lia| |constructor].
    intros _. split; [constructor|]. intros Hne. by destruct Hne. }
  destruct (RuleParse.add_rule_loop _ _ _ _ _ _ _ _) as [st' tmp|st' tmp];
    destruct Hs as (Htk & Hmax & [Hov _] & He & Ht); specialize (Ht Ht0); injection Hov as Hov _.
  2: { eapply (state_wf_more st _ []); [done|done|unfold room; simpl; by rewrite Htk, Hmax| | |].
       - simpl. by rewrite app_nil_r.
       - simpl. by intros [? _]%orb_false_iff; congruence.
       - intros _. split; [constructor|]. by intros k ?%not_elem_of_nil. }
  pose proof Ht as (Hlen & Hkeys & Hu).
  set (rt := mk_rule_token (can_set_name _) _ _ _ _ _).
  destruct (sort_token_sorted (add_token (u_rules st') (RuleToken rt)) tmp Hu)
    as (out & Htok & Hperm & Hsort & Hsb & Hr).
  assert (length out = length (tmp_token tmp)) as Hlo by by rewrite Hperm.
  eapply (state_wf_more st _ (RuleToken rt :: (KeyToken <$> out)));
    [done|by simpl; rewrite Hsb| | | |]; simpl.
  - apply Hr, add_token_room. unfold room. by rewrite Htk, Hmax.
  - rewrite Htok. simpl. by rewrite Htk, <- app_assoc.
  - intros [? _]%orb_false_iff. congruence.
  - intros ([_ Ho]%orb_false_iff & Hsz & _). simpl in Hsz. rewrite Hsb in Hsz |- *. simpl in Hsz |- *.
    specialize (Hlen Ho). destruct (Hkeys Hsz) as [Hk Hlab]. rewrite Hperm in Hk. split.
    + apply blocks_wf_one. unfold rule_wf. rewrite Hlo. split_and!; [|done|done| |done].
      * subst rt. cbn [token_count]. apply wrap_small. unfold MAX_TK in Hlen. lia.
      * eapply Forall_impl; [exact Hk|]. by intros k [? _].
    + intros k [Hk'|Hk']%elem_of_cons; [done|].
      apply list_elem_of_fmap in Hk' as (k' & [= ->] & Hk').
      rewrite Forall_forall in Hk. by apply Hk.
Qed.

(** * Files *)

Lemma parse_lines_state fuel st f file_off nr :
  state_wf st -> state_wf (parse_lines fuel st f file_off nr).
Proof.
  revert st f nr. induction fuel as [|fuel IH]; intros st f nr Hst; [done|].
  cbn [RuleParse.parse_lines]. destruct (fgets _ _) as [[chunk f']|]; [|done].
  destruct (_ ==c _); [by apply IH|]. destruct (_ <? 3)%nat; [by apply IH|].
  assert (forall fuel line len f nr, cstr line ->
    cstr (continue_loop fuel line len f nr).1.1.1) as Hc.
  { clear. induction fuel as [|fuel IH]; intros line len f nr Hl; [done|]. cbn [continue_loop].
    destruct (_ ==c _); [|done]. destruct (fgets _ _) as [[chunk f']|]; [|done].
    assert (cstr (take (len - 2) line ++ until_nul chunk)) as Hl'.
    { apply cstr_app. auto using cstr_take, cstr_until_nul. }
    destruct (_ <? 2)%nat; [done|by apply IH]. }
  specialize (Hc (S (length f')) (until_nul chunk) (length (until_nul chunk)) f' (nr + 1)
    (cstr_until_nul _)).
  destruct (continue_loop _ _ _ _ _) as [[[line len] f2] nr2]. simpl in Hc.
  destruct (_ <=? _)%nat; [by apply IH|].
  set (sk := (_ - _)%nat). opose proof* (add_rule_state st (drop sk line) file_off nr2) as Hs;
    [done|by apply cstr_drop|].
  destruct (RuleParse.add_rule _ _ _ _ _ _ _ _) as [st' ?]. by apply IH.
Qed.

(** Setting the target of a GOTO. *)
Lemma blocks_wf_insert p toks i k k' :
  blocks_wf p toks -> toks !! i = Some (KeyToken k) -> type k' = type k ->
  (key_wf p k -> key_wf p k') -> blocks_wf p (<[i := KeyToken k']> toks).
Proof.
  intros Hb. revert i. induction Hb as [|rt ks rest Hr Hb IH]; intros i Hi Hty Hk; [done|].
  destruct i as [|i]; [done|]. simpl in Hi |- *.
  destruct (decide (i < length ks)%nat) as [Hlt|Hge].
  - rewrite insert_app_l by (by rewrite length_fmap). rewrite <- list_fmap_insert.
    rewrite lookup_app_l in Hi by (by rewrite length_fmap). rewrite list_lookup_fmap in Hi.
    destruct (ks !! i) as [k0|] eqn:E; [|done]. injection Hi as ->.
    constructor; [|done]. destruct Hr as (H1 & H2 & H3 & H4 & H5). unfold rule_wf.
    rewrite length_insert. split_and!; [done|done|done| |].
    + apply Forall_insert; [done|]. apply Hk. rewrite Forall_lookup in H4. by eapply H4.
    + assert (forall l, StronglySorted le_type l <-> StronglySorted Z.le ((fun k => tt (type k)) <$> l)) as Hs.
      { clear. induction l as [|x l IH]; [split; constructor|]. rewrite fmap_cons. split; intros H.
        - apply StronglySorted_inv in H as [H Hx]. constructor; [by apply IH|]. by apply Forall_fmap.
        - apply StronglySorted_inv in H as [H Hx]. constructor; [by apply IH|].
          apply (Forall_fmap (fun k => tt (type k))) in Hx. exact Hx. }
      apply Hs. rewrite list_fmap_insert, Hty, list_insert_id; [by apply Hs|].
      by rewrite list_lookup_fmap, E.
  - rewrite insert_app_r_alt by (rewrite length_fmap; lia).
    rewrite lookup_app_r in Hi by (rewrite length_fmap; lia).
    constructor; [done|]. by apply IH.
Qed.

Lemma blocks_wf_lookup p toks i t :
  blocks_wf p toks -> toks !! i = Some t ->
  match t with RuleToken rt => label_wf p rt | KeyToken k => key_wf p k end.
Proof.
  intros Hb. revert i. induction Hb as [|rt ks rest (_ & _ & Hl & Hk & _) _ IH]; intros i Hi; [done|].
  destruct i as [|i]; [by simplify_eq/=|]. simpl in Hi. apply lookup_app_Some in Hi as [Hi|[_ Hi]]; [|exact (IH _ Hi)].
  rewrite list_lookup_fmap in Hi. destruct (ks !! i) as [k|] eqn:E; [|done]. simplify_eq/=.
  rewrite Forall_lookup in Hk. by eapply Hk.
Qed.

(** A rule with this label. *)
Definition labelled r (label : bytes) (j : nat) : Prop :=
  exists rt, tokens r !! j = Some (RuleToken rt) /\ label_off rt <> 0 /\ rules_str r (label_off rt) = label.

Lemma find_label_spec r label n j :
  match find_label r label n j with
  | Some j' => (j <= j' < j + n)%nat /\ labelled r label j' /\
               forall i, (j <= i < j')%nat -> ~ labelled r label i
  | None => forall i, (j <= i < j + n)%nat -> ~ labelled r label i
  end.
Proof.
  revert j. induction n as [|n IH]; intros j; [intros i; lia|]. cbn [find_label].
  assert (~ labelled r label j -> match find_label r label n (S j) with
    | Some j' => (j <= j' < j + S n)%nat /\ labelled r label j' /\
                 forall i, (j <= i < j')%nat -> ~ labelled r label i
    | None => forall i, (j <= i < j + S n)%nat -> ~ labelled r label i end) as Hnext.
  { intros Hj. specialize (IH (S j)). destruct (find_label r label n (S j)) as [j'|].
    - destruct IH as (H1 & H2 & H3). split_and!; [lia|lia|done|]. intros i Hi.
      destruct (decide (i = j)) as [->|]; [done|]. apply H3. lia.
    - intros i Hi. destruct (decide (i = j)) as [->|]; [done|]. apply IH. lia. }
  destruct (tokens r !! j) as [[rt|k]|] eqn:E; [|apply Hnext; intros (? & ? & _); congruence..].
  destruct (negb (label_off rt =? 0) && str_eq (Some label) (Some (rules_str r (label_off rt)))) eqn:El.
  - apply andb_true_iff in El as [Hne%negb_true_iff%Z.eqb_neq Heq].
    rewrite str_eq_spec in Heq. apply bool_decide_eq_true in Heq. injection Heq as Heq'.
    split_and!; [lia|lia|by exists rt|lia].
  - apply Hnext. intros (rt' & Hj & Hne & Hs). rewrite E in Hj. injection Hj as <-.
    rewrite Hs, str_eq_spec, bool_decide_true, andb_true_r in El by done.
    apply negb_false_iff, Z.eqb_eq in El. done.
Qed.

Definition set_tokens r (toks : list token) : rules := mk_rules toks (token_max r) (strbuf r).

Lemma goto_target_insert p toks i k k' i0 k0 j :
  toks !! i = Some (KeyToken k) -> goto_target p toks i0 k0 j ->
  goto_target p (<[i := KeyToken k']> toks) i0 k0 j.
Proof.
  intros Hi (Hij & rt & l & Hj & Hl & Hrt & Hk & Hfirst). split; [done|]. exists rt, l.
  assert (i <> j) by congruence. rewrite list_lookup_insert_ne by done. split_and!; [done..|].
  intros j' rt' Hj' Hjt Hne. destruct (decide (j' = i)) as [->|].
  - rewrite list_lookup_insert_eq in Hjt by by eapply lookup_lt_Some. done.
  - rewrite list_lookup_insert_ne in Hjt by done. eauto.
Qed.

(** One GOTO is linked. *)
Lemma link_one r i k j :
  blocks_wf (strbuf r) (tokens r) -> gotos_wf (strbuf r) (tokens r) ->
  Z.of_nat (length (tokens r)) < 2 ^ 32 ->
  tokens r !! i = Some (KeyToken k) -> type k = TK_A_GOTO ->
  find_label r (rules_str r (value_off k)) (length (tokens r) - S i) (S i) = Some j ->
  let toks' := <[i := KeyToken (set_data (u32 (Z.of_nat j)) k)]> (tokens r) in
  blocks_wf (strbuf r) toks' /\ gotos_wf (strbuf r) toks'.
Proof.
  intros Hb Hg Hn Hi Hty Hf toks'.
  pose proof (find_label_spec r (rules_str r (value_off k)) (length (tokens r) - S i) (S i)) as Hs.
  rewrite Hf in Hs. destruct Hs as (Hj & (rt & Hjt & Hl & Hstr) & Hfirst).
  assert (u32 (Z.of_nat j) = Z.of_nat j) as Hu by (apply wrap_small; lia).
  pose proof (blocks_wf_lookup _ _ _ _ Hb Hi) as Hkw. simpl in Hkw.
  assert (exists v, pool_has (strbuf r) (value_off k) v) as [v Hv].
  { destruct Hkw as (_ & Hkv & _). destruct Hkv as (v & _ & Hv & _); [by rewrite Hty|eauto]. }
  assert (rules_str r (value_off k) = v) as Hkv by by apply pool_has_str.
  assert (forall j' rt', tokens r !! j' = Some (RuleToken rt') -> label_off rt' <> 0 ->
    exists l, pool_has (strbuf r) (label_off rt') l /\ rules_str r (label_off rt') = l) as Hlab.
  { intros j' rt' Hj' Hne. pose proof (blocks_wf_lookup _ _ _ _ Hb Hj') as Hw. simpl in Hw.
    destruct (Hw Hne) as (l & _ & Hl'). exists l. split; [done|by apply pool_has_str]. }
  split.
  - eapply blocks_wf_insert; [done|done|done|]. intros (H1 & H2 & H3 & H4). unfold key_wf. simpl.
    rewrite Hty in *. done.
  - intros i' k' Hi' Hty'. destruct (decide (i' = i)) as [->|Hne].
    + right. unfold toks' in Hi'. rewrite list_lookup_insert_eq in Hi' by by eapply lookup_lt_Some.
      injection Hi' as <-. simpl. rewrite Hu, Nat2Z.id. eapply goto_target_insert; [done|].
      split; [lia|]. exists rt, v. destruct (Hlab j rt Hjt Hl) as (l & Hl1 & Hl2).
      assert (l = v) as -> by congruence. split_and!; [done..|].
      intros j' rt' Hj' Hjt' Hne'. destruct (Hlab j' rt' Hjt' Hne') as (l' & Hl1' & Hl2').
      exists l'. split; [done|]. intros ->. apply (Hfirst j'); [lia|]. exists rt'.
      split_and!; [done|done|congruence].
    + unfold toks' in Hi'. rewrite list_lookup_insert_ne in Hi' by done.
      destruct (Hg i' k' Hi' Hty') as [|Ht]; [by left|right]. by eapply goto_target_insert.
Qed.

Lemma link_loop_ok r n i :
  let r' := link_loop r n i in
  strbuf r' = strbuf r /\ token_max r' = token_max r /\ length (tokens r') = length (tokens r) /\
  (blocks_wf (strbuf r) (tokens r) /\ gotos_wf (strbuf r) (tokens r) ->
   Z.of_nat (length (tokens r)) < 2 ^ 32 ->
   blocks_wf (strbuf r) (tokens r') /\ gotos_wf (strbuf r) (tokens r')).
Proof.
  revert r i. induction n as [|n IH]; intros r i; [done|]. cbn [link_loop].
  destruct (tokens r !! i) as [[rt|k]|] eqn:Ei; [apply IH| |apply IH].
  case_bool_decide as Hty; [|apply IH].
  destruct (find_label _ _ _ _) as [j|] eqn:Ef; [|apply IH].
  match goal with |- context [link_loop ?x n (S i)] => destruct (IH x (S i)) as (H1 & H2 & H3 & H4) end.
  simpl in *. rewrite length_insert in *. split_and!; [done..|].
  intros [Hb Hg] Hn. apply H4; [|done]. by eapply link_one.
Qed.

Lemma set_rules_string_state st s :
  state_wf st -> cstr s ->
  state_wf (set_rules st (rules_add_string (u_rules st) s).1).
Proof.
  intros Hst Hs. pose proof Hst as (Hok & Hroom & _).
  pose proof (rules_add_string_ok (u_rules st) s Hok Hs) as H.
  destruct (rules_add_string _ _) as [r off]. destruct H as (Ht & Hm & He & _).
  eapply (state_wf_more st _ []); [done|done|unfold room; simpl; by rewrite Ht, Hm|simpl|done|].
  - by rewrite app_nil_r.
  - intros _. split; [constructor|]. by intros k ?%not_elem_of_nil.
Qed.

Lemma parse_file_state st name contents :
  state_wf st -> cstr name -> state_wf (parse_file st name contents).1.
Proof.
  intros Hst Hn. destruct contents as [[|c f]|]; [done| |done]. unfold RuleParse.parse_file.
  pose proof (set_rules_string_state st name Hst Hn) as H1.
  destruct (rules_add_string _ _) as [r off]. cbn [fst] in *.
  pose proof (parse_lines_state (S (length (c :: f))) (set_rules st r) (c :: f) off 0 H1) as H2.
  set (st2 := RuleParse.parse_lines _ _ _ _ _ _ _ _ _) in *. clearbody st2.
  destruct H2 as (Hok & Hroom & Hwf).
  match goal with |- context [link_loop ?r ?n ?i] => destruct (link_loop_ok r n i) as (L1 & L2 & L3 & L4) end.
  unfold state_wf, fits32, room in *. simpl. rewrite L1, L2, L3. split_and!; [done|done|].
  intros Hf. apply L4; [by apply Hwf|]. by destruct Hf as (_ & _ & ?).
Qed.

Lemma rules_load_state st files :
  Forall (fun f => cstr f.1) files ->
  let st' := rules_load st files in
  room (u_rules st') /\
  (fits32 st' -> exists toks, tokens (u_rules st') = toks ++ [end_token] /\
     blocks_wf (strbuf (u_rules st')) toks /\ gotos_wf (strbuf (u_rules st')) toks).
Proof.
  intros Hf. unfold RuleParse.rules_load.
  set (r0 := fold_left _ files (rules_new PREALLOC_TOKEN)).
  assert (pool_ok (strbuf r0) /\ tokens r0 = [] /\ token_max r0 = PREALLOC_TOKEN) as (Hok0 & Ht0 & Hm0).
  { subst r0. assert (forall r, pool_ok (strbuf r) -> tokens r = [] -> token_max r = PREALLOC_TOKEN ->
      let r' := fold_left (fun r f => (rules_add_string r f.1).1) files r in
      pool_ok (strbuf r') /\ tokens r' = [] /\ token_max r' = PREALLOC_TOKEN) as H.
    2: { apply H; [apply pool_new_ok|done..]. }
    clear st. induction Hf as [|f files Hf _ IH]; intros r A1 A2 A3; [done|]. simpl.
    pose proof (rules_add_string_ok r f.1 A1 Hf) as H.
    destruct (rules_add_string r f.1) as [r' off]. destruct H as (? & ? & ? & _).
    apply IH; [by eapply extends_ok|simpl; congruence..]. }
  assert (state_wf (set_rules st r0)) as Hst.
  { unfold state_wf, room. simpl. rewrite Ht0, Hm0. split_and!; [done|simpl; unfold PREALLOC_TOKEN; lia|].
    intros _. split; [constructor|done]. }
  assert (forall st, state_wf st -> state_wf (fold_left (fun st f => (parse_file st f.1 f.2).1) files st)) as Hfold.
  { clear -Hf. induction Hf as [|f files Hf _ IH]; intros st Hst; [done|]. simpl.
    apply IH. by apply parse_file_state. }
  apply Hfold in Hst. set (st1 := fold_left _ files (set_rules st r0)) in *. clearbody st1.
  destruct Hst as (Hok & Hroom & Hwf). split.
  - apply (add_token_room _ end_token) in Hroom. exact Hroom.
  - intros (Ho & Hsz & Hn). simpl in *. rewrite length_app in Hn. simpl in Hn.
    exists (tokens (u_rules st1)). split; [done|].
    rewrite pool_complete_size in Hsz. destruct Hwf as [Hb Hg]; [unfold fits32; split_and!; [done|done|lia]|].
    assert (keeps (strbuf (u_rules st1)) (pool_complete (strbuf (u_rules st1)))) as Hk.
    { intros off w. apply pool_complete_has. }
    split; [by eapply blocks_wf_keeps|].
    rewrite <- (app_nil_r (tokens (u_rules st1))). eapply gotos_wf_app; [done|done|].
    by intros k ?%not_elem_of_nil.
Qed.

(** C15: what [rules_load] leaves to the code that walks the tokens.  For every
    set of rules files whose rules fit their temporary array, the array is a
    sequence of rules, each followed by the number of keys its [token_count]
    says, sorted by type, and closed by one TK_END; every key has a known
    type, offsets of stored strings (whose glob and substitution kinds it
    records) and, for a builtin, the number of a builtin that exists; every
    GOTO is unlinked or points forward to the first later rule with its
    label; and the array is never full. *)
Theorem rules_load_wf st files :
  Forall (fun f => cstr f.1) files ->
  let st' := rules_load st files in
  room (u_rules st') /\
  (fits32 st' -> exists toks, tokens (u_rules st') = toks ++ [end_token] /\
     blocks_wf (strbuf (u_rules st')) toks /\ gotos_wf (strbuf (u_rules st')) toks).
Proof. apply rules_load_state. Qed.

(** C17: a rule that is rejected leaves the token array as it was, and so is
    everything else but that strings may have been stored and that users and
    groups that were looked up may stand behind the others in the caches; one
    that is not adds one rule token and its keys, sorted, behind the array.
    In both cases every string that was stored stays where it is.  (The number
    and the order of the keys are for a rule that fits the temporary array.) *)
Theorem add_rule_atomic st line file_off lineno :
  pool_ok (strbuf (u_rules st)) -> cstr line ->
  let '(st', res) := add_rule st line file_off lineno in
  (forall off w, pool_has (strbuf (u_rules st)) off w -> pool_has (strbuf (u_rules st')) off w) /\
  resolve_names st' = resolve_names st /\ uids st `prefix_of` uids st' /\ gids st `prefix_of` gids st' /\
  ((res = -1 /\ tokens (u_rules st') = tokens (u_rules st) /\
    token_max (u_rules st') = token_max (u_rules st)) \/
   (res = 0 /\ exists rt ks,
      tokens (u_rules st') = tokens (u_rules st) ++ RuleToken rt :: (KeyToken <$> ks) /\
      (over st' = false -> token_count rt = 1 + Z.of_nat (length ks) /\ StronglySorted le_type ks))).
Proof.
  intros Hok Hl. unfold RuleParse.add_rule. set (rt0 := mk_rule_token _ _ _ _ _ _).
  pose proof (add_rule_loop_step (S (length line)) st (mk_rule_tmp rt0 [] false) line Hok Hl) as Hs.
  destruct (RuleParse.add_rule_loop _ _ _ _ _ _ _ _) as [st' tmp|st' tmp];
    destruct Hs as (Htk & Hmax & (Hc & Hu & Hg) & He & Ht); injection Hc as _ Hr; cbn in Hu, Hg.
  - destruct Ht as (Hlen & _ & Hun).
    { unfold tmp_wf. simpl. split_and!; [lia| |constructor].
      intros _. split; [constructor|]. intros Hne. by destruct Hne. }
    set (rt := mk_rule_token (can_set_name _) _ _ _ _ _).
    destruct (sort_token_sorted (add_token (u_rules st') (RuleToken rt)) tmp Hun)
      as (out & Htok & Hperm & Hsort & Hbuf & _). split_and!; [|done..|].
    { cbn. rewrite Hbuf. apply He. }
    right. split; [done|]. exists rt, out. simpl. rewrite Htok. simpl.
    rewrite Htk, <- app_assoc. split; [done|]. intros [_ Ho]%orb_false_iff. split; [|done].
    specialize (Hlen Ho). rewrite <- Hperm. apply wrap_small. unfold MAX_TK in Hlen. lia.
  - split_and!; [apply He|done..|by left].
Qed.
End names.
End wf.

(** A file with a GOTO and its label. *)
Definition sample_file : bytes :=
  "KERNEL==" ++ [dquote] ++ "sd*" ++ [dquote] ++ ", GOTO=" ++ [dquote] ++ "end" ++ [dquote; newline] ++
  "LABEL=" ++ [dquote] ++ "end" ++ [dquote] ++ ", TAG+=" ++ [dquote] ++ "t" ++ [dquote; newline].
Definition sample_new : option (@udev_rules Strbuf.strbuf) :=
  udev_rules_new (fun _ => true) (fun _ => None) (fun _ => true) (fun _ => None) 1
    (Some [(("a.rules" : bytes), Some sample_file)]).

Lemma rules_load_wf_witness :
  let st := mk_udev_rules 1 (rules_new 8) [] 0 [] 0 false in
  let st' := rules_load (P := Strbuf.strbuf) (fun _ => true) (fun _ => None) (fun _ => true) (fun _ => None)
    st [(("a.rules" : bytes), Some sample_file)] in
  exists toks, tokens (u_rules st') = toks ++ [end_token] /\ length toks = 5%nat.
Proof.
  intros st st'.
  destruct (rules_load_wf (fun _ => true) (fun _ => None) (fun _ => true) (fun _ => None)
    st [(("a.rules" : bytes), Some sample_file)]) as [_ H]; [by repeat constructor|].
  destruct H as (toks & Ht & _); [vm_compute; auto|]. exists toks. split; [exact Ht|].
  assert (length (tokens (u_rules st')) = 6%nat) as Hl by (vm_compute; reflexivity).
  unfold st' in Hl. rewrite Ht, length_app in Hl. cbn [length] in Hl. lia.
Defined.

Lemma add_rule_atomic_witness :
  let st := mk_udev_rules (P := Strbuf.strbuf) 1 (rules_new 8) [] 0 [] 0 false in
  let '(st', res) := add_rule (fun _ => true) (fun _ => None) (fun _ => true) (fun _ => None) st
    ("FOO=" ++ [dquote; dquote; newline]) 1 1 in
  res = -1 /\ tokens (u_rules st') = tokens (u_rules st).
Proof.
  intros st.
  pose proof (add_rule_atomic (fun _ => true) (fun _ => None) (fun _ => true) (fun _ => None) st
    ("FOO=" ++ [dquote; dquote; newline]) 1 1 Strbuf.strbuf_new_ok ltac:(by repeat constructor)) as H.
  destruct (add_rule _ _ _ _ st _ 1 1) as [st' res] eqn:E.
  destruct H as (_ & _ & _ & _ & [(H1 & H2 & _)|[H1 _]]); [by split|]. vm_compute in E. congruence.
Defined.
End RulesWf.
Export RulesWf.
