(* ===== verification/UdevList.v ===== *)
(** lib/libudev-list.c: the list that keeps the properties, tags and links of
    a device: a doubly linked ring, and for unique lists an array of its
    entries sorted by name.  The operations work on the store of nodes; the
    theorems relate them to a plain list of entries ([spec_add],
    [spec_delete]), which is what the models of the clients use. *)

From Stdlib Require Import ZArith Lia Ascii.
From stdpp Require Import prelude gmap strings sorting.
From S2P Require Import Prelude.

Module Entries.

(** The members of [struct udev_list_entry] that are not links. *)
Record entry := mk_entry { e_name : bytes; e_value : option bytes; e_num : Z }.

(** * The abstract list *)

Fixpoint insert_sorted (es : list entry) (name : bytes) (value : option bytes) : list entry :=
  match es with
  | [] => [mk_entry name value 0]
  | e :: es' =>
      match strcmp name (e_name e) with
      | Eq => mk_entry (e_name e) value (e_num e) :: es'
      | Lt => mk_entry name value 0 :: es
      | Gt => e :: insert_sorted es' name value
      end
  end.
(** Adding to a unique list replaces the value of an entry of that name;
    entries of a list that is not unique are kept in the order of addition. *)
Definition spec_add (uniq : bool) (es : list entry) (name : bytes) (value : option bytes) : list entry :=
  if uniq then insert_sorted es name value else es ++ [mk_entry name value 0].
Definition spec_find (es : list entry) (name : bytes) : option entry :=
  find (fun e => bool_decide (e_name e = name)) es.
Definition spec_delete (es : list entry) (name : bytes) : list entry :=
  filter (fun e => (e_name e <> name)) es.

Definition spec_set_num (es : list entry) (name : bytes) (num : Z) : list entry :=
  (fun e => if decide (e_name e = name) then mk_entry (e_name e) (e_value e) num else e) <$> es.

End Entries.
Export Entries.

Module UdevList.

(** * The store *)

(** A node is a number, the head of the list is 0.  [entries] is NULL or the
    sorted array, [entries_cur] being its length; [fresh] is the next node an
    allocation returns. *)
Record udev_list := mk_list {
  next : gmap nat nat;
  prev : gmap nat nat;
  ents : gmap nat entry;
  unique : bool;
  entries : option (list nat);
  entries_max : nat;
  fresh : nat
}.
Definition head : nat := 0.
Implicit Types (l : udev_list) (id : nat).

Definition nxt l id : nat := default head (next l !! id).
Definition prv l id : nat := default head (prev l !! id).
Definition set_links l nx pv : udev_list :=
  mk_list nx pv (ents l) (unique l) (entries l) (entries_max l) (fresh l).

Definition udev_list_node_is_empty l : bool := (nxt l head =? head)%nat.
Definition udev_list_node_insert_between l (new p n : nat) : udev_list :=
  let pv := <[n := new]> (prev l) in
  let nx := <[new := n]> (next l) in
  let pv := <[new := p]> pv in
  let nx := <[p := new]> nx in
  set_links l nx pv.
Definition udev_list_node_append l new : udev_list :=
  udev_list_node_insert_between l new (prv l head) head.
Definition udev_list_node_remove l (e : nat) : udev_list :=
  let p := prv l e in
  let n := nxt l e in
  let pv := <[n := p]> (prev l) in
  let nx := <[p := n]> (next l) in
  set_links l (delete e nx) (delete e pv).

Definition udev_list_init (uniq : bool) : udev_list :=
  mk_list {[head := head]} {[head := head]} ∅ uniq None 0 1.

Definition udev_list_entry_append l new : udev_list :=
  udev_list_node_insert_between l new (prv l head) head.
Definition udev_list_entry_insert_before l new id : udev_list :=
  udev_list_node_insert_between l new (prv l id) id.

Definition name_of l id : bytes := from_option e_name [] (ents l !! id).
Definition array l : list nat := default [] (entries l).

(** [inr i] is the negative result: the insertion index. *)
Definition list_search l (name : bytes) : nat + nat :=
  bsearch (fun id => strcmp name (name_of l id)) (array l).

Definition set_ent l id (e : entry) : udev_list :=
  mk_list (next l) (prev l) (<[id := e]> (ents l)) (unique l) (entries l) (entries_max l) (fresh l).
Definition set_entries l (a : option (list nat)) (max : nat) : udev_list :=
  mk_list (next l) (prev l) (ents l) (unique l) a max (fresh l).

(** The new entry is allocated with [num] 0. *)
Definition new_entry l (name : bytes) (value : option bytes) : udev_list * nat :=
  (mk_list (next l) (prev l) (<[fresh l := mk_entry name value 0]> (ents l)) (unique l) (entries l)
     (entries_max l) (S (fresh l)), fresh l).

Definition udev_list_entry_add l (name : bytes) (value : option bytes) : udev_list * nat :=
  match (if unique l then list_search l name else inr 0%nat) with
  | inl i =>
      let id := nth i (array l) head in
      (set_ent l id (mk_entry (name_of l id) value (from_option e_num 0 (ents l !! id))), id)
  | inr i =>
      let '(l, id) := new_entry l name value in
      if unique l then
        let max := if (entries_max l <=? length (array l))%nat
                   then (entries_max l + (if (entries_max l <? 1)%nat then 64 else entries_max l))%nat
                   else entries_max l in
        let l := if (i <? length (array l))%nat
                 then udev_list_entry_insert_before l id (nth i (array l) head)
                 else udev_list_entry_append l id in
        (set_entries l (Some (take i (array l) ++ id :: drop i (array l))) max, id)
      else (udev_list_entry_append l id, id)
  end.

Definition udev_list_entry_delete l id : udev_list :=
  let l :=
    match entries l with
    | Some a =>
        match list_search l (name_of l id) with
        | inl i => set_entries l (Some (take i a ++ drop (S i) a)) (entries_max l)
        | inr _ => l
        end
    | None => l
    end in
  let l := udev_list_node_remove l id in
  mk_list (next l) (prev l) (delete id (ents l)) (unique l) (entries l) (entries_max l) (fresh l).

Definition udev_list_get_entry l : option nat :=
  if udev_list_node_is_empty l then None else Some (nxt l head).
Definition udev_list_entry_get_next l (e : option nat) : option nat :=
  match e with
  | None => None
  | Some id => if (nxt l id =? head)%nat then None else Some (nxt l id)
  end.
Definition udev_list_entry_get_by_name l (e : option nat) (name : bytes) : option nat :=
  match e with
  | None => None
  | Some _ =>
      if unique l then
        match list_search l name with inl i => array l !! i | inr _ => None end
      else None
  end.
Definition udev_list_entry_get_name l (e : option nat) : option bytes :=
  id ← e; e_name <$> ents l !! id.
Definition udev_list_entry_get_value l (e : option nat) : option bytes :=
  id ← e; x ← ents l !! id; e_value x.
Definition EINVAL : Z := 22.
Definition udev_list_entry_get_num l (e : option nat) : Z :=
  match e with None => - EINVAL | Some id => from_option e_num 0 (ents l !! id) end.
Definition udev_list_entry_set_num l (e : option nat) (num : Z) : udev_list :=
  match e with
  | None => l
  | Some id => match ents l !! id with
               | Some x => set_ent l id (mk_entry (e_name x) (e_value x) num)
               | None => l
               end
  end.

(** [udev_list_entry_foreach]: the entries from [e] on. *)
Fixpoint foreach (fuel : nat) l (e : option nat) : list nat :=
  match fuel, e with
  | S fuel', Some id => id :: foreach fuel' l (udev_list_entry_get_next l e)
  | _, _ => []
  end.

(** The loop reads the next entry before it deletes the current one. *)
Fixpoint cleanup_loop (fuel : nat) l (e : option nat) : udev_list :=
  match fuel, e with
  | S fuel', Some id =>
      let n := udev_list_entry_get_next l e in
      cleanup_loop fuel' (udev_list_entry_delete l id) n
  | _, _ => l
  end.
Definition udev_list_cleanup l : udev_list :=
  let l := set_entries l None 0 in
  cleanup_loop (S (fresh l)) l (udev_list_get_entry l).

Example list_ex :
  let l := udev_list_init true in
  let '(l, _) := udev_list_entry_add l "b" (Some ("1" : bytes)) in
  let '(l, _) := udev_list_entry_add l "a" None in
  let '(l, c) := udev_list_entry_add l "c" None in
  let '(l, _) := udev_list_entry_add l "b" (Some ("2" : bytes)) in
  let l := udev_list_entry_delete l c in
  (fun id => (name_of l id, udev_list_entry_get_value l (Some id))) <$>
    foreach 9 l (udev_list_get_entry l)
  = [(("a" : bytes), None); (("b" : bytes), Some ("2" : bytes))].
Proof. vm_compute. reflexivity. Qed.

(** * The ring *)

(** The links from [a] through [ids] to [z]. *)
Fixpoint chain (nx pv : gmap nat nat) (a : nat) (ids : list nat) (z : nat) : Prop :=
  match ids with
  | [] => nx !! a = Some z /\ pv !! z = Some a
  | b :: ids' => nx !! a = Some b /\ pv !! b = Some a /\ chain nx pv b ids' z
  end.

Lemma chain_app nx pv a xs b ys z :
  chain nx pv a (xs ++ b :: ys) z <-> chain nx pv a xs b /\ chain nx pv b ys z.
Proof.
  revert a. induction xs as [|c xs IH]; intros a; simpl; [tauto|]. rewrite IH. tauto.
Qed.

Lemma chain_nx nx pv a ids z x y :
  x <> a -> x ∉ ids -> chain nx pv a ids z -> chain (<[x := y]> nx) pv a ids z.
Proof.
  revert a. induction ids as [|b ids IH]; simpl; intros a Hx Hi.
  - intros [? ?]. by rewrite lookup_insert_ne.
  - intros (? & ? & ?). rewrite lookup_insert_ne by done. split_and!; [done..|]. apply IH; set_solver.
Qed.
Lemma chain_pv nx pv a ids z x y :
  x <> z -> x ∉ ids -> chain nx pv a ids z -> chain nx (<[x := y]> pv) a ids z.
Proof.
  revert a. induction ids as [|b ids IH]; simpl; intros a Hx Hi.
  - intros [? ?]. by rewrite lookup_insert_ne.
  - intros (? & ? & ?). rewrite lookup_insert_ne by set_solver. split_and!; [done..|]. apply IH; set_solver.
Qed.
Lemma chain_delete nx pv a ids z x :
  x <> a -> x <> z -> x ∉ ids -> chain nx pv a ids z -> chain (delete x nx) (delete x pv) a ids z.
Proof.
  revert a. induction ids as [|b ids IH]; simpl; intros a Ha Hz Hi.
  - intros [? ?]. by rewrite !lookup_delete_ne.
  - intros (? & ? & ?). rewrite !lookup_delete_ne by set_solver. split_and!; [done..|]. apply IH; set_solver.
Qed.

(** The last of the nodes from [a] on. *)
Fixpoint lastn (a : nat) (ids : list nat) : nat :=
  match ids with [] => a | b :: ids' => lastn b ids' end.
Lemma lastn_in a ids : lastn a ids ∈ a :: ids.
Proof. revert a. induction ids as [|b ids IH]; intros a; simpl; [set_solver|]. right. apply IH. Qed.

Lemma chain_end nx pv a ids z : chain nx pv a ids z -> pv !! z = Some (lastn a ids).
Proof.
  revert a. induction ids as [|b ids IH]; intros a; simpl; [by intros [_ ?]|].
  intros (_ & _ & H). by apply IH.
Qed.
Lemma chain_start nx pv a ids z : chain nx pv a ids z -> nx !! a = Some (List.hd z ids).
Proof. destruct ids; simpl; tauto. Qed.

(** A new node between the last node of the chain and its end. *)
Lemma chain_insert nx pv a ids z new :
  chain nx pv a ids z -> NoDup (a :: ids) -> z ∉ ids -> new ∉ a :: ids -> new <> z ->
  chain (<[lastn a ids := new]> (<[new := z]> nx))
        (<[new := lastn a ids]> (<[z := new]> pv)) a (ids ++ [new]) z.
Proof.
  revert a. induction ids as [|b ids IH]; intros a Hc Hnd Hz Hnew Hnz; simpl in *.
  - destruct Hc as [H1 H2]. apply not_elem_of_cons in Hnew as [Hna _].
    rewrite !lookup_insert_eq, (lookup_insert_ne _ a new), (lookup_insert_eq _ new z) by done.
    by rewrite lookup_insert_ne, lookup_insert_eq by done.
  - destruct Hc as (H1 & H2 & H3). apply NoDup_cons in Hnd as [Ha Hnd].
    pose proof (lastn_in b ids) as Hin.
    rewrite (lookup_insert_ne _ (lastn b ids) a) by set_solver.
    rewrite (lookup_insert_ne _ new a) by set_solver.
    rewrite (lookup_insert_ne _ new b), (lookup_insert_ne _ z b) by set_solver.
    split_and!; [done..|]. apply IH; [done|done|set_solver..].
Qed.

(** The node between two chains is taken out. *)
Lemma chain_remove nx pv a xs x ys z :
  chain nx pv a (xs ++ x :: ys) z -> NoDup (a :: xs ++ x :: ys) ->
  z ∉ xs ++ x :: ys -> z <> x ->
  let p := lastn a xs in
  let n := List.hd z ys in
  nx !! x = Some n /\ pv !! x = Some p /\
  chain (delete x (<[p := n]> nx)) (delete x (<[n := p]> pv)) a (xs ++ ys) z.
Proof.
  intros Hc Hnd Hz Hzx p n. apply chain_app in Hc as [H1 H2].
  pose proof (chain_end _ _ _ _ _ H1) as Hp. pose proof (chain_start _ _ _ _ _ H2) as Hn.
  split; [done|]. split; [done|]. fold p in Hp. fold n in Hn.
  assert (p ∈ a :: xs) as Hpin by apply lastn_in.
  assert ((x ∉ a :: xs) /\ (x ∉ ys) /\ NoDup (a :: xs) /\ NoDup ys /\ (forall w, w ∈ a :: xs -> w ∉ ys))
    as (Hx1 & Hx2 & Hnd1 & Hnd2 & Hdisj).
  { apply NoDup_cons in Hnd as [Ha Hnd]. apply NoDup_app in Hnd as (Hd1 & Hd & Hd2).
    apply NoDup_cons in Hd2 as [Hxy Hd2].
    split_and!; [set_solver|done|constructor; [set_solver|done]|done|].
    intros w [->|Hw]%elem_of_cons; [set_solver|]. specialize (Hd w Hw). set_solver. }
  apply chain_delete; [set_solver|done|set_solver|].
  revert H1 Hp. subst p. clear Hnd. revert a Hx1 Hnd1 Hdisj Hpin Hz.
  induction xs as [|b xs IH]; intros a Hx1 Hnd1 Hdisj Hpin Hz H1 Hp; simpl in *.
  - destruct ys as [|y ys]; simpl in *.
    + subst n. by rewrite !lookup_insert_eq.
    + subst n. rewrite !lookup_insert_eq. split_and!; [done..|]. destruct H2 as (_ & _ & H2).
      apply chain_nx; [set_solver|set_solver|]. apply NoDup_cons in Hnd2 as [Hy _].
      apply chain_pv; [set_solver|done|done].
  - destruct H1 as (A1 & A2 & A3). apply NoDup_cons in Hnd1 as [Ha Hnd1].
    pose proof (lastn_in b xs) as Hin.
    rewrite (lookup_insert_ne nx (lastn b xs) a) by set_solver.
    rewrite (lookup_insert_ne pv n b).
    2: { subst n. destruct ys as [|y ys]; simpl; [set_solver|].
         intros <-. apply (Hdisj y); set_solver. }
    split_and!; [done..|]. apply IH; try done; set_solver.
Qed.

(** * Representation *)

Definition ent l id : entry := default (mk_entry [] None 0) (ents l !! id).
Lemma name_of_ent l id : name_of l id = e_name (ent l id).
Proof. unfold name_of, ent. by destruct (ents l !! id). Qed.

(** The ring links [ids], which are allocated. *)
Definition ring l (ids : list nat) : Prop :=
  chain (next l) (prev l) head ids head /\ NoDup (head :: ids) /\ (0 < fresh l)%nat /\
  forall id, id ∈ ids -> (id < fresh l)%nat /\ is_Some (ents l !! id).
(** The index of a unique list is the ring itself, sorted by name. *)
Definition index l (ids : list nat) : Prop :=
  if unique l then array l = ids /\ StronglySorted str_lt (name_of l <$> ids)
  else entries l = None.
Definition rep l (ids : list nat) (es : list entry) : Prop :=
  ring l ids /\ index l ids /\ es = ent l <$> ids.

Lemma init_rep uniq : rep (udev_list_init uniq) [] [].
Proof.
  split; [|split; [unfold index; destruct uniq; simpl; [split; [done|constructor]|done]|done]].
  unfold ring. split; [|split; [by apply NoDup_singleton|split; [simpl; lia|]]]; simpl.
  { by rewrite !lookup_singleton_eq. } intros id H. by apply not_elem_of_nil in H.
Qed.

Lemma insert_sorted_app es name value a b :
  es = a ++ b -> Forall (fun e => str_lt (e_name e) name) a ->
  insert_sorted es name value = a ++ insert_sorted b name value.
Proof.
  intros -> Ha. induction Ha as [|e a He _ IH]; [done|]. simpl.
  apply strcmp_gt in He. by rewrite He, IH.
Qed.

Lemma sorted_insert (a b : list bytes) x :
  StronglySorted str_lt (a ++ b) -> Forall (fun y => str_lt y x) a -> Forall (str_lt x) b ->
  StronglySorted str_lt (a ++ x :: b).
Proof.
  intros Hs Ha Hb. induction Ha as [|y a Hy Ha IH]; simpl in *; [by constructor|].
  apply StronglySorted_inv in Hs as [Hs Hys]. constructor; [by apply IH|].
  apply Forall_app in Hys as [? ?]. apply Forall_app. split; [done|]. by constructor.
Qed.

(** A new node in the ring, in front of the rest [b]. *)
Lemma ring_insert l a b new :
  ring l (a ++ b) -> (new < fresh l)%nat -> is_Some (ents l !! new) -> new ∉ head :: a ++ b ->
  ring (udev_list_node_insert_between l new (lastn head a) (List.hd head b)) (a ++ new :: b).
Proof.
  intros (Hc & Hnd & Hf & Hids) Hlt Hent Hnew. unfold ring. split; [|split; [|split; [done|]]]; simpl.
  - destruct b as [|n b]; simpl.
    + rewrite app_nil_r in *. apply NoDup_cons in Hnd as Hnd'. destruct Hnd' as [Hh _].
      apply chain_insert; [done|done|done|done|set_solver].
    + apply chain_app in Hc as [H1 H2]. apply NoDup_cons in Hnd as [Hh Hnd].
      apply NoDup_app in Hnd as (Hd1 & Hd & Hd2). apply NoDup_cons in Hd2 as [Hnb Hd2].
      assert (n ∉ a) by set_solver. pose proof (lastn_in head a) as Hin.
      change (a ++ new :: n :: b) with (a ++ [new] ++ n :: b). rewrite app_assoc. apply chain_app. split.
      * apply chain_insert; [done|constructor; [set_solver|done]|done|set_solver|set_solver].
      * assert (forall w, w ∈ head :: a -> w <> n /\ w ∉ b) as Hw.
        { intros w [->|Hw]%elem_of_cons; [set_solver|]. specialize (Hd w Hw). set_solver. }
        destruct (Hw _ Hin). apply chain_nx; [done|done|]. apply chain_nx; [set_solver|set_solver|].
        apply chain_pv; [set_solver|set_solver|]. apply chain_pv; [set_solver|done|done].
  - apply NoDup_cons in Hnd as [Hh Hnd]. constructor; [set_solver|].
    rewrite <- Permutation_middle. constructor; [set_solver|done].
  - intros id Hid. rewrite elem_of_app, elem_of_cons in Hid. destruct Hid as [?|[->|?]]; [|done|];
      apply Hids; set_solver.
Qed.

(** Entries that are allocated do not change when one is allocated. *)
Lemma new_entry_ent l name value id :
  (id < fresh l)%nat -> ent (new_entry l name value).1 id = ent l id.
Proof. intros H. unfold ent. simpl. rewrite lookup_insert_ne by lia. done. Qed.

Lemma new_entry_ring l name value ids :
  ring l ids -> ring (new_entry l name value).1 ids.
Proof.
  intros (Hc & Hnd & Hf & Hids). unfold ring. split_and!; simpl; [done|done|lia|].
  intros id Hid. destruct (Hids id Hid). rewrite lookup_insert_ne by lia. split; [lia|done].
Qed.

Lemma fmap_ent_new l name value ids :
  ring l ids -> ent (new_entry l name value).1 <$> ids = ent l <$> ids.
Proof.
  intros (_ & _ & _ & Hids). apply list_fmap_ext. intros i id Hi. apply new_entry_ent.
  apply Hids. by eapply list_elem_of_lookup_2.
Qed.

(** What the index search finds. *)
Lemma list_search_ok l ids name :
  unique l = true -> index l ids ->
  match list_search l name with
  | inl i => exists id, ids !! i = Some id /\ name_of l id = name
  | inr i => (i <= length ids)%nat /\
             Forall (fun id => str_lt (name_of l id) name) (take i ids) /\
             Forall (fun id => str_lt name (name_of l id)) (drop i ids)
  end.
Proof.
  unfold index. intros -> [Ha Hs]. unfold list_search. rewrite Ha.
  pose proof (bsearch_spec _ _ (key_sorted_str (name_of l) name ids Hs)) as H.
  destruct (bsearch _ _) as [i|i]; simpl in H.
  - destruct H as (id & Hi & He). exists id. split; [done|]. symmetry. by apply strcmp_eq.
  - destruct H as [Hi H]. split; [done|]. split; apply Forall_lookup; intros j id Hj.
    + apply lookup_take_Some in Hj as [Hj Hji]. destruct (H j id Hj) as [Hlt _].
      apply strcmp_gt. auto.
    + rewrite lookup_drop in Hj. destruct (H _ id Hj) as [_ Hgt]. apply Hgt. lia.
Qed.

Lemma array_unique l ids : unique l = true -> index l ids -> array l = ids.
Proof. unfold index. by intros -> [? _]. Qed.

(** * Adding *)

Lemma ring_set_ent l ids id e : ring l ids -> ring (set_ent l id e) ids.
Proof.
  intros (Hc & Hnd & Hf & Hids). unfold ring. simpl. split_and!; [done..|].
  intros id' Hid. destruct (Hids id' Hid) as [? ?]. split; [done|].
  destruct (decide (id' = id)) as [->|]; [by rewrite lookup_insert_eq|by rewrite lookup_insert_ne].
Qed.

(** Writing an entry of the list changes it in place. *)
Lemma ent_set_ent l ids i id e :
  NoDup ids -> ids !! i = Some id -> ent (set_ent l id e) <$> ids = <[i := e]> (ent l <$> ids).
Proof.
  intros Hnd Hi. apply list_eq. intros j. rewrite list_lookup_fmap.
  destruct (decide (j = i)) as [->|Hne].
  - rewrite Hi. rewrite list_lookup_insert_eq by (rewrite length_fmap; by eapply lookup_lt_Some).
    unfold ent. simpl. by rewrite lookup_insert_eq.
  - rewrite list_lookup_insert_ne, list_lookup_fmap by done.
    destruct (ids !! j) as [id'|] eqn:Hj; [|done]. simpl. unfold ent. simpl.
    rewrite lookup_insert_ne; [done|]. intros ->. by rewrite (NoDup_lookup _ _ _ _ Hnd Hi Hj) in Hne.
Qed.

Lemma names_sorted_insert l ids i id e :
  NoDup ids -> ids !! i = Some id -> e_name e = name_of l id ->
  name_of (set_ent l id e) <$> ids = name_of l <$> ids.
Proof.
  intros Hnd Hi He. apply list_fmap_ext. intros j id' Hj. unfold name_of. simpl.
  destruct (decide (id' = id)) as [->|]; [by rewrite lookup_insert_eq|by rewrite lookup_insert_ne].
Qed.

(** A known name: its value is replaced. *)
Lemma add_found_rep l ids es i id name value :
  rep l ids es -> unique l = true -> ids !! i = Some id -> name_of l id = name ->
  rep (set_ent l id (mk_entry name value (from_option e_num 0 (ents l !! id)))) ids
    (spec_add true es name value).
Proof.
  intros (Hr & Hi & ->) Hu Hid Hn. pose proof Hr as (_ & Hnd & _). apply NoDup_cons in Hnd as [_ Hnd].
  split; [by apply ring_set_ent|]. split.
  - unfold index in *. simpl. rewrite Hu in *. destruct Hi as [Ha Hs]. split; [done|].
    by rewrite (names_sorted_insert l ids i id).
  - rewrite (ent_set_ent l ids i id) by done. unfold index in Hi. rewrite Hu in Hi.
    destruct Hi as [_ Hs]. symmetry. unfold spec_add.
    assert ((ent l <$> ids) !! i = Some (ent l id)) as He by by rewrite list_lookup_fmap, Hid.
    rewrite (insert_sorted_app _ _ _ (take i (ent l <$> ids)) (drop i (ent l <$> ids)));
      [|by rewrite take_drop|].
    2: { rewrite <- fmap_take. apply Forall_fmap, Forall_lookup. intros j id' Hj. simpl.
         rewrite <- name_of_ent, <- Hn. apply lookup_take_Some in Hj as [Hj Hji].
         apply (StronglySorted_lookup _ _ Hs j i); [done|by rewrite list_lookup_fmap, Hj|
           by rewrite list_lookup_fmap, Hid]. }
    rewrite (drop_S _ _ _ He). simpl. rewrite <- name_of_ent, Hn, strcmp_refl.
    rewrite insert_take_drop by (by eapply lookup_lt_Some).
    do 3 f_equal. unfold ent. by destruct (ents l !! id).
Qed.

(** The links of the ring in terms of its parts. *)
Lemma ring_links l a b :
  ring l (a ++ b) -> prv l (List.hd head b) = lastn head a.
Proof.
  intros (Hc & _). unfold prv. destruct b as [|n b]; simpl.
  - rewrite app_nil_r in Hc. by rewrite (chain_end _ _ _ _ _ Hc).
  - apply chain_app in Hc as [Hc _]. by rewrite (chain_end _ _ _ _ _ Hc).
Qed.

(** A new name at position [i]. *)
Lemma add_new_ring l ids i name value :
  ring l ids -> (i <= length ids)%nat ->
  let l1 := (new_entry l name value).1 in
  let id := fresh l in
  let l2 := if (i <? length ids)%nat
            then udev_list_entry_insert_before l1 id (nth i ids head)
            else udev_list_entry_append l1 id in
  ring l2 (take i ids ++ id :: drop i ids) /\ ents l2 = ents l1 /\ unique l2 = unique l /\
  entries l2 = entries l /\ fresh l2 = fresh l1.
Proof.
  intros Hr Hi l1 id l2. pose proof (new_entry_ring l name value ids Hr) as Hr1. fold l1 in Hr1.
  assert (l2 = udev_list_node_insert_between l1 id (lastn head (take i ids)) (List.hd head (drop i ids))) as ->.
  { rewrite <- (take_drop i ids) in Hr1. pose proof (ring_links _ _ _ Hr1) as Hp.
    unfold l2, udev_list_entry_insert_before, udev_list_entry_append. destruct (Nat.ltb_spec i (length ids)).
    - assert (nth i ids head = List.hd head (drop i ids)) as ->; [|by rewrite Hp].
      destruct (lookup_lt_is_Some_2 ids i) as [x Hx]; [done|]. rewrite (drop_S _ _ _ Hx).
      by rewrite nth_lookup, Hx.
    - rewrite drop_ge in * by lia. simpl in *. by rewrite Hp. }
  split; [|done]. apply ring_insert; [by rewrite take_drop|simpl; lia|simpl; by rewrite lookup_insert_eq|].
  rewrite take_drop. destruct Hr as (_ & _ & Hf & Hids). intros [Hz|H]%elem_of_cons; [unfold id, head in Hz; lia|].
  destruct (Hids _ H). unfold id in *. lia.
Qed.

Lemma add_new_rep l ids es i name value :
  rep l ids es -> (i <= length ids)%nat ->
  (unique l = true -> Forall (fun id => str_lt (name_of l id) name) (take i ids) /\
                     Forall (fun id => str_lt name (name_of l id)) (drop i ids)) ->
  (unique l = false -> i = length ids) ->
  let '(l', id) := 
    let '(l, id) := new_entry l name value in
    if unique l then
      let max := if (entries_max l <=? length (array l))%nat
                 then (entries_max l + (if (entries_max l <? 1)%nat then 64 else entries_max l))%nat
                 else entries_max l in
      let l := if (i <? length (array l))%nat
               then udev_list_entry_insert_before l id (nth i (array l) head)
               else udev_list_entry_append l id in
      (set_entries l (Some (take i (array l) ++ id :: drop i (array l))) max, id)
    else (udev_list_entry_append l id, id) in
  rep l' (take i ids ++ id :: drop i ids) (spec_add (unique l) es name value) /\
  unique l' = unique l /\ name_of l' id = name.
Proof.
  intros (Hr & Hix & ->) Hi Hu Hnu. destruct (add_new_ring l ids i name value Hr Hi) as (R1 & R2 & R3 & R4 & R5).
  cbv zeta in *. set (l1 := (new_entry l name value).1) in *.
  assert (new_entry l name value = (l1, fresh l)) as -> by done.
  assert (unique l1 = unique l) as Hul by done. assert (array l1 = array l) as Hal by done.
  assert (forall l2, ents l2 = ents l1 -> ent l2 <$> (take i ids ++ fresh l :: drop i ids) =
    take i (ent l <$> ids) ++ mk_entry name value 0 :: drop i (ent l <$> ids)) as Hes.
  { intros l2 He. rewrite fmap_app, fmap_cons, <- fmap_take, <- fmap_drop.
    assert (forall id, ent l2 id = ent l1 id) as Heq by (intros; unfold ent; by rewrite He).
    assert (ent l2 (fresh l) = mk_entry name value 0) as ->.
    { rewrite Heq. unfold ent, l1. simpl. by rewrite lookup_insert_eq. }
    pose proof (fmap_ent_new l name value ids Hr) as Hall. fold l1 in Hall.
    rewrite !(list_fmap_ext (ent l2) (ent l1)) by (intros; apply Heq).
    rewrite !fmap_take, !fmap_drop, Hall. done. }
  assert (forall l2, ents l2 = ents l1 -> name_of l2 (fresh l) = name) as Hnm.
  { intros l2 He. unfold name_of. rewrite He. unfold l1. simpl. by rewrite lookup_insert_eq. }
  rewrite Hul, Hal. destruct (unique l) eqn:Eu.
  - rewrite (array_unique l ids Eu Hix) in *.
    set (l2 := if (i <? length ids)%nat then _ else _) in *.
    destruct Hu as [Hlt Hgt]; [done|].
    assert (array l2 = ids) as Ha2 by (unfold array; rewrite R4; by apply array_unique).
    rewrite Ha2. split; [|by split; [|apply Hnm]]. split; [done|]. split.
    + unfold index. simpl. rewrite R3. split; [done|].
      assert (forall l3 (ids3 : list nat), ents l3 = ents l2 -> name_of l3 <$> ids3 = e_name <$> (ent l2 <$> ids3)) as Hn3.
      { intros l3 ids3 He. rewrite <- list_fmap_compose. apply list_fmap_ext. intros j id _.
        rewrite name_of_ent. unfold ent. simpl. by rewrite He. }
      rewrite Hn3 by done.
      rewrite Hes by done. rewrite fmap_app, fmap_cons, !fmap_take, !fmap_drop. simpl.
      unfold index in Hix. rewrite Eu in Hix. destruct Hix as [_ Hs].
      rewrite <- !list_fmap_compose.
      assert ((e_name ∘ ent l) <$> ids = name_of l <$> ids) as ->.
      { apply list_fmap_ext. intros j id _. symmetry. apply name_of_ent. }
      rewrite <- fmap_take, <- fmap_drop. apply sorted_insert.
      * by rewrite fmap_take, fmap_drop, take_drop.
      * by apply Forall_fmap.
      * by apply Forall_fmap.
    + etrans; [|symmetry; apply (Hes l2); done]. unfold spec_add.
      rewrite (insert_sorted_app _ _ _ (take i (ent l <$> ids)) (drop i (ent l <$> ids))).
      * f_equal. rewrite <- fmap_drop. destruct (drop i ids) as [|x d] eqn:Ed; [done|]. simpl.
        apply Forall_cons in Hgt as [Hx _]. rewrite <- name_of_ent. unfold str_lt in Hx. by rewrite Hx.
      * by rewrite take_drop.
      * rewrite <- fmap_take. apply Forall_fmap. eapply Forall_impl; [exact Hlt|].
        intros id. simpl. by rewrite name_of_ent.
  - specialize (Hnu eq_refl) as ->. rewrite Nat.ltb_irrefl in R1, R2, R3, R4, R5.
    split; [|by split; [|apply Hnm]]. split; [done|]. split.
    + unfold index in *. rewrite R3, R4. by rewrite Eu in Hix.
    + etrans; [|symmetry; apply Hes; done]. unfold spec_add.
      by rewrite take_ge, drop_ge by (by rewrite length_fmap).
Qed.

(** C21: [udev_list_entry_add] implements the abstract list.  On a unique list
    it replaces the value of the entry with the name or inserts a new entry
    where the names stay sorted, keeping the ring and the sorted array in
    step; on another list it appends.  The entry returned has the name. *)
Theorem udev_list_entry_add_refines l ids es name value :
  rep l ids es ->
  let '(l', id) := udev_list_entry_add l name value in
  exists ids', rep l' ids' (spec_add (unique l) es name value) /\
    unique l' = unique l /\ id ∈ ids' /\ name_of l' id = name.
Proof.
  intros Hrep. pose proof Hrep as (Hr & Hix & Hes). unfold udev_list_entry_add.
  destruct (unique l) eqn:Eu.
  - pose proof (list_search_ok l ids name Eu Hix) as Hs.
    destruct (list_search l name) as [i|i].
    + destruct Hs as (id & Hid & Hn). rewrite (array_unique l ids Eu Hix), nth_lookup, Hid. simpl.
      exists ids. rewrite Hn. split_and!; [by eapply add_found_rep|done|
        by eapply list_elem_of_lookup_2|]. unfold name_of. simpl. by rewrite lookup_insert_eq.
    + destruct Hs as (Hi & Hlt & Hgt).
      pose proof (add_new_rep l ids es i name value Hrep Hi (fun _ => conj Hlt Hgt)) as H.
      rewrite Eu in H. specialize (H ltac:(done)). simpl in H |- *. rewrite Eu in H |- *.
      destruct H as (H1 & H2 & H3). eexists. split_and!; [exact H1|done|set_solver|done].
  - pose proof (add_new_rep l ids es (length ids) name value Hrep ltac:(lia)) as H.
    rewrite Eu in H. specialize (H ltac:(done) ltac:(done)). simpl in H |- *. rewrite Eu in H |- *.
    destruct H as (H1 & H2 & H3). eexists. split_and!; [exact H1|done|set_solver|done].
Qed.

Lemma udev_list_entry_add_refines_witness :
  exists ids', rep (udev_list_entry_add (udev_list_init true) "a" None).1 ids' [mk_entry "a" None 0].
Proof.
  pose proof (udev_list_entry_add_refines (udev_list_init true) [] [] "a" None (init_rep true)) as H.
  destruct (udev_list_entry_add (udev_list_init true) "a" None) as [l' id].
  destruct H as (ids' & H & _). exists ids'. exact H.
Defined.

(** * Deleting *)

Lemma ring_remove l a id b :
  ring l (a ++ id :: b) -> ring (udev_list_node_remove l id) (a ++ b).
Proof.
  intros (Hc & Hnd & Hf & Hids). pose proof Hnd as Hnd'. apply NoDup_cons in Hnd' as [Hh Hnd'].
  assert (head <> id) by set_solver.
  destruct (chain_remove _ _ _ _ _ _ _ Hc Hnd Hh ltac:(done)) as (Hn & Hp & Hc').
  unfold udev_list_node_remove, prv, nxt. rewrite Hn, Hp. simpl. unfold ring. simpl.
  split; [exact Hc'|]. split; [|split; [done|intros; apply Hids; set_solver]].
  apply NoDup_app in Hnd' as (H1 & H2 & H3). apply NoDup_cons in H3 as [H3 H4].
  constructor; [set_solver|]. apply NoDup_app. split_and!; [done|set_solver|done].
Qed.

(** An entry that is not in the list is released. *)
Definition forget l id : udev_list :=
  mk_list (next l) (prev l) (delete id (ents l)) (unique l) (entries l) (entries_max l) (fresh l).
Lemma ring_forget l id ids : ring l ids -> id ∉ ids -> ring (forget l id) ids.
Proof.
  intros (Hc & Hnd & Hf & Hids) Hid. unfold ring. simpl. split_and!; [done..|].
  intros id' H. rewrite lookup_delete_ne by set_solver. auto.
Qed.
Lemma ent_forget l id (ids : list nat) : id ∉ ids -> ent (forget l id) <$> ids = ent l <$> ids.
Proof.
  intros Hid. apply list_fmap_ext. intros i x Hx. apply list_elem_of_lookup_2 in Hx.
  unfold ent. simpl. rewrite lookup_delete_ne; [done|set_solver].
Qed.

Lemma delete_eq l id :
  udev_list_entry_delete l id =
    forget (udev_list_node_remove
      (match entries l with
       | Some a => match list_search l (name_of l id) with
                   | inl i => set_entries l (Some (take i a ++ drop (S i) a)) (entries_max l)
                   | inr _ => l
                   end
       | None => l
       end) id) id.
Proof. done. Qed.

Lemma names_inj l ids i j x y :
  StronglySorted str_lt (name_of l <$> ids) -> ids !! i = Some x -> ids !! j = Some y ->
  name_of l x = name_of l y -> i = j.
Proof.
  intros Hs Hi Hj Hn. pose proof (StronglySorted_lookup _ _ Hs) as H.
  assert (Hii : (name_of l <$> ids) !! i = Some (name_of l x)) by by rewrite list_lookup_fmap, Hi.
  assert (Hjj : (name_of l <$> ids) !! j = Some (name_of l x)) by by rewrite list_lookup_fmap, Hj, Hn.
  destruct (Nat.lt_trichotomy i j) as [Hl|[|Hl]]; [|done|].
  - specialize (H _ _ _ _ Hl Hii Hjj). destruct (irreflexivity str_lt _ H).
  - specialize (H _ _ _ _ Hl Hjj Hii). destruct (irreflexivity str_lt _ H).
Qed.

Lemma ring_not_in l a id b : ring l (a ++ id :: b) -> id ∉ a ++ b.
Proof.
  intros (_ & Hnd & _). apply NoDup_cons in Hnd as [_ Hnd]. rewrite <- Permutation_middle in Hnd.
  by apply NoDup_cons in Hnd as [? _].
Qed.

Lemma sorted_app_remove (a b : list bytes) x :
  StronglySorted str_lt (a ++ x :: b) -> StronglySorted str_lt (a ++ b).
Proof.
  induction a as [|y a IH]; simpl; intros Hs; apply StronglySorted_inv in Hs as [Hs Hx]; [done|].
  constructor; [by apply IH|]. apply Forall_app in Hx as [H1 H2]. apply Forall_app. split; [done|].
  by apply Forall_cons in H2 as [_ ?].
Qed.

Lemma delete_rep l a id b es :
  rep l (a ++ id :: b) es -> rep (udev_list_entry_delete l id) (a ++ b) (ent l <$> (a ++ b)).
Proof.
  intros (Hr & Hix & ->). pose proof (ring_not_in _ _ _ _ Hr) as Hid. rewrite delete_eq.
  set (l1 := match entries l with Some _ => _ | None => _ end).
  assert (ring l1 (a ++ id :: b) /\ ents l1 = ents l /\ unique l1 = unique l /\
    (if unique l then array l1 = a ++ b else entries l1 = None)) as (Hr1 & He1 & Hu1 & Ha1).
  { unfold l1, index in *. destruct (unique l) eqn:Eu.
    - destruct Hix as [Ha Hs]. unfold array in Ha. destruct (entries l) as [arr|] eqn:Ee; simpl in Ha.
      + pose proof (list_search_ok l (a ++ id :: b) (name_of l id) Eu) as Hf.
        assert (array l = a ++ id :: b) as Harr by (unfold array; rewrite Ee; exact Ha).
        unfold index in Hf. rewrite Eu in Hf. specialize (Hf (conj Harr Hs)).
        assert ((a ++ id :: b) !! length a = Some id) as Hla by (by rewrite list_lookup_middle).
        destruct (list_search l (name_of l id)) as [i|i].
        * destruct Hf as (id' & Hi & Hn). assert (i = length a) as -> by by eapply names_inj.
          simpl. split_and!; [done|done|done|]. unfold array. simpl. rewrite Ha.
          rewrite take_app_length. change (id :: b) with ([id] ++ b). rewrite app_assoc.
          f_equal. apply drop_app_length'. rewrite length_app. simpl. lia.
        * exfalso. destruct Hf as (Hi & H1 & H2). rewrite Forall_lookup in H1, H2.
          destruct (decide (length a < i)%nat) as [Hlt|Hge].
          -- specialize (H1 (length a) id). rewrite lookup_take_lt in H1 by done.
             specialize (H1 Hla). destruct (irreflexivity str_lt _ H1).
          -- specialize (H2 (length a - i)%nat id). rewrite lookup_drop in H2.
             replace (i + (length a - i))%nat with (length a) in H2 by lia.
             specialize (H2 Hla). destruct (irreflexivity str_lt _ H2).
      + by destruct a.
    - rewrite Hix. done. }
  clearbody l1. apply ring_remove in Hr1. apply (ring_forget _ id) in Hr1; [|done].
  assert (forall ids : list nat, id ∉ ids -> ent (forget (udev_list_node_remove l1 id) id) <$> ids = ent l <$> ids) as Hent.
  { intros ids Hn. rewrite ent_forget by done. apply list_fmap_ext. intros. unfold ent. simpl.
    by rewrite He1. }
  split; [done|]. split; [|by rewrite Hent].
  unfold index in *. simpl. rewrite Hu1. destruct (unique l); [|done]. split; [exact Ha1|].
  destruct Hix as [_ Hs]. rewrite fmap_app, fmap_cons in Hs. apply sorted_app_remove in Hs.
  rewrite <- fmap_app in Hs. erewrite list_fmap_ext; [exact Hs|]. intros i x Hx.
  apply list_elem_of_lookup_2 in Hx. unfold name_of. simpl. rewrite lookup_delete_ne by set_solver.
  by rewrite He1.
Qed.

Lemma filter_others (es : list entry) (n : bytes) :
  (forall e : entry, e ∈ es -> e_name e <> n) -> filter (fun e => (e_name e <> n)) es = es.
Proof.
  induction es as [|x es IH]; [done|]. intros H. rewrite filter_cons_True by (apply H; set_solver).
  rewrite IH; [done|]. intros; apply H; set_solver.
Qed.

Lemma spec_delete_app es1 es2 e :
  StronglySorted str_lt (e_name <$> (es1 ++ e :: es2)) ->
  spec_delete (es1 ++ e :: es2) (e_name e) = es1 ++ es2.
Proof.
  intros Hs. unfold spec_delete. rewrite filter_app, filter_cons_False by (intros H; by apply H).
  rewrite fmap_app, fmap_cons in Hs. pose proof (StronglySorted_lookup _ _ Hs) as Hl.
  assert (((e_name <$> es1) ++ e_name e :: (e_name <$> es2)) !! length es1 = Some (e_name e)) as Hm.
  { rewrite lookup_app_r by (by rewrite length_fmap). by rewrite length_fmap, Nat.sub_diag. }
  rewrite !filter_others; [done| |].
  - intros e' He Hn. apply list_elem_of_lookup in He as [j Hj].
    specialize (Hl (length es1) (S (length es1) + j)%nat (e_name e) (e_name e') ltac:(lia) Hm).
    rewrite Hn in Hl. eapply (irreflexivity str_lt). apply Hl.
    rewrite lookup_app_r by (rewrite length_fmap; lia). rewrite length_fmap.
    replace (S (length es1) + j - length es1)%nat with (S j) by lia. simpl.
    by rewrite list_lookup_fmap, Hj; simpl; rewrite Hn.
  - intros e' He Hn. apply list_elem_of_lookup in He as [j Hj]. pose proof (lookup_lt_Some _ _ _ Hj).
    specialize (Hl j (length es1) (e_name e') (e_name e) ltac:(lia)).
    eapply (irreflexivity str_lt). rewrite Hn in Hl. apply Hl; [|exact Hm].
    rewrite lookup_app_l by (by rewrite length_fmap). by rewrite list_lookup_fmap, Hj; simpl; rewrite Hn.
Qed.

Lemma names_ent l (ids : list nat) : e_name <$> (ent l <$> ids) = name_of l <$> ids.
Proof.
  rewrite <- list_fmap_compose. apply list_fmap_ext. intros i id _. symmetry. apply name_of_ent.
Qed.

(** [udev_list_entry_delete] takes an entry of the list out of the ring
    and, for a unique list, out of the sorted array: what remains represents
    the other entries in their order.  For a unique list that is deleting the
    name from the abstract list. *)
Lemma udev_list_entry_delete_refines l ids es i id :
  rep l ids es -> ids !! i = Some id ->
  rep (udev_list_entry_delete l id) (delete i ids) (delete i es) /\
  (unique l = true -> delete i es = spec_delete es (name_of l id)).
Proof.
  intros Hrep Hi. pose proof (take_drop_middle _ _ _ Hi) as Hids.
  rewrite delete_take_drop. pose proof Hrep as (Hr & Hix & ->).
  assert (delete i (ent l <$> ids) = ent l <$> (take i ids ++ drop (S i) ids)) as Hd.
  { by rewrite delete_take_drop, fmap_app, fmap_take, fmap_drop. }
  split.
  - rewrite Hd. rewrite <- Hids in Hrep. by eapply delete_rep.
  - intros Hu. unfold index in Hix. rewrite Hu in Hix. destruct Hix as [_ Hs]. rewrite Hd.
    rewrite <- (names_ent l), <- Hids, fmap_app, fmap_cons in Hs. rewrite <- Hids at 3.
    rewrite !fmap_app, fmap_cons, name_of_ent. symmetry. by apply spec_delete_app.
Qed.

(** A unique list with the names a and b. *)
Definition sample : udev_list :=
  (udev_list_entry_add (udev_list_entry_add (udev_list_init true) "b" None).1 "a" (Some ("x" : bytes))).1.
Lemma sample_rep : rep sample [2%nat; 1%nat] [mk_entry "a" (Some ("x" : bytes)) 0; mk_entry "b" None 0].
Proof.
  unfold rep, ring, index. split_and!.
  - vm_compute. by split_and!.
  - apply (bool_decide_unpack _). vm_compute. done.
  - vm_compute. lia.
  - intros id [->|[->|[]%not_elem_of_nil]%elem_of_cons]%elem_of_cons;
      (split; [vm_compute; lia|vm_compute; by eexists]).
  - split; [by vm_compute|]. vm_compute. repeat constructor.
  - by vm_compute.
Qed.

Lemma udev_list_entry_delete_refines_witness :
  rep (udev_list_entry_delete sample 1) [2%nat] [mk_entry "a" (Some ("x" : bytes)) 0].
Proof.
  apply (udev_list_entry_delete_refines sample _ _ 1%nat 1%nat sample_rep). reflexivity.
Defined.

(** * Enumeration and lookup *)

Lemma next_ring l a id b :
  ring l (a ++ id :: b) -> udev_list_entry_get_next l (Some id) = List.hd_error b.
Proof.
  intros (Hc & Hnd & _). apply chain_app in Hc as [_ Hc]. apply chain_start in Hc.
  unfold udev_list_entry_get_next, nxt. rewrite Hc. simpl. apply NoDup_cons in Hnd as [Hh _].
  destruct b as [|x b]; simpl; [done|].
  destruct (Nat.eqb_spec x head) as [->|]; [set_solver|done].
Qed.
Lemma first_ring l ids : ring l ids -> udev_list_get_entry l = List.hd_error ids.
Proof.
  intros (Hc & Hnd & _). apply chain_start in Hc.
  unfold udev_list_get_entry, udev_list_node_is_empty, nxt. rewrite Hc. simpl.
  apply NoDup_cons in Hnd as [Hh _].
  destruct ids as [|x b]; simpl; [done|].
  destruct (Nat.eqb_spec x head) as [->|]; [set_solver|done].
Qed.
Lemma foreach_ring l a ids fuel :
  ring l (a ++ ids) -> (length ids <= fuel)%nat -> foreach fuel l (List.hd_error ids) = ids.
Proof.
  revert a fuel. induction ids as [|id ids IH]; intros a fuel Hr Hf; [by destruct fuel|].
  destruct fuel as [|fuel]; simpl in Hf; [lia|]. cbn [foreach List.hd_error].
  rewrite (next_ring _ _ _ _ Hr). f_equal. apply (IH (a ++ [id])); [|lia].
  by rewrite <- app_assoc.
Qed.

(** The nodes of a ring are distinct and allocated, so there are fewer of them
    than [fresh]. *)
Lemma ring_length l ids : ring l ids -> (length ids <= fresh l)%nat.
Proof.
  intros (_ & Hnd & _ & Hids). apply NoDup_cons in Hnd as [_ Hnd].
  rewrite <- (length_seq (fresh l) 0). apply submseteq_length, NoDup_submseteq; [done|].
  intros id H. apply elem_of_seq. destruct (Hids id H). lia.
Qed.

Lemma spec_find_fmap l (ids : list nat) name :
  spec_find (ent l <$> ids) name = ent l <$> find (fun id => bool_decide (name_of l id = name)) ids.
Proof.
  unfold spec_find. induction ids as [|id ids IH]; [done|]. rewrite fmap_cons. cbn [find].
  rewrite <- name_of_ent, IH. by case_bool_decide.
Qed.

Lemma find_none (ids : list nat) (P : nat -> bool) : Forall (fun id => P id = false) ids -> find P ids = None.
Proof. induction 1 as [|x ids Hx _ IH]; [done|]. simpl. by rewrite Hx. Qed.

(** The lookups agree with the abstract list.  Enumerating from the first
    entry visits all entries in order and ends; on a unique list
    [udev_list_entry_get_by_name] returns the entry of the name when there is
    one, and NULL otherwise. *)
Theorem udev_list_lookup_refines l ids es name :
  rep l ids es ->
  ent l <$> foreach (fresh l) l (udev_list_get_entry l) = es /\
  (unique l = true ->
   ent l <$> udev_list_entry_get_by_name l (udev_list_get_entry l) name = spec_find es name).
Proof.
  intros Hrep. pose proof Hrep as (Hr & Hix & ->). rewrite (first_ring _ _ Hr). split.
  - by rewrite (foreach_ring l [] ids) by (try done; by apply ring_length).
  - intros Hu. rewrite spec_find_fmap. f_equal. destruct ids as [|x ids'] eqn:E; [done|]. rewrite <- E in *.
    cbn [List.hd_error]. unfold udev_list_entry_get_by_name. rewrite Hu, (array_unique l ids Hu Hix).
    replace (hd_error ids) with (Some x) by by rewrite E.
    pose proof (list_search_ok l ids name Hu Hix) as H.
    destruct (list_search l name) as [i|i].
    + destruct H as (id & Hi & Hn). rewrite Hi. symmetry.
      pose proof (take_drop_middle _ _ _ Hi) as Hids. rewrite <- Hids.
      assert (find (fun id => bool_decide (name_of l id = name)) (take i ids) = None) as Hf.
      { apply find_none, Forall_lookup. intros j y Hj. apply lookup_take_Some in Hj as [Hj Hji].
        apply bool_decide_eq_false. intros Hy. unfold index in Hix. rewrite Hu in Hix.
        assert (i = j); [|lia]. eapply names_inj; [apply Hix|done|done|congruence]. }
      clear Hids. revert Hf. induction (take i ids) as [|y t IH]; simpl.
      * by rewrite bool_decide_true.
      * case_bool_decide; [done|]. apply IH.
    + destruct H as (Hi & H1 & H2). symmetry. apply find_none.
      rewrite <- (take_drop i ids). apply Forall_app.
      split; (eapply Forall_impl; [eassumption|]); simpl; intros id Hlt;
        apply bool_decide_eq_false; intros Hn; rewrite Hn in Hlt; destruct (irreflexivity str_lt _ Hlt).
Qed.

Lemma udev_list_lookup_refines_witness :
  ent sample <$> udev_list_entry_get_by_name sample (udev_list_get_entry sample) "a"
  = Some (mk_entry "a" (Some ("x" : bytes)) 0).
Proof.
  apply (udev_list_lookup_refines sample _ _ "a" sample_rep). reflexivity.
Defined.

(** * Cleanup *)

Lemma cleanup_loop_ok fuel l ids :
  ring l ids -> entries l = None -> (length ids <= fuel)%nat ->
  let l' := cleanup_loop fuel l (List.hd_error ids) in
  ring l' [] /\ entries l' = None /\ unique l' = unique l.
Proof.
  revert l fuel. induction ids as [|id ids IH]; intros l fuel Hr He Hf; simpl in Hf.
  { destruct fuel; by split_and!. }
  destruct fuel as [|fuel]; [lia|]. cbn [cleanup_loop List.hd_error].
  rewrite (next_ring l [] id ids Hr). rewrite delete_eq, He.
  pose proof (ring_not_in l [] id ids Hr) as Hid.
  pose proof (ring_remove l [] id ids Hr) as Hr'. apply (ring_forget _ id) in Hr'; [|done].
  destruct (IH (forget (udev_list_node_remove l id) id) fuel Hr' He ltac:(lia)) as (H1 & H2 & H3).
  by split_and!.
Qed.

(** [udev_list_cleanup] terminates with the list empty: every node is
    unlinked and released and the array is freed, so the list can be used
    again as it was initialised. *)
Lemma udev_list_cleanup_refines l ids es :
  rep l ids es ->
  let l' := udev_list_cleanup l in
  rep l' [] [] /\ entries l' = None /\ unique l' = unique l /\ udev_list_get_entry l' = None.
Proof.
  intros (Hr & Hix & ->) l'. unfold l', udev_list_cleanup.
  set (l0 := set_entries l None 0). assert (ring l0 ids) as Hr0 by exact Hr.
  rewrite (first_ring _ _ Hr0). pose proof (ring_length _ _ Hr0) as Hlen.
  destruct (cleanup_loop_ok (S (fresh l0)) l0 ids Hr0 eq_refl ltac:(lia)) as (H1 & H2 & H3).
  split_and!; [|done|done|by rewrite (first_ring _ _ H1)].
  split; [done|]. split; [|done]. unfold index. rewrite H3. destruct (unique l0); [|done].
  unfold array. rewrite H2. split; [done|constructor].
Qed.

Lemma udev_list_cleanup_refines_witness : udev_list_get_entry (udev_list_cleanup sample) = None.
Proof. apply (udev_list_cleanup_refines sample _ _ sample_rep). Defined.
End UdevList.

(** * The abstract list as a map

    The names of a unique list are sorted; lookups then behave as in a map. *)

Module EntryFacts.

Definition names_sorted (es : list entry) : Prop := StronglySorted str_lt (e_name <$> es).

Lemma insert_sorted_names es name value x :
  x ∈ e_name <$> insert_sorted es name value <-> x = name \/ x ∈ e_name <$> es.
Proof.
  induction es as [|e es IH]; simpl; [set_solver|].
  destruct (strcmp name (e_name e)) eqn:E; rewrite ?fmap_cons; simpl; [|set_solver..].
  apply strcmp_eq in E as ->. set_solver.
Qed.
Lemma insert_sorted_sorted es name value :
  names_sorted es -> names_sorted (insert_sorted es name value).
Proof.
  unfold names_sorted. induction es as [|e es IH]; intros Hs; simpl; [repeat constructor|].
  apply StronglySorted_inv in Hs as Hs'. destruct Hs' as [Hs1 He].
  destruct (strcmp name (e_name e)) eqn:E; [exact Hs| |].
  - constructor; [exact Hs|]. constructor; [done|]. eapply Forall_impl; [exact He|]. intros y Hy.
    by eapply strcmp_trans.
  - constructor; [by apply IH|]. apply Forall_forall. intros y [->|Hy]%insert_sorted_names.
    + by apply strcmp_gt.
    + rewrite Forall_forall in He. by apply He.
Qed.

Lemma spec_find_none es name : name ∉ e_name <$> es -> spec_find es name = None.
Proof.
  unfold spec_find. induction es as [|e es IH]; [done|]. rewrite fmap_cons. intros H. simpl.
  rewrite bool_decide_false by set_solver. apply IH. set_solver.
Qed.
Lemma spec_find_name es name e : spec_find es name = Some e -> e_name e = name /\ e ∈ es.
Proof.
  unfold spec_find. induction es as [|x es IH]; [done|]. simpl. case_bool_decide; [|set_solver].
  intros [= <-]. set_solver.
Qed.

(** Adding an entry is inserting into the map; the number of an entry that is
    there is kept. *)
Lemma spec_find_add es name value x :
  names_sorted es ->
  spec_find (spec_add true es name value) x =
    if decide (x = name) then Some (mk_entry name value (from_option e_num 0 (spec_find es name)))
    else spec_find es x.
Proof.
  unfold names_sorted, spec_add. induction es as [|e es IH]; intros Hs; cbn [insert_sorted].
  - unfold spec_find. simpl. case_decide; [subst; by rewrite bool_decide_true|by rewrite bool_decide_false by done].
  - apply StronglySorted_inv in Hs as [Hs He]. specialize (IH Hs).
    destruct (strcmp name (e_name e)) eqn:E.
    + apply strcmp_eq in E as ->. unfold spec_find. simpl. rewrite (bool_decide_true (e_name e = e_name e)) by done.
      case_decide as Hx; [subst; by rewrite bool_decide_true|]. by rewrite bool_decide_false by done.
    + assert (name ∉ e_name <$> e :: es) as Hn.
      { rewrite fmap_cons. intros [->|Hin]%elem_of_cons; [by rewrite strcmp_refl in E|].
        rewrite Forall_forall in He. assert (str_lt name name) as H by (etrans; [exact E|by apply He]).
        destruct (irreflexivity str_lt _ H). }
      rewrite (spec_find_none (e :: es) name) by done. unfold spec_find. cbn [find].
      cbn [e_name]. case_decide as Hx; [subst; by rewrite bool_decide_true|]. by rewrite (bool_decide_false (name = x)) by done.
    + unfold spec_find in *. cbn [find]. case_bool_decide as Hb.
      * rewrite decide_False; [done|]. intros ->. rewrite Hb, strcmp_refl in E. done.
      * rewrite IH. rewrite (bool_decide_false (e_name e = name)); [done|].
        intros <-. by rewrite strcmp_refl in E.
Qed.

Lemma spec_find_delete es name x :
  spec_find (spec_delete es name) x = if decide (x = name) then None else spec_find es x.
Proof.
  unfold spec_find, spec_delete. induction es as [|e es IH]; [simpl; by case_decide|].
  rewrite filter_cons. destruct (decide (e_name e <> name)) as [H1|H1]; cbn [find]; rewrite IH; clear IH;
    repeat case_decide; repeat case_bool_decide; try congruence; exfalso; apply H1; congruence.
Qed.
Lemma spec_delete_sorted es name : names_sorted es -> names_sorted (spec_delete es name).
Proof.
  unfold names_sorted, spec_delete. induction es as [|e es IH]; intros Hs; [done|].
  apply StronglySorted_inv in Hs as [Hs He]. rewrite filter_cons. case_decide; [|by apply IH].
  constructor; [by apply IH|]. rewrite Forall_forall in *. intros x Hx. apply He.
  apply list_elem_of_fmap in Hx as (y & -> & Hy). apply list_elem_of_filter in Hy as [_ Hy].
  apply list_elem_of_fmap. eauto.
Qed.

Lemma spec_set_num_names es name n : e_name <$> spec_set_num es name n = e_name <$> es.
Proof.
  unfold spec_set_num. rewrite <- list_fmap_compose. apply list_fmap_ext. intros i e _. simpl. by case_decide.
Qed.
Lemma spec_find_set_num es name n x :
  spec_find (spec_set_num es name n) x =
    if decide (x = name) then (fun e => mk_entry (e_name e) (e_value e) n) <$> spec_find es x else spec_find es x.
Proof.
  unfold spec_find, spec_set_num. induction es as [|e es IH]; [simpl; by case_decide|].
  rewrite fmap_cons. cbn [find]. rewrite IH. clear IH.
  repeat case_decide; cbn [e_name] in *; repeat case_bool_decide; simpl; congruence.
Qed.

(** Entries added in order end up in that order. *)
Lemma insert_sorted_last es name value :
  Forall (fun e => str_lt (e_name e) name) es -> insert_sorted es name value = es ++ [mk_entry name value 0].
Proof.
  intros H. rewrite <- (app_nil_r es) at 1. rewrite (UdevList.insert_sorted_app _ _ _ es []); done.
Qed.
Lemma add_sorted_list (xs : list bytes) (es : list entry) :
  StronglySorted str_lt ((e_name <$> es) ++ xs) ->
  fold_left (fun l x => spec_add true l x None) xs es = es ++ ((fun x => mk_entry x None 0) <$> xs).
Proof.
  revert es. induction xs as [|x xs IH]; intros es Hs; simpl; [by rewrite app_nil_r|].
  rewrite insert_sorted_last.
  - rewrite IH; [by rewrite <- app_assoc|]. rewrite fmap_app, <- app_assoc. exact Hs.
  - apply Forall_forall. intros e He. apply list_elem_of_lookup in He as [i Hi].
    pose proof (lookup_lt_Some _ _ _ Hi) as Hlt.
    apply (StronglySorted_lookup _ _ Hs i (length es)); [done| |].
    + rewrite lookup_app_l by (by rewrite length_fmap). by rewrite list_lookup_fmap, Hi.
    + rewrite lookup_app_r by (by rewrite length_fmap). by rewrite length_fmap, Nat.sub_diag.
Qed.
End EntryFacts.
Export EntryFacts.
