(* ===== verification/System.v ===== *)
(** What the program asks of the operating system, as an interface: the files
    it reads and writes and the programs it runs.  The code that uses it is a
    function from the state of the world to a result and a new state, written
    in a state monad.  Here are also the updates of record fields, the number
    formats of [printf], and lib/utils/path/mkdir.c, which only calls the
    system. *)

From Stdlib Require Import ZArith Lia Ascii.
From stdpp Require Import prelude gmap strings sorting.
From S2P Require Import Prelude Utils.
Import Mem.

(** * The state monad *)

Definition state (S A : Type) : Type := S -> A * S.
#[export] Instance state_ret S : MRet (state S) := fun A x s => (x, s).
#[export] Instance state_bind S : MBind (state S) := fun A B f m s => let '(x, s') := m s in f x s'.
#[export] Instance state_fmap S : FMap (state S) := fun A B f m s => let '(x, s') := m s in (f x, s').
Definition gets {S A} (f : S -> A) : state S A := fun s => (f s, s).
Definition modify {S} (f : S -> S) : state S unit := fun s => (tt, f s).
(** A loop over a list. *)
Fixpoint for_each {S A} (l : list A) (f : A -> state S unit) : state S unit :=
  match l with
  | [] => mret tt
  | x :: l' => f x ;; for_each l' f
  end.

Lemma bind_eq {S A B} (m : state S A) (f : A -> state S B) s :
  (m ≫= f) s = f (fst (m s)) (snd (m s)).
Proof. unfold mbind, state_bind. by destruct (m s). Qed.

(** * Field updates

    [r <| f := v |>] is the record [r] with the field [f] set. *)

Class Eta (R : Type) := eta : R -> R.
Class Setter {R T : Type} (proj : R -> T) := set_field : (T -> T) -> R -> R.
Arguments set_field {R T} proj {_} _ _.
Ltac solve_setter :=
  match goal with
  | |- @Setter ?R ?T ?proj =>
      let e := constr:(_ : Eta R) in
      let e := eval hnf in e in
      match eval pattern proj in e with
      | ?F _ => let t := eval cbv beta in (fun (f : T -> T) (x : R) => F (fun y : R => f (proj y)) x)
                in exact t
      end
  end.
#[export] Hint Extern 0 (@Setter _ _ _) => solve_setter : typeclass_instances.
Notation "x <| f := v |>" := (set_field f (fun _ => v) x)
  (at level 1, left associativity, f constr at level 9, format "x  <| f  :=  v |>").

(** * Number formats *)

Definition digit_char (d : Z) : byte := chr (if d <? 10 then 48 + d else 87 + d).
Fixpoint digits (fuel : nat) (base z : Z) (acc : bytes) : bytes :=
  match fuel with
  | O => acc
  | S fuel' =>
      let acc := digit_char (z mod base) :: acc in
      if z <? base then acc else digits fuel' base (z / base) acc
  end.
(** A natural number in base [base]. *)
Definition fmt (base z : Z) : bytes := digits (S (Z.to_nat (Z.log2 z))) base z [].
(** [%u] of an [unsigned int], [PRIu64], [%i], and [%#o]. *)
Definition fmt_u32 (z : Z) : bytes := fmt 10 (u32 z).
Definition fmt_u64 (z : Z) : bytes := fmt 10 (u64 z).
Definition fmt_i (z : Z) : bytes := if z <? 0 then "-"%char :: fmt 10 (- z) else fmt 10 z.
Definition fmt_o (z : Z) : bytes := if u32 z =? 0 then "0" else "0"%char :: fmt 8 (u32 z).

Lemma digit_val_char d : 0 <= d < 36 -> digit_val (digit_char d) = Some d.
Proof.
  intros Hd. unfold digit_char, digit_val. destruct (Z.ltb_spec d 10); rewrite code_chr, Z.mod_small by lia; cbv zeta.
  - rewrite !(proj2 (Z.leb_le _ _)) by lia. cbn [andb]. f_equal. lia.
  - rewrite (proj2 (Z.leb_gt (87 + d) 57)), (proj2 (Z.leb_gt (87 + d) 90)), !(proj2 (Z.leb_le _ _)) by lia. cbn [andb]. f_equal. lia.
Qed.

Lemma digits_value fuel base z :
  2 <= base <= 36 -> 0 <= z < 2 ^ Z.of_nat fuel ->
  exists k : nat, forall a acc,
    strto_digits base a (digits fuel base z acc) = strto_digits base (a * base ^ Z.of_nat k + z) acc.
Proof.
  intros Hb. revert z. induction fuel as [|fuel IH]; intros z Hz.
  - exists 0%nat. intros a acc. simpl in *. f_equal. lia.
  - cbn [digits].
    assert (forall a acc, strto_digits base a (digit_char (z mod base) :: acc)
                          = strto_digits base (a * base + z mod base) acc) as H1.
    { intros a acc. cbn [strto_digits]. pose proof (Z.mod_pos_bound z base ltac:(lia)).
      rewrite digit_val_char by lia. by rewrite (proj2 (Z.ltb_lt _ _)) by lia. }
    destruct (Z.ltb_spec z base) as [Hlt|Hge].
    + exists 1%nat. intros a acc. rewrite H1, Z.mod_small by lia. f_equal. lia.
    + pose proof (Z.div_mod z base ltac:(lia)) as Hdm.
      rewrite Nat2Z.inj_succ, Z.pow_succ_r in Hz by lia.
      destruct (IH (z / base)) as [k Hk].
      { split; [apply Z.div_pos; lia|]. apply Z.div_lt_upper_bound; [lia|]. nia. }
      exists (S k). intros a acc. rewrite Hk, H1. f_equal.
      rewrite Nat2Z.inj_succ, Z.pow_succ_r by lia. nia.
Qed.

(** Reading a number that was printed gives the number and what follows it. *)
Lemma strto_digits_fmt base z rest :
  2 <= base <= 36 -> 0 <= z ->
  (forall c d, List.hd_error rest = Some c -> digit_val c = Some d -> base <= d) ->
  strto_digits base 0 (fmt base z ++ rest) = (z, rest).
Proof.
  intros Hb Hz Hrest. assert (forall fuel x acc, digits fuel base x acc ++ rest = digits fuel base x (acc ++ rest)) as Happ.
  { induction fuel as [|fuel IH]; intros x acc; [done|]. cbn [digits].
    destruct (x <? base); [done|]. by rewrite IH. }
  unfold fmt. rewrite Happ. destruct (digits_value (S (Z.to_nat (Z.log2 z))) base z Hb) as [k Hk].
  { split; [done|]. rewrite Nat2Z.inj_succ, Z2Nat.id by apply Z.log2_nonneg.
    destruct (decide (z = 0)) as [->|]; [done|]. apply Z.log2_spec. lia. }
  rewrite Hk. destruct rest as [|c rest]; simpl; [f_equal; lia|].
  destruct (digit_val c) as [d|] eqn:Ed; [|f_equal; lia].
  rewrite (proj2 (Z.ltb_ge d base)); [f_equal; lia|]. by apply (Hrest c).
Qed.

Lemma digits_Forall_base (P : byte -> Prop) fuel base z acc :
  2 <= base -> (forall d, 0 <= d < base -> P (digit_char d)) -> Forall P acc ->
  Forall P (digits fuel base z acc).
Proof.
  intros Hb HP. revert z acc. induction fuel as [|fuel IH]; intros z acc Ha; [done|]. cbn [digits].
  pose proof (Z.mod_pos_bound z base ltac:(lia)).
  assert (Forall P (digit_char (z mod base) :: acc)) by (constructor; [apply HP; lia|done]).
  destruct (z <? base); auto.
Qed.
Lemma fmt_Forall_base (P : byte -> Prop) base z :
  2 <= base -> (forall d, 0 <= d < base -> P (digit_char d)) -> Forall P (fmt base z).
Proof. intros. by apply digits_Forall_base. Qed.
Lemma digits_Forall (P : byte -> Prop) fuel base z acc :
  2 <= base <= 10 -> (forall d, 0 <= d < 10 -> P (digit_char d)) -> Forall P acc ->
  Forall P (digits fuel base z acc).
Proof. intros Hb HP. apply digits_Forall_base; [lia|]. intros d Hd. apply HP. lia. Qed.
Lemma fmt_Forall (P : byte -> Prop) base z :
  2 <= base <= 10 -> (forall d, 0 <= d < 10 -> P (digit_char d)) -> Forall P (fmt base z).
Proof. intros. by apply digits_Forall. Qed.

Lemma digits_nonempty fuel base z c acc : digits fuel base z (c :: acc) <> [].
Proof.
  revert z c acc. induction fuel as [|fuel IH]; intros z c acc; [done|]. cbn [digits].
  destruct (z <? base); [done|]. apply IH.
Qed.
Lemma fmt_nonempty base z : fmt base z <> [].
Proof. unfold fmt. cbn [digits]. destruct (z <? base); [done|]. apply digits_nonempty. Qed.

Lemma digits_length fuel base z acc : (length (digits fuel base z acc) <= fuel + length acc)%nat.
Proof.
  revert z acc. induction fuel as [|fuel IH]; intros z acc; cbn [digits]; [lia|].
  destruct (z <? base); [simpl; lia|]. etrans; [apply IH|]. simpl. lia.
Qed.
Lemma fmt_length base z n : 0 <= z < 2 ^ Z.of_nat (S n) -> (length (fmt base z) <= S n)%nat.
Proof.
  intros Hz. unfold fmt. etrans; [apply digits_length|]. simpl.
  destruct (decide (z = 0)) as [->|]; [simpl; lia|].
  assert (Z.log2 z < Z.of_nat (S n)) by (apply Z.log2_lt_pow2; lia). lia.
Qed.

Lemma fmt_short base z n : 2 <= base -> 0 <= z < base ^ Z.of_nat (S n) -> (length (fmt base z) <= S n)%nat.
Proof.
  intros Hb. unfold fmt. generalize (S (Z.to_nat (Z.log2 z))) as fuel. intros fuel.
  cut (forall acc, 0 <= z < base ^ Z.of_nat (S n) -> (length (digits fuel base z acc) <= S n + length acc)%nat).
  { intros H Hz. specialize (H [] Hz). simpl in *. lia. }
  revert n z. induction fuel as [|fuel IH]; intros n z acc Hz; cbn [digits]; [lia|].
  destruct (Z.ltb_spec z base); [simpl; lia|]. destruct n as [|n]; [rewrite Z.pow_1_r in Hz; lia|].
  etrans; [apply (IH n)|simpl; lia]. split; [apply Z.div_pos; lia|]. apply Z.div_lt_upper_bound; [lia|].
  rewrite <- Z.pow_succ_r by lia. replace (Z.succ (Z.of_nat (S n))) with (Z.of_nat (S (S n))) by lia. lia.
Qed.

(** A property of the ten digits is checked on each of them. *)
Lemma digit_check (P : byte -> bool) :
  forallb P ["0"; "1"; "2"; "3"; "4"; "5"; "6"; "7"; "8"; "9"]%char = true ->
  forall d, 0 <= d < 10 -> P (digit_char d) = true.
Proof.
  intros H d Hd. rewrite forallb_forall in H. apply H.
  assert (d = 0 \/ d = 1 \/ d = 2 \/ d = 3 \/ d = 4 \/ d = 5 \/ d = 6 \/ d = 7 \/ d = 8 \/ d = 9) by lia.
  naive_solver.
Qed.

Lemma strto_fmt z rest :
  0 <= z -> (forall c d, List.hd_error rest = Some c -> digit_val c = Some d -> 10 <= d) ->
  strto 10 (fmt 10 z ++ rest) = (false, z, rest).
Proof.
  intros Hz Hrest. pose proof (strto_digits_fmt 10 z rest ltac:(lia) Hz Hrest) as Hd.
  pose proof (fmt_Forall (fun c => isspace c = false /\ (c ==c "-") = false /\ (c ==c "+") = false) 10 z ltac:(lia)) as Hf.
  assert (fmt 10 z <> []) as Hne by apply fmt_nonempty.
  destruct (fmt 10 z) as [|c s] eqn:E; [done|]. rewrite <- app_comm_cons in *.
  assert (isspace c = false /\ (c ==c "-") = false /\ (c ==c "+") = false) as (H1 & H2 & H3).
  { refine (Forall_inv (Hf _)). intros d Hdr.
    pose proof (digit_check (fun c => negb (isspace c) && negb (c ==c "-") && negb (c ==c "+")) eq_refl d Hdr) as Hc.
    simpl in Hc. by destruct (isspace _), (_ ==c "-"), (_ ==c "+"). }
  unfold strto. cbn [skip_space]. rewrite H1, H2, H3, Hd.
  rewrite (proj2 (Nat.eqb_neq _ _)); [done|]. simpl. rewrite length_app. lia.
Qed.

Lemma strtoul_fmt z rest :
  0 <= z < 2 ^ 64 -> (forall c d, List.hd_error rest = Some c -> digit_val c = Some d -> 10 <= d) ->
  strtoul 10 (fmt 10 z ++ rest) = (z, rest).
Proof.
  intros Hz Hrest. unfold strtoul. rewrite strto_fmt by (try done; lia).
  by rewrite (proj2 (Z.leb_gt _ _)) by lia.
Qed.

Lemma atoi_fmt z : - 2 ^ 31 <= z < 2 ^ 31 -> atoi (fmt_i z) = z.
Proof.
  intros Hz. unfold atoi, strtol, fmt_i. assert (forall x, - 2 ^ 31 <= x < 2 ^ 31 -> s32 x = x) as Hs.
  { intros x Hx. unfold swrap. rewrite Z.mod_small by lia. lia. }
  destruct (Z.ltb_spec z 0) as [Hlt|Hge].
  - unfold strto. cbn [skip_space]. replace (isspace "-") with false by done.
    rewrite Ascii.eqb_refl. rewrite <- (app_nil_r (fmt 10 (- z))) at 1.
    rewrite strto_digits_fmt by (try done; lia). cbn [length].
    pose proof (fmt_nonempty 10 (- z)). destruct (fmt 10 (- z)) eqn:E; [done|]. cbn [length Nat.eqb fst].
    rewrite Z.max_l by lia. rewrite Z.opp_involutive. by apply Hs.
  - rewrite <- (app_nil_r (fmt 10 z)). rewrite strto_fmt by (try done; lia). cbn [fst].
    rewrite Z.min_l by lia. by apply Hs.
Qed.

(** * The operating system *)

(** [st_mode] of [stat]. *)
Definition S_IFMT : Z := 0xF000.
Definition S_ISLNK (m : Z) : bool := Z.land m S_IFMT =? 0xA000.
Definition S_ISDIR (m : Z) : bool := Z.land m S_IFMT =? 0x4000.
Definition S_ISBLK (m : Z) : bool := Z.land m S_IFMT =? 0x6000.
Definition S_ISCHR (m : Z) : bool := Z.land m S_IFMT =? 0x2000.
Definition S_IRUSR : Z := 0x100.
Definition ACCESSPERMS : Z := 0x1FF.
Definition ENOENT : Z := 2.
Definition EEXIST : Z := 17.
Definition ENOTDIR : Z := 20.

(** The contents of a file that can be read, the target of a link, the mode
    of a file, the names in a directory; the calls that change the file
    system return 0 or the error.  [sys_properties] are the properties of the
    library context, which are set when the daemon is told so and are constant
    while a device is handled. *)
Class System := {
  world : Type;
  sys_properties : list (bytes * bytes);
  sys_read_file : bytes -> state world (option bytes);
  sys_readlink : bytes -> state world (option bytes);
  sys_lstat : bytes -> state world (option Z);
  sys_stat : bytes -> state world (option Z);
  sys_readdir : bytes -> state world (option (list bytes));
  sys_create : bytes -> state world Z;
  sys_chmod : bytes -> Z -> state world Z;
  sys_write : bytes -> bytes -> state world Z;
  sys_mkdir : bytes -> Z -> state world Z;
  sys_rename : bytes -> bytes -> state world Z;
  sys_unlink : bytes -> state world Z
}.

(** A file system of regular files, for examples. *)
Definition file_system : System := {|
  world := gmap bytes bytes;
  sys_properties := [];
  sys_read_file := fun p w => (w !! p, w);
  sys_readlink := fun p w => (None, w);
  sys_lstat := fun p w => ((fun _ => 0x81A4) <$> w !! p, w);
  sys_stat := fun p w => ((fun _ => 0x81A4) <$> w !! p, w);
  sys_readdir := fun p w => (None, w);
  sys_create := fun p w => (0, <[p := []]> w);
  sys_chmod := fun p m w => (0, w);
  sys_write := fun p s w => (0, <[p := default [] (w !! p) ++ s]> w);
  sys_mkdir := fun p m w => (0, w);
  sys_rename := fun p q w => match w !! p with Some s => (0, <[q := s]> (delete p w)) | None => (ENOENT, w) end;
  sys_unlink := fun p w => (0, delete p w)
|}.

(** The lines a loop over [fgets] sees, as C strings. *)
Fixpoint file_lines_loop (fuel size : nat) (f : bytes) : list bytes :=
  match fuel with
  | O => []
  | S fuel' =>
      match fgets size f with
      | None => []
      | Some (chunk, f') => until_nul chunk :: file_lines_loop fuel' size f'
      end
  end.
Definition file_lines (size : nat) (f : bytes) : list bytes := file_lines_loop (S (length f)) size f.

(** * lib/utils/path/mkdir.c *)

Section mkdir.
Context `{SY : System}.

(** The loop of [path_mkdir]: [dir] is what was copied of the path.  The first
    directory is never created. *)
Fixpoint path_mkdir_loop (path dir : bytes) (first : bool) (mode : Z) : state world Z :=
  match path with
  | [] => mret 0
  | c :: path' =>
      let dir := dir ++ [c] in
      match path' with
      | c' :: _ =>
          if c' ==c "/" then
            if first then path_mkdir_loop path' dir false mode
            else
              e ← sys_mkdir dir mode;
              if e =? 0 then path_mkdir_loop path' dir false mode
              else if e =? EEXIST then
                st ← sys_stat dir;
                match st with
                | None => mret (-1)
                | Some m => if S_ISDIR m then path_mkdir_loop path' dir false mode else mret (-1)
                end
              else if negb (e =? ENOENT) then mret (-1)
              else path_mkdir_loop path' dir false mode
          else path_mkdir_loop path' dir first mode
      | [] => path_mkdir_loop path' dir first mode
      end
  end.
Definition path_mkdir (path : bytes) (mode : Z) : state world Z := path_mkdir_loop path [] true mode.
Definition path_create : bytes -> Z -> state world Z := path_mkdir.
End mkdir.

