(* ===== verification/Device.v ===== *)
(** lib/device/libudev-device.c and libudev-device-private.c: a device, its
    properties, tags and links, and what is read from and written to the
    database in /run/udev/data.  The lists of a device are the abstract lists
    that UdevList proves its store to implement.  Reading a property loads the
    uevent file and the database of the device when they are not loaded yet,
    and that sets properties in turn; the recursion is cut by flags, and the
    model follows it to the depth the flags allow. *)

From Stdlib Require Import ZArith Lia Ascii.
From stdpp Require Import prelude gmap strings sorting.
From S2P Require Import Prelude Utils Strings Encode System UdevList.
Import Mem.

Module Device.

(** * The device *)

(** [devpath] is a pointer into [syspath], see below; [sysnum] is the string
    it points to.  The members [udev], [parent_device] and [refcount] are not
    here: parents are kept by the event. *)
Record udev_device := mk_device {
  d_syspath : option bytes;
  d_sysname : option bytes;
  d_sysnum : option bytes;
  d_devnode : option bytes;
  d_devnode_mode : Z;
  d_devnode_uid : Z;
  d_devnode_gid : Z;
  d_subsystem : option bytes;
  d_devtype : option bytes;
  d_driver : option bytes;
  d_action : Z;
  d_devpath_old : option bytes;
  d_id_filename : option bytes;
  d_envp : list nat;
  d_monitor_buf : bytes;
  d_monitor_buf_len : nat;
  d_devlinks_list : list entry;
  d_properties_list : list entry;
  d_sysattr_value_list : list entry;
  d_tags_list : list entry;
  d_seqnum : Z;
  d_usec_initialized : Z;
  d_devlink_priority : Z;
  d_devnum : Z;
  d_ifindex : Z;
  d_watch_handle : Z;
  d_maj : Z;
  d_min : Z;
  d_parent_set : bool;
  d_subsystem_set : bool;
  d_devtype_set : bool;
  d_devlinks_uptodate : bool;
  d_envp_uptodate : bool;
  d_tags_uptodate : bool;
  d_driver_set : bool;
  d_info_loaded : bool;
  d_db_loaded : bool;
  d_uevent_loaded : bool;
  d_is_initialized : bool;
  d_db_persist : bool
}.
#[export] Instance device_eta : Eta udev_device := fun x => mk_device
  (d_syspath x) (d_sysname x) (d_sysnum x) (d_devnode x) (d_devnode_mode x)
  (d_devnode_uid x) (d_devnode_gid x) (d_subsystem x) (d_devtype x) (d_driver x)
  (d_action x) (d_devpath_old x) (d_id_filename x) (d_envp x) (d_monitor_buf x)
  (d_monitor_buf_len x) (d_devlinks_list x) (d_properties_list x)
  (d_sysattr_value_list x) (d_tags_list x) (d_seqnum x) (d_usec_initialized x)
  (d_devlink_priority x) (d_devnum x) (d_ifindex x) (d_watch_handle x) (d_maj x)
  (d_min x) (d_parent_set x) (d_subsystem_set x) (d_devtype_set x)
  (d_devlinks_uptodate x) (d_envp_uptodate x) (d_tags_uptodate x) (d_driver_set x)
  (d_info_loaded x) (d_db_loaded x) (d_uevent_loaded x) (d_is_initialized x)
  (d_db_persist x).

(** The device number of the C library: 12 and 20 bits of the major number,
    8 and 24 of the minor number. *)
Definition makedev (maj min : Z) : Z :=
  let maj := u32 maj in
  let min := u32 min in
  Z.lor (Z.lor (Z.shiftl (Z.land maj 0xfff) 8) (Z.shiftl (Z.land maj 0xfffff000) 32))
        (Z.lor (Z.land min 0xff) (Z.shiftl (Z.land min 0xffffff00) 12)).
Definition major (dev : Z) : Z :=
  Z.lor (Z.land (Z.shiftr dev 8) 0xfff) (Z.land (Z.shiftr dev 32) 0xfffff000).
Definition minor (dev : Z) : Z :=
  Z.lor (Z.land dev 0xff) (Z.land (Z.shiftr dev 12) 0xffffff00).

(** ** action.h *)

Definition actions : list bytes :=
  ["add" : bytes; "remove" : bytes; "change" : bytes; "move" : bytes; "online" : bytes; "offline" : bytes].
Definition ACTION_ADD : Z := 0.
Definition ACTION_REMOVE : Z := 1.
Definition ACTION_COUNT : Z := 6.
Fixpoint set_action_loop (action : bytes) (act : Z) (l : list bytes) : option Z :=
  match l with
  | [] => None
  | a :: l' => if str_eq (Some action) (Some a) then Some act else set_action_loop action (act + 1) l'
  end.
(** The new action, or failure. *)
Definition device_set_action (action : bytes) : option Z := set_action_loop action 0 actions.

(** [udev_device_new]: [global] are the properties of the library context. *)
Definition device_new : udev_device :=
  mk_device None None None None 0 0 0 None None None (-1) None None [] [] 0 [] [] [] [] 0 0 0 0 0 (-1) 0 0
    false false false false false false false false false false false false.

Definition prop_get (d : udev_device) (key : bytes) : option bytes :=
  e ← spec_find (d_properties_list d) key; e_value e.
Definition devpath (d : udev_device) : option bytes := drop 4 <$> d_syspath d.
(** In a device that was set up the path is set; the code does not test it. *)
Definition syspath (d : udev_device) : bytes := default [] (d_syspath d).
Definition props (f : list entry -> list entry) (d : udev_device) : udev_device :=
  d <| d_properties_list := f (d_properties_list d) |>.

(** The last [c] of [s]: what is in front of it and what follows. *)
Fixpoint strrchr (s : bytes) (c : byte) : option (bytes * bytes) :=
  match s with
  | [] => None
  | x :: s' =>
      match strrchr s' c with
      | Some (a, b) => Some (x :: a, b)
      | None => if x ==c c then Some ([], s') else None
      end
  end.
Definition isdigit (c : byte) : bool := (48 <=? code c) && (code c <=? 57).
Definition strtoull10 (s : bytes) : Z := fst (strtoul 10 s).

(** The loop over the trailing digits: [len], and [sysnum] when it was set. *)
Fixpoint sysnum_loop (sysname : bytes) (len : nat) (sysnum : option bytes) : nat * option bytes :=
  match len with
  | O => (O, sysnum)
  | S len' =>
      if isdigit (nth len' sysname nul) then sysnum_loop sysname len' (Some (drop len' sysname))
      else (len', sysnum)
  end.

(** A computation on the device and the world. *)
Abbreviation D := (state (world * udev_device)).

Section device.
Context `{SY : System}.
Definition field {A} (f : udev_device -> A) : D A := gets (f ∘ snd).
Definition update (f : udev_device -> udev_device) : D unit := modify (fun '(w, d) => (w, f d)).
(** A system call. *)
Definition sys {A} (m : state world A) : D A := fun '(w, d) => let '(x, w') := m w in (x, (w', d)).

(** ** Properties

    [properties] is [udev_device_get_properties_list_entry], which this part
    of the code and itself call each other. *)
Section open.
Context (properties : D (list entry)).

(** The entry that was added, by name. *)
Definition udev_device_add_property_open (key : bytes) (value : option bytes) : D (option bytes) :=
  update (fun d => d <| d_envp_uptodate := false |>) ;;
  match value with
  | None => properties ;; update (props (fun es => spec_delete es key)) ;; mret None
  | Some v => update (props (fun es => spec_add true es key (Some v))) ;; mret (Some key)
  end.
Definition udev_list_entry_set_num_of (e : option bytes) (num : Z) : D unit :=
  match e with
  | None => mret tt
  | Some name => update (props (fun es => spec_set_num es name num))
  end.
Definition set_property (key value : bytes) : D unit :=
  udev_device_add_property_open key (Some value) ;; mret tt.

Definition udev_device_add_property_from_string_open (property : bytes) : D (option bytes) :=
  let name := fst (strscpy UTIL_LINE_SIZE property) in
  match split_chr name "=" with
  | (_, None) => mret None
  | (name, Some val) => udev_device_add_property_open name (match val with [] => None | _ => Some val end)
  end.

Definition udev_device_set_devtype (devtype : bytes) : D unit :=
  update (fun d => d <| d_devtype := Some devtype |> <| d_devtype_set := true |>) ;;
  set_property "DEVTYPE" devtype.
Definition udev_device_set_subsystem (subsystem : bytes) : D unit :=
  update (fun d => d <| d_subsystem := Some subsystem |> <| d_subsystem_set := true |>) ;;
  set_property "SUBSYSTEM" subsystem.
Definition udev_device_set_driver (driver : bytes) : D unit :=
  update (fun d => d <| d_driver := Some driver |> <| d_driver_set := true |>) ;;
  set_property "DRIVER" driver.
Definition udev_device_set_seqnum (seqnum : Z) : D unit :=
  update (fun d => d <| d_seqnum := seqnum |>) ;; set_property "SEQNUM" (fmt_u64 seqnum).
Definition udev_device_set_ifindex (ifindex : Z) : D unit :=
  update (fun d => d <| d_ifindex := ifindex |>) ;; set_property "IFINDEX" (fmt_u32 ifindex).
Definition udev_device_set_devnum (devnum : Z) : D unit :=
  update (fun d => d <| d_devnum := devnum |>) ;;
  set_property "MAJOR" (fmt_u32 (major devnum)) ;; set_property "MINOR" (fmt_u32 (minor devnum)).
Definition udev_device_set_devpath_old (devpath_old : bytes) : D unit :=
  update (fun d => d <| d_devpath_old := Some devpath_old |>) ;; set_property "DEVPATH_OLD" devpath_old.
Definition udev_device_set_devnode_mode (mode : Z) : D unit :=
  update (fun d => d <| d_devnode_mode := mode |>) ;; set_property "DEVMODE" (fmt_o mode).
Definition udev_device_set_devnode_uid (uid : Z) : D unit :=
  update (fun d => d <| d_devnode_uid := uid |>) ;; set_property "DEVUID" (fmt_u32 uid).
Definition udev_device_set_devnode_gid (gid : Z) : D unit :=
  update (fun d => d <| d_devnode_gid := gid |>) ;; set_property "DEVGID" (fmt_u32 gid).
Definition udev_device_set_usec_initialized (usec : Z) : D unit :=
  update (fun d => d <| d_usec_initialized := usec |>) ;; set_property "USEC_INITIALIZED" (fmt_u64 usec).
Definition udev_device_set_devnode (devnode : bytes) : D unit :=
  let devnode := if nth 0 devnode nul ==c "/" then devnode else "/dev/" ++ devnode in
  update (fun d => d <| d_devnode := Some devnode |>) ;; set_property "DEVNAME" devnode.
Definition udev_device_set_action (action : bytes) : D Z :=
  match device_set_action action with
  | None => mret (-1)
  | Some act => update (fun d => d <| d_action := act |>) ;; set_property "ACTION" action ;; mret 0
  end.

Definition udev_device_set_syspath (path : bytes) : D Z :=
  update (fun d => d <| d_syspath := Some path |>) ;;
  set_property "DEVPATH" (drop 4 path) ;;
  match strrchr path "/" with
  | None => mret (- EINVAL)
  | Some (_, name) =>
      let sysname := (fun c => if c ==c "!" then "/"%char else c) <$> name in
      update (fun d =>
        let '(len, num) := sysnum_loop sysname (length sysname) (d_sysnum d) in
        d <| d_sysname := Some sysname |> <| d_sysnum := if (len =? 0)%nat then None else num |>) ;;
      mret 0
  end.

Definition udev_device_add_devlink (devlink : bytes) : D unit :=
  update (fun d => d <| d_devlinks_uptodate := false |>
                     <| d_devlinks_list := spec_add true (d_devlinks_list d) devlink None |>).
Definition udev_device_add_tag (tag : bytes) : D Z :=
  match strchr tag ":", strchr tag " " with
  | None, None =>
      update (fun d => d <| d_tags_uptodate := false |> <| d_tags_list := spec_add true (d_tags_list d) tag None |>) ;;
      mret 0
  | _, _ => mret (- EINVAL)
  end.
Definition udev_device_set_devlink_priority (prio : Z) : D unit :=
  update (fun d => d <| d_devlink_priority := prio |>).
Definition udev_device_set_watch_handle (handle : Z) : D unit :=
  update (fun d => d <| d_watch_handle := handle |>).

(** lib/libudev-util.c: the value and what [strscpy] returns, or -1. *)
Definition util_get_sys_core_link_value (slink path : bytes) (size : nat) : state world (option (bytes * nat)) :=
  let path := fst (strscpyl UTIL_PATH_SIZE [path; "/" : bytes; slink]) in
  target ← sys_readlink path;
  match target with
  | None => mret None
  | Some target =>
      if (length target =? 0)%nat || (UTIL_PATH_SIZE <=? length target)%nat then mret None
      else match strrchr target "/" with
           | None => mret None
           | Some (_, pos) => mret (Some (strscpy size pos))
           end
  end.

(** ** The uevent file *)

(** A line of the file; [mm] are the local [maj] and [min]. *)
Definition uevent_line (line : bytes) (mm : Z * Z) : D (Z * Z) :=
  match split_chr line newline with
  | (_, None) => mret mm
  | (line, Some _) =>
      if startswith line "DEVTYPE=" is Some v then udev_device_set_devtype v ;; mret mm
      else if startswith line "IFINDEX=" is Some v then udev_device_set_ifindex (s32 (strtoull10 v)) ;; mret mm
      else if startswith line "DEVNAME=" is Some v then udev_device_set_devnode v ;; mret mm
      else
        mm ← (if startswith line "MAJOR=" is Some v then mret (s32 (strtoull10 v), snd mm)
              else if startswith line "MINOR=" is Some v then mret (fst mm, s32 (strtoull10 v))
              else if startswith line "DEVMODE=" is Some v
              then update (fun d => d <| d_devnode_mode := Z.land ACCESSPERMS (fst (strtoul 8 v)) |>) ;; mret mm
              else mret mm) ;
        udev_device_add_property_from_string_open line ;; mret mm
  end.
Fixpoint uevent_lines (lines : list bytes) (mm : Z * Z) : D (Z * Z) :=
  match lines with
  | [] => mret mm
  | line :: lines' => mm ← uevent_line line mm; uevent_lines lines' mm
  end.
(** The error is -1 here; nothing looks at it. *)
Definition udev_device_read_uevent_file_open : D Z :=
  loaded ← field d_uevent_loaded;
  if (loaded : bool) then mret 0
  else
    d ← field id;
    f ← sys (sys_read_file (fst (strscpyl UTIL_PATH_SIZE [syspath d; "/uevent" : bytes])));
    match f with
    | None => mret (-1)
    | Some f =>
        update (fun d => d <| d_uevent_loaded := true |>) ;;
        '(maj, min) ← uevent_lines (file_lines UTIL_LINE_SIZE f) (0, 0);
        update (fun d => d <| d_devnum := makedev maj min |>) ;;
        mret 0
    end.

Definition load_uevent : D unit :=
  info ← field d_info_loaded;
  if (info : bool) then mret tt else udev_device_read_uevent_file_open ;; mret tt.
Definition udev_device_get_ifindex_open : D Z := load_uevent ;; field d_ifindex.
Definition udev_device_get_devnum_open : D Z := load_uevent ;; field d_devnum.
Definition udev_device_get_devnode_mode_open : D Z := load_uevent ;; field d_devnode_mode.
Definition udev_device_get_devnode_uid_open : D Z := load_uevent ;; field d_devnode_uid.
Definition udev_device_get_devnode_gid_open : D Z := load_uevent ;; field d_devnode_gid.
Definition udev_device_get_devnode_open : D (option bytes) :=
  n ← field d_devnode;
  match n with
  | Some _ => mret n
  | None => load_uevent ;; field d_devnode
  end.
Definition udev_device_get_devtype_open : D (option bytes) :=
  set ← field d_devtype_set;
  (if (set : bool) then mret tt
   else update (fun d => d <| d_devtype_set := true |>) ;; udev_device_read_uevent_file_open ;; mret tt) ;;
  field d_devtype.
Definition udev_device_get_driver : D (option bytes) :=
  set ← field d_driver_set;
  (if (set : bool) then mret tt
   else
     update (fun d => d <| d_driver_set := true |>) ;;
     d ← field id;
     r ← sys (util_get_sys_core_link_value "driver" (syspath d) UTIL_NAME_SIZE);
     match r with
     | Some (driver, S _) => update (fun d => d <| d_driver := Some driver |>)
     | _ => mret tt
     end) ;;
  field d_driver.
Definition udev_device_get_subsystem : D (option bytes) :=
  set ← field d_subsystem_set;
  (if (set : bool) then mret tt
   else
     update (fun d => d <| d_subsystem_set := true |>) ;;
     d ← field id;
     r ← sys (util_get_sys_core_link_value "subsystem" (syspath d) UTIL_NAME_SIZE);
     let path := default [] (devpath d) in
     match r with
     | Some (subsystem, S _) => udev_device_set_subsystem subsystem
     | _ =>
         if startswith path "/module/" is Some _ then udev_device_set_subsystem "module"
         else if strstr path "/drivers/" is Some _ then udev_device_set_subsystem "drivers"
         else if startswith path "/subsystem/" is Some _ then udev_device_set_subsystem "subsystem"
         else if startswith path "/class/" is Some _ then udev_device_set_subsystem "subsystem"
         else if startswith path "/bus/" is Some _ then udev_device_set_subsystem "subsystem"
         else mret tt
     end) ;;
  field d_subsystem.

(** ** The database *)

(** The name of the database file: the device number, the index of the
    network interface, or subsystem and name. *)
Definition id_devnum (subsystem : bytes) (maj min : Z) : bytes :=
  (if str_eq (Some subsystem) (Some ("block" : bytes)) then "b"%char else "c"%char)
  :: fmt_u32 maj ++ ":"%char :: fmt_u32 min.
Definition id_ifindex (ifindex : Z) : bytes := "n"%char :: fmt_u32 ifindex.
Definition id_sysname (subsystem sysname : bytes) : bytes := "+"%char :: subsystem ++ ":"%char :: sysname.
(** The numbers are read again for the name, as the code does. *)
Definition udev_device_get_id_filename_open : D (option bytes) :=
  id ← field d_id_filename;
  match id with
  | Some _ => mret id
  | None =>
      subsystem ← udev_device_get_subsystem;
      match subsystem with
      | None => mret None
      | Some _ =>
          devnum ← udev_device_get_devnum_open;
          id ← (if 0 <? major devnum then
                  subsystem ← udev_device_get_subsystem;
                  devnum1 ← udev_device_get_devnum_open;
                  devnum2 ← udev_device_get_devnum_open;
                  mret (Some (id_devnum (default [] subsystem) (major devnum1) (minor devnum2)))
                else
                  ifindex ← udev_device_get_ifindex_open;
                  if 0 <? ifindex then
                    ifindex ← udev_device_get_ifindex_open;
                    mret (Some (id_ifindex ifindex))
                  else
                    d ← field (fun d => d);
                    match strrchr (default [] (devpath d)) "/" with
                    | None => mret None
                    | Some (_, sysname) =>
                        subsystem ← udev_device_get_subsystem;
                        mret (Some (id_sysname (default [] subsystem) sysname))
                    end);
          match id with
          | None => mret None
          | Some id => update (fun d => d <| d_id_filename := Some id |>) ;; mret (Some id)
          end
      end
  end.

(** A line of the database, without the newline. *)
Definition db_line (line : bytes) : D unit :=
  let val := drop 2 line in
  match line with
  | c :: _ =>
      if c ==c "S" then udev_device_add_devlink (fst (strscpyl UTIL_PATH_SIZE ["/dev/" : bytes; val]))
      else if c ==c "L" then udev_device_set_devlink_priority (atoi val)
      else if c ==c "E" then
        e ← udev_device_add_property_from_string_open val;
        udev_list_entry_set_num_of e 1
      else if c ==c "G" then udev_device_add_tag val ;; mret tt
      else if c ==c "W" then udev_device_set_watch_handle (atoi val)
      else if c ==c "I" then udev_device_set_usec_initialized (strtoull10 val)
      else mret tt
  | [] => mret tt
  end.
Fixpoint db_lines (lines : list bytes) : D unit :=
  match lines with
  | [] => mret tt
  | line :: lines' =>
      if (length line <? 4)%nat then mret tt
      else db_line (take (length line - 1) line) ;; db_lines lines'
  end.
Definition UDEVRUNDIR : bytes := "/run/udev".
Definition read_db_file (dbfile : bytes) : D Z :=
  f ← sys (sys_read_file dbfile);
  match f with
  | None => mret (-1)
  | Some f =>
      update (fun d => d <| d_is_initialized := true |>) ;;
      db_lines (file_lines UTIL_LINE_SIZE f) ;;
      mret 0
  end.
Definition udev_device_read_db_open (dbfile : option bytes) : D Z :=
  match dbfile with
  | Some f => read_db_file f
  | None =>
      loaded ← field d_db_loaded;
      if (loaded : bool) then mret 0
      else
        update (fun d => d <| d_db_loaded := true |>) ;;
        id ← udev_device_get_id_filename_open;
        match id with
        | None => mret (-1)
        | Some id => read_db_file (fst (strscpyl UTIL_PATH_SIZE [UDEVRUNDIR ++ "/data/"; id]))
        end
  end.
Definition load_db : D unit :=
  info ← field d_info_loaded;
  if (info : bool) then mret tt else udev_device_read_db_open None ;; mret tt.

(** ** The property list *)

Definition udev_device_get_devlinks_list_entry_open : D (list entry) := load_db ;; field d_devlinks_list.
Definition udev_device_get_tags_list_entry_open : D (list entry) := load_db ;; field d_tags_list.
(** The values of DEVLINKS and TAGS. *)
Definition devlinks_value (es : list entry) : bytes :=
  match es with
  | [] => []
  | e :: es' => out (fold_left (fun d e => strpcpyl d [" " : bytes; e_name e]) es'
                       (strpcpyl (dst_new UTIL_PATH_SIZE) [e_name e]))
  end.
Definition tags_value (es : list entry) : bytes :=
  out (fold_left (fun d e => strpcpyl d [e_name e; ":" : bytes]) es
         (strpcpyl (dst_new UTIL_PATH_SIZE) [":" : bytes])).
Definition udev_device_get_properties_list_entry_open : D (list entry) :=
  load_uevent ;;
  load_db ;;
  links ← field d_devlinks_uptodate;
  (if (links : bool) then mret tt
   else
     update (fun d => d <| d_devlinks_uptodate := true |>) ;;
     es ← udev_device_get_devlinks_list_entry_open;
     match es with
     | [] => mret tt
     | _ => set_property "DEVLINKS" (devlinks_value es)
     end) ;;
  tags ← field d_tags_uptodate;
  (if (tags : bool) then mret tt
   else
     update (fun d => d <| d_tags_uptodate := true |>) ;;
     es ← udev_device_get_tags_list_entry_open;
     match es with
     | [] => mret tt
     | _ => es ← udev_device_get_tags_list_entry_open; set_property "TAGS" (tags_value es)
     end) ;;
  field d_properties_list.
End open.

(** The list, to depth [n] of the recursion. *)
Fixpoint properties_at (n : nat) : D (list entry) :=
  match n with
  | O => field d_properties_list
  | S n' => udev_device_get_properties_list_entry_open (properties_at n')
  end.
(** The two files are loaded once, so the recursion is at most three deep. *)
Definition udev_device_get_properties_list_entry : D (list entry) := properties_at 3.
Abbreviation self := udev_device_get_properties_list_entry.
Definition udev_device_add_property := udev_device_add_property_open self.
Definition udev_device_add_property_from_string := udev_device_add_property_from_string_open self.
Definition udev_device_read_uevent_file := udev_device_read_uevent_file_open self.
Definition udev_device_get_ifindex := udev_device_get_ifindex_open self.
Definition udev_device_get_devnum := udev_device_get_devnum_open self.
Definition udev_device_get_devnode_mode := udev_device_get_devnode_mode_open self.
Definition udev_device_get_devnode_uid := udev_device_get_devnode_uid_open self.
Definition udev_device_get_devnode_gid := udev_device_get_devnode_gid_open self.
Definition udev_device_get_devnode := udev_device_get_devnode_open self.
Definition udev_device_get_devtype := udev_device_get_devtype_open self.
Definition udev_device_get_id_filename := udev_device_get_id_filename_open self.
Definition udev_device_read_db := udev_device_read_db_open self.
Definition udev_device_get_devlinks_list_entry := udev_device_get_devlinks_list_entry_open self.
Definition udev_device_get_tags_list_entry := udev_device_get_tags_list_entry_open self.

Definition udev_device_get_property_value (key : bytes) : D (option bytes) :=
  es ← udev_device_get_properties_list_entry;
  mret (e ← spec_find es key; e_value e).
Definition udev_device_get_action : D (option bytes) :=
  act ← field d_action;
  mret (if (act <? 0) || (ACTION_COUNT <=? act) then None else actions !! Z.to_nat act).
Definition udev_device_action : D Z := field d_action.
Definition udev_device_has_tag (tag : bytes) : D bool :=
  load_db self ;;
  es ← udev_device_get_tags_list_entry;
  mret (bool_decide (is_Some (spec_find es tag))).
Definition udev_device_cleanup_devlinks_list : D unit :=
  update (fun d => d <| d_devlinks_uptodate := false |> <| d_devlinks_list := [] |>).
Definition udev_device_cleanup_tags_list : D unit :=
  update (fun d => d <| d_tags_uptodate := false |> <| d_tags_list := [] |>).
Definition udev_device_get_devlink_priority : D Z := load_db self ;; field d_devlink_priority.
Definition udev_device_get_watch_handle : D Z := load_db self ;; field d_watch_handle.
Definition udev_device_get_is_initialized : D bool := load_db self ;; field d_is_initialized.
Definition udev_device_set_is_initialized : D unit := update (fun d => d <| d_is_initialized := true |>).
Definition udev_device_set_info_loaded : D unit := update (fun d => d <| d_info_loaded := true |>).
Definition udev_device_set_db_persist : D unit := update (fun d => d <| d_db_persist := true |>).

(** ** Writing the database *)

Definition device_has_info : D bool :=
  es ← udev_device_get_devlinks_list_entry;
  if bool_decide (es <> []) then mret true else
  prio ← udev_device_get_devlink_priority;
  if negb (prio =? 0) then mret true else
  es ← udev_device_get_properties_list_entry;
  if existsb (fun e => negb (e_num e =? 0)) es then mret true else
  es ← udev_device_get_tags_list_entry;
  if bool_decide (es <> []) then mret true else
  handle ← udev_device_get_watch_handle;
  mret (0 <=? handle).

(** The records of the file, and a record as a line. *)
Definition db_records (node : bool) (links : list entry) (prio handle usec : Z) (es tags : list entry)
    : list (byte * bytes) :=
  (if node then
     ((fun e => ("S"%char, drop 5 (e_name e))) <$> links) ++
     (if negb (prio =? 0) then [("L"%char, fmt_i prio)] else []) ++
     (if 0 <=? handle then [("W"%char, fmt_i handle)] else [])
   else []) ++
  (if 0 <? usec then [("I"%char, fmt_u64 usec)] else []) ++
  ((fun e => ("E"%char, e_name e ++ "="%char :: default [] (e_value e))) <$> filter (fun e => e_num e <> 0) es) ++
  ((fun e => ("G"%char, e_name e)) <$> tags).
Definition record_line (r : byte * bytes) : bytes := fst r :: ":"%char :: snd r ++ [newline].
Definition db_text (node : bool) (links : list entry) (prio handle usec : Z) (es tags : list entry) : bytes :=
  mjoin (record_line <$> db_records node links prio handle usec es tags).
Definition db_contents : D bytes :=
  devnum ← udev_device_get_devnum;
  let node := 0 <? major devnum in
  links ← (if node then udev_device_get_devlinks_list_entry else mret []);
  prio ← (if node then udev_device_get_devlink_priority else mret 0);
  handle ← (if node then udev_device_get_watch_handle else mret (-1));
  usec ← field d_usec_initialized;
  es ← udev_device_get_properties_list_entry;
  tags ← udev_device_get_tags_list_entry;
  mret (db_text node links prio handle usec es tags).
Definition db_filename (id : bytes) : bytes := fst (strscpyl UTIL_PATH_SIZE [UDEVRUNDIR ++ "/data/"; id]).

Definition udev_device_update_db : D Z :=
  id ← udev_device_get_id_filename;
  match id with
  | None => mret (-1)
  | Some id =>
      has_info ← device_has_info;
      let filename := db_filename id in
      empty ← (if has_info then mret false
               else devnum ← udev_device_get_devnum;
                    if major devnum =? 0
                    then ifindex ← udev_device_get_ifindex; mret (ifindex =? 0)
                    else mret false);
      if (empty : bool) then sys (sys_unlink filename) ;; mret 0
      else
        let filename_tmp := fst (strscpyl UTIL_PATH_SIZE [filename; ".tmp" : bytes]) in
        sys (path_create filename_tmp 0x1ED) ;;
        e ← sys (sys_create filename_tmp);
        if negb (e =? 0) then mret (-1)
        else
          persist ← field d_db_persist;
          (if (persist : bool) then sys (sys_chmod filename_tmp 0x3A4) ;; mret tt else mret tt) ;;
          text ← (if (has_info : bool) then db_contents else mret []);
          sys (sys_write filename_tmp text) ;;
          r ← sys (sys_rename filename_tmp filename);
          mret (if r =? 0 then 0 else -1)
  end.
Definition udev_device_delete_db : D Z :=
  id ← udev_device_get_id_filename;
  match id with
  | None => mret (-1)
  | Some id => sys (sys_unlink (db_filename id)) ;; mret 0
  end.

(** ** The index of the tags *)

Definition udev_device_tag (tag : bytes) (add : bool) : D unit :=
  id ← udev_device_get_id_filename;
  match id with
  | None => mret tt
  | Some id =>
      let filename := fst (strscpyl UTIL_PATH_SIZE [UDEVRUNDIR ++ "/tags/"; tag; "/" : bytes; id]) in
      if add then sys (path_create filename 0x1ED) ;; sys (sys_create filename) ;; mret tt
      else sys (sys_unlink filename) ;; mret tt
  end.

(** ** The environment of programs and the messages of the monitor *)

Definition ENVP_SIZE : nat := 128.
Definition MONITOR_BUF_SIZE : nat := 4096.
(** [envp] holds the offsets in the buffer; [None] is -EINVAL. *)
Fixpoint envp_loop (es : list entry) (envp : list nat) (s : dst) : option (list nat * dst) :=
  match es with
  | [] => Some (envp, s)
  | e :: es' =>
      if nth 0 (e_name e) nul ==c "." then envp_loop es' envp s
      else
        let envp := envp ++ [length (out s)] in
        if (ENVP_SIZE <=? length envp + 1)%nat then None
        else
          let s := strpcpyl s [e_name e; "=" : bytes; default [] (e_value e)] in
          if (left_ s =? 0)%nat then None
          else envp_loop es' envp (mk_dst (out s ++ [nul]) (left_ s - 1))
  end.
Definition update_envp_monitor_buf : D Z :=
  update (fun d => d <| d_monitor_buf_len := 0%nat |>) ;;
  es ← udev_device_get_properties_list_entry;
  match envp_loop es [] (dst_new MONITOR_BUF_SIZE) with
  | None => mret (- EINVAL)
  | Some (envp, s) =>
      update (fun d => d <| d_envp := envp |> <| d_monitor_buf := out s |>
                         <| d_monitor_buf_len := length (out s) |> <| d_envp_uptodate := true |>) ;;
      mret 0
  end.
(** The strings the array points to. *)
Definition envp_strings (envp : list nat) (buf : bytes) : list bytes :=
  (fun i => until_nul (drop i buf)) <$> envp.
Definition udev_device_get_properties_envp : D (option (list bytes)) :=
  ok ← field d_envp_uptodate;
  r ← (if (ok : bool) then mret 0 else update_envp_monitor_buf);
  if negb (r =? 0) then mret None
  else d ← field (fun d => d); mret (Some (envp_strings (d_envp d) (d_monitor_buf d))).
Definition udev_device_get_properties_monitor_buf : D (option bytes) :=
  ok ← field d_envp_uptodate;
  r ← (if (ok : bool) then mret 0 else update_envp_monitor_buf);
  if negb (r =? 0) then mret None
  else d ← field (fun d => d); mret (Some (take (d_monitor_buf_len d) (d_monitor_buf d))).

(** ** Properties from the kernel *)

Fixpoint devlinks_parse (fuel : nat) (slink : bytes) : D unit :=
  match fuel with
  | O => mret tt
  | S fuel' =>
      match split_chr slink " " with
      | (link, Some next) => udev_device_add_devlink link ;; devlinks_parse fuel' next
      | (link, None) => match link with [] => mret tt | _ => udev_device_add_devlink link end
      end
  end.
Fixpoint tags_parse (fuel : nat) (next : bytes) : D unit :=
  match fuel, next with
  | O, _ | _, [] => mret tt
  | S fuel', _ =>
      match split_chr next ":" with
      | (tag, Some next) => udev_device_add_tag tag ;; tags_parse fuel' next
      | (_, None) => mret tt
      end
  end.
Definition udev_device_add_property_from_string_parse (property : bytes) : D unit :=
  if startswith property "DEVPATH=" is Some v then
    udev_device_set_syspath self (fst (strscpyl UTIL_PATH_SIZE ["/sys" : bytes; v])) ;; mret tt
  else if startswith property "SUBSYSTEM=" is Some v then udev_device_set_subsystem self v
  else if startswith property "DEVTYPE=" is Some v then udev_device_set_devtype self v
  else if startswith property "DEVNAME=" is Some v then udev_device_set_devnode self v
  else if startswith property "DEVLINKS=" is Some v then
    let devlinks := fst (strscpy UTIL_PATH_SIZE v) in
    devlinks_parse (S (length devlinks)) devlinks
  else if startswith property "TAGS=" is Some v then
    let tags := fst (strscpy UTIL_PATH_SIZE v) in
    match split_chr tags ":" with
    | (_, Some next) => tags_parse (S (length next)) next
    | (_, None) => mret tt
    end
  else if startswith property "USEC_INITIALIZED=" is Some _ then
    udev_device_set_usec_initialized self (strtoull10 (drop 19 property))
  else if startswith property "DRIVER=" is Some v then udev_device_set_driver self v
  else if startswith property "ACTION=" is Some v then udev_device_set_action self v ;; mret tt
  else if startswith property "MAJOR=" is Some v then update (fun d => d <| d_maj := s32 (strtoull10 v) |>)
  else if startswith property "MINOR=" is Some v then update (fun d => d <| d_min := s32 (strtoull10 v) |>)
  else if startswith property "DEVPATH_OLD=" is Some v then udev_device_set_devpath_old self v
  else if startswith property "SEQNUM=" is Some v then udev_device_set_seqnum self (strtoull10 v)
  else if startswith property "IFINDEX=" is Some v then udev_device_set_ifindex self (s32 (strtoull10 v))
  else if startswith property "DEVMODE=" is Some v then
    udev_device_set_devnode_mode self (Z.land ACCESSPERMS (fst (strtoul 8 v)))
  else if startswith property "DEVUID=" is Some v then udev_device_set_devnode_uid self (u32 (strtoull10 v))
  else if startswith property "DEVGID=" is Some v then udev_device_set_devnode_gid self (u32 (strtoull10 v))
  else udev_device_add_property_from_string property ;; mret tt.
Definition udev_device_add_property_from_string_parse_finish : D Z :=
  d ← field (fun d => d);
  (if 0 <? d_maj d then udev_device_set_devnum self (makedev (d_maj d) (d_min d)) else mret tt) ;;
  update (fun d => d <| d_maj := 0 |> <| d_min := 0 |>) ;;
  d ← field (fun d => d);
  mret (match d_syspath d, d_subsystem d with Some _, Some _ => 0 | _, _ => - EINVAL end).

(** ** Attributes *)

Definition cache_sysattr (sysattr : bytes) (value : option bytes) : D unit :=
  update (fun d => d <| d_sysattr_value_list := spec_add true (d_sysattr_value_list d) sysattr value |>).
Definition udev_device_get_sysattr_value (sysattr : bytes) : D (option bytes) :=
  d ← field (fun d => d);
  match spec_find (d_sysattr_value_list d) sysattr with
  | Some e => mret (e_value e)
  | None =>
      let path := fst (strscpyl UTIL_PATH_SIZE [syspath d; "/" : bytes; sysattr]) in
      st ← sys (sys_lstat path);
      match st with
      | None => cache_sysattr sysattr None ;; mret None
      | Some mode =>
          if S_ISLNK mode then
            if bool_decide (sysattr = ("driver" : bytes)) || bool_decide (sysattr = ("subsystem" : bytes))
               || bool_decide (sysattr = ("module" : bytes)) then
              r ← sys (util_get_sys_core_link_value sysattr (syspath d) 4096);
              match r with
              | None => mret None
              | Some (value, _) => cache_sysattr sysattr (Some value) ;; mret (Some value)
              end
            else mret None
          else if S_ISDIR mode then mret None
          else if Z.land mode S_IRUSR =? 0 then mret None
          else
            f ← sys (sys_read_file path);
            match f with
            | None => mret None
            | Some f =>
                if (4096 <=? length f)%nat then mret None
                else
                  let value := util_remove_trailing_chars (until_nul f) newline in
                  cache_sysattr sysattr (Some value) ;; mret (Some value)
            end
      end
  end.

(** ** Creating devices *)

(** [udev_device_new]: the global properties are copied. *)
Definition udev_device_new : udev_device :=
  fold_left (fun d '(k, v) => props (fun es => spec_add true es k (Some v)) d) sys_properties device_new.

Fixpoint count_back (fuel : nat) (s : bytes) : nat * bytes :=
  match fuel with
  | O => (O, s)
  | S fuel' =>
      if startswith s "../" is Some s' then let '(n, r) := count_back fuel' s' in (S n, r) else (O, s)
  end.
(** [n] times the last component; [None] keeps what was cut before. *)
Fixpoint cut_last (n : nat) (s : bytes) : bytes * bool :=
  match n with
  | O => (s, true)
  | S n' => match strrchr s "/" with None => (s, false) | Some (a, _) => cut_last n' a end
  end.
(** The path after the call. *)
Definition util_resolve_sys_link (path : bytes) (size : nat) : state world bytes :=
  target ← sys_readlink path;
  match target with
  | None => mret path
  | Some target =>
      if (length target =? 0)%nat || (UTIL_PATH_SIZE <=? length target)%nat then mret path
      else
        let '(back, rest) := count_back (length target) target in
        match cut_last (S back) path with
        | (base, false) => mret base
        | (base, true) => mret (base ++ fst (strscpyl (size - length base) ["/" : bytes; rest]))
        end
  end.

(** A computation on a device of its own: the result and the device. *)
Definition run_device {A} (d : udev_device) (m : D A) : state world (A * udev_device) :=
  fun w => let '(x, (w, d)) := m (w, d) in ((x, d), w).

Definition udev_device_new_from_syspath (path : bytes) : state world (option udev_device) :=
  if startswith path "/sys" is Some subdir then
    match strrchr subdir "/" with
    | None => mret None
    | Some (a, b) =>
        if bool_decide (b = []) || (length a <? 2)%nat then mret None
        else
          path ← util_resolve_sys_link (fst (strscpy UTIL_PATH_SIZE path)) UTIL_PATH_SIZE;
          ok ← (if startswith (drop 4 path) "/devices/" is Some _ then
                  st ← sys_stat (fst (strscpyl UTIL_PATH_SIZE [path; "/uevent" : bytes]));
                  mret (bool_decide (is_Some st))
                else
                  st ← sys_stat path;
                  mret (match st with Some m => S_ISDIR m | None => false end));
          if (ok : bool) then
            '(_, d) ← run_device udev_device_new (udev_device_set_syspath self path);
            mret (Some d)
          else mret None
    end
  else mret None.

Definition first_existing (paths : list (list bytes)) : state world (option bytes) :=
  (fix go paths :=
     match paths with
     | [] => mret None
     | p :: paths' =>
         let path := fst (strscpyl UTIL_PATH_SIZE p) in
         st ← sys_stat path;
         match st with Some _ => mret (Some path) | None => go paths' end
     end) paths.
Definition udev_device_new_from_subsystem_sysname (subsystem sysname : bytes) : state world (option udev_device) :=
  path ←
    (if bool_decide (subsystem = ("subsystem" : bytes)) then
       first_existing [["/sys/subsystem/" : bytes; sysname]; ["/sys/bus/" : bytes; sysname];
                       ["/sys/class/" : bytes; sysname]]
     else if bool_decide (subsystem = ("module" : bytes)) then first_existing [["/sys/module/" : bytes; sysname]]
     else if bool_decide (subsystem = ("drivers" : bytes)) then
       match split_chr (fst (strscpy UTIL_NAME_SIZE sysname)) ":" with
       | (subsys, Some driver) =>
           first_existing [["/sys/subsystem/" : bytes; subsys; "/drivers/" : bytes; driver];
                           ["/sys/bus/" : bytes; subsys; "/drivers/" : bytes; driver]]
       | (_, None) => mret None
       end
     else
       first_existing [["/sys/subsystem/" : bytes; subsystem; "/devices/" : bytes; sysname];
                       ["/sys/bus/" : bytes; subsystem; "/devices/" : bytes; sysname];
                       ["/sys/class/" : bytes; subsystem; "/" : bytes; sysname]]);
  match path with
  | None => mret None
  | Some path => udev_device_new_from_syspath path
  end.

(** [path] is [start] and then [subdir]. *)
Fixpoint new_from_parent_loop (fuel : nat) (start subdir : bytes) : state world (option udev_device) :=
  match fuel with
  | O => mret None
  | S fuel' =>
      match strrchr subdir "/" with
      | None => mret None
      | Some (a, _) =>
          if (length a <? 2)%nat then mret None
          else
            d ← udev_device_new_from_syspath (start ++ a);
            match d with
            | Some _ => mret d
            | None => new_from_parent_loop fuel' start a
            end
      end
  end.
Definition device_new_from_parent (d : udev_device) : state world (option udev_device) :=
  let path := fst (strscpy UTIL_PATH_SIZE (syspath d)) in
  new_from_parent_loop (S (length path)) (take 5 path) (drop 5 path).

(** lib/libudev-util.c: [[subsystem/kernel]attribute]; [None] is -1. *)
Definition util_resolve_subsys_kernel (string : bytes) (maxsize : nat) (read_value : bool) : state world (option bytes) :=
  if negb (nth 0 string nul ==c "[") then mret None
  else
    let temp := fst (strscpy UTIL_PATH_SIZE string) in
    match split_chr (drop 1 temp) "/" with
    | (_, None) => mret None
    | (subsys, Some sysname) =>
        match split_chr sysname "]" with
        | (_, None) => mret None
        | (sysname, Some attr) =>
            let attr := if nth 0 attr nul ==c "/" then drop 1 attr else attr in
            if read_value && bool_decide (attr = []) then mret None
            else
              dev ← udev_device_new_from_subsystem_sysname subsys sysname;
              match dev with
              | None => mret None
              | Some d =>
                  if read_value then
                    '(val, _) ← run_device d (udev_device_get_sysattr_value attr);
                    mret (Some (match val with Some val => fst (strscpy maxsize val) | None => [] end))
                  else
                    let s := strpcpyl (dst_new maxsize) [syspath d] in
                    mret (Some (out (match attr with [] => s | _ => strpcpyl s ["/" : bytes; attr] end)))
              end
        end
    end.
End device.
End Device.
