(* ===== verification/DeviceProofs.v ===== *)
(** Properties of the device: the recursion between the property list and the
    files it is loaded from ends, the properties follow the lists of tags and
    links, and what is written to the database is read back. *)

From Stdlib Require Import ZArith Lia Ascii.
From stdpp Require Import prelude gmap strings sorting.
From S2P Require Import Prelude Utils Strings Encode System UdevList Device.
Import Mem Device.

Module DeviceProofs.

(** * The recursion *)

Section recursion.
Context `{SY : System}.
Abbreviation St := (world * udev_device)%type.

Lemma D_bind_eq {A B} (m : D A) (f : A -> D B) s : (m ≫= f) s = f (fst (m s)) (snd (m s)).
Proof. apply bind_eq. Qed.

Lemma bind_field {A B} (f : udev_device -> A) (m : A -> D B) w d : (field f ≫= m) (w, d) = m (f d) (w, d).
Proof. done. Qed.
Lemma bind_update {B} f (m : unit -> D B) w d : (update f ≫= m) (w, d) = m tt (w, f d).
Proof. done. Qed.
Lemma bind_sys {A B} (c : state world A) (m : A -> D B) w d :
  (sys c ≫= m) (w, d) = m (fst (c w)) (snd (c w), d).
Proof. rewrite D_bind_eq. unfold sys. by destruct (c w). Qed.
Lemma bind_ret {A B} (x : A) (m : A -> D B) s : (mret x ≫= m) s = m x s.
Proof. done. Qed.
Lemma bind_assoc {A B C} (m : D A) (f : A -> D B) (g : B -> D C) s :
  ((m ≫= f) ≫= g) s = (m ≫= (fun x => f x ≫= g)) s.
Proof. by rewrite !D_bind_eq. Qed.

(** How often a file can still be loaded. *)
Definition depth (d : udev_device) : nat :=
  if d_info_loaded d then 0
  else (if d_uevent_loaded d then 0 else 1) + (if d_db_loaded d then 0 else 1).

(** [m] and [m'] do the same in the states of depth at most [k], and loading
    is not undone. *)
Definition agree (k : nat) {A} (m m' : D A) : Prop :=
  forall s : St, (depth (snd s) <= k)%nat -> m s = m' s /\ (depth (snd (snd (m s))) <= depth (snd s))%nat.

Lemma agree_ret k {A} (x : A) : agree k (mret x) (mret x).
Proof. intros s Hs. done. Qed.
Lemma agree_bind k {A B} (m m' : D A) (f f' : A -> D B) :
  agree k m m' -> (forall x, agree k (f x) (f' x)) -> agree k (m ≫= f) (m' ≫= f').
Proof.
  intros Hm Hf s Hs. destruct (Hm s Hs) as [He Hd]. rewrite !D_bind_eq, <- He.
  destruct (Hf (fst (m s)) (snd (m s)) ltac:(lia)) as [He' Hd']. split; [done|lia].
Qed.
Lemma agree_field k {A} (f : udev_device -> A) : agree k (field f) (field f).
Proof. intros s Hs. done. Qed.
Lemma agree_sys k {A} (m : state world A) : agree k (sys m) (sys m).
Proof. intros [w d] Hs. split; [done|]. unfold sys. by destruct (m w). Qed.
Lemma agree_update k f : (forall d, depth (f d) <= depth d)%nat -> agree k (update f) (update f).
Proof. intros Hf [w d] Hs. split; [done|]. apply Hf. Qed.
Lemma agree_mono j k {A} (m m' : D A) : (j <= k)%nat -> agree k m m' -> agree j m m'.
Proof. intros Hjk H s Hs. apply H. lia. Qed.
End recursion.

Create HintDb agree.
#[export] Hint Resolve agree_ret agree_field agree_sys : agree.
#[export] Hint Extern 1 (agree _ (update _) (update _)) => (apply agree_update; done) : agree.
(** One step into the computation on both sides. *)
Ltac agree_step :=
  first
  [ solve [eauto 3 with agree]
  | apply agree_ret | apply agree_field | apply agree_sys
  | apply agree_update; intros; done
  | apply agree_bind; [|intro]
  | match goal with
    | |- agree _ (match ?x with _ => _ end) (match ?x with _ => _ end) => destruct x
    end ].
Ltac solve_agree := intros; repeat agree_step.

Section same.
Context `{SY : System} (k : nat) (p p' : D (list entry)).
Hypothesis Hp : agree k p p'.
Lemma agree_add_property key value :
  agree k (udev_device_add_property_open p key value) (udev_device_add_property_open p' key value).
Proof using Hp. unfold udev_device_add_property_open. solve_agree. Qed.
Hint Resolve agree_add_property : agree.
Lemma agree_set_property key value : agree k (set_property p key value) (set_property p' key value).
Proof using Hp. unfold set_property. solve_agree. Qed.
Hint Resolve agree_set_property : agree.
Lemma agree_from_string s :
  agree k (udev_device_add_property_from_string_open p s) (udev_device_add_property_from_string_open p' s).
Proof using Hp. unfold udev_device_add_property_from_string_open. solve_agree. Qed.
Hint Resolve agree_from_string : agree.
Lemma agree_uevent_line line mm : agree k (uevent_line p line mm) (uevent_line p' line mm).
Proof using Hp.
  unfold uevent_line, udev_device_set_devtype, udev_device_set_ifindex, udev_device_set_devnode.
  solve_agree.
Qed.
Hint Resolve agree_uevent_line : agree.
Lemma agree_uevent_lines lines mm : agree k (uevent_lines p lines mm) (uevent_lines p' lines mm).
Proof using Hp. revert mm. induction lines as [|l ls IH]; intros mm; simpl; solve_agree. Qed.
Lemma agree_db_line line : agree k (db_line p line) (db_line p' line).
Proof using Hp.
  unfold db_line, udev_device_add_devlink, udev_device_set_devlink_priority, udev_list_entry_set_num_of,
    udev_device_add_tag, udev_device_set_watch_handle, udev_device_set_usec_initialized. solve_agree.
Qed.
Hint Resolve agree_db_line : agree.
Lemma agree_db_lines lines : agree k (db_lines p lines) (db_lines p' lines).
Proof using Hp. induction lines as [|l ls IH]; simpl; solve_agree. Qed.
Hint Resolve agree_db_lines : agree.
Lemma agree_db_file f : agree k (read_db_file p f) (read_db_file p' f).
Proof using Hp. unfold read_db_file. solve_agree. Qed.
Lemma agree_subsystem : agree k (udev_device_get_subsystem p) (udev_device_get_subsystem p').
Proof using Hp.
  unfold udev_device_get_subsystem, udev_device_set_subsystem. solve_agree.
Qed.
End same.
#[export] Hint Resolve agree_add_property agree_set_property agree_from_string agree_uevent_lines
  agree_db_lines agree_db_file agree_subsystem : agree.

Section loading.
Context `{SY : System} (k : nat) (p p' : D (list entry)).
(** Loading a file uses the recursion only after the flag of the file is set. *)
Hypothesis Hp : forall j, (j < k)%nat -> agree j p p'.
Lemma agree_load_uevent : agree k (load_uevent p) (load_uevent p').
Proof using Hp.
  intros [w d] Hs. unfold load_uevent, udev_device_read_uevent_file_open. rewrite !bind_field.
  destruct (d_info_loaded d) eqn:Ei; [done|]. rewrite !bind_assoc, !bind_field.
  destruct (d_uevent_loaded d) eqn:Eu; [done|]. rewrite !bind_assoc, !bind_field, !bind_assoc, !bind_sys.
  destruct (sys_read_file _ w) as [[f|] w']; [|done]. cbn [fst snd].
  rewrite !bind_assoc, !bind_update. cbn [snd] in Hs |- *.
  set (d1 := set_field d_uevent_loaded _ _).
  assert (S (depth d1) = depth d) as Hd by (unfold d1, depth; simpl; by rewrite Ei, Eu).
  assert (agree (k - 1) p p') as Hp' by (apply Hp; lia).
  match goal with
  | |- ?m (w', d1) = ?m' (w', d1) /\ _ =>
      assert (agree (k - 1) m m') as Ha
  end.
  { apply agree_bind; [apply agree_bind; [by apply agree_uevent_lines|solve_agree]|solve_agree]. }
  destruct (Ha (w', d1) ltac:(cbn [snd]; lia)) as [He Hle]. cbn [snd] in Hle. split; [done|lia].
Qed.
End loading.

Lemma agree_id `{SY : System} k (p p' : D (list entry)) :
  agree k p p' ->
  agree k (udev_device_get_id_filename_open p) (udev_device_get_id_filename_open p').
Proof.
  intros Hp. assert (agree k (load_uevent p) (load_uevent p')).
  { apply agree_load_uevent. intros j Hj. eapply agree_mono; [|done]. lia. }
  unfold udev_device_get_id_filename_open, udev_device_get_devnum_open, udev_device_get_ifindex_open.
  solve_agree.
Qed.

Section body.
Context `{SY : System} (k : nat) (p p' : D (list entry)).
Hypothesis Hp : forall j, (j < k)%nat -> agree j p p'.
Lemma agree_load_db : agree k (load_db p) (load_db p').
Proof using Hp.
  intros [w d] Hs. unfold load_db, udev_device_read_db_open. rewrite !bind_field.
  destruct (d_info_loaded d) eqn:Ei; [done|]. rewrite !bind_assoc, !bind_field.
  destruct (d_db_loaded d) eqn:Eu; [done|]. rewrite !bind_assoc, !bind_update. cbn [snd] in Hs |- *.
  set (d1 := set_field d_db_loaded _ _).
  assert (S (depth d1) = depth d) as Hd.
  { unfold d1, depth. simpl. rewrite Ei, Eu. destruct (d_uevent_loaded d); lia. }
  assert (agree (k - 1) p p') as Hp' by (apply Hp; lia).
  match goal with
  | |- ?m (w, d1) = ?m' (w, d1) /\ _ => assert (agree (k - 1) m m') as Ha
  end.
  { apply agree_bind; [|solve_agree]. apply agree_bind; [by apply agree_id|]. solve_agree. }
  destruct (Ha (w, d1) ltac:(cbn [snd]; lia)) as [He Hle]. cbn [snd] in Hle. split; [done|lia].
Qed.

(** The body does not call itself with a value, so only loading matters. *)
Lemma agree_set_property_any q q' key value : agree k (set_property q key value) (set_property q' key value).
Proof. unfold set_property, udev_device_add_property_open. solve_agree. Qed.

Lemma agree_body :
  agree k (udev_device_get_properties_list_entry_open p) (udev_device_get_properties_list_entry_open p').
Proof using Hp.
  pose proof agree_load_db. assert (agree k (load_uevent p) (load_uevent p')) by by apply agree_load_uevent.
  unfold udev_device_get_properties_list_entry_open, udev_device_get_devlinks_list_entry_open,
    udev_device_get_tags_list_entry_open.
  repeat first [apply agree_set_property_any | agree_step].
Qed.
End body.

Section fixpoint.
Context `{SY : System}.

Lemma properties_at_agree k n m : (k < n)%nat -> (k < m)%nat -> agree k (properties_at n) (properties_at m).
Proof.
  revert k m. induction n as [|n IH]; intros k m Hn Hm; [lia|]. destruct m as [|m]; [lia|].
  cbn [properties_at]. apply agree_body. intros j Hj. apply IH; lia.
Qed.

Lemma depth_le d : (depth d <= 2)%nat.
Proof. unfold depth. repeat case_match; lia. Qed.

(** C37: [udev_device_get_properties_list_entry] is the recursive function of
    the code: the depth to which the recursion is followed is enough for every
    device and every state of the files, and a longer one changes nothing.
    Reading a property may load the uevent file and the database, whose
    entries delete properties, which reads the properties again, but each file
    is marked as loaded before that. *)
Theorem properties_list_fixpoint (s : world * udev_device) :
  udev_device_get_properties_list_entry s
    = udev_device_get_properties_list_entry_open udev_device_get_properties_list_entry s /\
  forall n, (3 <= n)%nat -> properties_at n s = udev_device_get_properties_list_entry s.
Proof.
  assert (forall n m, (3 <= n)%nat -> (3 <= m)%nat -> properties_at n s = properties_at m s) as H.
  { intros n m Hn Hm. pose proof (depth_le (snd s)). apply (properties_at_agree 2); lia. }
  split; [exact (H 3%nat 4%nat ltac:(lia) ltac:(lia))|]. intros n Hn. apply H; lia.
Qed.
End fixpoint.

(** * The database is read back *)

(** A record that is one line of the file. *)
Definition line_ok (s : bytes) : Prop :=
  cstr s /\ (newline ∉ s) /\ s <> [] /\ (length s + 4 <= UTIL_LINE_SIZE)%nat.

Lemma record_line_read r size rest :
  line_ok (snd r) -> fst r <> nul -> fst r <> newline -> (length (snd r) + 4 <= size)%nat ->
  fgets size (record_line r ++ rest) = Some (record_line r, rest) /\ until_nul (record_line r) = record_line r.
Proof.
  intros (Hc & Hn & _ & _) Hk1 Hk2 Hs. unfold fgets, record_line.
  rewrite (proj2 (Nat.leb_gt _ _)) by lia.
  rewrite <- !app_comm_cons. rewrite <- app_assoc. cbn [app].
  change (fst r :: ":"%char :: snd r ++ newline :: rest) with ((fst r :: ":"%char :: snd r) ++ newline :: rest).
  rewrite read_line_app; [|set_solver|simpl; lia]. split; [done|].
  apply until_nul_cstr. constructor; [done|]. constructor; [done|]. apply Forall_app. split; [done|].
  by repeat constructor.
Qed.

Lemma file_lines_records size rs :
  (1 < size)%nat ->
  Forall (fun r => line_ok (snd r) /\ fst r <> nul /\ fst r <> newline /\ (length (snd r) + 4 <= size)%nat) rs ->
  file_lines size (mjoin (record_line <$> rs)) = record_line <$> rs.
Proof.
  intros Hsize H. unfold file_lines.
  assert (length rs < S (length (mjoin (record_line <$> rs))))%nat as Hf.
  { clear H. induction rs as [|r rs IH]; [simpl; lia|].
    change (mjoin (record_line <$> r :: rs)) with (record_line r ++ mjoin (record_line <$> rs)).
    rewrite length_app. unfold record_line at 1. cbn [length] in *. lia. }
  revert Hf. generalize (S (length (mjoin (record_line <$> rs)))) as fuel.
  induction H as [|r rs (H1 & H2 & H3 & H4) _ IH]; intros fuel Hf;
    (destruct fuel as [|fuel]; [simpl in Hf; lia|]).
  { cbn [file_lines_loop]. unfold fgets. by rewrite (proj2 (Nat.leb_gt size 1)) by lia. }
  change (mjoin (record_line <$> r :: rs)) with (record_line r ++ mjoin (record_line <$> rs)).
  cbn [file_lines_loop fmap list_fmap].
  destruct (record_line_read r size (mjoin (record_line <$> rs)) H1 H2 H3 H4) as [-> ->].
  f_equal. apply IH. simpl in Hf. lia.
Qed.

(** What reading a record does to the device. *)
Definition rec_apply (d : udev_device) (r : byte * bytes) : udev_device :=
  let v := snd r in
  if fst r ==c "S" then
    d <| d_devlinks_uptodate := false |>
      <| d_devlinks_list := spec_add true (d_devlinks_list d) ("/dev/" ++ v) None |>
  else if fst r ==c "L" then d <| d_devlink_priority := atoi v |>
  else if fst r ==c "E" then
    match split_chr v "=" with
    | (k, Some x) =>
        props (fun es => spec_set_num es k 1) (props (fun es => spec_add true es k (Some x)) (d <| d_envp_uptodate := false |>))
    | _ => d
    end
  else if fst r ==c "G" then
    d <| d_tags_uptodate := false |> <| d_tags_list := spec_add true (d_tags_list d) v None |>
  else if fst r ==c "W" then d <| d_watch_handle := atoi v |>
  else if fst r ==c "I" then
    props (fun es => spec_add true es "USEC_INITIALIZED" (Some (fmt_u64 (strtoull10 v))))
      (d <| d_usec_initialized := strtoull10 v |> <| d_envp_uptodate := false |>)
  else d.

(** The records [udev_device_update_db] writes for a device with proper
    strings. *)
Definition rec_ok (r : byte * bytes) : Prop :=
  line_ok (snd r) /\ fst r ∈ ["S"; "L"; "E"; "G"; "W"; "I"]%char /\
  (fst r = "S"%char -> (length (snd r) + 5 < UTIL_PATH_SIZE)%nat) /\
  (fst r = "E"%char -> exists k x, snd r = k ++ "="%char :: x /\ ("="%char ∉ k) /\ x <> []) /\
  (fst r = "G"%char -> (":"%char ∉ snd r) /\ (" "%char ∉ snd r)).

Section apply.
Context `{SY : System}.

Lemma db_line_apply (p : D (list entry)) r w d :
  rec_ok r -> db_line p (fst r :: ":"%char :: snd r) (w, d) = (tt, (w, rec_apply d r)).
Proof.
  intros ((Hc & Hn & Hne & Hl) & Hk & HS & HE & HG). destruct r as [k v]. cbn [fst snd] in *.
  unfold db_line, rec_apply. cbn [fst snd]. change (drop 2 (k :: ":"%char :: v)) with v.
  repeat (apply elem_of_cons in Hk as [->|Hk]); [..|by apply not_elem_of_nil in Hk]; cbn [Ascii.eqb Bool.eqb].
  - rewrite strscpyl_fits; [by cbn [mjoin list_join]; rewrite app_nil_r|].
    cbn [mjoin list_join]. rewrite app_nil_r, length_app.
    specialize (HS eq_refl). change (length ("/dev/" : bytes)) with 5%nat. lia.
  - done.
  - destruct (HE eq_refl) as (key & x & -> & Hk & Hx). unfold udev_device_add_property_from_string_open.
    rewrite strscpy_fits by lia. rewrite split_chr_app by done. destruct x as [|x0 x]; [done|]. done.
  - destruct (HG eq_refl) as [H1 H2]. unfold udev_device_add_tag.
    rewrite (proj2 (strchr_None v ":" ltac:(done)) H1), (proj2 (strchr_None v " " ltac:(done)) H2). done.
  - done.
  - done.
Qed.

Lemma db_lines_apply (p : D (list entry)) rs w d :
  Forall rec_ok rs -> db_lines p (record_line <$> rs) (w, d) = (tt, (w, fold_left rec_apply rs d)).
Proof.
  intros H. revert d. induction H as [|r rs Hr _ IH]; intros d; [done|].
  cbn [fmap list_fmap db_lines fold_left].
  assert (length (record_line r) = S (S (S (length (snd r))))) as Hlen.
  { unfold record_line. cbn [length]. rewrite length_app. simpl. lia. }
  destruct Hr as [(H1 & H2 & H3 & H4) Hr]. rewrite (proj2 (Nat.ltb_ge _ _)).
  2: { rewrite Hlen. destruct (snd r); [done|]. simpl. lia. }
  assert (take (length (record_line r) - 1) (record_line r) = fst r :: ":"%char :: snd r) as ->.
  { rewrite Hlen. unfold record_line. replace (S (S (S (length (snd r)))) - 1)%nat with (S (S (length (snd r)))) by lia.
    cbn [take]. by rewrite take_app_length. }
  rewrite D_bind_eq, db_line_apply by done. apply IH.
Qed.
End apply.

(** ** The fields after reading records *)

(** The values of the records of one kind. *)
Definition vals (k : byte) (rs : list (byte * bytes)) : list bytes := snd <$> filter (fun r => fst r = k) rs.
Lemma vals_app k a b : vals k (a ++ b) = vals k a ++ vals k b.
Proof. unfold vals. by rewrite filter_app, fmap_app. Qed.
Lemma vals_fmap {A} k k' (f : A -> bytes) l :
  vals k ((fun x => (k', f x)) <$> l) = if decide (k' = k) then f <$> l else [].
Proof.
  unfold vals. induction l as [|x l IH]; [by case_decide|]. cbn [fmap list_fmap].
  rewrite filter_cons. cbn [fst]. case_decide; cbn [fmap list_fmap snd]; by rewrite IH.
Qed.

Lemma fold_field {A} (f : udev_device -> A) (g : A -> bytes -> A) k rs d :
  (forall d r, f (rec_apply d r) = if decide (fst r = k) then g (f d) (snd r) else f d) ->
  f (fold_left rec_apply rs d) = fold_left g (vals k rs) (f d).
Proof.
  intros Hf. revert d. induction rs as [|r rs IH]; intros d; [done|]. cbn [fold_left]. rewrite IH, Hf.
  unfold vals. rewrite filter_cons. by case_decide.
Qed.
(** Decide equations between given bytes. *)
Ltac decide_bytes :=
  repeat match goal with
  | |- context [decide (?a = ?b)] =>
      first [rewrite (decide_True (P := a = b)) by reflexivity
            |rewrite (decide_False (P := a = b)) by discriminate]
  end.
Ltac field_step :=
  let d0 := fresh in intros d0 [c v]; unfold rec_apply; cbn [fst snd];
  repeat match goal with
  | |- context [c ==c ?x] => destruct (eqbP c x) as [->|]; [case_decide; try done; by repeat case_match|]
  end;
  case_decide; [subst; congruence|done].

Lemma fold_links rs d :
  d_devlinks_list (fold_left rec_apply rs d) =
    fold_left (fun l v => spec_add true l ("/dev/" ++ v) None) (vals "S" rs) (d_devlinks_list d).
Proof. apply fold_field. field_step. Qed.
Lemma fold_tags rs d :
  d_tags_list (fold_left rec_apply rs d) =
    fold_left (fun l v => spec_add true l v None) (vals "G" rs) (d_tags_list d).
Proof. apply fold_field. field_step. Qed.
Lemma fold_prio rs d :
  d_devlink_priority (fold_left rec_apply rs d) =
    fold_left (fun _ v => atoi v) (vals "L" rs) (d_devlink_priority d).
Proof. apply (fold_field d_devlink_priority (fun _ v => atoi v)). field_step. Qed.
Lemma fold_watch rs d :
  d_watch_handle (fold_left rec_apply rs d) =
    fold_left (fun _ v => atoi v) (vals "W" rs) (d_watch_handle d).
Proof. apply (fold_field d_watch_handle (fun _ v => atoi v)). field_step. Qed.
Lemma fold_usec rs d :
  d_usec_initialized (fold_left rec_apply rs d) =
    fold_left (fun _ v => strtoull10 v) (vals "I" rs) (d_usec_initialized d).
Proof. apply (fold_field d_usec_initialized (fun _ v => strtoull10 v)). field_step. Qed.
Lemma fold_props_other rs d :
  Forall (fun r => fst r <> "E"%char /\ fst r <> "I"%char) rs ->
  d_properties_list (fold_left rec_apply rs d) = d_properties_list d.
Proof.
  intros H. revert d. induction H as [|[c v] rs [H1 H2] _ IH]; intros d; [done|]. cbn [fold_left].
  rewrite IH. unfold rec_apply. cbn [fst snd] in *.
  destruct (eqbP c "S"); [done|]. destruct (eqbP c "L"); [done|]. destruct (eqbP c "E"); [done|].
  destruct (eqbP c "G"); [done|]. destruct (eqbP c "W"); [done|]. by destruct (eqbP c "I").
Qed.

(** The marked properties: each is set with its value and marked again. *)
Definition prop_ok (e : entry) : Prop :=
  ("="%char ∉ e_name e) /\ exists x, e_value e = Some x /\ x <> [] /\ line_ok (e_name e ++ "="%char :: x).

Lemma fold_props ms d :
  Forall prop_ok ms -> NoDup (e_name <$> ms) -> names_sorted (d_properties_list d) ->
  let d' := fold_left rec_apply ((fun e => ("E"%char, e_name e ++ "="%char :: default [] (e_value e))) <$> ms) d in
  (forall e, e ∈ ms -> spec_find (d_properties_list d') (e_name e) = Some (mk_entry (e_name e) (e_value e) 1)) /\
  (forall key, (key ∉ e_name <$> ms) ->
   spec_find (d_properties_list d') key = spec_find (d_properties_list d) key).
Proof.
  intros Hok Hnd. revert d. induction Hok as [|m ms Hm _ IH]; intros d Hs; cbn [fmap list_fmap fold_left].
  { split; [set_solver|done]. }
  rewrite fmap_cons in Hnd. apply NoDup_cons in Hnd as [Hmn Hnd].
  destruct Hm as (Hk & x & Hv & Hx & _).
  set (d1 := rec_apply d _).
  assert (d_properties_list d1 = spec_set_num (spec_add true (d_properties_list d) (e_name m) (Some x)) (e_name m) 1) as Hd1.
  { unfold d1, rec_apply. cbn [fst snd]. cbn [Ascii.eqb Bool.eqb]. by rewrite Hv, split_chr_app by done. }
  assert (names_sorted (d_properties_list d1)) as Hs1.
  { rewrite Hd1. unfold names_sorted. rewrite spec_set_num_names. by apply insert_sorted_sorted. }
  assert (forall y, spec_find (d_properties_list d1) y =
    if decide (y = e_name m) then Some (mk_entry (e_name m) (Some x) 1) else spec_find (d_properties_list d) y) as Hf.
  { intros y. rewrite Hd1, spec_find_set_num, spec_find_add by done. by case_decide. }
  destruct (IH Hnd d1 Hs1) as [H1 H2]. split.
  - intros e [->|He]%elem_of_cons; [|by apply H1].
    rewrite H2, Hf, decide_True by done. by rewrite Hv.
  - intros key Hkey. rewrite H2, Hf, decide_False by set_solver. done.
Qed.

(** ** The round trip *)

Record db_wf (links es tags : list entry) : Prop := {
  links_ok : Forall (fun e => exists n, e = mk_entry ("/dev/" ++ n) None 0 /\ line_ok n /\
                              (length n + 5 < UTIL_PATH_SIZE)%nat) links;
  links_sorted : names_sorted links;
  es_ok : Forall prop_ok (filter (fun e => e_num e <> 0) es);
  es_sorted : names_sorted es;
  tags_ok : Forall (fun e => exists t, e = mk_entry t None 0 /\ line_ok t /\
                             (":"%char ∉ t) /\ (" "%char ∉ t)) tags;
  tags_sorted : names_sorted tags
}.
(** A device nothing of the database was read into. *)
Definition unread (d : udev_device) : Prop :=
  d_devlinks_list d = [] /\ d_tags_list d = [] /\ d_devlink_priority d = 0 /\ d_watch_handle d = -1 /\
  d_usec_initialized d = 0 /\ names_sorted (d_properties_list d).

Lemma line_ok_fmt z n : 0 <= z < 2 ^ Z.of_nat (S n) -> (n <= 64)%nat -> line_ok (fmt 10 z).
Proof.
  intros Hz Hn. assert (Forall (fun c => c <> nul /\ c <> newline) (fmt 10 z)) as Hf.
  { apply fmt_Forall; [lia|]. intros d Hd.
    pose proof (digit_check (fun c => negb (c ==c nul) && negb (c ==c newline)) eq_refl d Hd) as Hc. simpl in Hc.
    destruct (eqbP (digit_char d) nul), (eqbP (digit_char d) newline); done. }
  unfold line_ok. split_and!.
  - eapply Forall_impl; [exact Hf|]. by intros c [? _].
  - intros Hin. rewrite Forall_forall in Hf. by destruct (Hf _ Hin).
  - apply fmt_nonempty.
  - pose proof (fmt_length 10 z n Hz). assert (100 <= UTIL_LINE_SIZE)%nat by (unfold UTIL_LINE_SIZE; lia). lia.
Qed.
Lemma line_ok_fmt_i z : - 2 ^ 31 <= z < 2 ^ 31 -> line_ok (fmt_i z).
Proof.
  intros Hz. unfold fmt_i. destruct (Z.ltb_spec z 0).
  - destruct (line_ok_fmt (- z) 40) as (H1 & H2 & H3 & H4); [lia|lia|]. unfold line_ok. split_and!.
    + by constructor.
    + set_solver.
    + done.
    + pose proof (fmt_length 10 (- z) 40 ltac:(lia)).
      assert (100 <= UTIL_LINE_SIZE)%nat by (unfold UTIL_LINE_SIZE; lia). simpl. lia.
  - apply (line_ok_fmt z 40); lia.
Qed.

Lemma names_NoDup es : names_sorted es -> NoDup (e_name <$> es).
Proof.
  unfold names_sorted. intros H. apply NoDup_alt. intros i j x Hi Hj.
  destruct (Nat.lt_trichotomy i j) as [Hl|[|Hl]]; [|done|].
  - destruct (irreflexivity str_lt x). by apply (StronglySorted_lookup _ _ H i j).
  - destruct (irreflexivity str_lt x). by apply (StronglySorted_lookup _ _ H j i).
Qed.

(** The properties when the time of the initialization was read too. *)
Definition with_usec (usec : Z) (find : bytes -> option entry) (key : bytes) : option entry :=
  if decide (0 < usec /\ key = ("USEC_INITIALIZED" : bytes))
  then Some (mk_entry key (Some (fmt_u64 usec)) (from_option e_num 0 (find key)))
  else find key.

Section round_trip.
Context `{SY : System} (node : bool) (links es tags : list entry) (prio handle usec : Z).
Hypothesis Hwf : db_wf links es tags.
Hypothesis Hprio : - 2 ^ 31 <= prio < 2 ^ 31.
Hypothesis Hhandle : - 2 ^ 31 <= handle < 2 ^ 31.
Hypothesis Husec : 0 <= usec < 2 ^ 64.
Abbreviation records := (db_records node links prio handle usec es tags).

Lemma rec_ok_intro k v :
  line_ok v -> k ∈ ["L"; "W"; "I"]%char -> rec_ok (k, v).
Proof.
  intros Hv Hk. unfold rec_ok. cbn [fst snd]. split; [done|].
  repeat (apply elem_of_cons in Hk as [->|Hk]); [..|by apply not_elem_of_nil in Hk];
    (split_and!; [set_solver|by intros|by intros|by intros]).
Qed.

Lemma usec_read : strtoull10 (fmt_u64 usec) = usec.
Proof using Husec.
  unfold strtoull10, fmt_u64. rewrite wrap_small by done. rewrite <- (app_nil_r (fmt 10 usec)). by rewrite strtoul_fmt.
Qed.
Lemma records_ok : Forall rec_ok records.
Proof using Hwf Hprio Hhandle Husec.
  destruct Hwf as [HL _ HE _ HT _]. unfold db_records. repeat (apply Forall_app; split).
  - destruct node; [|constructor]. repeat (apply Forall_app; split).
    + apply Forall_fmap. eapply Forall_impl; [exact HL|]. intros e (n & -> & Hn & Hlen).
      unfold rec_ok. cbn [fst snd compose e_name].
      change (drop 5 ("/dev/" ++ n)) with n. split_and!; [done|set_solver|by intros|by intros|by intros].
    + destruct (negb _); [|constructor]. apply Forall_singleton, rec_ok_intro; [by apply line_ok_fmt_i|set_solver].
    + destruct (0 <=? handle); [|constructor]. apply Forall_singleton, rec_ok_intro; [by apply line_ok_fmt_i|set_solver].
  - destruct (0 <? usec); [|constructor]. apply Forall_singleton, rec_ok_intro; [|set_solver].
    unfold fmt_u64. rewrite wrap_small by done. apply (line_ok_fmt usec 63); [done|lia].
  - apply Forall_fmap. eapply Forall_impl; [exact HE|]. intros e (Hk & x & Hv & Hx & Hl).
    unfold rec_ok. cbn [fst snd compose]. rewrite Hv. cbn [default from_option]. split_and!; [done|set_solver|by intros| |by intros].
    intros _. by exists (e_name e), x.
  - apply Forall_fmap. eapply Forall_impl; [exact HT|]. intros e (t & -> & Ht & H1 & H2).
    unfold rec_ok. cbn [fst snd compose e_name]. split_and!; [done|set_solver|by intros|by intros|by intros].
Qed.

Lemma fold_links_list (ls : list entry) :
  Forall (fun e => exists n, e = mk_entry ("/dev/" ++ n) None 0 /\ line_ok n /\
                   (length n + 5 < UTIL_PATH_SIZE)%nat) ls -> names_sorted ls ->
  fold_left (fun l v => spec_add true l ("/dev/" ++ v) None) ((fun e => drop 5 (e_name e)) <$> ls) [] = ls.
Proof.
  intros HL Hs.
  assert (forall l0 : list entry, fold_left (fun l v => spec_add true l ("/dev/" ++ v) None) ((fun e => drop 5 (e_name e)) <$> ls) l0
    = fold_left (fun l x => spec_add true l x None) (e_name <$> ls) l0) as ->.
  { clear Hs. induction HL as [|e ls (n & -> & _) _ IH]; intros l0; [done|].
    cbn [fmap list_fmap fold_left e_name]. rewrite IH. by change (drop 5 ("/dev/" ++ n)) with n. }
  rewrite add_sorted_list by exact Hs. rewrite <- list_fmap_compose. cbn [app].
  clear Hs. induction HL as [|e ls (n & -> & _) _ IH]; [done|]. cbn [fmap list_fmap]. by rewrite IH.
Qed.
Lemma fold_tags_list (ts : list entry) (P : bytes -> Prop) :
  Forall (fun e => exists t, e = mk_entry t None 0 /\ P t) ts -> names_sorted ts ->
  fold_left (fun l v => spec_add true l v None) (e_name <$> ts) [] = ts.
Proof.
  intros HT Hs. rewrite add_sorted_list by exact Hs. rewrite <- list_fmap_compose. cbn [app].
  clear Hs. induction HT as [|e ts (n & -> & _) _ IH]; [done|]. cbn [fmap list_fmap]. by rewrite IH.
Qed.

Definition handle_read : Z := if node && (0 <=? handle) then handle else -1.

(** What the fields are after all records were read. *)
Lemma fold_records d :
  unread d ->
  let d' := fold_left rec_apply records d in
  d_devlinks_list d' = (if node then links else []) /\
  d_devlink_priority d' = (if node then prio else 0) /\
  d_watch_handle d' = handle_read /\ d_usec_initialized d' = usec /\ d_tags_list d' = tags.
Proof using Hwf Hprio Hhandle Husec.
  destruct Hwf as [HL HLs _ _ HT HTs]. intros (U1 & U2 & U3 & U4 & U5 & _). cbv zeta.
  rewrite fold_links, fold_prio, fold_watch, fold_usec, fold_tags, U1, U2, U3, U4, U5.
  unfold db_records, handle_read. rewrite !vals_app.
  assert (forall k k' (b : bool) v, vals k (if b then [(k', v)] else []) =
    if decide (k' = k) then if b then [v] else [] else []) as Hone.
  { intros k k' b v. destruct b; [|by case_decide]. unfold vals. rewrite filter_cons. cbn [fst]. by case_decide. }
  rewrite !Hone, !vals_fmap. split_and!.
  - destruct node; rewrite ?vals_app, ?Hone, ?vals_fmap; decide_bytes; cbn [app]; rewrite ?app_nil_r;
      [by apply fold_links_list|done].
  - destruct node; rewrite ?vals_app, ?Hone, ?vals_fmap; decide_bytes; cbn [app]; [|done].
    destruct (Z.eqb_spec prio 0) as [->|]; [done|]. cbn [negb fold_left andb app]. by rewrite atoi_fmt.
  - destruct node; rewrite ?vals_app, ?Hone, ?vals_fmap; decide_bytes; cbn [app]; [|done].
    destruct (0 <=? handle); [|done]. cbn. by rewrite atoi_fmt.
  - assert (vals "I" (if node then _ else []) = []) as ->.
    { destruct node; [|done]. rewrite !vals_app, !Hone, !vals_fmap. by decide_bytes. }
    decide_bytes. cbn [app]. destruct (Z.ltb_spec 0 usec); [|cbn [fold_left app]; lia]. cbn [fold_left app].
    by rewrite usec_read.
  - assert (vals "G" (if node then _ else []) = []) as ->.
    { destruct node; [|done]. rewrite !vals_app, !Hone, !vals_fmap. by decide_bytes. }
    decide_bytes. cbn [app]. by apply (fold_tags_list _ (fun t => line_ok t /\ (":"%char ∉ t) /\ (" "%char ∉ t))).
Qed.

Lemma fold_records_props d :
  names_sorted (d_properties_list d) ->
  let d' := fold_left rec_apply records d in
  (forall e, e ∈ es -> e_num e <> 0 ->
   spec_find (d_properties_list d') (e_name e) = Some (mk_entry (e_name e) (e_value e) 1)) /\
  (forall key, (forall e, e ∈ es -> e_num e <> 0 -> e_name e <> key) ->
   spec_find (d_properties_list d') key = with_usec usec (spec_find (d_properties_list d)) key).
Proof using Hwf Hprio Hhandle Husec.
  intros Hs. destruct Hwf as [_ _ HE HEs _ _]. cbv zeta. unfold db_records. rewrite !fold_left_app.
  rewrite (fold_props_other ((fun e => ("G"%char, e_name e)) <$> tags))
    by (apply Forall_fmap, Forall_forall; intros; by split).
  set (first := if node then _ else []).
  assert (Forall (fun r : byte * bytes => fst r <> "E"%char /\ fst r <> "I"%char) first) as Hfirst.
  { unfold first. destruct node; [|constructor]. repeat (apply Forall_app; split).
    - apply Forall_fmap, Forall_forall. by intros.
    - destruct (negb _); [|constructor]. by apply Forall_singleton.
    - destruct (0 <=? handle); [|constructor]. by apply Forall_singleton. }
  set (d1 := fold_left rec_apply first d).
  assert (d_properties_list d1 = d_properties_list d) as H1 by by apply fold_props_other.
  set (d2 := fold_left rec_apply (if 0 <? usec then _ else []) d1).
  assert (names_sorted (d_properties_list d2) /\ forall key,
    spec_find (d_properties_list d2) key = with_usec usec (spec_find (d_properties_list d)) key) as [Hs2 H2].
  { unfold d2, with_usec. destruct (Z.ltb_spec 0 usec); cbn [fold_left]; [|rewrite H1; split; [done|]; intros key; by rewrite decide_False by lia].
    unfold rec_apply. cbn [fst snd Ascii.eqb Bool.eqb props d_properties_list set_field]. rewrite H1.
    split; [by apply insert_sorted_sorted|]. intros key. rewrite spec_find_add by done.
    rewrite usec_read.
    case_decide as Hk; [subst key; by rewrite decide_True|by rewrite decide_False by tauto]. }
  assert (NoDup (e_name <$> filter (fun e => e_num e <> 0) es)) as Hnd.
  { eapply sublist_NoDup; [apply names_NoDup; exact HEs|]. apply fmap_sublist, sublist_filter. }
  destruct (fold_props _ d2 HE Hnd Hs2) as [H3 H4]. split.
  - intros e He Hn. apply H3. by apply list_elem_of_filter.
  - intros key Hk. rewrite H4, H2; [done|]. intros (e & -> & He)%list_elem_of_fmap.
    apply list_elem_of_filter in He as [Hn He]. by apply (Hk e).
Qed.

End round_trip.

(** C36: The database round trip.  Reading the records that
    [udev_device_update_db] writes for a device that has information ([db_text],
    what [db_contents] makes of it) gives back its links, the link
    priority and the inotify watch when it has a device node, the time of its
    initialization, its tags, and the value of every property that is marked
    for the database; these are marked again.  Of the other properties only
    USEC_INITIALIZED is touched, which is set to the time of the initialization
    if there is one.  The file is read into a device that nothing of a database
    was read into before.  The names and values have to be proper: no newline,
    no NUL and no separator in the names, at least one byte, and such that the
    line of the record fits the buffer of UTIL_LINE_SIZE bytes it is read
    into. *)
Theorem db_round_trip `{SY : System} p file node links es tags prio handle usec (w w' : world) d :
  sys_read_file file w = (Some (db_text node links prio handle usec es tags), w') ->
  db_wf links es tags -> unread d ->
  - 2 ^ 31 <= prio < 2 ^ 31 -> - 2 ^ 31 <= handle < 2 ^ 31 -> 0 <= usec < 2 ^ 64 ->
  exists d', udev_device_read_db_open p (Some file) (w, d) = (0, (w', d')) /\
    d_devlinks_list d' = (if node then links else []) /\
    d_devlink_priority d' = (if node then prio else 0) /\
    d_watch_handle d' = (if node && (0 <=? handle) then handle else -1) /\
    d_usec_initialized d' = usec /\ d_tags_list d' = tags /\
    (forall e, e ∈ es -> e_num e <> 0 ->
     spec_find (d_properties_list d') (e_name e) = Some (mk_entry (e_name e) (e_value e) 1)) /\
    (forall key, (forall e, e ∈ es -> e_num e <> 0 -> e_name e <> key) ->
     spec_find (d_properties_list d') key = with_usec usec (spec_find (d_properties_list d)) key).
Proof.
  intros Hf Hwf Hd Hprio Hhandle Husec.
  pose proof (records_ok node links es tags prio handle usec Hwf Hprio Hhandle Husec) as Hok.
  set (d0 := d <| d_is_initialized := true |>). assert (unread d0) as Hd0 by exact Hd.
  pose proof (fold_records node links es tags prio handle usec Hwf Hprio Hhandle Husec d0 Hd0) as (F1 & F2 & F3 & F4 & F5).
  pose proof (fold_records_props node links es tags prio handle usec Hwf Hprio Hhandle Husec d0 ltac:(apply Hd0)) as [F6 F7].
  exists (fold_left rec_apply (db_records node links prio handle usec es tags) d0).
  split; [|by split_and!].
  unfold udev_device_read_db_open, read_db_file. rewrite bind_sys, Hf. cbn [fst snd].
  rewrite bind_update. unfold db_text. rewrite file_lines_records.
  - fold d0. rewrite D_bind_eq, db_lines_apply by done. done.
  - unfold UTIL_LINE_SIZE. lia.
  - eapply Forall_impl; [exact Hok|]. intros r (Hl & Hk & _). pose proof Hl as (_ & _ & _ & Hlen).
    split; [done|].
    repeat (apply elem_of_cons in Hk as [->|Hk]); [..|by apply not_elem_of_nil in Hk]; by split_and!.
Qed.

(** A device with two links, a marked and a private property and a tag. *)
Definition sample_links : list entry :=
  [mk_entry "/dev/disk/by-id/x" None 0; mk_entry "/dev/sr" None 0].
Definition sample_props : list entry :=
  [mk_entry ".PRIVATE" (Some ("1" : bytes)) 0; mk_entry "ID_BUS" (Some ("usb" : bytes)) 1].
Definition sample_tags : list entry := [mk_entry "systemd" None 0].
Definition sample_text : bytes := db_text true sample_links (-5) (-1) 1234 sample_props sample_tags.
Example sample_text_ex : until_nul sample_text =
  "S:disk/by-id/x" ++ [newline] ++ "S:sr" ++ [newline] ++ "L:-5" ++ [newline] ++ "I:1234" ++ [newline] ++
  "E:ID_BUS=usb" ++ [newline] ++ "G:systemd" ++ [newline].
Proof. vm_compute. reflexivity. Qed.

Lemma line_ok_check s :
  (bool_decide (cstr s) && bool_decide (newline ∉ s) && negb (length s =? 0)%nat && (length s <=? 1000)%nat) = true ->
  line_ok s.
Proof.
  rewrite !andb_true_iff, !bool_decide_eq_true, Nat.leb_le. intros (((H1 & H2) & H3) & H4).
  unfold line_ok. split_and!; [done|done|by destruct s|]. unfold UTIL_LINE_SIZE. lia.
Qed.
Lemma sample_wf : db_wf sample_links sample_props sample_tags.
Proof.
  split.
  - repeat constructor.
    + exists "disk/by-id/x". split_and!; [done|by apply line_ok_check|unfold UTIL_PATH_SIZE; simpl; lia].
    + exists "sr". split_and!; [done|by apply line_ok_check|unfold UTIL_PATH_SIZE; simpl; lia].
  - vm_compute. repeat constructor.
  - assert (filter (fun e => e_num e <> 0) sample_props = [mk_entry "ID_BUS" (Some ("usb" : bytes)) 1]) as -> by done.
    apply Forall_singleton. split; [by apply (bool_decide_unpack _)|]. exists "usb". split_and!; [done|done|by apply line_ok_check].
  - vm_compute. repeat constructor.
  - apply Forall_singleton. exists "systemd". split_and!; [done|by apply line_ok_check|by apply (bool_decide_unpack _)..].
  - vm_compute. repeat constructor.
Qed.

Lemma db_round_trip_witness :
  exists d', @udev_device_read_db_open file_system (mret []) (Some ("db" : bytes)) ({[ ("db" : bytes) := sample_text ]}, device_new)
    = (0, ({[ ("db" : bytes) := sample_text ]}, d')) /\
  d_devlinks_list d' = sample_links.
Proof.
  destruct (@db_round_trip file_system (mret []) "db" true sample_links sample_props sample_tags (-5) (-1) 1234
    {[ ("db" : bytes) := sample_text ]} {[ ("db" : bytes) := sample_text ]} device_new) as (d' & H & Hl & _).
  - reflexivity.
  - exact sample_wf.
  - unfold unread. split_and!; [reflexivity..|constructor].
  - lia.
  - lia.
  - lia.
  - exists d'. split; [exact H|exact Hl].
Defined.
End DeviceProofs.
