(* ===== verification/DeviceFrame.v ===== *)
(** What the operations on a device leave alone.  A relation between a device
    and a later state of it holds along every operation of
    lib/device/libudev-device.c as soon as it is a preorder, says nothing of the
    fields that only hold information, and holds along the three ways in which
    the list of the properties is changed. *)

From Stdlib Require Import ZArith Lia Ascii.
From stdpp Require Import prelude gmap strings.
From S2P Require Import Prelude Utils Strings Encode System UdevList Device DeviceProofs.
Import Mem Entries Device DeviceProofs.

Create HintDb along.

Module DeviceFrame.
#[local] Abbreviation tt := Datatypes.tt.

(** The place of the device, its properties and their copy for programs and
    messages are the same. *)
Definition same_core (d d' : udev_device) : Prop :=
  d_syspath d' = d_syspath d /\ d_parent_set d' = d_parent_set d /\ d_properties_list d' = d_properties_list d /\
  d_envp d' = d_envp d /\ d_monitor_buf d' = d_monitor_buf d /\ d_monitor_buf_len d' = d_monitor_buf_len d /\
  d_envp_uptodate d' = d_envp_uptodate d.
Class DeviceRel (R : relation udev_device) := {
  rel_preorder :: PreOrder R;
  rel_same d d' : same_core d d' -> R d d';
  rel_add d k v : R d (props (fun es => spec_add true es k (Some v)) (d <| d_envp_uptodate := false |>));
  rel_delete d d' k : R (d <| d_envp_uptodate := false |>) d' -> R d (props (fun es => spec_delete es k) d');
  rel_num d k n : R d (props (fun es => spec_set_num es k n) d)
}.
(** It says nothing of the path either. *)
Class PathFree (R : relation udev_device) := rel_path d p : R d (d <| d_syspath := p |>).

Section along.
Context `{SY : System} (R : relation udev_device) `{!DeviceRel R}.
Definition along {A} (m : D A) : Prop := forall w d, R d (snd (snd (m (w, d)))).
Lemma along_ret {A} (x : A) : along (mret x).
Proof. intros w d. simpl. reflexivity. Qed.
Lemma along_bind {A B} (m : D A) (f : A -> D B) : along m -> (forall x, along (f x)) -> along (m ≫= f).
Proof.
  intros Hm Hf w d. rewrite D_bind_eq. specialize (Hm w d). destruct (m (w, d)) as [x [w' d']]. cbn [fst snd] in *.
  etrans; [exact Hm|apply Hf].
Qed.
Lemma along_field {A} (f : udev_device -> A) : along (field f).
Proof. intros w d. simpl. reflexivity. Qed.
Lemma along_sys {A} (c : state world A) : along (sys c).
Proof. intros w d. unfold sys. destruct (c w). simpl. reflexivity. Qed.
Lemma along_update f : (forall d, same_core d (f d)) -> along (update f).
Proof. intros H w d. apply rel_same, H. Qed.
Lemma along_num k n : along (update (props (fun es => spec_set_num es k n))).
Proof. intros w d. apply rel_num. Qed.
End along.
#[export] Hint Resolve along_ret along_field along_sys along_num : along.
Ltac along_step :=
  match goal with
  | |- along _ (_ ≫= _) => apply along_bind; [apply _| |intros ?]
  | |- along _ (update _) => apply along_update; [apply _|]; intros ?; done
  | |- along _ (let '(_, _) := ?x in _) => destruct x
  | |- along _ (if ?b then _ else _) => destruct b
  | |- along _ (match ?x with _ => _ end) => destruct x
  | |- along _ _ => solve [auto with along nocore typeclass_instances]
  end.
Ltac along := intros; cbv beta zeta; repeat along_step.

Section device.
Context `{SY : System} (R : relation udev_device) (HR : DeviceRel R) (self : D (list entry)) (Hself : along R self).
Lemma along_add_property k v : along R (udev_device_add_property_open self k v).
Proof.
  intros w d. unfold udev_device_add_property_open. rewrite bind_update. destruct v as [v|].
  - rewrite bind_update. apply rel_add.
  - rewrite D_bind_eq. specialize (Hself w (d <| d_envp_uptodate := false |>)).
    destruct (self _) as [x [w' d']]. cbn [fst snd] in *. rewrite bind_update. by apply rel_delete.
Qed.
#[local] Hint Resolve along_add_property : along.
Lemma along_set_property k v : along R (set_property self k v).
Proof. unfold set_property. along. Qed.
#[local] Hint Resolve along_set_property : along.
Lemma along_from_string p : along R (udev_device_add_property_from_string_open self p).
Proof. unfold udev_device_add_property_from_string_open. along. Qed.
#[local] Hint Resolve along_from_string : along.
Lemma along_uevent_line line mm : along R (uevent_line self line mm).
Proof. unfold uevent_line, udev_device_set_devtype, udev_device_set_ifindex, udev_device_set_devnode. along. Qed.
#[local] Hint Resolve along_uevent_line : along.
Lemma along_uevent_lines lines mm : along R (uevent_lines self lines mm).
Proof. revert mm. induction lines as [|l lines IH]; intros mm; cbn [uevent_lines]; along. Qed.
#[local] Hint Resolve along_uevent_lines : along.
Lemma along_uevent_file : along R (udev_device_read_uevent_file_open self).
Proof. unfold udev_device_read_uevent_file_open. along. Qed.
#[local] Hint Resolve along_uevent_file : along.
Lemma along_load_uevent : along R (load_uevent self).
Proof. unfold load_uevent. along. Qed.
#[local] Hint Resolve along_load_uevent : along.
Lemma along_devtype : along R (udev_device_get_devtype_open self).
Proof. unfold udev_device_get_devtype_open. along. Qed.
Lemma along_devnum : along R (udev_device_get_devnum_open self).
Proof. unfold udev_device_get_devnum_open. along. Qed.
#[local] Hint Resolve along_devnum : along.
Lemma along_devnode : along R (udev_device_get_devnode_open self).
Proof. unfold udev_device_get_devnode_open. along. Qed.
Lemma along_subsystem : along R (udev_device_get_subsystem self).
Proof. unfold udev_device_get_subsystem, udev_device_set_subsystem. along. Qed.
#[local] Hint Resolve along_subsystem : along.
Lemma along_ifindex : along R (udev_device_get_ifindex_open self).
Proof. unfold udev_device_get_ifindex_open. along. Qed.
#[local] Hint Resolve along_ifindex : along.
Lemma along_id_filename : along R (udev_device_get_id_filename_open self).
Proof. unfold udev_device_get_id_filename_open. along. Qed.
#[local] Hint Resolve along_id_filename : along.
Lemma along_db_line line : along R (db_line self line).
Proof.
  unfold db_line, udev_device_add_devlink, udev_device_set_devlink_priority, udev_list_entry_set_num_of, udev_device_add_tag,
    udev_device_set_watch_handle, udev_device_set_usec_initialized. along.
Qed.
#[local] Hint Resolve along_db_line : along.
Lemma along_db_lines lines : along R (db_lines self lines).
Proof. induction lines as [|l lines IH]; cbn [db_lines]; along. Qed.
#[local] Hint Resolve along_db_lines : along.
Lemma along_read_db f : along R (udev_device_read_db_open self f).
Proof. unfold udev_device_read_db_open, read_db_file. along. Qed.
#[local] Hint Resolve along_read_db : along.
Lemma along_load_db : along R (load_db self).
Proof. unfold load_db. along. Qed.
#[local] Hint Resolve along_load_db : along.
Lemma along_devlinks : along R (udev_device_get_devlinks_list_entry_open self).
Proof. unfold udev_device_get_devlinks_list_entry_open. along. Qed.
Lemma along_tags : along R (udev_device_get_tags_list_entry_open self).
Proof. unfold udev_device_get_tags_list_entry_open. along. Qed.
#[local] Hint Resolve along_devlinks along_tags : along.
Lemma along_properties_open : along R (udev_device_get_properties_list_entry_open self).
Proof. unfold udev_device_get_properties_list_entry_open. along. Qed.
End device.

Section self.
Context `{SY : System} (R : relation udev_device) (HR : DeviceRel R).
Lemma along_properties_at n : along R (properties_at n).
Proof. induction n as [|n IH]; cbn [properties_at]; [along|]. by apply along_properties_open. Qed.
Lemma along_self : along R udev_device_get_properties_list_entry.
Proof. by apply along_properties_at. Qed.
#[local] Hint Resolve along_self : along.
Lemma along_add k v : along R (udev_device_add_property k v).
Proof. by apply along_add_property, along_self. Qed.
#[local] Hint Resolve along_add : along.
Lemma along_get_uevent_file : along R udev_device_read_uevent_file.
Proof. by apply along_uevent_file, along_self. Qed.
Lemma along_get_db f : along R (udev_device_read_db f).
Proof. by apply along_read_db, along_self. Qed.
Lemma along_get_id_filename : along R udev_device_get_id_filename.
Proof. by apply along_id_filename, along_self. Qed.
Lemma along_get_devtype : along R udev_device_get_devtype.
Proof. by apply along_devtype, along_self. Qed.
Lemma along_get_devnum : along R udev_device_get_devnum.
Proof. by apply along_devnum, along_self. Qed.
Lemma along_get_devnode : along R udev_device_get_devnode.
Proof. by apply along_devnode, along_self. Qed.
Lemma along_get_ifindex : along R udev_device_get_ifindex.
Proof. by apply along_ifindex, along_self. Qed.
Lemma along_get_subsystem : along R (udev_device_get_subsystem udev_device_get_properties_list_entry).
Proof. by apply along_subsystem, along_self. Qed.
Lemma along_get_devlinks : along R udev_device_get_devlinks_list_entry.
Proof. by apply along_devlinks, along_self. Qed.
Lemma along_get_tags : along R udev_device_get_tags_list_entry.
Proof. by apply along_tags, along_self. Qed.
Lemma along_db_loaded : along R (load_db udev_device_get_properties_list_entry).
Proof. by apply along_load_db, along_self. Qed.
End self.
#[export] Hint Resolve along_self along_add along_get_uevent_file along_get_db along_get_id_filename along_get_devtype along_get_devnum
  along_get_devnode along_get_ifindex along_get_subsystem along_get_devlinks along_get_tags along_db_loaded : along.

Section operations.
Context `{SY : System} (R : relation udev_device) (HR : DeviceRel R).
Lemma along_get_sysattr attr : along R (udev_device_get_sysattr_value attr).
Proof. unfold udev_device_get_sysattr_value, cache_sysattr. along. Qed.
Lemma along_get_driver : along R udev_device_get_driver.
Proof. unfold udev_device_get_driver. along. Qed.
Lemma along_get_property key : along R (udev_device_get_property_value key).
Proof. unfold udev_device_get_property_value. along. Qed.
Lemma along_get_action : along R udev_device_get_action.
Proof. unfold udev_device_get_action. along. Qed.
Lemma along_has_tag tag : along R (udev_device_has_tag tag).
Proof. unfold udev_device_has_tag. along. Qed.
Lemma along_set_num e n : along R (udev_list_entry_set_num_of e n).
Proof. unfold udev_list_entry_set_num_of. along. Qed.
Lemma along_add_tag tag : along R (udev_device_add_tag tag).
Proof. unfold udev_device_add_tag. along. Qed.
Lemma along_cleanup_tags : along R udev_device_cleanup_tags_list.
Proof. unfold udev_device_cleanup_tags_list. along. Qed.
Lemma along_cleanup_devlinks : along R udev_device_cleanup_devlinks_list.
Proof. unfold udev_device_cleanup_devlinks_list. along. Qed.
Lemma along_add_devlink l : along R (udev_device_add_devlink l).
Proof. unfold udev_device_add_devlink. along. Qed.
Lemma along_db_persist : along R udev_device_set_db_persist.
Proof. unfold udev_device_set_db_persist. along. Qed.
Lemma along_devlink_prio p : along R (udev_device_set_devlink_priority p).
Proof. unfold udev_device_set_devlink_priority. along. Qed.
Lemma along_watch_handle h : along R (udev_device_set_watch_handle h).
Proof. unfold udev_device_set_watch_handle. along. Qed.
Lemma along_for_each {A} (l : list A) (f : A -> D unit) : (forall x, along R (f x)) -> along R (for_each l f).
Proof. intros Hf. induction l as [|x l IH]; cbn [for_each]; along. Qed.
End operations.
#[export] Hint Resolve along_get_sysattr along_get_driver along_get_property along_get_action along_has_tag along_set_num along_add_tag
  along_cleanup_tags along_cleanup_devlinks along_add_devlink along_db_persist along_devlink_prio along_watch_handle : along.

(** What sets the path as well, and what writes files. *)
Section path.
Context `{SY : System} (R : relation udev_device) (HR : DeviceRel R) (HP : PathFree R).
Lemma along_set k v : along R (set_property udev_device_get_properties_list_entry k v).
Proof. by apply along_set_property, along_self. Qed.
#[local] Hint Resolve along_set : along.
Lemma along_set_syspath path : along R (udev_device_set_syspath udev_device_get_properties_list_entry path).
Proof.
  unfold udev_device_set_syspath. apply along_bind; [done|by intros w d; apply rel_path|intros _]. along.
  apply along_update; [done|]. intros d. by destruct (sysnum_loop _ _ _).
Qed.
#[local] Hint Resolve along_set_syspath : along.
Lemma along_devlinks_parse n s : along R (devlinks_parse n s).
Proof. revert s. induction n as [|n IH]; intros s; cbn [devlinks_parse]; along. Qed.
Lemma along_tags_parse n s : along R (tags_parse n s).
Proof. revert s. induction n as [|n IH]; intros s; cbn [tags_parse]; along. Qed.
#[local] Hint Resolve along_devlinks_parse along_tags_parse : along.
Lemma along_set_action a : along R (udev_device_set_action udev_device_get_properties_list_entry a).
Proof. unfold udev_device_set_action. along. Qed.
#[local] Hint Resolve along_set_action : along.
Lemma along_from_string_parse p : along R (udev_device_add_property_from_string_parse p).
Proof.
  unfold udev_device_add_property_from_string_parse, udev_device_set_subsystem, udev_device_set_devtype, udev_device_set_devnode,
    udev_device_set_usec_initialized, udev_device_set_driver, udev_device_set_devpath_old, udev_device_set_seqnum,
    udev_device_set_ifindex, udev_device_set_devnode_mode, udev_device_set_devnode_uid, udev_device_set_devnode_gid,
    udev_device_add_property_from_string. pose proof (fun p => along_from_string R HR _ (along_self R HR) p). along.
Qed.
Lemma along_parse_finish : along R udev_device_add_property_from_string_parse_finish.
Proof. unfold udev_device_add_property_from_string_parse_finish, udev_device_set_devnum. along. Qed.
Lemma along_has_info : along R device_has_info.
Proof. unfold device_has_info, udev_device_get_devlink_priority, udev_device_get_watch_handle. along. Qed.
#[local] Hint Resolve along_has_info : along.
Lemma along_db_contents : along R db_contents.
Proof. unfold db_contents, udev_device_get_devlink_priority, udev_device_get_watch_handle. along. Qed.
#[local] Hint Resolve along_db_contents : along.
Lemma along_update_db : along R udev_device_update_db.
Proof. unfold udev_device_update_db. along. Qed.
Lemma along_delete_db : along R udev_device_delete_db.
Proof. unfold udev_device_delete_db. along. Qed.
Lemma along_tag t add : along R (udev_device_tag t add).
Proof. unfold udev_device_tag. along. Qed.
End path.
#[export] Hint Resolve along_set along_set_syspath along_set_action along_from_string_parse along_parse_finish along_update_db along_delete_db along_tag : along.
End DeviceFrame.
