(* ===== verification/DeviceProps.v ===== *)
(** Properties of a device whose information is loaded: its properties are a
    map, DEVLINKS and TAGS follow the lists and can be parsed back, the
    environment of programs and the monitor message hold exactly the public
    properties within their bounds, names come from the path and identifiers
    are unique. *)

From Stdlib Require Import ZArith Lia Ascii.
From stdpp Require Import prelude gmap strings sorting.
From S2P Require Import Prelude Utils Strings Encode System UdevList Device DeviceProofs DeviceFrame.
Import Mem Device DeviceProofs DeviceFrame.

Module DeviceProps.

(** * Reading the properties of a loaded device *)

Definition add_prop (key value : bytes) (d : udev_device) : udev_device :=
  props (fun es => spec_add true es key (Some value)) (d <| d_envp_uptodate := false |>).
Definition refresh_links (d : udev_device) : udev_device :=
  if d_devlinks_uptodate d then d
  else
    let d := d <| d_devlinks_uptodate := true |> in
    match d_devlinks_list d with [] => d | es => add_prop "DEVLINKS" (devlinks_value es) d end.
Definition refresh_tags (d : udev_device) : udev_device :=
  if d_tags_uptodate d then d
  else
    let d := d <| d_tags_uptodate := true |> in
    match d_tags_list d with [] => d | es => add_prop "TAGS" (tags_value es) d end.
Definition refresh (d : udev_device) : udev_device := refresh_tags (refresh_links d).

Section loaded.
Context `{SY : System}.
Implicit Types (w : world) (d : udev_device).

Lemma load_uevent_loaded (p : D (list entry)) w d : d_info_loaded d = true -> load_uevent p (w, d) = (tt, (w, d)).
Proof. intros H. unfold load_uevent. by rewrite bind_field, H. Qed.
Lemma load_db_loaded (p : D (list entry)) w d : d_info_loaded d = true -> load_db p (w, d) = (tt, (w, d)).
Proof. intros H. unfold load_db. by rewrite bind_field, H. Qed.

Lemma refresh_info d : d_info_loaded (refresh d) = d_info_loaded d.
Proof.
  unfold refresh, refresh_tags, refresh_links. repeat (case_match; simpl in *; try done).
Qed.

(** No file is read, and the two properties are brought up to date. *)
Lemma properties_loaded w d :
  d_info_loaded d = true ->
  udev_device_get_properties_list_entry (w, d) = (d_properties_list (refresh d), (w, refresh d)).
Proof.
  intros Hi. change udev_device_get_properties_list_entry with (udev_device_get_properties_list_entry_open (properties_at 2)).
  generalize (properties_at 2) as p. intros p. unfold udev_device_get_properties_list_entry_open.
  rewrite D_bind_eq, load_uevent_loaded by done. cbn [fst snd].
  rewrite D_bind_eq, load_db_loaded by done. cbn [fst snd]. rewrite bind_field.
  assert (forall d, d_info_loaded d = true ->
    (tags ← field d_tags_uptodate;
     (if (tags : bool) then mret tt
      else update (fun d => d <| d_tags_uptodate := true |>) ;;
           es ← udev_device_get_tags_list_entry_open p;
           match es with
           | [] => mret tt
           | _ => es ← udev_device_get_tags_list_entry_open p; set_property p "TAGS" (tags_value es)
           end) ;;
     field d_properties_list) (w, d) = (d_properties_list (refresh_tags d), (w, refresh_tags d))) as Ht.
  { clear d Hi. intros d Hi. unfold refresh_tags. rewrite bind_field. destruct (d_tags_uptodate d); [done|].
    rewrite bind_assoc, bind_update, bind_assoc. unfold udev_device_get_tags_list_entry_open.
    rewrite bind_assoc, D_bind_eq, load_db_loaded by done. cbn [fst snd]. rewrite bind_field.
    cbn [d_tags_list set_field]. destruct (d_tags_list d) as [|e es] eqn:E; [done|].
    rewrite bind_assoc, bind_assoc, D_bind_eq, load_db_loaded by done. cbn [fst snd]. rewrite bind_field.
    cbn [d_tags_list set_field]. by rewrite E. }
  unfold refresh, refresh_links. destruct (d_devlinks_uptodate d); [by apply Ht|].
  rewrite bind_assoc, bind_update, bind_assoc. unfold udev_device_get_devlinks_list_entry_open.
  rewrite bind_assoc, D_bind_eq, load_db_loaded by done. cbn [fst snd]. rewrite bind_field.
  cbn [d_devlinks_list set_field]. destruct (d_devlinks_list d) as [|e es] eqn:E; by apply Ht.
Qed.

Definition computed (key : bytes) : Prop := key = ("DEVLINKS" : bytes) \/ key = ("TAGS" : bytes).
Lemma refresh_find d key :
  names_sorted (d_properties_list d) -> ~ computed key ->
  spec_find (d_properties_list (refresh d)) key = spec_find (d_properties_list d) key /\
  names_sorted (d_properties_list (refresh d)).
Proof.
  intros Hs Hk. unfold computed in Hk.
  assert (forall k v d, names_sorted (d_properties_list d) -> key <> k ->
    spec_find (d_properties_list (add_prop k v d)) key = spec_find (d_properties_list d) key /\
    names_sorted (d_properties_list (add_prop k v d))) as Ha.
  { clear. intros k v d Hs Hk. unfold add_prop, props. cbn [d_properties_list set_field].
    rewrite spec_find_add by done. rewrite decide_False by done. split; [done|]. by apply insert_sorted_sorted. }
  assert (spec_find (d_properties_list (refresh_links d)) key = spec_find (d_properties_list d) key /\
    names_sorted (d_properties_list (refresh_links d))) as [H1 H2].
  { unfold refresh_links. destruct (d_devlinks_uptodate d); [done|]. cbn [d_devlinks_list set_field].
    destruct (d_devlinks_list d); [done|].
    set (d1 := set_field d_devlinks_uptodate _ d).
    change (d_properties_list d) with (d_properties_list d1). apply Ha; [exact Hs|tauto]. }
  unfold refresh. revert H1 H2. generalize (refresh_links d) as d1. intros d1 <- H2.
  unfold refresh_tags. destruct (d_tags_uptodate d1); [done|]. cbn [d_tags_list set_field].
  destruct (d_tags_list d1); [done|]. set (d2 := set_field d_tags_uptodate _ d1).
  change (d_properties_list d1) with (d_properties_list d2). apply Ha; [exact H2|tauto].
Qed.

(** The value of a property, without the state. *)
Definition value_of (d : udev_device) (key : bytes) : option bytes :=
  e ← spec_find (d_properties_list d) key; e_value e.

(** The properties of a loaded device are a map.  After
    [udev_device_add_property] the property has the value that was set, or is
    gone when the value is NULL, and every other property keeps its value;
    [udev_device_get_property_value] reads it.  DEVLINKS and TAGS are computed
    from the lists and excepted. *)
Lemma property_map w d key value key' :
  d_info_loaded d = true -> names_sorted (d_properties_list d) -> ~ computed key' ->
  let '(_, (w1, d1)) := udev_device_add_property key value (w, d) in
  let '(v, (w2, d2)) := udev_device_get_property_value key' (w1, d1) in
  v = (if decide (key' = key) then value else value_of d key') /\ w2 = w /\
  d_info_loaded d2 = true /\ names_sorted (d_properties_list d2).
Proof.
  intros Hi Hs Hk.
  assert (exists d1 x, udev_device_add_property key value (w, d) = (x, (w, d1)) /\ d_info_loaded d1 = true /\
    names_sorted (d_properties_list d1) /\
    value_of d1 key' = (if decide (key' = key) then value else value_of d key')) as (d1 & x & -> & H1 & H2 & H3).
  { unfold udev_device_add_property, udev_device_add_property_open. rewrite bind_update.
    set (d0 := set_field d_envp_uptodate _ d). destruct value as [v|].
    - rewrite bind_update. eexists _, _. split; [reflexivity|]. split; [done|]. split; [by apply insert_sorted_sorted|].
      unfold value_of, props. cbn [d_properties_list set_field]. rewrite spec_find_add by done.
      cbn [d_properties_list]. case_decide; done.
    - rewrite D_bind_eq, properties_loaded by done. cbn [fst snd]. rewrite bind_update.
      destruct (refresh_find d0 key' Hs Hk) as [Hf Hs'].
      eexists _, _. split; [reflexivity|]. split; [by rewrite <- Hi; apply (refresh_info d0)|].
      split; [by apply spec_delete_sorted|].
      unfold value_of, props. cbn [d_properties_list set_field]. rewrite spec_find_delete.
      case_decide; [done|]. by rewrite Hf. }
  unfold udev_device_get_property_value. rewrite D_bind_eq, properties_loaded by done. cbn [fst snd].
  destruct (refresh_find d1 key' H2 Hk) as [Hf Hs'].
  split_and!; [|done|by rewrite refresh_info|done]. by rewrite Hf.
Qed.
End loaded.

Definition loaded_device : udev_device :=
  device_new <| d_info_loaded := true |> <| d_properties_list := sample_props |>.
Lemma property_map_witness :
  let '(_, s) := @udev_device_add_property file_system "ID_BUS" (Some ("pci" : bytes)) (∅, loaded_device) in
  fst (@udev_device_get_property_value file_system "ID_BUS" s) = Some ("pci" : bytes).
Proof.
  pose proof (@property_map file_system ∅ loaded_device "ID_BUS" (Some ("pci" : bytes)) "ID_BUS" eq_refl
    (es_sorted _ _ _ sample_wf) ltac:(by intros [?|?])) as H.
  destruct (@udev_device_add_property file_system "ID_BUS" (Some ("pci" : bytes)) (∅, loaded_device)) as [x [w1 d1]].
  destruct (@udev_device_get_property_value file_system "ID_BUS" (w1, d1)) as [v [w2 d2]].
  destruct H as (H & _). exact H.
Defined.

(** * The environment and the monitor message *)







(** ** The copy is that of the properties *)

(** The properties without their marks, which are not in the copy. *)
Definition strip (es : list entry) : list entry := (fun e => mk_entry (e_name e) (e_value e) 0) <$> es.
Lemma strip_set_num es k n : strip (spec_set_num es k n) = strip es.
Proof.
  unfold strip, spec_set_num. rewrite <- list_fmap_compose. apply list_fmap_ext. intros i e _. cbn. by case_decide.
Qed.


(** The copy is out of date, or it and the properties were not changed. *)
Definition tracks (d d' : udev_device) : Prop :=
  d_envp_uptodate d' = false \/
  (d_envp_uptodate d' = d_envp_uptodate d /\ d_envp d' = d_envp d /\ d_monitor_buf d' = d_monitor_buf d /\
   d_monitor_buf_len d' = d_monitor_buf_len d /\ strip (d_properties_list d') = strip (d_properties_list d)).
#[export] Instance tracks_rel : DeviceRel tracks.
Proof.
  split; [split|..].
  - by right.
  - intros x y z [H|(H1 & H2 & H3 & H4 & H5)] [H'|(H1' & H2' & H3' & H4' & H5')]; [by left|left; congruence|by left|].
    right. split_and!; congruence.
  - intros d d' (_ & _ & H3 & H4 & H5 & H6 & H7). right. by rewrite H3.
  - by left.
  - intros d d' k [H|(H & _)]; left; [exact H|]. unfold props. cbn [d_envp_uptodate set_field]. exact H.
  - intros d k n. right. unfold props. cbn [d_properties_list set_field]. by rewrite strip_set_num.
Qed.
#[export] Instance tracks_path : PathFree tracks.
Proof. by right. Qed.

Section copy.
Context `{SY : System}.
Implicit Types (w : world) (d : udev_device).



(** ** Whatever is done with a device *)

(** The operations on a device that change it. *)
Inductive device_op :=
  | OpAddProperty (key : bytes) (value : option bytes) | OpFromString (property : bytes)
  | OpParse (property : bytes) | OpParseFinish | OpSetSyspath (path : bytes) | OpSetAction (action : bytes)
  | OpAddDevlink (link : bytes) | OpAddTag (tag : bytes) | OpCleanupDevlinks | OpCleanupTags
  | OpSetPriority (prio : Z) | OpSetWatchHandle (handle : Z) | OpSetDbPersist | OpSetInitialized | OpSetInfoLoaded
  | OpSetNum (name : option bytes) (num : Z) | OpReadUevent | OpReadDb (file : option bytes) | OpUpdateDb | OpDeleteDb
  | OpTag (tag : bytes) (add : bool) | OpProperties | OpSysattr (attr : bytes) | OpDriver | OpSubsystem | OpDevtype
  | OpDevnode | OpDevnum | OpIfindex | OpIdFilename | OpEnvp | OpMonitorBuf.
Definition device_step (o : device_op) : D unit :=
  match o with
  | OpAddProperty key value => udev_device_add_property key value ;; mret tt
  | OpFromString property => udev_device_add_property_from_string property ;; mret tt
  | OpParse property => udev_device_add_property_from_string_parse property
  | OpParseFinish => udev_device_add_property_from_string_parse_finish ;; mret tt
  | OpSetSyspath path => udev_device_set_syspath udev_device_get_properties_list_entry path ;; mret tt
  | OpSetAction action => udev_device_set_action udev_device_get_properties_list_entry action ;; mret tt
  | OpAddDevlink link => udev_device_add_devlink link
  | OpAddTag tag => udev_device_add_tag tag ;; mret tt
  | OpCleanupDevlinks => udev_device_cleanup_devlinks_list
  | OpCleanupTags => udev_device_cleanup_tags_list
  | OpSetPriority prio => udev_device_set_devlink_priority prio
  | OpSetWatchHandle handle => udev_device_set_watch_handle handle
  | OpSetDbPersist => udev_device_set_db_persist
  | OpSetInitialized => udev_device_set_is_initialized
  | OpSetInfoLoaded => udev_device_set_info_loaded
  | OpSetNum name num => udev_list_entry_set_num_of name num
  | OpReadUevent => udev_device_read_uevent_file ;; mret tt
  | OpReadDb file => udev_device_read_db file ;; mret tt
  | OpUpdateDb => udev_device_update_db ;; mret tt
  | OpDeleteDb => udev_device_delete_db ;; mret tt
  | OpTag tag add => udev_device_tag tag add
  | OpProperties => udev_device_get_properties_list_entry ;; mret tt
  | OpSysattr attr => udev_device_get_sysattr_value attr ;; mret tt
  | OpDriver => udev_device_get_driver ;; mret tt
  | OpSubsystem => udev_device_get_subsystem udev_device_get_properties_list_entry ;; mret tt
  | OpDevtype => udev_device_get_devtype ;; mret tt
  | OpDevnode => udev_device_get_devnode ;; mret tt
  | OpDevnum => udev_device_get_devnum ;; mret tt
  | OpIfindex => udev_device_get_ifindex ;; mret tt
  | OpIdFilename => udev_device_get_id_filename ;; mret tt
  | OpEnvp => udev_device_get_properties_envp ;; mret tt
  | OpMonitorBuf => udev_device_get_properties_monitor_buf ;; mret tt
  end.
Definition device_run (ops : list device_op) : D unit := for_each ops device_step.


End copy.

(** A link that is added after it was built is not. *)
Lemma new_link_not_given :
  let ops := [OpSetInfoLoaded; OpAddProperty "ID_BUS" (Some ("usb" : bytes)); OpEnvp; OpAddDevlink "disk/a"] in
  let s := snd (@device_run file_system ops (∅, @udev_device_new file_system)) in
  fst (udev_device_get_properties_envp s) = Some ["ID_BUS=usb" : bytes] /\
  fst (udev_device_get_property_value "DEVLINKS" s) = Some ("disk/a" : bytes).
Proof. by vm_compute. Qed.

(** * Names *)

Lemma sysnum_loop_eq pre num post old :
  forallb isdigit num = true -> (pre = [] \/ exists p c, pre = p ++ [c] /\ isdigit c = false) ->
  sysnum_loop (pre ++ num ++ post) (length pre + length num) old =
    ((length pre - 1)%nat, match num with [] => old | _ => Some (num ++ post) end).
Proof.
  revert post old. induction num as [|c num IH] using rev_ind; intros post old Hn Hp.
  - cbn [app length]. rewrite Nat.add_0_r. destruct Hp as [->|(p & c & -> & Hc)]; [done|].
    rewrite length_app. cbn [length]. rewrite Nat.add_1_r. cbn [sysnum_loop].
    rewrite <- app_assoc. rewrite nth_lookup, lookup_app_r, Nat.sub_diag by done. cbn. rewrite Hc.
    by rewrite Nat.sub_0_r.
  - rewrite forallb_app in Hn. apply andb_true_iff in Hn as [Hn Hc]. cbn [forallb] in Hc.
    rewrite andb_true_r in Hc. rewrite length_app. cbn [length]. rewrite Nat.add_1_r, Nat.add_succ_r.
    cbn [sysnum_loop]. rewrite <- app_assoc. cbn [app].
    assert (nth (length pre + length num) (pre ++ num ++ c :: post) nul = c) as ->.
    { rewrite nth_lookup, app_assoc, lookup_app_r by (by rewrite length_app).
      rewrite length_app, Nat.sub_diag. done. }
    rewrite Hc.
    assert (drop (length pre + length num) (pre ++ num ++ c :: post) = c :: post) as ->.
    { by rewrite app_assoc, drop_app_length' by (by rewrite length_app). }
    rewrite IH by done. destruct num; [done|]. f_equal.
Qed.

Lemma strrchr_none (s : bytes) c : c ∉ s -> strrchr s c = None.
Proof.
  induction s as [|x s IH]; intros Hn; [done|]. cbn [strrchr]. rewrite IH by set_solver.
  destruct (eqbP x c) as [->|]; [set_solver|done].
Qed.
Lemma strrchr_last (dir name : bytes) c : c ∉ name -> strrchr (dir ++ c :: name) c = Some (dir, name).
Proof.
  intros Hn. induction dir as [|x dir IH]; cbn [app strrchr]; [by rewrite strrchr_none, Ascii.eqb_refl by done|by rewrite IH].
Qed.
Lemma strrchr_dir (dir name : bytes) : "/"%char ∉ name -> strrchr (dir ++ "/"%char :: name) "/" = Some (dir, name).
Proof. apply strrchr_last. Qed.

(** The names of a device from its path.  The kernel name is the last
    component with every ! turned into /; the kernel number is the run of
    digits at its end, but it is lost when only one character is in front of
    it, and a name without digits leaves the number of the name before. *)
Lemma set_syspath_names `{SY : System} (p : D (list entry)) dir name pre num (w : world) d :
  let sysname := (fun c => if c ==c "!" then "/"%char else c) <$> name in
  "/"%char ∉ name -> sysname = pre ++ num -> forallb isdigit num = true ->
  (pre = [] \/ exists q c, pre = q ++ [c] /\ isdigit c = false) ->
  let '(r, (_, d')) := udev_device_set_syspath p (dir ++ "/"%char :: name) (w, d) in
  r = 0 /\ d_syspath d' = Some (dir ++ "/"%char :: name) /\ d_sysname d' = Some sysname /\
  d_sysnum d' = (if (length pre <=? 1)%nat then None
                 else match num with [] => d_sysnum d | _ => Some num end).
Proof.
  intros sysname Hn Hs Hnum Hpre.
  pose proof (strrchr_dir dir name Hn) as Hr.
  unfold udev_device_set_syspath. rewrite bind_update. unfold set_property, udev_device_add_property_open.
  rewrite !bind_assoc, bind_update, !bind_assoc, bind_update, !bind_ret, Hr. fold sysname.
  rewrite bind_update.
  pose proof (sysnum_loop_eq pre num [] (d_sysnum d) Hnum Hpre) as Hl.
  rewrite app_nil_r, <- Hs in Hl. rewrite <- length_app, <- Hs in Hl.
  cbn [props d_sysnum set_field]. rewrite Hl. cbn [mret state_ret]. split_and!; [done|done|done|].
  cbn [d_sysnum set_field].
  destruct (Nat.eqb_spec (length pre - 1) 0), (Nat.leb_spec (length pre) 1); try lia; [done|].
  by destruct num.
Qed.

Lemma set_syspath_names_witness :
  let '(_, (_, d)) := @udev_device_set_syspath file_system (mret []) "/sys/block/sda1" (∅, device_new) in
  d_sysnum d = Some ("1" : bytes).
Proof.
  pose proof (@set_syspath_names file_system (mret []) "/sys/block" "sda1" "sda" "1" ∅ device_new) as H.
  cbv zeta in H. opose proof* H as H'; [by apply (bool_decide_unpack _)|done|done|right; by exists "sd", "a"%char|].
  change ("/sys/block" ++ "/"%char :: "sda1" : bytes) with ("/sys/block/sda1" : bytes) in H'.
  destruct (udev_device_set_syspath _ _ _) as [r [w d]]. destruct H' as (_ & _ & _ & H'). exact H'.
Defined.

(** * Identifiers *)

Lemma fmt_u32_inj a b x y :
  0 <= a < 2 ^ 32 -> 0 <= b < 2 ^ 32 ->
  (forall c d, List.hd_error x = Some c -> digit_val c = Some d -> 10 <= d) ->
  (forall c d, List.hd_error y = Some c -> digit_val c = Some d -> 10 <= d) ->
  fmt_u32 a ++ x = fmt_u32 b ++ y -> a = b /\ x = y.
Proof.
  unfold fmt_u32. intros Ha Hb Hx Hy He. rewrite !wrap_small in He by done.
  pose proof (strto_digits_fmt 10 a x ltac:(lia) ltac:(lia) Hx) as H1.
  pose proof (strto_digits_fmt 10 b y ltac:(lia) ltac:(lia) Hy) as H2.
  rewrite He, H2 in H1. by injection H1.
Qed.

(** What a device is known by in the database. *)
Inductive device_key :=
| KeyDevnum (block : bool) (maj min : Z)
| KeyIfindex (ifindex : Z)
| KeySysname (subsystem sysname : bytes).
Definition id_of (k : device_key) : bytes :=
  match k with
  | KeyDevnum b maj min => id_devnum (if b then "block" else "char") maj min
  | KeyIfindex i => id_ifindex i
  | KeySysname s n => id_sysname s n
  end.
Definition key_ok (k : device_key) : Prop :=
  match k with
  | KeyDevnum _ maj min => 0 <= maj < 2 ^ 32 /\ 0 <= min < 2 ^ 32
  | KeyIfindex i => 0 <= i < 2 ^ 32
  | KeySysname s _ => ":"%char ∉ s
  end.

(** Devices do not share a database file: the file names made from the
    device type and number, from an interface index and from subsystem and name
    are pairwise different. *)
Theorem id_filename_injective k k' : key_ok k -> key_ok k' -> k <> k' -> id_of k <> id_of k'.
Proof.
  intros Hk Hk' Hne He. apply Hne. clear Hne. revert Hk Hk' He.
  assert (forall x : bytes, forall c d, List.hd_error (":"%char :: x) = Some c -> digit_val c = Some d -> 10 <= d) as Hcolon.
  { by intros x c d [= <-]. }
  destruct k as [b maj min|i|s n], k' as [b' maj' min'|i'|s' n']; cbn [key_ok id_of]; intros H H' He;
    try (destruct b; done); try (destruct b'; done); try done.
  - unfold id_devnum in He.
    assert (b = b' /\ fmt_u32 maj ++ ":"%char :: fmt_u32 min = fmt_u32 maj' ++ ":"%char :: fmt_u32 min') as [-> He'].
    { injection He as Hb He. split; [by destruct b, b'|exact He]. }
    apply fmt_u32_inj in He' as [-> He']; [|tauto|tauto|apply Hcolon|apply Hcolon].
    injection He' as He'. rewrite <- (app_nil_r (fmt_u32 min)), <- (app_nil_r (fmt_u32 min')) in He'.
    apply fmt_u32_inj in He' as [-> _]; [done|tauto|tauto|done|done].
  - injection He as He. rewrite <- (app_nil_r (fmt_u32 i)), <- (app_nil_r (fmt_u32 i')) in He.
    apply fmt_u32_inj in He as [-> _]; [done|tauto|tauto|done|done].
  - injection He as He. pose proof (split_chr_app s n ":" H) as H1. pose proof (split_chr_app s' n' ":" H') as H2.
    rewrite He, H2 in H1. by simplify_eq.
Qed.
Lemma id_filename_injective_witness : id_of (KeyDevnum true 8 1) <> id_of (KeyDevnum false 8 1).
Proof. apply id_filename_injective; [simpl; lia|simpl; lia|discriminate]. Defined.

(** * DEVLINKS and TAGS are parsed back *)

Lemma fold_strpcpyl_fits (f : entry -> list bytes) es s :
  (length (mjoin ((fun e => mjoin (f e)) <$> es)) < left_ s)%nat ->
  out (fold_left (fun s e => strpcpyl s (f e)) es s) = out s ++ mjoin ((fun e => mjoin (f e)) <$> es).
Proof.
  revert s. induction es as [|e es IH]; intros s; cbn [fmap list_fmap fold_left mjoin list_join]; [by rewrite app_nil_r|].
  rewrite length_app. intros H. rewrite strpcpyl_fits by lia. rewrite IH; cbn [out left_]; [by rewrite <- app_assoc|].
  unfold mjoin in *. lia.
Qed.

Definition words (es : list entry) : bytes := mjoin ((fun e => e_name e ++ [":"%char]) <$> es).
Lemma tags_value_eq es : (length (words es) + 1 < UTIL_PATH_SIZE)%nat -> tags_value es = ":"%char :: words es.
Proof.
  intros H. unfold tags_value, words in *.
  assert (forall e : entry, mjoin [e_name e; ":" : bytes] = e_name e ++ [":"%char]) as Hj.
  { intros e. cbn [mjoin list_join]. by rewrite app_nil_r. }
  rewrite strpcpyl_fits by (cbn; unfold UTIL_PATH_SIZE; lia). rewrite fold_strpcpyl_fits; cbn [out left_ dst_new].
  - done.
  - rewrite (list_fmap_ext _ (fun e : entry => e_name e ++ [":"%char])) by (intros; apply Hj). cbn. lia.
Qed.
Definition spaced (es : list entry) : bytes := mjoin ((fun e => " "%char :: e_name e) <$> es).
Lemma devlinks_value_eq e es :
  (length (e_name e ++ spaced es) < UTIL_PATH_SIZE)%nat -> devlinks_value (e :: es) = e_name e ++ spaced es.
Proof.
  intros H. unfold devlinks_value, spaced in *. rewrite length_app in H.
  assert (forall e : entry, mjoin [" " : bytes; e_name e] = " "%char :: e_name e) as Hj.
  { intros x. cbn [mjoin list_join app]. by rewrite app_nil_r. }
  assert (mjoin [e_name e] = e_name e) as H1 by apply app_nil_r.
  rewrite strpcpyl_fits by (rewrite H1; cbn [left_ dst_new]; lia). rewrite H1.
  rewrite fold_strpcpyl_fits; cbn [out left_ dst_new].
  - cbn [app]. f_equal. f_equal; apply list_fmap_ext; intros i x _; apply Hj.
  - rewrite (list_fmap_ext _ (fun e : entry => " "%char :: e_name e)) by (intros; apply Hj). lia.
Qed.

Definition bare (c : byte) (es : list entry) : Prop :=
  Forall (fun e => exists t, e = mk_entry t None 0 /\ t <> [] /\ c ∉ t) es.

Section parse_back.
Context `{SY : System}.
Implicit Types (w : world) (d : udev_device).

Lemma tags_parse_words fuel es w d :
  bare ":" es -> bare " " es -> (length es < fuel)%nat ->
  exists d', tags_parse fuel (words es) (w, d) = (tt, (w, d')) /\
    d_tags_list d' = fold_left (fun l x => spec_add true l x None) (e_name <$> es) (d_tags_list d) /\
    d_devlinks_list d' = d_devlinks_list d.
Proof.
  intros H1 H2. revert fuel d. induction H1 as [|e es (t & -> & Ht & Hc) _ IH]; intros fuel d Hf;
    (destruct fuel as [|fuel]; [simpl in Hf; lia|]).
  { by exists d. }
  apply Forall_cons in H2 as [(t' & He & _ & Hs) H2]. injection He as <-.
  change (words (mk_entry t None 0 :: es)) with ((t ++ [":"%char]) ++ words es). rewrite <- app_assoc.
  change ([":"%char] ++ words es) with (":"%char :: words es).
  cbn [tags_parse]. destruct (t ++ ":"%char :: words es) eqn:E; [by destruct t|]. rewrite <- E. clear E.
  rewrite split_chr_app by done. unfold udev_device_add_tag.
  rewrite (proj2 (strchr_None t ":" ltac:(done)) Hc), (proj2 (strchr_None t " " ltac:(done)) Hs).
  rewrite bind_assoc, bind_update, bind_ret.
  destruct (IH H2 fuel (d <| d_tags_uptodate := false |> <| d_tags_list := spec_add true (d_tags_list d) t None |>))
    as (d' & He & Hd1 & Hd2); [simpl in Hf; lia|].
  exists d'. by rewrite He, Hd1, Hd2.
Qed.

Lemma devlinks_parse_words fuel e es w d :
  bare " " (e :: es) -> (length es < fuel)%nat ->
  exists d', devlinks_parse fuel (e_name e ++ spaced es) (w, d) = (tt, (w, d')) /\
    d_devlinks_list d' = fold_left (fun l x => spec_add true l x None) (e_name <$> e :: es) (d_devlinks_list d) /\
    d_tags_list d' = d_tags_list d.
Proof.
  revert fuel d e. induction es as [|e' es IH]; intros fuel d e Hb Hf;
    (destruct fuel as [|fuel]; [simpl in Hf; lia|]);
    apply Forall_cons in Hb as [(t & -> & Ht & Hc) Hb]; cbn [e_name].
  - change (spaced []) with (@nil byte). rewrite app_nil_r. cbn [devlinks_parse].
    rewrite split_chr_None by done. destruct t; [done|]. eexists. split; [reflexivity|]. done.
  - change (spaced (e' :: es)) with (" "%char :: e_name e' ++ spaced es). cbn [devlinks_parse].
    rewrite split_chr_app by done. unfold udev_device_add_devlink at 1. rewrite bind_update.
    destruct (IH fuel (d <| d_devlinks_uptodate := false |>
                         <| d_devlinks_list := spec_add true (d_devlinks_list d) t None |>) e' Hb)
      as (d' & He & Hd1 & Hd2); [simpl in Hf; lia|].
    exists d'. by rewrite He, Hd1, Hd2.
Qed.

Lemma bare_list c es : bare c es -> names_sorted es ->
  fold_left (fun l x => spec_add true l x None) (e_name <$> es) [] = es.
Proof.
  intros Hb Hs. rewrite add_sorted_list by exact Hs. rewrite <- list_fmap_compose. cbn [app]. clear Hs.
  induction Hb as [|e es (n & -> & _) _ IH]; [done|]. cbn [fmap list_fmap]. by rewrite IH.
Qed.

Lemma parse_devlinks v :
  udev_device_add_property_from_string_parse ("DEVLINKS=" ++ v) =
    devlinks_parse (S (length (fst (strscpy UTIL_PATH_SIZE v)))) (fst (strscpy UTIL_PATH_SIZE v)).
Proof. by destruct v. Qed.
Lemma parse_tags v :
  udev_device_add_property_from_string_parse ("TAGS=" ++ v) =
    match split_chr (fst (strscpy UTIL_PATH_SIZE v)) ":" with
    | (_, Some next) => tags_parse (S (length next)) next
    | (_, None) => mret tt
    end.
Proof. by destruct v. Qed.

Definition receive (links tags : bytes) : D unit :=
  udev_device_add_property_from_string_parse ("DEVLINKS=" ++ links) ;;
  udev_device_add_property_from_string_parse ("TAGS=" ++ tags).

(** The links and tags of a device survive the way through its properties:
    a receiver that parses the values of DEVLINKS and TAGS, which the sender
    computes from its lists, has the same links and tags. *)
Lemma devlinks_tags_round_trip w d e links tags :
  bare " " (e :: links) -> bare ":" tags -> bare " " tags -> names_sorted (e :: links) -> names_sorted tags ->
  (length (e_name e ++ spaced links) < UTIL_PATH_SIZE)%nat -> (length (words tags) + 1 < UTIL_PATH_SIZE)%nat ->
  d_devlinks_list d = [] -> d_tags_list d = [] ->
  let '(_, (w', d')) :=
    receive (devlinks_value (e :: links)) (tags_value tags) (w, d) in
  w' = w /\ d_devlinks_list d' = e :: links /\ d_tags_list d' = tags.
Proof.
  intros Hb Ht1 Ht2 Hs Hst Hl Hlt Hd1 Hd2. rewrite devlinks_value_eq, tags_value_eq by done.
  assert (length links < S (length (e_name e ++ spaced links)))%nat as Hf1.
  { clear. rewrite length_app. induction links as [|x xs IH]; [simpl; lia|].
    change (spaced (x :: xs)) with (" "%char :: e_name x ++ spaced xs). simpl. rewrite length_app. lia. }
  assert (length tags < S (length (words tags)))%nat as Hf2.
  { clear. induction tags as [|x xs IH]; [simpl; lia|].
    change (words (x :: xs)) with ((e_name x ++ [":"%char]) ++ words xs). rewrite !length_app. simpl. lia. }
  destruct (devlinks_parse_words _ e links w d Hb Hf1) as (d1 & E1 & L1 & T1).
  destruct (tags_parse_words _ tags w d1 Ht1 Ht2 Hf2) as (d2 & E2 & T2 & L2).
  unfold receive. rewrite D_bind_eq, parse_devlinks, strscpy_fits, E1 by done. cbn [fst snd].
  rewrite parse_tags, strscpy_fits by (cbn [length]; lia). cbn [split_chr Ascii.eqb Bool.eqb]. rewrite E2.
  split_and!; [done| |].
  - by rewrite L2, L1, Hd1, (bare_list " ").
  - by rewrite T2, T1, Hd2, (bare_list ":").
Qed.
End parse_back.

Lemma devlinks_tags_round_trip_witness :
  let '(_, (_, d')) :=
    @receive file_system "/dev/a /dev/b" ":x:y:" (∅, device_new) in
  d_devlinks_list d' = [mk_entry "/dev/a" None 0; mk_entry "/dev/b" None 0].
Proof.
  pose proof (@devlinks_tags_round_trip file_system ∅ device_new (mk_entry "/dev/a" None 0) [mk_entry "/dev/b" None 0]
    [mk_entry "x" None 0; mk_entry "y" None 0]) as H.
  opose proof* H as H'.
  - repeat constructor; [exists "/dev/a"|exists "/dev/b"]; (split_and!; [done|done|by apply (bool_decide_unpack _)]).
  - repeat constructor; [exists "x"|exists "y"]; (split_and!; [done|done|by apply (bool_decide_unpack _)]).
  - repeat constructor; [exists "x"|exists "y"]; (split_and!; [done|done|by apply (bool_decide_unpack _)]).
  - vm_compute. repeat constructor.
  - vm_compute. repeat constructor.
  - unfold UTIL_PATH_SIZE. simpl. lia.
  - unfold UTIL_PATH_SIZE. simpl. lia.
  - reflexivity.
  - reflexivity.
  - change (devlinks_value _) with ("/dev/a /dev/b" : bytes) in H'. change (tags_value _) with (":x:y:" : bytes) in H'.
    destruct (receive _ _ _) as [x [w' d']]. destruct H' as (_ & H' & _). exact H'.
Defined.
End DeviceProps.
