(* ===== verification/DeviceNew.v ===== *)
(** lib/device/libudev-device.c: devices by their identifier, the name of
    their database file and of their tag and link records, and by the
    environment of a program. *)

From Stdlib Require Import ZArith Lia Ascii.
From stdpp Require Import prelude gmap strings sorting.
From S2P Require Import Prelude Utils Strings Encode System UdevList Device DeviceProofs DeviceProps.
Import Mem Device DeviceProofs DeviceProps.

Module DeviceNew.

(** [%i] of [sscanf]: the base is that of a C constant. *)
Definition scan_digits (base : Z) (s : bytes) : option (Z * bytes) :=
  let '(v, rest) := strto_digits base 0 s in
  if (length rest =? length s)%nat then None else Some (v, rest).
Definition scan_i (s : bytes) : option (Z * bytes) :=
  let s := skip_space s in
  let '(neg, s) := match s with
                   | c :: s' => if c ==c "-" then (true, s') else if c ==c "+" then (false, s') else (false, s)
                   | [] => (false, s)
                   end in
  '(v, rest) ← match s with
               | c :: x :: s' =>
                   if c ==c "0" then
                     if (x ==c "x") || (x ==c "X") then scan_digits 16 s' else scan_digits 8 s
                   else scan_digits 10 s
               | _ => scan_digits 10 s
               end;
  Some (s32 (if neg : bool then - v else v), rest).
(** [sscanf(id, '%c%i:%i')]. *)
Definition scan_devnum (id : bytes) : option (byte * Z * Z) :=
  match id with
  | [] => None
  | type :: s =>
      '(maj, s) ← scan_i s;
      match s with
      | c :: s => if c ==c ":" then '(min, _) ← scan_i s; Some (type, maj, min) else None
      | [] => None
      end
  end.

(** The name of a network interface; [None] when the socket or the call
    fails. *)
Class Interfaces `{SY : System} := sys_ifname : Z -> state world (option bytes).

Section new.
Context `{SY : System} {IF : Interfaces}.

Definition udev_device_new_from_devnum (type : byte) (devnum : Z) : state world (option udev_device) :=
  let path type_str :=
    fst (strscpy UTIL_PATH_SIZE ("/sys/dev/" ++ type_str ++ "/"%char :: fmt_u32 (major devnum) ++ ":"%char :: fmt_u32 (minor devnum))) in
  if type ==c "b" then udev_device_new_from_syspath (path "block")
  else if type ==c "c" then udev_device_new_from_syspath (path "char")
  else mret None.
(** The case of a network interface. *)
Definition new_from_ifindex (ifindex : Z) : state world (option udev_device) :=
  if ifindex <=? 0 then mret None
  else
    name ← sys_ifname ifindex;
    match name with
    | None => mret None
    | Some name =>
        dev ← udev_device_new_from_subsystem_sysname "net" name;
        match dev with
        | None => mret None
        | Some dev =>
            '(i, dev) ← run_device dev udev_device_get_ifindex;
            mret (if i =? ifindex then Some dev else None)
        end
    end.
Definition udev_device_new_from_device_id (id : bytes) : state world (option udev_device) :=
  match id with
  | [] => mret None
  | c :: s =>
      if (c ==c "b") || (c ==c "c") then
        match scan_devnum id with
        | None => mret None
        | Some (type, maj, min) => udev_device_new_from_devnum type (makedev maj min)
        end
      else if c ==c "n" then new_from_ifindex (s32 (fst (strtoul 10 s)))
      else if c ==c "+" then
        match split_chr (fst (strscpy UTIL_PATH_SIZE s)) ":" with
        | (_, None) => mret None
        | (subsys, Some sysname) => udev_device_new_from_subsystem_sysname subsys sysname
        end
      else mret None
  end.
Definition udev_device_new_from_environment (environ : list bytes) : state world (option udev_device) :=
  '(r, d) ← run_device udev_device_new
              (udev_device_set_info_loaded ;;
               for_each environ udev_device_add_property_from_string_parse ;;
               udev_device_add_property_from_string_parse_finish);
  mret (if r <? 0 then None else Some d).

End new.

(** * Identifiers *)

Lemma digits_head fuel base z acc : 2 <= base <= 10 -> 0 < z < 2 ^ Z.of_nat fuel ->
  exists c r, digits fuel base z acc = c :: r /\ c <> "0"%char.
Proof.
  intros Hb. revert z acc. induction fuel as [|fuel IH]; intros z acc Hz; [simpl in Hz; lia|]. cbn [digits].
  destruct (Z.ltb_spec z base).
  - eexists _, _. split; [reflexivity|]. rewrite Z.mod_small by lia. intros E. apply (f_equal digit_val) in E.
    rewrite digit_val_char in E by lia. change (digit_val "0") with (Some 0) in E. injection E as E. lia.
  - rewrite Nat2Z.inj_succ, Z.pow_succ_r in Hz by lia. apply IH. split; [apply Z.div_str_pos; lia|].
    apply Z.div_lt_upper_bound; nia.
Qed.
Lemma fmt_head base z : 2 <= base <= 10 -> 0 < z -> exists c r, fmt base z = c :: r /\ c <> "0"%char.
Proof.
  intros Hb Hz. apply digits_head; [done|]. rewrite Nat2Z.inj_succ, Z2Nat.id by apply Z.log2_nonneg.
  split; [done|]. by apply Z.log2_spec.
Qed.
(** What stands behind a number in an identifier. *)
Definition ends_number (rest : bytes) : Prop := rest = [] \/ exists r, rest = ":"%char :: r.
Lemma scan_digits_fmt base z rest : 2 <= base <= 10 -> 0 <= z -> ends_number rest ->
  scan_digits base (fmt base z ++ rest) = Some (z, rest).
Proof.
  intros Hb Hz Hr. unfold scan_digits. rewrite strto_digits_fmt; [|lia|done|].
  - pose proof (fmt_nonempty base z). destruct (fmt base z) as [|c s]; [done|].
    rewrite (proj2 (Nat.eqb_neq _ _)); [done|]. simpl. rewrite length_app. lia.
  - intros c d. destruct Hr as [->|[r ->]]; [done|]. by intros [= <-].
Qed.
Lemma fmt_first base z : 2 <= base <= 10 ->
  exists c r, fmt base z = c :: r /\ isspace c = false /\ (c ==c "-") = false /\ (c ==c "+") = false.
Proof.
  intros Hb. pose proof (fmt_Forall (fun c => negb (isspace c) && negb (c ==c "-") && negb (c ==c "+") = true) base z Hb) as Hf.
  pose proof (fmt_nonempty base z). destruct (fmt base z) as [|c r]; [done|]. exists c, r.
  assert (negb (isspace c) && negb (c ==c "-") && negb (c ==c "+") = true) as Hc.
  { refine (Forall_inv (Hf _)). by apply (digit_check (fun c => negb (isspace c) && negb (c ==c "-") && negb (c ==c "+"))). }
  by destruct (isspace c), (c ==c "-"), (c ==c "+").
Qed.
Lemma scan_i_fmt z rest : 0 <= z < 2 ^ 31 -> ends_number rest -> scan_i (fmt_u32 z ++ rest) = Some (z, rest).
Proof.
  intros Hz Hr. unfold fmt_u32. rewrite wrap_small by lia.
  assert (s32 z = z) as Hs by (unfold swrap; rewrite Z.mod_small by lia; lia).
  destruct (decide (z = 0)) as [->|Hz0].
  { pose proof (scan_digits_fmt 8 0 rest ltac:(lia) ltac:(lia) Hr) as H8. change (fmt 8 0) with ["0"%char] in H8.
    destruct Hr as [->|[r ->]]; [reflexivity|]. change (fmt 10 0) with ["0"%char]. cbn [app] in *.
    unfold scan_i. change (skip_space ("0"%char :: ":"%char :: r)) with ("0"%char :: ":"%char :: r).
    cbn [Ascii.eqb Bool.eqb orb]. by rewrite H8. }
  destruct (fmt_head 10 z) as (c & s & E & Hc); [lia|lia|]. destruct (fmt_first 10 z) as (c' & s' & E' & H1 & H2 & H3); [lia|].
  rewrite E in E'. injection E' as <- <-. pose proof (scan_digits_fmt 10 z rest ltac:(lia) ltac:(lia) Hr) as Hd.
  rewrite E in *. cbn [app] in *. unfold scan_i. cbn [skip_space]. rewrite H1, H2, H3.
  destruct (eqbP c "0"); [done|]. destruct (s ++ rest); rewrite Hd; cbn [mbind option_bind]; by rewrite Hs.
Qed.

Section round_trip.
Context `{SY : System} {IF : Interfaces}.

(** Numbers fit an [int], and what stands behind the sign of a name the
    buffer. *)
Definition key_fits (k : device_key) : Prop :=
  match k with
  | KeyDevnum _ maj min => 0 <= maj < 2 ^ 31 /\ 0 <= min < 2 ^ 31
  | KeyIfindex i => 0 <= i < 2 ^ 31
  | KeySysname s n => (":"%char ∉ s) /\ (length (s ++ ":"%char :: n) < UTIL_PATH_SIZE)%nat
  end.
(** C31: The identifier of a device names the device it was made for.
    [udev_device_new_from_device_id] of the identifier that
    [udev_device_get_id_filename] makes looks for the same device number, the
    same network interface, or the same subsystem and name; so the name of a
    database file, or of a record of a tag or a link, leads back to the
    device. *)
Theorem device_id_round_trip k w :
  key_fits k ->
  udev_device_new_from_device_id (id_of k) w =
    match k with
    | KeyDevnum b maj min => udev_device_new_from_devnum (if b then "b"%char else "c"%char) (makedev maj min)
    | KeyIfindex i => new_from_ifindex i
    | KeySysname s n => udev_device_new_from_subsystem_sysname s n
    end w.
Proof.
  destruct k as [b maj min|i|s n]; cbn [key_fits id_of].
  - intros [H1 H2]. unfold udev_device_new_from_device_id, id_devnum.
    assert (forall c, scan_devnum (c :: fmt_u32 maj ++ ":"%char :: fmt_u32 min) = Some (c, maj, min)) as Hs.
    { intros c. unfold scan_devnum. rewrite scan_i_fmt by (try done; right; by eexists). cbn [mbind option_bind].
      rewrite Ascii.eqb_refl. rewrite <- (app_nil_r (fmt_u32 min)), scan_i_fmt by (try done; by left). done. }
    destruct b; cbn [str_eq]; rewrite Hs; done.
  - intros H. unfold udev_device_new_from_device_id, id_ifindex. cbn [Ascii.eqb Bool.eqb orb].
    unfold fmt_u32. rewrite wrap_small by lia. rewrite <- (app_nil_r (fmt 10 i)), strtoul_fmt by (try done; lia). cbn [fst].
    replace (s32 i) with i; [done|]. unfold swrap. rewrite Z.mod_small by lia. lia.
  - intros [H1 H2]. unfold udev_device_new_from_device_id, id_sysname. cbn [Ascii.eqb Bool.eqb orb].
    rewrite strscpy_fits by done. by rewrite split_chr_app.
Qed.
End round_trip.

#[export] Instance no_interfaces : Interfaces (SY := file_system) := fun _ w => (None, w).
Lemma device_id_round_trip_witness :
  udev_device_new_from_device_id (SY := file_system) "b8:17" ∅ =
  udev_device_new_from_devnum (SY := file_system) "b" (makedev 8 17) ∅.
Proof. apply (device_id_round_trip (SY := file_system) (KeyDevnum true 8 17) ∅). simpl. lia. Defined.
End DeviceNew.
