(* ===== verification/Enumerate.v ===== *)
(** lib/libudev-enumerate.c: searching /sys for devices that match, and the
    list of what was found: each device once, sorted by its path, but for the
    devices that have to come later. *)

From Stdlib Require Import ZArith Lia Ascii.
From stdpp Require Import prelude gmap strings sorting.
From S2P Require Import Prelude Utils Strings Encode System UdevList Device DeviceProofs DeviceNew.
Import Mem Entries Device DeviceProofs DeviceNew.

Module Enumerate.

(** Without [udev] and [refcount]; a [struct syspath] is its string, whose
    length it stores. *)
Record udev_enumerate := mk_enumerate {
  sysattr_match_list : list entry;
  sysattr_nomatch_list : list entry;
  subsystem_match_list : list entry;
  subsystem_nomatch_list : list entry;
  sysname_match_list : list entry;
  properties_match_list : list entry;
  tags_match_list : list entry;
  parent_match : option udev_device;
  devices_list : list entry;
  devices : list bytes;
  devices_max : Z;
  devices_uptodate : bool;
  match_is_initialized : bool
}.
#[export] Instance udev_enumerate_eta : Eta udev_enumerate := fun e =>
  mk_enumerate (sysattr_match_list e) (sysattr_nomatch_list e) (subsystem_match_list e) (subsystem_nomatch_list e)
    (sysname_match_list e) (properties_match_list e) (tags_match_list e) (parent_match e) (devices_list e)
    (devices e) (devices_max e) (devices_uptodate e) (match_is_initialized e).
Implicit Types en : udev_enumerate.

Definition udev_enumerate_new : udev_enumerate :=
  mk_enumerate [] [] [] [] [] [] [] None [] [] 0 false false.

(** * What is looked for *)

Definition udev_enumerate_add_match_subsystem en (subsystem : option bytes) : udev_enumerate :=
  match subsystem with
  | None => en
  | Some s => en <| subsystem_match_list := spec_add true (subsystem_match_list en) s None |>
  end.
Definition udev_enumerate_add_nomatch_subsystem en (subsystem : option bytes) : udev_enumerate :=
  match subsystem with
  | None => en
  | Some s => en <| subsystem_nomatch_list := spec_add true (subsystem_nomatch_list en) s None |>
  end.
Definition udev_enumerate_add_match_sysattr en (sysattr value : option bytes) : udev_enumerate :=
  match sysattr with
  | None => en
  | Some s => en <| sysattr_match_list := spec_add false (sysattr_match_list en) s value |>
  end.
Definition udev_enumerate_add_nomatch_sysattr en (sysattr value : option bytes) : udev_enumerate :=
  match sysattr with
  | None => en
  | Some s => en <| sysattr_nomatch_list := spec_add false (sysattr_nomatch_list en) s value |>
  end.
Definition udev_enumerate_add_match_property en (property value : option bytes) : udev_enumerate :=
  match property with
  | None => en
  | Some s => en <| properties_match_list := spec_add false (properties_match_list en) s value |>
  end.
Definition udev_enumerate_add_match_tag en (tag : option bytes) : udev_enumerate :=
  match tag with
  | None => en
  | Some s => en <| tags_match_list := spec_add true (tags_match_list en) s None |>
  end.
Definition udev_enumerate_add_match_parent en (parent : option udev_device) : udev_enumerate :=
  match parent with
  | None => en
  | Some d => en <| parent_match := Some d |>
  end.
Definition udev_enumerate_add_match_is_initialized en : udev_enumerate := en <| match_is_initialized := true |>.
Definition udev_enumerate_add_match_sysname en (sysname : option bytes) : udev_enumerate :=
  match sysname with
  | None => en
  | Some s => en <| sysname_match_list := spec_add true (sysname_match_list en) s None |>
  end.

(** * The list *)

(** The array is doubled when it is full. *)
Definition syspath_add en (syspath : bytes) : udev_enumerate :=
  let max := devices_max en in
  let max := if max <=? Z.of_nat (length (devices en)) then u32 (max + Z.max max 1024) else max in
  en <| devices := devices en ++ [syspath] |> <| devices_max := max |> <| devices_uptodate := false |>.
(** [memcmp] of the common length, and then the lengths: this is [strcmp]. *)
Definition syspath_cmp (path1 path2 : bytes) : comparison :=
  let len := Nat.min (length path1) (length path2) in
  match strcmp (take len path1) (take len path2) with
  | Eq => (length path1 ?= length path2)%nat
  | c => c
  end.
Definition delay_device_list : list bytes := ["/block/md" : bytes; "/block/dm-" : bytes].
Definition devices_delay_end (syspath : bytes) : bool :=
  existsb (fun s => bool_decide (is_Some (strstr (drop 4 syspath) s))) delay_device_list.
(** [strcspn] of the slash. *)
Fixpoint span_name (s : bytes) : bytes * bytes :=
  match s with
  | c :: s' => if c ==c "/" then ([], s) else let '(a, r) := span_name s' in (c :: a, r)
  | [] => ([], [])
  end.
Definition devices_delay_later (syspath : bytes) : nat :=
  match strstr syspath "/sound/card" with
  | None => 0
  | Some c =>
      let c := snd (span_name (drop 11 c)) in
      match startswith c "/controlC" with
      | Some _ => length syspath - length c + 1
      | None => 0
      end
  end.
Definition strneq (a b : bytes) (n : nat) : bool := bool_decide (take n a = take n b).

(** The loop over the sorted array: [move_later] is the index that waits and
    the length of its prefix; the results are the list and the paths for its
    end. *)
Fixpoint list_loop (arr rest : list bytes) (i : nat) (prev : option bytes) (move_later : option (nat * nat))
    (delayed out : list bytes) : list bytes * list bytes :=
  let path j := nth j arr [] in
  match rest with
  | [] => (match move_later with Some (j, _) => out ++ [path j] | None => out end, delayed)
  | entry :: rest' =>
      if bool_decide (prev = Some entry) then list_loop arr rest' (S i) prev move_later delayed out
      else if devices_delay_end entry then
        list_loop arr rest' (S i) (Some entry) move_later (delayed ++ [entry]) out
      else
        let later := match move_later with None => devices_delay_later entry | Some _ => 0%nat end in
        if (0 <? later)%nat then list_loop arr rest' (S i) (Some entry) (Some (i, later)) delayed out
        else
          match move_later with
          | Some (j, n) =>
              if negb (strneq entry (path j) n) then
                list_loop arr rest' (S i) (Some entry) None delayed (out ++ [path j; entry])
              else list_loop arr rest' (S i) (Some entry) move_later delayed (out ++ [entry])
          | None => list_loop arr rest' (S i) (Some entry) None delayed (out ++ [entry])
          end
  end.
Definition udev_enumerate_get_list_entry en : udev_enumerate :=
  if devices_uptodate en then en
  else
    let arr := qsort (fun a b => match syspath_cmp a b with Lt => true | _ => false end) (devices en) in
    let '(out, delayed) := list_loop arr arr 0 None None [] [] in
    let en := fold_left syspath_add delayed (en <| devices := arr |>) in
    en <| devices_list := (fun p => mk_entry p None 0) <$> out ++ delayed |>
       <| devices := arr |> <| devices_uptodate := true |>.

(** * Searching *)

Section scan.
Context `{SY : System} {IF : Interfaces} {G : Glob}.
(** The names in a directory that are directories by their [d_type], or
    errno. *)
Context (sys_readdir_dirs : bytes -> state world (Z + list bytes)).

Definition match_sysattr_value (sysattr : bytes) (match_val : option bytes) : D bool :=
  val ← udev_device_get_sysattr_value sysattr;
  mret (match val, match_val with
        | None, _ => false
        | Some _, None => true
        | Some val, Some m => fnmatch m val
        end).
Fixpoint any_sysattr (es : list entry) : D bool :=
  match es with
  | [] => mret false
  | e :: es' => m ← match_sysattr_value (e_name e) (e_value e); if (m : bool) then mret true else any_sysattr es'
  end.
Fixpoint all_sysattr (es : list entry) : D bool :=
  match es with
  | [] => mret true
  | e :: es' => m ← match_sysattr_value (e_name e) (e_value e); if (m : bool) then all_sysattr es' else mret false
  end.
Definition match_sysattr en : D bool :=
  skip ← any_sysattr (sysattr_nomatch_list en);
  if (skip : bool) then mret false
  else
    match sysattr_match_list en with
    | [] => mret true
    | es => all_sysattr es
    end.

Definition property_matches (e p : entry) : bool :=
  fnmatch (e_name e) (e_name p) &&
  match e_value e, e_value p with
  | None, None => true
  | Some m, Some v => fnmatch m v
  | _, _ => false
  end.
(** The properties are read again for each match. *)
Fixpoint any_property (es : list entry) : D bool :=
  match es with
  | [] => mret false
  | e :: es' =>
      ps ← udev_device_get_properties_list_entry;
      if existsb (property_matches e) ps then mret true else any_property es'
  end.
Definition match_property en : D bool :=
  match properties_match_list en with [] => mret true | es => any_property es end.

Fixpoint all_tags (es : list entry) : D bool :=
  match es with
  | [] => mret true
  | e :: es' => has ← udev_device_has_tag (e_name e); if (has : bool) then all_tags es' else mret false
  end.
Definition match_tag en : D bool :=
  match tags_match_list en with [] => mret true | es => all_tags es end.

Definition match_parent en : D bool :=
  match parent_match en with
  | None => mret true
  | Some parent =>
      d ← field (fun d => d);
      mret (bool_decide (is_Some (startswith (default [] (devpath d)) (default [] (devpath parent)))))
  end.
Definition match_sysname en (sysname : bytes) : bool :=
  match sysname_match_list en with
  | [] => true
  | es => existsb (fun e => fnmatch (e_name e) sysname) es
  end.
Definition match_subsystem en (subsystem : option bytes) : bool :=
  match subsystem with
  | None => false
  | Some s =>
      if existsb (fun e => fnmatch (e_name e) s) (subsystem_nomatch_list en) then false
      else
        match subsystem_match_list en with
        | [] => true
        | es => existsb (fun e => fnmatch (e_name e) s) es
        end
  end.

(** Tests that end with the first one that fails. *)
Fixpoint all_tests (tests : list (D bool)) : D bool :=
  match tests with
  | [] => mret true
  | t :: tests' => ok ← t; if (ok : bool) then all_tests tests' else mret false
  end.
(** A device that udev may have to set up is not ready before. *)
Definition match_initialized en : D bool :=
  if match_is_initialized en then
    init ← udev_device_get_is_initialized;
    if (init : bool) then mret true
    else
      devnum ← udev_device_get_devnum;
      if 0 <? major devnum then mret false
      else ifindex ← udev_device_get_ifindex; mret (negb (0 <? ifindex))
  else mret true.
(** Add the path of a device that passes the tests. *)
Definition add_if en (dev : option udev_device) (tests : list (D bool)) : state world (bool * udev_enumerate) :=
  match dev with
  | None => mret (false, en)
  | Some dev =>
      '(ok, dev) ← run_device dev (all_tests tests);
      mret (if (ok : bool) then (true, syspath_add en (syspath dev)) else (false, en))
  end.
(** A loop over the names of a directory that do not start with a dot. *)
Fixpoint each_name (names : list bytes) (f : bytes -> udev_enumerate -> state world udev_enumerate) en :
    state world udev_enumerate :=
  match names with
  | [] => mret en
  | name :: names' =>
      if nth 0 name nul ==c "." then each_name names' f en
      else en ← f name en; each_name names' f en
  end.

Definition scan_dir_and_add_devices (basedir : bytes) (subdir1 subdir2 : option bytes) en : state world (Z * udev_enumerate) :=
  let d := strpcpyl (dst_new UTIL_PATH_SIZE) ["/sys/" : bytes; basedir] in
  let d := match subdir1 with Some s => strpcpyl d ["/" : bytes; s] | None => d end in
  let d := match subdir2 with Some s => strpcpyl d ["/" : bytes; s] | None => d end in
  let path := out d in
  dir ← sys_readdir path;
  match dir with
  | None => mret (- ENOENT, en)
  | Some names =>
      en ← each_name names (fun name en =>
             if match_sysname en name then
               dev ← udev_device_new_from_syspath (fst (strscpyl UTIL_PATH_SIZE [path; "/" : bytes; name]));
               '(_, en) ← add_if en dev [match_initialized en; match_parent en; match_tag en; match_property en; match_sysattr en];
               mret en
             else mret en) en;
      mret (0, en)
  end.
Definition scan_dir (basedir : bytes) (subdir subsystem : option bytes) en : state world (Z * udev_enumerate) :=
  dir ← sys_readdir (fst (strscpyl UTIL_PATH_SIZE ["/sys/" : bytes; basedir]));
  match dir with
  | None => mret (-1, en)
  | Some names =>
      en ← each_name names (fun name en =>
             if match_subsystem en (match subsystem with Some s => Some s | None => Some name end) then
               '(_, en) ← scan_dir_and_add_devices basedir (Some name) subdir en; mret en
             else mret en) en;
      mret (0, en)
  end.

Definition udev_enumerate_add_syspath en (syspath : option bytes) : state world (Z * udev_enumerate) :=
  match syspath with
  | None => mret (0, en)
  | Some path =>
      dev ← udev_device_new_from_syspath path;
      match dev with
      | None => mret (- UdevList.EINVAL, en)
      | Some dev => mret (0, syspath_add en (Device.syspath dev))
      end
  end.

Definition match_dev_subsystem en : D bool :=
  s ← udev_device_get_subsystem udev_device_get_properties_list_entry; mret (match_subsystem en s).
Definition match_dev_sysname en : D bool := d ← field (fun d => d); mret (match_sysname en (default [] (d_sysname d))).
Fixpoint scan_tags (tags : list entry) en : state world udev_enumerate :=
  match tags with
  | [] => mret en
  | e :: tags' =>
      dir ← sys_readdir (fst (strscpyl UTIL_PATH_SIZE [UDEVRUNDIR ++ "/tags/"; e_name e]));
      en ← match dir with
           | None => mret en
           | Some names =>
               each_name names (fun name en =>
                 dev ← udev_device_new_from_device_id name;
                 '(_, en) ← add_if en dev [match_dev_subsystem en; match_dev_sysname en; match_parent en; match_property en; match_sysattr en];
                 mret en) en
           end;
      scan_tags tags' en
  end.
Definition scan_devices_tags en : state world (Z * udev_enumerate) :=
  en ← scan_tags (tags_match_list en) en; mret (0, en).

Definition ENODEV : Z := 19.
Definition parent_add_child (path : bytes) en : state world (Z * udev_enumerate) :=
  dev ← udev_device_new_from_syspath path;
  match dev with
  | None => mret (- ENODEV, en)
  | Some dev =>
      '(ok, en) ← add_if en (Some dev) [match_dev_subsystem en; match_dev_sysname en; match_property en; match_sysattr en];
      mret (if (ok : bool) then 1 else 0, en)
  end.
(** [maxdepth] bounds the recursion. *)
Fixpoint parent_crawl_children (maxdepth : nat) (path : bytes) en : state world (Z * udev_enumerate) :=
  dir ← sys_readdir_dirs path;
  match dir with
  | inl errno => mret (- errno, en)
  | inr names =>
      en ← each_name names (fun name en =>
        let child := path ++ "/"%char :: name in
        '(_, en) ← parent_add_child child en;
        match maxdepth with
        | O => mret en
        | S depth => '(_, en) ← parent_crawl_children depth child en; mret en
        end) en;
      mret (0, en)
  end.
Definition scan_devices_children (parent : udev_device) en : state world (Z * udev_enumerate) :=
  '(_, en) ← parent_add_child (syspath parent) en;
  parent_crawl_children 256 (syspath parent) en.

Definition scan_devices_all en : state world (Z * udev_enumerate) :=
  st ← sys_stat "/sys/subsystem";
  match st with
  | Some _ => '(_, en) ← scan_dir "subsystem" (Some ("devices" : bytes)) None en; mret (0, en)
  | None =>
      '(_, en) ← scan_dir "bus" (Some ("devices" : bytes)) None en;
      '(_, en) ← scan_dir "class" None None en;
      mret (0, en)
  end.
Definition udev_enumerate_scan_devices en : state world (Z * udev_enumerate) :=
  match tags_match_list en, parent_match en with
  | _ :: _, _ => scan_devices_tags en
  | [], Some parent => scan_devices_children parent en
  | [], None => scan_devices_all en
  end.
Definition udev_enumerate_scan_subsystems en : state world (Z * udev_enumerate) :=
  en ← (if match_subsystem en (Some ("module" : bytes)) then
          '(_, en) ← scan_dir_and_add_devices "module" None None en; mret en
        else mret en);
  st ← sys_stat "/sys/subsystem";
  let subsysdir : bytes := match st with Some _ => "subsystem" | None => "bus" end in
  en ← (if match_subsystem en (Some ("subsystem" : bytes)) then
          '(_, en) ← scan_dir_and_add_devices subsysdir None None en; mret en
        else mret en);
  en ← (if match_subsystem en (Some ("drivers" : bytes)) then
          '(_, en) ← scan_dir subsysdir (Some ("drivers" : bytes)) (Some ("drivers" : bytes)) en; mret en
        else mret en);
  mret (0, en).
End scan.
End Enumerate.
