(* ===== verification/EnumerateProps.v ===== *)
(** lib/libudev-enumerate.c: the list of an enumeration is what was found,
    each device once and in order, and the enumeration stays well formed
    whatever is done with it. *)

From Stdlib Require Import ZArith Lia Ascii Sorted.
From stdpp Require Import prelude gmap strings sorting.
From S2P Require Import Prelude Utils Strings Encode System UdevList Device DeviceProofs DeviceNew Enumerate.
Import Mem Entries EntryFacts Device DeviceProofs DeviceNew Enumerate.

Module EnumerateProps.

(** * The order of the list *)

Definition same_prefix (c : bytes) (n : nat) (p : bytes) : Prop := strneq p c n = true.

(** The order the library promises, for sorted paths without those for the
    end: a control device comes behind the paths that follow it with its
    prefix; the path behind them keeps its place. *)
Inductive listing : list bytes -> list bytes -> Prop :=
  | listing_nil : listing [] []
  | listing_plain e l out : devices_delay_later e = 0%nat -> listing l out -> listing (e :: l) (e :: out)
  | listing_last c n a :
      devices_delay_later c = n -> (0 < n)%nat -> Forall (same_prefix c n) a -> listing (c :: a) (a ++ [c])
  | listing_group c n a e l out :
      devices_delay_later c = n -> (0 < n)%nat -> Forall (same_prefix c n) a -> ~ same_prefix c n e ->
      listing l out -> listing (c :: a ++ e :: l) (a ++ c :: e :: out).

(** The loop without its indices. *)
Fixpoint place (pending : option (bytes * nat)) (l : list bytes) : list bytes :=
  match l with
  | [] => match pending with Some (c, _) => [c] | None => [] end
  | e :: l' =>
      match pending with
      | Some (c, n) => if strneq e c n then e :: place pending l' else c :: e :: place None l'
      | None =>
          let n := devices_delay_later e in
          if (0 <? n)%nat then place (Some (e, n)) l' else e :: place None l'
      end
  end.
Fixpoint dedup (prev : option bytes) (l : list bytes) : list bytes :=
  match l with
  | [] => []
  | e :: l' => if bool_decide (prev = Some e) then dedup prev l' else e :: dedup (Some e) l'
  end.
Abbreviation early := (filter (fun p => devices_delay_end p = false)).
Abbreviation late := (filter (fun p => devices_delay_end p = true)).

Lemma place_listing_gen l :
  listing l (place None l) /\
  forall c n a, devices_delay_later c = n -> (0 < n)%nat -> Forall (same_prefix c n) a ->
    listing (c :: a ++ l) (a ++ place (Some (c, n)) l).
Proof.
  induction l as [|e l [IH1 IH2]].
  - split; [constructor|]. intros c n a Hc Hn Ha. rewrite app_nil_r. by econstructor.
  - split; cbn [place].
    + destruct (Nat.ltb_spec 0 (devices_delay_later e)) as [H|H]; [by apply (IH2 e _ [])|].
      constructor; [lia|done].
    + intros c n a Hc Hn Ha. destruct (strneq e c n) eqn:E.
      * pose proof (IH2 c n (a ++ [e]) Hc Hn) as H. rewrite <- !app_assoc in H. apply H. apply Forall_app. by repeat constructor.
      * econstructor; try done. unfold same_prefix. by rewrite E.
Qed.
Lemma place_listing l : listing l (place None l).
Proof. apply place_listing_gen. Qed.
Lemma listing_perm l out : listing l out -> out ≡ₚ l.
Proof.
  induction 1 as [|e l out _ _ IH|c n a _ _ _|c n a e l out _ _ _ _ _ IH]; [done|by rewrite IH|by rewrite Permutation_app_comm|].
  rewrite IH. by rewrite Permutation_middle.
Qed.

(** The paths with a common prefix are next to each other in sorted order. *)
Lemma prefix_between n (x y z : bytes) :
  str_lt x y -> str_lt y z -> take n x = take n z -> take n y = take n z.
Proof.
  unfold str_lt. revert x y z. induction n as [|n IH]; [done|].
  intros [|a x] [|b y] [|c z]; cbn [strcmp take]; try done. intros H1 H2 [= -> H].
  destruct (Z.compare_spec (code c) (code b)) as [E|E|E], (Z.compare_spec (code b) (code c)); try done; try lia.
  f_equal; [by symmetry; apply code_inj|by apply (IH x)].
Qed.
Lemma split_prefix (P : bytes -> Prop) `{forall p, Decision (P p)} l :
  exists a l2, l = a ++ l2 /\ Forall P a /\ match l2 with e :: _ => ~ P e | [] => True end.
Proof.
  induction l as [|x l (a & l2 & -> & Ha & Hl)]; [by exists [], []|].
  destruct (decide (P x)); [exists (x :: a), l2; split; [done|]; split; [by constructor|done]|].
  by exists [], (x :: a ++ l2).
Qed.
Lemma split_prefix_unique (P : bytes -> Prop) a l2 a' e l :
  a ++ l2 = a' ++ e :: l -> Forall P a -> match l2 with e :: _ => ~ P e | [] => True end ->
  Forall P a' -> ~ P e -> a = a' /\ l2 = e :: l.
Proof.
  revert a'. induction a as [|x a IH]; intros [|x' a']; cbn [app].
  - done.
  - intros -> _ Hn [Hp _]%Forall_cons. done.
  - intros [= -> _] [Hp _]%Forall_cons _ _ Hn. done.
  - intros [= -> He] [_ Ha]%Forall_cons Hl [_ Ha']%Forall_cons Hn. by destruct (IH a' He Ha Hl Ha' Hn) as [-> ->].
Qed.

(** The path [e] is in the group of a control device among [l]. *)
Definition grouped (l : list bytes) (e : bytes) : Prop :=
  exists c, c ∈ l /\ (0 < devices_delay_later c)%nat /\ same_prefix c (devices_delay_later c) e.
#[export] Instance same_prefix_dec c n p : Decision (same_prefix c n p).
Proof. unfold same_prefix. apply _. Defined.
Lemma grouped_control l e : e ∈ l -> (0 < devices_delay_later e)%nat -> grouped l e.
Proof. intros He Hn. exists e. split; [done|]. split; [done|]. by apply bool_decide_eq_true. Qed.

Lemma calm_group c n a :
  (forall e, last (c :: a) = Some e -> ~ grouped (c :: a) e) ->
  devices_delay_later c = n -> (0 < n)%nat -> Forall (same_prefix c n) a -> False.
Proof.
  intros Hcalm Hn Hn1 Ha. destruct (last (c :: a)) as [e|] eqn:E; [|by apply last_None in E].
  apply (Hcalm e eq_refl). apply last_Some in E as [k Hk]. destruct k as [|x k]; injection Hk as -> Hk.
  - apply grouped_control; [by left|lia].
  - exists x. split; [by left|]. rewrite Hn. split; [done|]. rewrite Hk in Ha. by apply Forall_app in Ha as [_ [? _]%Forall_cons].
Qed.

(** A control device is moved when the path in front of it is in no group. *)
Lemma listing_card l out l1 c a l2 n :
  listing l out -> l = l1 ++ c :: a ++ l2 -> devices_delay_later c = n -> (0 < n)%nat ->
  Forall (same_prefix c n) a -> match l2 with e :: _ => ~ same_prefix c n e | [] => True end ->
  (forall e, last l1 = Some e -> ~ grouped l1 e) ->
  exists out1 out2, out = out1 ++ a ++ c :: out2 /\ out1 ≡ₚ l1 /\ out2 ≡ₚ l2.
Proof.
  intros Hl. revert l1. induction Hl as [|e l out He Hl IH|c0 n0 a0 Hc0 Hn0 Ha0|c0 n0 a0 e l out Hc0 Hn0 Ha0 He Hl IH];
    intros l1 Heq Hn Hn1 Ha Hl2 Hcalm.
  - by destruct l1.
  - destruct l1 as [|x l1]; [simplify_eq/=; lia|]. injection Heq as -> ->.
    destruct (IH l1 eq_refl Hn Hn1 Ha Hl2) as (o1 & o2 & -> & H1 & H2).
    { intros e' He' (c' & Hc' & H). apply (Hcalm e'); [by destruct l1|]. exists c'. split; [by right|done]. }
    exists (x :: o1), o2. split; [done|]. split; [by rewrite H1|done].
  - destruct l1 as [|x l1]; cbn [app] in Heq; injection Heq as -> Heq.
    + assert (l2 = []) as ->.
      { destruct l2 as [|e l2]; [done|]. destruct Hl2. subst a0 n0. apply Forall_app in Ha0 as [_ [He _]%Forall_cons]. by subst. }
      exists [], []. rewrite app_nil_r in Heq. by subst a0.
    + exfalso. subst a0. eapply calm_group; [exact Hcalm|done|done|]. by apply Forall_app in Ha0 as [? _].
  - destruct l1 as [|x l1]; cbn [app] in Heq; injection Heq as -> Heq.
    + assert (n0 = n) as -> by congruence.
      destruct (split_prefix_unique (same_prefix c n) a l2 a0 e l) as [-> ->]; [done..|].
      exists [], (e :: out). split; [done|]. split; [done|]. by rewrite (listing_perm _ _ Hl).
    + apply app_eq_inv in Heq as [(k & -> & Heq)|(k & -> & Heq)].
      * exfalso. eapply calm_group; [exact Hcalm|done|done|]. by apply Forall_app in Ha0 as [? _].
      * destruct k as [|y k]; cbn [app] in Heq; [exfalso; rewrite app_nil_r in Hcalm; by eapply calm_group|].
        injection Heq as <- ->.
        destruct (IH k eq_refl Hn Hn1 Ha Hl2) as (o1 & o2 & -> & H1 & H2).
        { intros e' He' (c' & Hc' & H). apply (Hcalm e').
          - rewrite app_comm_cons, last_app_cons, last_cons, He'. done.
          - exists c'. split; [|done]. right. apply elem_of_app. by do 2 right. }
        exists (a0 ++ x :: e :: o1), o2. split; [by rewrite <- app_assoc|]. split; [|done].
        rewrite H1. by rewrite Permutation_middle.
Qed.

Lemma list_loop_spec arr rest i prev ml delayed out :
  drop i arr = rest ->
  list_loop arr rest i prev ml delayed out =
    (out ++ place ((fun x => (nth x.1 arr [], x.2)) <$> ml) (early (dedup prev rest)), delayed ++ late (dedup prev rest)).
Proof.
  revert i prev ml delayed out. induction rest as [|e rest IH]; intros i prev ml delayed out Hd.
  - simpl. destruct ml as [[j n]|]; simpl; by rewrite ?app_nil_r.
  - assert (arr !! i = Some e /\ drop (S i) arr = rest) as [Hi Hd'].
    { pose proof (lookup_drop arr i 0) as H0. rewrite Nat.add_0_r, Hd in H0. split; [done|].
      rewrite <- Nat.add_1_r, <- drop_drop, Hd. done. }
    cbn [list_loop dedup]. case_bool_decide as Hp; [by apply IH|].
    rewrite !filter_cons. destruct (devices_delay_end e) eqn:Ee.
    + rewrite (decide_False (P := true = false)), (decide_True (P := true = true)) by done.
      rewrite IH by done. by rewrite <- app_assoc.
    + rewrite (decide_True (P := false = false)), (decide_False (P := false = true)) by done.
      cbn [place]. destruct ml as [[j n]|]; cbn [fmap option_fmap option_map fst snd].
      * rewrite Nat.ltb_irrefl. destruct (strneq e (nth j arr []) n) eqn:Es; cbn [negb]; rewrite IH by done; by rewrite <- app_assoc.
      * destruct (0 <? devices_delay_later e)%nat eqn:El; rewrite IH by done; cbn [fmap option_fmap option_map fst snd].
        -- by rewrite (nth_lookup_Some _ _ _ _ Hi).
        -- by rewrite <- app_assoc.
Qed.

Abbreviation weak := (StronglySorted (fun a b : bytes => str_lt a b \/ a = b)).
Lemma dedup_elem prev l p : p ∈ dedup prev l -> p ∈ l.
Proof.
  revert prev. induction l as [|e l IH]; intros prev; cbn [dedup]; [done|].
  case_bool_decide; rewrite ?elem_of_cons; [eauto|]. intros [->|H']; eauto.
Qed.
Lemma dedup_all prev l p : p ∈ l -> prev <> Some p -> p ∈ dedup prev l.
Proof.
  revert prev. induction l as [|e l IH]; intros prev; cbn [dedup]; [by intros ?%not_elem_of_nil|].
  rewrite elem_of_cons. intros Hp Hne. case_bool_decide as H; [destruct Hp as [->|Hp]; [congruence|by apply IH]|].
  rewrite elem_of_cons. destruct (decide (p = e)) as [->|Hpe]; [by left|]. right. apply IH; [by destruct Hp|congruence].
Qed.
Lemma dedup_sorted prev l :
  weak l -> (match prev with Some x => Forall (fun y => str_lt x y \/ x = y) l | None => True end) ->
  StronglySorted str_lt (dedup prev l) /\ (forall x, prev = Some x -> Forall (str_lt x) (dedup prev l)).
Proof.
  revert prev. induction l as [|e l IH]; intros prev Hs Hp; cbn [dedup]; [by repeat constructor|].
  apply StronglySorted_inv in Hs as [Hs He]. case_bool_decide as H.
  - subst prev. apply Forall_cons in Hp as [_ Hp]. by apply IH.
  - destruct (IH (Some e) Hs He) as [H1 H2]. specialize (H2 e eq_refl). split; [by constructor|].
    intros x ->. apply Forall_cons in Hp as [[Hxe|Hxe] _]; [|congruence]. constructor; [done|].
    eapply Forall_impl; [exact H2|]. intros y Hy. by etrans.
Qed.

Lemma syspath_cmp_strcmp a b : syspath_cmp a b = strcmp a b.
Proof.
  unfold syspath_cmp. revert b. induction a as [|x a IH]; intros [|y b]; try done.
  cbn [length Nat.min firstn take strcmp Nat.compare]. rewrite <- IH. by destruct (code x ?= code y).
Qed.

(** The devices of [ds] in the order of the library. *)
Definition ordered (ds names : list bytes) : Prop :=
  exists s out, StronglySorted str_lt s /\ (forall p, p ∈ s <-> p ∈ ds) /\ listing (early s) out /\ names = out ++ late s.

(** A path that is not left for the end. *)
Definition placed (ds : list bytes) (p : bytes) : Prop := p ∈ ds /\ devices_delay_end p = false.
(** The path directly in front of another one in sorted order. *)
Definition in_front (ds : list bytes) (e c : bytes) : Prop :=
  placed ds e /\ str_lt e c /\ forall p, placed ds p -> str_lt p c -> p = e \/ str_lt p e.
(** The path belongs to a control device in front of [c]. *)
Definition in_group (ds : list bytes) (c e : bytes) : Prop :=
  exists c', placed ds c' /\ str_lt c' c /\ (0 < devices_delay_later c')%nat /\ same_prefix c' (devices_delay_later c') e.
Definition before (p c : bytes) (names : list bytes) : Prop := exists l1 l2 l3, names = l1 ++ p :: l2 ++ c :: l3.
Lemma before_app p c l1 l2 l3 : p ∈ l1 ++ l2 -> before p c ((l1 ++ l2 ++ c :: l3)).
Proof.
  intros (a & b & H)%list_elem_of_split. exists a, b, l3. rewrite (app_assoc l1), H, <- app_assoc. done.
Qed.
Lemma before_more p c l l' : before p c l -> before p c (l ++ l').
Proof. intros (a & b & d & ->). exists a, b, (d ++ l'). by rewrite <- ?app_assoc; simpl; rewrite <- ?app_assoc. Qed.

Lemma ordered_card ds names c p :
  ordered ds names -> placed ds c -> placed ds p -> (0 < devices_delay_later c)%nat ->
  same_prefix c (devices_delay_later c) p -> p <> c -> (forall e, in_front ds e c -> ~ in_group ds c e) ->
  before p c names.
Proof.
  intros (s & out & Hs & Hel & Hl & ->) Hc Hp Hn Hpre Hne Hfront. apply before_more.
  assert (forall q, q ∈ early s <-> placed ds q) as Hin.
  { intros q. rewrite list_elem_of_filter, Hel. unfold placed. naive_solver. }
  assert (StronglySorted str_lt (early s)) as Hse by by apply StronglySorted_filter.
  apply Hin in Hc as (l1 & r & He)%list_elem_of_split.
  destruct (split_prefix (same_prefix c (devices_delay_later c)) r) as (a & l2 & -> & Ha & Hl2).
  assert (forall q, q ∈ l1 ++ c :: a ++ l2 <-> placed ds q) as Hin' by by rewrite <- He.
  rewrite He in Hse, Hl. apply StronglySorted_app in Hse as (Hcross & Hs1 & Hs2).
  apply StronglySorted_inv in Hs2 as [Hs2 Hca].
  assert (forall q, q ∈ l1 -> str_lt q c) as Hl1 by (intros q Hq; apply Hcross; [done|by left]).
  assert (forall q, placed ds q -> str_lt q c -> q ∈ l1) as Hl1'.
  { intros q [Hq|[->|Hq]%elem_of_cons]%Hin'%elem_of_app Hlt; [done|by destruct (irreflexivity str_lt c)|].
    rewrite Forall_forall in Hca. destruct (irreflexivity str_lt c). etrans; [by apply Hca|done]. }
  destruct (listing_card _ _ l1 c a l2 _ Hl eq_refl eq_refl Hn Ha Hl2) as (o1 & o2 & -> & Ho1 & _).
  { intros e Hlast (c' & Hc' & Hn' & Hpre'). assert (e ∈ l1) as He1 by by apply last_Some_elem_of.
    apply (Hfront e).
    - split; [by apply Hin', elem_of_app; left|]. split; [by apply Hl1|]. intros q Hq Hqc. apply Hl1' in Hq; [|done].
      apply last_Some in Hlast as [k ->]. apply elem_of_app in Hq as [Hq|Hq%list_elem_of_singleton]; [right|by left].
      apply StronglySorted_app in Hs1 as (H & _). apply H; [done|by left].
    - exists c'. split; [by apply Hin', elem_of_app; left|]. split; [by apply Hl1|done]. }
  apply before_app. rewrite Ho1. apply Hin', elem_of_app in Hp as [Hp|[->|[Hp|Hp]%elem_of_app]%elem_of_cons]; [by apply elem_of_app; left|done|by apply elem_of_app; right|].
  exfalso. destruct l2 as [|d l2]; [by apply elem_of_nil in Hp|]. apply Hl2.
  apply elem_of_cons in Hp as [->|Hp]; [done|].
  apply Forall_app in Hca as [_ [Hcd _]%Forall_cons]. apply StronglySorted_app in Hs2 as (_ & _ & Hs2).
  apply StronglySorted_inv in Hs2 as [_ Hd]. rewrite Forall_forall in Hd.
  unfold same_prefix, strneq in *. rewrite bool_decide_eq_true in Hpre |- *.
  pose proof (prefix_between _ _ _ _ Hcd (Hd _ Hp) (eq_sym Hpre)). congruence.
Qed.

Definition sorted_devices en : list bytes :=
  qsort (fun a b => match syspath_cmp a b with Lt => true | _ => false end) (devices en).
Lemma sorted_devices_weak en : weak (sorted_devices en).
Proof.
  rewrite <- (list_fmap_id (sorted_devices en)). apply (qsort_weak (fun x => x) str_lt); [|apply str_total].
  intros x y. rewrite syspath_cmp_strcmp. unfold str_lt. by destruct (strcmp x y).
Qed.
Lemma sorted_devices_perm en : sorted_devices en ≡ₚ devices en.
Proof. apply qsort_perm. Qed.

Definition sorted_once en : list bytes := dedup None (sorted_devices en).
Lemma fold_add_eq l en :
  fold_left syspath_add l en =
    en <| devices := devices en ++ l |> <| devices_max := devices_max (fold_left syspath_add l en) |>
       <| devices_uptodate := match l with [] => devices_uptodate en | _ => false end |>.
Proof.
  revert en. induction l as [|p l IH]; intros en; cbn [fold_left]; [rewrite app_nil_r; by destruct en|].
  rewrite IH at 1. unfold syspath_add at 1 2 3 4. destruct en; cbn. rewrite <- app_assoc. by destruct l.
Qed.
(** The array while the paths for the end are behind the others. *)
Definition with_late en : udev_enumerate :=
  fold_left syspath_add (late (sorted_once en)) (en <| devices := sorted_devices en |>).
Lemma get_list_entry_eq en :
  devices_uptodate en = false ->
  udev_enumerate_get_list_entry en =
    en <| devices_list := (fun p => mk_entry p None 0) <$> place None (early (sorted_once en)) ++ late (sorted_once en) |>
       <| devices := sorted_devices en |> <| devices_max := devices_max (with_late en) |> <| devices_uptodate := true |>.
Proof.
  intros Hu. unfold udev_enumerate_get_list_entry. rewrite Hu. fold (sorted_devices en).
  rewrite list_loop_spec by done. cbn [fmap option_fmap option_map]. rewrite !app_nil_l. fold (sorted_once en).
  fold (with_late en). assert (forall m, with_late en = m -> devices_max m = devices_max (with_late en)) as H by congruence.
  unfold with_late at 1. rewrite fold_add_eq. fold (with_late en). by destruct en.
Qed.
Lemma sorted_once_ordered en : ordered (devices en) (place None (early (sorted_once en)) ++ late (sorted_once en)).
Proof.
  exists (sorted_once en), (place None (early (sorted_once en))). split_and!; [..|apply place_listing|done].
  - by apply dedup_sorted; [apply sorted_devices_weak|].
  - intros p. rewrite <- (sorted_devices_perm en). split; [apply dedup_elem|]. intros H. by apply dedup_all.
Qed.

(** * What keeps an enumeration well formed *)

Record wf en : Prop := {
  wf_subsystems : names_sorted (subsystem_match_list en);
  wf_nosubsystems : names_sorted (subsystem_nomatch_list en);
  wf_sysnames : names_sorted (sysname_match_list en);
  wf_tags : names_sorted (tags_match_list en);
  wf_max : 0 <= devices_max en < 2 ^ 32;
  (** The array has room for what is in it. *)
  wf_room : Z.of_nat (length (devices en)) < 2 ^ 30 -> Z.of_nat (length (devices en)) <= devices_max en;
  (** The list is there when it is said to be. *)
  wf_list : devices_uptodate en = true -> ordered (devices en) (e_name <$> devices_list en)
}.

(** Paths are added. *)
Inductive adds en : udev_enumerate -> Prop :=
  | adds_none : adds en en
  | adds_path en' p : adds en en' -> adds en (syspath_add en' p).
#[export] Hint Constructors adds : udev.
#[export] Instance adds_preorder : PreOrder adds.
Proof.
  split; [constructor|]. intros x y z Hxy Hyz. induction Hyz as [|z' p _ IH]; [done|]. by constructor.
Qed.

Section scans.
Context `{SY : System} {IF : Interfaces} {G : Glob}.
Context (rd : bytes -> state world (Z + list bytes)).

(** A computation that only adds paths. *)
Definition adding {A} en (m : state world (A * udev_enumerate)) : Prop := forall w, adds en (m w).1.2.
Definition adding_ en (m : state world udev_enumerate) : Prop := forall w, adds en (m w).1.

Lemma adding_ret {A} en en' (a : A) : adds en en' -> adding en (mret (a, en')).
Proof. by intros H w. Qed.
Lemma adding__ret en en' : adds en en' -> adding_ en (mret en').
Proof. by intros H w. Qed.
Lemma adding_world {A B} en (m : state world B) (f : B -> state world (A * udev_enumerate)) :
  (forall b, adding en (f b)) -> adding en (b ← m; f b).
Proof. intros H w. unfold mbind, state_bind. destruct (m w) as [b w']. apply H. Qed.
Lemma adding__world {B} en (m : state world B) (f : B -> state world udev_enumerate) :
  (forall b, adding_ en (f b)) -> adding_ en (b ← m; f b).
Proof. intros H w. unfold mbind, state_bind. destruct (m w) as [b w']. apply H. Qed.
Lemma adding_seq {A B} en (m : state world (B * udev_enumerate)) (f : B * udev_enumerate -> state world (A * udev_enumerate)) :
  adding en m -> (forall b en', adds en en' -> adding en (f (b, en'))) -> adding en (x ← m; f x).
Proof. intros Hm H w. specialize (Hm w). unfold mbind, state_bind. destruct (m w) as [[b en'] w']. by apply H. Qed.
Lemma adding__seq {B} en (m : state world (B * udev_enumerate)) (f : B * udev_enumerate -> state world udev_enumerate) :
  adding en m -> (forall b en', adds en en' -> adding_ en (f (b, en'))) -> adding_ en (x ← m; f x).
Proof. intros Hm H w. specialize (Hm w). unfold mbind, state_bind. destruct (m w) as [[b en'] w']. by apply H. Qed.
Lemma adding_seq_ {A} en (m : state world udev_enumerate) (f : udev_enumerate -> state world (A * udev_enumerate)) :
  adding_ en m -> (forall en', adds en en' -> adding en (f en')) -> adding en (x ← m; f x).
Proof. intros Hm H w. specialize (Hm w). unfold mbind, state_bind. destruct (m w) as [en' w']. by apply H. Qed.
Lemma adding__seq_ en (m : state world udev_enumerate) (f : udev_enumerate -> state world udev_enumerate) :
  adding_ en m -> (forall en', adds en en' -> adding_ en (f en')) -> adding_ en (x ← m; f x).
Proof. intros Hm H w. specialize (Hm w). unfold mbind, state_bind. destruct (m w) as [en' w']. by apply H. Qed.
Lemma adding_from {A} en en' (m : state world (A * udev_enumerate)) : adds en en' -> adding en' m -> adding en m.
Proof. intros H Hm w. etrans; [exact H|apply Hm]. Qed.
Lemma adding__from en en' (m : state world udev_enumerate) : adds en en' -> adding_ en' m -> adding_ en m.
Proof. intros H Hm w. etrans; [exact H|apply Hm]. Qed.

Lemma add_if_adding en dev tests : adding en (add_if en dev tests).
Proof.
  unfold add_if. destruct dev; [|by apply adding_ret]. apply adding_world. intros [[] dev]; apply adding_ret; eauto with udev.
Qed.
Lemma each_name_adding names f en :
  (forall name en', adding_ en' (f name en')) -> adding_ en (each_name names f en).
Proof.
  intros Hf. revert en. induction names as [|name names IH]; intros en; cbn [each_name]; [by apply adding__ret|].
  destruct (nth 0 name nul ==c "."); [done|]. apply adding__seq_; [done|]. intros en' H. by eapply adding__from.
Qed.
Lemma add_if_unit en dev tests : adding_ en ('(_, en) ← add_if en dev tests; mret en).
Proof. apply adding__seq; [apply add_if_adding|]. intros b en' H. by apply adding__ret. Qed.

Lemma scan_dir_and_add_devices_adding basedir s1 s2 en : adding en (scan_dir_and_add_devices basedir s1 s2 en).
Proof.
  unfold scan_dir_and_add_devices. apply adding_world. intros [names|]; [|by apply adding_ret].
  apply adding_seq_; [|intros; by apply adding_ret]. apply each_name_adding. intros name en'.
  destruct (match_sysname en' name); [apply adding__world; intros; apply add_if_unit|by apply adding__ret].
Qed.
Lemma unit_adding {A} en (m : state world (A * udev_enumerate)) : adding en m -> adding_ en ('(_, en) ← m; mret en).
Proof. intros H. apply adding__seq; [done|]. intros b en' H'. by apply adding__ret. Qed.
Lemma scan_dir_adding basedir s1 s2 en : adding en (scan_dir basedir s1 s2 en).
Proof.
  unfold scan_dir. apply adding_world. intros [names|]; [|by apply adding_ret].
  apply adding_seq_; [|intros; by apply adding_ret]. apply each_name_adding. intros name en'.
  destruct (match_subsystem _ _); [apply unit_adding, scan_dir_and_add_devices_adding|by apply adding__ret].
Qed.
Lemma udev_enumerate_add_syspath_adding en p : adding en (udev_enumerate_add_syspath en p).
Proof.
  destruct p as [p|]; [|by apply adding_ret]. apply adding_world. intros [dev|]; apply adding_ret; eauto with udev.
Qed.
Lemma scan_tags_adding tags en : adding_ en (scan_tags tags en).
Proof.
  revert en. induction tags as [|t tags IH]; intros en; cbn [scan_tags]; [by apply adding__ret|].
  apply adding__world. intros dir. apply adding__seq_; [|intros en' H; by eapply adding__from].
  destruct dir as [names|]; [|by apply adding__ret]. apply each_name_adding. intros name en'.
  apply adding__world. intros; apply add_if_unit.
Qed.
Lemma parent_add_child_adding p en : adding en (parent_add_child p en).
Proof.
  unfold parent_add_child. apply adding_world. intros [dev|]; [|by apply adding_ret].
  apply adding_seq; [apply add_if_adding|]. intros b en' H. by apply adding_ret.
Qed.
Lemma parent_crawl_children_adding depth p en : adding en (parent_crawl_children rd depth p en).
Proof.
  revert p en. induction depth as [|depth IH]; intros p en; cbn [parent_crawl_children];
    (apply adding_world; intros [errno|names]; [by apply adding_ret|]); (apply adding_seq_; [|intros; by apply adding_ret]);
    apply each_name_adding; intros name en'; (apply adding__seq; [apply parent_add_child_adding|]); intros b en2 H.
  - by apply adding__ret.
  - eapply adding__from; [exact H|]. apply unit_adding, IH.
Qed.
Lemma udev_enumerate_scan_devices_adding en : adding en (udev_enumerate_scan_devices rd en).
Proof.
  unfold udev_enumerate_scan_devices. destruct (tags_match_list en); [destruct (parent_match en)|].
  - apply adding_seq; [apply parent_add_child_adding|]. intros b en' H. eapply adding_from; [exact H|].
    apply parent_crawl_children_adding.
  - apply adding_world. intros [st|]; (apply adding_seq; [apply scan_dir_adding|]); intros b en' H; [by apply adding_ret|].
    eapply adding_from; [exact H|]. apply adding_seq; [apply scan_dir_adding|]. intros b' en2 H'. by apply adding_ret.
  - apply adding_seq_; [apply scan_tags_adding|]. intros en' H. by apply adding_ret.
Qed.
Lemma optional_adding {A} en (b : bool) (m : state world (A * udev_enumerate)) :
  adding en m -> adding_ en (if b then '(_, en) ← m; mret en else mret en).
Proof. intros H. destruct b; [by apply unit_adding|by apply adding__ret]. Qed.
Lemma udev_enumerate_scan_subsystems_adding en : adding en (udev_enumerate_scan_subsystems en).
Proof.
  unfold udev_enumerate_scan_subsystems.
  apply adding_seq_; [apply optional_adding, scan_dir_and_add_devices_adding|]. intros e1 H1.
  apply adding_world. intros st.
  apply adding_seq_; [eapply adding__from; [exact H1|apply optional_adding, scan_dir_and_add_devices_adding]|]. intros e2 H2.
  apply adding_seq_; [eapply adding__from; [exact H2|apply optional_adding, scan_dir_adding]|]. intros e3 H3.
  by apply adding_ret.
Qed.
End scans.

Section runs.
Context `{SY : System} {IF : Interfaces} {G : Glob}.
Context (rd : bytes -> state world (Z + list bytes)).

(** What a program can do with an enumeration, in any state of the system. *)
Inductive op :=
  | Add_match_subsystem (subsystem : option bytes)
  | Add_nomatch_subsystem (subsystem : option bytes)
  | Add_match_sysattr (sysattr value : option bytes)
  | Add_nomatch_sysattr (sysattr value : option bytes)
  | Add_match_property (property value : option bytes)
  | Add_match_tag (tag : option bytes)
  | Add_match_parent (parent : option udev_device)
  | Add_match_is_initialized
  | Add_match_sysname (sysname : option bytes)
  | Add_syspath (syspath : option bytes) (w : world)
  | Scan_devices (w : world)
  | Scan_subsystems (w : world)
  | Get_list_entry.
Definition step en (o : op) : udev_enumerate :=
  match o with
  | Add_match_subsystem s => udev_enumerate_add_match_subsystem en s
  | Add_nomatch_subsystem s => udev_enumerate_add_nomatch_subsystem en s
  | Add_match_sysattr s v => udev_enumerate_add_match_sysattr en s v
  | Add_nomatch_sysattr s v => udev_enumerate_add_nomatch_sysattr en s v
  | Add_match_property s v => udev_enumerate_add_match_property en s v
  | Add_match_tag t => udev_enumerate_add_match_tag en t
  | Add_match_parent p => udev_enumerate_add_match_parent en p
  | Add_match_is_initialized => udev_enumerate_add_match_is_initialized en
  | Add_match_sysname s => udev_enumerate_add_match_sysname en s
  | Add_syspath p w => (udev_enumerate_add_syspath en p w).1.2
  | Scan_devices w => (udev_enumerate_scan_devices rd en w).1.2
  | Scan_subsystems w => (udev_enumerate_scan_subsystems en w).1.2
  | Get_list_entry => udev_enumerate_get_list_entry en
  end.
Definition run (ops : list op) : udev_enumerate := fold_left step ops udev_enumerate_new.

Lemma syspath_add_room en p :
  0 <= devices_max en < 2 ^ 32 -> Z.of_nat (length (devices en)) < 2 ^ 31 -> Z.of_nat (length (devices en)) <= devices_max en ->
  Z.of_nat (length (devices (syspath_add en p))) <= devices_max (syspath_add en p).
Proof.
  intros Hm Hl Hr. unfold syspath_add. cbn. rewrite length_app. simpl.
  destruct (Z.leb_spec (devices_max en) (Z.of_nat (length (devices en)))); [|lia].
  rewrite wrap_small by lia. lia.
Qed.
Lemma syspath_add_max en p : 0 <= devices_max en < 2 ^ 32 -> 0 <= devices_max (syspath_add en p) < 2 ^ 32.
Proof. intros H. unfold syspath_add. cbn. destruct (_ <=? _); [by apply wrap_range|done]. Qed.
Lemma syspath_add_wf en p : wf en -> wf (syspath_add en p).
Proof.
  intros []. constructor; try done.
  - by apply syspath_add_max.
  - intros Hl. apply syspath_add_room; [done|..].
    + unfold syspath_add in Hl. cbn in Hl. rewrite length_app in Hl. simpl in Hl. lia.
    + apply wf_room0. unfold syspath_add in Hl. cbn in Hl. rewrite length_app in Hl. simpl in Hl. lia.
Qed.
Lemma adds_wf en en' : adds en en' -> wf en -> wf en'.
Proof. induction 1; [done|]. intros H'. apply syspath_add_wf. auto. Qed.

Lemma early_late_length (l : list bytes) : (length (early l) + length (late l) = length l)%nat.
Proof.
  induction l as [|p l IH]; [done|]. rewrite !filter_cons. destruct (devices_delay_end p).
  - rewrite decide_False, decide_True by done. simpl. lia.
  - rewrite decide_True, decide_False by done. simpl. lia.
Qed.
Lemma dedup_length prev l : (length (dedup prev l) <= length l)%nat.
Proof. revert prev. induction l as [|e l IH]; intros prev; cbn [dedup length]; [done|]. case_bool_decide; cbn [length]; [specialize (IH prev)|specialize (IH (Some e))]; lia. Qed.

(** The paths for the end stay in the array while the list is made. *)
Lemma fold_add_room l en :
  0 <= devices_max en < 2 ^ 32 -> Z.of_nat (length (devices en)) <= devices_max en ->
  Z.of_nat (length (devices en) + length l) < 2 ^ 31 ->
  0 <= devices_max (fold_left syspath_add l en) < 2 ^ 32 /\
  Z.of_nat (length (devices en)) <= devices_max (fold_left syspath_add l en).
Proof.
  revert en. induction l as [|p l IH]; intros en Hm Hr Hl; [done|]. cbn [fold_left]. cbn [length] in Hl.
  assert (length (devices (syspath_add en p)) = S (length (devices en))) as Hlen.
  { unfold syspath_add. cbn. rewrite length_app. simpl. lia. }
  destruct (IH (syspath_add en p)) as [H1 H2]; [by apply syspath_add_max|apply syspath_add_room; lia|lia|]. split; [done|]. lia.
Qed.
Lemma fold_add_max l en :
  0 <= devices_max en < 2 ^ 32 -> 0 <= devices_max (fold_left syspath_add l en) < 2 ^ 32.
Proof. revert en. induction l as [|p l IH]; intros en H; [done|]. apply IH. by apply syspath_add_max. Qed.
Lemma get_list_entry_wf en : wf en -> wf (udev_enumerate_get_list_entry en).
Proof.
  intros H. destruct (devices_uptodate en) eqn:Hu; [unfold udev_enumerate_get_list_entry; by rewrite Hu|].
  rewrite (get_list_entry_eq en Hu). destruct H.
  assert (length (sorted_devices en) = length (devices en)) as Hlen by (by rewrite (sorted_devices_perm en)).
  constructor; try done.
  - by apply fold_add_max.
  - intros Hl. change (Z.of_nat (length (sorted_devices en)) < 2 ^ 30) in Hl.
    pose proof (early_late_length (sorted_once en)). pose proof (dedup_length None (sorted_devices en)). fold (sorted_once en) in *.
    assert (devices (en <| devices := sorted_devices en |>) = sorted_devices en) as Hd by done.
    assert (devices_max (en <| devices := sorted_devices en |>) = devices_max en) as Hm by done.
    destruct (fold_add_room (late (sorted_once en)) (en <| devices := sorted_devices en |>)) as [_ Hroom];
      rewrite ?Hd, ?Hm in *; [done|rewrite Hlen in *; auto|lia|exact Hroom].
  - intros _. cbn [devices_list devices]. change (ordered (sorted_devices en) (e_name <$> ((fun p => mk_entry p None 0) <$> place None (early (sorted_once en)) ++ late (sorted_once en)))).
    rewrite <- list_fmap_compose. rewrite (list_fmap_ext _ id) by done. rewrite list_fmap_id.
    destruct (sorted_once_ordered en) as (s & out & H1 & H2 & H3 & H4). exists s, out. split_and!; [done| |done|done].
    intros p. rewrite H2. by rewrite (sorted_devices_perm en).
Qed.

Lemma spec_add_names es s : names_sorted es -> names_sorted (spec_add true es s None).
Proof. apply insert_sorted_sorted. Qed.

Lemma step_wf en o : wf en -> wf (step en o).
Proof.
  intros H. destruct o as [s|s|s v|s v|s v|t|p| |s|p w|w|w|].
  10: exact (adds_wf _ _ (udev_enumerate_add_syspath_adding en p w) H).
  10: exact (adds_wf _ _ (udev_enumerate_scan_devices_adding rd en w) H).
  10: exact (adds_wf _ _ (udev_enumerate_scan_subsystems_adding en w) H).
  10: exact (get_list_entry_wf en H).
  all: cbn [step]; try destruct s; try destruct t; try destruct p; [try exact H..];
    (destruct H; constructor; [try assumption; by apply spec_add_names|..]; assumption || by apply spec_add_names).
Qed.
Lemma run_wf ops : wf (run ops).
Proof.
  unfold run. assert (wf udev_enumerate_new) as H by (constructor; try done; repeat constructor).
  revert H. generalize udev_enumerate_new. induction ops as [|o ops IH]; intros en H; [done|]. apply IH. by apply step_wf.
Qed.

Lemma ordered_elem ds names p : ordered ds names -> p ∈ names <-> p ∈ ds.
Proof.
  intros (s & out & _ & Hs & Hl & ->). rewrite elem_of_app, (listing_perm _ _ Hl), <- Hs, !list_elem_of_filter.
  destruct (devices_delay_end p); naive_solver.
Qed.
Lemma ordered_NoDup ds names : ordered ds names -> NoDup names.
Proof.
  intros (s & out & Hsort & _ & Hl & ->).
  apply (StronglySorted_NoDup str_lt) in Hsort as Hnd.
  apply NoDup_app. split_and!; [rewrite (listing_perm _ _ Hl); by apply NoDup_filter| |by apply NoDup_filter].
  intros p Hp [Hq _]%list_elem_of_filter. rewrite (listing_perm _ _ Hl) in Hp. apply list_elem_of_filter in Hp as [Hp _]. congruence.
Qed.

(** C24: Whatever was done with an enumeration before, the list it gives has
    each device that was found or added once.  The md and dm devices are at the
    end; the others are sorted by their paths, but that a sound card's control
    device is moved behind the paths that directly follow it and have its
    prefix.  It is not moved when it directly follows such a group of another
    control device, but otherwise it comes behind every other path of its card:
    that is so if the path in front of it in sorted order is no control device
    and has the prefix of none in front, as the directory of its card. *)
Theorem enumerate_list_exact (ops : list op) :
  let ds := devices (run ops) in
  let names := e_name <$> devices_list (udev_enumerate_get_list_entry (run ops)) in
  ordered ds names /\ NoDup names /\ (forall p, p ∈ names <-> p ∈ ds) /\
  (forall c p, placed ds c -> placed ds p -> (0 < devices_delay_later c)%nat ->
     same_prefix c (devices_delay_later c) p -> p <> c -> (forall e, in_front ds e c -> ~ in_group ds c e) ->
     before p c names).
Proof.
  intros ds names. assert (ordered (devices (run ops)) names) as H.
  { unfold names. pose proof (run_wf ops) as Hwf. destruct (devices_uptodate (run ops)) eqn:Hu.
    - unfold udev_enumerate_get_list_entry. rewrite Hu. by apply (wf_list _ Hwf).
    - pose proof (wf_list _ (get_list_entry_wf _ Hwf)) as Hl. rewrite (get_list_entry_eq _ Hu) in Hl |- *.
      destruct (Hl eq_refl) as (s & out & H1 & H2 & H3). exists s, out. split_and!; [done| |apply H3..].
      intros p. rewrite H2. apply elem_of_Permutation_proper. apply sorted_devices_perm. }
  split; [done|]. split; [by eapply ordered_NoDup|]. split; [intros p; by apply ordered_elem|]. intros c p. by apply ordered_card.
Qed.

(** C25: Every operation keeps an enumeration well formed: its lists of
    subsystems, names and tags are sorted and have each name once, the array
    of devices has room for its elements, and a list that is said to be up to
    date lists the devices of the array. *)
Theorem enumerate_wf (ops : list op) : wf (run ops).
Proof. apply run_wf. Qed.
End runs.

(** ** Examples *)

Definition found (ds : list bytes) : udev_enumerate := fold_left syspath_add ds udev_enumerate_new.
Definition listed (ds : list bytes) : list bytes :=
  e_name <$> devices_list (udev_enumerate_get_list_entry (found ds)).

(** The control device comes last of its card, dm devices last of all. *)
Example listed_sound :
  listed ["/sys/devices/virtual/block/dm-0" : bytes; "/sys/devices/x/sound/card0/pcmC0D0p" : bytes;
          "/sys/devices/x/sound/card0/controlC0" : bytes; "/sys/devices/x/sound/card0" : bytes;
          "/sys/devices/x/sound/card0" : bytes; "/sys/devices/y" : bytes] =
  ["/sys/devices/x/sound/card0" : bytes; "/sys/devices/x/sound/card0/pcmC0D0p" : bytes;
   "/sys/devices/x/sound/card0/controlC0" : bytes; "/sys/devices/y" : bytes; "/sys/devices/virtual/block/dm-0" : bytes].
Proof. by vm_compute. Qed.
(** Without the devices of the cards themselves, which would be between them,
    the control device of the second card is not moved. *)
Lemma second_control_not_moved :
  listed ["/sys/devices/x/sound/card0/controlC0" : bytes; "/sys/devices/x/sound/card0/pcmC0D0p" : bytes;
          "/sys/devices/x/sound/card1/controlC1" : bytes; "/sys/devices/x/sound/card1/pcmC1D0p" : bytes] =
  ["/sys/devices/x/sound/card0/pcmC0D0p" : bytes; "/sys/devices/x/sound/card0/controlC0" : bytes;
   "/sys/devices/x/sound/card1/controlC1" : bytes; "/sys/devices/x/sound/card1/pcmC1D0p" : bytes].
Proof. by vm_compute. Qed.
End EnumerateProps.
