(* ===== verification/Node.v ===== *)
(** src/core/udev-node.c: the permissions of a device node, and the links in
    /dev, which go to the device of the highest priority of those that claim
    the link; also lib/utils/path/remove.c and the part of shared/mkdir.c that
    makes the directories of a link.  Without SELinux, so labels are not set. *)

From Stdlib Require Import ZArith Lia Ascii.
From stdpp Require Import prelude gmap strings sorting.
From S2P Require Import Prelude Utils Strings Encode System UdevList Device DeviceProofs DeviceNew.
Import Mem Entries Path Device DeviceProofs DeviceNew.

Module Node.

(** [st_mode], [st_rdev] and the owner of a node. *)
Record node_stat := mk_node_stat { ns_mode : Z; ns_rdev : Z; ns_uid : Z; ns_gid : Z }.
(** The calls on nodes and links; the result is 0 or the error.  [sys_errno]
    is [errno]. *)
Class Nodes `{SY : System} := {
  sys_lstat_node : bytes -> state world (option node_stat);
  sys_symlink : bytes -> bytes -> state world Z;
  sys_rmdir : bytes -> state world Z;
  sys_chown : bytes -> Z -> Z -> state world Z;
  sys_utimens : bytes -> bool -> state world unit;
  sys_errno : state world Z
}.

(** Where the result is [None] the program does not go on: it dereferences
    NULL, or a loop over a call that keeps failing does not end. *)
Definition obind {S A B} (m : state S (option A)) (f : A -> state S (option B)) : state S (option B) :=
  r ← m; match r with Some x => f x | None => mret None end.
#[local] Notation "x ←! m ; f" := (obind m (fun x => f)) (at level 20, m at level 100, f at level 200, right associativity).

Section node.
Context `{SY : System} {NO : Nodes} {IF : Interfaces}.

(** * lib/utils/path/remove.c *)

(** [dir] is what is left of the path and [p] how far the loop has come. *)
Fixpoint path_remove_loop (p : nat) (dir : bytes) (last : bool) : state world Z :=
  match p with
  | O => mret 0
  | S p' =>
      if nth p dir nul ==c "/" then
        r ← (if last then sys_rmdir dir else mret 0);
        if negb (r =? 0) then mret (if r =? ENOENT then 0 else -1)
        else path_remove_loop p' (take p dir) true
      else path_remove_loop p' dir last
  end.
Definition PATH_SIZE : nat := 1024.
Definition path_remove (path : bytes) : state world Z :=
  let '(dir, n) := Str.str_copy path PATH_SIZE in
  path_remove_loop n dir false.

(** * shared/mkdir.c *)

(** The part of [s] up to the first slash, and the rest. *)
Fixpoint span_slash (s : bytes) : bytes * bytes :=
  match s with
  | c :: s' => if c ==c "/" then ([], s) else let '(a, r) := span_slash s' in (c :: a, r)
  | [] => ([], [])
  end.
Fixpoint span_slashes (s : bytes) : bytes * bytes :=
  match s with
  | c :: s' => if c ==c "/" then let '(a, r) := span_slashes s' in (c :: a, r) else ([], s)
  | [] => ([], [])
  end.
Definition label_mkdir (path : bytes) (mode : Z) : state world Z :=
  r ← sys_mkdir path mode;
  mret (if negb (r =? 0) && negb (r =? EEXIST) then - r else 0).
(** [t] is the path in front of [p]. *)
Fixpoint mkdir_parents_loop (fuel : nat) (t p : bytes) (mode : Z) : state world Z :=
  match fuel with
  | O => mret 0
  | S fuel' =>
      let '(e, r) := span_slash p in
      let '(slashes, p') := span_slashes r in
      match p' with
      | [] => mret 0
      | _ =>
          r ← label_mkdir (t ++ e) mode;
          if r <? 0 then mret r else mkdir_parents_loop fuel' (t ++ e ++ slashes) p' mode
      end
  end.
Definition mkdir_parents_label (path : bytes) (mode : Z) : state world Z :=
  match strrchr path "/" with
  | None => mret (- UdevList.EINVAL)
  | Some ([], _) => mret 0
  | Some (p, _) =>
      st ← sys_stat p;
      match st with
      | Some m => mret (if S_ISDIR m then 0 else - ENOTDIR)
      | None =>
          let '(slashes, p) := span_slashes path in
          mkdir_parents_loop (length path) slashes p mode
      end
  end.

(** * Links *)

Fixpoint symlink_create (fuel : nat) (target slink : bytes) : state world (option Z) :=
  match fuel with
  | O => mret None
  | S fuel' =>
      err ← mkdir_parents_label slink 0x1ED;
      if negb (err =? 0) && negb (err =? - ENOENT) then mret (Some err)
      else
        e ← sys_symlink target slink;
        if e =? ENOENT then symlink_create fuel' target slink else mret (Some (- e))
  end.
(** An identifier that is NULL ends the arguments of [strscpyl]. *)
Definition arg (s : option bytes) : list bytes := match s with Some s => [s] | None => [] end.
Definition link_tmp (devnum : option bytes) (slink : bytes) : bytes :=
  fst (strscpyl (UTIL_PATH_SIZE + 32) ([slink; ".tmp-" : bytes] ++ arg devnum)).
(** The end of [node_symlink]. *)
Definition replace_link (fuel : nat) (slink_tmp target slink : bytes) : state world (option Z) :=
  sys_unlink slink_tmp ;;
  r ←! symlink_create fuel target slink_tmp;
  if negb (r =? 0) then mret (Some (-1))
  else
    r ← sys_rename slink_tmp slink;
    if negb (r =? 0) then sys_unlink slink_tmp ;; mret (Some (-1)) else mret (Some 0).
Definition node_symlink (fuel : nat) (devnum : option bytes) (node slink : bytes) : state world (option Z) :=
  match path_relative (Some node) (Some slink) UTIL_PATH_SIZE with
  | None | Some (_, O) => mret (Some (-1))
  | Some (target, S _) =>
      let replace := replace_link fuel (link_tmp devnum slink) target slink in
      st ← sys_lstat slink;
      match st with
      | Some mode =>
          if S_ISBLK mode || S_ISCHR mode then mret (Some 0)
          else if S_ISLNK mode then
            buf ← sys_readlink slink;
            match buf with
            | Some buf =>
                if (0 <? length buf)%nat && (length buf <? UTIL_PATH_SIZE)%nat
                   && str_eq (Some target) (Some (until_nul buf)) then
                  sys_utimens slink true ;; mret (Some 0)
                else replace
            | None => replace
            end
          else replace
      | None =>
          r ←! symlink_create fuel target slink;
          if r =? 0 then mret (Some 0) else replace
      end
  end.

(** * The stack of a link *)

(** The loop over the directory: [best] is the priority and the target. *)
Fixpoint find_prioritized_loop (names : list bytes) (priority : Z) (target : option bytes) : D (Z * option bytes) :=
  match names with
  | [] => mret (priority, target)
  | name :: names' =>
      match name with
      | [] => mret (priority, target)
      | c :: _ =>
          if c ==c "." then find_prioritized_loop names' priority target
          else
            id ← udev_device_get_id_filename;
            if str_eq (Some name) id then find_prioritized_loop names' priority target
            else
              dev_db ← sys (udev_device_new_from_device_id name);
              match dev_db with
              | None => find_prioritized_loop names' priority target
              | Some dev_db =>
                  '(devnode, dev_db) ← sys (run_device dev_db udev_device_get_devnode);
                  match devnode with
                  | None => find_prioritized_loop names' priority target
                  | Some devnode =>
                      '(better, dev_db) ← sys (run_device dev_db
                         (match target with
                          | None => mret true
                          | Some _ => p ← udev_device_get_devlink_priority; mret (priority <? p)
                          end));
                      if (better : bool) then
                        '(p, _) ← sys (run_device dev_db udev_device_get_devlink_priority);
                        find_prioritized_loop names' p (Some (fst (strscpy UTIL_PATH_SIZE devnode)))
                      else find_prioritized_loop names' priority target
                  end
              end
      end
  end.
Definition link_find_prioritized (add : bool) (stackdir : bytes) : D (option (option bytes)) :=
  start ← (if add then
             priority ← udev_device_get_devlink_priority;
             devnode ← udev_device_get_devnode;
             mret ((fun n => (priority, Some (fst (strscpy UTIL_PATH_SIZE n)))) <$> devnode)
           else mret (Some (0, None)));
  match start with
  | None => mret None
  | Some (priority, target) =>
      dir ← sys (sys_readdir stackdir);
      match dir with
      | None => mret (Some target)
      | Some names => '(_, target) ← find_prioritized_loop names priority target; mret (Some target)
      end
  end.

Fixpoint create_record_dir (fuel : nat) (filename : bytes) : state world (option unit) :=
  match fuel with
  | O => mret None
  | S fuel' =>
      r ← path_create filename 0x1ED;
      if r <? 0 then mret (Some tt)
      else e ← sys_errno; if e =? ENOENT then create_record_dir fuel' filename else mret (Some tt)
  end.
Definition link_update (fuel : nat) (slink : bytes) (add : bool) : D (option unit) :=
  devnum ← udev_device_get_id_filename;
  let name_enc := fst (path_encode (drop 4 slink) (Z.of_nat UTIL_PATH_SIZE)) in
  let dirname := fst (strscpyl UTIL_PATH_SIZE [UDEVRUNDIR ++ "/links/"; name_enc]) in
  let filename := fst (strscpyl (UTIL_PATH_SIZE * 2) ([dirname; "/" : bytes] ++ arg devnum)) in
  (if add then mret tt
   else r ← sys (sys_unlink filename); if r =? 0 then sys (sys_rmdir dirname) ;; mret tt else mret tt) ;;
  target ←! link_find_prioritized add dirname;
  _ ←! match target with
       | None =>
           r ← sys (sys_unlink slink);
           if r =? 0 then sys (path_remove slink) ;; mret (Some tt) else mret (Some tt)
       | Some target => _ ←! sys (node_symlink fuel devnum target slink); mret (Some tt)
       end;
  if add then
    _ ←! sys (create_record_dir fuel filename);
    sys (sys_create filename) ;; mret (Some tt)
  else mret (Some tt).
(** One link after the other. *)
Fixpoint each_link (links : list entry) (f : bytes -> D (option unit)) : D (option unit) :=
  match links with
  | [] => mret (Some tt)
  | e :: links' => _ ←! f (e_name e); each_link links' f
  end.
(** [old] are the links of the old device. *)
Definition udev_node_update_old_links (fuel : nat) (old : list entry) : D (option unit) :=
  each_link old (fun name =>
    links ← udev_device_get_devlinks_list_entry;
    if existsb (fun e => str_eq (Some name) (Some (e_name e))) links then mret (Some tt)
    else link_update fuel name false).

(** * Nodes *)

Definition S_IFBLK : Z := 0x6000.
Definition S_IFCHR : Z := 0x2000.
Definition is_block (subsystem : option bytes) : bool := str_eq subsystem (Some ("block" : bytes)).
Definition node_permissions_apply (apply : bool) (mode uid gid : Z) : D Z :=
  devnode ← udev_device_get_devnode;
  devnum ← udev_device_get_devnum;
  subsystem ← udev_device_get_subsystem udev_device_get_properties_list_entry;
  let mode := Z.lor mode (if is_block subsystem then S_IFBLK else S_IFCHR) in
  stats ← sys (match devnode with Some n => sys_lstat_node n | None => mret None end);
  match stats with
  | None => mret (-1)
  | Some st =>
      if negb (Z.land (ns_mode st) S_IFMT =? Z.land mode S_IFMT) || negb (ns_rdev st =? devnum) then mret (-1)
      else
        let node := default [] devnode in
        (if apply && (negb (Z.land (ns_mode st) ACCESSPERMS =? Z.land mode ACCESSPERMS)
                      || negb (ns_uid st =? uid) || negb (ns_gid st =? gid)) then
           sys (sys_chmod node mode) ;; sys (sys_chown node uid gid) ;; mret tt
         else mret tt) ;;
        sys (sys_utimens node false) ;;
        mret 0
  end.
(** /dev/{block,char}/$major:$minor *)
Definition devnum_link : D bytes :=
  subsystem ← udev_device_get_subsystem udev_device_get_properties_list_entry;
  devnum1 ← udev_device_get_devnum;
  devnum2 ← udev_device_get_devnum;
  mret (fst (strscpy UTIL_PATH_SIZE
    ("/dev/" ++ (if is_block subsystem then "block" else "char") ++ "/"%char :: fmt_u32 (major devnum1)
       ++ ":"%char :: fmt_u32 (minor devnum2)))).
Definition udev_node_add (fuel : nat) (apply : bool) (mode uid gid : Z) : D (option unit) :=
  devnum ← udev_device_get_id_filename;
  r ← node_permissions_apply apply mode uid gid;
  if r <? 0 then mret (Some tt)
  else
    filename ← devnum_link;
    devnode ← udev_device_get_devnode;
    _ ←! sys (match devnode with Some n => node_symlink fuel devnum n filename | None => mret (Some (-1)) end);
    links ← udev_device_get_devlinks_list_entry;
    each_link links (fun name => link_update fuel name true).
Definition udev_node_remove (fuel : nat) : D (option unit) :=
  links ← udev_device_get_devlinks_list_entry;
  _ ←! each_link links (fun name => link_update fuel name false);
  filename ← devnum_link;
  sys (sys_unlink filename) ;;
  mret (Some tt).
End node.
End Node.
