(* ===== verification/NodeLinks.v ===== *)
(** The stack of a link: reading the devices that claim a link writes nothing,
    and the link goes to one of the highest priority. *)

From Stdlib Require Import ZArith Lia Ascii.
From stdpp Require Import prelude gmap strings sorting.
From S2P Require Import Prelude Utils Strings Encode System UdevList Device DeviceProofs DeviceProps DeviceNew Node.
Import Mem Entries Path Device DeviceProofs DeviceProps DeviceNew Node.

Module NodeLinks.

(** * Reading leaves the system as it is *)

Definition quiet `{SY : System} {A} (m : state world A) : Prop := forall w, snd (m w) = w.
(** A device does not forget that its database was read. *)
Definition silent `{SY : System} {A} (m : D A) : Prop :=
  forall w d, fst (snd (m (w, d))) = w /\ (d_db_loaded d = true -> d_db_loaded (snd (snd (m (w, d)))) = true).
(** The calls that read do not change what the others see. *)
Class PureReads `{SY : System} {IF : Interfaces} : Prop := {
  pure_read_file p : quiet (sys_read_file p);
  pure_readlink p : quiet (sys_readlink p);
  pure_stat p : quiet (sys_stat p);
  pure_readdir p : quiet (sys_readdir p);
  pure_ifname i : quiet (sys_ifname i)
}.

Section silent.
Context `{PU : PureReads}.

Lemma quiet_ret {A} (x : A) : quiet (mret x).
Proof. done. Qed.
Lemma quiet_bind {A B} (m : state world A) (f : A -> state world B) :
  quiet m -> (forall x, quiet (f x)) -> quiet (m ≫= f).
Proof. intros Hm Hf w. rewrite bind_eq, Hf. apply Hm. Qed.
Lemma quiet_run {A} d (m : D A) : silent m -> quiet (run_device d m).
Proof. intros H w. unfold run_device. destruct (H w d) as [H1 _]. destruct (m (w, d)) as [x [w' d']]. exact H1. Qed.
Lemma silent_ret {A} (x : A) : silent (mret x).
Proof. done. Qed.
Lemma silent_bind {A B} (m : D A) (f : A -> D B) : silent m -> (forall x, silent (f x)) -> silent (m ≫= f).
Proof.
  intros Hm Hf w d. rewrite D_bind_eq. destruct (Hm w d) as [H1 H2]. destruct (m (w, d)) as [x [w' d']].
  cbn [fst snd] in *. destruct (Hf x w' d') as [H3 H4]. rewrite H3. eauto.
Qed.
Lemma silent_field {A} (f : udev_device -> A) : silent (field f).
Proof. done. Qed.
Lemma silent_update f : (forall d, d_db_loaded d = true -> d_db_loaded (f d) = true) -> silent (update f).
Proof. intros H w d. split; [done|]. apply H. Qed.
Lemma silent_sys {A} (m : state world A) : quiet m -> silent (sys m).
Proof. intros H w d. unfold sys. specialize (H w). destruct (m w). split; [exact H|done]. Qed.
End silent.

Create HintDb silent.
#[export] Hint Resolve pure_read_file pure_readlink pure_stat pure_readdir pure_ifname : silent.
#[export] Hint Resolve quiet_ret silent_ret silent_field : silent.
#[export] Hint Extern 1 (silent (update _)) => (apply silent_update; intros; repeat case_match; done) : silent.
Ltac silent_step :=
  first
  [ solve [eauto 4 with silent]
  | apply silent_bind; [|intro] | apply quiet_bind; [|intro]
  | apply silent_sys | apply quiet_run
  | progress cbv beta zeta
  | match goal with
    | |- silent (match ?x with _ => _ end) => destruct x
    | |- quiet (match ?x with _ => _ end) => destruct x
    end ].
Ltac solve_silent := intros; repeat silent_step.

Section loading.
Context `{PU : PureReads} (p : D (list entry)).
Hypothesis Hp : silent p.

Lemma silent_add_property key value : silent (udev_device_add_property_open p key value).
Proof using Hp. unfold udev_device_add_property_open. solve_silent. Qed.
Hint Resolve silent_add_property : silent.
Lemma silent_set_property key value : silent (set_property p key value).
Proof using Hp. unfold set_property. solve_silent. Qed.
Hint Resolve silent_set_property : silent.
Lemma silent_from_string s : silent (udev_device_add_property_from_string_open p s).
Proof using Hp. unfold udev_device_add_property_from_string_open. solve_silent. Qed.
Hint Resolve silent_from_string : silent.
Lemma silent_uevent_lines lines mm : silent (uevent_lines p lines mm).
Proof using Hp.
  revert mm. induction lines as [|l ls IH]; intros mm; cbn [uevent_lines]; [solve_silent|].
  unfold uevent_line, udev_device_set_devtype, udev_device_set_ifindex, udev_device_set_devnode. solve_silent.
Qed.
Hint Resolve silent_uevent_lines : silent.
Lemma silent_read_uevent : silent (udev_device_read_uevent_file_open p).
Proof using Hp PU.
  unfold udev_device_read_uevent_file_open, udev_device_set_devnum. solve_silent.
Qed.
Hint Resolve silent_read_uevent : silent.
Lemma silent_load_uevent : silent (load_uevent p).
Proof using Hp PU. unfold load_uevent. solve_silent. Qed.
Hint Resolve silent_load_uevent : silent.
Lemma quiet_core_link slink path size : quiet (util_get_sys_core_link_value slink path size).
Proof using PU. unfold util_get_sys_core_link_value. solve_silent. Qed.
Hint Resolve quiet_core_link : silent.
Lemma silent_subsystem : silent (udev_device_get_subsystem p).
Proof using Hp PU. unfold udev_device_get_subsystem, udev_device_set_subsystem. solve_silent. Qed.
Hint Resolve silent_subsystem : silent.
Lemma silent_id : silent (udev_device_get_id_filename_open p).
Proof using Hp PU.
  unfold udev_device_get_id_filename_open, udev_device_get_devnum_open, udev_device_get_ifindex_open. solve_silent.
Qed.
Hint Resolve silent_id : silent.
Lemma silent_db_lines lines : silent (db_lines p lines).
Proof using Hp.
  induction lines as [|l ls IH]; cbn [db_lines]; [solve_silent|].
  unfold db_line, udev_device_add_devlink, udev_device_set_devlink_priority, udev_list_entry_set_num_of,
    udev_device_add_tag, udev_device_set_watch_handle, udev_device_set_usec_initialized. solve_silent.
Qed.
Hint Resolve silent_db_lines : silent.
Lemma silent_load_db : silent (load_db p).
Proof using Hp PU. unfold load_db, udev_device_read_db_open, read_db_file. solve_silent. Qed.
Hint Resolve silent_load_db : silent.
Lemma silent_properties : silent (udev_device_get_properties_list_entry_open p).
Proof using Hp PU.
  unfold udev_device_get_properties_list_entry_open, udev_device_get_devlinks_list_entry_open,
    udev_device_get_tags_list_entry_open. solve_silent.
Qed.
Lemma silent_set_syspath path : silent (udev_device_set_syspath p path).
Proof using Hp. unfold udev_device_set_syspath. solve_silent. Qed.
End loading.

Section reading.
Context `{PU : PureReads}.
Lemma silent_properties_at n : silent (properties_at n).
Proof using PU. induction n as [|n IH]; cbn [properties_at]; [solve_silent|]. by apply silent_properties. Qed.
Lemma silent_self : silent udev_device_get_properties_list_entry.
Proof using PU. apply silent_properties_at. Qed.
End reading.
#[export] Hint Resolve silent_self silent_load_uevent silent_load_db silent_id silent_set_syspath : silent.

Section ids.
Context `{PU : PureReads}.
Lemma quiet_resolve path size : quiet (util_resolve_sys_link path size).
Proof using PU. unfold util_resolve_sys_link. solve_silent. Qed.
Hint Resolve quiet_resolve : silent.
Lemma quiet_new_syspath path : quiet (udev_device_new_from_syspath path).
Proof using PU. unfold udev_device_new_from_syspath. solve_silent. Qed.
Hint Resolve quiet_new_syspath : silent.
Lemma quiet_existing paths : quiet (first_existing paths).
Proof using PU. unfold first_existing. induction paths as [|x xs IH]; solve_silent. Qed.
Hint Resolve quiet_existing : silent.
Lemma quiet_new_sysname subsystem sysname : quiet (udev_device_new_from_subsystem_sysname subsystem sysname).
Proof using PU. unfold udev_device_new_from_subsystem_sysname. solve_silent. Qed.
Hint Resolve quiet_new_sysname : silent.
Lemma quiet_new_id id : quiet (udev_device_new_from_device_id id).
Proof using PU.
  unfold udev_device_new_from_device_id, udev_device_new_from_devnum, new_from_ifindex,
    udev_device_get_ifindex, udev_device_get_ifindex_open. solve_silent.
Qed.
Lemma silent_devnode : silent udev_device_get_devnode.
Proof using PU. unfold udev_device_get_devnode, udev_device_get_devnode_open. solve_silent. Qed.
Lemma silent_priority : silent udev_device_get_devlink_priority.
Proof using PU. unfold udev_device_get_devlink_priority. solve_silent. Qed.
End ids.
#[export] Hint Resolve quiet_new_id silent_devnode silent_priority : silent.

(** * The claims on a link *)

Section claims.
Context `{PU : PureReads}.
Implicit Types (w : world) (d : udev_device).

Lemma load_db_done w d : d_info_loaded d = true \/ d_db_loaded d = true ->
  load_db udev_device_get_properties_list_entry (w, d) = (tt, (w, d)).
Proof.
  intros H. unfold load_db. rewrite bind_field. destruct (d_info_loaded d); [done|]. destruct H as [|H]; [done|].
  unfold udev_device_read_db_open. by rewrite bind_assoc, bind_field, H.
Qed.
Lemma load_db_loads w d :
  let '(_, (w', d')) := load_db udev_device_get_properties_list_entry (w, d) in
  w' = w /\ (d' = d /\ d_info_loaded d = true \/ d_db_loaded d' = true).
Proof using PU.
  assert (silent (load_db udev_device_get_properties_list_entry)) as Hs by (apply silent_load_db, silent_self).
  pose proof (proj1 (Hs w d)) as Hw. destruct (d_info_loaded d) eqn:Ei.
  { rewrite load_db_done by by left. auto. }
  assert (d_db_loaded (snd (snd (load_db udev_device_get_properties_list_entry (w, d)))) = true) as H.
  { unfold load_db. rewrite bind_field, Ei.
    unfold udev_device_read_db_open. rewrite bind_assoc, bind_field. destruct (d_db_loaded d) eqn:Ed; [done|].
    rewrite bind_assoc, bind_update. match goal with |- d_db_loaded (snd (snd (?m (w, ?d1)))) = _ => assert (silent m) as Hm end.
    { unfold read_db_file. solve_silent. apply silent_db_lines, silent_self. }
    by apply Hm. }
  destruct (load_db _ _) as [[] [w' d']]. auto.
Qed.
(** The same priority is read again. *)
Lemma priority_again w d : let '(p, (w', d')) := udev_device_get_devlink_priority (w, d) in
  w' = w /\ udev_device_get_devlink_priority (w, d') = (p, (w, d')).
Proof using PU.
  pose proof (load_db_loads w d) as H. unfold udev_device_get_devlink_priority. rewrite D_bind_eq.
  destruct (load_db _ (w, d)) as [u [w' d']]. destruct H as [-> H]. cbn [fst snd]. split; [done|].
  rewrite D_bind_eq, load_db_done; [done|]. destruct H as [[-> H]|H]; auto.
Qed.

Lemma run_device_eq {A} d (m : D A) w x w' d' : m (w, d) = (x, (w', d')) -> run_device d m w = ((x, d'), w').
Proof. intros H. unfold run_device. by rewrite H. Qed.

(** What the device with this identifier claims: its priority and its node. *)
Definition claim w (name : bytes) : option (Z * bytes) :=
  match fst (udev_device_new_from_device_id name w) with
  | None => None
  | Some dev =>
      let '(node, (_, dev)) := udev_device_get_devnode (w, dev) in
      match node with
      | None => None
      | Some n => Some (fst (udev_device_get_devlink_priority (w, dev)), fst (strscpy UTIL_PATH_SIZE n))
      end
  end.
(** The other devices of the directory. *)
Fixpoint rivals (id : bytes) (names : list bytes) : list bytes :=
  match names with
  | [] => []
  | name :: names' =>
      match name with
      | [] => []
      | c :: _ => if (c ==c ".") || bool_decide (name = id) then rivals id names' else name :: rivals id names'
      end
  end.
Definition choose (best : option (Z * bytes)) (c : Z * bytes) : option (Z * bytes) :=
  match best with
  | None => Some c
  | Some b => if fst b <? fst c then Some c else Some b
  end.
Lemma find_loop_ok names w d id p t :
  d_id_filename d = Some id ->
  let best := fold_left choose (omap (claim w) (rivals id names)) ((fun t => (p, t)) <$> t) in
  exists p', find_prioritized_loop names p t (w, d) = ((p', snd <$> best), (w, d)).
Proof using PU.
  intros Hid. revert p t. induction names as [|name names IH]; intros p t.
  { exists p. cbn. by destruct t. }
  cbn [find_prioritized_loop rivals]. destruct name as [|c name]; [exists p; cbn; by destruct t|].
  destruct (c ==c "."); cbn [orb]; [apply IH|].
  assert (udev_device_get_id_filename (w, d) = (Some id, (w, d))) as Ei.
  { unfold udev_device_get_id_filename, udev_device_get_id_filename_open. by rewrite bind_field, Hid. }
  rewrite D_bind_eq, Ei. cbn [fst snd]. rewrite str_eq_spec.
  rewrite (bool_decide_ext _ (c :: name = id)) by (split; congruence). case_bool_decide; [apply IH|].
  cbn [omap list_omap]. unfold claim at 1. rewrite bind_sys. pose proof (quiet_new_id (c :: name) w) as Hq.
  destruct (udev_device_new_from_device_id (c :: name) w) as [[dev|] w1]; cbn [fst snd] in *; subst w1; [|apply IH].
  rewrite bind_sys. pose proof (silent_devnode w dev) as [Hn _].
  destruct (udev_device_get_devnode (w, dev)) as [node [w1 dev1]] eqn:En. cbn [fst snd] in *. subst w1.
  rewrite (run_device_eq _ _ _ _ _ _ En). cbn [fst snd]. destruct node as [n|]; [|apply IH]. rewrite bind_sys.
  pose proof (priority_again w dev1) as Hp. destruct (udev_device_get_devlink_priority (w, dev1)) as [q [w1 dev2]] eqn:Eq.
  destruct Hp as [-> Hp]. cbn [fold_left fst]. destruct t as [t|]; cbn [fmap option_fmap option_map choose fst].
  - erewrite run_device_eq by (rewrite D_bind_eq, Eq; reflexivity). cbn [fst snd].
    destruct (p <? q); [|apply IH]. rewrite bind_sys, (run_device_eq _ _ _ _ _ _ Hp). cbn [fst snd].
    apply (IH q (Some (fst (strscpy UTIL_PATH_SIZE n)))).
  - erewrite run_device_eq by reflexivity. cbn [fst snd]. rewrite bind_sys, (run_device_eq _ _ _ _ _ _ Eq). cbn [fst snd].
    apply (IH q (Some (fst (strscpy UTIL_PATH_SIZE n)))).
Qed.

(** The first of the highest priority. *)
Lemma choose_best cs best c : fold_left choose cs best = Some c ->
  (best = Some c \/ c ∈ cs) /\ (forall x, best = Some x \/ x ∈ cs -> fst x <= fst c) /\
  (forall x, best = Some x -> (forall y, y ∈ cs -> fst y <= fst x) -> c = x).
Proof.
  revert best. induction cs as [|a cs IH]; intros best H; cbn [fold_left] in *.
  { split_and!; [by left| |congruence]. intros x [Hx|Hx%not_elem_of_nil]; [|done]. rewrite Hx in H. by injection H as ->. }
  destruct (IH _ H) as (H1 & H2 & H3). clear IH.
  assert (exists b, choose best a = Some b /\ fst a <= fst b /\ (forall x, best = Some x -> fst x <= fst b) /\
    (b = a \/ best = Some b) /\ (forall x, best = Some x -> fst a <= fst x -> b = x)) as (b & Hb & Ha & Hx & Hab & Hbx).
  { unfold choose. destruct best as [x|]; [destruct (Z.ltb_spec (fst x) (fst a))|]; eexists; (split; [reflexivity|]);
      split_and!; try lia; try (by left); try (by right); intros y; try done; intros [= <-]; lia || done. }
  rewrite Hb in *. split_and!.
  - destruct H1 as [[= <-]|H1]; [|right; by apply list_elem_of_further]. destruct Hab as [->|Hab]; [right; apply list_elem_of_here|by left].
  - intros x [Hx'|Hx']; [|apply elem_of_cons in Hx' as [->|Hx']].
    + etrans; [by apply Hx|]. apply H2. by left.
    + etrans; [done|]. apply H2. by left.
    + apply H2. by right.
  - intros x Hbest Hy. assert (b = x) as -> by (apply Hbx; [done|]; apply Hy, list_elem_of_here). apply H3; [done|].
    intros y Hy'. by apply Hy, list_elem_of_further.
Qed.
Lemma choose_none cs best : fold_left choose cs best = None <-> best = None /\ cs = [].
Proof.
  split; [|by intros [-> ->]]. assert (forall cs b, fold_left choose cs (Some b) <> None) as Hs.
  { clear. induction cs as [|c cs IH]; intros b; cbn [fold_left]; [done|]. unfold choose at 2. destruct (_ <? _); apply IH. }
  intros H. destruct best as [b|]; [by apply Hs in H|]. destruct cs as [|c cs]; [done|]. by apply Hs in H.
Qed.

(** ** The target of a link *)

(** What is known of the device that is handled. *)
Definition known (id node : bytes) d : Prop :=
  d_info_loaded d = true /\ d_id_filename d = Some id /\ d_devnode d = Some node.
(** The claims in [dir], with the own one when the device is added. *)
Definition own_claim (add : bool) (node : bytes) d : option (Z * bytes) :=
  if add then Some (d_devlink_priority d, fst (strscpy UTIL_PATH_SIZE node)) else None.
Definition other_claims (id dir : bytes) w : list (Z * bytes) :=
  omap (claim w) (rivals id (default [] (fst (sys_readdir dir w)))).

(** C29: A link goes to the device that claims it with the highest priority.
    For the directory of a link, [link_find_prioritized] finds the node of a
    claiming device of the highest priority, whatever the order of the
    directory, and none when there is no claim; the device that is added wins
    against others of its priority.  Nothing is written and a device whose
    record is stale or has no node claims nothing. *)
Theorem link_target_priority add dir id node w d :
  known id node d ->
  exists t, link_find_prioritized add dir (w, d) = (Some t, (w, d)) /\
  (t = None <-> add = false /\ other_claims id dir w = []) /\
  forall n, t = Some n ->
    (exists p, (own_claim add node d = Some (p, n) \/ (p, n) ∈ other_claims id dir w) /\
      forall c, own_claim add node d = Some c \/ c ∈ other_claims id dir w -> fst c <= p) /\
    (forall c, own_claim add node d = Some c -> (forall x, x ∈ other_claims id dir w -> fst x <= fst c) -> n = snd c).
Proof using PU.
  intros (Hi & Hid & Hn).
  assert (link_find_prioritized add dir (w, d) =
    (Some (snd <$> fold_left choose (other_claims id dir w) (own_claim add node d)), (w, d))) as He.
  { unfold link_find_prioritized. assert (udev_device_get_devlink_priority (w, d) = (d_devlink_priority d, (w, d))) as Ep.
    { unfold udev_device_get_devlink_priority. by rewrite D_bind_eq, load_db_done by by left. }
    assert (udev_device_get_devnode (w, d) = (Some node, (w, d))) as En.
    { unfold udev_device_get_devnode, udev_device_get_devnode_open. by rewrite bind_field, Hn. }
    pose proof (pure_readdir dir w) as Hr. unfold other_claims.
    set (start := if add then Some (d_devlink_priority d, Some (fst (strscpy UTIL_PATH_SIZE node))) else Some (0, None)).
    rewrite D_bind_eq. match goal with |- context [fst (?m (w, d))] => assert (m (w, d) = (start, (w, d))) as -> end.
    { destruct add; [|done]. rewrite D_bind_eq, Ep. cbn [fst snd]. by rewrite D_bind_eq, En. }
    cbn [fst snd]. destruct add; subst start; cbn [fst snd]; rewrite bind_sys;
      destruct (sys_readdir dir w) as [[names|] w1]; cbn [fst snd default] in *; subst w1; try done.
    - destruct (find_loop_ok names w d id (d_devlink_priority d) (Some (fst (strscpy UTIL_PATH_SIZE node))) Hid) as [p' E].
      by rewrite D_bind_eq, E.
    - destruct (find_loop_ok names w d id 0 None Hid) as [p' E]. by rewrite D_bind_eq, E. }
  eexists. split; [exact He|]. split.
  - rewrite fmap_None, choose_none. unfold own_claim. destruct add; naive_solver.
  - intros n H. apply fmap_Some in H as ([p n'] & H & ->). destruct (choose_best _ _ _ H) as (H1 & H2 & H3). cbn [snd].
    split; [exists p; split; [done|]; exact H2|]. intros c Hc Hx. by rewrite <- (H3 c Hc Hx).
Qed.
End claims.

(** ** An example: two disks claim a link *)

Fixpoint assoc {A} (l : list (bytes * A)) (p : bytes) : option A :=
  match l with [] => None | (q, x) :: l' => if bool_decide (p = q) then Some x else assoc l' p end.
Definition line (s : bytes) : bytes := s ++ [newline].
Definition two_disks : System := {|
  world := unit;
  sys_properties := [];
  sys_read_file := fun p w =>
    (assoc [("/sys/devices/sdb/uevent" : bytes, line "MAJOR=8" ++ line "MINOR=17" ++ line "DEVNAME=sdb");
            ("/run/udev/data/b8:17" : bytes, line "S:disk/fast" ++ line "L:100")] p, w);
  sys_readlink := fun p w =>
    (assoc [("/sys/dev/block/8:17" : bytes, "../../devices/sdb" : bytes);
            ("/sys/devices/sdb/subsystem" : bytes, "../../class/block" : bytes)] p, w);
  sys_lstat := fun p w => (None, w);
  sys_stat := fun p w => (assoc [("/sys/devices/sdb/uevent" : bytes, 0x81A4)] p, w);
  sys_readdir := fun p w =>
    (assoc [("/run/udev/links/fast" : bytes, ["." : bytes; ".." : bytes; "b8:1" : bytes; "b8:17" : bytes])] p, w);
  sys_create := fun p w => (0, w);
  sys_chmod := fun p m w => (0, w);
  sys_write := fun p s w => (0, w);
  sys_mkdir := fun p m w => (0, w);
  sys_rename := fun p q w => (0, w);
  sys_unlink := fun p w => (0, w)
|}.
Definition two_disks_interfaces : Interfaces (SY := two_disks) := fun _ w => (None, w).
Definition disk_a : udev_device :=
  device_new <| d_info_loaded := true |> <| d_id_filename := Some ("b8:1" : bytes) |>
    <| d_devnode := Some ("/dev/sda" : bytes) |> <| d_devlink_priority := 50 |>.
Lemma two_disks_pure : PureReads (SY := two_disks) (IF := two_disks_interfaces).
Proof. by split. Qed.
Lemma link_target_priority_witness :
  exists n, @link_find_prioritized two_disks two_disks_interfaces true "/run/udev/links/fast" (Datatypes.tt, disk_a) =
    (Some (Some n), (Datatypes.tt, disk_a)).
Proof.
  destruct (@link_target_priority two_disks two_disks_interfaces two_disks_pure true "/run/udev/links/fast" "b8:1" "/dev/sda"
    Datatypes.tt disk_a) as (t & H & Hn & _).
  - split_and!; reflexivity.
  - destruct t as [n|]; [by exists n|]. destruct (proj1 Hn eq_refl) as [E _]. discriminate E.
Defined.
Example two_disks_target :
  fst (@link_find_prioritized two_disks two_disks_interfaces true "/run/udev/links/fast" (Datatypes.tt, disk_a)) =
  Some (Some ("/dev/sdb" : bytes)).
Proof. vm_compute. reflexivity. Qed.

(** * Replacing a link *)

(** What POSIX says of the calls about the link at a path. *)
Class LinkLaws `{SY : System} {NO : Nodes} : Prop := {
  law_stat p : quiet (sys_stat p);
  law_lstat p : quiet (sys_lstat p);
  law_readlink p : quiet (sys_readlink p);
  law_symlink t p w : fst (sys_symlink t p w) = 0 -> fst (sys_readlink p (snd (sys_symlink t p w))) = Some t;
  law_symlink_other t p q w : fst (sys_symlink t p w) <> 0 \/ p <> q ->
    fst (sys_readlink q (snd (sys_symlink t p w))) = fst (sys_readlink q w);
  law_unlink_other p q w : p <> q -> fst (sys_readlink q (snd (sys_unlink p w))) = fst (sys_readlink q w);
  law_mkdir p mode q w : fst (sys_readlink q (snd (sys_mkdir p mode w))) = fst (sys_readlink q w);
  law_rename p q t w : fst (sys_rename p q w) = 0 -> fst (sys_readlink p w) = Some t ->
    fst (sys_readlink q (snd (sys_rename p q w))) = Some t;
  law_rename_fails p q r w : fst (sys_rename p q w) <> 0 ->
    fst (sys_readlink r (snd (sys_rename p q w))) = fst (sys_readlink r w);
  law_utimens p nofollow q w : fst (sys_readlink q (snd (sys_utimens p nofollow w))) = fst (sys_readlink q w)
}.

Section links.
Context `{LL : LinkLaws}.

(** The link at [q] is kept. *)
Definition frames (q : bytes) {A} (m : state world A) : Prop :=
  forall w, fst (sys_readlink q (snd (m w))) = fst (sys_readlink q w).
Lemma frames_bind q {A B} (m : state world A) (f : A -> state world B) :
  frames q m -> (forall x, frames q (f x)) -> frames q (m ≫= f).
Proof. intros Hm Hf w. by rewrite bind_eq, Hf. Qed.
Lemma frames_quiet q {A} (m : state world A) : quiet m -> frames q m.
Proof. intros H w. by rewrite H. Qed.
Lemma mkdir_loop_frames q fuel t p mode : frames q (mkdir_parents_loop fuel t p mode).
Proof using LL.
  revert t p. induction fuel as [|fuel IH]; intros t p; cbn [mkdir_parents_loop]; [done|].
  destruct (span_slash p) as [e r]. destruct (span_slashes r) as [sl p']. destruct p'; [done|].
  apply frames_bind; [unfold label_mkdir; apply frames_bind; [intros w; apply law_mkdir|done]|].
  intros x. by destruct (x <? 0).
Qed.
Lemma mkdir_parents_frames q p mode : frames q (mkdir_parents_label p mode).
Proof using LL.
  unfold mkdir_parents_label. destruct (strrchr p "/") as [[[|c a] b]|]; [done| |done].
  apply frames_bind; [apply frames_quiet, law_stat|]. intros [m|]; [done|].
  destruct (span_slashes p) as [sl p']. apply mkdir_loop_frames.
Qed.
(** A link is created or nothing changes. *)
Lemma symlink_create_ok fuel target slink w r w' :
  symlink_create fuel target slink w = (Some r, w') ->
  (r = 0 -> fst (sys_readlink slink w') = Some target) /\
  (forall q, r <> 0 \/ slink <> q -> fst (sys_readlink q w') = fst (sys_readlink q w)).
Proof using LL.
  revert w. induction fuel as [|fuel IH]; intros w H; cbn [symlink_create] in H; [done|].
  rewrite bind_eq in H. assert (forall q, fst (sys_readlink q (snd (mkdir_parents_label slink 0x1ED w))) = fst (sys_readlink q w)) as Hm
    by (intros q; apply mkdir_parents_frames).
  revert H Hm. generalize (snd (mkdir_parents_label slink 0x1ED w)) as w1. intros w1 H Hm.
  set (err := fst (mkdir_parents_label slink 0x1ED w)) in *.
  destruct (negb (err =? 0) && negb (err =? - ENOENT)) eqn:Ee.
  - injection H as <- <-. apply andb_prop in Ee as [Ee%negb_true_iff%Z.eqb_neq _]. split; [done|]. intros q _. apply Hm.
  - rewrite bind_eq in H. destruct (Z.eqb_spec (fst (sys_symlink target slink w1)) ENOENT) as [E|E].
    + destruct (IH _ H) as [H1 H2]. split; [done|]. intros q Hq. rewrite H2 by done. rewrite law_symlink_other; [apply Hm|].
      left. rewrite E. done.
    + injection H as <- <-. split.
      * intros Hr. apply law_symlink. lia.
      * intros q Hq. rewrite law_symlink_other; [apply Hm|]. destruct Hq; [left; lia|by right].
Qed.

(** The link is the old one or the new one. *)
Definition swapped (slink target : bytes) w (w' : world) (r : Z) : Prop :=
  (fst (sys_readlink slink w') = Some target \/ fst (sys_readlink slink w') = fst (sys_readlink slink w)) /\
  (r = 0 -> fst (sys_readlink slink w') = Some target).
Lemma replace_link_ok fuel tmp target slink w r w' :
  tmp <> slink -> replace_link fuel tmp target slink w = (Some r, w') -> swapped slink target w w' r.
Proof using LL.
  intros Ht H. unfold replace_link in H. rewrite bind_eq in H.
  pose proof (law_unlink_other tmp slink w Ht) as Hu. revert H Hu. generalize (snd (sys_unlink tmp w)) as w1. intros w1 H Hu.
  unfold obind in H. rewrite bind_eq in H. destruct (symlink_create fuel target tmp w1) as [[r1|] w2] eqn:Ec; [|done].
  apply symlink_create_ok in Ec as [Hc1 Hc2]. cbn [fst snd] in H. destruct (Z.eqb_spec r1 0) as [->|Hr]; cbn [negb] in H.
  - rewrite bind_eq in H. destruct (Z.eqb_spec (fst (sys_rename tmp slink w2)) 0) as [Er|Er]; cbn [negb] in H.
    + injection H as <- <-. pose proof (law_rename tmp slink target w2 Er (Hc1 eq_refl)) as Hn. split; [by left|done].
    + rewrite bind_eq in H. injection H as <- <-. split; [right|done].
      rewrite law_unlink_other, law_rename_fails, Hc2, Hu by auto. done.
  - injection H as <- <-. split; [right|done]. by rewrite Hc2, Hu by auto.
Qed.
Lemma link_tmp_differs devnum slink : (length slink < UTIL_PATH_SIZE)%nat -> link_tmp devnum slink <> slink.
Proof.
  intros Hl He. apply (f_equal length) in He. revert He. unfold link_tmp, strscpyl, UTIL_PATH_SIZE in *.
  rewrite strpcpyl_eq by done. cbn [fst out dst_new app]. rewrite length_take. cbn [app].
  change (mjoin (slink :: (".tmp-" : bytes) :: arg devnum)) with (slink ++ (".tmp-" : bytes) ++ mjoin (arg devnum)).
  rewrite !length_app. cbn [length left_ dst_new]. change (length (".tmp-" : bytes)) with 5%nat. lia.
Qed.

(** C30: A link in /dev is replaced atomically.  When [node_symlink] returns,
    the link is the one that stood there before or the new one: it is not
    removed and does not point elsewhere, also when a call fails.  When the
    result is 0 it has the target, or a device node stands in its place, which
    is kept. *)
Theorem node_symlink_atomic fuel devnum node slink w r w' target n :
  path_relative (Some node) (Some slink) UTIL_PATH_SIZE = Some (target, S n) ->
  (length slink < UTIL_PATH_SIZE)%nat ->
  node_symlink fuel devnum node slink w = (Some r, w') ->
  (fst (sys_readlink slink w') = Some target \/ fst (sys_readlink slink w') = fst (sys_readlink slink w)) /\
  (r = 0 -> (exists buf, fst (sys_readlink slink w') = Some buf /\ (buf = target \/ until_nul buf = target)) \/
            (exists mode, fst (sys_lstat slink w) = Some mode /\ S_ISBLK mode || S_ISCHR mode = true)).
Proof using LL.
  intros Hp Hl H. unfold node_symlink in H. rewrite Hp in H. pose proof (link_tmp_differs devnum slink Hl) as Ht.
  assert (forall w1, fst (sys_readlink slink w1) = fst (sys_readlink slink w) ->
    replace_link fuel (link_tmp devnum slink) target slink w1 = (Some r, w') -> swapped slink target w w' r) as Hr.
  { intros w1 Hw Hr. apply replace_link_ok in Hr; [|done]. unfold swapped in *. by rewrite <- Hw. }
  enough (swapped slink target w w' r \/ w' = w /\ (exists mode, fst (sys_lstat slink w) = Some mode /\ S_ISBLK mode || S_ISCHR mode = true) \/
    (exists buf, fst (sys_readlink slink w') = Some buf /\ fst (sys_readlink slink w) = Some buf /\ until_nul buf = target)) as Hs.
  { destruct Hs as [[H1 H2]|[[-> H1]|(buf & H1 & H2 & H3)]].
    - split; [done|]. intros E. left. exists target. auto.
    - split; [by right|]. auto.
    - split; [right; by rewrite H1, H2|]. intros _. left. exists buf. auto. }
  rewrite bind_eq in H. rewrite law_lstat in H. destruct (fst (sys_lstat slink w)) as [mode|] eqn:Es.
  - destruct (S_ISBLK mode || S_ISCHR mode) eqn:Ed; [injection H as <- <-; right; left; split; [done|]; by exists mode|].
    destruct (S_ISLNK mode); [|left; by apply (Hr w)].
    rewrite bind_eq, law_readlink in H. destruct (fst (sys_readlink slink w)) as [buf|] eqn:Eb; [|left; by apply (Hr w)].
    destruct (_ && str_eq _ _) eqn:Ee; [|left; by apply (Hr w)]. apply andb_prop in Ee as [_ Ee].
    rewrite str_eq_spec in Ee. apply bool_decide_eq_true_1 in Ee. injection Ee as Ee.
    rewrite bind_eq in H. injection H as <- <-. right. right. exists buf. rewrite law_utimens. auto.
  - unfold obind in H. rewrite bind_eq in H. destruct (symlink_create fuel target slink w) as [[r1|] w1] eqn:Ec; [|done].
    apply symlink_create_ok in Ec as [Hc1 Hc2]. cbn [fst snd] in H. left. destruct (Z.eqb_spec r1 0) as [->|Hr1].
    + injection H as <- <-. split; [left|]; auto.
    + apply (Hr w1); [|done]. apply Hc2. by left.
Qed.
End links.

(** A file system that holds only links, in directories that exist. *)
Definition link_system : System := {|
  world := gmap bytes bytes;
  sys_properties := [];
  sys_read_file := fun p w => (None, w);
  sys_readlink := fun p w => (w !! p, w);
  sys_lstat := fun p w => ((fun _ => 0xA1FF) <$> w !! p, w);
  sys_stat := fun p w => (None, w);
  sys_readdir := fun p w => (None, w);
  sys_create := fun p w => (0, w);
  sys_chmod := fun p m w => (0, w);
  sys_write := fun p s w => (0, w);
  sys_mkdir := fun p m w => (EEXIST, w);
  sys_rename := fun p q w => match w !! p with Some t => (0, <[q := t]> (delete p w)) | None => (ENOENT, w) end;
  sys_unlink := fun p w => match w !! p with Some _ => (0, delete p w) | None => (ENOENT, w) end
|}.
Definition link_nodes : Nodes (SY := link_system) :=
  @Build_Nodes link_system
    (fun p w => (None, w))
    (fun t p (w : gmap bytes bytes) => match w !! p with Some _ => (EEXIST, w) | None => (0, <[p := t]> w) end)
    (fun p w => (0, w))
    (fun p u g w => (0, w))
    (fun p n w => (Datatypes.tt, w))
    (fun w => (0, w)).
Lemma link_laws : LinkLaws (SY := link_system) (NO := link_nodes).
Proof.
  split; try done; cbn.
  - intros t p w. destruct (w !! p) eqn:E; [done|]. intros _. apply lookup_insert_eq.
  - intros t p q w. destruct (w !! p) eqn:E; [done|]. intros [H|H]; [done|]. by apply lookup_insert_ne.
  - intros p q w H. destruct (w !! p); [|done]. by apply lookup_delete_ne.
  - intros p q t w. destruct (w !! p) eqn:E; [|done]. intros _ [= ->]. apply lookup_insert_eq.
  - intros p q r w. by destruct (w !! p).
Qed.
Definition old_link : gmap bytes bytes := <[("/dev/disk/fast" : bytes) := ("../sda" : bytes)]> ∅.
Definition swap_result : option Z * gmap bytes bytes :=
  Eval vm_compute in @node_symlink link_system link_nodes 1 (Some ("b8:17" : bytes)) "/dev/sdb" "/dev/disk/fast" old_link.
Lemma node_symlink_atomic_witness :
  snd swap_result !! ("/dev/disk/fast" : bytes) = Some ("../sdb" : bytes) \/
  snd swap_result !! ("/dev/disk/fast" : bytes) = old_link !! ("/dev/disk/fast" : bytes).
Proof.
  refine (proj1 (@node_symlink_atomic link_system link_nodes link_laws 1 (Some ("b8:17" : bytes)) "/dev/sdb" "/dev/disk/fast"
    old_link 0 (snd swap_result) "../sdb" 5 _ _ _)).
  - vm_compute. reflexivity.
  - vm_compute. repeat constructor.
  - vm_compute. reflexivity.
Defined.
End NodeLinks.
