(* ===== verification/Event.v ===== *)
(** src/core/udev-event.c: an event with its device, the expansion of $ and %
    in the values of rules ([udev_event_apply_format]) and running programs
    ([udev_event_spawn]). *)

From Stdlib Require Import ZArith Lia Ascii.
From stdpp Require Import prelude gmap strings sorting.
From S2P Require Import Prelude Utils Strings Encode System UdevList Device.
Import Mem Device.

Module Event.

(** * The event

    [ev_chain] is the device followed by its parents, as far as they were
    looked up: the parent of the device at [i] is the one at [S i], once the
    flag [d_parent_set] of the device is set.  [ev_dev_parent] is an index
    into it, so that 0 is the device itself. *)
Record udev_event := mk_event {
  ev_chain : list udev_device;
  ev_dev_parent : option nat;
  ev_dev_db : option udev_device;
  ev_name : option bytes;
  ev_program_result : option bytes;
  ev_mode : Z;
  ev_uid : Z;
  ev_gid : Z;
  ev_seclabel_list : list entry;
  ev_run_list : list entry;
  ev_exec_delay : Z;
  ev_builtin_run : Z;
  ev_builtin_ret : Z;
  ev_sigterm : bool;
  ev_inotify_watch : bool;
  ev_inotify_watch_final : bool;
  ev_group_set : bool;
  ev_group_final : bool;
  ev_owner_set : bool;
  ev_owner_final : bool;
  ev_mode_set : bool;
  ev_mode_final : bool;
  ev_name_final : bool;
  ev_devlink_final : bool;
  ev_run_final : bool
}.
#[export] Instance event_eta : Eta udev_event := fun x => mk_event
  (ev_chain x) (ev_dev_parent x) (ev_dev_db x) (ev_name x) (ev_program_result x)
  (ev_mode x) (ev_uid x) (ev_gid x) (ev_seclabel_list x) (ev_run_list x)
  (ev_exec_delay x) (ev_builtin_run x) (ev_builtin_ret x) (ev_sigterm x)
  (ev_inotify_watch x) (ev_inotify_watch_final x) (ev_group_set x) (ev_group_final x)
  (ev_owner_set x) (ev_owner_final x) (ev_mode_set x) (ev_mode_final x) (ev_name_final x)
  (ev_devlink_final x) (ev_run_final x).

(** Programs, builtin commands and the C library.  A program gets its
    arguments and its environment, which is NULL when it did not fit, and
    gives the exit status as [spawn_wait] reports it, the pieces of its output
    in the order they are read, and whether SIGTERM arrived meanwhile.  A
    builtin command works on the device of the event and its parents: the list
    has the device first and its parents behind it.  [BuiltinEnd.with_builtins]
    puts the commands of src/core/builtin here. *)
Class Programs `{SY : System} := {
  run_program : list bytes -> option (list bytes) -> state world (Z * list bytes * bool);
  builtin_cmd : Z -> list bytes -> state (world * list udev_device) Z;
  fnmatch : bytes -> bytes -> bool;
  getpwuid : Z -> bool;
  getpwnam : bytes -> option Z;
  getgrgid : Z -> bool;
  getgrnam : bytes -> option Z;
  udevlibexecdir : bytes
}.

(** No programs and no users, for examples. *)
Definition no_programs : @Programs file_system := {|
  run_program := fun argv envp w => ((-1, [], false), w);
  builtin_cmd := fun cmd argv s => (0, s);
  fnmatch := fun pattern s => bool_decide (pattern = s);
  getpwuid := fun _ => false;
  getpwnam := fun _ => None;
  getgrgid := fun _ => false;
  getgrnam := fun _ => None;
  udevlibexecdir := "/lib/udev"
|}.

(** A computation on the event and the world. *)
Abbreviation E := (state (world * udev_event)).

Section event.
Context `{SY : System} {PR : Programs}.

Definition ev {A} (f : udev_event -> A) : E A := gets (f ∘ snd).
Definition ev_update (f : udev_event -> udev_event) : E unit := modify (fun '(w, e) => (w, f e)).
Definition ev_sys {A} (m : state world A) : E A := fun '(w, e) => let '(x, w') := m w in (x, (w', e)).
(** A computation on the device at [i]. *)
Definition device_at (e : udev_event) (i : nat) : udev_device := default device_new (ev_chain e !! i).
Definition on {A} (i : nat) (m : D A) : E A :=
  fun '(w, e) =>
    let '(x, (w', d)) := m (w, device_at e i) in
    (x, (w', e <| ev_chain := <[i := d]> (ev_chain e) |>)).
Abbreviation on_dev := (on 0).
(** A computation on the device and its parents. *)
Definition on_chain {A} (m : state (world * list udev_device) A) : E A :=
  fun '(w, e) => let '(x, (w', l)) := m (w, ev_chain e) in (x, (w', e <| ev_chain := l |>)).

(** [udev_event_new]. *)
Definition event_of (d : udev_device) : udev_event :=
  mk_event [d] None None None None 0x180 0 0 [] [] 0 0 0
    false false false false false false false false false false false false.
Definition udev_event_new (d : udev_device) : state world udev_event :=
  fun w =>
    let '(uid, (w, d)) := udev_device_get_devnode_uid (w, d) in
    let '(gid, (w, d)) := udev_device_get_devnode_gid (w, d) in
    ((event_of d) <| ev_uid := uid |> <| ev_gid := gid |>, w).

(** [udev_device_get_parent] of the device at [i]: the index of the parent. *)
Definition udev_device_get_parent (i : nat) : E (option nat) :=
  e ← ev (fun e => e);
  if d_parent_set (device_at e i) then
    mret (if (S i <? length (ev_chain e))%nat then Some (S i) else None)
  else
    on i (update (fun d => d <| d_parent_set := true |>)) ;;
    p ← ev_sys (device_new_from_parent (device_at e i));
    match p with
    | None => mret None
    | Some p => ev_update (fun e => e <| ev_chain := ev_chain e ++ [p] |>) ;; mret (Some (S i))
    end.

(** * [udev_event_apply_format] *)

Inductive subst_type :=
| SUBST_DEVNODE | SUBST_ATTR | SUBST_ENV | SUBST_KERNEL | SUBST_KERNEL_NUMBER | SUBST_DRIVER
| SUBST_DEVPATH | SUBST_ID | SUBST_MAJOR | SUBST_MINOR | SUBST_RESULT | SUBST_PARENT | SUBST_NAME
| SUBST_LINKS | SUBST_ROOT | SUBST_SYS.
Definition subst_map : list (bytes * byte * subst_type) :=
  [("devnode" : bytes, "N"%char, SUBST_DEVNODE); ("tempnode" : bytes, "N"%char, SUBST_DEVNODE);
   ("attr" : bytes, "s"%char, SUBST_ATTR); ("sysfs" : bytes, "s"%char, SUBST_ATTR);
   ("env" : bytes, "E"%char, SUBST_ENV); ("kernel" : bytes, "k"%char, SUBST_KERNEL);
   ("number" : bytes, "n"%char, SUBST_KERNEL_NUMBER); ("driver" : bytes, "d"%char, SUBST_DRIVER);
   ("devpath" : bytes, "p"%char, SUBST_DEVPATH); ("id" : bytes, "b"%char, SUBST_ID);
   ("major" : bytes, "M"%char, SUBST_MAJOR); ("minor" : bytes, "m"%char, SUBST_MINOR);
   ("result" : bytes, "c"%char, SUBST_RESULT); ("parent" : bytes, "P"%char, SUBST_PARENT);
   ("name" : bytes, "D"%char, SUBST_NAME); ("links" : bytes, "L"%char, SUBST_LINKS);
   ("root" : bytes, "r"%char, SUBST_ROOT); ("sys" : bytes, "S"%char, SUBST_SYS)].
(** The entry whose name follows the $, and what follows the name. *)
Fixpoint subst_name (map : list (bytes * byte * subst_type)) (s : bytes) : option (subst_type * bytes) :=
  match map with
  | [] => None
  | (name, _, ty) :: map' => if startswith s name is Some r then Some (ty, r) else subst_name map' s
  end.
Fixpoint subst_fmt (map : list (bytes * byte * subst_type)) (c : byte) : option subst_type :=
  match map with
  | [] => None
  | (_, f, ty) :: map' => if c ==c f then Some ty else subst_fmt map' c
  end.

(** What a position of the text starts: a substitution with the rest behind
    it, or a character to copy. *)
Inductive item := Subst (ty : subst_type) (rest : bytes) | Copy (c : byte) (rest : bytes).
Definition next_item (from : bytes) : option item :=
  match from with
  | [] => None
  | c :: s =>
      Some (
        if c ==c "$" then
          if nth 0 s nul ==c "$" then Copy "$" (drop 1 s)
          else match subst_name subst_map s with Some (ty, r) => Subst ty r | None => Copy c s end
        else if c ==c "%" then
          if nth 0 s nul ==c "%" then Copy "%" (drop 1 s)
          else match s with
               | f :: r => match subst_fmt subst_map f with Some ty => Subst ty r | None => Copy c s end
               | [] => Copy c s
               end
        else Copy c s)
  end.

(** [attrbuf], when there are braces, and the rest; [None] ends the format. *)
Definition subst_attr (from : bytes) : option (option bytes * bytes) :=
  match from with
  | c :: s =>
      if c ==c "{" then
        match split_chr s "}" with
        | (_, None) => None
        | (attr, Some r) => if (UTIL_PATH_SIZE <=? length attr)%nat then None else Some (Some attr, r)
        end
      else Some (None, from)
  | [] => Some (None, from)
  end.

(** Part [i] of the result of a program: [--i] is the test of the loop. *)
Fixpoint skip_nonspace (s : bytes) : bytes :=
  match s with
  | c :: s' => if isspace c then s else skip_nonspace s'
  | [] => []
  end.
Fixpoint result_loop (fuel : nat) (i : Z) (cpos : bytes) : Z * bytes :=
  match fuel with
  | O => (i, cpos)
  | S fuel' =>
      let i := i - 1 in
      if i =? 0 then (i, cpos)
      else
        let cpos := skip_space (skip_nonspace cpos) in
        match cpos with [] => (i, cpos) | _ => result_loop fuel' i cpos end
  end.
(** What %c stands for. *)
Definition subst_result (program_result : bytes) (attr : option bytes) : option bytes :=
  let '(i, rest) := match attr with
                    | Some a => let '(v, rest) := strtoul 10 a in (s32 v, rest)
                    | None => (0, [])
                    end in
  if 0 <? i then
    let result := fst (strscpy UTIL_PATH_SIZE program_result) in
    let '(i, cpos) := result_loop (S (length result)) i result in
    if 0 <? i then None
    else
      let tmp := fst (strscpy UTIL_PATH_SIZE cpos) in
      Some (if negb (nth 0 rest nul ==c "+") then fst (split_chr tmp " ") else tmp)
  else Some program_result.

Definition UDEV_ALLOWED_CHARS_INPUT : bytes := "/ $%?,".
(** The value of an attribute without trailing spaces. *)
Definition strip_spaces (s : bytes) : bytes := take (strip_len s (length s)) s.

(** The strings a substitution adds, one after the other. *)
Definition subst_value (ty : subst_type) (attr : option bytes) : E (list bytes) :=
  e ← ev (fun e => e);
  let d := device_at e 0 in
  let one (s : option bytes) : list bytes := match s with Some s => [s] | None => [] end in
  match ty with
  | SUBST_DEVPATH => mret (one (devpath d))
  | SUBST_KERNEL => mret (one (d_sysname d))
  | SUBST_KERNEL_NUMBER => mret (one (d_sysnum d))
  | SUBST_ID =>
      mret (match ev_dev_parent e with Some i => one (d_sysname (device_at e i)) | None => [] end)
  | SUBST_DRIVER =>
      match ev_dev_parent e with
      | Some i => s ← on i udev_device_get_driver; mret (one s)
      | None => mret []
      end
  | SUBST_MAJOR => n ← on_dev udev_device_get_devnum; mret [fmt_i (s32 (major n))]
  | SUBST_MINOR => n ← on_dev udev_device_get_devnum; mret [fmt_i (s32 (minor n))]
  | SUBST_RESULT =>
      mret (match ev_program_result e with Some r => one (subst_result r attr) | None => [] end)
  | SUBST_ATTR =>
      match attr with
      | None => mret []
      | Some attr =>
          v ← ev_sys (util_resolve_subsys_kernel attr UTIL_NAME_SIZE true);
          v ← match v with
              | Some _ => mret v
              | None =>
                  v ← on_dev (udev_device_get_sysattr_value attr);
                  match v, ev_dev_parent e with
                  | None, Some (S i) => on (S i) (udev_device_get_sysattr_value attr)
                  | _, _ => mret v
                  end
              end;
          mret (match v with
                | None => []
                | Some v =>
                    let vbuf := strip_spaces (fst (strscpy UTIL_NAME_SIZE v)) in
                    [fst (util_replace_chars vbuf (Some UDEV_ALLOWED_CHARS_INPUT))]
                end)
      end
  | SUBST_PARENT =>
      p ← udev_device_get_parent 0;
      match p with
      | None => mret []
      | Some i => n ← on i udev_device_get_devnode; mret (one (drop 5 <$> n))
      end
  | SUBST_DEVNODE => n ← on_dev udev_device_get_devnode; mret (one n)
  | SUBST_NAME =>
      match ev_name e with
      | Some n => mret [n]
      | None =>
          n ← on_dev udev_device_get_devnode;
          mret (match n with Some n => [drop 5 n] | None => one (d_sysname d) end)
      end
  | SUBST_LINKS =>
      es ← on_dev udev_device_get_devlinks_list_entry;
      mret (match es with
            | [] => []
            | l :: es => drop 5 (e_name l) :: mjoin ((fun l => [" " : bytes; drop 5 (e_name l)]) <$> es)
            end)
  | SUBST_ROOT => mret ["/dev" : bytes]
  | SUBST_SYS => mret ["/sys" : bytes]
  | SUBST_ENV =>
      match attr with
      | None => mret []
      | Some attr => v ← on_dev (udev_device_get_property_value attr); mret (one v)
      end
  end.

(** A character is stored as long as a byte is left, which leaves none for the
    terminator when the buffer fills up. *)
Fixpoint apply_format_loop (fuel : nat) (from : bytes) (s : dst) : E dst :=
  match fuel with
  | O => mret s
  | S fuel' =>
      match next_item from with
      | None => mret s
      | Some (Copy c rest) =>
          if (left_ s =? 0)%nat then mret s
          else apply_format_loop fuel' rest (mk_dst (out s ++ [c]) (left_ s - 1))
      | Some (Subst ty rest) =>
          match subst_attr rest with
          | None => mret s
          | Some (attr, rest) =>
              v ← subst_value ty attr;
              apply_format_loop fuel' rest (strpcpyl s v)
          end
      end
  end.
(** The text and the size that is left. *)
Definition udev_event_apply_format (src : bytes) (size : nat) : E (bytes * nat) :=
  s ← apply_format_loop (S (length src)) src (dst_new size);
  mret (out s, left_ s).

(** * Running programs *)

(** [spawn_read]: a piece of the output that does not fit any more is dropped. *)
Definition spawn_result (ressize : nat) (pieces : list bytes) : bytes :=
  fold_left (fun res piece => if (length res + length piece <? ressize)%nat then res ++ piece else res) pieces [].
Definition argv_of (arg : bytes) : list bytes :=
  default [] (ParseArgv.argv_strings (ParseArgv.parse_argv (arg ++ [nul]) 0)).
(** The result and the text up to its first NUL; [ressize] is 0 when no result
    is asked for.  A command without a word is not handled by the code, which
    reads the first argument. *)
Definition udev_event_spawn (cmd : bytes) (envp : option (list bytes)) (ressize : nat) : E (Z * bytes) :=
  let argv := argv_of (fst (strscpy UTIL_PATH_SIZE cmd)) in
  let argv :=
    match argv with
    | a :: args =>
        if negb (nth 0 a nul ==c "/")
        then fst (strscpyl UTIL_PATH_SIZE [udevlibexecdir ++ "/"; a]) :: args else argv
    | [] => []
    end in
  '(err, pieces, sigterm) ← ev_sys (run_program argv envp);
  (if (sigterm : bool) then ev_update (fun e => e <| ev_sigterm := true |>) else mret tt) ;;
  mret (err, until_nul (spawn_result ressize pieces)).

(** src/core/builtin/udev-builtin.c *)
Definition udev_builtin_run (cmd : Z) (command : bytes) : E Z :=
  on_chain (builtin_cmd cmd (argv_of (fst (strscpy UTIL_PATH_SIZE command)))).
End event.
End Event.
