(* ===== verification/Hwdb.v ===== *)
(** The hardware database: the compiler of src/udevadm/udevadm-hwdb.c, which
    builds a trie of the match patterns and writes it to a file, and the
    lookup of lib/libudev-hwdb.c in that file. *)

From Stdlib Require Import ZArith Lia Ascii.
From stdpp Require Import prelude gmap strings sorting.
From S2P Require Import Prelude Utils Strbuf UdevList System.
Import Mem Entries.

#[local] Set Warnings "-register-all".

Module Hwdb.

(** * Numbers in the file *)

Definition htole64 (z : Z) : bytes := le_bytes 8 z.

(** * The trie in memory *)

Inductive trie_node := TNode {
  prefix_off : Z;
  children : list (byte * trie_node);
  values : list (Z * Z)
}.
Section trie.
Context {P : Type} `{StringPool P}.

(** The trie without its root, and with it. *)
Record trie := mk_trie { strings : P; nodes_count : Z; children_count : Z; values_count : Z }.
#[export] Instance trie_eta : Eta trie := fun x => mk_trie (strings x) (nodes_count x) (children_count x) (values_count x).
Implicit Types t : trie.

Definition trie_children_cmp (n1 n2 : byte * trie_node) : bool := code n1.1 <? code n2.1.
Definition node_add_child t (node node_child : trie_node) (c : byte) : trie * trie_node :=
  (t <| children_count := children_count t + 1 |> <| nodes_count := nodes_count t + 1 |>,
   TNode (prefix_off node) (qsort trie_children_cmp (children node ++ [(c, node_child)])) (values node)).
(** The index of the child and the child. *)
Definition node_lookup (node : trie_node) (c : byte) : option (nat * trie_node) :=
  match bsearch (fun e => code c ?= code e.1) (children node) with
  | inl i => (fun e => (i, e.2)) <$> children node !! i
  | inr _ => None
  end.

Definition trie_values_cmp (p : P) (v1 v2 : Z * Z) : comparison := strcmp (pool_str p v1.1) (pool_str p v2.1).
Definition trie_node_add_value t (node : trie_node) (key value : bytes) : trie * trie_node :=
  let '(p, k) := pool_add (strings t) key in
  let '(p, v) := pool_add p value in
  let t := t <| strings := p |> in
  match bsearch (trie_values_cmp p (k, v)) (values node) with
  | inl i =>
      match values node !! i with
      | Some val => (t, TNode (prefix_off node) (children node) (<[i := (val.1, v)]> (values node)))
      | None => (t, node)
      end
  | inr _ =>
      (t <| values_count := values_count t + 1 |>,
       TNode (prefix_off node) (children node)
         (qsort (fun v1 v2 => bool_decide (trie_values_cmp p v1 v2 = Lt)) (values node ++ [(k, v)])))
  end.

(** How far the prefix [w] agrees with what is searched, and the character of
    the prefix that differs. *)
Fixpoint prefix_loop (w search : bytes) : nat * option byte :=
  match w with
  | [] => (0%nat, None)
  | c :: w' =>
      match search with
      | x :: s' => if c ==c x then let '(p, d) := prefix_loop w' s' in (S p, d) else (0%nat, Some c)
      | [] => (0%nat, Some c)
      end
  end.
Definition split_node t (node : trie_node) (p : nat) (c : byte) : trie * trie_node :=
  let new_child := TNode (prefix_off node + Z.of_nat p + 1) (children node) (values node) in
  let '(strings', off) := pool_add (strings t) (take p (pool_str (strings t) (prefix_off node))) in
  node_add_child (t <| strings := strings' |>) (TNode off [] []) new_child c.
(** The value is put into a new child before the child gets into the array of
    its parent, and not after. *)
Fixpoint trie_insert (fuel : nat) t (node : trie_node) (search key value : bytes) : option (trie * trie_node) :=
  match fuel with
  | O => None
  | S fuel' =>
      let '(p, differs) := prefix_loop (pool_str (strings t) (prefix_off node)) search in
      let '(t, node) := match differs with Some c => split_node t node p c | None => (t, node) end in
      match drop p search with
      | [] => Some (trie_node_add_value t node key value)
      | c :: rest =>
          match node_lookup node c with
          | Some (i, child) =>
              r ← trie_insert fuel' t child rest key value;
              Some (r.1, TNode (prefix_off node) (<[i := (c, r.2)]> (children node)) (values node))
          | None =>
              let '(strings', off) := pool_add (strings t) rest in
              let '(t, child) := trie_node_add_value (t <| strings := strings' |>) (TNode off [] []) key value in
              Some (node_add_child t node child c)
          end
      end
  end.

(** * The file *)

Definition header_f_size : nat := 80.
Definition node_f_size : nat := 24.
Definition child_f_size : nat := 16.
Definition value_f_size : nat := 16.

Fixpoint trie_store_nodes_size (node : trie_node) (strings_off : Z) : Z :=
  let off := fold_left (fun off c => trie_store_nodes_size c.2 off) (children node) strings_off in
  off + Z.of_nat (node_f_size + length (children node) * child_f_size + length (values node) * value_f_size).

Definition node_f (off : Z) (children values : nat) : bytes :=
  htole64 off ++ [chr (Z.of_nat children)] ++ replicate 7 nul ++ htole64 (Z.of_nat values).
Definition child_entry_f (c : byte) (off : Z) : bytes := [c] ++ replicate 7 nul ++ htole64 off.
Definition value_entry_f (k v : Z) : bytes := htole64 k ++ htole64 v.
(** [out] is the file behind the header; the result is the new [out] and the
    offset of the node, or the entries of the children. *)
Definition store_children (store : trie_node -> bytes -> bytes * Z) :=
  fix loop (l : list (byte * trie_node)) (out : bytes) : bytes * list (byte * Z) :=
    match l with
    | [] => (out, [])
    | (c, child) :: l' =>
        let '(out, off) := store child out in
        let '(out, entries) := loop l' out in
        (out, (c, off) :: entries)
    end.
Definition node_image (strings_off : Z) (node : trie_node) (entries : list (byte * Z)) : bytes :=
  node_f (strings_off + prefix_off node) (length (children node)) (length (values node))
    ++ concat ((fun e => child_entry_f e.1 e.2) <$> entries)
    ++ concat ((fun v => value_entry_f (strings_off + v.1) (strings_off + v.2)) <$> values node).
Fixpoint trie_store_nodes (strings_off : Z) (node : trie_node) (out : bytes) : bytes * Z :=
  let '(out, entries) := store_children (trie_store_nodes strings_off) (children node) out in
  (out ++ node_image strings_off node entries, Z.of_nat (header_f_size + length out)).

Definition HWDB_SIG : bytes := ["K"; "S"; "L"; "P"; "H"; "H"; "R"; "H"]%char.
Definition header_f (version file_size root_off nodes_len strings_len : Z) : bytes :=
  HWDB_SIG ++ htole64 version ++ htole64 file_size ++ htole64 (Z.of_nat header_f_size) ++
  htole64 (Z.of_nat node_f_size) ++ htole64 (Z.of_nat child_f_size) ++ htole64 (Z.of_nat value_f_size) ++
  htole64 root_off ++ htole64 nodes_len ++ htole64 strings_len.
(** The contents of the file, once it is renamed to its name. *)
Definition trie_store (version : Z) t (root : trie_node) : bytes :=
  let strings_off := trie_store_nodes_size root (Z.of_nat header_f_size) in
  let '(out, root_off) := trie_store_nodes strings_off root [] in
  let buf := pool_buf (strings t) in
  header_f version (Z.of_nat (header_f_size + length out + length buf)) root_off (Z.of_nat (length out))
    (Z.of_nat (length buf)) ++ out ++ buf.

(** * The source files *)

Definition LINE_MAX : nat := 2048.
#[local] Arguments LINE_MAX : simpl never.

(** The trie and its root. *)
Definition hwtrie : Type := trie * trie_node.
Definition trie_new : hwtrie := (mk_trie pool_new 1 0 0, TNode 0 [] []).
(** The fuel is enough: every step down takes a character. *)
Definition insert (pattern key value : bytes) (x : hwtrie) : hwtrie :=
  default x (trie_insert (S (length pattern)) x.1 x.2 pattern key value).
Definition insert_data (match_list : list bytes) (line : bytes) (x : hwtrie) : hwtrie :=
  match split_chr line "=" with
  | (_, None) => x
  | (key, Some value) =>
      match key, value with
      | [], _ | _, [] => x
      | _, _ => fold_left (fun x pattern => insert pattern key value x) match_list x
      end
  end.
Inductive import_state := HW_MATCH | HW_DATA | HW_NONE.
#[export] Instance import_state_eq_dec : EqDecision import_state.
Proof. solve_decision. Defined.
(** The line in front of its comment, without the white space at the end. *)
Definition strip_line (line : bytes) : bytes :=
  let line := (split_chr line "#").1 in
  rev (skip_space (rev line)).
Definition import_hwdb_line (line : bytes) (s : import_state * list bytes * hwtrie) : import_state * list bytes * hwtrie :=
  let '(state, match_list, x) := s in
  if nth 0 line nul ==c "#" then s
  else
    let line := strip_line line in
    let data := nth 0 line nul ==c " " in
    match state, line with
    | HW_NONE, [] => s
    | HW_NONE, _ => if data then s else (HW_MATCH, match_list ++ [line], x)
    | HW_MATCH, [] => (HW_NONE, [], x)
    | HW_MATCH, _ =>
        if data then (HW_DATA, match_list, insert_data match_list line x) else (HW_MATCH, match_list ++ [line], x)
    | HW_DATA, [] => (HW_NONE, [], x)
    | HW_DATA, _ => if data then (HW_DATA, match_list, insert_data match_list line x) else (HW_NONE, [], x)
    end.
Fixpoint import_lines (fuel : nat) (f : bytes) (s : import_state * list bytes * hwtrie) : import_state * list bytes * hwtrie :=
  match fuel with
  | O => s
  | S fuel' =>
      match fgets LINE_MAX f with
      | Some (line, f) => import_lines fuel' f (import_hwdb_line (until_nul line) s)
      | None => s
      end
  end.
(** A line has at least one character. *)
Definition import_file (f : bytes) (x : hwtrie) : hwtrie := (import_lines (S (length f)) f (HW_NONE, [], x)).2.
(** The database that is built from the files. *)
Definition hwdb_update (version : Z) (files : list bytes) : bytes :=
  let '(t, root) := fold_left (fun x f => import_file f x) files trie_new in
  trie_store version (t <| strings := pool_complete (strings t) |>) root.
End trie.
End Hwdb.
