(* ===== verification/HwdbTrie.v ===== *)
(** The trie of the hardware database in memory: what it contains, as a
    relation between patterns, keys and values, and that inserting a value
    changes only that. *)

From Stdlib Require Import ZArith Lia Ascii Sorted.
From stdpp Require Import prelude gmap strings sorting.
From S2P Require Import Prelude Utils Strbuf UdevList System Hwdb.
Import Mem Hwdb.

#[local] Set Warnings "-register-all".

Module HwdbTrie.

(** * What a trie contains *)

Inductive atree := ATree (w : bytes) (kids : list (byte * atree)) (vals : list (bytes * bytes)).
Definition a_kids (a : atree) : list (byte * atree) := let '(ATree _ kids _) := a in kids.
Lemma atree_ind' (Q : atree -> Prop) :
  (forall w kids vals, Forall (fun x => Q x.2) kids -> Q (ATree w kids vals)) -> forall a, Q a.
Proof.
  intros H. fix IH 1. intros [w kids vals]. apply H. induction kids as [|[c a] kids IHk]; constructor; [apply IH|exact IHk].
Qed.
Fixpoint items (a : atree) : list (bytes * (bytes * bytes)) :=
  let '(ATree w kids vals) := a in
  flat_map (fun k => List.map (fun x => (w ++ k.1 :: x.1, x.2)) (items k.2)) kids ++ List.map (fun v => (w, v)) vals.
Definition has (a : atree) (p k v : bytes) : Prop := In (p, (k, v)) (items a).
Lemma has_node w kids vals p k v :
  has (ATree w kids vals) p k v <->
  (exists c ch q, (c, ch) ∈ kids /\ p = w ++ c :: q /\ has ch q k v) \/ (p = w /\ (k, v) ∈ vals).
Proof.
  unfold has. simpl. rewrite in_app_iff, in_flat_map, in_map_iff. setoid_rewrite in_map_iff.
  setoid_rewrite list_elem_of_In. split.
  - intros [([c ch] & Hc & ([q kv] & [= <- ->] & Hq))|([k' v'] & [= -> -> ->] & Hv)]; [left; by exists c, ch, q|by right].
  - intros [(c & ch & q & Hc & -> & Hq)|[-> Hv]]; [left|right; by exists (k, v)].
    exists (c, ch). split; [done|]. by exists (q, (k, v)).
Qed.
(** The value of one pattern and key was set, the rest is as before. *)
Definition updated (a a' : atree) (p k v : bytes) : Prop :=
  forall p' k' v', has a' p' k' v' <-> (p' = p /\ k' = k /\ v' = v) \/ ((p' <> p \/ k' <> k) /\ has a p' k' v').

(** The children and the values are sorted; [d] is the depth of the node in
    characters. *)
Inductive wf : nat -> atree -> Prop :=
| wf_node d w kids vals :
    cstr w -> (d + length w < LINE_MAX - 1)%nat ->
    StronglySorted Z.lt ((fun x => code x.1) <$> kids) -> StronglySorted str_lt vals.*1 ->
    Forall (fun x => x.1 <> nul /\ wf (S (d + length w)) x.2) kids -> wf d (ATree w kids vals).

(** ** The representation with a string pool *)

(** A value is added to a node. *)
Definition set_val (vals : list (bytes * bytes)) (k v : bytes) : list (bytes * bytes) :=
  match bsearch (fun y => strcmp k y.1) vals with
  | inl i => <[i := (k, v)]> vals
  | inr _ => qsort (fun x y => bool_decide (strcmp x.1 y.1 = Lt)) (vals ++ [(k, v)])
  end.
Lemma sorted_fst_NoDup (vals : list (bytes * bytes)) : StronglySorted str_lt vals.*1 -> NoDup vals.*1.
Proof. apply (StronglySorted_NoDup str_lt). Qed.
Lemma set_val_ok vals k v :
  StronglySorted str_lt vals.*1 ->
  StronglySorted str_lt (set_val vals k v).*1 /\
  forall k' v', (k', v') ∈ set_val vals k v <-> (k' = k /\ v' = v) \/ (k' <> k /\ (k', v') ∈ vals).
Proof.
  intros Hs. pose proof (sorted_fst_NoDup _ Hs) as Hnd.
  pose proof (bsearch_spec (fun y => strcmp k y.1) vals (key_sorted_str fst k vals Hs)) as Hb. unfold set_val.
  destruct (bsearch _ vals) as [i|i].
  - destruct Hb as ([k0 v0] & Hi & E). simpl in E. apply strcmp_eq in E as <-.
    assert (<[i := (k, v)]> vals = take i vals ++ (k, v) :: drop (S i) vals) as Hins
      by (apply insert_take_drop; by eapply lookup_lt_Some).
    assert (vals = take i vals ++ (k, v0) :: drop (S i) vals) as Hv by (by rewrite take_drop_middle).
    set (l1 := take i vals) in *. set (l2 := drop (S i) vals) in *. rewrite Hins. clearbody l1 l2. subst vals. split.
    + rewrite fmap_app, fmap_cons in *. exact Hs.
    + rewrite fmap_app, fmap_cons in Hnd. apply NoDup_app in Hnd as (_ & Hd & Hn). apply NoDup_cons in Hn as [Hn _].
      intros k' v'. rewrite !elem_of_app, !elem_of_cons. split.
      * intros [Hin|[[= -> ->]|Hin]]; [right|by left|right]; (split; [intros ->|by auto]).
        -- apply (list_elem_of_fmap_2 fst) in Hin. apply (Hd _ Hin). left.
        -- apply (list_elem_of_fmap_2 fst) in Hin. by apply Hn.
      * intros [[-> ->]|(Hne & [Hin|[[= -> ->]|Hin]])]; auto; done.
  - assert (k ∉ vals.*1) as Hk.
    { intros ([k0 v0] & -> & Hin)%list_elem_of_fmap. apply list_elem_of_lookup in Hin as [j Hj].
      destruct Hb as [_ Hb]. destruct (Hb j _ Hj) as [H1 H2]. simpl in *. rewrite strcmp_refl in *.
      destruct (decide (j < i)%nat); [by specialize (H1 l)|]. specialize (H2 ltac:(lia)). done. }
    split.
    + apply (qsort_sorted fst str_lt); [intros x y; by rewrite bool_decide_eq_true|apply str_total|].
      rewrite fmap_app. apply NoDup_app. split_and!; [done| |apply NoDup_singleton]. intros x Hx ->%list_elem_of_singleton. done.
    + intros k' v'. rewrite qsort_perm, elem_of_app, list_elem_of_singleton. split.
      * intros [Hin|[= -> ->]]; [right|by left]. split; [|done]. intros ->. by apply (list_elem_of_fmap_2 fst) in Hin.
      * intros [[-> ->]|[_ Hin]]; auto.
Qed.

Lemma bsearch_Forall2 {A B} (R : A -> B -> Prop) cmp cmp' (l : list A) (l' : list B) :
  (forall x y, R x y -> cmp x = cmp' y) -> Forall2 R l l' -> bsearch cmp l = bsearch cmp' l'.
Proof.
  intros Hc HF. unfold bsearch. rewrite (Forall2_length _ _ _ HF).
  assert (forall i : nat, cmp <$> l !! i = cmp' <$> l' !! i) as Hi.
  { intros i. destruct (l !! i) as [x|] eqn:E.
    - destruct (Forall2_lookup_l _ _ _ _ _ HF E) as (y & -> & Hxy). simpl. by rewrite (Hc x y).
    - apply lookup_ge_None in E. rewrite (Forall2_length _ _ _ HF) in E. by apply lookup_ge_None in E as ->. }
  assert (forall fuel first last, bsearch_loop cmp l fuel first last = bsearch_loop cmp' l' fuel first last) as Hl;
    [|apply Hl].
  induction fuel as [|fuel IH]; intros first last; [done|]. cbn [bsearch_loop]. rewrite Hi.
  destruct (first <? last)%nat; [|done]. destruct (cmp' <$> _) as [[]|]; [done|apply IH|apply IH|done].
Qed.

(** ** How the contents change *)

Lemma has_set_val w kids vals k v :
  StronglySorted str_lt vals.*1 -> updated (ATree w kids vals) (ATree w kids (set_val vals k v)) w k v.
Proof.
  intros Hs p' k' v'. rewrite !has_node. destruct (set_val_ok vals k v Hs) as [_ Hv]. rewrite Hv. split.
  - intros [(c & ch & q & Hc & -> & Hq)|(-> & [[-> ->]|[Hne Hin]])]; [right|by left|right].
    + split; [left; intros E; apply (f_equal length) in E; rewrite length_app in E; simpl in E; lia|].
      left. by exists c, ch, q.
    + split; [by right|by right].
  - intros [(-> & -> & ->)|([Hne|Hne] & [H|[-> H]])]; naive_solver.
Qed.
Lemma has_split w p c kids vals k v q :
  w !! p = Some c ->
  has (ATree (take p w) [(c, ATree (drop (S p) w) kids vals)] []) q k v <-> has (ATree w kids vals) q k v.
Proof.
  intros Hp. pose proof (take_drop_middle _ _ _ Hp) as Hw. rewrite !has_node. split.
  - intros [(c' & ch & q' & [= -> ->]%list_elem_of_singleton & -> & [(c2 & ch2 & q2 & H1 & -> & H2)|[-> H]]%has_node)|[_ H]].
    + left. exists c2, ch2, q2. split_and!; [done| |done]. rewrite <- Hw at 3. by rewrite <- app_assoc.
    + by right.
    + by apply not_elem_of_nil in H.
  - intros [(c2 & ch2 & q2 & H1 & -> & H2)|[-> H]]; left; exists c, (ATree (drop (S p) w) kids vals).
    + exists (drop (S p) w ++ c2 :: q2). split_and!; [by apply list_elem_of_singleton|rewrite <- Hw at 1; by rewrite <- app_assoc|].
      apply has_node. left. by exists c2, ch2, q2.
    + exists (drop (S p) w). split_and!; [by apply list_elem_of_singleton|done|]. apply has_node. by right.
Qed.

(** A child is added. *)
Definition kid_lt (x y : byte * atree) : bool := code x.1 <? code y.1.
Definition kid_keys (kids : list (byte * atree)) : list Z := (fun x => code x.1) <$> kids.
Lemma kid_key_in kids c : code c ∈ kid_keys kids <-> exists ch, (c, ch) ∈ kids.
Proof.
  split.
  - intros ([c' ch] & E%code_inj & Hin)%list_elem_of_fmap. simpl in E. subst. by exists ch.
  - intros [ch Hin]. by apply (list_elem_of_fmap_2 (fun x => code x.1)) in Hin.
Qed.
Lemma kids_unique kids c ch ch' :
  StronglySorted Z.lt (kid_keys kids) -> (c, ch) ∈ kids -> (c, ch') ∈ kids -> ch = ch'.
Proof.
  intros Hs%StronglySorted_Z_NoDup [i Hi]%list_elem_of_lookup [j Hj]%list_elem_of_lookup.
  assert (i = j) as ->; [|congruence]. apply (NoDup_lookup _ i j (code c) Hs); unfold kid_keys;
    by rewrite list_lookup_fmap, ?Hi, ?Hj.
Qed.
Lemma add_kid_ok kids c ch :
  StronglySorted Z.lt (kid_keys kids) -> code c ∉ kid_keys kids ->
  StronglySorted Z.lt (kid_keys (qsort kid_lt (kids ++ [(c, ch)]))) /\
  forall x, x ∈ qsort kid_lt (kids ++ [(c, ch)]) <-> x ∈ kids \/ x = (c, ch).
Proof.
  intros Hs Hc. split.
  - apply (qsort_sorted (fun x => code x.1) Z.lt); [intros x y; apply Z.ltb_lt|lia|]. rewrite fmap_app.
    apply NoDup_app. split_and!; [by apply StronglySorted_Z_NoDup| |apply NoDup_singleton]. intros z Hz ->%list_elem_of_singleton. done.
  - intros x. by rewrite qsort_perm, elem_of_app, list_elem_of_singleton.
Qed.

Lemma has_add_kid w kids vals c rest k v :
  StronglySorted Z.lt (kid_keys kids) -> code c ∉ kid_keys kids ->
  updated (ATree w kids vals) (ATree w (qsort kid_lt (kids ++ [(c, ATree rest [] [(k, v)])])) vals) (w ++ c :: rest) k v.
Proof.
  intros Hs Hc p' k' v'. rewrite !has_node. destruct (add_kid_ok kids c (ATree rest [] [(k, v)]) Hs Hc) as [_ Hin].
  split.
  - intros [(c' & ch & q & [Hq|[= -> ->]]%Hin & -> & H)|[-> H]].
    + right. split; [|left; by exists c', ch, q]. left. intros E. apply app_inv_head in E. injection E as -> ->.
      apply Hc, kid_key_in. by exists ch.
    + apply has_node in H as [(c2 & ch2 & q2 & H2 & _)|[-> [= -> ->]%list_elem_of_singleton]]; [by apply not_elem_of_nil in H2|].
      by left.
    + right. split; [|by right]. left. intros E. apply (f_equal length) in E. rewrite length_app in E. simpl in E. lia.
  - intros [(-> & -> & ->)|[_ [(c' & ch & q & H1 & H2 & H3)|H]]].
    + left. exists c, (ATree rest [] [(k, v)]), rest. split_and!; [apply Hin; by right|done|].
      apply has_node. right. split; [done|]. by apply list_elem_of_singleton.
    + left. exists c', ch, q. split_and!; [apply Hin; by left|done|done].
    + by right.
Qed.
Lemma has_update_kid w kids vals i c ch ch' rest k v :
  StronglySorted Z.lt (kid_keys kids) -> kids !! i = Some (c, ch) -> updated ch ch' rest k v ->
  updated (ATree w kids vals) (ATree w (<[i := (c, ch')]> kids) vals) (w ++ c :: rest) k v.
Proof.
  intros Hs Hi Hu p' k' v'. rewrite !has_node.
  assert (StronglySorted Z.lt (kid_keys (<[i := (c, ch')]> kids))) as Hs'.
  { unfold kid_keys. rewrite list_fmap_insert. simpl. rewrite list_insert_id; [done|]. by rewrite list_lookup_fmap, Hi. }
  assert (forall c0 ch0, c0 <> c -> (c0, ch0) ∈ <[i := (c, ch')]> kids <-> (c0, ch0) ∈ kids) as Hother.
  { intros c0 ch0 Hne. rewrite !list_elem_of_lookup. split; intros [j Hj]; exists j.
    - destruct (decide (i = j)) as [->|]; [|by rewrite list_lookup_insert_ne in Hj].
      rewrite list_lookup_insert_eq in Hj by (by eapply lookup_lt_Some). congruence.
    - destruct (decide (i = j)) as [->|]; [congruence|]. by rewrite list_lookup_insert_ne. }
  assert ((c, ch) ∈ kids) as Hold by (apply list_elem_of_lookup; by exists i).
  assert ((c, ch') ∈ <[i := (c, ch')]> kids) as Hnew.
  { apply list_elem_of_lookup. exists i. apply list_lookup_insert_eq. by eapply lookup_lt_Some. }
  split.
  - intros [(c0 & ch0 & q & H1 & -> & H2)|[-> H]].
    + destruct (decide (c0 = c)) as [->|Hne].
      * rewrite (kids_unique _ _ _ _ Hs' H1 Hnew) in H2. apply Hu in H2 as [(-> & -> & ->)|[H3 H4]]; [by left|right].
        split; [|left; by exists c, ch, q]. destruct H3 as [H3|H3]; [left|by right]. intros E. apply app_inv_head in E. congruence.
      * right. split; [left; intros E; apply app_inv_head in E; congruence|]. left. exists c0, ch0, q. by rewrite <- Hother.
    + right. split; [|by right]. left. intros E. apply (f_equal length) in E. rewrite length_app in E. simpl in E. lia.
  - intros [(-> & -> & ->)|[Hne [(c0 & ch0 & q & H1 & -> & H2)|H]]].
    + left. exists c, ch', rest. split_and!; [done|done|]. apply Hu. by left.
    + left. destruct (decide (c0 = c)) as [->|Hc].
      * exists c, ch', q. split_and!; [done|done|]. rewrite (kids_unique _ _ _ _ Hs H1 Hold) in H2. apply Hu. right.
        split; [|done]. destruct Hne as [Hne|Hne]; [left; congruence|by right].
      * exists c0, ch0, q. split_and!; [by apply Hother|done|done].
    + by right.
Qed.

(** The bisection over an array that corresponds to the children. *)
Lemma bsearch_kids {A} (Q : A -> atree -> Prop) c (l : list (byte * A)) kids :
  Forall2 (fun x y => x.1 = y.1 /\ Q x.2 y.2) l kids -> StronglySorted Z.lt (kid_keys kids) ->
  match bsearch (fun e => code c ?= code e.1) l with
  | inl i => exists x a, l !! i = Some (c, x) /\ kids !! i = Some (c, a) /\ Q x a
  | inr _ => code c ∉ kid_keys kids
  end.
Proof.
  intros HF Hs. rewrite (bsearch_Forall2 (fun x y => x.1 = y.1 /\ Q x.2 y.2) _ (fun e => code c ?= code e.1) l kids)
    by (exact HF || by intros x y [-> _]).
  pose proof (bsearch_spec (fun e => code c ?= code e.1) kids (key_sorted_Z (fun e => code e.1) (code c) kids Hs)) as Hb.
  destruct (bsearch _ kids) as [i|i].
  - destruct Hb as ([c' a] & Ha & E). simpl in E. apply Z.compare_eq, code_inj in E as <-.
    destruct (Forall2_lookup_r _ _ _ _ _ HF Ha) as ([c' x] & Hx & Hc & Hq). simpl in *. subst c'. by exists x, a.
  - intros [ch Hin]%kid_key_in. apply list_elem_of_lookup in Hin as [j Hj]. destruct Hb as [_ Hb].
    destruct (Hb j _ Hj) as [H1 H2]. simpl in *. rewrite Z.compare_refl in *.
    destruct (decide (j < i)%nat) as [E|E]; [by specialize (H1 E)|]. by specialize (H2 ltac:(lia)).
Qed.

Section rep.
Context {P : Type} `{StringPool P}.
Implicit Types (p : P) (t : @trie P).

Definition val_rep p (x : Z * Z) (y : bytes * bytes) : Prop := pool_has p x.1 y.1 /\ pool_has p x.2 y.2.
Inductive rep p : trie_node -> atree -> Prop :=
| rep_node off w kids akids vals avals :
    pool_has p off w -> Forall2 (fun x y => x.1 = y.1 /\ rep p x.2 y.2) kids akids ->
    Forall2 (val_rep p) vals avals -> rep p (TNode off kids vals) (ATree w akids avals).
Definition kid_rep p (x : byte * trie_node) (y : byte * atree) : Prop := x.1 = y.1 /\ rep p x.2 y.2.
Definition grows p p' : Prop := forall off w, pool_has p off w -> pool_has p' off w.
#[export] Instance grows_preorder : PreOrder grows.
Proof. split; [by intros p off w|]. intros p1 p2 p3 H1 H2 off w Hw. by apply H2, H1. Qed.
Lemma grows_add p s : pool_ok p -> cstr s -> grows p (pool_add p s).1.
Proof. intros Hp Hs off w Hw. by apply pool_add_mono. Qed.
Lemma val_rep_grows p p' x y : grows p p' -> val_rep p x y -> val_rep p' x y.
Proof. intros Hg [? ?]. split; by apply Hg. Qed.
Lemma rep_grows p p' : grows p p' -> forall a n, rep p n a -> rep p' n a.
Proof.
  intros Hg. induction a as [w akids avals IH] using atree_ind'. intros n Hn. inversion Hn as [off ? kids ? vals ? Hw Hk Hv]; subst.
  constructor; [by apply Hg| |by eapply Forall2_impl; [exact Hv|]; intros; eapply val_rep_grows].
  clear -IH Hk. induction Hk as [|[c m] [c' b] kids akids [Hc Hm] _ IHk]; [constructor|].
  apply Forall_cons in IH as [IH1 IH]. constructor; [split; [done|by apply IH1]|by apply IHk].
Qed.
Lemma kids_grows p p' kids akids : grows p p' -> Forall2 (kid_rep p) kids akids -> Forall2 (kid_rep p') kids akids.
Proof. intros Hg Hk. eapply Forall2_impl; [exact Hk|]. intros x y [? ?]. split; [done|by eapply rep_grows]. Qed.
Lemma val_str p x y : val_rep p x y -> pool_str p x.1 = y.1.
Proof. intros [Hx _]. by apply pool_has_str. Qed.

(** ** Inserting *)

Lemma prefix_loop_ok w s :
  let '(p, d) := prefix_loop w s in
  take p w = take p s /\ (p <= length w)%nat /\ (p <= length s)%nat /\
  match d with None => p = length w | Some c => w !! p = Some c /\ forall x r, drop p s = x :: r -> x <> c end.
Proof.
  revert s. induction w as [|c w IH]; intros [|x s]; simpl; [split_and!; simpl; done || lia..|].
  destruct (eqbP c x) as [->|Hne].
  - specialize (IH s). destruct (prefix_loop w s) as [p d]. destruct IH as (H1 & H2 & H3 & H4). simpl.
    split_and!; [by rewrite H1|lia|lia|]. destruct d; [done|lia].
  - split_and!; [done|lia|lia|done|]. intros y r [= -> ->]. congruence.
Qed.

Lemma add_value_ok t off kids vals w akids avals k v :
  pool_ok (strings t) -> rep (strings t) (TNode off kids vals) (ATree w akids avals) ->
  StronglySorted str_lt avals.*1 -> cstr k -> cstr v ->
  let '(t', n') := trie_node_add_value t (TNode off kids vals) k v in
  pool_ok (strings t') /\ grows (strings t) (strings t') /\ rep (strings t') n' (ATree w akids (set_val avals k v)).
Proof.
  intros Hp Hr Hs Hk Hv. unfold trie_node_add_value.
  pose proof (pool_add_ok (strings t) k Hp Hk) as Hp1. pose proof (grows_add (strings t) k Hp Hk) as Hg1.
  pose proof (pool_add_has (strings t) k Hp Hk) as Hk1. destruct (pool_add (strings t) k) as [p1 ko]. cbn [fst snd] in *.
  pose proof (pool_add_ok p1 v Hp1 Hv) as Hp2. pose proof (grows_add p1 v Hp1 Hv) as Hg2.
  pose proof (pool_add_has p1 v Hp1 Hv) as Hv2. destruct (pool_add p1 v) as [p2 vo]. cbn [fst snd] in *.
  assert (grows (strings t) p2) as Hg by (by etrans). apply (rep_grows _ _ Hg) in Hr.
  inversion Hr as [? ? ? ? ? ? Hw Hkids Hvals]; subst. assert (val_rep p2 (ko, vo) (k, v)) as Hkv by (split; [by apply Hg2|done]).
  cbn [Hwdb.values Hwdb.children prefix_off].
  assert (forall x y, val_rep p2 x y -> trie_values_cmp p2 (ko, vo) x = strcmp k y.1) as Hcmp.
  { intros x y Hxy. unfold trie_values_cmp. by rewrite (val_str _ _ _ Hxy), (val_str _ _ _ Hkv). }
  rewrite (bsearch_Forall2 (val_rep p2) _ (fun y => strcmp k y.1) vals avals Hcmp Hvals). unfold set_val.
  pose proof (bsearch_spec (fun y => strcmp k y.1) avals (key_sorted_str fst k avals Hs)) as Hb.
  destruct (bsearch _ avals) as [i|i].
  - destruct Hb as (y & Hy & E). apply strcmp_eq in E. destruct (Forall2_lookup_r _ _ _ _ _ Hvals Hy) as (x & -> & Hxy).
    split_and!; [done|done|]. constructor; [done|done|]. apply Forall2_insert; [done|].
    split; [rewrite E; apply Hxy|apply Hkv].
  - split_and!; [done|done|]. constructor; [done|done|]. apply (qsort_Forall2 (val_rep p2)).
    + intros x x' y y' Hx Hy. unfold trie_values_cmp. by rewrite (val_str _ _ _ Hx), (val_str _ _ _ Hy).
    + apply Forall2_app; [done|]. constructor; [exact Hkv|constructor].
Qed.
Lemma kids_qsort p kids akids c n a :
  Forall2 (kid_rep p) kids akids -> rep p n a ->
  Forall2 (kid_rep p) (qsort trie_children_cmp (kids ++ [(c, n)])) (qsort kid_lt (akids ++ [(c, a)])).
Proof.
  intros Hk Hn. apply (qsort_Forall2 (kid_rep p)).
  - intros x x' y y' [Hx _] [Hy _]. unfold trie_children_cmp, kid_lt. by rewrite Hx, Hy.
  - apply Forall2_app; [done|]. constructor; [by split|constructor].
Qed.
Lemma kid_lookup_ok p off kids vals w akids avals c :
  rep p (TNode off kids vals) (ATree w akids avals) -> StronglySorted Z.lt (kid_keys akids) ->
  match node_lookup (TNode off kids vals) c with
  | Some (i, n) => exists a, akids !! i = Some (c, a) /\ rep p n a
  | None => code c ∉ kid_keys akids
  end.
Proof.
  intros Hr Hs. inversion Hr as [? ? ? ? ? ? _ Hk _]; subst. unfold node_lookup. cbn [Hwdb.children].
  pose proof (bsearch_kids (rep p) c kids akids Hk Hs) as Hb.
  destruct (bsearch _ kids) as [i|i]; [|done]. destruct Hb as (x & a & Hx & Ha & Hr'). rewrite Hx. simpl. by exists a.
Qed.

Lemma wf_kid d w kids vals i c ch ch' :
  wf d (ATree w kids vals) -> kids !! i = Some (c, ch) -> wf (S (d + length w)) ch' ->
  wf d (ATree w (<[i := (c, ch')]> kids) vals).
Proof.
  intros Hwf Hi Hch. inversion Hwf as [? ? ? ? H1 H2 H3 H4 H5]; subst. constructor; [done|done| |done|].
  - rewrite list_fmap_insert. simpl. rewrite list_insert_id; [done|]. by rewrite list_lookup_fmap, Hi.
  - apply Forall_insert; [done|]. split; [|done]. rewrite Forall_lookup in H5. by destruct (H5 i _ Hi).
Qed.
(** What a step does to the representation. *)
Definition insert_ok d t a (s k v : bytes) (r : trie * trie_node) : Prop :=
  exists a', pool_ok (strings r.1) /\ grows (strings t) (strings r.1) /\ rep (strings r.1) r.2 a' /\ wf d a' /\
    updated a a' s k v.
Lemma split_ok d t n w kids vals (p : nat) c :
  pool_ok (strings t) -> rep (strings t) n (ATree w kids vals) -> wf d (ATree w kids vals) -> w !! p = Some c ->
  let '(t1, n1) := split_node t n p c in
  let a1 := ATree (take p w) [(c, ATree (drop (S p) w) kids vals)] [] in
  pool_ok (strings t1) /\ grows (strings t) (strings t1) /\ rep (strings t1) n1 a1 /\ wf d a1.
Proof.
  intros Hp Hr Hwf Hc. inversion Hwf as [? ? ? ? H1 H2 H3 H4 H5]; subst. pose proof (take_drop_middle _ _ _ Hc) as Hw.
  assert (cstr (take p w) /\ cstr (drop (S p) w) /\ c <> nul) as (Ht & Hd & Hn).
  { unfold cstr in *. rewrite <- Hw in H1. apply Forall_app in H1 as [? [? ?]%Forall_cons]. done. }
  pose proof (lookup_lt_Some _ _ _ Hc) as Hlt.
  inversion Hr as [off ? nkids ? nvals ? Hwo Hk Hv]; subst. unfold split_node. cbn [prefix_off Hwdb.children Hwdb.values].
  rewrite (pool_has_str _ _ _ Hwo). pose proof (pool_add_ok (strings t) _ Hp Ht) as Hp1.
  pose proof (grows_add (strings t) _ Hp Ht) as Hg1. pose proof (pool_add_has (strings t) _ Hp Ht) as Hh1.
  destruct (pool_add (strings t) (take p w)) as [p1 o1]. cbn [fst snd] in *. unfold node_add_child. simpl.
  apply (rep_grows _ _ Hg1) in Hr. inversion Hr as [? ? ? ? ? ? Hwo1 Hk1 Hv1]; subst.
  split_and!; [done|done| |].
  - constructor; [done| |constructor]. constructor; [|constructor]. split; [done|]. simpl. constructor; [|done|done].
    replace (off + Z.of_nat p + 1) with (off + Z.of_nat (length (take p w ++ [c])))
      by (rewrite length_app, length_take; simpl; lia). apply pool_has_suffix. rewrite <- app_assoc. simpl. by rewrite Hw.
  - constructor; [done|rewrite length_take; lia|repeat constructor|constructor|]. constructor; [|constructor]. split; [done|].
    simpl. rewrite length_take, Nat.min_l by lia. constructor; [done| |done|done|].
    + rewrite length_drop. lia.
    + replace (S (S (d + p) + length (drop (S p) w)))%nat with (S (d + length w)) by (rewrite length_drop; lia). done.
Qed.

Lemma updated_split a a0 a' s k v : (forall q k v, has a0 q k v <-> has a q k v) -> updated a0 a' s k v -> updated a a' s k v.
Proof. intros H0 Hu p' k' v'. rewrite (Hu p' k' v'). by rewrite H0. Qed.
Lemma insert_here d t n w kids vals k v :
  pool_ok (strings t) -> rep (strings t) n (ATree w kids vals) -> wf d (ATree w kids vals) -> cstr k -> cstr v ->
  insert_ok d t (ATree w kids vals) w k v (trie_node_add_value t n k v).
Proof.
  intros Hp Hr Hwf Hk Hv. inversion Hwf as [? ? ? ? H1 H2 H3 H4 H5]; subst. inversion Hr as [off ? nkids ? nvals ? _ _ _]; subst.
  pose proof (add_value_ok t _ _ _ _ _ _ k v Hp Hr H4 Hk Hv) as Ha. destruct (trie_node_add_value _ _ _ _) as [t' n'].
  destruct Ha as (Hp' & Hg & Hr'). exists (ATree w kids (set_val vals k v)). split_and!; [done|done|done| |by apply has_set_val].
  constructor; [done|done|done|by apply set_val_ok|done].
Qed.
Lemma insert_child d t n w kids vals c rest k v :
  pool_ok (strings t) -> rep (strings t) n (ATree w kids vals) -> wf d (ATree w kids vals) -> cstr k -> cstr v ->
  cstr (c :: rest) -> (d + length (w ++ c :: rest) < LINE_MAX - 1)%nat -> code c ∉ kid_keys kids ->
  let '(strings', off) := pool_add (strings t) rest in
  let '(t1, child) := trie_node_add_value (t <| strings := strings' |>) (TNode off [] []) k v in
  insert_ok d t (ATree w kids vals) (w ++ c :: rest) k v (node_add_child t1 n child c).
Proof.
  intros Hp Hr Hwf Hk Hv Hcr Hlen Hc. apply Forall_cons in Hcr as [Hcn Hrest]. rewrite length_app in Hlen. simpl in Hlen.
  inversion Hwf as [? ? ? ? H1 H2 H3 H4 H5]; subst.
  pose proof (pool_add_ok (strings t) _ Hp Hrest) as Hp1. pose proof (grows_add (strings t) _ Hp Hrest) as Hg1.
  pose proof (pool_add_has (strings t) _ Hp Hrest) as Hh1. destruct (pool_add (strings t) rest) as [p1 o1]. cbn [fst snd] in *.
  set (t0 := t <| strings := p1 |>).
  assert (rep (strings t0) (TNode o1 [] []) (ATree rest [] [])) as Hr0 by (by repeat constructor).
  pose proof (add_value_ok t0 _ _ _ _ _ _ k v Hp1 Hr0 (SSorted_nil _) Hk Hv) as Ha.
  change (set_val [] k v) with [(k, v)] in Ha. destruct (trie_node_add_value t0 _ k v) as [t1 child].
  destruct Ha as (Hp2 & Hg2 & Hr2). simpl in Hg2. assert (grows (strings t) (strings t1)) as Hg by (by etrans).
  apply (rep_grows _ _ Hg) in Hr. inversion Hr as [off ? nkids ? nvals ? Hw Hkids Hvals]; subst.
  destruct (add_kid_ok kids c (ATree rest [] [(k, v)]) H3 Hc) as [Hs Hin].
  exists (ATree w (qsort kid_lt (kids ++ [(c, ATree rest [] [(k, v)])])) vals). simpl. split_and!; [done|done| | |].
  - constructor; [done| |done]. by apply kids_qsort.
  - constructor; [done|done|done|done|]. apply Forall_forall. intros x [Hx| ->]%Hin; [rewrite Forall_forall in H5; by apply H5|].
    split; [done|]. constructor; simpl; [done|lia|constructor|repeat constructor|constructor].
  - by apply has_add_kid.
Qed.

Lemma hwdb_insert_ok fuel d t n a s k v :
  pool_ok (strings t) -> rep (strings t) n a -> wf d a -> cstr s -> cstr k -> cstr v ->
  (d + length s < LINE_MAX - 1)%nat -> (length s < fuel)%nat ->
  exists r, trie_insert fuel t n s k v = Some r /\ insert_ok d t a s k v r.
Proof.
  revert d t n a s. induction fuel as [|fuel IH]; intros d t n [w0 kids0 vals0] s Hp Hr Hwf Hs Hk Hv Hlen Hfuel; [lia|].
  cbn [trie_insert]. assert (pool_str (strings t) (prefix_off n) = w0) as -> by (inversion Hr; subst; by apply pool_has_str).
  pose proof (prefix_loop_ok w0 s) as Hpre. destruct (prefix_loop w0 s) as [p differs]. destruct Hpre as (Htake & Hpw & Hps & Hd).
  assert (exists w kids vals, s = w ++ drop p s /\ length w = p /\
    let '(t1, n1) := match differs with Some c => split_node t n p c | None => (t, n) end in
    pool_ok (strings t1) /\ grows (strings t) (strings t1) /\ rep (strings t1) n1 (ATree w kids vals) /\
    wf d (ATree w kids vals) /\ forall q k v, has (ATree w kids vals) q k v <-> has (ATree w0 kids0 vals0) q k v)
    as (w & kids & vals & Hsw & Hwp & H1).
  { destruct differs as [c|].
    - destruct Hd as [Hc _]. exists (take p w0), [(c, ATree (drop (S p) w0) kids0 vals0)], [].
      split; [rewrite Htake; by rewrite take_drop|]. split; [rewrite length_take; lia|].
      pose proof (split_ok d t n w0 kids0 vals0 p c Hp Hr Hwf Hc) as Hsp. destruct (split_node t n p c) as [t1 n1].
      destruct Hsp as (? & ? & ? & ?). split_and!; [done|done|done|done|]. intros. by apply has_split.
    - subst p. exists w0, kids0, vals0. rewrite take_ge in Htake by done. split; [rewrite Htake at 1; by rewrite take_drop|].
      by split_and!. }
  assert (exists t1 n1, match differs with Some c => split_node t n p c | None => (t, n) end = (t1, n1)) as (t1 & n1 & E)
    by (destruct differs; [destruct (split_node t n p _); by eexists _, _|by eexists _, _]).
  rewrite E in *. clear E. destruct H1 as (Hp1 & Hg1 & Hr1 & Hwf1 & Hhas). clear Htake Hd Hpw differs Hr Hwf.
  assert (forall r, insert_ok d t1 (ATree w kids vals) s k v r -> insert_ok d t (ATree w0 kids0 vals0) s k v r) as Hlift.
  { intros r (a' & A & B & C & D & U). exists a'. split_and!; [done|by etrans|done|done|]. by eapply updated_split. }
  destruct (drop p s) as [|c rest] eqn:Hdrop.
  - rewrite app_nil_r in Hsw. subst w. eexists. split; [reflexivity|]. apply Hlift. by apply insert_here.
  - assert (cstr (c :: rest)) as Hcr by (rewrite <- Hdrop; unfold cstr in *; by apply Forall_drop).
    assert (length s = p + S (length rest))%nat as Hls by (rewrite Hsw, length_app; simpl; lia).
    inversion Hwf1 as [? ? ? ? W1 W2 W3 W4 W5]; subst d0 w1 kids1 vals1.
    inversion Hr1 as [off ? nkids ? nvals ? Hw Hkids Hvals]; subst n1.
    pose proof (kid_lookup_ok _ _ _ _ _ _ _ c Hr1 W3) as Hl. destruct (node_lookup _ c) as [[i child]|].
    + destruct Hl as (ch & Hi & Hch). pose proof (Forall_lookup_1 _ _ _ _ W5 Hi) as [_ Hwc]. simpl in Hwc.
      destruct (IH (S (d + length w)) t1 child ch rest Hp1 Hch Hwc) as ([t2 child'] & -> & (ch' & A & B & C & D & U));
        [by apply Forall_cons in Hcr as [_ ?]|done|done|lia|lia|].
      eexists. split; [reflexivity|]. apply Hlift. rewrite Hsw. simpl in *.
      exists (ATree w (<[i := (c, ch')]> kids) vals). simpl. split_and!; [done|done| |by eapply wf_kid|by eapply has_update_kid].
      apply (rep_grows _ _ B) in Hr1. inversion Hr1; subst. constructor; [done| |done]. by apply Forall2_insert.
    + pose proof (insert_child d t1 _ _ _ _ c rest k v Hp1 Hr1 Hwf1 Hk Hv Hcr) as Hc.
      destruct (pool_add (strings t1) rest) as [p1 o1]. destruct (trie_node_add_value _ _ _ _) as [t2 child].
      eexists. split; [reflexivity|]. apply Hlift. rewrite Hsw. apply Hc; [rewrite <- Hsw; lia|done].
Qed.


(** ** The trie of a list of values *)

(** The root holds what [a] says. *)
Definition holds (x : hwtrie (P := P)) a : Prop := pool_ok (strings x.1) /\ rep (strings x.1) x.2 a /\ wf 0 a.
Definition valid_item (s k v : bytes) : Prop := cstr s /\ cstr k /\ cstr v /\ (length s < LINE_MAX - 1)%nat.
Lemma holds_new : holds trie_new (ATree [] [] []).
Proof.
  split; [apply pool_new_ok|]. split; [constructor; [apply pool_new_nil|constructor|constructor]|].
  constructor; simpl; try constructor. unfold LINE_MAX. lia.
Qed.
Lemma holds_insert x a s k v :
  holds x a -> valid_item s k v -> exists a', holds (insert s k v x) a' /\ updated a a' s k v.
Proof.
  intros (Hp & Hr & Hwf) (Hs & Hk & Hv & Hlen).
  destruct (hwdb_insert_ok (S (length s)) 0 x.1 x.2 a s k v Hp Hr Hwf Hs Hk Hv) as (r & E & a' & A & B & C & D & U); [lia|lia|].
  unfold insert. rewrite E. exists a'. by split_and!.
Qed.
End rep.

Definition item : Type := bytes * bytes * bytes.
(** The value that was set last. *)
Definition last_value (rs : list item) (p k : bytes) : option bytes :=
  last (omap (fun r : item => let '(p', k', v) := r in if decide (p' = p /\ k' = k) then Some v else None) rs).
Lemma last_value_app rs p' k' v' p k :
  last_value (rs ++ [(p', k', v')]) p k = if decide (p' = p /\ k' = k) then Some v' else last_value rs p k.
Proof.
  unfold last_value. rewrite omap_app. simpl. destruct (decide _); [by rewrite last_snoc|by rewrite app_nil_r].
Qed.
Definition insert_all `{StringPool P} (rs : list item) (x : hwtrie) : hwtrie (P := P) :=
  fold_left (fun x (r : item) => let '(p, k, v) := r in insert p k v x) rs x.
(** The trie contains the last value of each pattern and key. *)
Lemma insert_all_ok `{StringPool P} (rs : list item) :
  Forall (fun r : item => let '(p, k, v) := r in valid_item p k v) rs ->
  exists a, holds (insert_all rs trie_new) a /\ forall p k v, has a p k v <-> last_value rs p k = Some v.
Proof.
  induction rs as [|[[p k] v] rs IH] using rev_ind; intros Hv.
  - exists (ATree [] [] []). split; [apply holds_new|]. intros p k v. unfold last_value. simpl. split; [|done].
    intros [(? & ? & ? & Hin & _)|[_ Hin]]%has_node; by apply not_elem_of_nil in Hin.
  - apply Forall_app in Hv as [Hrs Hv]. apply Forall_inv in Hv. destruct (IH Hrs) as (a & Ha & Hhas).
    destruct (holds_insert _ a p k v Ha Hv) as (a' & Ha' & Hu). exists a'. unfold insert_all. rewrite fold_left_app.
    split; [exact Ha'|]. intros p' k' v'. rewrite (Hu p' k' v'), last_value_app, Hhas. clear. split.
    + intros [(-> & -> & ->)|[Hne E]]; [by rewrite decide_True|]. rewrite decide_False; [done|]. intros [-> ->]. naive_solver.
    + destruct (decide _) as [[-> ->]|Hn]; [intros [= ->]; by left|]. right. split; [|done].
      destruct (decide (p' = p)) as [->|]; [|by left]. right. intros ->. by apply Hn.
Qed.
End HwdbTrie.
