(* ===== verification/HwdbLookup.v ===== *)
(** lib/libudev-hwdb.c: the lookup in the file of the hardware database.  A
    read outside of the file, a bad pattern buffer and a file whose nodes do
    not end are [None]. *)

From Stdlib Require Import ZArith Lia Ascii.
From stdpp Require Import prelude gmap strings sorting.
From S2P Require Import Prelude Utils Strbuf UdevList System Hwdb.
Import Mem Entries Hwdb.

#[local] Set Warnings "-register-all".

Module HwdbLookup.

(** * Reading the file *)

Definition rd8 (map : bytes) (off : nat) : option byte := map !! off.
Definition rd64 (map : bytes) (off : nat) : option nat :=
  if decide (off + 8 <= length map)%nat then Some (Z.to_nat (le_val (take 8 (drop off map)))) else None.
Definition rd_str (map : bytes) (off : nat) : option bytes :=
  if decide (nul ∈ drop off map) then Some (until_nul (drop off map)) else None.

Record udev_hwdb := mk_hwdb { map : bytes; properties_list : list entry }.
#[export] Instance udev_hwdb_eta : Eta udev_hwdb := fun x => mk_hwdb (map x) (properties_list x).

(** The struct trie_header_f. *)
Definition head_signature (map : bytes) : bytes := take 8 map.
Definition head_file_size (map : bytes) : option nat := rd64 map 16.
Definition head_node_size (map : bytes) : option nat := rd64 map 32.
Definition head_child_entry_size (map : bytes) : option nat := rd64 map 40.
Definition head_nodes_root_off (map : bytes) : option nat := rd64 map 56.

Definition udev_hwdb_new (map : bytes) : option udev_hwdb :=
  if (length map <? header_f_size)%nat then None
  else if negb (bool_decide (head_signature map = HWDB_SIG)) || negb (bool_decide (head_file_size map = Some (length map)))
  then None
  else Some (mk_hwdb map []).

(** ** Nodes *)

Definition node_prefix_off (map : bytes) (node : nat) : option nat := rd64 map node.
Definition node_children_count (map : bytes) (node : nat) : option nat :=
  (fun c => Z.to_nat (code c)) <$> rd8 map (node + 8).
Definition node_values_count (map : bytes) (node : nat) : option nat := rd64 map (node + 16).
(** Entry [i] of an array whose entries have the size [size]. *)
Definition child_entry (map : bytes) (base size i : nat) : option (byte * nat) :=
  c ← rd8 map (base + i * size); off ← rd64 map (base + i * size + 8); Some (c, off).
Definition trie_node_children (map : bytes) (node size : nat) : option (list (byte * nat)) :=
  n ← node_children_count map node;
  node_size ← head_node_size map;
  mapM (child_entry map (node + node_size) size) (seq 0 n).
Definition value_entry (map : bytes) (base i : nat) : option (bytes * bytes) :=
  k ← rd64 map (base + i * value_f_size); v ← rd64 map (base + i * value_f_size + 8);
  key ← rd_str map k; value ← rd_str map v; Some (key, value).
Definition trie_node_values (map : bytes) (node : nat) : option (list (bytes * bytes)) :=
  n ← node_values_count map node;
  c ← node_children_count map node;
  node_size ← head_node_size map;
  child_size ← head_child_entry_size map;
  mapM (value_entry map (node + node_size + c * child_size)) (seq 0 n).
(** The bisection uses the size of an entry from the header. *)
Definition node_lookup_f (map : bytes) (node : nat) (c : byte) : option (option nat) :=
  size ← head_child_entry_size map;
  l ← trie_node_children map node size;
  Some (match bsearch (fun e => code c ?= code e.1) l with
        | inl i => (fun e => e.2) <$> l !! i
        | inr _ => None
        end).

(** * The pattern buffer *)

Definition linebuf_add (buf s : bytes) : bytes :=
  if (LINE_MAX <=? length buf + length s)%nat then buf else buf ++ s.
Definition linebuf_add_char (buf : bytes) (c : byte) : bytes :=
  if (LINE_MAX <=? length buf + 1)%nat then buf else buf ++ [c].
Definition linebuf_get (buf : bytes) : option bytes :=
  if (LINE_MAX <=? length buf + 1)%nat then None else Some buf.
(** The assertion fails when there is not enough to remove. *)
Definition linebuf_rem (buf : bytes) (count : nat) : option bytes :=
  if decide (count <= length buf)%nat then Some (take (length buf - count) buf) else None.
Definition linebuf_rem_char (buf : bytes) : option bytes := linebuf_rem buf 1.

(** * The search *)

Definition hwdb_add_property (props : list entry) (key value : bytes) : list entry :=
  match key with
  | c :: key => if c ==c " " then spec_add true props key (Some value) else props
  | [] => props
  end.
Definition add_values (vals : list (bytes * bytes)) (props : list entry) : list entry :=
  fold_left (fun props v => hwdb_add_property props v.1 v.2) vals props.

(** The loop over the children of a node, [f] being the call for a child. *)
Definition fnmatch_children (f : nat -> bytes -> list entry -> option (bytes * list entry)) :=
  fix loop (l : list (byte * nat)) (buf : bytes) (props : list entry) : option (bytes * list entry) :=
    match l with
    | [] => Some (buf, props)
    | (c, child) :: l' =>
        r ← f child (linebuf_add_char buf c) props;
        buf ← linebuf_rem_char r.1;
        loop l' buf r.2
    end.

Section search.
Context `{G : Glob} (map : bytes).

Fixpoint trie_fnmatch_f (fuel node p : nat) (buf search : bytes) (props : list entry) : option (bytes * list entry) :=
  match fuel with
  | O => None
  | S fuel' =>
      poff ← node_prefix_off map node;
      prefix ← rd_str map (poff + p);
      let buf := linebuf_add buf prefix in
      l ← trie_node_children map node child_f_size;
      r ← fnmatch_children (fun child buf props => trie_fnmatch_f fuel' child 0 buf search props) l buf props;
      let '(buf, props) := r in
      n ← node_values_count map node;
      props ← (if (n =? 0)%nat then Some props
               else pattern ← linebuf_get buf;
                    if fnmatch pattern search then
                      vals ← trie_node_values map node; Some (add_values vals props)
                    else Some props);
      buf ← linebuf_rem buf (length prefix);
      Some (buf, props)
  end.

Definition isglob (c : byte) : bool := (c ==c "*") || (c ==c "?") || (c ==c "[").
(** The prefix of a node against what is searched: [inr] is a glob character
    and where, [inl] how the comparison ends. *)
Inductive scan := Glob_at (p : nat) | Differs | Same (p : nat).
Fixpoint scan_prefix (w search : bytes) (p : nat) : scan :=
  match w with
  | [] => Same p
  | c :: w' =>
      if isglob c then Glob_at p
      else match search with
           | x :: s' => if c ==c x then scan_prefix w' s' (S p) else Differs
           | [] => Differs
           end
  end.
(** The child for a glob character. *)
Definition search_glob (fuel node : nat) (c : byte) (search : bytes) (props : list entry) : option (list entry) :=
  child ← node_lookup_f map node c;
  match child with
  | None => Some props
  | Some child =>
      r ← trie_fnmatch_f fuel child 0 (linebuf_add_char [] c) search props;
      _ ← linebuf_rem_char r.1;
      Some r.2
  end.
Fixpoint search_loop (fuel gfuel node : nat) (search : bytes) (props : list entry) : option (list entry) :=
  match fuel with
  | O => None
  | S fuel' =>
      poff ← node_prefix_off map node;
      prefix ← (if (poff =? 0)%nat then Some [] else rd_str map poff);
      match scan_prefix prefix search 0 with
      | Differs => Some props
      | Glob_at p => snd <$> trie_fnmatch_f gfuel node p [] (drop p search) props
      | Same p =>
          let search := drop p search in
          props ← search_glob gfuel node "*" search props;
          props ← search_glob gfuel node "?" search props;
          props ← search_glob gfuel node "[" search props;
          match search with
          | [] => vals ← trie_node_values map node; Some (add_values vals props)
          | c :: search =>
              child ← node_lookup_f map node c;
              match child with
              | Some child => search_loop fuel' gfuel child search props
              | None => Some props
              end
          end
      end
  end.
(** Every step down takes a character; the nodes below a node are fewer than
    the bytes of the file. *)
Definition trie_search_f (search : bytes) (props : list entry) : option (list entry) :=
  node ← head_nodes_root_off map;
  search_loop (S (length search)) (S (length map)) node search props.
End search.

Definition udev_hwdb_get_properties_list_entry `{Glob} (hwdb : udev_hwdb) (modalias : bytes) : option udev_hwdb :=
  props ← trie_search_f (map hwdb) modalias [];
  Some (hwdb <| properties_list := props |>).

(** ** An example *)

(** [fnmatch] for patterns with [*] only. *)
Fixpoint star_match (fuel : nat) (p s : bytes) : bool :=
  match fuel with
  | O => false
  | S fuel' =>
      match p with
      | [] => bool_decide (s = [])
      | c :: p' =>
          if c ==c "*" then star_match fuel' p' s || (match s with [] => false | _ :: s' => star_match fuel' p s' end)
          else match s with x :: s' => (c ==c x) && star_match fuel' p' s' | [] => false end
      end
  end.
Definition star_glob : Glob := fun p s => star_match (length p + length s + 1) p s.
Definition hwdb_text : bytes := String.list_ascii_of_string
"# comment
usb:v1234*
 ID_VENDOR=Acme
 ID_MODEL=Thing # tail

usb:v1234p5*
usb:v1234p5
 ID_MODEL=Better
".
Definition hwdb_file : bytes := Eval vm_compute in hwdb_update (P := Strbuf.Strbuf.strbuf) 208 [hwdb_text].
Example hwdb_example :
  match udev_hwdb_new hwdb_file with
  | Some db => (fun db => (fun e => (e_name e, e_value e)) <$> properties_list db) <$>
      udev_hwdb_get_properties_list_entry (H := star_glob) db "usb:v1234p5"
  | None => None
  end = Some [("ID_MODEL" : bytes, Some ("Better" : bytes)); ("ID_VENDOR" : bytes, Some ("Acme" : bytes))].
Proof. vm_compute. reflexivity. Qed.
End HwdbLookup.
