(* ===== verification/HwdbFile.v ===== *)
(** The file of the hardware database: what [trie_store] writes is read back by
    the lookup, and the lookup finds the properties of exactly the patterns
    that match. *)

From Stdlib Require Import ZArith Lia Ascii Sorted.
From stdpp Require Import prelude gmap strings sorting.
From S2P Require Import Prelude Utils Strbuf UdevList System Hwdb HwdbTrie HwdbLookup.
Import Mem Entries Hwdb HwdbTrie HwdbLookup.

#[local] Set Warnings "-register-all".

Module HwdbFile.

(** * Bytes at a place of the file *)

Definition placed (m : bytes) (off : nat) (bs : bytes) : Prop :=
  exists pre post, m = pre ++ bs ++ post /\ length pre = off.
Lemma placed_app m off a b : placed m off (a ++ b) -> placed m off a /\ placed m (off + length a) b.
Proof.
  intros (pre & post & -> & <-). split.
  - exists pre, (b ++ post). split; [by rewrite <- app_assoc|done].
  - exists (pre ++ a), post. split; [by rewrite <- !app_assoc|by rewrite length_app].
Qed.
Lemma placed_entry {A} (f : A -> bytes) m off (l : list A) k i e :
  (forall x, length (f x) = k) -> placed m off (concat (f <$> l)) -> l !! i = Some e -> placed m (off + i * k) (f e).
Proof.
  intros Hk. revert off i. induction l as [|x l IH]; intros off [|i] Hp He; [done|done| |].
  - injection He as <-. rewrite fmap_cons in Hp. cbn [concat] in Hp. rewrite Nat.add_0_r. by apply placed_app in Hp as [? _].
  - rewrite fmap_cons in Hp. cbn [concat] in Hp. apply placed_app in Hp as [_ Hp]. rewrite Hk in Hp.
    specialize (IH (off + k)%nat i Hp He). replace (off + S i * k)%nat with (off + k + i * k)%nat by lia. done.
Qed.
Lemma placed_drop m off bs : placed m off bs -> exists post, drop off m = bs ++ post.
Proof. intros (pre & post & -> & <-). exists post. by rewrite drop_app_length. Qed.
Lemma placed_length m off bs : placed m off bs -> (off + length bs <= length m)%nat.
Proof. intros (pre & post & -> & <-). rewrite !length_app. lia. Qed.

Lemma rd64_placed m off z : placed m off (htole64 z) -> 0 <= z < 2 ^ 64 -> rd64 m off = Some (Z.to_nat z).
Proof.
  intros Hp Hz. unfold rd64. pose proof (placed_length _ _ _ Hp) as Hl. unfold htole64 in *. rewrite le_bytes_length in Hl.
  rewrite decide_True by done. apply placed_drop in Hp as [post ->].
  rewrite take_app_length' by (by rewrite le_bytes_length). rewrite le_val_bytes. do 2 f_equal. by apply Z.mod_small.
Qed.
Lemma rd8_placed m off c : placed m off [c] -> rd8 m off = Some c.
Proof. intros (pre & post & -> & <-). unfold rd8. by rewrite lookup_app_r, Nat.sub_diag by lia. Qed.
Lemma rd_str_at m off w : str_at m off w -> rd_str m off = Some w.
Proof.
  intros [Hw [post Hd]]. unfold rd_str. rewrite Hd, decide_True by set_solver. by rewrite until_nul_app.
Qed.
Lemma str_at_lt m off w : str_at m off w -> (off < length m)%nat.
Proof. intros [_ [post Hd]]. apply (f_equal length) in Hd. rewrite length_drop, length_app in Hd. simpl in Hd. lia. Qed.
Lemma str_at_behind pre b off w : str_at b off w -> str_at (pre ++ b) (length pre + off) w.
Proof. intros [Hw [post Hd]]. split; [done|]. exists post. rewrite <- Hd, <- drop_drop. by rewrite drop_app_length. Qed.
Lemma str_at_drop m off p w : str_at m off w -> (p <= length w)%nat -> str_at m (off + p) (drop p w).
Proof.
  intros Hs Hp. rewrite <- (take_drop p w) in Hs. apply Strbuf.str_at_suffix in Hs. by rewrite length_take, Nat.min_l in Hs by done.
Qed.

(** * A trie in the file *)

Record file_ok (m : bytes) : Prop := {
  f_node : head_node_size m = Some node_f_size;
  f_child : head_child_entry_size m = Some child_f_size;
  f_small : Z.of_nat (length m) < 2 ^ 63
}.
(** The children of a node lie in front of it. *)
Inductive stored (m : bytes) : nat -> atree -> Prop :=
| stored_node node poff w kids vals :
    rd64 m node = Some poff -> poff <> 0%nat -> str_at m poff w ->
    node_children_count m node = Some (length kids) -> node_values_count m node = Some (length vals) ->
    (forall i c a, kids !! i = Some (c, a) -> exists off,
       child_entry m (node + node_f_size) child_f_size i = Some (c, off) /\ (off < node)%nat /\ stored m off a) ->
    (forall i kv, vals !! i = Some kv -> value_entry m (node + node_f_size + length kids * child_f_size) i = Some kv) ->
    stored m node (ATree w kids vals).

Lemma node_f_length off c v : length (node_f off c v) = node_f_size.
Proof. unfold node_f, htole64. by rewrite !length_app, !le_bytes_length. Qed.
Lemma child_entry_f_length c off : length (child_entry_f c off) = child_f_size.
Proof. unfold child_entry_f, htole64. by rewrite !length_app, !le_bytes_length. Qed.
Lemma value_entry_f_length k v : length (value_entry_f k v) = value_f_size.
Proof. unfold value_entry_f, htole64. by rewrite !length_app, !le_bytes_length. Qed.
Lemma concat_length {A} (f : A -> bytes) k (l : list A) : (forall x, length (f x) = k) -> length (concat (f <$> l)) = (length l * k)%nat.
Proof. intros Hk. induction l as [|x l IH]; [done|]. rewrite fmap_cons. simpl. rewrite length_app, Hk, IH. done. Qed.

Section store.
Context {P : Type} `{StringPool P} (p : P) (soff : Z) (m : bytes).
Hypothesis Hsoff : 0 < soff.
Hypothesis Hsmall : Z.of_nat (length m) < 2 ^ 63.
Hypothesis Hstr : forall o w, pool_has p o w -> str_at m (Z.to_nat (soff + o)) w.

Lemma off_range o w : pool_has p o w -> 0 < soff + o < 2 ^ 64.
Proof.
  intros Ho. pose proof (proj1 (pool_has_buf _ _ _ Ho)). pose proof (str_at_lt _ _ _ (Hstr o w Ho)). lia.
Qed.
Lemma entry_at node i c off :
  placed m (node + i * child_f_size) (child_entry_f c off) -> 0 <= off < 2 ^ 64 ->
  child_entry m node child_f_size i = Some (c, Z.to_nat off).
Proof.
  intros Hp Ho. unfold child_entry, child_entry_f in *. apply placed_app in Hp as [H1 H2]. apply placed_app in H2 as [_ H2].
  rewrite (rd8_placed _ _ _ H1). simpl.
  replace (node + i * child_f_size + 8)%nat with (node + i * child_f_size + length [c] + length (replicate 7 nul))%nat by (simpl; lia).
  by rewrite (rd64_placed _ _ off H2).
Qed.
Lemma value_at base i x y :
  placed m (base + i * value_f_size) (value_entry_f (soff + x.1) (soff + x.2)) -> val_rep p x y ->
  value_entry m base i = Some y.
Proof.
  intros Hp [Hk Hv]. unfold value_entry, value_entry_f in *. apply placed_app in Hp as [H1 H2].
  unfold htole64 in H2 at 1. rewrite le_bytes_length in H2. pose proof (off_range _ _ Hk). pose proof (off_range _ _ Hv).
  rewrite (rd64_placed _ _ _ H1), (rd64_placed _ _ _ H2) by lia. simpl.
  rewrite (rd_str_at _ _ _ (Hstr _ _ Hk)), (rd_str_at _ _ _ (Hstr _ _ Hv)). simpl. by destruct y.
Qed.

(** What storing a node adds, and where the node is. *)
Definition store_ok (a : atree) (out out' : bytes) (off : Z) : Prop :=
  exists ext, out' = out ++ ext /\ Z.of_nat header_f_size <= off /\
    off + Z.of_nat node_f_size <= Z.of_nat (header_f_size + length out') /\
    (placed m header_f_size out' -> stored m (Z.to_nat off) a).
Lemma store_children_ok (akids : list (byte * atree)) kids out :
  Forall (fun x => forall n out, rep p n x.2 -> store_ok x.2 out (trie_store_nodes soff n out).1 (trie_store_nodes soff n out).2) akids ->
  Forall2 (kid_rep p) kids akids ->
  let '(out', entries) := store_children (trie_store_nodes soff) kids out in
  exists ext, out' = out ++ ext /\ length entries = length akids /\
    forall i c a, akids !! i = Some (c, a) -> exists off, entries !! i = Some (c, off) /\
      Z.of_nat header_f_size <= off /\ off + Z.of_nat node_f_size <= Z.of_nat (header_f_size + length out') /\
      (placed m header_f_size out' -> stored m (Z.to_nat off) a).
Proof.
  intros IH Hk. revert out. induction Hk as [|[c n] [c' a] kids akids [Hc Hn] _ IHk]; intros out.
  { exists []. rewrite app_nil_r. split_and!; [done|done|]. intros i c a E. done. }
  apply Forall_cons in IH as [IH1 IH]. simpl in Hc, Hn, IH1. subst c'. cbn [store_children].
  specialize (IH1 n out Hn). destruct (trie_store_nodes soff n out) as [out1 off]. cbn [fst snd] in IH1.
  destruct IH1 as (ext1 & -> & Hlo & Hhi & Hst). specialize (IHk IH (out ++ ext1)).
  destruct (store_children _ kids _) as [out2 entries]. destruct IHk as (ext2 & -> & Hlen & Hent).
  exists (ext1 ++ ext2). split; [by rewrite app_assoc|]. split; [simpl; by rewrite Hlen|].
  intros [|i] c0 a0 E; [|by apply (Hent i c0 a0)]. injection E as <- <-. exists off.
  split_and!; [done|done|rewrite length_app; lia|]. intros [Hp _]%placed_app. by apply Hst.
Qed.
Lemma image_stored n a (out : bytes) entries d :
  rep p n a -> wf d a -> length entries = length (a_kids a) ->
  placed m (header_f_size + length out) (node_image soff n entries) ->
  (forall i c b, a_kids a !! i = Some (c, b) -> exists off, entries !! i = Some (c, off) /\
     Z.of_nat header_f_size <= off /\ off + Z.of_nat node_f_size <= Z.of_nat (header_f_size + length out) /\ stored m (Z.to_nat off) b) ->
  stored m (header_f_size + length out) a.
Proof.
  intros Hr Hwf Hlen Hp Hent. set (node := (header_f_size + length out)%nat) in *.
  inversion Hr as [off w kids akids vals avals Hw Hk Hv]; subst n a. simpl in Hlen, Hent. unfold node_image in Hp.
  cbn [prefix_off children values] in Hp. pose proof (placed_length _ _ _ Hp) as Hpl.
  apply placed_app in Hp as [Hp1 Hp]. apply placed_app in Hp as [Hp2 Hp3]. rewrite node_f_length in *.
  rewrite (concat_length _ child_f_size) in Hp3 by (intros []; apply child_entry_f_length).
  rewrite !length_app, node_f_length, (concat_length _ child_f_size), (concat_length _ value_f_size) in Hpl
    by (intros []; first [apply child_entry_f_length|apply value_entry_f_length]).
  pose proof (Forall2_length _ _ _ Hk) as Hlk. pose proof (Forall2_length _ _ _ Hv) as Hlv.
  pose proof (off_range _ _ Hw) as Hor. unfold node_f in Hp1. apply placed_app in Hp1 as [Hpo Hp1].
  apply placed_app in Hp1 as [Hpc Hp1]. apply placed_app in Hp1 as [_ Hpv].
  unfold htole64 in Hpc, Hpv at 1. rewrite le_bytes_length in *.
  assert (length akids <= 255)%nat as H255.
  { inversion Hwf as [? ? ? ? _ _ Hs _ Hf]; subst. apply byte_keys_bound in Hs; [by rewrite length_fmap in Hs|].
    apply Forall_fmap. eapply Forall_impl; [exact Hf|]. intros x [Hx _]. simpl. rewrite nul_code in Hx.
    pose proof (code_range x.1). lia. }
  apply (stored_node m node (Z.to_nat (soff + off)) w akids avals).
  - apply rd64_placed; [done|lia].
  - lia.
  - by apply Hstr.
  - unfold node_children_count. rewrite (rd8_placed _ _ _ Hpc). simpl. f_equal. rewrite code_chr, Z.mod_small by lia. lia.
  - unfold node_values_count. replace (node + 16)%nat with (node + 8 + length [chr (Z.of_nat (length kids))] + length (replicate 7 nul))%nat
      by (simpl; lia). rewrite (rd64_placed _ _ _ Hpv); [f_equal; lia|]. unfold value_f_size in Hpl. lia.
  - intros i c b Hi. destruct (Hent i c b Hi) as (o & He & Hlo & Hhi & Hst). exists (Z.to_nat o).
    split_and!; [|unfold node_f_size in Hhi; lia|done]. apply entry_at; [|unfold node_f_size in Hhi; lia].
    apply (placed_entry (fun e => child_entry_f e.1 e.2) _ _ entries _ i (c, o)); [intros []; apply child_entry_f_length|done|done].
  - intros i kv Hi. destruct (Forall2_lookup_r _ _ _ _ _ Hv Hi) as (x & Hx & Hxy). apply (value_at _ i x); [|done].
    rewrite <- Hlen. apply (placed_entry (fun v => value_entry_f (soff + v.1) (soff + v.2)) _ _ vals _ i x);
      [intros; apply value_entry_f_length|done|done].
Qed.
Lemma store_nodes_ok a : forall d n out, wf d a -> rep p n a ->
  store_ok a out (trie_store_nodes soff n out).1 (trie_store_nodes soff n out).2.
Proof.
  induction a as [w akids avals IH] using atree_ind'. intros d n out Hwf Hr. pose proof Hr as Hr'.
  inversion Hr as [off ? kids ? vals ? Hw Hk Hv]; subst n. cbn [trie_store_nodes children].
  assert (Forall (fun x => forall n out, rep p n x.2 ->
    store_ok x.2 out (trie_store_nodes soff n out).1 (trie_store_nodes soff n out).2) akids) as IH'.
  { inversion Hwf as [? ? ? ? _ _ _ _ Hf]; subst. rewrite Forall_forall in *. intros x Hx n o Hn.
    destruct (Hf x Hx) as [_ Hwx]. by eapply IH. }
  pose proof (store_children_ok akids kids out IH' Hk) as Hch.
  destruct (store_children (trie_store_nodes soff) kids out) as [out1 entries]. destruct Hch as (ext & -> & Hlen & Hent).
  cbn [fst snd]. set (img := node_image _ _ _). assert (node_f_size <= length img)%nat as Himg.
  { unfold img, node_image. rewrite length_app, node_f_length. lia. }
  exists (ext ++ img). split; [by rewrite app_assoc|]. split; [lia|]. split; [rewrite !length_app in *; clear -Himg; lia|].
  intros [Hp1 Hp2]%placed_app. rewrite Nat2Z.id. eapply image_stored; [exact Hr'|exact Hwf|done|exact Hp2|].
  intros i c b Hi. destruct (Hent i c b Hi) as (o & A & B & C & D). exists o. split_and!; auto.
Qed.
End store.
End HwdbFile.
