(* ===== verification/HwdbSearch.v ===== *)
(** The lookup in a file of the hardware database: it finds the properties of
    exactly the patterns that match, whatever trie the file holds, and never
    reads outside of the file. *)

From Stdlib Require Import ZArith Lia Ascii Sorted.
From stdpp Require Import prelude gmap strings sorting.
From S2P Require Import Prelude Utils Strbuf UdevList System Hwdb HwdbTrie HwdbLookup HwdbFile.
Import Mem Entries Hwdb HwdbTrie HwdbLookup HwdbFile.

Module HwdbSearch.
Section search.
Context `{G : Glob}.

(** A pattern matches when the part in front of its first glob character is
    there literally and the rest matches as a glob pattern. *)
Fixpoint hw_match (p s : bytes) : bool :=
  match p with
  | [] => match s with [] => true | _ => false end
  | c :: p' =>
      if isglob c then fnmatch p s
      else match s with x :: s' => (c ==c x) && hw_match p' s' | [] => false end
  end.

(** * The parts of a node in the file *)

Section file.
Context (m : bytes).
Hypothesis Hm : file_ok m.

Lemma mapM_seq {B} (f : nat -> option B) (l : list B) n k :
  n = length l -> (forall i x, l !! i = Some x -> f (k + i)%nat = Some x) -> mapM f (seq k n) = Some l.
Proof.
  intros ->. revert k. induction l as [|x l IH]; intros k Hf; [done|]. cbn [length seq mapM].
  rewrite <- (Nat.add_0_r k) at 1. rewrite (Hf 0%nat x) by done. simpl.
  rewrite (IH (S k)); [done|]. intros i y Hy. rewrite <- (Hf (S i) y Hy). f_equal. lia.
Qed.
(** The children as the lookup reads them. *)
Lemma stored_children node w kids vals :
  stored m node (ATree w kids vals) ->
  exists l, trie_node_children m node child_f_size = Some l /\
    Forall2 (fun (x : byte * nat) (y : byte * atree) => x.1 = y.1 /\ (x.2 < node)%nat /\ stored m x.2 y.2) l kids.
Proof.
  intros Hs. inversion Hs as [? poff ? ? ? H1 H2 H3 H4 H5 H6 H7]; subst. unfold trie_node_children.
  rewrite H4, (f_node m Hm). cbn [mbind option_bind].
  assert (exists l : list (byte * nat), length l = length kids /\ forall i x, l !! i = Some x ->
    child_entry m (node + node_f_size) child_f_size i = Some x /\
    exists y, kids !! i = Some y /\ x.1 = y.1 /\ (x.2 < node)%nat /\ stored m x.2 y.2) as (l & Hl & Hx).
  { clear -H6. revert H6. generalize (node + node_f_size)%nat as base. intros base H6.
    assert (forall k, (k <= length kids)%nat -> exists l : list (byte * nat), length l = k /\ forall i x, l !! i = Some x ->
      child_entry m base child_f_size i = Some x /\ exists y, kids !! i = Some y /\ x.1 = y.1 /\ (x.2 < node)%nat /\ stored m x.2 y.2)
      as Hk; [|by apply Hk].
    induction k as [|k IH]; intros Hk; [by exists []|]. destruct IH as (l & Hl & Hx); [lia|].
    destruct (lookup_lt_is_Some_2 kids k) as [[c a] Hc]; [lia|]. destruct (H6 k c a Hc) as (off & A & B & C).
    exists (l ++ [(c, off)]). split; [rewrite length_app, Hl; simpl; lia|]. intros i x Hi.
    apply lookup_app_Some in Hi as [Hi|[Hge Hi]]; [by apply Hx|]. rewrite Hl in *.
    destruct (i - k)%nat eqn:E; [|done]. injection Hi as <-. assert (i = k) as -> by lia. split; [done|]. by exists (c, a). }
  exists l. split; [apply mapM_seq; [done|]; intros i x Hi; by apply Hx|].
  apply Forall2_same_length_lookup_2; [done|]. intros i x y Hi Hy. destruct (Hx i x Hi) as (_ & y' & Hy' & A). congruence.
Qed.
Lemma stored_values node w kids vals : stored m node (ATree w kids vals) -> trie_node_values m node = Some vals.
Proof.
  intros Hs. inversion Hs as [? poff ? ? ? H1 H2 H3 H4 H5 H6 H7]; subst. unfold trie_node_values.
  rewrite H5, H4, (f_node m Hm), (f_child m Hm). cbn [mbind option_bind]. by apply mapM_seq.
Qed.
Lemma stored_lt node a : stored m node a -> (node < length m)%nat.
Proof.
  destruct 1 as [node poff w kids vals H1 _ _ _ _ _ _]. unfold rd64 in H1. destruct (decide _); [lia|done].
Qed.
Lemma stored_lookup node w kids vals c :
  stored m node (ATree w kids vals) -> StronglySorted Z.lt (kid_keys kids) ->
  exists r, node_lookup_f m node c = Some r /\
    match r with
    | Some off => exists a, (c, a) ∈ kids /\ (off < node)%nat /\ stored m off a
    | None => code c ∉ kid_keys kids
    end.
Proof.
  intros Hs Hsort. destruct (stored_children _ _ _ _ Hs) as (l & Hl & HF). unfold node_lookup_f.
  rewrite (f_child m Hm). cbn [mbind option_bind]. rewrite Hl. cbn [mbind option_bind]. eexists. split; [reflexivity|].
  pose proof (bsearch_kids (fun x y => (x < node)%nat /\ stored m x y) c l kids HF Hsort) as Hb.
  destruct (bsearch _ l) as [i|i]; [|done]. destruct Hb as (x & a & -> & Ha & Hlt & Hst). simpl. exists a.
  split_and!; [|done|done]. apply list_elem_of_lookup. by exists i.
Qed.
End file.

(** * The search for glob patterns *)

Fixpoint gvals (pre : bytes) (a : atree) (s : bytes) : list (bytes * bytes) :=
  let '(ATree w kids vals) := a in
  flat_map (fun k => gvals (pre ++ w ++ [k.1]) k.2 s) kids ++ (if fnmatch (pre ++ w) s then vals else []).
Lemma gvals_spec a pre s k v :
  (k, v) ∈ gvals pre a s <-> exists q, has a q k v /\ fnmatch (pre ++ q) s = true.
Proof.
  revert pre. induction a as [w kids vals IH] using atree_ind'. intros pre. cbn [gvals].
  rewrite elem_of_app, list_elem_of_In, in_flat_map. setoid_rewrite has_node. rewrite Forall_forall in IH. split.
  - intros [([c a] & Hc & Hin)|Hin].
    + apply list_elem_of_In in Hc, Hin. simpl in Hin. apply (IH _ Hc) in Hin as (q & Hq & Hf).
      exists (w ++ c :: q). split; [left; by exists c, a, q|]. rewrite <- !app_assoc in Hf. exact Hf.
    + destruct (fnmatch (pre ++ w) s) eqn:E; [|by apply not_elem_of_nil in Hin]. exists w. split; [by right|done].
  - intros (q & [(c & a & q' & Hc & -> & Hq)|[-> Hin]] & Hf).
    + left. exists (c, a). split; [by apply list_elem_of_In|]. apply list_elem_of_In, (IH _ Hc). exists q'. split; [done|].
      rewrite <- !app_assoc. exact Hf.
    + right. by rewrite Hf.
Qed.
Definition drop_tree (p : nat) (a : atree) : atree := let '(ATree w kids vals) := a in ATree (drop p w) kids vals.

Lemma add_values_app l l' props : add_values (l ++ l') props = add_values l' (add_values l props).
Proof. apply fold_left_app. Qed.
Lemma linebuf_add_fits buf s : (length buf + length s < LINE_MAX)%nat -> linebuf_add buf s = buf ++ s.
Proof. intros Hl. unfold linebuf_add. by rewrite (proj2 (Nat.leb_gt _ _)). Qed.
Lemma linebuf_add_char_fits buf c : (length buf + 1 < LINE_MAX)%nat -> linebuf_add_char buf c = buf ++ [c].
Proof. intros Hl. unfold linebuf_add_char. by rewrite (proj2 (Nat.leb_gt _ _)). Qed.
Lemma linebuf_rem_app buf s : linebuf_rem (buf ++ s) (length s) = Some buf.
Proof.
  unfold linebuf_rem. rewrite length_app, decide_True by lia. by rewrite Nat.add_sub, take_app_length.
Qed.

Section found.
Context (m : bytes).
Hypothesis Hm : file_ok m.

Definition fn_ok (fuel : nat) (search : bytes) : Prop := forall a node p d buf props,
  stored m node a -> wf d a -> (length buf <= d)%nat -> (node < fuel)%nat ->
  (p <= (let '(ATree w _ _) := a in length w))%nat ->
  trie_fnmatch_f m fuel node p buf search props = Some (buf, add_values (gvals buf (drop_tree p a) search) props).
Lemma fnmatch_children_ok fuel search d buf l kids props :
  fn_ok fuel search -> (length buf < d)%nat -> (length buf + 1 < LINE_MAX)%nat ->
  Forall2 (fun (x : byte * nat) (y : byte * atree) => x.1 = y.1 /\ (x.2 < fuel)%nat /\ stored m x.2 y.2) l kids ->
  Forall (fun x => x.1 <> nul /\ wf d x.2) kids ->
  fnmatch_children (fun child buf props => trie_fnmatch_f m fuel child 0 buf search props) l buf props =
    Some (buf, add_values (flat_map (fun k => gvals (buf ++ [k.1]) k.2 search) kids) props).
Proof.
  intros IH Hb Hmax HF Hwf. revert props. induction HF as [|[c off] [c' a] l kids (Hc & Hlt & Hst) HF IHl]; intros props; [done|].
  apply Forall_cons in Hwf as [[_ Hwa] Hwf]. cbn [fst snd] in *. subst c'. cbn [fnmatch_children flat_map].
  rewrite linebuf_add_char_fits by done. rewrite (IH a off 0%nat d) by (done || rewrite ?length_app; simpl; destruct a; lia).
  cbn [mbind option_bind fst snd]. unfold linebuf_rem_char. pose proof (linebuf_rem_app buf [c]) as Hrem. change (length [c]) with 1%nat in Hrem. rewrite Hrem.
  cbn [mbind option_bind]. rewrite IHl by done.
  rewrite add_values_app. by destruct a.
Qed.
Lemma trie_fnmatch_ok fuel search : fn_ok fuel search.
Proof.
  induction fuel as [|fuel IH]; intros [w kids vals] node p d buf props Hst Hwf Hb Hfuel Hp; [lia|]. cbn [trie_fnmatch_f drop_tree gvals].
  pose proof Hst as Hst'. inversion Hst as [? poff ? ? ? H1 H2 H3 H4 H5 H6 H7]; subst.
  inversion Hwf as [? ? ? ? W1 W2 W3 W4 W5]; subst.
  unfold node_prefix_off. rewrite H1. cbn [mbind option_bind]. rewrite (rd_str_at _ _ _ (str_at_drop _ _ p _ H3 Hp)).
  cbn [mbind option_bind]. assert (length (drop p w) <= length w)%nat as Hlw by (rewrite length_drop; lia).
  rewrite linebuf_add_fits by lia. destruct (stored_children m Hm _ _ _ _ Hst') as (l & -> & HF). cbn [mbind option_bind].
  rewrite (fnmatch_children_ok fuel search (S (d + length w)) (buf ++ drop p w) l kids).
  2: { done. } 2,3: rewrite length_app; lia.
  2: { eapply Forall2_impl; [exact HF|]. intros x y (? & ? & ?). split_and!; [done|lia|done]. } 2: { done. }
  cbn [mbind option_bind]. rewrite H5. cbn [mbind option_bind]. set (props1 := add_values (flat_map _ _) props).
  assert ((if (length vals =? 0)%nat then Some props1 else pattern ← linebuf_get (buf ++ drop p w);
     if fnmatch pattern search then vals ← trie_node_values m node; Some (add_values vals props1) else Some props1) =
    Some (add_values (if fnmatch (buf ++ drop p w) search then vals else []) props1)) as ->.
  { unfold linebuf_get. rewrite (proj2 (Nat.leb_gt _ _)) by (rewrite length_app; lia). cbn [mbind option_bind].
    rewrite (stored_values m Hm _ _ _ _ Hst'). cbn [mbind option_bind].
    destruct (Nat.eqb_spec (length vals) 0) as [E|]; [|by destruct (fnmatch _ _)].
    apply nil_length_inv in E as ->. by destruct (fnmatch _ _). }
  cbn [mbind option_bind]. rewrite linebuf_rem_app. cbn [mbind option_bind]. rewrite add_values_app.
  do 3 f_equal. f_equal. apply flat_map_ext. intros k. by rewrite app_assoc.
Qed.

(** ** The search *)

Lemma scan_prefix_ok w s n :
  match scan_prefix w s n with
  | Glob_at p => exists q, p = (n + q)%nat /\ (q <= length w)%nat /\
      forall r, hw_match (w ++ r) s = fnmatch (drop q w ++ r) (drop q s)
  | Differs => forall r, hw_match (w ++ r) s = false
  | Same p => p = (n + length w)%nat /\ (length w <= length s)%nat /\
      forall r, hw_match (w ++ r) s = hw_match r (drop (length w) s)
  end.
Proof.
  revert s n. induction w as [|c w IH]; intros s n; cbn [scan_prefix hw_match].
  { split_and!; [simpl; lia|simpl; lia|]. intros r. by rewrite drop_0. }
  destruct (isglob c) eqn:Eg.
  { exists 0%nat. split_and!; [lia|lia|]. intros r. simpl. by rewrite Eg. }
  destruct s as [|x s]; [intros r; simpl; by rewrite Eg|]. destruct (c ==c x) eqn:Ex; [|intros r; simpl; by rewrite Eg, Ex].
  specialize (IH s (S n)). destruct (scan_prefix w s (S n)) as [p| |p].
  - destruct IH as (q & -> & Hq & IH). exists (S q). split_and!; [lia|simpl; lia|]. intros r. simpl. rewrite Eg, Ex. apply IH.
  - intros r. simpl. rewrite Eg, Ex. apply IH.
  - destruct IH as (-> & Hl & IH). split_and!; [simpl; lia|simpl; lia|]. intros r. simpl. rewrite Eg, Ex. apply IH.
Qed.
(** The values [l] are those of the patterns in [a] that match. *)
Definition finds (l : list (bytes * bytes)) (Q : bytes -> Prop) a : Prop :=
  forall k v, (k, v) ∈ l <-> exists p, has a p k v /\ Q p.
Lemma search_glob_ok gfuel node d w kids vals c s props :
  stored m node (ATree w kids vals) -> wf d (ATree w kids vals) -> (node < gfuel)%nat ->
  exists l, search_glob m gfuel node c s props = Some (add_values l props) /\
    forall k v, (k, v) ∈ l <-> exists ch q, (c, ch) ∈ kids /\ has ch q k v /\ fnmatch (c :: q) s = true.
Proof.
  intros Hst Hwf Hg. inversion Hwf as [? ? ? ? W1 W2 W3 W4 W5]; subst.
  destruct (stored_lookup m Hm node w kids vals c Hst W3) as (r & Hr & Hres). unfold search_glob. rewrite Hr.
  cbn [mbind option_bind]. destruct r as [off|].
  - destruct Hres as (a & Ha & Hlt & Hsa). rewrite Forall_forall in W5. destruct (W5 _ Ha) as [_ Hwa]. simpl in Hwa.
    rewrite linebuf_add_char_fits by (unfold LINE_MAX; simpl; lia).
    rewrite (trie_fnmatch_ok gfuel s a off 0%nat (S (d + length w)) [c]) by (done || simpl; destruct a; lia).
    cbn [mbind option_bind fst snd]. unfold linebuf_rem_char. pose proof (linebuf_rem_app [] [c]) as Hrem.
    change (linebuf_rem [c] 1 = Some []) in Hrem. simpl app in Hrem |- *. rewrite Hrem. cbn [mbind option_bind].
    exists (gvals [c] a s). split; [by destruct a|]. intros k v. rewrite gvals_spec. split.
    + intros (q & H1 & H2). by exists a, q.
    + intros (ch & q & H1 & H2 & H3). rewrite (kids_unique _ _ _ _ W3 H1 Ha) in H2. by exists q.
  - exists []. split; [done|]. intros k v. split; [by intros ?%not_elem_of_nil|].
    intros (ch & q & Hin & _). destruct Hres. apply kid_key_in. by exists ch.
Qed.
Lemma isglob_cases c : isglob c = true <-> c = "*"%char \/ c = "?"%char \/ c = "["%char.
Proof. unfold isglob. rewrite !orb_true_iff, !Ascii.eqb_eq. tauto. Qed.

Lemma has_prefix w kids vals p k v :
  has (ATree w kids vals) p k v <-> exists r, p = w ++ r /\ has (ATree [] kids vals) r k v.
Proof.
  rewrite has_node. setoid_rewrite has_node. simpl. split.
  - intros [(c & ch & q & H1 & -> & H2)|[-> Hin]]; [exists (c :: q); split; [done|]|exists []; split; [by rewrite app_nil_r|by right]].
    left. by exists c, ch, q.
  - intros (r & -> & [(c & ch & q & H1 & -> & H2)|[-> Hin]]); [left; by exists c, ch, q|right; by rewrite app_nil_r].
Qed.
Lemma finds_prefix l Q w kids vals :
  (forall k v, (k, v) ∈ l <-> exists r, has (ATree [] kids vals) r k v /\ Q (w ++ r)) -> finds l Q (ATree w kids vals).
Proof.
  intros Hl k v. rewrite Hl. split.
  - intros (r & H1 & H2). exists (w ++ r). split; [apply has_prefix; by exists r|done].
  - intros (p & (r & -> & H1)%has_prefix & H2). by exists r.
Qed.
(** What is searched behind the prefix of a node and the glob characters. *)
Definition here (kids : list (byte * atree)) (vals : list (bytes * bytes)) (s : bytes) (k v : bytes) : Prop :=
  (s = [] /\ (k, v) ∈ vals) \/
  exists c ch q s', s = c :: s' /\ (c, ch) ∈ kids /\ has ch q k v /\ hw_match q s' = true.
Definition glob_here (kids : list (byte * atree)) (c : byte) (s : bytes) (k v : bytes) : Prop :=
  exists ch q, (c, ch) ∈ kids /\ has ch q k v /\ fnmatch (c :: q) s = true.
Lemma match_here kids vals s k v :
  Forall (fun c => isglob c = false) s ->
  (glob_here kids "*" s k v \/ glob_here kids "?" s k v \/ glob_here kids "[" s k v \/ here kids vals s k v) <->
  exists r, has (ATree [] kids vals) r k v /\ hw_match r s = true.
Proof.
  intros Hs. assert (forall c, isglob c = true -> glob_here kids c s k v -> exists r, has (ATree [] kids vals) r k v /\ hw_match r s = true) as Hg.
  { intros c Hc (ch & q & H1 & H2 & H3). exists (c :: q). split; [apply has_node; left; by exists c, ch, q|].
    cbn [hw_match]. by rewrite Hc. }
  split.
  - intros [H|[H|[H|[[-> H]|(c & ch & q & s' & -> & H1 & H2 & H3)]]]];
      [by apply (Hg "*"%char)|by apply (Hg "?"%char)|by apply (Hg "["%char)| |].
    + exists []. split; [apply has_node; by right|done].
    + exists (c :: q). split; [apply has_node; left; by exists c, ch, q|]. apply Forall_cons in Hs as [Hc _].
      cbn [hw_match]. by rewrite Hc, Ascii.eqb_refl.
  - intros (r & [(c & ch & q & H1 & -> & H2)|[-> H]]%has_node & Hmr); simpl in Hmr.
    + destruct (isglob c) eqn:Ec.
      * assert (glob_here kids c s k v) as Hgh by (by exists ch, q). apply isglob_cases in Ec as [->|[->| ->]]; by auto.
      * destruct s as [|x s']; [done|]. apply andb_true_iff in Hmr as [E%Ascii.eqb_eq Hmr]. subst x.
        right; right; right; right. by exists c, ch, q, s'.
    + destruct s; [|done]. right; right; right; left. done.
Qed.

Definition search_ok (fuel gfuel : nat) : Prop := forall a node d s props,
  stored m node a -> wf d a -> (node < gfuel)%nat -> (length s < fuel)%nat -> Forall (fun c => isglob c = false) s ->
  exists l, search_loop m fuel gfuel node s props = Some (add_values l props) /\ finds l (fun p => hw_match p s = true) a.
Lemma search_here fuel gfuel node d w kids vals s props :
  search_ok fuel gfuel -> stored m node (ATree w kids vals) -> wf d (ATree w kids vals) -> (node < gfuel)%nat ->
  (length s < S fuel)%nat -> Forall (fun c => isglob c = false) s ->
  exists l, match s with
    | [] => vals ← trie_node_values m node; Some (add_values vals props)
    | c :: s => child ← node_lookup_f m node c;
                match child with
                | Some child => search_loop m fuel gfuel child s props
                | None => Some props
                end
    end = Some (add_values l props) /\ forall k v, (k, v) ∈ l <-> here kids vals s k v.
Proof.
  intros IH Hst Hwf Hg Hf Hs. inversion Hwf as [? ? ? ? W1 W2 W3 W4 W5]; subst. destruct s as [|c s].
  { rewrite (stored_values m Hm _ _ _ _ Hst). exists vals. split; [done|]. intros k v. unfold here. naive_solver. }
  destruct (stored_lookup m Hm node w kids vals c Hst W3) as (r & Hr & Hres). rewrite Hr. cbn [mbind option_bind].
  apply Forall_cons in Hs as [_ Hs]. destruct r as [off|].
  - destruct Hres as (a & Ha & Hlt & Hsa). rewrite Forall_forall in W5. destruct (W5 _ Ha) as [_ Hwa].
    destruct (IH a off _ s props Hsa Hwa) as (l & -> & Hl); [lia|simpl in Hf; lia|done|]. exists l. split; [done|].
    intros k v. rewrite (Hl k v). split.
    + intros (p & H1 & H2). right. by exists c, a, p, s.
    + intros [[? _]|(c' & ch & q & s' & [= <- <-] & H1 & H2 & H3)]; [done|].
      rewrite (kids_unique _ _ _ _ W3 H1 Ha) in H2. by exists q.
  - exists []. split; [done|]. intros k v. split; [by intros ?%not_elem_of_nil|].
    intros [[? _]|(c' & ch & q & s' & [= <- <-] & H1 & _)]; [done|]. destruct Hres. apply kid_key_in. by exists ch.
Qed.
Lemma search_loop_ok fuel gfuel : search_ok fuel gfuel.
Proof.
  induction fuel as [|fuel IH]; intros [w kids vals] node d s props Hst Hwf Hg Hf Hs; [lia|]. cbn [search_loop].
  pose proof Hst as Hst'. inversion Hst as [? poff ? ? ? H1 H2 H3 H4 H5 H6 H7]; subst.
  inversion Hwf as [? ? ? ? W1 W2 W3 W4 W5]; subst.
  unfold node_prefix_off. rewrite H1. cbn [mbind option_bind]. rewrite (proj2 (Nat.eqb_neq _ _)) by done.
  rewrite (rd_str_at _ _ _ H3). cbn [mbind option_bind]. pose proof (scan_prefix_ok w s 0) as Hscan.
  destruct (scan_prefix w s 0) as [p| |p].
  - destruct Hscan as (q & -> & Hq & Hmatch). rewrite (trie_fnmatch_ok gfuel _ _ _ _ d) by (done || simpl; lia).
    eexists. split; [reflexivity|]. apply finds_prefix. intros k v. rewrite gvals_spec. cbn [drop_tree app].
    setoid_rewrite Hmatch. split.
    + intros (? & (r & -> & Hp)%has_prefix & Hr). by exists r.
    + intros (r & Hp & Hr). exists (drop q w ++ r). split; [apply has_prefix; by exists r|done].
  - exists []. split; [done|]. apply finds_prefix. intros k v. split; [by intros ?%not_elem_of_nil|].
    intros (r & _ & E). by rewrite Hscan in E.
  - destruct Hscan as (-> & Hl & Hmatch). cbn [Nat.add]. set (s' := drop (length w) s) in *.
    assert (length s' <= length s)%nat as Hls by (unfold s'; rewrite length_drop; lia).
    assert (Forall (fun c => isglob c = false) s') as Hs' by (by apply Forall_drop).
    destruct (search_glob_ok gfuel node d w kids vals "*" s' props Hst' Hwf Hg) as (l1 & -> & G1). cbn [mbind option_bind].
    destruct (search_glob_ok gfuel node d w kids vals "?" s' (add_values l1 props) Hst' Hwf Hg) as (l2 & -> & G2).
    cbn [mbind option_bind]. rewrite <- add_values_app.
    destruct (search_glob_ok gfuel node d w kids vals "[" s' (add_values (l1 ++ l2) props) Hst' Hwf Hg) as (l3 & -> & G3).
    cbn [mbind option_bind]. rewrite <- add_values_app.
    destruct (search_here fuel gfuel node d w kids vals s' (add_values ((l1 ++ l2) ++ l3) props) IH Hst' Hwf Hg)
      as (l4 & -> & G4); [lia|done|]. exists (((l1 ++ l2) ++ l3) ++ l4). split; [by rewrite <- (add_values_app _ l4)|].
    apply finds_prefix. intros k v. setoid_rewrite Hmatch. rewrite <- (match_here kids vals s' k v Hs').
    rewrite !elem_of_app, G1, G2, G3, G4. unfold glob_here. tauto.
Qed.
End found.
End search.
End HwdbSearch.
