(* ===== verification/HwdbProps.v ===== *)
(** The hardware database from its source files to the lookup. *)

From Stdlib Require Import ZArith Lia Ascii Sorted.
From stdpp Require Import prelude gmap strings sorting.
From S2P Require Import Prelude Utils Strbuf UdevList System Hwdb HwdbTrie HwdbLookup HwdbFile HwdbSearch.
Import Mem Entries Hwdb HwdbTrie HwdbLookup HwdbFile HwdbSearch.

Module HwdbProps.

(** * The whole file *)

Section file.
Context {P : Type} `{StringPool P}.

(** The space for the nodes is what they take. *)
Lemma nodes_size_ok p soff a : forall n out s, rep p n a ->
  trie_store_nodes_size n s = s + Z.of_nat (length (trie_store_nodes soff n out).1) - Z.of_nat (length out).
Proof.
  induction a as [w akids avals IH] using atree_ind'. intros n out s Hr.
  inversion Hr as [off ? kids ? vals ? _ Hk _]; subst n. cbn [trie_store_nodes_size trie_store_nodes children values].
  assert (forall out s, let '(out', entries) := store_children (trie_store_nodes soff) kids out in
    fold_left (fun off c => trie_store_nodes_size c.2 off) kids s = s + Z.of_nat (length out') - Z.of_nat (length out) /\
    length entries = length kids) as Hkids.
  { clear -IH Hk. induction Hk as [|[c n] [c' a] kids akids [_ Hn] _ IHk]; intros out s; cbn [store_children fold_left snd]; [split; [lia|done]|].
    apply Forall_cons in IH as [IH1 IH]. simpl in Hn, IH1. rewrite (IH1 n out s Hn).
    destruct (trie_store_nodes soff n out) as [out1 off]. cbn [fst].
    specialize (IHk IH out1 (s + Z.of_nat (length out1) - Z.of_nat (length out))).
    destruct (store_children _ kids out1) as [out2 entries]. destruct IHk as [-> Hl]. split; [cbn [snd]; lia|simpl; by rewrite Hl]. }
  specialize (Hkids out s). destruct (store_children _ kids out) as [out1 entries]. destruct Hkids as [-> Hl]. cbn [fst].
  unfold node_image. cbn [prefix_off children values]. rewrite !length_app, node_f_length, (concat_length _ child_f_size), (concat_length _ value_f_size), Hl
    by (intros []; first [apply child_entry_f_length|apply value_entry_f_length]). lia.
Qed.

Lemma htole64_length z : length (htole64 z) = 8%nat.
Proof. apply le_bytes_length. Qed.
Lemma header_f_length v f r n s : length (header_f v f r n s) = header_f_size.
Proof. unfold header_f. by rewrite !length_app, !htole64_length. Qed.
Lemma header_fields m v f r n s :
  placed m 0 (header_f v f r n s) -> 0 <= f < 2 ^ 64 -> 0 <= r < 2 ^ 64 ->
  head_signature m = HWDB_SIG /\ head_file_size m = Some (Z.to_nat f) /\ head_node_size m = Some node_f_size /\
  head_child_entry_size m = Some child_f_size /\ head_nodes_root_off m = Some (Z.to_nat r).
Proof.
  intros Hp Hf Hr. unfold header_f in Hp. apply placed_app in Hp as [H0 Hp].
  repeat match type of Hp with placed _ _ (htole64 _ ++ _) =>
    let E := fresh "F" in apply placed_app in Hp as [E Hp]; rewrite htole64_length in Hp end.
  unfold head_signature, head_file_size, head_node_size, head_child_entry_size, head_nodes_root_off.
  split_and!.
  - apply placed_drop in H0 as [post E]. rewrite drop_0 in E. by rewrite E.
  - by apply (rd64_placed m 16).
  - by apply (rd64_placed m 32 (Z.of_nat node_f_size)).
  - by apply (rd64_placed m 40 (Z.of_nat child_f_size)).
  - by apply (rd64_placed m 56).
Qed.

Lemma trie_store_ok version t n a d :
  rep (strings t) n a -> wf d a -> Z.of_nat (length (trie_store version t n)) < 2 ^ 63 ->
  let m := trie_store version t n in
  file_ok m /\ udev_hwdb_new m = Some (mk_hwdb m []) /\
  exists root, head_nodes_root_off m = Some root /\ stored m root a.
Proof.
  intros Hr Hwf. unfold trie_store. set (soff := trie_store_nodes_size n (Z.of_nat header_f_size)).
  pose proof (nodes_size_ok (strings t) soff a n [] (Z.of_nat header_f_size) Hr) as Hsize. fold soff in Hsize.
  pose proof (fun m H1 H2 H3 => store_nodes_ok (strings t) soff m H1 H2 H3 a d n [] Hwf Hr) as Hst.
  destruct (trie_store_nodes soff n []) as [out root]. cbn [fst snd length] in *. rewrite Z.sub_0_r in Hsize.
  set (buf := pool_buf (strings t)). set (hdr := header_f _ _ _ _ _). set (m := hdr ++ out ++ buf). intros Hsmall.
  assert (length hdr = header_f_size) as Hhdr by apply header_f_length.
  assert (length m = header_f_size + length out + length buf)%nat as Hlen by (unfold m; rewrite !length_app, Hhdr; lia).
  assert (forall o w, pool_has (strings t) o w -> str_at m (Z.to_nat (soff + o)) w) as Hstr.
  { intros o w Ho. destruct (pool_has_buf _ _ _ Ho) as [Ho0 Hat]. unfold m. rewrite app_assoc.
    replace (Z.to_nat (soff + o)) with (length (hdr ++ out) + Z.to_nat o)%nat by (rewrite length_app, Hhdr; lia).
    by apply str_at_behind. }
  destruct (Hst m) as (ext & _ & Hlo & Hhi & Hplaced); [unfold header_f_size in *; lia|done|done|].
  assert (placed m header_f_size out) as Hpo by (exists hdr, buf; done).
  assert (placed m 0 hdr) as Hph by (exists [], (out ++ buf); done).
  destruct (header_fields m _ _ _ _ _ Hph) as (S1 & S2 & S3 & S4 & S5); [lia|lia|].
  split; [by split|]. split; [|exists (Z.to_nat root); split; [done|by apply Hplaced]].
  unfold udev_hwdb_new. rewrite (proj2 (Nat.ltb_ge _ _)) by lia. rewrite S1, S2, bool_decide_true, bool_decide_true; [done| |done].
  f_equal. lia.
Qed.
End file.

(** * The properties that are found *)

Lemma add_property_find props key value name :
  names_sorted props -> names_sorted (hwdb_add_property props key value) /\
  (key = " "%char :: name -> exists e, spec_find (hwdb_add_property props key value) name = Some e /\ e_value e = Some value) /\
  (key <> " "%char :: name -> spec_find (hwdb_add_property props key value) name = spec_find props name).
Proof.
  intros Hs. unfold hwdb_add_property. destruct key as [|c key]; [by split_and!|]. destruct (eqbP c " ") as [->|Hne].
  - split; [by apply insert_sorted_sorted|]. rewrite spec_find_add by done. split.
    + intros [= ->]. rewrite decide_True by done. by eexists.
    + intros Hk. by rewrite decide_False by congruence.
  - split_and!; [done| |done]. congruence.
Qed.
Lemma add_values_find l props name :
  names_sorted props ->
  match spec_find (add_values l props) name with
  | Some e => (exists v, e_value e = Some v /\ (" "%char :: name, v) ∈ l) \/ spec_find props name = Some e
  | None => (forall v, (" "%char :: name, v) ∉ l) /\ spec_find props name = None
  end.
Proof.
  revert props. induction l as [|[k v] l IH]; intros props Hs.
  { simpl. destruct (spec_find props name); [by right|]. split; [|done]. intros v. apply not_elem_of_nil. }
  change (add_values ((k, v) :: l) props) with (add_values l (hwdb_add_property props k v)).
  destruct (add_property_find props k v name Hs) as (Hs' & Heq & Hne). specialize (IH _ Hs').
  destruct (spec_find (add_values l _) name) as [e|].
  - destruct IH as [(v' & He & Hin)|He]; [left; exists v'; split; [done|by right]|].
    destruct (decide (k = " "%char :: name)) as [E|E]; [|right; by rewrite <- Hne].
    destruct (Heq E) as (e' & He' & Hv). left. exists v. split; [congruence|]. rewrite E. left.
  - destruct IH as [Hl He]. destruct (decide (k = " "%char :: name)) as [E|E].
    + destruct (Heq E) as (e' & He' & _). congruence.
    + rewrite Hne in He by done. split; [|done]. intros v' [[= ? ?]|Hin]%elem_of_cons; [congruence|by apply (Hl v')].
Qed.

Section lookup.
Context {P : Type} `{StringPool P} `{G : Glob}.

(** The lookup of [name] in the list of properties [props] gives the value of
    a pattern that matches, if there is one. *)
Definition found_exactly (value_of : bytes -> bytes -> bytes -> Prop) (modalias : bytes) (props : list entry) : Prop :=
  forall name, match spec_find props name with
    | Some e => exists p v, e_value e = Some v /\ value_of p (" "%char :: name) v /\ hw_match p modalias = true
    | None => forall p v, value_of p (" "%char :: name) v -> hw_match p modalias = false
    end.
Lemma hwdb_lookup_ok version t n a modalias :
  rep (strings t) n a -> wf 0 a -> Z.of_nat (length (trie_store version t n)) < 2 ^ 63 ->
  Forall (fun c => isglob c = false) modalias ->
  exists db db', udev_hwdb_new (trie_store version t n) = Some db /\
    udev_hwdb_get_properties_list_entry db modalias = Some db' /\ found_exactly (has a) modalias (properties_list db').
Proof.
  intros Hr Hwf Hsmall Hmod. destruct (trie_store_ok version t n a 0 Hr Hwf Hsmall) as (Hm & Hnew & root & Hroot & Hst).
  set (m := trie_store version t n) in *.
  destruct (search_loop_ok m Hm (S (length modalias)) (S (length m)) a root 0%nat modalias []) as (l & E & Hl);
    [done|done|apply stored_lt in Hst; lia|lia|done|].
  exists (mk_hwdb m []), (mk_hwdb m (add_values l [])). split; [done|].
  unfold udev_hwdb_get_properties_list_entry, trie_search_f. cbn [HwdbLookup.map]. rewrite Hroot. cbn [mbind option_bind].
  rewrite E. split; [reflexivity|]. intros name. cbn [properties_list].
  pose proof (add_values_find l [] name ltac:(constructor)) as Hf. destruct (spec_find (add_values l []) name) as [e|].
  - destruct Hf as [(v & He & Hin)|Hf]; [|done]. apply Hl in Hin as (p & Hp & Hmatch). by exists p, v.
  - destruct Hf as [Hf _]. intros p v Hp. apply not_true_iff_false. intros Hmatch. apply (Hf v), Hl. by exists p.
Qed.
End lookup.

(** * The source files *)

(** Some match patterns and the properties of what they match. *)
Record hw_record := mk_record { matches : list bytes; data : list (bytes * bytes) }.
Definition print_line (l : bytes) : bytes := l ++ [newline].
Definition data_line (kv : bytes * bytes) : bytes := kv.1 ++ "="%char :: kv.2.
Definition print_record (r : hw_record) : bytes :=
  concat (print_line <$> matches r) ++ concat ((fun kv => print_line (data_line kv)) <$> data r) ++ [newline].
Definition print_file (rs : list hw_record) : bytes := concat (print_record <$> rs).
Definition line_ok (l : bytes) : Prop :=
  Forall (fun c => c <> "#"%char /\ c <> newline /\ c <> nul) l /\
  (exists l' c, l = l' ++ [c] /\ isspace c = false) /\ (length l < LINE_MAX - 1)%nat.
Definition match_ok (l : bytes) : Prop := line_ok l /\ head l <> Some " "%char.
Definition data_ok (kv : bytes * bytes) : Prop :=
  line_ok (data_line kv) /\ head kv.1 = Some " "%char /\ ("="%char ∉ kv.1) /\ kv.2 <> [].
Definition record_ok (r : hw_record) : Prop :=
  matches r <> [] /\ Forall match_ok (matches r) /\ Forall data_ok (data r).
Definition record_items (r : hw_record) : list item :=
  flat_map (fun kv : bytes * bytes => (fun m => (m, kv.1, kv.2)) <$> matches r) (data r).

Section text.
Context {P : Type} `{StringPool P}.
Implicit Types (x : hwtrie (P := P)) (st : import_state).

Lemma read_line_one l rest n :
  Forall (fun c => c <> newline) l -> (length l < n)%nat -> read_line n (l ++ newline :: rest) = (l ++ [newline], rest).
Proof.
  revert n. induction l as [|c l IH]; intros n Hl Hn; (destruct n as [|n]; [simpl in Hn; lia|]); cbn [app read_line].
  - done.
  - apply Forall_cons in Hl as [Hc Hl]. destruct (eqbP c newline); [done|]. rewrite IH by (done || simpl in Hn; lia). done.
Qed.
Lemma fgets_line l rest :
  Forall (fun c => c <> newline) l -> (length l < LINE_MAX - 1)%nat ->
  fgets LINE_MAX (l ++ newline :: rest) = Some (l ++ [newline], rest).
Proof.
  intros Hl Hn. unfold fgets. rewrite (proj2 (Nat.leb_gt _ _)) by lia.
  destruct (l ++ newline :: rest) as [|c f] eqn:E; [by destruct l|]. by rewrite <- E, read_line_one.
Qed.
Lemma strip_line_ok l : line_ok l -> strip_line (l ++ [newline]) = l.
Proof.
  intros (Hf & (l' & c & -> & Hc) & _). unfold strip_line. rewrite split_chr_None.
  - cbn [fst]. rewrite rev_app_distr. cbn [rev app skip_space]. change (isspace newline) with true. cbn iota.
    rewrite rev_app_distr. cbn [rev app skip_space]. rewrite Hc. cbn [rev].
    by rewrite rev_involutive.
  - intros Hin. rewrite Forall_forall in Hf. apply elem_of_app in Hin as [Hin|[E|?%not_elem_of_nil]%elem_of_cons]; [|done|done].
    by destruct (Hf _ Hin).
Qed.
Lemma import_lines_line fuel l rest s :
  Forall (fun c => c <> newline /\ c <> nul) l -> (length l < LINE_MAX - 1)%nat ->
  import_lines (S fuel) (print_line l ++ rest) s = import_lines fuel rest (import_hwdb_line (P := P) (l ++ [newline]) s).
Proof.
  intros Hl Hn. unfold print_line. rewrite <- app_assoc. cbn [app import_lines]. rewrite fgets_line; [|by eapply Forall_impl; [exact Hl|intros ? []]|done].
  rewrite until_nul_cstr; [done|]. unfold cstr. apply Forall_app. split; [by eapply Forall_impl; [exact Hl|intros ? []]|by repeat constructor].
Qed.

(** One line, in the states that matter. *)
Lemma line_ok_chars l : line_ok l -> Forall (fun c => c <> newline /\ c <> nul) l /\ (length l < LINE_MAX - 1)%nat.
Proof. intros (Hf & _ & Hl). split; [|done]. eapply Forall_impl; [exact Hf|]. by intros ? (? & ? & ?). Qed.
Lemma import_match l st ms x :
  match_ok l -> st = HW_MATCH \/ st = HW_NONE -> import_hwdb_line (l ++ [newline]) (st, ms, x) = (HW_MATCH, ms ++ [l], x).
Proof.
  intros [Hl Hhd] Hst. unfold import_hwdb_line. rewrite strip_line_ok by done.
  destruct Hl as (Hf & (l' & c & E & _) & _). destruct l as [|a l]; [by destruct l'|].
  apply Forall_cons in Hf as [(Ha & _) _]. cbn [app nth]. destruct (eqbP a "#"); [done|].
  destruct (eqbP a " ") as [->|]; [done|]. by destruct Hst as [-> | ->].
Qed.
Lemma import_data kv st ms x :
  data_ok kv -> st = HW_MATCH \/ st = HW_DATA ->
  import_hwdb_line (data_line kv ++ [newline]) (st, ms, x) =
    (HW_DATA, ms, fold_left (fun x m => insert m kv.1 kv.2 x) ms x).
Proof.
  intros (Hl & Hhd & Heq & Hv) Hst. unfold import_hwdb_line. rewrite strip_line_ok by done.
  assert (forall ms x, insert_data ms (data_line kv) x = fold_left (fun x m => insert m kv.1 kv.2 x) ms x) as Hins.
  { intros ms0 x0. unfold insert_data, data_line. rewrite split_chr_app by done. by destruct kv as [[|] [|]]. }
  rewrite Hins. clear Hl Heq Hins. destruct kv as [[|a k] v]; [done|]. injection Hhd as ->. cbn. by destruct Hst as [-> | ->].
Qed.
Lemma import_blank st ms x : st = HW_MATCH \/ st = HW_DATA -> import_hwdb_line [newline] (st, ms, x) = (HW_NONE, [], x).
Proof. by intros [-> | ->]. Qed.

Lemma import_matches l fuel rest st ms x :
  Forall match_ok l -> st = HW_MATCH \/ (st = HW_NONE /\ l <> []) -> (length l <= fuel)%nat ->
  import_lines fuel (concat (print_line <$> l) ++ rest) (st, ms, x) = import_lines (fuel - length l) rest (HW_MATCH, ms ++ l, x).
Proof.
  revert fuel st ms. induction l as [|m l IH]; intros fuel st ms Hl Hst Hf.
  { destruct Hst as [->|[_ ?]]; [|done]. simpl. by rewrite Nat.sub_0_r, app_nil_r. }
  apply Forall_cons in Hl as [Hm Hl]. destruct fuel as [|fuel]; [simpl in Hf; lia|]. rewrite fmap_cons. cbn [concat].
  rewrite <- app_assoc. destruct (line_ok_chars m) as [Hc Hlen]; [apply Hm|]. rewrite import_lines_line by done.
  rewrite import_match by (done || tauto). rewrite IH by (done || auto || simpl in Hf; lia). by rewrite <- app_assoc.
Qed.
Lemma import_datas l fuel rest st ms x :
  Forall data_ok l -> st = HW_MATCH \/ st = HW_DATA -> (length l <= fuel)%nat ->
  exists st', (st' = HW_MATCH \/ st' = HW_DATA) /\
  import_lines fuel (concat ((fun kv => print_line (data_line kv)) <$> l) ++ rest) (st, ms, x) =
    import_lines (fuel - length l) rest
      (st', ms, fold_left (fun x kv => fold_left (fun x m => insert m kv.1 kv.2 x) ms x) l x).
Proof.
  revert fuel st x. induction l as [|kv l IH]; intros fuel st x Hl Hst Hf.
  { exists st. split; [done|]. simpl. by rewrite Nat.sub_0_r. }
  apply Forall_cons in Hl as [Hkv Hl]. destruct fuel as [|fuel]; [simpl in Hf; lia|]. rewrite fmap_cons. cbn [concat].
  rewrite <- app_assoc. destruct (line_ok_chars (data_line kv)) as [Hc Hlen]; [apply Hkv|]. rewrite import_lines_line by done.
  rewrite import_data by done. apply IH; [done|by right|simpl in Hf; lia].
Qed.
Lemma insert_record ms ds x :
  fold_left (fun x kv => fold_left (fun x m => insert m kv.1 kv.2 x) ms x) ds x = insert_all (record_items (mk_record ms ds)) x.
Proof.
  revert x. unfold insert_all, record_items. cbn [matches data]. induction ds as [|[k v] ds IH]; intros x; [done|].
  cbn [fold_left flat_map]. rewrite fold_left_app, IH. f_equal. clear. revert x.
  induction ms as [|m ms IHm]; intros x; [done|]. rewrite fmap_cons. cbn [fold_left]. apply IHm.
Qed.
Lemma import_record r fuel rest x :
  record_ok r -> (length (matches r) + length (data r) < fuel)%nat ->
  import_lines fuel (print_record r ++ rest) (HW_NONE, [], x) =
    import_lines (fuel - S (length (matches r) + length (data r))) rest (HW_NONE, [], insert_all (record_items r) x).
Proof.
  intros (Hne & Hm & Hd) Hf. destruct r as [ms ds]. cbn [matches data] in *. unfold print_record. cbn [matches data].
  rewrite <- !app_assoc. rewrite import_matches by (done || auto || lia). rewrite app_nil_l.
  destruct (import_datas ds (fuel - length ms) ([newline] ++ rest) HW_MATCH ms x Hd) as (st' & Hst' & ->); [by left|lia|].
  destruct (fuel - length ms - length ds)%nat as [|fuel'] eqn:E; [lia|].
  change ([newline] ++ rest) with (print_line [] ++ rest).
  rewrite import_lines_line; [|by apply Forall_nil|unfold LINE_MAX; simpl; lia]. cbn [app].
  rewrite import_blank by done. rewrite insert_record. f_equal. lia.
Qed.
Lemma import_records rs fuel x :
  Forall record_ok rs -> (length (print_file rs) < fuel)%nat ->
  (import_lines fuel (print_file rs) (HW_NONE, [], x)).2 = insert_all (flat_map record_items rs) x.
Proof.
  revert fuel x. induction rs as [|r rs IH]; intros fuel x Hr Hf; [by destruct fuel|].
  apply Forall_cons in Hr as [H1 Hr]. unfold print_file in *. rewrite fmap_cons in *. cbn [concat flat_map] in *.
  rewrite length_app in Hf.
  assert (forall l : list bytes, length l <= length (concat (print_line <$> l)))%nat as Hlines.
  { induction l as [|a l IHl]; [done|]. rewrite fmap_cons. cbn [concat length]. unfold print_line at 1.
    rewrite !length_app. simpl. lia. }
  assert (length (matches r) + length (data r) < length (print_record r))%nat as Hlen.
  { unfold print_record. rewrite !length_app. cbn [length]. specialize (Hlines (matches r)) as L1.
    specialize (Hlines (data_line <$> data r)) as L2. rewrite length_fmap, <- list_fmap_compose in L2.
    unfold compose in L2. lia. }
  rewrite import_record by (done || lia). unfold insert_all. rewrite fold_left_app. apply IH; [done|]. lia.
Qed.

(** C35: a source file of the hardware database is read as what it says: the
    records of a file, each with match patterns and properties, insert for
    every property and every pattern of its record one value into the trie,
    in the order of the file. *)
Theorem import_file_print rs x :
  Forall record_ok rs -> import_file (print_file rs) x = insert_all (flat_map record_items rs) x.
Proof. intros Hr. unfold import_file. apply import_records; [done|lia]. Qed.

(** ** From the source files to the lookup *)

Lemma record_valid r : record_ok r -> Forall (fun i : item => let '(p, k, v) := i in valid_item p k v) (record_items r).
Proof.
  intros (_ & Hm & Hd). apply Forall_forall. intros [[p k] v] Hi. unfold record_items in Hi.
  apply list_elem_of_In, in_flat_map in Hi as ([k' v'] & Hkv & Hi). apply list_elem_of_In in Hkv, Hi.
  apply list_elem_of_fmap in Hi as (m & [= -> -> ->] & Hin). rewrite Forall_forall in Hm. rewrite Forall_forall in Hd.
  destruct (Hm m Hin) as [(Hc & _ & Hl) _]. destruct (Hd _ Hkv) as [(Hc2 & _) _]. unfold data_line in Hc2.
  cbn [fst snd] in *. apply Forall_app in Hc2 as [Hk [_ Hv]%Forall_cons].
  assert (forall l : bytes, Forall (fun c => c <> "#"%char /\ c <> newline /\ c <> nul) l -> cstr l) as Hcstr.
  { intros l Hl'. eapply Forall_impl; [exact Hl'|]. by intros ? (? & ? & ?). }
  split_and!; auto.
Qed.
Lemma import_all fs x :
  Forall (Forall record_ok) fs ->
  fold_left (fun x f => import_file f x) (print_file <$> fs) x = insert_all (flat_map record_items (concat fs)) x.
Proof.
  intros Hfs. revert x. induction Hfs as [|rs fs Hrs _ IH]; intros x; [done|]. rewrite fmap_cons. cbn [fold_left concat].
  unfold import_file at 2. rewrite import_records by (done || lia). rewrite IH, flat_map_app. unfold insert_all.
  by rewrite fold_left_app.
Qed.
End text.

(** C1: the hardware database answers as its source files say: after the files
    were compiled to the binary file, looking up a modalias without glob
    characters finds a property exactly when some match pattern that has the
    property matches (literally up to the first glob character, by fnmatch
    from there), with the value that was set last for such a pattern; the file
    is accepted, and the lookup reads nothing outside of it. *)
Theorem hwdb_lookup_exact `{Glob} (version : Z) (fs : list (list hw_record)) (modalias : bytes) :
  let file := hwdb_update (P := Strbuf.Strbuf.strbuf) version (print_file <$> fs) in
  Forall (Forall record_ok) fs -> Z.of_nat (length file) < 2 ^ 63 -> Forall (fun c => isglob c = false) modalias ->
  exists db db', udev_hwdb_new file = Some db /\ udev_hwdb_get_properties_list_entry db modalias = Some db' /\
    found_exactly (fun p k v => last_value (flat_map record_items (concat fs)) p k = Some v) modalias (properties_list db').
Proof.
  intros file Hfs Hsmall Hmod. unfold file, hwdb_update in *. rewrite import_all in * by done.
  destruct (insert_all_ok (P := Strbuf.Strbuf.strbuf) (flat_map record_items (concat fs))) as (a & (Hp & Hr & Hwf) & Hhas).
  { apply Forall_forall. intros i Hi. apply list_elem_of_In, in_flat_map in Hi as (r & Hin & Hi). apply list_elem_of_In in Hin, Hi.
    assert (record_ok r) as Hrok.
    { apply list_elem_of_In, in_concat in Hin as (rs & H1 & H2). apply list_elem_of_In in H1, H2.
      rewrite Forall_forall in Hfs. specialize (Hfs _ H1). rewrite Forall_forall in Hfs. by apply Hfs. }
    pose proof (record_valid r Hrok) as Hv. rewrite Forall_forall in Hv. by apply Hv. }
  destruct (insert_all _ trie_new) as [t n]. cbn [fst snd] in *.
  destruct (hwdb_lookup_ok version (t <| strings := pool_complete (strings t) |>) n a modalias) as (db & db' & H1 & H2 & H3); try done.
  { eapply rep_grows; [|exact Hr]. intros off w Hw. by apply pool_complete_has. }
  exists db, db'. split_and!; [done|done|]. intros name. specialize (H3 name).
  destruct (spec_find _ name) as [e|].
  - destruct H3 as (p & v & E1 & E2 & E3). exists p, v. split_and!; [done|by apply Hhas|done].
  - intros p v Hv. apply (H3 p v). by apply Hhas.
Qed.

(** ** An example *)

Definition example_record : hw_record := mk_record
  [("usb:v1234*" : bytes); ("usb:v1234p5" : bytes)]
  [((" ID_VENDOR" : bytes), ("Acme" : bytes)); ((" ID_MODEL" : bytes), ("Thing" : bytes))].
Lemma example_record_ok : record_ok example_record.
Proof.
  assert (forall l l' c, l = l' ++ [c] -> isspace c = false -> (length l <= 20)%nat ->
    bool_decide (Forall (fun c => c <> "#"%char /\ c <> newline /\ c <> nul) l) = true -> line_ok l) as Hok.
  { intros l l' c -> Hc Hl Hf. split; [by apply bool_decide_eq_true in Hf|]. split; [by exists l', c|]. unfold LINE_MAX. lia. }
  split; [done|]. split.
  { constructor; [|constructor; [|constructor]]; (split; [|done]).
  - by apply (Hok _ "usb:v1234" "*"%char); [| |simpl; lia|].
  - by apply (Hok _ "usb:v1234p" "5"%char); [| |simpl; lia|]. }
  assert (forall k : bytes, bool_decide ("="%char ∈ k) = false -> "="%char ∉ k) as Heq by (intros k; apply bool_decide_eq_false).
  constructor; [|constructor; [|constructor]]; (split; [|split; [done|split; [by apply Heq|done]]]).
  - by apply (Hok _ " ID_VENDOR=Acm" "e"%char); [| |simpl; lia|].
  - by apply (Hok _ " ID_MODEL=Thin" "g"%char); [| |simpl; lia|].
Qed.
Lemma import_file_print_witness :
  Forall record_ok [example_record] /\
  import_file (P := Strbuf.Strbuf.strbuf) (print_file [example_record]) trie_new =
    insert_all (flat_map record_items [example_record]) trie_new.
Proof.
  assert (Forall record_ok [example_record]) as Hr by (constructor; [exact example_record_ok|constructor]).
  split; [exact Hr|]. exact (import_file_print [example_record] trie_new Hr).
Defined.
Lemma hwdb_lookup_exact_witness :
  let file := hwdb_update (P := Strbuf.Strbuf.strbuf) 208 (print_file <$> [[example_record]]) in
  Forall (Forall record_ok) [[example_record]] /\ Z.of_nat (length file) < 2 ^ 63 /\
  exists db db', udev_hwdb_new file = Some db /\
    udev_hwdb_get_properties_list_entry (H := star_glob) db "usb:v1234p5" = Some db' /\
    found_exactly (G := star_glob) (fun p k v => last_value (flat_map record_items (concat [[example_record]])) p k = Some v)
      "usb:v1234p5" (properties_list db').
Proof.
  assert (Forall (Forall record_ok) [[example_record]]) as Hr
    by (constructor; [constructor; [exact example_record_ok|constructor]|constructor]).
  intros file. assert (Z.of_nat (length file) < 2 ^ 63) as Hs by (vm_compute; reflexivity).
  split; [exact Hr|]. split; [exact Hs|].
  apply (@hwdb_lookup_exact star_glob 208 [[example_record]] "usb:v1234p5" Hr Hs). repeat constructor.
Defined.
End HwdbProps.
