(* ===== verification/Monitor.v ===== *)
(** lib/libudev-monitor.c: the monitor, which gets and sends devices over a
    netlink socket, with its filter; and the hash of the strings in the filter,
    shared/MurmurHash2.c and lib/libudev-util.c.  The filter is written twice:
    a program for the kernel's packet filter, which sees only hashes in the
    header of a message, and [passes_filter] in the receiver.  The socket is
    the class [Netlink], the kernel's interpreter the class [PacketFilter]. *)

From Stdlib Require Import ZArith Lia Ascii.
From stdpp Require Import prelude gmap strings sorting.
From S2P Require Import Prelude Utils System UdevList Device DeviceProofs DeviceProps.
Import Mem Entries Device.

Module Monitor.

(** * Hashes *)

(** Words are read in the byte order of the machine, little endian here. *)
Definition murmur_m : Z := 0x5bd1e995.
Fixpoint murmur_words (h : Z) (data : bytes) : Z * bytes :=
  match data with
  | a :: b :: c :: d :: data' =>
      let k := le_val [a; b; c; d] in
      let k := u32 (k * murmur_m) in
      let k := Z.lxor k (Z.shiftr k 24) in
      let k := u32 (k * murmur_m) in
      let h := u32 (h * murmur_m) in
      murmur_words (Z.lxor h k) data'
  | _ => (h, data)
  end.
(** The cases of the switch fall through. *)
Definition murmur_tail (h : Z) (data : bytes) : Z :=
  let x1 h a := u32 (Z.lxor h (code a) * murmur_m) in
  let x2 h b := Z.lxor h (Z.shiftl (code b) 8) in
  let x3 h c := Z.lxor h (Z.shiftl (code c) 16) in
  match data with
  | [a; b; c] => x1 (x2 (x3 h c) b) a
  | [a; b] => x1 (x2 h b) a
  | [a] => x1 h a
  | _ => h
  end.
Definition MurmurHash2 (key : bytes) (len seed : Z) : Z :=
  let h := Z.lxor seed (u32 len) in
  let '(h, data) := murmur_words h key in
  let h := murmur_tail h data in
  let h := Z.lxor h (Z.shiftr h 13) in
  let h := u32 (h * murmur_m) in
  Z.lxor h (Z.shiftr h 15).
Definition util_string_hash32 (str : bytes) : Z := MurmurHash2 str (Z.of_nat (length str)) 0.
Definition util_string_bloom64 (str : bytes) : Z :=
  let hash := util_string_hash32 str in
  let bit i := Z.shiftl 1 (Z.land (Z.shiftr hash i) 63) in
  Z.lor (Z.lor (Z.lor (Z.lor 0 (bit 0)) (bit 6)) (bit 12)) (bit 18).

(** * The header of a message *)

Definition UDEV_MONITOR_NONE : Z := 0.
Definition UDEV_MONITOR_KERNEL : Z := 1.
Definition UDEV_MONITOR_UDEV : Z := 2.
Definition UDEV_MONITOR_MAGIC : Z := 0xfeedcafe.
(** The value whose bytes in memory are those of [z], most significant first. *)
Definition htonl (z : Z) : Z := le_val (rev (le_bytes 4 z)).

Record netlink_header := mk_header {
  h_magic : Z;
  h_header_size : Z;
  h_properties_off : Z;
  h_properties_len : Z;
  h_filter_subsystem_hash : Z;
  h_filter_devtype_hash : Z;
  h_filter_tag_bloom_hi : Z;
  h_filter_tag_bloom_lo : Z
}.
Definition header_prefix : bytes := ("libudev" : bytes) ++ [nul].
Definition netlink_header_size : nat := 40.
Definition header_bytes (h : netlink_header) : bytes :=
  header_prefix ++ mjoin (le_bytes 4 <$>
    [h_magic h; h_header_size h; h_properties_off h; h_properties_len h; h_filter_subsystem_hash h;
     h_filter_devtype_hash h; h_filter_tag_bloom_hi h; h_filter_tag_bloom_lo h]).
(** The offsets of members. *)
Definition off_magic : Z := 8.
Definition off_properties_off : Z := 16.
Definition off_filter_subsystem_hash : Z := 24.
Definition off_filter_devtype_hash : Z := 28.
Definition off_filter_tag_bloom_hi : Z := 32.
Definition off_filter_tag_bloom_lo : Z := 36.
Definition word_at (buf : bytes) (off : Z) : Z := le_val (take 4 (drop (Z.to_nat off) buf)).

(** * Programs of the packet filter *)

(** <linux/filter.h>: the instruction, and the codes that are used. *)
Record sock_filter := mk_sock_filter { sf_code : Z; sf_jt : Z; sf_jf : Z; sf_k : Z }.
Definition LD_W_ABS : Z := 0x20.
Definition JMP_JEQ_K : Z := 0x15.
Definition ALU_AND_K : Z := 0x54.
Definition RET_K : Z := 0x06.
(** The array [ins]. *)
Definition INS_SIZE : nat := 512.

(** The instructions written so far; [None] is a write behind the array. *)
Abbreviation insns := (list sock_filter).
Definition bpf_stmt (inss : insns) (c data : Z) : option insns :=
  if (length inss <? INS_SIZE)%nat then Some (inss ++ [mk_sock_filter c 0 0 data]) else None.
(** The targets are bytes in the instruction. *)
Definition bpf_jmp (inss : insns) (c data jt jf : Z) : option insns :=
  if (length inss <? INS_SIZE)%nat then Some (inss ++ [mk_sock_filter c (u8 jt) (u8 jf) data]) else None.

Fixpoint tag_matches_add (tags : list entry) (tag_matches : Z) (inss : insns) : option insns :=
  match tags with
  | [] => Some inss
  | e :: tags' =>
      let tag_bloom_bits := util_string_bloom64 (e_name e) in
      let tag_bloom_hi := u32 (Z.shiftr tag_bloom_bits 32) in
      let tag_bloom_lo := Z.land tag_bloom_bits 0xffffffff in
      inss ← bpf_stmt inss LD_W_ABS off_filter_tag_bloom_hi;
      inss ← bpf_stmt inss ALU_AND_K tag_bloom_hi;
      inss ← bpf_jmp inss JMP_JEQ_K tag_bloom_hi 0 3;
      inss ← bpf_stmt inss LD_W_ABS off_filter_tag_bloom_lo;
      inss ← bpf_stmt inss ALU_AND_K tag_bloom_lo;
      let tag_matches := tag_matches - 1 in
      inss ← bpf_jmp inss JMP_JEQ_K tag_bloom_lo (1 + tag_matches * 6) 0;
      tag_matches_add tags' tag_matches inss
  end.
Definition E2BIG : Z := 7.
(** [inl] is the error that ends the function. *)
Fixpoint subsystem_matches_add (subs : list entry) (inss : insns) : option (Z + insns) :=
  match subs with
  | [] => Some (inr inss)
  | e :: subs' =>
      let hash := util_string_hash32 (e_name e) in
      inss ← bpf_stmt inss LD_W_ABS off_filter_subsystem_hash;
      inss ← match e_value e with
             | None => bpf_jmp inss JMP_JEQ_K hash 0 1
             | Some v =>
                 inss ← bpf_jmp inss JMP_JEQ_K hash 0 3;
                 inss ← bpf_stmt inss LD_W_ABS off_filter_devtype_hash;
                 bpf_jmp inss JMP_JEQ_K (util_string_hash32 v) 0 1
             end;
      inss ← bpf_stmt inss RET_K 0xffffffff;
      if (INS_SIZE <=? length inss + 1)%nat then Some (inl (- E2BIG)) else subsystem_matches_add subs' inss
  end.
(** The part of [udev_monitor_filter_update] that builds the program. *)
Definition filter_program (subs tags : list entry) : option (Z + insns) :=
  inss ← bpf_stmt [] LD_W_ABS off_magic;
  inss ← bpf_jmp inss JMP_JEQ_K UDEV_MONITOR_MAGIC 1 0;
  inss ← bpf_stmt inss RET_K 0xffffffff;
  inss ← match tags with
         | [] => Some inss
         | _ =>
             inss ← tag_matches_add tags (Z.of_nat (length tags)) inss;
             bpf_stmt inss RET_K 0
         end;
  r ← match subs with
      | [] => Some (inr inss)
      | _ =>
          r ← subsystem_matches_add subs inss;
          match r with
          | inl err => Some (inl err)
          | inr inss => inr <$> bpf_stmt inss RET_K 0
          end
      end;
  match r with
  | inl err => Some (inl err)
  | inr inss => inr <$> bpf_stmt inss RET_K 0xffffffff
  end.

(** ** The kernel *)

(** A word of the packet, most significant byte first. *)
Definition packet_word (pkt : bytes) (k : Z) : Z := le_val (rev (take 4 (drop (Z.to_nat k) pkt))).
(** Documentation/networking/filter: [bpf_run prog pkt pc A] is what the
    program returns when it goes on at [pc] with [A] in the accumulator: the
    number of bytes of the packet to keep, 0 drops it.  A load behind the packet
    ends the program with 0. *)
Class PacketFilter := {
  bpf_run : insns -> bytes -> nat -> Z -> Z;
  bpf_run_ld p pkt pc A jt jf k :
    p !! pc = Some (mk_sock_filter LD_W_ABS jt jf k) ->
    bpf_run p pkt pc A =
      if k + 4 <=? Z.of_nat (length pkt) then bpf_run p pkt (S pc) (packet_word pkt k) else 0;
  bpf_run_and p pkt pc A jt jf k :
    p !! pc = Some (mk_sock_filter ALU_AND_K jt jf k) -> bpf_run p pkt pc A = bpf_run p pkt (S pc) (Z.land A k);
  bpf_run_jeq p pkt pc A jt jf k :
    p !! pc = Some (mk_sock_filter JMP_JEQ_K jt jf k) ->
    bpf_run p pkt pc A = bpf_run p pkt (S pc + Z.to_nat (if A =? k then jt else jf)) A;
  bpf_run_ret p pkt pc A jt jf k :
    p !! pc = Some (mk_sock_filter RET_K jt jf k) -> bpf_run p pkt pc A = k
}.

(** * The monitor *)

Record sockaddr_nl := mk_sockaddr { nl_pid : Z; nl_groups : Z }.
(** Without [udev], [refcount] and [addrlen]. *)
Record udev_monitor := mk_monitor {
  sock : Z;
  snl : sockaddr_nl;
  snl_trusted_sender : sockaddr_nl;
  snl_destination : sockaddr_nl;
  filter_subsystem_list : list entry;
  filter_tag_list : list entry;
  bound : bool
}.
#[export] Instance sockaddr_nl_eta : Eta sockaddr_nl := fun a => mk_sockaddr (nl_pid a) (nl_groups a).
#[export] Instance udev_monitor_eta : Eta udev_monitor := fun m =>
  mk_monitor (sock m) (snl m) (snl_trusted_sender m) (snl_destination m) (filter_subsystem_list m)
    (filter_tag_list m) (bound m).

(** What [recvmsg] returns: the data, the address of the sender, and the type
    and the user of the control message, when there is one. *)
Record nl_message := mk_message { m_data : bytes; m_from : sockaddr_nl; m_cred : option (Z * Z) }.
(** The system calls on sockets; those that can fail return 0 or [-errno]. *)
Class Netlink := {
  net : Type;
  nl_socket : state net Z;
  nl_attach : Z -> insns -> state net Z;
  nl_bind : Z -> sockaddr_nl -> state net Z;
  nl_getsockname : Z -> state net (option sockaddr_nl);
  nl_passcred : Z -> state net unit;
  nl_rcvbufforce : Z -> Z -> state net Z;
  nl_close : Z -> state net Z;
  nl_recvmsg : Z -> state net (option nl_message);
  nl_poll : Z -> state net bool;
  nl_sendmsg : Z -> sockaddr_nl -> bytes -> state net Z
}.

Section monitor.
Context `{SY : System} `{NL : Netlink}.
Implicit Types m : udev_monitor.
#[local] Abbreviation self := udev_device_get_properties_list_entry.

Definition udev_monitor_new (fd : Z) (addr : sockaddr_nl) : udev_monitor :=
  mk_monitor fd addr (mk_sockaddr 0 0) (mk_sockaddr 0 UDEV_MONITOR_UDEV) [] [] false.
(** The group, or [None] for an unknown name; [devtmpfs] is what
    [udev_has_devtmpfs] finds. *)
Definition monitor_group (devtmpfs : bool) (name : option bytes) : state world (option Z) :=
  match name with
  | None => mret (Some UDEV_MONITOR_NONE)
  | Some name =>
      if str_eq (Some name) (Some ("udev" : bytes)) then
        st ← sys_stat (UDEVRUNDIR ++ "/control");
        mret (Some (if negb (bool_decide (is_Some st)) && negb devtmpfs then UDEV_MONITOR_NONE else UDEV_MONITOR_UDEV))
      else if str_eq (Some name) (Some ("kernel" : bytes)) then mret (Some UDEV_MONITOR_KERNEL)
      else mret None
  end.
Definition udev_monitor_new_from_netlink_fd (devtmpfs : bool) (name : option bytes) (fd : Z) :
    state (net * world) (option udev_monitor) :=
  fun '(n, w) =>
    let '(group, w) := monitor_group devtmpfs name w in
    match group with
    | None => (None, (n, w))
    | Some group =>
        let addr := mk_sockaddr 0 group in
        if fd <? 0 then
          let '(s, n) := nl_socket n in
          ((if s =? -1 then None else Some (udev_monitor_new s addr)), (n, w))
        else (Some ((udev_monitor_new fd addr) <| bound := true |>), (n, w))
    end.

Definition udev_monitor_filter_add_match_subsystem_devtype m (subsystem devtype : option bytes) : Z * udev_monitor :=
  match subsystem with
  | None => (- UdevList.EINVAL, m)
  | Some s => (0, m <| filter_subsystem_list := spec_add false (filter_subsystem_list m) s devtype |>)
  end.
Definition udev_monitor_filter_add_match_tag m (tag : option bytes) : Z * udev_monitor :=
  match tag with
  | None => (- UdevList.EINVAL, m)
  | Some t => (0, m <| filter_tag_list := spec_add true (filter_tag_list m) t None |>)
  end.
(** [None] when the program is written behind the array. *)
Definition udev_monitor_filter_update m : state net (option Z) :=
  match filter_subsystem_list m, filter_tag_list m with
  | [], [] => mret (Some 0)
  | subs, tags =>
      match filter_program subs tags with
      | None => mret None
      | Some (inl err) => mret (Some err)
      | Some (inr filter) => Some <$> nl_attach (sock m) filter
      end
  end.
(** The tags stay in the monitor. *)
Definition udev_monitor_filter_remove m : state net (Z * udev_monitor) :=
  r ← nl_attach (sock m) [];
  mret (r, m <| filter_subsystem_list := [] |>).
Definition udev_monitor_allow_unicast_sender m sender : udev_monitor :=
  m <| snl_trusted_sender := (snl_trusted_sender m) <| nl_pid := nl_pid (snl sender) |> |>.
Definition udev_monitor_enable_receiving m : state net (option (Z * udev_monitor)) :=
  f ← udev_monitor_filter_update m;
  match f with
  | None => mret None
  | Some _ =>
      err ← (if bound m then mret 0 else nl_bind (sock m) (snl m));
      let m := if err =? 0 then m <| bound := true |> else m in
      if err <? 0 then mret (Some (err, m))
      else
        a ← nl_getsockname (sock m);
        let m := match a with Some a => m <| snl := (snl m) <| nl_pid := nl_pid a |> |> | None => m end in
        nl_passcred (sock m) ;;
        mret (Some (0, m))
  end.
Definition udev_monitor_set_receive_buffer_size m (size : Z) : state net Z := nl_rcvbufforce (sock m) size.
Definition udev_monitor_disconnect m : state net (Z * udev_monitor) :=
  err ← nl_close (sock m);
  mret (err, m <| sock := -1 |>).

(** ** The filter in the receiver *)

Fixpoint passes_subsystem (subs : list entry) : D bool :=
  match subs with
  | [] => mret false
  | e :: subs' =>
      dsubsys ← udev_device_get_subsystem self;
      if str_eq dsubsys (Some (e_name e)) then
        match e_value e with
        | None => mret true
        | Some devtype =>
            ddevtype ← udev_device_get_devtype;
            match ddevtype with
            | None => passes_subsystem subs'
            | Some t => if str_eq (Some t) (Some devtype) then mret true else passes_subsystem subs'
            end
        end
      else passes_subsystem subs'
  end.
Fixpoint passes_tag (tags : list entry) : D bool :=
  match tags with
  | [] => mret false
  | e :: tags' => has ← udev_device_has_tag (e_name e); if (has : bool) then mret true else passes_tag tags'
  end.
Definition passes_filter m : D bool :=
  ok ← (match filter_subsystem_list m with [] => mret true | subs => passes_subsystem subs end);
  if (ok : bool) then match filter_tag_list m with [] => mret true | tags => passes_tag tags end
  else mret false.

(** ** Sending *)

Definition tags_bloom (es : list entry) : Z :=
  fold_left (fun bits e => Z.lor bits (util_string_bloom64 (e_name e))) es 0.
(** The header; a device without subsystem is hashed at NULL. *)
Definition monitor_header (blen : nat) : D (option netlink_header) :=
  val ← udev_device_get_subsystem self;
  match val with
  | None => mret None
  | Some subsystem =>
      devtype ← udev_device_get_devtype;
      es ← udev_device_get_tags_list_entry;
      let bits := tags_bloom es in
      mret (Some {|
        h_magic := htonl UDEV_MONITOR_MAGIC;
        h_header_size := Z.of_nat netlink_header_size;
        h_properties_off := Z.of_nat netlink_header_size;
        h_properties_len := Z.of_nat blen;
        h_filter_subsystem_hash := htonl (util_string_hash32 subsystem);
        h_filter_devtype_hash := match devtype with Some v => htonl (util_string_hash32 v) | None => 0 end;
        h_filter_tag_bloom_hi := if 0 <? bits then htonl (u32 (Z.shiftr bits 32)) else 0;
        h_filter_tag_bloom_lo := if 0 <? bits then htonl (Z.land bits 0xffffffff) else 0 |})
  end.
(** The packet: -EINVAL, or the bytes; [None] is the hash of NULL. *)
Definition monitor_packet : D (option (Z + bytes)) :=
  buf ← udev_device_get_properties_monitor_buf;
  match buf with
  | None => mret (Some (inl (- UdevList.EINVAL)))
  | Some buf =>
      if (length buf <? 32)%nat then mret (Some (inl (- UdevList.EINVAL)))
      else h ← monitor_header (length buf); mret ((fun h => inr (header_bytes h ++ buf)) <$> h)
  end.
Definition udev_monitor_send_device m (destination : option udev_monitor) (d : udev_device) :
    state (net * world) (option Z * udev_device) :=
  fun '(n, w) =>
    let '(pkt, (w, d)) := monitor_packet (w, d) in
    match pkt with
    | None => ((None, d), (n, w))
    | Some (inl err) => ((Some err, d), (n, w))
    | Some (inr pkt) =>
        let dst := match destination with Some to => snl to | None => snl_destination m end in
        let '(count, n) := nl_sendmsg (sock m) dst pkt n in
        ((Some count, d), (n, w))
    end.

(** ** Receiving *)

Definition SCM_CREDENTIALS : Z := 2.
Definition BUF_SIZE : nat := Z.to_nat 8192.
(** The tests on the length and the sender. *)
Definition message_trusted m (msg : nl_message) : bool :=
  let buflen := length (m_data msg) in
  let from := m_from msg in
  (32 <=? buflen)%nat && (buflen <? BUF_SIZE)%nat &&
  (if nl_groups from =? 0 then
     negb (nl_pid (snl_trusted_sender m) =? 0) && (nl_pid from =? nl_pid (snl_trusted_sender m))
   else if nl_groups from =? UDEV_MONITOR_KERNEL then nl_pid from <=? 0 else true) &&
  match m_cred msg with Some (ty, uid) => (ty =? SCM_CREDENTIALS) && (uid =? 0) | None => false end.

(** [strlen]; [None] when it leaves the buffer. *)
Definition string_at (buf : bytes) (pos : nat) : option bytes :=
  if decide (nul ∈ drop pos buf) then Some (until_nul (drop pos buf)) else None.
(** Where the properties start: an error is [inl]. *)
Definition message_start (buf : bytes) (buflen : nat) : option (unit + (bool * Z)) :=
  if bool_decide (take 8 buf = header_prefix) then
    if negb (word_at buf off_magic =? htonl UDEV_MONITOR_MAGIC) then Some (inl tt)
    else
      let off := word_at buf off_properties_off in
      if Z.of_nat buflen <? u32 (off + 32) then Some (inl tt) else Some (inr (true, off))
  else
    s ← string_at buf 0;
    let bufpos := (length s + 1)%nat in
    if (bufpos <? 5)%nat || (buflen <=? bufpos)%nat then Some (inl tt)
    else match strstr s "@/" with
         | None => Some (inl tt)
         | Some _ => Some (inr (false, Z.of_nat bufpos))
         end.
(** The loop over the properties; the fuel is the length of the buffer. *)
Fixpoint properties_parse (fuel : nat) (buf : bytes) (buflen bufpos : nat) : D (option unit) :=
  match fuel with
  | O => mret (Some tt)
  | S fuel' =>
      if (bufpos <? buflen)%nat then
        match string_at buf bufpos with
        | None => mret None
        | Some [] => mret (Some tt)
        | Some key =>
            udev_device_add_property_from_string_parse key ;;
            properties_parse fuel' buf buflen (bufpos + length key + 1)
        end
      else mret (Some tt)
  end.
(** What is made of a message that is trusted. *)
Inductive received := RNull | ROverread | RFiltered | RDevice.
Definition message_device m (buf : bytes) (buflen : nat) : D received :=
  match message_start buf buflen with
  | None => mret ROverread
  | Some (inl _) => mret RNull
  | Some (inr (initialized, bufpos)) =>
      (if (initialized : bool) then udev_device_set_is_initialized else mret tt) ;;
      udev_device_set_info_loaded ;;
      r ← (if bufpos <? Z.of_nat buflen then properties_parse (length buf) buf buflen (Z.to_nat bufpos)
           else mret (Some tt));
      match r with
      | None => mret ROverread
      | Some _ =>
          fin ← udev_device_add_property_from_string_parse_finish;
          if fin <? 0 then mret RNull
          else
            ok ← passes_filter m;
            mret (if (ok : bool) then RDevice else RFiltered)
      end
  end.
(** [buf] is the array on the stack, which keeps what it held behind the
    message.  The result is [None] when a string is read behind it, and [inl]
    when the fuel for the messages that are skipped is not enough. *)
Fixpoint udev_monitor_receive_device (fuel : nat) m (buf : bytes) :
    state (net * world) (option (unit + option udev_device)) :=
  fun '(n, w) =>
  match fuel with
  | O => (Some (inl tt), (n, w))
  | S fuel' =>
      let '(msg, n) := nl_recvmsg (sock m) n in
      match msg with
      | None => (Some (inr None), (n, w))
      | Some msg =>
          if message_trusted m msg then
            let buflen := length (m_data msg) in
            let buf := m_data msg ++ drop buflen buf in
            let '(r, (w, d)) := message_device m buf buflen (w, udev_device_new) in
            match r with
            | ROverread => (None, (n, w))
            | RNull => (Some (inr None), (n, w))
            | RDevice => (Some (inr (Some d)), (n, w))
            | RFiltered =>
                let '(more, n) := nl_poll (sock m) n in
                if (more : bool) then udev_monitor_receive_device fuel' m buf (n, w)
                else (Some (inr None), (n, w))
            end
          else (Some (inr None), (n, w))
      end
  end.
End monitor.
End Monitor.
