(* ===== verification/MonitorFilter.v ===== *)
(** The program that a monitor attaches to its socket: what it is, what the
    kernel makes of a message with it, and that the kernel drops no message
    that [passes_filter] would let through. *)

From Stdlib Require Import ZArith Lia Ascii.
From stdpp Require Import prelude gmap strings sorting.
From S2P Require Import Prelude Utils System UdevList Device DeviceProofs DeviceProps Monitor.
Import Mem Entries EntryFacts Device DeviceProofs DeviceProps Monitor.

Module MonitorFilter.

(** * Hashes and masks *)

Lemma bloom_bit i h : 0 <= Z.shiftl 1 (Z.land (Z.shiftr h i) 63) < 2 ^ 64.
Proof.
  change 63 with (Z.ones 6). rewrite Z.land_ones by lia. pose proof (Z.mod_pos_bound (Z.shiftr h i) (2 ^ 6) ltac:(lia)) as H.
  rewrite Z.shiftl_mul_pow2, Z.mul_1_l by lia. split; [lia|]. apply Z.pow_lt_mono_r; lia.
Qed.
Lemma lor_range n a b : 0 <= n -> 0 <= a < 2 ^ n -> 0 <= b < 2 ^ n -> 0 <= Z.lor a b < 2 ^ n.
Proof.
  intros Hn Ha Hb. assert (Z.lor a b = Z.lor a b mod 2 ^ n) as ->; [|apply Z.mod_pos_bound; lia].
  rewrite <- Z.land_ones, Z.land_lor_distr_l, !Z.land_ones, !Z.mod_small by lia. done.
Qed.
Lemma bloom64_range s : 0 <= util_string_bloom64 s < 2 ^ 64.
Proof. unfold util_string_bloom64. repeat (apply lor_range; [lia| |apply bloom_bit]). lia. Qed.

Lemma hash32_range s : 0 <= util_string_hash32 s < 2 ^ 32.
Proof.
  unfold util_string_hash32, MurmurHash2. destruct (murmur_words _ _) as [h data]. set (x := u32 _).
  pose proof (wrap_range 32 (Z.lxor (murmur_tail h data) (Z.shiftr (murmur_tail h data) 13) * murmur_m) ltac:(lia)) as Hx.
  fold x in Hx. assert (0 <= Z.shiftr x 15 < 2 ^ 32) as Hs.
  { rewrite Z.shiftr_div_pow2 by lia. split; [apply Z.div_pos; lia|]. apply Z.div_lt_upper_bound; lia. }
  assert (Z.lxor x (Z.shiftr x 15) = Z.lxor x (Z.shiftr x 15) mod 2 ^ 32) as ->; [|apply Z.mod_pos_bound; lia].
  apply Z.bits_inj'. intros i Hi. destruct (Z.ltb_spec i 32).
  - by rewrite Z.mod_pow2_bits_low.
  - rewrite Z.mod_pow2_bits_high by lia. rewrite Z.lxor_spec.
    by rewrite <- (Z.mod_small x (2 ^ 32)), <- (Z.mod_small (Z.shiftr (x mod 2 ^ 32) 15) (2 ^ 32)), !Z.mod_pow2_bits_high by (rewrite ?Z.mod_small; lia).
Qed.

(** The bits of [b] are set in [a]. *)
Definition subset (b a : Z) : Prop := Z.land a b = b.
#[export] Instance subset_dec b a : Decision (subset b a) := decide (Z.land a b = b).
Lemma subset_bits b a : subset b a <-> forall i, Z.testbit b i = true -> Z.testbit a i = true.
Proof.
  unfold subset. split.
  - intros H i Hi. rewrite <- H, Z.land_spec in Hi. by apply andb_prop in Hi as [? _].
  - intros H. apply Z.bits_inj. intros i. rewrite Z.land_spec.
    destruct (Z.testbit b i) eqn:E; [|by rewrite andb_false_r]. by rewrite (H i E).
Qed.
Lemma subset_halves b a : 0 <= b < 2 ^ 64 ->
  subset b a <-> subset (u32 (Z.shiftr b 32)) (u32 (Z.shiftr a 32)) /\ subset (Z.land b 0xffffffff) (Z.land a 0xffffffff).
Proof.
  intros Hb. change 0xffffffff with (Z.ones 32). unfold wrap. rewrite <- !Z.land_ones by lia. rewrite !subset_bits. split.
  - intros H. split; intros i; rewrite !Z.land_spec; intros [Hi Hm]%andb_prop; rewrite Hm, andb_true_r.
    + destruct (Z.ltb_spec i 0); [by rewrite Z.testbit_neg_r in Hi by lia|].
      rewrite Z.shiftr_spec in * by lia. by apply H.
    + by apply H.
  - intros [H1 H2] i Hi. destruct (Z.ltb_spec i 0); [by rewrite Z.testbit_neg_r in Hi by lia|].
    destruct (Z.ltb_spec i 32) as [Hl|Hl].
    + specialize (H2 i). rewrite !Z.land_spec, Z.testbit_ones_nonneg, (proj2 (Z.ltb_lt _ _)), !andb_true_r in H2 by lia.
      by apply H2.
    + destruct (Z.ltb_spec i 64) as [Hh|Hh].
      * specialize (H1 (i - 32)). rewrite !Z.land_spec, !Z.shiftr_spec, Z.testbit_ones_nonneg, (proj2 (Z.ltb_lt _ _)), !andb_true_r in H1 by lia.
        replace (i - 32 + 32) with i in H1 by lia. by apply H1.
      * rewrite <- (Z.mod_small b (2 ^ 64)), Z.mod_pow2_bits_high in Hi by lia. done.
Qed.

(** A tag of the device is in its mask. *)
Lemma tags_bloom_mono es acc : subset acc (fold_left (fun b e => Z.lor b (util_string_bloom64 (e_name e))) es acc).
Proof.
  revert acc. induction es as [|e es IH]; intros acc; cbn [fold_left]; [by apply subset_bits|].
  apply subset_bits. intros i Hi. apply (proj1 (subset_bits _ _) (IH _)). by rewrite Z.lor_spec, Hi.
Qed.
Lemma tags_bloom_in es e : e ∈ es -> subset (util_string_bloom64 (e_name e)) (tags_bloom es).
Proof.
  unfold tags_bloom. generalize 0. induction es as [|x es IH]; intros acc Hin; [by apply not_elem_of_nil in Hin|].
  cbn [fold_left]. apply elem_of_cons in Hin as [->|Hin]; [|by apply IH].
  apply subset_bits. intros i Hi. apply (proj1 (subset_bits _ _) (tags_bloom_mono _ _)). by rewrite Z.lor_spec, Hi, orb_true_r.
Qed.
Lemma tags_bloom_range es : 0 <= tags_bloom es < 2 ^ 64.
Proof.
  unfold tags_bloom. enough (forall acc, 0 <= acc < 2 ^ 64 ->
    0 <= fold_left (fun b e => Z.lor b (util_string_bloom64 (e_name e))) es acc < 2 ^ 64) as H by (apply H; lia).
  induction es as [|e es IH]; intros acc H; cbn [fold_left]; [done|].
  apply IH, lor_range; [lia|done|apply bloom64_range].
Qed.

(** * The words of the header *)

Lemma le_bytes_val s : le_bytes (length s) (le_val s) = s.
Proof.
  induction s as [|c s IH]; [done|]. cbn [length le_bytes le_val]. pose proof (code_range c) as Hc. f_equal.
  - unfold chr. rewrite (Z.mul_comm 256), Z.mod_add, Z.mod_small by lia. unfold code. by rewrite N2Z.id, ascii_N_embedding.
  - rewrite (Z.mul_comm 256), Z.div_add, Z.div_small by lia. done.
Qed.
(** A word in network order is what the kernel reads. *)
Lemma htonl_word z : le_val (rev (le_bytes 4 (htonl z))) = u32 z.
Proof.
  unfold htonl. set (s := rev (le_bytes 4 z)). assert (length s = 4%nat) as Hs by (unfold s; by rewrite length_rev, le_bytes_length).
  rewrite <- Hs, le_bytes_val. unfold s. by rewrite rev_involutive, le_val_bytes.
Qed.
Lemma packet_word_header h rest :
  packet_word (header_bytes h ++ rest) off_magic = le_val (rev (le_bytes 4 (h_magic h))) /\
  packet_word (header_bytes h ++ rest) off_filter_subsystem_hash = le_val (rev (le_bytes 4 (h_filter_subsystem_hash h))) /\
  packet_word (header_bytes h ++ rest) off_filter_devtype_hash = le_val (rev (le_bytes 4 (h_filter_devtype_hash h))) /\
  packet_word (header_bytes h ++ rest) off_filter_tag_bloom_hi = le_val (rev (le_bytes 4 (h_filter_tag_bloom_hi h))) /\
  packet_word (header_bytes h ++ rest) off_filter_tag_bloom_lo = le_val (rev (le_bytes 4 (h_filter_tag_bloom_lo h))).
Proof. by destruct h. Qed.
Lemma header_length h : length (header_bytes h) = netlink_header_size.
Proof. by destruct h. Qed.

(** * The program *)

Definition stmt (c k : Z) : sock_filter := mk_sock_filter c 0 0 k.
Definition jump (k jt jf : Z) : sock_filter := mk_sock_filter JMP_JEQ_K (u8 jt) (u8 jf) k.
Definition tag_hi (e : entry) : Z := u32 (Z.shiftr (util_string_bloom64 (e_name e)) 32).
Definition tag_lo (e : entry) : Z := Z.land (util_string_bloom64 (e_name e)) 0xffffffff.
Fixpoint tags_code (tags : list entry) (n : Z) : insns :=
  match tags with
  | [] => []
  | e :: tags' =>
      [stmt LD_W_ABS off_filter_tag_bloom_hi; stmt ALU_AND_K (tag_hi e); jump (tag_hi e) 0 3;
       stmt LD_W_ABS off_filter_tag_bloom_lo; stmt ALU_AND_K (tag_lo e); jump (tag_lo e) (1 + (n - 1) * 6) 0]
      ++ tags_code tags' (n - 1)
  end.
Definition sub_code (e : entry) : insns :=
  stmt LD_W_ABS off_filter_subsystem_hash ::
  match e_value e with
  | None => [jump (util_string_hash32 (e_name e)) 0 1]
  | Some v => [jump (util_string_hash32 (e_name e)) 0 3; stmt LD_W_ABS off_filter_devtype_hash;
               jump (util_string_hash32 v) 0 1]
  end ++ [stmt RET_K 0xffffffff].
Definition subs_code (subs : list entry) : insns := mjoin (sub_code <$> subs).
Definition ending (es : list entry) : insns := match es with [] => [] | _ => [stmt RET_K 0] end.
Definition program (subs tags : list entry) : insns :=
  [stmt LD_W_ABS off_magic; jump UDEV_MONITOR_MAGIC 1 0; stmt RET_K 0xffffffff] ++
  tags_code tags (Z.of_nat (length tags)) ++ ending tags ++ subs_code subs ++ ending subs ++ [stmt RET_K 0xffffffff].

Lemma bpf_stmt_inv i c k r : bpf_stmt i c k = Some r -> r = i ++ [stmt c k].
Proof. unfold bpf_stmt. case_match; [|done]. by intros [= <-]. Qed.
Lemma bpf_jmp_inv i k jt jf r : bpf_jmp i JMP_JEQ_K k jt jf = Some r -> r = i ++ [jump k jt jf].
Proof. unfold bpf_jmp. case_match; [|done]. by intros [= <-]. Qed.
(** One instruction of a program that was written without overflow. *)
Ltac written :=
  match goal with
  | H : _ ≫= _ = Some _ |- _ =>
      let E := fresh "E" in apply bind_Some in H as (? & E & H);
      first [apply bpf_stmt_inv in E as -> | apply bpf_jmp_inv in E as -> | idtac]
  end.

Lemma tag_matches_add_inv tags n i r : tag_matches_add tags n i = Some r -> r = i ++ tags_code tags n.
Proof.
  revert n i. induction tags as [|e tags IH]; intros n i H; cbn [tag_matches_add] in H.
  { injection H as <-. by rewrite app_nil_r. }
  do 6 written. apply IH in H as ->. by rewrite <- !app_assoc.
Qed.
Lemma subsystem_matches_add_inv subs i r :
  subsystem_matches_add subs i = Some (inr r) -> r = i ++ subs_code subs.
Proof.
  revert i. induction subs as [|e subs IH]; intros i H; cbn [subsystem_matches_add] in H.
  { injection H as <-. by rewrite app_nil_r. }
  unfold subs_code. cbn [fmap list_fmap mjoin list_join]. fold (subs_code subs). unfold sub_code.
  written. apply bind_Some in H as (j & Ej & H). written. case_match; [done|]. apply IH in H as ->.
  destruct (e_value e) as [v|].
  - apply bind_Some in Ej as (k & Ek%bpf_jmp_inv & Ej). subst k.
    apply bind_Some in Ej as (k & Ek%bpf_stmt_inv & Ej%bpf_jmp_inv). subst. by rewrite <- !app_assoc.
  - apply bpf_jmp_inv in Ej as ->. by rewrite <- !app_assoc.
Qed.
(** What is attached is this program. *)
Lemma filter_program_inv subs tags p : filter_program subs tags = Some (inr p) -> p = program subs tags.
Proof.
  intros H. unfold filter_program in H. do 3 written. unfold program.
  apply bind_Some in H as (i & Ei & H).
  assert (i = [stmt LD_W_ABS off_magic; jump UDEV_MONITOR_MAGIC 1 0; stmt RET_K 0xffffffff] ++
    tags_code tags (Z.of_nat (length tags)) ++ ending tags) as ->.
  { destruct tags; [injection Ei as <-; done|]. apply bind_Some in Ei as (i' & E & Ei).
    apply tag_matches_add_inv in E as ->. apply bpf_stmt_inv in Ei as ->. by rewrite <- app_assoc. }
  clear Ei. apply bind_Some in H as (j & Ej & H). destruct j as [|j]; [done|].
  apply fmap_Some in H as (q & E & [= ->]). apply bpf_stmt_inv in E as ->. rewrite !app_assoc. f_equal. rewrite <- !app_assoc.
  destruct subs; [injection Ej as <-; unfold subs_code; simpl; by rewrite !app_nil_r|].
  apply bind_Some in Ej as ([err|k] & E & Ej); [done|]. apply subsystem_matches_add_inv in E as ->.
  apply fmap_Some in Ej as (q & E & [= ->]). apply bpf_stmt_inv in E as ->.
  by rewrite <- !app_assoc.
Qed.

(** ** Its size *)

Lemma bpf_stmt_fits i c k : (length i < INS_SIZE)%nat -> bpf_stmt i c k = Some (i ++ [stmt c k]).
Proof. intros H. unfold bpf_stmt. by rewrite (proj2 (Nat.ltb_lt _ _)). Qed.
Lemma bpf_jmp_fits i k jt jf : (length i < INS_SIZE)%nat -> bpf_jmp i JMP_JEQ_K k jt jf = Some (i ++ [jump k jt jf]).
Proof. intros H. unfold bpf_jmp. by rewrite (proj2 (Nat.ltb_lt _ _)). Qed.
Ltac fits :=
  repeat first [rewrite bpf_stmt_fits by (rewrite ?length_app in *; cbn [length] in *; lia)
               |rewrite bpf_jmp_fits by (rewrite ?length_app in *; cbn [length] in *; lia)]; cbn [mbind option_bind].

Lemma tag_matches_add_fits tags n i : (length (i ++ tags_code tags n) <= INS_SIZE)%nat ->
  tag_matches_add tags n i = Some (i ++ tags_code tags n).
Proof.
  revert n i. induction tags as [|e tags IH]; intros n i H; cbn [tag_matches_add tags_code] in *; [by rewrite app_nil_r|].
  rewrite length_app in H. do 6 fits. rewrite IH; rewrite <- !app_assoc; [done|].
  rewrite length_app. rewrite length_app in H. cbn [app length] in *. lia.
Qed.
Lemma sub_code_length e : (3 <= length (sub_code e))%nat.
Proof. unfold sub_code. destruct (e_value e); simpl; lia. Qed.
Lemma subsystem_matches_add_fits subs i : (length (i ++ subs_code subs) + 2 <= INS_SIZE)%nat ->
  subsystem_matches_add subs i = Some (inr (i ++ subs_code subs)).
Proof.
  revert i. induction subs as [|e subs IH]; intros i H; cbn [subsystem_matches_add]; [by rewrite app_nil_r|].
  unfold subs_code in *. cbn [fmap list_fmap mjoin list_join] in *. fold (subs_code subs) in *.
  rewrite app_assoc in *. specialize (IH (i ++ sub_code e) H). rewrite length_app in H.
  assert (length (i ++ sub_code e) + 2 <= INS_SIZE)%nat as Hl by lia. clear H. unfold sub_code in *.
  destruct (e_value e) as [v|]; rewrite length_app in Hl; cbn [app length] in Hl; do 5 fits; rewrite <- !app_assoc in *; cbn [app] in *;
    (rewrite (proj2 (Nat.leb_gt _ _)) by (rewrite length_app; cbn [length]; lia)); exact IH.
Qed.
Lemma subsystem_matches_add_error subs i e : subsystem_matches_add subs i = Some (inl e) -> e = - E2BIG.
Proof.
  revert i. induction subs as [|x subs IH]; intros i H; cbn [subsystem_matches_add] in H; [done|].
  apply bind_Some in H as (i1 & _ & H). apply bind_Some in H as (i2 & _ & H). apply bind_Some in H as (i3 & _ & H).
  case_match; [congruence|]. by eapply IH.
Qed.

(** The size of the program.  When it has at most 512 instructions it is
    built, as [program] describes it; a longer one is an error or is written
    behind the array, and the latter happens: the test of the index comes after
    the instructions of a subsystem were written, so 170 subsystems write the
    instruction 512. *)
Lemma filter_program_size subs tags :
  ((length (program subs tags) <= INS_SIZE)%nat -> filter_program subs tags = Some (inr (program subs tags))) /\
  ((INS_SIZE < length (program subs tags))%nat ->
    filter_program subs tags = None \/ filter_program subs tags = Some (inl (- E2BIG))) /\
  filter_program (replicate 170 (mk_entry "usb" None 0)) [] = None.
Proof.
  split_and!; [intros Hl|intros Hl|by vm_compute].
  - unfold program in *. rewrite !length_app in Hl. unfold filter_program. do 3 fits. cbn [app].
    set (i0 := [stmt LD_W_ABS off_magic; _; _]) in *.
    assert (exists i1, i1 = i0 ++ tags_code tags (Z.of_nat (length tags)) ++ ending tags /\
      match tags with
      | [] => Some i0
      | _ => i ← tag_matches_add tags (Z.of_nat (length tags)) i0; bpf_stmt i RET_K 0
      end = Some i1) as (i1 & Ei & ->).
    { destruct tags as [|e tags]; [by exists i0|]. rewrite tag_matches_add_fits by (rewrite !length_app; simpl in *; lia).
      cbn [mbind option_bind]. fits. eexists. split; [|done]. by rewrite <- app_assoc. }
    cbn [mbind option_bind]. destruct subs as [|e subs].
    + cbn [mbind option_bind]. rewrite bpf_stmt_fits by (subst i1; rewrite !length_app; simpl in *; lia). subst i1. cbn [fmap option_fmap option_map].
      do 2 f_equal. by rewrite <- !app_assoc.
    + rewrite subsystem_matches_add_fits by (subst i1; rewrite !length_app; simpl in *; lia). cbn [mbind option_bind].
      rewrite bpf_stmt_fits by (subst i1; rewrite !length_app; simpl in *; lia). cbn [fmap option_fmap option_map mbind option_bind].
      rewrite bpf_stmt_fits by (subst i1; rewrite !length_app; simpl in *; lia). cbn [fmap option_fmap option_map mbind option_bind].
      subst i1. do 2 f_equal. by rewrite <- !app_assoc.
  - destruct (filter_program subs tags) as [[err|p]|] eqn:E; [right|exfalso|by left].
    + do 2 f_equal. unfold filter_program in E.
      do 4 (apply bind_Some in E as (? & _ & E)). apply bind_Some in E as ([err'|j] & Ej & E); [|by apply fmap_Some in E as (? & _ & ?)].
      injection E as <-. destruct subs; [done|]. apply bind_Some in Ej as ([e'|k] & Ek & Ej).
      * injection Ej as <-. by eapply subsystem_matches_add_error.
      * by apply fmap_Some in Ej as (? & _ & ?).
    + pose proof (filter_program_inv _ _ _ E) as ->. unfold filter_program in E.
      do 4 (apply bind_Some in E as (? & _ & E)). apply bind_Some in E as ([err'|j] & Ej & E); [done|].
      apply fmap_Some in E as (q & E & [= Eq]). unfold bpf_stmt in E. case_match eqn:Hlt; [|done]. injection E as <-.
      rewrite Eq, length_app in Hl. apply Nat.ltb_lt in Hlt. cbn [length] in Hl. lia.
Qed.

(** * Running it *)

Definition ALL : Z := 0xffffffff.
Definition code_at (p : insns) (pc : nat) (code : insns) : Prop :=
  forall i x, code !! i = Some x -> p !! (pc + i)%nat = Some x.
Lemma code_at_cons p pc x code : code_at p pc (x :: code) -> p !! pc = Some x /\ code_at p (S pc) code.
Proof.
  intros H. split; [rewrite <- (Nat.add_0_r pc); by apply (H 0%nat)|].
  intros i y Hi. rewrite Nat.add_succ_comm. by apply (H (S i)).
Qed.
Lemma code_at_app p pc a b : code_at p pc (a ++ b) -> code_at p pc a /\ code_at p (pc + length a) b.
Proof.
  intros H. split; intros i x Hi; [|rewrite <- Nat.add_assoc]; apply H.
  - by apply lookup_app_l_Some.
  - rewrite lookup_app_r by lia. by replace (length a + i - length a)%nat with i by lia.
Qed.

Section run.
Context `{PF : PacketFilter} (p : insns) (pkt : bytes) (Hpkt : (netlink_header_size <= length pkt)%nat).
Implicit Types (pc : nat) (A : Z) (e : entry).

Lemma run_ld pc A k rest : code_at p pc (stmt LD_W_ABS k :: rest) -> k <= 36 ->
  bpf_run p pkt pc A = bpf_run p pkt (S pc) (packet_word pkt k) /\ code_at p (S pc) rest.
Proof.
  intros [H Hr]%code_at_cons Hk. split; [|done]. rewrite (bpf_run_ld _ _ _ _ _ _ _ H).
  unfold netlink_header_size in Hpkt. by rewrite (proj2 (Z.leb_le _ _)) by lia.
Qed.
Lemma run_and pc A k rest : code_at p pc (stmt ALU_AND_K k :: rest) ->
  bpf_run p pkt pc A = bpf_run p pkt (S pc) (Z.land A k) /\ code_at p (S pc) rest.
Proof. intros [H Hr]%code_at_cons. split; [|done]. by apply (bpf_run_and _ _ _ _ _ _ _ H). Qed.
Lemma run_jump pc A k jt jf rest : code_at p pc (jump k jt jf :: rest) -> 0 <= jt < 256 -> 0 <= jf < 256 ->
  bpf_run p pkt pc A = bpf_run p pkt (S pc + Z.to_nat (if A =? k then jt else jf)) A /\ code_at p (S pc) rest.
Proof.
  intros [H Hr]%code_at_cons Ht Hf. split; [|done]. rewrite (bpf_run_jeq _ _ _ _ _ _ _ H).
  by rewrite !wrap_small by lia.
Qed.
Lemma run_ret pc A k rest : code_at p pc (stmt RET_K k :: rest) -> bpf_run p pkt pc A = k.
Proof. intros [H _]%code_at_cons. by apply (bpf_run_ret _ _ _ _ _ _ _ H). Qed.

Definition tag_hit e : bool :=
  bool_decide (subset (tag_hi e) (packet_word pkt off_filter_tag_bloom_hi)) &&
  bool_decide (subset (tag_lo e) (packet_word pkt off_filter_tag_bloom_lo)).
Lemma eqb_decide a b : (a =? b) = bool_decide (a = b).
Proof. destruct (Z.eqb_spec a b); symmetry; [by apply bool_decide_true|by apply bool_decide_false]. Qed.

Lemma subset_eqb a k : (Z.land a k =? k) = bool_decide (subset k a).
Proof. apply eqb_decide. Qed.
Lemma run_tag pc A e jt rest :
  code_at p pc ([stmt LD_W_ABS off_filter_tag_bloom_hi; stmt ALU_AND_K (tag_hi e); jump (tag_hi e) 0 3;
     stmt LD_W_ABS off_filter_tag_bloom_lo; stmt ALU_AND_K (tag_lo e); jump (tag_lo e) jt 0] ++ rest) ->
  0 <= jt < 256 ->
  exists A', bpf_run p pkt pc A = bpf_run p pkt (pc + 6 + if tag_hit e then Z.to_nat jt else 0) A'.
Proof.
  intros H Hjt. cbn [app] in H. unfold tag_hit.
  apply (run_ld _ A) in H as [-> H]; [|done]. eapply run_and in H as [-> H].
  eapply run_jump in H as [-> H]; [|done..]. rewrite subset_eqb. case_bool_decide; cbn [andb].
  - rewrite Nat.add_0_r. eapply run_ld in H as [-> H]; [|done]. eapply run_and in H as [-> H].
    eapply run_jump in H as [-> H]; [|lia..]. eexists. f_equal. rewrite subset_eqb. case_bool_decide; simpl; lia.
  - eexists. f_equal. change (Z.to_nat 3) with 3%nat. lia.
Qed.
Lemma run_tags tags pc A rest :
  code_at p pc (tags_code tags (Z.of_nat (length tags)) ++ rest) -> (length tags <= 43)%nat ->
  exists A', bpf_run p pkt pc A =
    bpf_run p pkt (pc + length (tags_code tags (Z.of_nat (length tags))) + if existsb tag_hit tags then 1 else 0) A'.
Proof.
  revert pc A. induction tags as [|e tags IH]; intros pc A H Hl.
  { exists A. simpl. by rewrite !Nat.add_0_r. }
  cbn [tags_code length] in *. replace (Z.of_nat (S (length tags)) - 1) with (Z.of_nat (length tags)) in * by lia.
  rewrite <- app_assoc in H. pose proof H as [_ Hr]%code_at_app. cbn [length] in Hr.
  apply (run_tag _ A) in H as [A1 ->]; [|lia].
  assert (forall ts n, length (tags_code ts n) = (6 * length ts)%nat) as Hlen.
  { clear. induction ts as [|e ts IH]; intros n; cbn [tags_code length]; [done|]. rewrite length_app, IH. simpl. lia. }
  cbn [existsb]. destruct (tag_hit e); cbn [orb].
  - exists A1. f_equal. rewrite length_app, Hlen. cbn [length]. lia.
  - rewrite Nat.add_0_r. destruct (IH _ A1 Hr ltac:(lia)) as [A' ->]. exists A'. f_equal.
    rewrite length_app. cbn [length]. lia.
Qed.

Definition sub_hit e : bool :=
  bool_decide (packet_word pkt off_filter_subsystem_hash = util_string_hash32 (e_name e)) &&
  match e_value e with
  | None => true
  | Some v => bool_decide (packet_word pkt off_filter_devtype_hash = util_string_hash32 v)
  end.
Lemma run_sub pc A e rest : code_at p pc (sub_code e ++ rest) ->
  exists A', bpf_run p pkt pc A = if sub_hit e then ALL else bpf_run p pkt (pc + length (sub_code e)) A'.
Proof.
  intros H. unfold sub_code, sub_hit in *. cbn [app] in H. apply (run_ld _ A) in H as [-> H]; [|done].
  destruct (e_value e) as [v|]; cbn [app] in H.
  - eapply run_jump in H as [-> H]; [|done..]. rewrite eqb_decide. case_bool_decide; cbn [andb].
    + rewrite Nat.add_0_r. eapply run_ld in H as [-> H]; [|done].
      eapply run_jump in H as [-> H]; [|done..]. rewrite eqb_decide. eexists. case_bool_decide.
      * rewrite Nat.add_0_r. by eapply run_ret in H.
      * f_equal. change (Z.to_nat 1) with 1%nat. simpl. lia.
    + eexists. f_equal. change (Z.to_nat 3) with 3%nat. simpl. lia.
  - eapply run_jump in H as [-> H]; [|done..]. rewrite eqb_decide. eexists. case_bool_decide; cbn [andb].
    + rewrite Nat.add_0_r. by eapply run_ret in H.
    + f_equal. change (Z.to_nat 1) with 1%nat. simpl. lia.
Qed.
Lemma run_subs subs pc A rest : code_at p pc (subs_code subs ++ rest) ->
  exists A', bpf_run p pkt pc A = if existsb sub_hit subs then ALL else bpf_run p pkt (pc + length (subs_code subs)) A'.
Proof.
  revert pc A. induction subs as [|e subs IH]; intros pc A H.
  { exists A. simpl. by rewrite Nat.add_0_r. }
  unfold subs_code in *. cbn [fmap list_fmap mjoin list_join existsb] in *. fold (subs_code subs) in *.
  rewrite <- app_assoc in H. pose proof H as [_ Hr]%code_at_app. apply (run_sub _ A) in H as [A1 ->].
  destruct (sub_hit e); cbn [orb]; [by exists A1|]. destruct (IH _ A1 Hr) as [A' ->]. exists A'.
  by rewrite length_app, Nat.add_assoc.
Qed.

Definition accepts (subs tags : list entry) : bool :=
  match tags with [] => true | _ => existsb tag_hit tags end && match subs with [] => true | _ => existsb sub_hit subs end.
Lemma run_program subs tags :
  p = program subs tags -> (length tags <= 43)%nat -> packet_word pkt off_magic = UDEV_MONITOR_MAGIC ->
  bpf_run p pkt 0 0 = if accepts subs tags then ALL else 0.
Proof.
  intros Hp Hl Hm. assert (code_at p 0 (program subs tags)) as H by (intros i x Hi; by rewrite Hp).
  unfold program in H. cbn [app] in H. apply (run_ld _ 0) in H as [-> H]; [|done].
  eapply run_jump in H as [-> H]; [|done..]. rewrite Hm, Z.eqb_refl. change (2 + Z.to_nat 1)%nat with 3%nat.
  apply code_at_cons in H as [_ H]. unfold accepts.
  assert (forall A pc, code_at p pc (subs_code subs ++ ending subs ++ [stmt RET_K 0xffffffff]) ->
    bpf_run p pkt pc A = if match subs with [] => true | _ => existsb sub_hit subs end then ALL else 0) as Hs.
  { intros A pc Hc. pose proof Hc as [_ Hr]%code_at_app. apply (run_subs _ _ A) in Hc as [A' ->].
    destruct subs as [|e subs]; [by apply (run_ret _ _ _ _ Hr)|].
    destruct (existsb _ _); [done|]. by apply (run_ret _ _ _ _ Hr). }
  pose proof H as [_ Hr]%code_at_app. apply (run_tags _ _ UDEV_MONITOR_MAGIC) in H as [A' ->]; [|done].
  destruct tags as [|e tags]; [by apply Hs|]. cbn [ending app] in Hr. destruct (existsb tag_hit _); cbn [andb].
  - apply Hs. rewrite Nat.add_1_r. by apply code_at_cons in Hr as [_ ?].
  - rewrite Nat.add_0_r. by apply (run_ret _ _ _ _ Hr).
Qed.
End run.

(** * A message of a device *)

Section device.
Context `{SY : System}.
Implicit Types (w : world) (d : udev_device).

(** What is known of the device without reading a file. *)
Definition identified d : Prop :=
  d_info_loaded d = true /\ d_subsystem_set d = true /\ d_devtype_set d = true.
Lemma subsystem_loaded p w d : d_subsystem_set d = true -> udev_device_get_subsystem p (w, d) = (d_subsystem d, (w, d)).
Proof. intros H. unfold udev_device_get_subsystem. rewrite bind_field, H. done. Qed.
Lemma devtype_loaded w d : d_devtype_set d = true -> udev_device_get_devtype (w, d) = (d_devtype d, (w, d)).
Proof. intros H. unfold udev_device_get_devtype, udev_device_get_devtype_open. rewrite bind_field, H. done. Qed.
Lemma tags_loaded w d : d_info_loaded d = true -> udev_device_get_tags_list_entry (w, d) = (d_tags_list d, (w, d)).
Proof.
  intros H. unfold udev_device_get_tags_list_entry, udev_device_get_tags_list_entry_open.
  rewrite D_bind_eq, load_db_loaded by done. done.
Qed.
Definition has_name (es : list entry) (name : bytes) : bool := bool_decide (name ∈ e_name <$> es).
Lemma has_tag_loaded w d tag :
  d_info_loaded d = true -> udev_device_has_tag tag (w, d) = (has_name (d_tags_list d) tag, (w, d)).
Proof.
  intros H. unfold udev_device_has_tag. rewrite D_bind_eq, load_db_loaded by done. cbn [fst snd].
  rewrite D_bind_eq, tags_loaded by done. cbn [fst snd]. unfold mret, state_ret. f_equal.
  apply bool_decide_ext. split.
  - intros [e [<- He]%spec_find_name]. by apply list_elem_of_fmap_2.
  - intros Hin. destruct (spec_find (d_tags_list d) tag) eqn:E; [done|]. exfalso.
    apply list_elem_of_fmap in Hin as (e & -> & He). unfold spec_find in E.
    apply find_none with (x := e) in E; [|by apply list_elem_of_In]. by rewrite bool_decide_true in E.
Qed.

(** ** What the filter of a monitor means *)

Definition devtype_hash (t : option bytes) : Z := match t with Some v => util_string_hash32 v | None => 0 end.
Definition matches_subsystem d (e : entry) : bool :=
  bool_decide (d_subsystem d = Some (e_name e)) &&
  match e_value e with None => true | Some t => bool_decide (d_devtype d = Some t) end.
Definition receiver_accepts m d : bool :=
  match filter_subsystem_list m with [] => true | subs => existsb (matches_subsystem d) subs end &&
  match filter_tag_list m with [] => true | tags => existsb (fun e => has_name (d_tags_list d) (e_name e)) tags end.
(** The same with hashes. *)
Definition hash_matches_subsystem d (e : entry) : bool :=
  bool_decide (util_string_hash32 (default [] (d_subsystem d)) = util_string_hash32 (e_name e)) &&
  match e_value e with None => true | Some t => bool_decide (devtype_hash (d_devtype d) = util_string_hash32 t) end.
Definition bloom_matches_tag d (e : entry) : bool :=
  bool_decide (subset (util_string_bloom64 (e_name e)) (tags_bloom (d_tags_list d))).
Definition kernel_accepts (subs tags : list entry) d : bool :=
  match tags with [] => true | _ => existsb (bloom_matches_tag d) tags end &&
  match subs with [] => true | _ => existsb (hash_matches_subsystem d) subs end.

Lemma passes_subsystem_ok subs w d : identified d ->
  passes_subsystem subs (w, d) = (existsb (matches_subsystem d) subs, (w, d)).
Proof.
  intros (Hi & Hs & Ht). induction subs as [|e subs IH]; [done|]. cbn [passes_subsystem existsb].
  rewrite D_bind_eq, subsystem_loaded by done. cbn [fst snd]. unfold matches_subsystem at 1. rewrite str_eq_spec.
  case_bool_decide; [|done]. destruct (e_value e) as [t|]; [|done].
  rewrite D_bind_eq, devtype_loaded by done. cbn [fst snd andb]. destruct (d_devtype d) as [x|].
  - rewrite str_eq_spec. case_bool_decide; done.
  - by rewrite bool_decide_false.
Qed.
Lemma passes_tag_ok tags w d : d_info_loaded d = true ->
  passes_tag tags (w, d) = (existsb (fun e => has_name (d_tags_list d) (e_name e)) tags, (w, d)).
Proof.
  intros Hi. induction tags as [|e tags IH]; [done|]. cbn [passes_tag existsb].
  rewrite D_bind_eq, has_tag_loaded by done. cbn [fst snd]. by destruct (has_name _ _).
Qed.
Lemma passes_filter_ok m w d : identified d -> passes_filter m (w, d) = (receiver_accepts m d, (w, d)).
Proof.
  intros H. unfold passes_filter, receiver_accepts. destruct (filter_subsystem_list m) as [|e subs] eqn:E.
  - rewrite bind_ret. destruct (filter_tag_list m); [done|]. apply passes_tag_ok, H.
  - rewrite D_bind_eq, passes_subsystem_ok by done. cbn [fst snd]. destruct (existsb _ _); [|done].
    destruct (filter_tag_list m); [done|]. apply passes_tag_ok, H.
Qed.

(** ** The message *)

Definition same_ids d d' : Prop :=
  identified d' /\ d_subsystem d' = d_subsystem d /\ d_devtype d' = d_devtype d /\ d_tags_list d' = d_tags_list d.
Lemma refresh_ids d : identified d -> same_ids d (refresh d).
Proof.
  intros (H1 & H2 & H3). unfold same_ids, identified, refresh, refresh_tags, refresh_links.
  repeat (case_match; simpl in *; simplify_eq; try done).
Qed.
Lemma monitor_buf_ids w d : identified d ->
  exists r d', udev_device_get_properties_monitor_buf (w, d) = (r, (w, d')) /\ same_ids d d'.
Proof.
  intros Hd. unfold udev_device_get_properties_monitor_buf. rewrite bind_field.
  destruct (d_envp_uptodate d).
  { rewrite bind_ret. cbn [Z.eqb negb]. rewrite bind_field. unfold mret, state_ret. by eexists _, d. }
  assert (exists r d', update_envp_monitor_buf (w, d) = (r, (w, d')) /\ same_ids d d') as (r & d' & E & Hs).
  { unfold update_envp_monitor_buf. rewrite bind_update. set (d0 := set_field d_monitor_buf_len _ d).
    assert (identified d0) as Hd0 by done. rewrite D_bind_eq, properties_loaded by apply Hd0. cbn [fst snd].
    pose proof (refresh_ids d0 Hd0) as Hs. destruct (envp_loop _ _ _) as [[envp s]|].
    - rewrite bind_update. eexists _, _. split; [reflexivity|]. exact Hs.
    - by exists (- UdevList.EINVAL), (refresh d0). }
  rewrite D_bind_eq, E. cbn [fst snd]. destruct (negb _); [by exists None, d'|].
  rewrite bind_field. unfold mret, state_ret. by eexists _, d'.
Qed.

Definition device_header (blen : nat) d : netlink_header := {|
  h_magic := htonl UDEV_MONITOR_MAGIC;
  h_header_size := 40;
  h_properties_off := 40;
  h_properties_len := Z.of_nat blen;
  h_filter_subsystem_hash := htonl (util_string_hash32 (default [] (d_subsystem d)));
  h_filter_devtype_hash := htonl (devtype_hash (d_devtype d));
  h_filter_tag_bloom_hi := htonl (u32 (Z.shiftr (tags_bloom (d_tags_list d)) 32));
  h_filter_tag_bloom_lo := htonl (Z.land (tags_bloom (d_tags_list d)) 0xffffffff) |}.
Lemma monitor_header_ok blen w d : identified d -> is_Some (d_subsystem d) ->
  monitor_header blen (w, d) = (Some (device_header blen d), (w, d)).
Proof.
  intros (Hi & Hs & Ht) [s Es]. unfold monitor_header. rewrite D_bind_eq, subsystem_loaded by done. cbn [fst snd]. rewrite Es.
  rewrite D_bind_eq, devtype_loaded by done. cbn [fst snd]. rewrite D_bind_eq, tags_loaded by done. cbn [fst snd].
  unfold device_header. rewrite Es. unfold mret, state_ret. pose proof (tags_bloom_range (d_tags_list d)) as Hb.
  destruct (Z.ltb_spec 0 (tags_bloom (d_tags_list d))) as [|Hz]; [by destruct (d_devtype d)|].
  replace (tags_bloom (d_tags_list d)) with 0 by lia. by destruct (d_devtype d).
Qed.
(** A packet is the header and the buffer. *)
Lemma monitor_packet_inv w d pkt s : identified d -> is_Some (d_subsystem d) ->
  monitor_packet (w, d) = (Some (inr pkt), s) ->
  exists buf d', udev_device_get_properties_monitor_buf (w, d) = (Some buf, (w, d')) /\ (32 <= length buf)%nat /\
    pkt = header_bytes (device_header (length buf) d) ++ buf /\ s = (w, d').
Proof.
  intros Hd Hs. unfold monitor_packet. destruct (monitor_buf_ids w d Hd) as (r & d' & E & Hi & H1 & H2 & H3).
  rewrite D_bind_eq, E. cbn [fst snd]. destruct r as [buf|]; [|done].
  destruct (Nat.ltb_spec (length buf) 32); [done|].
  rewrite D_bind_eq, monitor_header_ok by (try done; by rewrite H1). cbn [fst snd]. intros [= <- <-].
  exists buf, d'. split_and!; [done|done| |done]. unfold device_header. by rewrite H1, H2, H3.
Qed.

Section accepted.
Context `{PF : PacketFilter}.

Lemma kernel_accepts_ok blen d buf subs tags : 
  accepts (header_bytes (device_header blen d) ++ buf) subs tags = kernel_accepts subs tags d.
Proof.
  pose proof (packet_word_header (device_header blen d) buf) as (_ & H1 & H2 & H3 & H4).
  cbn [device_header h_filter_subsystem_hash h_filter_devtype_hash h_filter_tag_bloom_hi h_filter_tag_bloom_lo] in *.
  rewrite htonl_word in H1, H2, H3, H4. rewrite wrap_small in H1 by apply hash32_range.
  rewrite wrap_small in H2 by (unfold devtype_hash; case_match; [apply hash32_range|lia]). rewrite wrap_wrap in H3.
  assert (u32 (Z.land (tags_bloom (d_tags_list d)) 0xffffffff) = Z.land (tags_bloom (d_tags_list d)) 0xffffffff) as Hl.
  { change 0xffffffff with (Z.ones 32). rewrite Z.land_ones by lia. apply wrap_wrap. }
  rewrite Hl in H4. unfold accepts, kernel_accepts.
  assert (forall e, tag_hit (header_bytes (device_header blen d) ++ buf) e = bloom_matches_tag d e) as Ht.
  { intros e. unfold tag_hit, bloom_matches_tag. rewrite H3, H4. unfold tag_hi, tag_lo.
    rewrite <- bool_decide_and. apply bool_decide_ext. symmetry. apply subset_halves, bloom64_range. }
  assert (forall e, sub_hit (header_bytes (device_header blen d) ++ buf) e = hash_matches_subsystem d e) as Hs.
  { intros e. unfold sub_hit, hash_matches_subsystem. by rewrite H1, H2. }
  assert (forall (f g : entry -> bool) l, (forall e, f e = g e) -> existsb f l = existsb g l) as Hx.
  { intros f g l Hf. induction l as [|x l IH]; [done|]. simpl. by rewrite Hf, IH. }
  f_equal; (case_match; [done|]); by apply Hx.
Qed.

Lemma filter_run w d pkt s subs tags filter :
  identified d -> is_Some (d_subsystem d) ->
  monitor_packet (w, d) = (Some (inr pkt), s) ->
  filter_program subs tags = Some (inr filter) -> (length tags <= 43)%nat ->
  bpf_run filter pkt 0 0 = if kernel_accepts subs tags d then ALL else 0.
Proof.
  intros Hd Hs Hp Hf Hl. apply monitor_packet_inv in Hp as (buf & d' & _ & _ & -> & _); [|done..].
  apply filter_program_inv in Hf. rewrite <- (kernel_accepts_ok (length buf) d buf). apply run_program; [|done|done|].
  - rewrite length_app, header_length. lia.
  - pose proof (packet_word_header (device_header (length buf) d) buf) as [-> _]. cbn [device_header h_magic].
    by rewrite htonl_word.
Qed.
(** Equal strings have equal hashes, and a tag of the device is in its mask. *)
Lemma receiver_kernel m d : is_Some (d_subsystem d) ->
  receiver_accepts m d = true -> kernel_accepts (filter_subsystem_list m) (filter_tag_list m) d = true.
Proof.
  intros [s Es]. unfold receiver_accepts, kernel_accepts. intros [H1 H2]%andb_prop. apply andb_true_intro. split.
  - destruct (filter_tag_list m) as [|t tags]; [done|]. apply existsb_exists in H2 as (e & He & H2).
    apply existsb_exists. exists e. split; [done|]. apply bool_decide_eq_true_2.
    apply bool_decide_eq_true_1, list_elem_of_fmap in H2 as (x & -> & Hx). by apply tags_bloom_in.
  - destruct (filter_subsystem_list m) as [|t subs]; [done|]. apply existsb_exists in H1 as (e & He & H1).
    apply existsb_exists. exists e. split; [done|]. unfold matches_subsystem, hash_matches_subsystem in *.
    apply andb_prop in H1 as [H1%bool_decide_eq_true_1 H3]. rewrite H1. cbn [default]. rewrite bool_decide_true by done.
    destruct (e_value e) as [v|]; [|done]. apply bool_decide_eq_true_1 in H3 as ->. by apply bool_decide_eq_true_2.
Qed.

(** C32: What the kernel keeps of a message that [udev_monitor_send_device]
    sends, for the program that [udev_monitor_filter_update] attaches: all of
    it, when for one of the tags the bits of its hash are set in the mask of the
    device and for one of the subsystems the hashes of subsystem and device
    type agree, where no tags or no subsystems ask for nothing; and nothing
    otherwise.  So no message is lost whose device [passes_filter] lets
    through.  With more than 43 tags the jumps over the tags do not fit their
    byte. *)
Theorem kernel_filter_exact m w d pkt s filter :
  identified d -> is_Some (d_subsystem d) ->
  monitor_packet (w, d) = (Some (inr pkt), s) ->
  filter_program (filter_subsystem_list m) (filter_tag_list m) = Some (inr filter) ->
  (length (filter_tag_list m) <= 43)%nat ->
  bpf_run filter pkt 0 0 =
    (if kernel_accepts (filter_subsystem_list m) (filter_tag_list m) d then 0xffffffff else 0) /\
  (fst (passes_filter m (w, d)) = true -> bpf_run filter pkt 0 0 = 0xffffffff).
Proof.
  intros Hd Hs Hp Hf Hl. rewrite (filter_run _ _ _ _ _ _ _ Hd Hs Hp Hf Hl). split; [done|].
  rewrite passes_filter_ok by done. cbn [fst]. intros Hr. by rewrite (receiver_kernel m d Hs Hr).
Qed.
End accepted.
End device.

(** * An interpreter *)

(** Jumps go forward, so the length of the program is enough. *)
Fixpoint interpret (fuel : nat) (p : insns) (pkt : bytes) (pc : nat) (A : Z) : Z :=
  match fuel, p !! pc with
  | S fuel, Some (mk_sock_filter c jt jf k) =>
      if c =? LD_W_ABS then
        if k + 4 <=? Z.of_nat (length pkt) then interpret fuel p pkt (S pc) (packet_word pkt k) else 0
      else if c =? ALU_AND_K then interpret fuel p pkt (S pc) (Z.land A k)
      else if c =? JMP_JEQ_K then interpret fuel p pkt (S pc + Z.to_nat (if A =? k then jt else jf)) A
      else if c =? RET_K then k
      else 0
  | _, _ => 0
  end.
Lemma interpret_enough f g p pkt pc A :
  (length p - pc <= f)%nat -> (length p - pc <= g)%nat -> interpret f p pkt pc A = interpret g p pkt pc A.
Proof.
  assert (forall f pc A, (length p <= pc)%nat -> interpret f p pkt pc A = 0) as H0.
  { clear. intros f pc A H. destruct f; [done|]. cbn [interpret]. by rewrite lookup_ge_None_2. }
  revert g pc A. induction f as [|f IH]; intros g pc A Hf Hg; [rewrite !H0 by lia; done|].
  destruct g as [|g]; [rewrite !H0 by lia; done|].
  cbn [interpret]. destruct (p !! pc) as [[c jt jf k]|]; [|done]. repeat (case_match; try done); apply IH; lia.
Qed.
Lemma interpret_step (p : insns) (pkt : bytes) (pc : nat) (A : Z) x : p !! pc = Some x -> exists f, (length p - S pc <= f)%nat /\
  interpret (length p) p pkt pc A = interpret (S f) p pkt pc A.
Proof.
  intros H%lookup_lt_Some. exists (length p - 1)%nat. split; [lia|]. by replace (S (length p - 1)) with (length p) by lia.
Qed.
Ltac interpreted :=
  intros H; match goal with |- interpret _ ?p ?pkt ?pc ?A = _ =>
    destruct (interpret_step p pkt pc A _ H) as (f & Hf & ->) end;
  cbn [interpret]; rewrite H; cbn [Z.eqb Pos.eqb LD_W_ABS ALU_AND_K JMP_JEQ_K RET_K];
  try (case_match; [|done]); try (apply interpret_enough; lia); done.
#[refine] Instance interpreter : PacketFilter := {| bpf_run := fun p pkt pc A => interpret (length p) p pkt pc A |}.
Proof. all: intros p pkt pc A jt jf k; interpreted. Defined.

Definition usb_device : udev_device :=
  device_new <| d_info_loaded := true |> <| d_subsystem := Some ("usb" : bytes) |> <| d_subsystem_set := true |>
    <| d_devtype_set := true |> <| d_tags_list := [mk_entry "seat" None 0] |>
    <| d_properties_list := [mk_entry "DEVPATH" (Some ("/devices/pci0000:00/usb1" : bytes)) 0;
                             mk_entry "SUBSYSTEM" (Some ("usb" : bytes)) 0] |>.
Definition usb_monitor : udev_monitor :=
  (udev_monitor_new 3 (mk_sockaddr 0 UDEV_MONITOR_UDEV)) <| filter_tag_list := [mk_entry "seat" None 0] |>
    <| filter_subsystem_list := [mk_entry "usb" None 0] |>.
Definition usb_packet : bytes :=
  Eval vm_compute in match fst (@monitor_packet file_system (∅, usb_device)) with Some (inr pkt) => pkt | _ => [] end.
Definition usb_state : world (System := file_system) * udev_device :=
  Eval vm_compute in snd (@monitor_packet file_system (∅, usb_device)).
Definition usb_filter : insns :=
  Eval vm_compute in
    match filter_program (filter_subsystem_list usb_monitor) (filter_tag_list usb_monitor) with
    | Some (inr p) => p
    | _ => []
    end.
Lemma kernel_filter_exact_witness : bpf_run usb_filter usb_packet 0 0 = 0xffffffff.
Proof.
  apply (@kernel_filter_exact file_system interpreter usb_monitor ∅ usb_device usb_packet usb_state usb_filter).
  - split_and!; reflexivity.
  - by exists "usb".
  - vm_compute. reflexivity.
  - vm_compute. reflexivity.
  - vm_compute. repeat constructor.
  - vm_compute. reflexivity.
Defined.
End MonitorFilter.
