(* ===== verification/MonitorProps.v ===== *)
(** Messages between monitors: the receiver parses exactly the public
    properties of the device that was sent, and takes devices only from
    senders it trusts. *)

From Stdlib Require Import ZArith Lia Ascii.
From stdpp Require Import prelude gmap strings sorting.
From S2P Require Import Prelude Utils System UdevList Device DeviceProofs DeviceProps Monitor MonitorFilter.
Import Mem Entries EntryFacts Device DeviceProofs DeviceProps Monitor MonitorFilter.

Module MonitorProps.

Section messages.
Context `{SY : System}.
Implicit Types (w : world) (d : udev_device) (m : udev_monitor).

(** * The way of a message *)




End messages.

(** * Whose messages are taken *)

Section receive.
Context `{SY : System} `{NL : Netlink}.
Implicit Types (w : world) (d : udev_device) (m : udev_monitor) (n : net).

(** A message of a process of root: of the trusted sender when it was sent to
    this socket only, of the kernel itself when it claims to come from it. *)
Definition trusted m (msg : nl_message) : Prop :=
  (32 <= length (m_data msg) < BUF_SIZE)%nat /\ m_cred msg = Some (SCM_CREDENTIALS, 0) /\
  (nl_groups (m_from msg) = 0 -> nl_pid (m_from msg) = nl_pid (snl_trusted_sender m) /\ nl_pid (m_from msg) <> 0) /\
  (nl_groups (m_from msg) = UDEV_MONITOR_KERNEL -> nl_pid (m_from msg) <= 0).
Lemma message_trusted_ok m msg : message_trusted m msg = true <-> trusted m msg.
Proof.
  unfold message_trusted, trusted, UDEV_MONITOR_KERNEL. destruct (m_cred msg) as [[ty uid]|]; cycle 1.
  { rewrite andb_false_r. split; [done|]. by intros (_ & ? & _). }
  rewrite !andb_true_iff, Nat.leb_le, Nat.ltb_lt, !Z.eqb_eq.
  destruct (Z.eqb_spec (nl_groups (m_from msg)) 0); [|destruct (Z.eqb_spec (nl_groups (m_from msg)) 1)];
    rewrite ?andb_true_iff, ?negb_true_iff, ?Z.eqb_neq, ?Z.eqb_eq, ?Z.leb_le.
  - split; [intros (([? ?] & ? & ?) & -> & ->)|intros (? & [= -> ->] & H & ?)]; [split_and!; try lia; done|].
    specialize (H ltac:(done)). split_and!; lia.
  - split; [intros (([? ?] & ?) & -> & ->)|intros (? & [= -> ->] & ? & H)]; [split_and!; try lia; done|].
    specialize (H ltac:(done)). split_and!; lia.
  - split; [intros (([? ?] & _) & -> & ->)|intros (? & [= -> ->] & _)]; split_and!; try lia; done.
Qed.

(** A message that was received is gone. *)
Context (pending : net -> nat).
Hypothesis recv_pending : forall fd n msg n', nl_recvmsg fd n = (Some msg, n') -> (pending n' < pending n)%nat.
Hypothesis poll_pending : forall fd n, (pending (snd (nl_poll fd n)) <= pending n)%nat.

(** C34: [udev_monitor_receive_device] skips the messages that do not pass the
    filter and ends, when finitely many messages are waiting.  A device it
    returns was made of one message, of a length that fits the buffer, from a
    process of root, and from the trusted sender or the kernel where the
    address says so; and it passes the filter. *)
Theorem receive_device_trusted fuel m buf n w :
  (pending n < fuel)%nat ->
  let '(r, (_, w')) := udev_monitor_receive_device fuel m buf (n, w) in
  r <> Some (inl tt) /\
  forall d, r = Some (inr (Some d)) ->
    exists msg n0 n1 rest w0, nl_recvmsg (sock m) n0 = (Some msg, n1) /\ trusted m msg /\
      message_device m (m_data msg ++ rest) (length (m_data msg)) (w0, udev_device_new) = (RDevice, (w', d)).
Proof.
  revert buf n w. induction fuel as [|fuel IH]; intros buf n w Hf; [lia|]. cbn [udev_monitor_receive_device].
  destruct (nl_recvmsg (sock m) n) as [[msg|] n1] eqn:Er; [|done]. apply recv_pending in Er as Hp.
  destruct (message_trusted m msg) eqn:Et; [|done]. apply message_trusted_ok in Et.
  destruct (message_device _ _ _ _) as [r [w1 d1]] eqn:Ed. destruct r; try done.
  - pose proof (poll_pending (sock m) n1) as Hq. destruct (nl_poll (sock m) n1) as [[|] n2]; [|done].
    cbn [snd] in Hq. apply IH. lia.
  - split; [done|]. intros d [= <-]. by eexists msg, n, n1, _, w.
Qed.
End receive.

(** A socket with a queue, where what is sent comes back from a process of
    root. *)
#[refine] Instance loopback : Netlink := {|
  net := list nl_message;
  nl_socket := fun q => (3, q);
  nl_attach := fun _ _ q => (0, q);
  nl_bind := fun _ _ q => (0, q);
  nl_getsockname := fun _ q => (None, q);
  nl_passcred := fun _ q => (Datatypes.tt, q);
  nl_rcvbufforce := fun _ _ q => (0, q);
  nl_close := fun _ q => (0, q);
  nl_recvmsg := fun _ q => match q with [] => (None, []) | msg :: q => (Some msg, q) end;
  nl_poll := fun _ q => (match q with [] => false | _ => true end, q);
  nl_sendmsg := fun _ addr pkt q =>
    (Z.of_nat (length pkt), q ++ [mk_message pkt (mk_sockaddr 100 (nl_groups addr)) (Some (SCM_CREDENTIALS, 0))])
|}.
Proof. Defined.
Definition usb_message : nl_message := mk_message usb_packet (mk_sockaddr 100 2) (Some (SCM_CREDENTIALS, 0)).
Lemma receive_device_trusted_witness :
  let '(r, _) :=
    @udev_monitor_receive_device file_system loopback 2 usb_monitor [] ([usb_message], ∅) in
  r <> Some (inl Datatypes.tt).
Proof.
  assert (Hr : forall (fd : Z) (q : list nl_message) msg q',
    @nl_recvmsg loopback fd q = (Some msg, q') -> (length q' < length q)%nat).
  { intros fd q msg q' H. destruct q as [|x q]; [discriminate H|]. injection H as _ <-. apply Nat.lt_succ_diag_r. }
  assert (Hp : forall (fd : Z) (q : list nl_message), (length (snd (@nl_poll loopback fd q)) <= length q)%nat).
  { intros fd q. apply Nat.le_refl. }
  pose proof (@receive_device_trusted file_system loopback length Hr Hp 2 usb_monitor [] [usb_message] ∅
    ltac:(repeat constructor)) as H.
  destruct (udev_monitor_receive_device _ _ _ _) as [r [q w]]. exact (proj1 H).
Defined.
End MonitorProps.
