(* ===== verification/Udevd.v ===== *)
(** src/udevd/udevd.c: the queue of events and the workers of the daemon, and
    one round of its main loop.  What other processes and the kernel do (the
    result of fork, whether a worker accepts a message, the messages and exit
    states of the workers, signals, the clock) are inputs of the functions.
    A use of an event or of a worker that was freed is [None]. *)

From Stdlib Require Import ZArith Lia Ascii.
From stdpp Require Import prelude gmap strings sorting.
From S2P Require Import Prelude System Device.

Module Udevd.

(** * Events and workers *)

Inductive event_state := EVENT_UNDEF | EVENT_QUEUED | EVENT_RUNNING.
#[export] Instance event_state_eq_dec : EqDecision event_state.
Proof. solve_decision. Defined.
(** [e_id] is the address of the event; [seqnum] ... [is_block] are read from
    its device when it is queued. *)
Record event := mk_event {
  e_id : nat;
  e_state : event_state;
  delaying_seqnum : Z;
  seqnum : Z;
  devpath : bytes;
  devpath_old : option bytes;
  devnum : Z;
  ifindex : Z;
  is_block : bool
}.
#[export] Instance event_eta : Eta event := fun x => mk_event
  (e_id x) (e_state x) (delaying_seqnum x) (seqnum x) (devpath x) (devpath_old x) (devnum x) (ifindex x) (is_block x).

Inductive worker_state := WORKER_UNDEF | WORKER_RUNNING | WORKER_IDLE | WORKER_KILLED.
#[export] Instance worker_state_eq_dec : EqDecision worker_state.
Proof. solve_decision. Defined.
Record worker := mk_worker {
  pid : Z;
  refcount : Z;
  w_state : worker_state;
  w_event : option nat
}.
#[export] Instance worker_eta : Eta worker := fun x => mk_worker (pid x) (refcount x) (w_state x) (w_event x).

(** What the daemon does to other processes. *)
Inductive action := Fork (pid : Z) (id : nat) | Send (pid : Z) (id : nat) | Kill (pid sig : Z).
Definition SIGHUP : Z := 1.
Definition SIGINT : Z := 2.
Definition SIGKILL : Z := 9.
Definition SIGTERM : Z := 15.
Definition SIGCHLD : Z := 17.

(** The static variables; [next_id] is the next address, [actions] the actions
    so far, the last one first. *)
Record daemon := mk_daemon {
  event_list : list event;
  worker_list : list worker;
  children : Z;
  children_max : Z;
  stop_exec_queue : bool;
  reload : bool;
  udev_exit : bool;
  next_id : nat;
  actions : list action
}.
#[export] Instance daemon_eta : Eta daemon := fun x => mk_daemon
  (event_list x) (worker_list x) (children x) (children_max x) (stop_exec_queue x) (reload x) (udev_exit x)
  (next_id x) (actions x).
Implicit Types (d : daemon) (e : event) (w : worker).

Definition find_event d (id : nat) : option event := find (fun e => bool_decide (e_id e = id)) (event_list d).
Definition find_worker d (p : Z) : option worker := find (fun w => bool_decide (pid w = p)) (worker_list d).
Definition on_event (id : nat) (f : event -> event) d : daemon :=
  d <| event_list := (fun e => if decide (e_id e = id) then f e else e) <$> event_list d |>.
Definition on_worker (p : Z) (f : worker -> worker) d : daemon :=
  d <| worker_list := (fun w => if decide (pid w = p) then f w else w) <$> worker_list d |>.
Definition act (a : action) d : daemon := d <| actions := a :: actions d |>.

Definition event_queue_delete (id : nat) d : option daemon :=
  match find_event d id with
  | None => None
  | Some _ => Some (d <| event_list := filter (fun e => e_id e <> id) (event_list d) |>)
  end.
Definition worker_ref (p : Z) d : daemon := on_worker p (fun w => w <| refcount := refcount w + 1 |>) d.
Definition worker_cleanup (p : Z) d : daemon :=
  d <| worker_list := filter (fun w => pid w <> p) (worker_list d) |> <| children := children d - 1 |>.
Definition worker_unref (p : Z) d : option daemon :=
  match find_worker d p with
  | None => None
  | Some w =>
      let d := on_worker p (fun w => w <| refcount := refcount w - 1 |>) d in
      Some (if 0 <? refcount w - 1 then d else worker_cleanup p d)
  end.

(** ** Starting an event *)

(** The address of the first event is 1: [fork] tells the pid of the new
    process, or that it failed (or the socket for the worker did). *)
Definition worker_new (fork : daemon -> option Z) (id : nat) d : daemon :=
  match fork d with
  | None => on_event id (fun e => e <| e_state := EVENT_QUEUED |>) d
  | Some p =>
      let d := on_event id (fun e => e <| e_state := EVENT_RUNNING |>) d in
      act (Fork p id) (d <| worker_list := worker_list d ++ [mk_worker p 2 WORKER_RUNNING (Some id)] |>
                         <| children := children d + 1 |>)
  end.
(** The search for an idle worker that accepts the event. *)
Fixpoint run_loop (send : Z -> bool) (ws : list worker) (id : nat) d : daemon * bool :=
  match ws with
  | [] => (d, false)
  | w :: ws' =>
      if negb (bool_decide (w_state w = WORKER_IDLE)) then run_loop send ws' id d
      else if negb (send (pid w)) then
        run_loop send ws' id
          (on_worker (pid w) (fun w => w <| w_state := WORKER_KILLED |>) (act (Kill (pid w) SIGKILL) d))
      else
        let d := worker_ref (pid w) (act (Send (pid w) id) d) in
        let d := on_worker (pid w) (fun w => w <| w_event := Some id |> <| w_state := WORKER_RUNNING |>) d in
        (on_event id (fun e => e <| e_state := EVENT_RUNNING |>) d, true)
  end.
Definition event_run (send : Z -> bool) (fork : daemon -> option Z) (id : nat) d : daemon :=
  let '(d, started) := run_loop send (worker_list d) id d in
  if started then d
  else if children_max d <=? children d then d
  else worker_new fork id d.

(** ** The queue *)

(** What [event_queue_insert] reads from the device. *)
Record device_info := mk_info {
  i_seqnum : Z;
  i_devpath : bytes;
  i_devpath_old : option bytes;
  i_devnum : Z;
  i_ifindex : Z;
  i_is_block : bool
}.
Definition event_queue_insert (i : device_info) d : daemon :=
  d <| event_list := event_list d ++ [mk_event (next_id d) EVENT_QUEUED 0 (i_seqnum i) (i_devpath i)
         (i_devpath_old i) (i_devnum i) (i_ifindex i) (i_is_block i)] |>
    <| next_id := S (next_id d) |>.

Definition worker_kill d : daemon :=
  let alive := filter (fun w => w_state w <> WORKER_KILLED) (worker_list d) in
  d <| worker_list := (fun w => w <| w_state := WORKER_KILLED |>) <$> worker_list d |>
    <| actions := rev ((fun w => Kill (pid w) SIGTERM) <$> alive) ++ actions d |>.

(** The loop over the queue: whether [e] has to wait, and its new
    [delaying_seqnum]. *)
Fixpoint busy_loop e (l : list event) : bool * Z :=
  let delaying := delaying_seqnum e in
  match l with
  | [] => (false, delaying)
  | x :: l' =>
      if seqnum x <? delaying then busy_loop e l'
      else if seqnum x =? delaying then (true, delaying)
      else if seqnum e <=? seqnum x then (false, delaying)
      else if negb (Device.major (devnum e) =? 0) && (devnum e =? devnum x) && Bool.eqb (is_block e) (is_block x)
      then (true, delaying)
      else if negb (ifindex e =? 0) && (ifindex e =? ifindex x) then (true, delaying)
      else if bool_decide (devpath_old e = Some (devpath x)) then (true, seqnum x)
      else
        let common := Nat.min (length (devpath x)) (length (devpath e)) in
        if negb (bool_decide (take common (devpath x) = take common (devpath e))) then busy_loop e l'
        else if (length (devpath x) =? length (devpath e))%nat then
          if negb (Device.major (devnum e) =? 0) &&
             (negb (devnum e =? devnum x) || negb (Bool.eqb (is_block e) (is_block x))) then busy_loop e l'
          else if negb (ifindex e =? 0) && negb (ifindex e =? ifindex x) then busy_loop e l'
          else (true, seqnum x)
        else if nth common (devpath e) nul ==c "/" then (true, seqnum x)
        else if nth common (devpath x) nul ==c "/" then (true, seqnum x)
        else busy_loop e l'
  end.
Definition is_devpath_busy e d : bool * daemon :=
  let '(busy, delaying) := busy_loop e (event_list d) in
  (busy, on_event (e_id e) (fun e => e <| delaying_seqnum := delaying |>) d).

Fixpoint start_loop (send : Z -> bool) (fork : daemon -> option Z) (ids : list nat) d : daemon :=
  match ids with
  | [] => d
  | id :: ids' =>
      match find_event d id with
      | Some e =>
          if negb (bool_decide (e_state e = EVENT_QUEUED)) then start_loop send fork ids' d
          else
            let '(busy, d) := is_devpath_busy e d in
            if (busy : bool) then start_loop send fork ids' d
            else start_loop send fork ids' (event_run send fork id d)
      | None => start_loop send fork ids' d
      end
  end.
Definition event_queue_start (send : Z -> bool) (fork : daemon -> option Z) d : daemon :=
  start_loop send fork (e_id <$> event_list d) d.
Definition event_queue_cleanup (match_type : event_state) d : daemon :=
  d <| event_list := filter (fun e => match_type <> EVENT_UNDEF /\ match_type <> e_state e) (event_list d) |>.

(** ** Finishing an event *)

(** The messages in the socket of the workers. *)
Fixpoint worker_returned (msgs : list Z) d : option daemon :=
  match msgs with
  | [] => Some d
  | p :: msgs' =>
      match find_worker d p with
      | None => worker_returned msgs' d
      | Some w =>
          d ← match w_event w with
              | Some id => event_queue_delete id d
              | None => Some d
              end;
          let d := on_worker p (fun w => w <| w_event := None |> <| w_state :=
            if decide (w_state w = WORKER_KILLED) then WORKER_KILLED else WORKER_IDLE |>) d in
          d ← worker_unref p d;
          worker_returned msgs' d
      end
  end.
(** The children that have ended, and whether with status 0. *)
Fixpoint reap_loop (reaped : list (Z * bool)) d : option daemon :=
  match reaped with
  | [] => Some d
  | (p, ok) :: reaped' =>
      match find_worker d p with
      | None => reap_loop reaped' d
      | Some w =>
          d ← (if ok then Some d
               else match w_event w with
                    | Some id => d ← event_queue_delete id d; worker_unref p d
                    | None => Some d
                    end);
          d ← worker_unref p d;
          reap_loop reaped' d
      end
  end.
Definition handle_signal (signo : Z) (reaped : list (Z * bool)) d : option daemon :=
  if (signo =? SIGINT) || (signo =? SIGTERM) then Some (d <| udev_exit := true |>)
  else if signo =? SIGCHLD then reap_loop reaped d
  else if signo =? SIGHUP then Some (d <| reload := true |>)
  else Some d.
(** Workers that are busy for too long. *)
Fixpoint hang_loop (hung : Z -> bool) (ws : list worker) d : option daemon :=
  match ws with
  | [] => Some d
  | w :: ws' =>
      if negb (bool_decide (w_state w = WORKER_RUNNING)) then hang_loop hung ws' d
      else if negb (hung (pid w)) then hang_loop hung ws' d
      else
        let d := act (Kill (pid w) SIGKILL) d in
        let d := on_worker (pid w) (fun w => w <| w_state := WORKER_KILLED |>) d in
        d ← worker_unref (pid w) d;
        w ← find_worker d (pid w);
        id ← w_event w;
        d ← event_queue_delete id d;
        hang_loop hung ws' (on_worker (pid w) (fun w => w <| w_event := None |>) d)
  end.

(** A message of udevadm control. *)
Record ctrl_msg := mk_ctrl {
  c_log_level : Z;
  c_stop : bool;
  c_start : bool;
  c_reload : bool;
  c_env : bool;
  c_children_max : Z;
  c_exit : bool
}.
Definition handle_ctrl_msg (m : ctrl_msg) d : daemon :=
  let d := if 0 <=? c_log_level m then worker_kill d else d in
  let d := if c_stop m then d <| stop_exec_queue := true |> else d in
  let d := if c_start m then d <| stop_exec_queue := false |> else d in
  let d := if c_reload m then d <| reload := true |> else d in
  let d := if c_env m then worker_kill d else d in
  let d := if 0 <=? c_children_max m then d <| children_max := c_children_max m |> else d in
  if c_exit m then d <| udev_exit := true |> else d.

(** ** The main loop *)

(** What one round sees: [in_timeout] is that [epoll_wait] returned 0,
    [in_changed] that the rules or a builtin have changed. *)
Record input := mk_input {
  in_timeout : bool;
  in_hung : Z -> bool;
  in_changed : bool;
  in_msgs : list Z;
  in_device : option device_info;
  in_send : Z -> bool;
  in_fork : daemon -> option Z;
  in_signal : option (Z * list (Z * bool));
  in_ctrl : option ctrl_msg
}.
Inductive round := Running (d : daemon) | Ended (d : daemon).
Definition empty {A} (l : list A) : bool := match l with [] => true | _ => false end.

Definition round_exit d : daemon := worker_kill (event_queue_cleanup EVENT_QUEUED d).
Definition round_timeout (i : input) d : option daemon :=
  let d := if empty (event_list d) then worker_kill d else d in
  hang_loop (in_hung i) (worker_list d) d.
Definition round_reload (i : input) d : daemon :=
  let d := if in_changed i then d <| reload := true |> else d in
  if reload d then worker_kill d <| reload := false |> else d.
Definition round_netlink (i : input) d : daemon :=
  match in_device i with Some dev => event_queue_insert dev d | None => d end.
Definition round_start (i : input) d : daemon :=
  if negb (empty (event_list d)) && negb (udev_exit d) && negb (stop_exec_queue d)
  then event_queue_start (in_send i) (in_fork i) d else d.
Definition round_signal (i : input) d : option daemon :=
  match in_signal i with Some (signo, reaped) => handle_signal signo reaped d | None => Some d end.
Definition round_ctrl (i : input) d : daemon :=
  if udev_exit d then d
  else match in_ctrl i with Some m => handle_ctrl_msg m d | None => d end.

(** The part of the round in front of the signals. *)
Definition round_work (i : input) d : option daemon :=
  d ← (if in_timeout i then round_timeout i d else Some d);
  d ← worker_returned (in_msgs i) (round_reload i d);
  Some (round_start i (round_netlink i d)).
Definition main_round (i : input) d : option round :=
  let d := if udev_exit d then round_exit d else d in
  if udev_exit d && empty (event_list d) && (children d =? 0) then Some (Ended d)
  else if in_timeout i && udev_exit d then Some (Ended d)
  else
    d ← round_work i d;
    d ← round_signal i d;
    Some (Running (round_ctrl i d)).
End Udevd.
