(* ===== verification/UdevdQueue.v ===== *)
(** The queue of the daemon: the search for a blocking event with its cache is
    the search without one, and no event is started before an earlier one it
    depends on has left the queue. *)

From Stdlib Require Import ZArith Lia Ascii Sorted.
From stdpp Require Import prelude gmap strings sorting.
From S2P Require Import Prelude System Device Udevd.
Import Udevd.

Module UdevdQueue.

(** * Lists with a key *)

Section keyed.
Context {A K : Type} `{EqDecision K} (key : A -> K).
Implicit Types (l : list A) (x : A).

Lemma find_key_split l k x :
  find (fun x => bool_decide (key x = k)) l = Some x ->
  exists l1 l2, l = l1 ++ x :: l2 /\ key x = k /\ Forall (fun y => key y <> k) l1.
Proof.
  induction l as [|y l IH]; simpl; [done|]. case_bool_decide as Hk.
  - intros [= <-]. by exists [], l.
  - intros (l1 & l2 & -> & Hx & Hl)%IH. exists (y :: l1), l2. split_and!; [done|done|by constructor].
Qed.
Lemma map_key_other l k (f : A -> A) :
  Forall (fun y => key y <> k) l -> (fun y => if decide (key y = k) then f y else y) <$> l = l.
Proof. induction 1 as [|y l Hy _ IH]; [done|]. rewrite fmap_cons, IH. by rewrite decide_False. Qed.
Lemma filter_key_other l k : Forall (fun y => key y <> k) l -> filter (fun y => key y <> k) l = l.
Proof. induction 1 as [|y l Hy _ IH]; [done|]. by rewrite filter_cons_True, IH. Qed.

(** The element with a key that occurs once: search, update and removal. *)
Lemma keyed_at l1 x l2 :
  NoDup (key <$> l1 ++ x :: l2) ->
  find (fun y => bool_decide (key y = key x)) (l1 ++ x :: l2) = Some x /\
  (forall f, (fun y => if decide (key y = key x) then f y else y) <$> l1 ++ x :: l2 = l1 ++ f x :: l2) /\
  filter (fun y => key y <> key x) (l1 ++ x :: l2) = l1 ++ l2.
Proof.
  intros Hnd. rewrite fmap_app, fmap_cons in Hnd. apply NoDup_app in Hnd as (_ & Hd & Hn).
  apply NoDup_cons in Hn as [Hn _].
  assert (Forall (fun y => key y <> key x) l1) as H1
    by (apply Forall_forall; intros y Hy E; apply (Hd (key y)); [by apply list_elem_of_fmap_2|rewrite E; set_solver]).
  assert (Forall (fun y => key y <> key x) l2) as H2
    by (apply Forall_forall; intros y Hy E; apply Hn; rewrite <- E; by apply list_elem_of_fmap_2).
  split_and!.
  - clear -H1. induction H1 as [|y l1 Hy _ IH]; simpl; [by rewrite bool_decide_true|]. by rewrite bool_decide_false.
  - intros f. by rewrite fmap_app, fmap_cons, decide_True, !map_key_other by done.
  - rewrite filter_app, filter_cons_False by (intros []; done). by rewrite !filter_key_other.
Qed.
Lemma keyed_split l k x :
  NoDup (key <$> l) -> find (fun x => bool_decide (key x = k)) l = Some x ->
  exists l1 l2, l = l1 ++ x :: l2 /\ key x = k /\
    (forall f, (fun y => if decide (key y = k) then f y else y) <$> l = l1 ++ f x :: l2) /\
    filter (fun y => key y <> k) l = l1 ++ l2.
Proof.
  intros Hnd (l1 & l2 & -> & <- & _)%find_key_split. exists l1, l2.
  destruct (keyed_at l1 x l2 Hnd) as (_ & ? & ?). done.
Qed.
Lemma find_key_in l x :
  NoDup (key <$> l) -> x ∈ l -> find (fun y => bool_decide (key y = key x)) l = Some x.
Proof.
  induction l as [|y l IH]; intros Hnd Hx; [by apply not_elem_of_nil in Hx|]. simpl.
  rewrite fmap_cons in Hnd. apply NoDup_cons in Hnd as [Hy Hnd].
  apply elem_of_cons in Hx as [->|Hx]; [by rewrite bool_decide_true|].
  rewrite bool_decide_false; [by apply IH|]. intros E. apply Hy. rewrite E. by apply list_elem_of_fmap_2.
Qed.
Lemma find_key_elem l k x : find (fun y => bool_decide (key y = k)) l = Some x -> x ∈ l /\ key x = k.
Proof. intros (l1 & l2 & -> & Hx & _)%find_key_split. split; [set_solver|done]. Qed.
Lemma find_key_None l k : find (fun y => bool_decide (key y = k)) l = None -> k ∉ key <$> l.
Proof.
  induction l as [|y l IH]; simpl; [intros _; apply not_elem_of_nil|]. case_bool_decide; [done|].
  intros Hk. apply not_elem_of_cons. split; [congruence|by apply IH].
Qed.
End keyed.

(** * When an event has to wait *)

(** The path of [q] is below the one of [p]. *)
Definition below (p q : bytes) : bool :=
  match startswith q p with Some (c :: _) => c ==c "/" | _ => false end.
Definition same_node (x e : event) : bool := (devnum e =? devnum x) && Bool.eqb (is_block e) (is_block x).
Definition has_node (e : event) : bool := negb (Device.major (devnum e) =? 0).
(** The event [e] must not run before the earlier event [x] is finished: they
    are about the same node, the same network interface, the old name of the
    device, a parent or a child, or the same path (unless the name has passed
    to another node or interface meanwhile). *)
Definition conflicts (x e : event) : bool :=
  (has_node e && same_node x e) ||
  (negb (ifindex e =? 0) && (ifindex e =? ifindex x)) ||
  bool_decide (devpath_old e = Some (devpath x)) ||
  below (devpath x) (devpath e) || below (devpath e) (devpath x) ||
  (bool_decide (devpath x = devpath e) && (negb (has_node e) || same_node x e) &&
   ((ifindex e =? 0) || (ifindex e =? ifindex x))).
Definition blocked (l : list event) (e : event) : bool :=
  existsb (fun x => (seqnum x <? seqnum e) && conflicts x e) l.
(** What [delaying_seqnum] knows. *)
Definition cache_ok (l : list event) (e : event) : Prop :=
  delaying_seqnum e < seqnum e /\
  forall x, x ∈ l -> (seqnum x < delaying_seqnum e -> conflicts x e = false) /\
                     (seqnum x = delaying_seqnum e -> conflicts x e = true).
Definition queue_sorted (l : list event) : Prop := StronglySorted Z.lt (seqnum <$> l).

Lemma below_spec p q : below p q = true <-> exists r, q = p ++ "/"%char :: r.
Proof.
  unfold below. destruct (startswith q p) as [[|c r]|] eqn:E.
  - apply startswith_Some in E. split; [done|]. intros [r ->]. apply app_inv_head in E. done.
  - apply startswith_Some in E as ->. destruct (eqbP c "/") as [->|Hne]; split; try done; [by exists r|].
    intros [r' E']. apply app_inv_head in E'. congruence.
  - split; [done|]. intros [r ->]. by rewrite startswith_app in E.
Qed.
Lemma take_min_eq (p q : bytes) :
  let n := Nat.min (length p) (length q) in
  take n p = take n q -> (exists r, q = p ++ r) \/ (exists r, p = q ++ r).
Proof.
  simpl. intros E. destruct (decide (length p <= length q)%nat).
  - left. exists (drop (length p) q). rewrite Nat.min_l, take_ge in E by lia. rewrite E at 1. by rewrite take_drop.
  - right. exists (drop (length q) p). rewrite Nat.min_r, (take_ge q) in E by lia. rewrite <- E at 1. by rewrite take_drop.
Qed.
Lemma below_length p q : below p q = true -> (length p < length q)%nat.
Proof. intros [r ->]%below_spec. rewrite length_app. simpl. lia. Qed.

(** The comparison of the paths as the code makes it. *)
Lemma path_compare (p q : bytes) :
  let n := Nat.min (length p) (length q) in
  (take n p <> take n q -> below p q = false /\ below q p = false /\ p <> q) /\
  (take n p = take n q ->
    (length p = length q -> p = q) /\
    (length p <> length q -> below p q = (nth n q nul ==c "/") /\ below q p = (nth n p nul ==c "/"))).
Proof.
  simpl. set (n := Nat.min _ _). split.
  - intros Hne. split_and!.
    + apply not_true_iff_false. intros [r ->]%below_spec. apply Hne.
      assert (n = length p) as -> by (unfold n; rewrite length_app; lia). by rewrite take_app_length, take_ge.
    + apply not_true_iff_false. intros [r ->]%below_spec. apply Hne.
      assert (n = length q) as -> by (unfold n; rewrite length_app; lia). by rewrite take_app_length, take_ge.
    + intros ->. done.
  - intros Heq. apply take_min_eq in Heq. assert (forall a r, below a (a ++ r) = (nth 0 r nul ==c "/")) as Hb.
    { intros a r. unfold below. rewrite startswith_app. by destruct r. }
    assert (forall a r, nth (length a) (a ++ r) nul = nth 0 r nul) as Hn.
    { intros a r. rewrite app_nth2, Nat.sub_diag by lia. done. }
    assert (forall a b, below b a = true -> (length a <= length b)%nat -> False) as Hl.
    { intros a b ?%below_length. lia. }
    split.
    + intros Hl'. destruct Heq as [[r ->]|[r ->]]; rewrite length_app in Hl';
        (destruct r; [by rewrite app_nil_r|simpl in Hl'; lia]).
    + intros Hl'. destruct Heq as [[r ->]|[r ->]].
      * assert (n = length p) as -> by (unfold n; rewrite length_app; lia). rewrite Hn, Hb, (nth_overflow p) by lia.
        split; [done|]. apply not_true_iff_false. intros ?%below_length. rewrite length_app in *. lia.
      * assert (n = length q) as -> by (unfold n; rewrite length_app; lia). rewrite Hn, Hb, (nth_overflow q) by lia.
        split; [|done]. apply not_true_iff_false. intros ?%below_length. rewrite length_app in *. lia.
Qed.

(** One step of the loop past the cache and the end. *)
Lemma busy_step x l e :
  delaying_seqnum e < seqnum x -> seqnum x < seqnum e ->
  if conflicts x e then (busy_loop e (x :: l)).1 = true /\
    ((busy_loop e (x :: l)).2 = delaying_seqnum e \/ (busy_loop e (x :: l)).2 = seqnum x)
  else busy_loop e (x :: l) = busy_loop e l.
Proof.
  intros H1 H2. cbn [busy_loop].
  rewrite (proj2 (Z.ltb_ge _ _)), (proj2 (Z.eqb_neq _ _)), (proj2 (Z.leb_gt _ _)) by lia.
  unfold conflicts. fold (has_node e).
  replace (has_node e && (devnum e =? devnum x) && Bool.eqb (is_block e) (is_block x)) with (has_node e && same_node x e)
    by (unfold same_node; by rewrite andb_assoc).
  destruct (has_node e && same_node x e) eqn:En; [simpl; by auto|].
  destruct (negb (ifindex e =? 0) && (ifindex e =? ifindex x)) eqn:Ei; [simpl; by auto|].
  case_bool_decide as Eo; [simpl; by auto|]. cbn [orb].
  destruct (path_compare (devpath x) (devpath e)) as [P1 P2].
  set (n := Nat.min _ _) in *. destruct (bool_decide (take n (devpath x) = take n (devpath e))) eqn:Et.
  - apply bool_decide_eq_true in Et. destruct (P2 Et) as [P3 P4]. clear P1 P2. cbn [negb].
    destruct (Nat.eqb_spec (length (devpath x)) (length (devpath e))) as [Hl|Hl].
    + specialize (P3 Hl). rewrite <- P3.
      assert (below (devpath x) (devpath x) = false) as -> by (apply not_true_iff_false; intros ?%below_length; lia).
      rewrite bool_decide_true by done. cbn [orb andb].
      replace (negb (devnum e =? devnum x) || negb (Bool.eqb (is_block e) (is_block x))) with (negb (same_node x e))
        by (unfold same_node; by rewrite negb_andb).
      destruct (has_node e), (same_node x e), (ifindex e =? 0), (ifindex e =? ifindex x); simpl in *; auto.
    + destruct (P4 Hl) as [-> ->]. rewrite (bool_decide_false (_ = _)) by congruence. cbn [andb orb].
      rewrite orb_false_r. destruct (nth n (devpath e) nul ==c "/"); [simpl; by auto|].
      destruct (nth n (devpath x) nul ==c "/"); simpl; auto.
  - apply bool_decide_eq_false in Et. destruct (P1 Et) as (-> & -> & Hne).
    rewrite bool_decide_false by done. done.
Qed.

Lemma conflicts_delaying x e s : conflicts x (e <| delaying_seqnum := s |>) = conflicts x e.
Proof. done. Qed.

Lemma blocked_behind l e : Forall (fun y => seqnum e <= seqnum y) l -> blocked l e = false.
Proof.
  induction 1 as [|y l Hy _ IH]; [done|]. simpl. rewrite (proj2 (Z.ltb_ge _ _)) by lia. done.
Qed.
Lemma queue_sorted_app l1 x l2 :
  queue_sorted (l1 ++ x :: l2) ->
  Forall (fun y => seqnum y < seqnum x) l1 /\ Forall (fun y => seqnum x < seqnum y) l2.
Proof.
  unfold queue_sorted. rewrite fmap_app, fmap_cons. intros H. split.
  - induction l1 as [|y l1 IH]; [done|]. rewrite fmap_cons in H. simpl in H.
    apply StronglySorted_inv in H as [H Hy]. constructor; [|by apply IH].
    rewrite Forall_forall in Hy. apply Hy. set_solver.
  - induction l1 as [|y l1 IH]; [|rewrite fmap_cons in H; apply StronglySorted_inv in H as [H _]; by apply IH].
    apply StronglySorted_inv in H as [_ H]. apply (Forall_fmap seqnum) in H. exact H.
Qed.

Lemma busy_loop_ok pre l e :
  queue_sorted (pre ++ l) -> cache_ok (pre ++ l) e -> Forall (fun y => conflicts y e = false) pre ->
  (busy_loop e l).1 = blocked l e /\
  cache_ok (pre ++ l) (e <| delaying_seqnum := (busy_loop e l).2 |>).
Proof.
  revert pre. induction l as [|x l IH]; intros pre Hs Hc Hp; [done|].
  pose proof (queue_sorted_app pre x l Hs) as [_ Hl].
  assert (forall b, conflicts x e = false -> b = blocked l e ->
    b = blocked (x :: l) e) as Hb by (intros b Hx ->; simpl; by rewrite Hx, andb_false_r).
  assert (conflicts x e = false ->
    (busy_loop e l).1 = blocked l e /\
    cache_ok (pre ++ x :: l) (e <| delaying_seqnum := (busy_loop e l).2 |>)) as Hnext.
  { intros Hx. rewrite cons_middle, app_assoc. apply IH; rewrite <- ?app_assoc; [done|done|].
    apply Forall_app. split; [done|by constructor]. }
  destruct Hc as [Hd Hc]. pose proof (Hc x ltac:(set_solver)) as [Hc1 Hc2].
  destruct (Z.lt_trichotomy (seqnum x) (delaying_seqnum e)) as [Hlt|[Heq|Hgt]].
  - cbn [busy_loop]. rewrite (proj2 (Z.ltb_lt _ _)) by done. destruct (Hnext (Hc1 Hlt)). split; [by apply Hb; auto|done].
  - cbn [busy_loop]. rewrite (proj2 (Z.ltb_ge _ _)), (proj2 (Z.eqb_eq _ _)) by lia. simpl. split; [|done].
    rewrite Hc2, (proj2 (Z.ltb_lt _ _)) by lia. done.
  - destruct (Z.le_gt_cases (seqnum e) (seqnum x)) as [Hle|Hlt].
    + cbn [busy_loop]. rewrite (proj2 (Z.ltb_ge _ _)), (proj2 (Z.eqb_neq _ _)), (proj2 (Z.leb_le _ _)) by lia.
      split; [|done]. symmetry. apply blocked_behind. constructor; [done|].
      eapply Forall_impl; [exact Hl|]. simpl. lia.
    + pose proof (busy_step x l e Hgt Hlt) as Hstep. destruct (conflicts x e) eqn:Hx.
      * destruct Hstep as [Hb1 Hb2]. rewrite Hb1. split; [simpl; by rewrite Hx, (proj2 (Z.ltb_lt _ _) Hlt)|].
        destruct Hb2 as [->| ->]; [by split|]. split; [done|]. intros y Hy. cbn. split.
        -- intros Hyx. apply elem_of_app in Hy as [Hy|Hy]; [rewrite Forall_forall in Hp; by apply Hp|].
           apply elem_of_cons in Hy as [->|Hy]; [lia|]. rewrite Forall_forall in Hl. specialize (Hl y Hy). simpl in Hl. lia.
        -- intros Hyx. pose proof (queue_sorted_app pre x l Hs) as [Hpre _].
           apply elem_of_app in Hy as [Hy|Hy].
           { rewrite Forall_forall in Hpre. specialize (Hpre y Hy). simpl in Hpre. lia. }
           apply elem_of_cons in Hy as [->|Hy]; [done|]. rewrite Forall_forall in Hl. specialize (Hl y Hy). simpl in Hl. lia.
      * rewrite Hstep. destruct (Hnext eq_refl). split; [by apply Hb|done].
Qed.

(** C7: the search for an event that blocks another one, with the sequence
    number it remembers from earlier searches, gives what the search without
    a memory gives: an event has to wait exactly when some earlier event of
    the queue conflicts with it; and what is remembered stays true. *)
Theorem is_devpath_busy_exact e d :
  queue_sorted (event_list d) -> cache_ok (event_list d) e ->
  let '(busy, d') := is_devpath_busy e d in
  busy = blocked (event_list d) e /\
  cache_ok (event_list d) (e <| delaying_seqnum := (busy_loop e (event_list d)).2 |>) /\
  d' = on_event (e_id e) (fun x => x <| delaying_seqnum := (busy_loop e (event_list d)).2 |>) d.
Proof.
  intros Hs Hc. unfold is_devpath_busy. pose proof (busy_loop_ok [] (event_list d) e Hs Hc ltac:(done)) as [H1 H2].
  destruct (busy_loop e (event_list d)) as [b s]. done.
Qed.
(** A device and its partition: the partition waits for the disk. *)
Definition example_disk : event := mk_event 1 EVENT_RUNNING 0 7 "/devices/sda" None 2048 0 true.
Definition example_partition : event := mk_event 2 EVENT_QUEUED 0 9 "/devices/sda/sda1" None 2049 0 true.
Definition example_queue : daemon := mk_daemon
  [example_disk; mk_event 3 EVENT_QUEUED 0 8 "/devices/sdab" None 2050 0 true; example_partition] [] 0 8 false false false 4 [].
Lemma is_devpath_busy_exact_witness :
  queue_sorted (event_list example_queue) /\ cache_ok (event_list example_queue) example_partition /\
  let '(busy, d') := is_devpath_busy example_partition example_queue in
  busy = true /\ busy = blocked (event_list example_queue) example_partition /\
  delaying_seqnum <$> event_list d' = [0; 0; 7].
Proof.
  assert (queue_sorted (event_list example_queue)) as Hs by (repeat constructor; lia).
  assert (cache_ok (event_list example_queue) example_partition) as Hc.
  { split; [done|]. intros x Hx. simpl in Hx. rewrite !elem_of_cons in Hx.
    destruct Hx as [->|[->|[->|Hx]]]; [split; simpl; lia..|by apply not_elem_of_nil in Hx]. }
  split; [exact Hs|]. split; [exact Hc|].
  pose proof (is_devpath_busy_exact example_partition example_queue Hs Hc) as H.
  destruct (is_devpath_busy example_partition example_queue) as [busy d'] eqn:E.
  assert (busy = true /\ delaying_seqnum <$> event_list d' = [0; 0; 7]) as [Hb Hd].
  { vm_compute in E. injection E as <- <-. split; reflexivity. }
  destruct H as [H1 _]. split; [exact Hb|]. split; [exact H1|exact Hd].
Defined.
End UdevdQueue.
