(* ===== verification/UdevdSafety.v ===== *)
(** Every state the daemon can reach keeps the order of the events of a
    device: an event runs only when no earlier event it depends on is left. *)

From Stdlib Require Import ZArith Lia Ascii Sorted.
From stdpp Require Import prelude gmap strings sorting.
From S2P Require Import Prelude System Device Udevd UdevdQueue.
Import Udevd UdevdQueue.

Module UdevdSafety.

#[export] Instance input_eta : Eta input := fun x => mk_input
  (in_timeout x) (in_hung x) (in_changed x) (in_msgs x) (in_device x) (in_send x) (in_fork x) (in_signal x) (in_ctrl x).

Implicit Types (d : daemon) (e x : event) (l : list event).

(** * What of an event never changes *)

Definition static (e : event) : nat * Z * bytes * option bytes * Z * Z * bool :=
  (e_id e, seqnum e, devpath e, devpath_old e, devnum e, ifindex e, is_block e).
Lemma static_conflicts x x' e e' : static x = static x' -> static e = static e' -> conflicts x e = conflicts x' e'.
Proof.
  unfold static, conflicts, has_node, same_node. intros Hx He. by simplify_eq/=;
    repeat match goal with H : _ = _ |- _ => rewrite H; clear H end.
Qed.
Lemma static_seqnum e e' : static e = static e' -> seqnum e = seqnum e'.
Proof. unfold static. congruence. Qed.
Lemma cons_inv {A} (x y : A) (l k : list A) : x :: l = y :: k -> x = y /\ l = k.
Proof. by injection 1 as -> ->. Qed.
Lemma static_fmap {B} (f : event -> B) (l l' : list event) :
  (forall e e', static e = static e' -> f e = f e') -> static <$> l = static <$> l' -> f <$> l = f <$> l'.
Proof.
  intros Hf. revert l'. induction l as [|e l IH]; intros [|e' l'] H; try done. rewrite !fmap_cons in *.
  apply cons_inv in H as [H1 H2]. f_equal; auto.
Qed.
Lemma static_blocked (l l' : list event) e e' : static <$> l = static <$> l' -> static e = static e' -> blocked l e = blocked l' e'.
Proof.
  intros Hl He. revert l' Hl. induction l as [|x l IH]; intros [|x' l'] Hl; try done. rewrite !fmap_cons in Hl.
  apply cons_inv in Hl as [Hx Hl]. simpl.
  by rewrite (static_seqnum _ _ Hx), (static_seqnum _ _ He), (static_conflicts _ _ _ _ Hx He), (IH l').
Qed.
Lemma static_elem (l l' : list event) x : static <$> l = static <$> l' -> x ∈ l -> exists x', x' ∈ l' /\ static x = static x'.
Proof.
  intros Hl Hx. apply (list_elem_of_fmap_2 static) in Hx. rewrite Hl in Hx. apply list_elem_of_fmap in Hx as (x' & -> & ?).
  by exists x'.
Qed.
Lemma static_cache (l l' : list event) e e' :
  static <$> l = static <$> l' -> static e = static e' -> delaying_seqnum e = delaying_seqnum e' ->
  cache_ok l e -> cache_ok l' e'.
Proof.
  intros Hl He Hd [H1 H2]. split; [by rewrite <- Hd, <- (static_seqnum _ _ He)|]. intros x Hx.
  destruct (static_elem _ _ _ (eq_sym Hl) Hx) as (x' & Hx' & Hs).
  rewrite (static_seqnum _ _ Hs), <- Hd, (static_conflicts x x' e' e) by done. by apply H2.
Qed.

Lemma blocked_true l e :
  blocked l e = true <-> exists x, x ∈ l /\ seqnum x < seqnum e /\ conflicts x e = true.
Proof.
  unfold blocked. rewrite existsb_exists. setoid_rewrite list_elem_of_In. setoid_rewrite andb_true_iff.
  setoid_rewrite Z.ltb_lt. naive_solver.
Qed.
Lemma blocked_sub l l' e : (forall x, x ∈ l -> x ∈ l') -> blocked l' e = false -> blocked l e = false.
Proof.
  intros Hs Hb. apply not_true_iff_false. intros (x & Hx & Hc)%blocked_true.
  apply not_true_iff_false in Hb. apply Hb, blocked_true. exists x. auto.
Qed.

(** * The queue *)

Record queue_ok (l : list event) (next : nat) : Prop := {
  q_sorted : queue_sorted l;
  q_positive : Forall (fun e => 0 < seqnum e) l;
  q_ids : NoDup (e_id <$> l);
  q_next : Forall (fun e => (e_id e < next)%nat) l;
  q_cache : Forall (cache_ok l) l;
  q_safe : forall e, e ∈ l -> e_state e = EVENT_RUNNING -> blocked l e = false
}.
(** The state between two uses of the queue. *)
Definition queue_inv d : Prop := queue_ok (event_list d) (next_id d).

Lemma queue_ok_filter (Q : event -> Prop) `{!forall e, Decision (Q e)} l next :
  queue_ok l next -> queue_ok (filter Q l) next.
Proof.
  intros [H1 H2 H3 H4 H5 H6].
  assert (forall x, x ∈ filter Q l -> x ∈ l) as Hsub by (intros x [_ ?]%list_elem_of_filter; done).
  assert (forall R : event -> Prop, Forall R l -> Forall R (filter Q l)) as HF by (intros R HR; rewrite Forall_forall in *; auto).
  assert (filter Q l `sublist_of` l) as Hsl by apply sublist_filter.
  split; [| |by eapply sublist_NoDup; [exact H3|]; apply fmap_sublist|by apply HF| |].
  - clear -H1. unfold queue_sorted in *. induction l as [|x l IH]; [constructor|]. rewrite fmap_cons in H1.
    apply StronglySorted_inv in H1 as [H1 Hx]. rewrite filter_cons. destruct (decide (Q x)); [|by apply IH].
    rewrite fmap_cons. constructor; [by apply IH|]. apply (Forall_fmap seqnum). apply (Forall_fmap seqnum) in Hx.
    rewrite Forall_forall in *. intros y [_ Hy]%list_elem_of_filter. by apply Hx.
  - by apply HF.
  - apply HF. eapply Forall_impl; [exact H5|]. intros e [Hd Hc]. split; [done|]. auto.
  - intros e He Hr. eapply blocked_sub; [exact Hsub|]. by apply H6; auto.
Qed.

Lemma queue_ok_insert i l next :
  queue_ok l next -> 0 < i_seqnum i -> Forall (fun e => seqnum e < i_seqnum i) l ->
  queue_ok (l ++ [mk_event next EVENT_QUEUED 0 (i_seqnum i) (i_devpath i) (i_devpath_old i) (i_devnum i) (i_ifindex i) (i_is_block i)])
    (S next).
Proof.
  intros [H1 H2 H3 H4 H5 H6] Hpos Hnew. set (n := mk_event _ _ _ _ _ _ _ _ _).
  split.
  - unfold queue_sorted in *. rewrite fmap_app. clear -H1 Hnew. induction l as [|x l IH]; [repeat constructor|].
    rewrite fmap_cons in *. simpl. apply StronglySorted_inv in H1 as [H1 Hx]. apply Forall_cons in Hnew as [Hn Hnew].
    constructor; [by apply IH|]. apply Forall_app. split; [done|]. by repeat constructor.
  - apply Forall_app. split; [done|]. by repeat constructor.
  - rewrite fmap_app. apply NoDup_app. split_and!; [done| |apply NoDup_singleton].
    intros id Hid Hn. apply list_elem_of_singleton in Hn as ->. apply list_elem_of_fmap in Hid as (x & Hx & Hin).
    rewrite Forall_forall in H4. specialize (H4 x Hin). simpl in *. lia.
  - apply Forall_app. split; [eapply Forall_impl; [exact H4|]; simpl; lia|]. repeat constructor.
  - apply Forall_app. split.
    + rewrite Forall_forall in *. intros e He. destruct (H5 e He) as [Hd Hc]. specialize (Hnew e He). split; [done|].
      intros x [Hx|Hx]%elem_of_app; [by apply Hc|]. apply list_elem_of_singleton in Hx as ->. simpl. lia.
    + constructor; [|done]. split; [done|]. intros x Hx. simpl. assert (0 < seqnum x); [|lia].
      apply elem_of_app in Hx as [Hx|Hx]; [rewrite Forall_forall in H2; by apply H2|].
      by apply list_elem_of_singleton in Hx as ->.
  - intros e He Hr. apply elem_of_app in He as [He|He]; [|by apply list_elem_of_singleton in He as ->].
    unfold blocked. rewrite existsb_app. fold (blocked l e). rewrite H6 by done. simpl.
    rewrite Forall_forall in Hnew. rewrite (proj2 (Z.ltb_ge _ _)) by (specialize (Hnew e He); lia). done.
Qed.

Lemma find_updated d id e (f : event -> event) :
  NoDup (e_id <$> event_list d) -> find_event d id = Some e -> e_id (f e) = e_id e ->
  find_event (on_event id f d) id = Some (f e).
Proof.
  intros Hnd Hf Hid. unfold find_event. simpl.
  destruct (keyed_split e_id _ _ e Hnd Hf) as (l1 & l2 & E & <- & Hon & _). rewrite Hon, <- Hid.
  apply (keyed_at e_id l1 (f e) l2). rewrite E in Hnd. rewrite fmap_app, fmap_cons in *. by rewrite Hid.
Qed.

(** A change of the state or of the cache of one event. *)
Lemma queue_ok_update l next id f :
  queue_ok l next -> (forall e, static (f e) = static e) ->
  (forall e, e ∈ l -> e_id e = id -> cache_ok l (f e) /\ (e_state (f e) = EVENT_RUNNING -> blocked l e = false)) ->
  queue_ok ((fun e => if decide (e_id e = id) then f e else e) <$> l) next.
Proof.
  intros [H1 H2 H3 H4 H5 H6] Hf Hid. set (g := fun e => if decide (e_id e = id) then f e else e).
  assert (forall e, static (g e) = static e) as Hg by (intros e; unfold g; destruct (decide _); auto).
  assert (static <$> (g <$> l) = static <$> l) as Hl.
  { rewrite <- list_fmap_compose. apply list_fmap_ext. intros _ e _. apply Hg. }
  assert (forall B (h : event -> B), (forall e e', static e = static e' -> h e = h e') -> h <$> (g <$> l) = h <$> l) as Hh
    by (intros B h Hs; by apply static_fmap).
  split.
  - unfold queue_sorted. rewrite (Hh _ seqnum) by (apply static_seqnum). done.
  - apply (Forall_fmap seqnum (Z.lt 0)). rewrite (Hh _ seqnum) by (apply static_seqnum). by apply Forall_fmap.
  - rewrite (Hh _ e_id); [done|]. unfold static. congruence.
  - apply (Forall_fmap e_id (fun i => (i < next)%nat)). rewrite (Hh _ e_id); [by apply Forall_fmap|]. unfold static. congruence.
  - apply Forall_fmap. rewrite Forall_forall in *. intros e He. simpl.
    eapply static_cache; [symmetry; exact Hl|reflexivity|reflexivity|]. unfold g.
    destruct (decide (e_id e = id)); [by apply Hid|by apply H5].
  - intros e' He' Hr. apply list_elem_of_fmap in He' as (e & -> & He).
    rewrite (static_blocked _ l _ e) by auto. unfold g in Hr.
    destruct (decide (e_id e = id)); [by apply Hid|by apply H6].
Qed.

(** * Operations that only remove events *)

(** Whatever holds of the queue and of all its parts is kept. *)
Definition shrinks d d' : Prop :=
  next_id d' = next_id d /\
  forall R : list event -> Prop,
    (forall (Q : event -> Prop) (H : forall e, Decision (Q e)) l, R l -> R (filter Q l)) ->
    R (event_list d) -> R (event_list d').
#[export] Instance shrinks_preorder : PreOrder shrinks.
Proof.
  split; [by split|]. intros d1 d2 d3 [N1 H1] [N2 H2]. split; [congruence|]. intros R HR ?. apply (H2 R HR), (H1 R HR). done.
Qed.
Lemma shrinks_same d d' : event_list d' = event_list d -> next_id d' = next_id d -> shrinks d d'.
Proof. intros He Hn. split; [done|]. intros R _. by rewrite He. Qed.
Lemma shrinks_inv d d' : shrinks d d' -> queue_inv d -> queue_inv d'.
Proof.
  intros [Hn HR]. unfold queue_inv. rewrite Hn. apply (HR (fun l => queue_ok l (next_id d))).
  intros Q ? l. by apply queue_ok_filter.
Qed.
Lemma shrinks_Forall (R : event -> Prop) d d' : shrinks d d' -> Forall R (event_list d) -> Forall R (event_list d').
Proof.
  intros [_ HR]. apply (HR (Forall R)). intros Q ? l Hl. rewrite Forall_forall in *.
  intros x [_ Hx]%list_elem_of_filter. auto.
Qed.
Lemma shrinks_delete id d d' : event_queue_delete id d = Some d' -> shrinks d d'.
Proof.
  unfold event_queue_delete. destruct (find_event d id); [|done]. intros [= <-]. split; [done|].
  intros R HR Hl. simpl. by apply HR.
Qed.
Lemma shrinks_unref p d d' : worker_unref p d = Some d' -> shrinks d d'.
Proof.
  unfold worker_unref. destruct (find_worker d p) as [w|]; [|done]. intros [= <-].
  destruct (0 <? refcount w - 1); by apply shrinks_same.
Qed.
Lemma shrinks_on_worker p f d : shrinks d (on_worker p f d).
Proof. by apply shrinks_same. Qed.

Lemma shrinks_returned msgs d d' : worker_returned msgs d = Some d' -> shrinks d d'.
Proof.
  revert d. induction msgs as [|p msgs IH]; intros d H; simpl in H; [by injection H as <-|].
  destruct (find_worker d p) as [w|]; [|by apply IH]. apply bind_Some in H as (d1 & H1 & H).
  apply bind_Some in H as (d2 & H2 & H).
  transitivity d1; [destruct (w_event w); [by eapply shrinks_delete|by injection H1 as <-]|].
  etrans; [apply shrinks_on_worker|]. etrans; [eapply shrinks_unref, H2|]. by apply IH.
Qed.
Lemma shrinks_reap reaped d d' : reap_loop reaped d = Some d' -> shrinks d d'.
Proof.
  revert d. induction reaped as [|[p ok] reaped IH]; intros d H; simpl in H; [by injection H as <-|].
  destruct (find_worker d p) as [w|]; [|by apply IH]. apply bind_Some in H as (d1 & H1 & H).
  apply bind_Some in H as (d2 & H2 & H). transitivity d1; [|etrans; [eapply shrinks_unref, H2|by apply IH]].
  destruct ok; [by injection H1 as <-|]. destruct (w_event w); [|by injection H1 as <-].
  apply bind_Some in H1 as (d3 & H3 & H1). etrans; [by eapply shrinks_delete|by eapply shrinks_unref].
Qed.
Lemma shrinks_signal signo reaped d d' : handle_signal signo reaped d = Some d' -> shrinks d d'.
Proof.
  unfold handle_signal. repeat case_match; intros H'; try (injection H' as <-; by apply shrinks_same).
  by eapply shrinks_reap.
Qed.
Lemma shrinks_hang hung ws d d' : hang_loop hung ws d = Some d' -> shrinks d d'.
Proof.
  revert d. induction ws as [|w ws IH]; intros d H; simpl in H; [by injection H as <-|].
  destruct (negb (bool_decide _)); [by apply IH|]. destruct (negb (hung (pid w))); [by apply IH|].
  apply bind_Some in H as (d1 & H1 & H). apply bind_Some in H as (w' & _ & H). apply bind_Some in H as (id & _ & H).
  apply bind_Some in H as (d2 & H2 & H). apply shrinks_unref in H1. apply shrinks_delete in H2.
  etrans; [|etrans; [exact H1|etrans; [exact H2|etrans; [apply shrinks_on_worker|by apply IH]]]]. by apply shrinks_same.
Qed.
Lemma shrinks_cleanup ty d : shrinks d (event_queue_cleanup ty d).
Proof. split; [done|]. intros R HR Hl. simpl. by apply HR. Qed.
Lemma shrinks_ctrl i d : shrinks d (round_ctrl i d).
Proof.
  unfold round_ctrl, handle_ctrl_msg. repeat case_match; by apply shrinks_same.
Qed.
Lemma shrinks_reload i d : shrinks d (round_reload i d).
Proof. unfold round_reload. repeat case_match; by apply shrinks_same. Qed.
Lemma shrinks_timeout i d d' : round_timeout i d = Some d' -> shrinks d d'.
Proof. unfold round_timeout. intros H. etrans; [|eapply shrinks_hang, H]. destruct (empty _); by apply shrinks_same. Qed.

(** * Starting events *)

Lemma run_loop_queue send ws id d :
  let '(d', started) := run_loop send ws id d in
  next_id d' = next_id d /\
  event_list d' = (if (started : bool) then event_list (on_event id (fun e => e <| e_state := EVENT_RUNNING |>) d)
                   else event_list d).
Proof.
  revert d. induction ws as [|w ws IH]; intros d; [done|]. simpl. destruct (negb (bool_decide _)); [apply IH|].
  destruct (negb (send (pid w))); [|done].
  specialize (IH (on_worker (pid w) (fun w => w <| w_state := WORKER_KILLED |>) (Udevd.act (Kill (pid w) SIGKILL) d))).
  by destruct (run_loop _ _ _ _).
Qed.
(** An event that is handed to [event_run] gets a state or stays as it is. *)
Lemma event_run_queue send fork id d :
  next_id (event_run send fork id d) = next_id d /\
  (event_list (event_run send fork id d) = event_list d \/
   exists st, st <> EVENT_UNDEF /\
     event_list (event_run send fork id d) = event_list (on_event id (fun e => e <| e_state := st |>) d)).
Proof.
  unfold event_run. pose proof (run_loop_queue send (worker_list d) id d) as H.
  destruct (run_loop _ _ _ _) as [d' [|]]; destruct H as [Hn He]; [split; [done|right; by exists EVENT_RUNNING]|].
  destruct (_ <=? _); [by auto|]. unfold worker_new. destruct (fork d'); (split; [exact Hn|right]).
  - exists EVENT_RUNNING. simpl. by rewrite He.
  - exists EVENT_QUEUED. simpl. by rewrite He.
Qed.
Lemma inv_on_event d id f :
  queue_inv d -> (forall e, static (f e) = static e) ->
  (forall e, e ∈ event_list d -> e_id e = id ->
     cache_ok (event_list d) (f e) /\ (e_state (f e) = EVENT_RUNNING -> blocked (event_list d) e = false)) ->
  queue_inv (on_event id f d).
Proof. intros Hq Hf Hid. by apply queue_ok_update. Qed.

Lemma inv_run send fork id d :
  queue_inv d -> (forall e, e ∈ event_list d -> e_id e = id -> blocked (event_list d) e = false) ->
  queue_inv (event_run send fork id d).
Proof.
  intros Hq Hb. pose proof (event_run_queue send fork id d) as [Hn [He|(st & _ & He)]]; unfold queue_inv; rewrite Hn, He; [done|].
  apply (inv_on_event d id (fun e => e <| e_state := st |>) Hq); [done|]. intros e Hin Hid. split; [|by auto].
  destruct Hq as [_ _ _ _ Hc _]. rewrite Forall_forall in Hc. exact (Hc e Hin).
Qed.
Lemma ids_unique l next e e' : queue_ok l next -> e ∈ l -> e' ∈ l -> e_id e = e_id e' -> e = e'.
Proof.
  intros [_ _ Hi _ _ _] He He' Hid. pose proof (find_key_in e_id l e Hi He) as H1.
  rewrite Hid, (find_key_in e_id l e' Hi He') in H1. congruence.
Qed.
Lemma busy_inv e d :
  queue_inv d -> e ∈ event_list d -> e_state e = EVENT_QUEUED ->
  let '(busy, d1) := is_devpath_busy e d in
  queue_inv d1 /\ busy = blocked (event_list d) e /\
  (busy = false -> forall x, x ∈ event_list d1 -> e_id x = e_id e -> blocked (event_list d1) x = false).
Proof.
  intros Hq Hin Est. pose proof Hq as [Hs _ _ _ Hc _]. rewrite Forall_forall in Hc.
  pose proof (busy_loop_ok [] (event_list d) e Hs (Hc e Hin) ltac:(done)) as [Hb Hc'].
  unfold is_devpath_busy. destruct (busy_loop e (event_list d)) as [busy delaying]. simpl in Hb, Hc'.
  set (d1 := on_event (e_id e) (fun x => x <| delaying_seqnum := delaying |>) d).
  split_and!; [|done|].
  - apply inv_on_event; [done|done|]. intros x Hx Hid. rewrite (ids_unique _ _ x e Hq Hx Hin Hid). split; [done|].
    simpl. by rewrite Est.
  - intros -> x Hx Hid.
    assert (static <$> event_list d1 = static <$> event_list d) as Hl.
    { unfold d1. simpl. rewrite <- list_fmap_compose. apply list_fmap_ext. intros _ y _. simpl. by destruct (decide _). }
    destruct (static_elem _ _ _ Hl Hx) as (y & Hy & Hxy). rewrite (static_blocked _ _ x y Hl Hxy).
    assert (y = e) as ->; [|done]. apply (ids_unique _ _ y e Hq Hy Hin). unfold static in Hxy. congruence.
Qed.
Lemma inv_start_loop send fork ids d : queue_inv d -> queue_inv (start_loop send fork ids d).
Proof.
  revert d. induction ids as [|id ids IH]; intros d Hq; [done|]. simpl.
  destruct (find_event d id) as [e|] eqn:E; [|by apply IH]. destruct (negb (bool_decide _)) eqn:Est; [by apply IH|].
  apply negb_false_iff, bool_decide_eq_true in Est. apply find_key_elem in E as [Hin <-].
  pose proof (busy_inv e d Hq Hin Est) as Hb. destruct (is_devpath_busy e d) as [[|] d1]; destruct Hb as (Hq1 & _ & Hb);
    [by apply IH|]. apply IH, inv_run; auto.
Qed.

(** * The main loop *)

(** The kernel numbers its messages upwards. *)
Definition device_ok (i : input) d : Prop :=
  match in_device i with
  | Some dev => 0 < i_seqnum dev /\ Forall (fun e => seqnum e < i_seqnum dev) (event_list d)
  | None => True
  end.
Lemma inv_netlink i d : queue_inv d -> device_ok i d -> queue_inv (round_netlink i d).
Proof.
  unfold round_netlink, device_ok. destruct (in_device i) as [dev|]; [|done]. intros Hq [H1 H2].
  by apply queue_ok_insert.
Qed.
Lemma shrinks_device_ok i d d' : shrinks d d' -> device_ok i d -> device_ok i d'.
Proof.
  intros Hs. unfold device_ok. destruct (in_device i); [|done]. intros [H1 H2]. split; [done|]. by eapply shrinks_Forall.
Qed.
Lemma inv_work i d d' : queue_inv d -> device_ok i d -> round_work i d = Some d' -> queue_inv d'.
Proof.
  intros Hq Hd H. unfold round_work in H. apply bind_Some in H as (d1 & H1 & H).
  apply bind_Some in H as (d2 & H2 & H). injection H as <-.
  assert (shrinks d d2) as H02.
  { etrans; [|etrans; [apply shrinks_reload|eapply shrinks_returned, H2]].
    destruct (in_timeout i); [by eapply shrinks_timeout|by injection H1 as <-]. }
  assert (queue_inv (round_netlink i d2)) as Hq2.
  { apply inv_netlink; [by eapply shrinks_inv|by eapply shrinks_device_ok]. }
  unfold round_start. destruct (_ && _ && _); [|done]. by apply inv_start_loop.
Qed.
Lemma shrinks_round_signal i d d' : round_signal i d = Some d' -> shrinks d d'.
Proof.
  unfold round_signal. destruct (in_signal i) as [[signo reaped]|]; [by apply shrinks_signal|by intros [= <-]].
Qed.
Lemma shrinks_exit d : shrinks d (round_exit d).
Proof. etrans; [apply shrinks_cleanup|]. by apply shrinks_same. Qed.
Lemma inv_round i d d' : queue_inv d -> device_ok i d -> main_round i d = Some (Running d') -> queue_inv d'.
Proof.
  intros Hq Hd. unfold main_round. set (d0 := if udev_exit d then _ else d).
  assert (shrinks d d0) as H0 by (subst d0; destruct (udev_exit d); [apply shrinks_exit|done]).
  clearbody d0. destruct (_ && _ && _); [done|]. destruct (_ && _); [done|]. intros H.
  apply bind_Some in H as (d1 & H1 & H). apply bind_Some in H as (d2 & H2 & H). injection H as <-.
  eapply shrinks_inv; [etrans; [eapply shrinks_round_signal, H2|apply shrinks_ctrl]|].
  eapply inv_work; [by eapply shrinks_inv|by eapply shrinks_device_ok|done].
Qed.

Definition daemon_start (max : Z) : daemon := mk_daemon [] [] 0 max false false false 1 [].
(** The states the daemon reaches: anything can happen, but that the events of
    the kernel come in order. *)
Inductive reachable (max : Z) : daemon -> Prop :=
| reach_start : reachable max (daemon_start max)
| reach_round i d d' :
    reachable max d -> device_ok i d -> main_round i d = Some (Running d') -> reachable max d'.

Lemma reachable_inv max d : reachable max d -> queue_inv d.
Proof.
  induction 1; [|by eapply inv_round]. split; simpl; try constructor; by intros e ?%not_elem_of_nil.
Qed.

(** C2: in every state the daemon reaches, whatever the workers, the signals
    and the clock do, the queue is in the order of the sequence numbers, and
    an event that is running has no earlier event left in the queue that it
    depends on (the same node or interface, its old name, a parent, a child or
    the same path), so that events that depend on each other run one after the
    other and in the order of the kernel. *)
Theorem running_events_in_order max d e x :
  reachable max d -> e ∈ event_list d -> x ∈ event_list d -> e_state e = EVENT_RUNNING ->
  queue_sorted (event_list d) /\ (seqnum x < seqnum e -> conflicts x e = false).
Proof.
  intros Hr He Hx Hrun. destruct (reachable_inv _ _ Hr) as [Hs _ _ _ _ Hsafe]. split; [done|]. intros Hlt.
  specialize (Hsafe e He Hrun). apply not_true_iff_false. intros Hc. apply not_true_iff_false in Hsafe.
  apply Hsafe, blocked_true. by exists x.
Qed.
(** Two messages of the kernel about devices that have nothing to do with
    each other: both events run. *)
Definition quiet : input :=
  mk_input false (fun _ => false) false [] None (fun _ => true) (fun d => Some (100 + Z.of_nat (next_id d))) None None.
Definition disk_input : input := quiet <| in_device := Some (mk_info 7 "/devices/sda" None 2048 0 true) |>.
Definition net_input : input := quiet <| in_device := Some (mk_info 8 "/devices/net/eth0" None 0 2 false) |>.
Definition get_running (r : option round) : daemon :=
  match r with Some (Running d) => d | _ => daemon_start 0 end.
Definition disk_state : daemon := Eval vm_compute in get_running (main_round disk_input (daemon_start 8)).
Definition both_state : daemon := Eval vm_compute in get_running (main_round net_input disk_state).
Lemma running_events_in_order_witness :
  reachable 8 both_state /\
  exists e x, e ∈ event_list both_state /\ x ∈ event_list both_state /\ e_state e = EVENT_RUNNING /\
    seqnum x < seqnum e /\ conflicts x e = false.
Proof.
  assert (reachable 8 both_state) as Hr.
  { apply (reach_round 8 net_input disk_state).
    - apply (reach_round 8 disk_input (daemon_start 8)); [constructor|split; [simpl; lia|constructor]|vm_compute; reflexivity].
    - split; [simpl; lia|repeat constructor].
    - vm_compute. reflexivity. }
  split; [exact Hr|]. destruct (event_list both_state) as [|x [|e l]] eqn:E; [discriminate E|discriminate E|].
  assert (e_state e = EVENT_RUNNING /\ seqnum x < seqnum e) as [He Hlt]
    by (vm_compute in E; injection E as <- <- _; split; reflexivity).
  exists e, x. rewrite <- E. assert (e ∈ event_list both_state) as H1 by (rewrite E; right; left).
  assert (x ∈ event_list both_state) as H2 by (rewrite E; left).
  split; [exact H1|]. split; [exact H2|]. split; [exact He|]. split; [exact Hlt|].
  exact (proj2 (running_events_in_order 8 both_state e x Hr H1 H2 He) Hlt).
Defined.
End UdevdSafety.
