(* ===== verification/UdevdWorkers.v ===== *)
(** The workers of the daemon: every running event has one worker, the
    reference counts are what the state of the worker says, and, as long as a
    worker that ends with success has answered its event, no round of the main
    loop uses a worker or an event that was freed. *)

From Stdlib Require Import ZArith Lia Ascii Sorted.
From stdpp Require Import prelude gmap strings sorting.
From S2P Require Import Prelude System Device Udevd UdevdQueue UdevdSafety.
Import Udevd UdevdQueue UdevdSafety.

Module UdevdWorkers.

Implicit Types (d : daemon) (e : event) (w : worker).

(** * The processes *)

(** The pairs of a worker and an event it was given, and the workers started. *)
Definition handed_of (a : action) : option (Z * nat) :=
  match a with Fork p id | Send p id => Some (p, id) | Kill _ _ => None end.
Definition forked_of (a : action) : option Z := match a with Fork p _ => Some p | _ => None end.
Definition handed d : list (Z * nat) := omap handed_of (actions d).
Definition forked d : list Z := omap forked_of (actions d).
(** The messages in the socket, with the event they are about; the events that
    were answered at any time; the workers that were waited for. *)
Record procs := mk_procs { sock : list (Z * nat); answered : list (Z * nat); reaped : list Z }.
#[export] Instance procs_eta : Eta procs := fun x => mk_procs (sock x) (answered x) (reaped x).
Implicit Types (g : procs).

Definition running (l : list event) : list nat := e_id <$> filter (fun e => e_state e = EVENT_RUNNING) l.

(** One reference for the process, one for the event. *)
Definition refs g w : Z :=
  (if decide (pid w ∈ reaped g) then 0 else 1) + (match w_event w with Some _ => 1 | None => 0 end).
Definition worker_ok d g w : Prop :=
  match w_state w with
  | WORKER_IDLE => w_event w = None
  | WORKER_RUNNING => is_Some (w_event w)
  | WORKER_KILLED => True
  | WORKER_UNDEF => False
  end /\
  refcount w = refs g w /\ 0 < refcount w /\ pid w ∈ forked d /\
  forall id, w_event w = Some id ->
    (pid w, id) ∈ handed d /\ ((pid w, id) ∈ answered g -> (pid w, id) ∈ sock g) /\
    (pid w ∈ reaped g -> (pid w, id) ∈ answered g).
Record sys_ok d g : Prop := {
  s_queue : queue_inv d;
  s_pids : NoDup (pid <$> worker_list d);
  s_events : omap w_event (worker_list d) ≡ₚ running (event_list d);
  s_each : Forall (worker_ok d g) (worker_list d);
  s_children : children d = Z.of_nat (length (worker_list d));
  s_reaped : forall p, p ∈ reaped g -> p ∈ forked d;
  s_answered : forall x, x ∈ answered g -> x ∈ handed d;
  s_handed : forall p id, (p, id) ∈ handed d ->
    (id < next_id d)%nat /\ forall e, e ∈ event_list d -> e_id e = id -> e_state e = EVENT_RUNNING
}.

Lemma worker_ok_mono d d' g g' w :
  worker_ok d g w ->
  (forall x, x ∈ handed d -> x ∈ handed d') -> (forall p, p ∈ forked d -> p ∈ forked d') ->
  (pid w ∈ reaped g' <-> pid w ∈ reaped g) ->
  (forall id, w_event w = Some id -> (pid w, id) ∈ handed d ->
     ((pid w, id) ∈ answered g' <-> (pid w, id) ∈ answered g) /\ ((pid w, id) ∈ sock g -> (pid w, id) ∈ sock g')) ->
  worker_ok d' g' w.
Proof.
  intros (H1 & H2 & H3 & H4 & H5) Hh Hf Hr Ha. unfold worker_ok. split_and!; [done| |done|by apply Hf|].
  - rewrite H2. unfold refs. destruct (decide (pid w ∈ reaped g)), (decide (pid w ∈ reaped g')); tauto.
  - intros id Hid. destruct (H5 id Hid) as (A & B & C). destruct (Ha id Hid A) as [D E]. rewrite D.
    split_and!; [by apply Hh|by auto|]. rewrite Hr. done.
Qed.
Lemma worker_ok_same d d' g w :
  actions d' = actions d -> worker_ok d g w -> worker_ok d' g w.
Proof. intros Ha H. unfold worker_ok, handed, forked in *. by rewrite Ha. Qed.

(** * Lists *)

Lemma omap_cons {A B} (f : A -> option B) x (l : list A) :
  omap f (x :: l) = (match f x with Some y => [y] | None => [] end) ++ omap f l.
Proof. simpl. by destruct (f x). Qed.
Lemma running_app l1 l2 : running (l1 ++ l2) = running l1 ++ running l2.
Proof. unfold running. by rewrite filter_app, fmap_app. Qed.
Lemma running_cons e l :
  running (e :: l) = (if decide (e_state e = EVENT_RUNNING) then [e_id e] else []) ++ running l.
Proof. unfold running. rewrite filter_cons. by destruct (decide _). Qed.
Lemma find_event_split d id e :
  queue_inv d -> find_event d id = Some e ->
  exists l1 l2, event_list d = l1 ++ e :: l2 /\ e_id e = id /\
    (forall f, event_list (on_event id f d) = l1 ++ f e :: l2) /\
    filter (fun e => e_id e <> id) (event_list d) = l1 ++ l2.
Proof. intros [_ _ Hi _ _ _] H. by apply keyed_split. Qed.
Lemma find_worker_split d g p w :
  sys_ok d g -> find_worker d p = Some w ->
  exists l1 l2, worker_list d = l1 ++ w :: l2 /\ pid w = p /\
    (forall f, worker_list (on_worker p f d) = l1 ++ f w :: l2) /\
    filter (fun w => pid w <> p) (worker_list d) = l1 ++ l2.
Proof. intros [_ Hp _ _ _ _ _ _] H. by apply keyed_split. Qed.

(** A running event can be deleted. *)
Lemma delete_running d id :
  queue_inv d -> id ∈ running (event_list d) ->
  event_queue_delete id d = Some (d <| event_list := filter (fun e => e_id e <> id) (event_list d) |>) /\
  running (event_list d) ≡ₚ id :: running (filter (fun e => e_id e <> id) (event_list d)).
Proof.
  intros Hq (e & -> & [He Hin]%list_elem_of_filter)%list_elem_of_fmap.
  assert (find_event d (e_id e) = Some e) as Hf by (destruct Hq; by apply find_key_in).
  split; [unfold event_queue_delete; by rewrite Hf|].
  destruct (find_event_split d (e_id e) e Hq Hf) as (l1 & l2 & Hl & _ & _ & ->). rewrite Hl.
  rewrite !running_app, running_cons, decide_True by done. simpl. by rewrite Permutation_middle.
Qed.

(** Only the queue has changed. *)
Lemma handed_shrinks d d' (g : procs) :
  shrinks d d' -> actions d' = actions d ->
  (forall p id, (p, id) ∈ handed d -> (id < next_id d)%nat /\
     forall e, e ∈ event_list d -> e_id e = id -> e_state e = EVENT_RUNNING) ->
  forall p id, (p, id) ∈ handed d' -> (id < next_id d')%nat /\
     forall e, e ∈ event_list d' -> e_id e = id -> e_state e = EVENT_RUNNING.
Proof.
  intros Hs Ha H p id Hin. unfold handed in *. rewrite Ha in Hin. destruct (H p id Hin) as [H1 H2]. split.
  - destruct Hs as [-> _]. done.
  - assert (Forall (fun e => e_id e = id -> e_state e = EVENT_RUNNING) (event_list d')) as Hf.
    { eapply shrinks_Forall; [exact Hs|]. by apply Forall_forall. }
    by rewrite Forall_forall in Hf.
Qed.

(** ** A worker is replaced or removed, its event perhaps with it *)
Section change.
Context (d : daemon) (g g' : procs) (w : worker) (l1 l2 : list worker).
Hypothesis Hok : sys_ok d g.
Hypothesis Hl : worker_list d = l1 ++ w :: l2.
Hypothesis Hreaped : forall p, p ∈ reaped g' -> p ∈ forked d.
Hypothesis Hanswered : forall x, x ∈ answered g' -> x ∈ handed d.
Hypothesis Hothers : forall w', pid w' <> pid w -> worker_ok d g w' -> worker_ok d g' w'.

Lemma others_pid w' : w' ∈ l1 ++ l2 -> pid w' <> pid w.
Proof.
  destruct Hok as [_ Hp _ _ _ _ _ _]. rewrite Hl, fmap_app, fmap_cons in Hp. intros Hw' E.
  apply NoDup_app in Hp as (_ & Hd & Hn). apply NoDup_cons in Hn as [Hn _]. apply elem_of_app in Hw' as [Hw'|Hw'].
  - apply (Hd (pid w')); [by apply list_elem_of_fmap_2|]. rewrite E. left.
  - apply Hn. rewrite <- E. by apply list_elem_of_fmap_2.
Qed.
Lemma others_ok : Forall (worker_ok d g') (l1 ++ l2).
Proof.
  apply Forall_forall. intros w' Hw'. apply Hothers; [by apply others_pid|].
  destruct Hok as [_ _ _ He _ _ _ _]. rewrite Hl in He. rewrite Forall_forall in He. apply He. set_solver.
Qed.

(** [es] is the queue behind the change: it has lost the event of the worker,
    or is the same. *)
Definition event_gone (ev : option nat) (es : list event) : Prop :=
  match ev with
  | Some id => es = filter (fun e => e_id e <> id) (event_list d) /\ w_event w = Some id
  | None => es = event_list d
  end.
Lemma event_gone_running ev es :
  event_gone ev es -> running (event_list d) ≡ₚ (match ev with Some id => [id] | None => [] end) ++ running es.
Proof.
  destruct ev as [id|]; intros Hg; [|simpl in Hg; by subst]. destruct Hg as [-> Hw].
  apply delete_running; [by apply Hok|]. destruct Hok as [_ _ Hev _ _ _ _ _]. rewrite <- Hev, Hl.
  rewrite omap_app, omap_cons, Hw. set_solver.
Qed.
Lemma event_gone_shrinks ev es d' : event_gone ev es -> event_list d' = es -> next_id d' = next_id d -> shrinks d d'.
Proof.
  intros Hg <- Hn. destruct ev as [id|]; simpl in Hg; [|by apply shrinks_same]. destruct Hg as [Hg _]. split; [done|].
  intros R HR Hd. rewrite Hg. by apply HR.
Qed.

Lemma change_removed ev es d' :
  event_gone ev es -> w_event w = ev ->
  event_list d' = es -> worker_list d' = l1 ++ l2 -> children d' = children d - 1 ->
  next_id d' = next_id d -> actions d' = actions d -> sys_ok d' g'.
Proof.
  intros Hg Hev Hes Hws Hch Hn Ha. pose proof (event_gone_running _ _ Hg) as Hrun.
  pose proof (event_gone_shrinks _ _ d' Hg Hes Hn) as Hs. pose proof others_ok as Ho.
  destruct Hok as [H1 H2 H3 H4 H5 H6 H7 H8]. split.
  - by eapply shrinks_inv.
  - rewrite Hws. rewrite Hl in H2. eapply sublist_NoDup; [exact H2|]. apply fmap_sublist.
    apply sublist_app; [done|]. by apply sublist_cons.
  - rewrite Hws, Hes. rewrite Hl, Hrun in H3. rewrite omap_app, omap_cons in H3. rewrite omap_app.
    rewrite Hev in H3. destruct ev as [id|]; [|by simpl in *].
    simpl in H3. rewrite <- Permutation_middle in H3. by apply Permutation_cons_inv in H3.
  - rewrite Hws. eapply Forall_impl; [exact Ho|]. intros w'. by apply worker_ok_same.
  - rewrite Hch, H5, Hws, Hl, !length_app. simpl. lia.
  - unfold forked. rewrite Ha. exact Hreaped.
  - unfold handed. rewrite Ha. exact Hanswered.
  - by eapply handed_shrinks.
Qed.
Lemma change_replaced ev es w' d' :
  event_gone ev es -> pid w' = pid w -> w_event w' = (match ev with Some _ => None | None => w_event w end) ->
  worker_ok d g' w' ->
  event_list d' = es -> worker_list d' = l1 ++ w' :: l2 -> children d' = children d ->
  next_id d' = next_id d -> actions d' = actions d -> sys_ok d' g'.
Proof.
  intros Hg Hp Hev Hw' Hes Hws Hch Hn Ha. pose proof (event_gone_running _ _ Hg) as Hrun.
  pose proof (event_gone_shrinks _ _ d' Hg Hes Hn) as Hs. pose proof others_ok as Ho.
  destruct Hok as [H1 H2 H3 H4 H5 H6 H7 H8]. split.
  - by eapply shrinks_inv.
  - rewrite Hws, fmap_app, fmap_cons, Hp, <- fmap_cons, <- fmap_app, <- Hl. done.
  - rewrite Hws, Hes. rewrite Hl, Hrun in H3. rewrite omap_app, omap_cons in H3. rewrite omap_app, omap_cons, Hev.
    destruct ev as [id|]; [|by simpl in *]. destruct Hg as [_ Hwe]. rewrite Hwe in H3.
    simpl in *. rewrite <- Permutation_middle in H3. by apply Permutation_cons_inv in H3.
  - rewrite Hws. apply Forall_app in Ho as [Ho1 Ho2]. apply Forall_app. split; [|constructor].
    1,3: eapply Forall_impl; [eassumption|]; intros w0; by apply worker_ok_same.
    by eapply worker_ok_same.
  - rewrite Hch, H5, Hws, Hl, !length_app. done.
  - unfold forked. rewrite Ha. exact Hreaped.
  - unfold handed. rewrite Ha. exact Hanswered.
  - by eapply handed_shrinks.
Qed.
End change.

(** * Steps *)

Lemma find_worker_None d p : find_worker d p = None -> p ∉ pid <$> worker_list d.
Proof. apply find_key_None. Qed.
Lemma pids_at l1 w w' l2 : pid w' = pid w -> NoDup (pid <$> l1 ++ w :: l2) -> NoDup (pid <$> l1 ++ w' :: l2).
Proof. intros Hp. by rewrite !fmap_app, !fmap_cons, Hp. Qed.
(** Dropping a reference. *)
Lemma unref_at d l1 w l2 :
  worker_list d = l1 ++ w :: l2 -> NoDup (pid <$> worker_list d) ->
  worker_unref (pid w) d = Some (
    if 0 <? refcount w - 1 then d <| worker_list := l1 ++ (w <| refcount := refcount w - 1 |>) :: l2 |>
    else d <| worker_list := l1 ++ l2 |> <| children := children d - 1 |>).
Proof.
  intros Hl Hnd. rewrite Hl in Hnd. unfold worker_unref, find_worker.
  destruct (keyed_at pid l1 w l2 Hnd) as (Hf & Hm & _). rewrite Hl, Hf. f_equal.
  set (w' := w <| refcount := refcount w - 1 |>).
  assert (on_worker (pid w) (fun w => w <| refcount := refcount w - 1 |>) d = d <| worker_list := l1 ++ w' :: l2 |>) as ->.
  { unfold on_worker. by rewrite Hl, (Hm (fun w => w <| refcount := refcount w - 1 |>)). }
  destruct (0 <? refcount w - 1); [done|]. unfold worker_cleanup. simpl.
  destruct (keyed_at pid l1 w' l2) as (_ & _ & Hr); [by apply (pids_at l1 w)|]. simpl in Hr. by rewrite Hr.
Qed.
Lemma worker_elem d g l1 w l2 : sys_ok d g -> worker_list d = l1 ++ w :: l2 -> worker_ok d g w.
Proof.
  intros [_ _ _ He _ _ _ _] Hl. rewrite Forall_forall in He. apply He. rewrite Hl. set_solver.
Qed.
(** The queue when the event of a worker is deleted. *)
Definition without (ev : option nat) d : list event :=
  match ev with Some id => filter (fun e => e_id e <> id) (event_list d) | None => event_list d end.
Lemma delete_event d g l1 w l2 :
  sys_ok d g -> worker_list d = l1 ++ w :: l2 ->
  match w_event w with Some id => event_queue_delete id d | None => Some d end
    = Some (d <| event_list := without (w_event w) d |>) /\
  event_gone d w (w_event w) (without (w_event w) d).
Proof.
  intros Hok Hl. split; [|unfold event_gone, without; by destruct (w_event w)].
  destruct (w_event w) as [id|] eqn:Ew; [|by destruct d].
  apply delete_running; [by apply Hok|]. destruct Hok as [_ _ Hev _ _ _ _ _].
  rewrite <- Hev, Hl, omap_app, omap_cons, Ew. set_solver.
Qed.

(** The message of one worker. *)
Lemma returned_ok d g p id0 rest :
  sys_ok d g -> sock g = (p, id0) :: rest ->
  exists d', worker_returned [p] d = Some d' /\ sys_ok d' (g <| sock := rest |>) /\ actions d' = actions d.
Proof.
  intros Hok Hsock. set (g' := g <| sock := rest |>). simpl worker_returned.
  assert (forall w', pid w' <> p -> worker_ok d g w' -> worker_ok d g' w') as Hothers.
  { intros w' Hne Hw'. eapply worker_ok_mono; [exact Hw'|done..|]. intros id _ _. split; [done|]. rewrite Hsock.
    simpl. intros Hin. apply elem_of_cons in Hin as [E|Hin]; [congruence|done]. }
  destruct (find_worker d p) as [w|] eqn:Hf.
  2: { exists d. split_and!; [done| |done]. destruct Hok as [H1 H2 H3 H4 H5 H6 H7 H8]. split; try done.
       rewrite Forall_forall in *. intros w' Hw'. apply Hothers; [|by apply H4].
       intros E. apply (find_worker_None d p Hf). rewrite <- E. by apply list_elem_of_fmap_2. }
  destruct (find_worker_split d g p w Hok Hf) as (l1 & l2 & Hl & <- & Hon & _).
  pose proof (worker_elem _ _ _ _ _ Hok Hl) as (Hst & Hrc & Hpos & Hfk & Hids).
  destruct (delete_event _ _ _ _ _ Hok Hl) as [-> Hg]. set (es := without _ d) in *. simpl.
  set (f := fun w => w <| w_event := None |> <| w_state :=
            if decide (w_state w = WORKER_KILLED) then WORKER_KILLED else WORKER_IDLE |>).
  set (d1 := on_worker (pid w) f (d <| event_list := es |>)).
  assert (worker_list d1 = l1 ++ f w :: l2) as Hd1 by apply (Hon f).
  assert (NoDup (pid <$> worker_list d1)) as Hnd.
  { rewrite Hd1. apply (pids_at l1 w); [done|]. rewrite <- Hl. by apply Hok. }
  pose proof (unref_at d1 l1 (f w) l2 Hd1 Hnd) as Hu. simpl pid in Hu. rewrite Hu. simpl refcount. simpl mbind.
  eexists. split; [reflexivity|]. destruct (Z.ltb_spec 0 (refcount w - 1)) as [H2|H2].
  - split; [|done]. destruct (w_event w) as [id|] eqn:Ew; [|unfold refs in Hrc; rewrite Ew in Hrc; destruct (decide _); lia].
    eapply (change_replaced d g g' w l1 l2 Hok Hl (s_reaped _ _ Hok) (s_answered _ _ Hok) Hothers (Some id) es
      ((f w) <| refcount := refcount w - 1 |>)); try done.
    split_and!; [simpl; by destruct (decide _)| |simpl; lia|done|done].
    simpl. unfold refs in *. simpl. rewrite Ew in Hrc. destruct (decide _); lia.
  - split; [|done]. by eapply (change_removed d g g' w l1 l2 Hok Hl (s_reaped _ _ Hok) (s_answered _ _ Hok) Hothers (w_event w) es).
Qed.
Lemma returned_cons p msgs d :
  worker_returned (p :: msgs) d = d' ← worker_returned [p] d; worker_returned msgs d'.
Proof.
  simpl. destruct (find_worker d p) as [w|]; [|done]. simpl.
  destruct (match w_event w with Some id => event_queue_delete id d | None => Some d end) as [d1|]; [|done]. simpl.
  by destruct (worker_unref _ _).
Qed.
Lemma returned_all_ok d g rest :
  sys_ok d g -> sock g = rest ->
  exists d', worker_returned rest.*1 d = Some d' /\ sys_ok d' (g <| sock := [] |>) /\ actions d' = actions d.
Proof.
  revert d g. induction rest as [|[p id] rest IH]; intros d g Hok Hs.
  { exists d. split_and!; [done| |done]. destruct g. simpl in Hs. by subst. }
  rewrite fmap_cons. cbn [fst]. rewrite returned_cons. destruct (returned_ok d g p id rest Hok Hs) as (d1 & H1 & Hok1 & Ha1).
  rewrite H1. cbn [mbind option_bind]. destruct (IH d1 (g <| sock := rest |>) Hok1 eq_refl) as (d2 & H2 & Hok2 & Ha2).
  exists d2. split_and!; [exact H2|exact Hok2|congruence].
Qed.

(** A process is waited for: it was not before, and if it ended with success
    it has answered its events. *)
Definition end_ok d g (p : Z) (ok : bool) : Prop :=
  (p ∈ forked d) /\ (p ∉ reaped g) /\ (ok = true -> forall id, (p, id) ∈ handed d -> (p, id) ∈ answered g).
Lemma reap_ok d g p ok :
  sys_ok d g -> end_ok d g p ok ->
  exists d', reap_loop [(p, ok)] d = Some d' /\ sys_ok d' (g <| reaped := p :: reaped g |>) /\ actions d' = actions d.
Proof.
  intros Hok (Hfk & Hnr & Hans). set (g' := g <| reaped := p :: reaped g |>). simpl reap_loop.
  assert (forall w', pid w' <> p -> worker_ok d g w' -> worker_ok d g' w') as Hothers.
  { intros w' Hne Hw'. eapply worker_ok_mono; [exact Hw'|done..| |done]. simpl. rewrite elem_of_cons. naive_solver. }
  assert (forall p0, p0 ∈ reaped g' -> p0 ∈ forked d) as Hreap.
  { simpl. intros p0 [->|Hp0]%elem_of_cons; [done|]. by apply Hok. }
  destruct (find_worker d p) as [w|] eqn:Hf.
  2: { exists d. split_and!; [done| |done]. destruct Hok as [H1 H2 H3 H4 H5 H6 H7 H8]. split; try done.
       rewrite Forall_forall in *. intros w' Hw'. apply Hothers; [|by apply H4].
       intros E. apply (find_worker_None d p Hf). rewrite <- E. by apply list_elem_of_fmap_2. }
  destruct (find_worker_split d g p w Hok Hf) as (l1 & l2 & Hl & <- & _ & _).
  pose proof (worker_elem _ _ _ _ _ Hok Hl) as (Hst & Hrc & Hpos & _ & Hids).
  assert (refcount w = 1 + match w_event w with Some _ => 1 | None => 0 end) as Hr.
  { rewrite Hrc. unfold refs. by rewrite decide_False. }
  pose proof (s_pids _ _ Hok) as Hnd. pose proof (s_answered _ _ Hok) as Hans'.
  assert (forall d1, worker_list d1 = worker_list d -> worker_unref (pid w) d1 = Some (
    if 0 <? refcount w - 1 then d1 <| worker_list := l1 ++ (w <| refcount := refcount w - 1 |>) :: l2 |>
    else d1 <| worker_list := l1 ++ l2 |> <| children := children d1 - 1 |>)) as Hu.
  { intros d1 Hd1. apply unref_at; [by rewrite Hd1|by rewrite Hd1]. }
  destruct (w_event w) as [id|] eqn:Ew.
  2: { (* no event: the last reference *)
    assert ((if ok then Some d else Some d) = Some d) as -> by (by destruct ok). simpl. rewrite Hu, Hr by done. simpl.
    eexists. split; [reflexivity|]. split; [|done].
    by eapply (change_removed d g g' w l1 l2 Hok Hl Hreap Hans' Hothers None (event_list d)). }
  destruct ok.
  - simpl. rewrite Hu, Hr by done. simpl. eexists. split; [reflexivity|]. split; [|done].
    eapply (change_replaced d g g' w l1 l2 Hok Hl Hreap Hans' Hothers None (event_list d) (w <| refcount := 1 + 1 - 1 |>)); try done.
    split_and!; [simpl; by rewrite Ew| |simpl; lia|done|].
    + unfold refs. simpl. rewrite Ew, decide_True by set_solver. done.
    + intros id' Hid'. simpl in Hid'. rewrite Ew in Hid'. destruct (Hids id' Hid') as (A & B & C). split_and!; [done|done|]. intros _. by apply Hans.
  - simpl. pose proof (delete_event _ _ _ _ _ Hok Hl) as [Hde Hg]. rewrite Ew in Hde, Hg. rewrite Hde. cbn [mbind option_bind].
    rewrite Hu, Hr by done. simpl.
    assert (NoDup (pid <$> l1 ++ (w <| refcount := 1 |>) :: l2)) as Hnd1 by (apply (pids_at l1 w); [done|]; by rewrite <- Hl).
    match goal with |- context [worker_unref (pid w) ?d1] => pose proof (unref_at d1 l1 _ l2 eq_refl Hnd1) as Hu1 end.
    simpl in Hu1. rewrite Hu1. simpl.
    eexists. split; [reflexivity|]. split; [|done].
    by eapply (change_removed d g g' w l1 l2 Hok Hl Hreap Hans' Hothers (Some id) (without (Some id) d)).
Qed.

(** Killing idle or all workers changes their state only. *)
Lemma kill_ok d g d' (f : worker -> worker) :
  sys_ok d g ->
  (forall w, pid (f w) = pid w /\ refcount (f w) = refcount w /\ w_event (f w) = w_event w /\
     (w_state (f w) = WORKER_KILLED \/ w_state (f w) = w_state w)) ->
  worker_list d' = f <$> worker_list d -> event_list d' = event_list d -> next_id d' = next_id d ->
  children d' = children d -> handed d' = handed d -> forked d' = forked d -> sys_ok d' g.
Proof.
  intros [H1 H2 H3 H4 H5 H6 H7 H8] Hf Hw He Hn Hc Hh Hfo. split.
  - unfold queue_inv. by rewrite He, Hn.
  - rewrite Hw, <- list_fmap_compose. erewrite list_fmap_ext; [exact H2|]. intros _ w _. by apply Hf.
  - rewrite He, <- H3, Hw. clear -Hf. induction (worker_list d) as [|w l IH]; [done|].
    rewrite fmap_cons, !omap_cons, IH. destruct (Hf w) as (_ & _ & -> & _). done.
  - rewrite Hw. apply Forall_fmap. eapply Forall_impl; [exact H4|]. intros w (A & B & C & D & E). simpl.
    destruct (Hf w) as (P1 & P2 & P3 & P4). unfold worker_ok, refs. rewrite P1, P2, P3, Hh, Hfo.
    split_and!; [|done..]. destruct P4 as [-> | ->]; done.
  - by rewrite Hc, H5, Hw, length_fmap.
  - by rewrite Hfo.
  - by rewrite Hh.
  - by rewrite Hh, He, Hn.
Qed.
Lemma omap_kill_actions {B} (h : action -> option B) ws acts :
  (forall p s, h (Kill p s) = None) -> omap h (rev ((fun w => Kill (pid w) SIGTERM) <$> ws) ++ acts) = omap h acts.
Proof.
  intros Hh. rewrite omap_app. assert (omap h (rev ((fun w => Kill (pid w) SIGTERM) <$> ws)) = []) as ->; [|done].
  induction ws as [|w ws IH]; [done|]. rewrite fmap_cons. cbn [rev]. by rewrite omap_app, IH, omap_cons, Hh.
Qed.
Lemma worker_kill_ok d g : sys_ok d g -> sys_ok (worker_kill d) g.
Proof.
  intros Hok. eapply (kill_ok d g _ (fun w => w <| w_state := WORKER_KILLED |>)); try done.
  - intros w. by auto 10.
  - unfold handed. simpl. by rewrite omap_kill_actions.
  - unfold forked. simpl. by rewrite omap_kill_actions.
Qed.
(** Operations on other variables. *)
Lemma sys_ok_same d d' g :
  event_list d' = event_list d -> worker_list d' = worker_list d -> next_id d' = next_id d ->
  children d' = children d -> actions d' = actions d -> sys_ok d g -> sys_ok d' g.
Proof.
  intros He Hw Hn Hc Ha Hok. eapply (kill_ok d g d' id); try done; [by auto 10| |unfold handed; by rewrite Ha|unfold forked; by rewrite Ha].
  by rewrite list_fmap_id.
Qed.
Lemma elem_at_other l1 w w' l2 w0 : w0 ∈ l1 ++ w :: l2 -> pid w0 <> pid w -> w0 ∈ l1 ++ w' :: l2.
Proof. intros H Hne. rewrite elem_of_app, elem_of_cons in *. destruct H as [H|[->|H]]; [by left|done|by right; right]. Qed.
Lemma find_of_elem d g w : sys_ok d g -> w ∈ worker_list d -> find_worker d (pid w) = Some w.
Proof. intros Hok Hw. apply (find_key_in pid); [apply Hok|done]. Qed.
Lemma state_running d g w :
  worker_ok d g w -> w_state w = WORKER_RUNNING -> exists id, w_event w = Some id.
Proof. intros (Hst & _) E. rewrite E in Hst. exact Hst. Qed.

(** Workers that hang are given up; the socket is empty when the time is over. *)
Lemma hang_one_ok d g w hung ws :
  sys_ok d g -> sock g = [] -> w ∈ worker_list d -> w_state w = WORKER_RUNNING -> hung (pid w) = true ->
  exists d', hang_loop hung (w :: ws) d = hang_loop hung ws d' /\ sys_ok d' g /\
    handed d' = handed d /\ forked d' = forked d /\
    forall w0, w0 ∈ worker_list d -> pid w0 <> pid w -> w0 ∈ worker_list d'.
Proof.
  intros Hok Hsock Hw Hst Hh. pose proof (find_of_elem _ _ _ Hok Hw) as Hf.
  destruct (find_worker_split d g _ w Hok Hf) as (l1 & l2 & Hl & _ & Hon & _).
  pose proof (worker_elem _ _ _ _ _ Hok Hl) as Hwok. destruct (state_running _ _ _ Hwok Hst) as [id Ew].
  pose proof Hwok as (_ & Hrc & _ & Hfk & Hids). destruct (Hids id Ew) as (Hhd & Hs & Hr).
  assert (pid w ∉ reaped g) as Hnr by (intros E; specialize (Hs (Hr E)); rewrite Hsock in Hs; by apply not_elem_of_nil in Hs).
  unfold refs in Hrc. rewrite decide_False, Ew in Hrc by done. simpl in Hrc.
  pose proof (s_pids _ _ Hok) as Hnd. rewrite Hl in Hnd.
  cbn [hang_loop]. rewrite Hst, bool_decide_true, Hh by done. cbn [negb].
  set (f := fun w => w <| w_state := WORKER_KILLED |>).
  set (d1 := on_worker (pid w) f (act (Kill (pid w) SIGKILL) d)).
  assert (worker_list d1 = l1 ++ f w :: l2) as Hd1 by apply (Hon f).
  assert (NoDup (pid <$> worker_list d1)) as Hnd1 by (rewrite Hd1; by apply (pids_at l1 w)).
  pose proof (unref_at d1 l1 (f w) l2 Hd1 Hnd1) as Hu. simpl in Hu. rewrite Hrc in Hu. simpl in Hu. rewrite Hu.
  cbn [mbind option_bind]. set (w2 := (f w) <| refcount := 1 |>) in *.
  set (d2 := d1 <| worker_list := l1 ++ w2 :: l2 |>).
  assert (NoDup (pid <$> worker_list d2)) as Hnd2 by (by apply (pids_at l1 w)).
  destruct (keyed_at pid l1 w2 l2 Hnd2) as (Hf2 & Hm2 & _).
  match goal with |- context [find_worker ?x _] => change x with d2 end.
  assert (find_worker d2 (pid w) = Some w2) as -> by exact Hf2. cbn [mbind option_bind]. change (w_event w2) with (w_event w). rewrite Ew. cbn [mbind option_bind].
  pose proof (delete_event _ _ _ _ _ Hok Hl) as [Hde Hg]. rewrite Ew in Hde, Hg.
  assert (event_queue_delete id d2 = Some (d2 <| event_list := without (Some id) d |>)) as ->.
  { unfold event_queue_delete, find_event in *. change (event_list d2) with (event_list d).
    by destruct (find _ (event_list d)). }
  cbn [mbind option_bind].
  set (d3 := on_worker (pid w) (fun w => w <| w_event := None |>) (d2 <| event_list := without (Some id) d |>)). set (w3 := w2 <| w_event := None |>).
  assert (worker_list d3 = l1 ++ w3 :: l2) as Hd3 by apply (Hm2 (fun w => w <| w_event := None |>)).
  exists d3. split_and!; [done| |done|done|].
  - eapply (kill_ok (d3 <| actions := actions d |>) g d3 (fun w => w)); try done; [|auto|by rewrite list_fmap_id].
    eapply (change_replaced d g g w l1 l2 Hok Hl (s_reaped _ _ Hok) (s_answered _ _ Hok) (fun _ _ H => H)
      (Some id) (without (Some id) d) w3); try done.
    split_and!; [done| |simpl; lia|done|done]. unfold refs. simpl. by rewrite decide_False.
  - intros w0 Hw0 Hne. rewrite Hd3. rewrite Hl in Hw0. by eapply elem_at_other.
Qed.
Lemma hang_ok d g hung ws :
  sys_ok d g -> sock g = [] -> (forall w, w ∈ ws -> w ∈ worker_list d) -> NoDup (pid <$> ws) ->
  exists d', hang_loop hung ws d = Some d' /\ sys_ok d' g /\ handed d' = handed d /\ forked d' = forked d.
Proof.
  revert d. induction ws as [|w ws IH]; intros d Hok Hs Hin Hnd; [by exists d|].
  rewrite fmap_cons in Hnd. apply NoDup_cons in Hnd as [Hw Hnd].
  destruct (decide (w_state w = WORKER_RUNNING /\ hung (pid w) = true)) as [[Hst Hh]|Hn].
  - destruct (hang_one_ok d g w hung ws Hok Hs (Hin w ltac:(set_solver)) Hst Hh) as (d1 & -> & Hok1 & E1 & E2 & Hk).
    destruct (IH d1 Hok1 Hs) as (d' & H1 & H2 & H3 & H4); [|done|].
    + intros w0 Hw0. apply Hk; [apply Hin; set_solver|]. intros E. apply Hw. rewrite <- E. by apply list_elem_of_fmap_2.
    + exists d'. split_and!; [done|done|congruence|congruence].
  - assert (hang_loop hung (w :: ws) d = hang_loop hung ws d) as ->; [|apply IH; [done|done|set_solver|done]].
    simpl. case_bool_decide; [|done]. destruct (hung (pid w)); [tauto|done].
Qed.

(** ** Starting an event *)

Definition set_running (e : event) : event := e <| e_state := EVENT_RUNNING |>.
Section start.
Context (d : daemon) (g : procs) (id : nat) (e : event).
Hypothesis Hok : sys_ok d g.
Hypothesis Hfind : find_event d id = Some e.
Hypothesis Hqueued : e_state e = EVENT_QUEUED.

Lemma start_running : running (event_list (on_event id set_running d)) ≡ₚ id :: running (event_list d).
Proof.
  destruct (find_event_split d id e (s_queue _ _ Hok) Hfind) as (l1 & l2 & Hl & Hid & Hon & _).
  rewrite Hon, Hl, !running_app, !running_cons, Hqueued. simpl. rewrite Hid. by rewrite Permutation_middle.
Qed.
Lemma start_not_handed p : (p, id) ∉ handed d.
Proof.
  intros [_ H]%(s_handed _ _ Hok). apply find_key_elem in Hfind as [Hin Hid].
  specialize (H e Hin Hid). congruence.
Qed.
Lemma start_handed d' p0 :
  event_list d' = event_list (on_event id set_running d) -> next_id d' = next_id d ->
  handed d' = (p0, id) :: handed d ->
  forall p i, (p, i) ∈ handed d' -> (i < next_id d')%nat /\
    forall e, e ∈ event_list d' -> e_id e = i -> e_state e = EVENT_RUNNING.
Proof.
  intros He Hn Hh p i Hin. rewrite Hn, He. rewrite Hh in Hin. apply elem_of_cons in Hin as [[= -> ->]|Hin].
  - split.
    + apply find_key_elem in Hfind as [Hx <-]. destruct (s_queue _ _ Hok) as [_ _ _ Hlt _ _].
      rewrite Forall_forall in Hlt. by apply Hlt.
    + intros x Hx Hid. apply list_elem_of_fmap in Hx as (y & -> & Hy). by destruct (decide (e_id y = id)).
  - destruct (s_handed _ _ Hok p i Hin) as [H1 H2]. split; [done|]. intros x Hx Hid.
    apply list_elem_of_fmap in Hx as (y & -> & Hy). destruct (decide (e_id y = id)); [done|]. by apply H2.
Qed.
(** The worker that gets the event. *)
Definition given (p : Z) : worker := mk_worker p 2 WORKER_RUNNING (Some id).
Lemma given_ok d' p :
  p ∉ reaped g -> p ∈ forked d' -> (p, id) ∈ handed d' -> worker_ok d' g (given p).
Proof.
  intros Hr Hf Hh. unfold worker_ok, refs. simpl. rewrite decide_False by done. split_and!; [by eexists|done|lia|done|].
  intros i [= <-]. split_and!; [done| |done]. intros Ha. destruct (start_not_handed p). by apply (s_answered _ _ Hok).
Qed.
Lemma others_start d' w :
  (forall x, x ∈ handed d -> x ∈ handed d') -> (forall p, p ∈ forked d -> p ∈ forked d') ->
  worker_ok d g w -> worker_ok d' g w.
Proof. intros H1 H2 H. by eapply worker_ok_mono. Qed.

Lemma start_fork_ok d' p :
  queue_inv d' -> p ∉ forked d ->
  event_list d' = event_list (on_event id set_running d) -> next_id d' = next_id d ->
  worker_list d' = worker_list d ++ [given p] -> children d' = children d + 1 ->
  actions d' = Fork p id :: actions d -> sys_ok d' g.
Proof.
  intros Hq Hp He Hn Hw Hc Ha.
  assert (handed d' = (p, id) :: handed d) as Hh by (unfold handed; by rewrite Ha).
  assert (forked d' = p :: forked d) as Hf by (unfold forked; by rewrite Ha).
  pose proof start_running as Hrun. destruct Hok as [H1 H2 H3 H4 H5 H6 H7 H8] eqn:E. clear E. split.
  - done.
  - rewrite Hw, fmap_app. apply NoDup_app. split_and!; [done| |apply NoDup_singleton].
    intros p' Hp' ->%list_elem_of_singleton. apply list_elem_of_fmap in Hp' as (w & E & Hin). simpl in E.
    rewrite Forall_forall in H4. destruct (H4 w Hin) as (_ & _ & _ & Hfk & _). congruence.
  - rewrite He, Hrun, Hw, omap_app, H3. simpl. by rewrite Permutation_app_comm.
  - rewrite Hw. apply Forall_app. split.
    + eapply Forall_impl; [exact H4|]. intros w. apply others_start; [rewrite Hh|rewrite Hf]; set_solver.
    + constructor; [|done]. apply given_ok; [by intros ?%H6|rewrite Hf|rewrite Hh]; set_solver.
  - rewrite Hc, H5, Hw, length_app. simpl. lia.
  - rewrite Hf. set_solver.
  - rewrite Hh. set_solver.
  - by eapply start_handed.
Qed.
Lemma start_send_ok d' w l1 l2 :
  queue_inv d' -> worker_list d = l1 ++ w :: l2 -> w_state w = WORKER_IDLE ->
  event_list d' = event_list (on_event id set_running d) -> next_id d' = next_id d ->
  worker_list d' = l1 ++ given (pid w) :: l2 -> children d' = children d ->
  actions d' = Send (pid w) id :: actions d -> sys_ok d' g.
Proof.
  intros Hq Hl Hidle He Hn Hw Hc Ha.
  assert (handed d' = (pid w, id) :: handed d) as Hh by (unfold handed; by rewrite Ha).
  assert (forked d' = forked d) as Hf by (unfold forked; by rewrite Ha).
  pose proof start_running as Hrun. pose proof (worker_elem _ _ _ _ _ Hok Hl) as (Hst & Hrc & Hpos & Hfk & _).
  rewrite Hidle in Hst.
  assert (pid w ∉ reaped g) as Hnr.
  { intros Hr. unfold refs in Hrc. rewrite Hst, decide_True in Hrc by done. lia. }
  destruct Hok as [H1 H2 H3 H4 H5 H6 H7 H8] eqn:E. clear E. rewrite Hl in H2, H3, H4. split.
  - done.
  - rewrite Hw. by apply (pids_at l1 w).
  - rewrite He, Hrun, Hw, <- H3, !omap_app, !omap_cons, Hst. simpl. by rewrite Permutation_middle.
  - rewrite Hw. apply Forall_app in H4 as [H41 H42]. apply Forall_cons in H42 as [_ H42].
    apply Forall_app. split; [|constructor].
    1,3: eapply Forall_impl; [eassumption|]; intros w0; apply others_start; [rewrite Hh|rewrite Hf]; set_solver.
    apply given_ok; [done|by rewrite Hf|rewrite Hh; set_solver].
  - rewrite Hc, H5, Hl, Hw, !length_app. done.
  - by rewrite Hf.
  - rewrite Hh. set_solver.
  - by eapply start_handed.
Qed.
End start.

Lemma queue_inv_same d d' : event_list d' = event_list d -> next_id d' = next_id d -> queue_inv d -> queue_inv d'.
Proof. intros He Hn. unfold queue_inv. by rewrite He, Hn. Qed.
Lemma kill_one_ok d g p s :
  sys_ok d g -> sys_ok (on_worker p (fun w => w <| w_state := WORKER_KILLED |>) (act (Kill p s) d)) g.
Proof.
  intros Hok. eapply (kill_ok d g _ (fun w => if decide (pid w = p) then w <| w_state := WORKER_KILLED |> else w)); try done.
  intros w. destruct (decide (pid w = p)); simpl; auto 10.
Qed.
Lemma run_loop_ok send ws id e d g :
  sys_ok d g -> find_event d id = Some e -> e_state e = EVENT_QUEUED -> queue_inv (on_event id set_running d) ->
  (forall w, w ∈ ws -> w ∈ worker_list d) -> NoDup (pid <$> ws) ->
  let '(d', started) := run_loop send ws id d in
  sys_ok d' g /\
  (started = false -> event_list d' = event_list d /\ next_id d' = next_id d /\ forked d' = forked d).
Proof.
  intros Hok Hf Hqd Hq. revert d Hok Hf Hq. induction ws as [|w ws IH]; intros d Hok Hf Hq Hin Hnd; [done|].
  rewrite fmap_cons in Hnd. apply NoDup_cons in Hnd as [Hw Hnd]. simpl.
  destruct (negb (bool_decide (w_state w = WORKER_IDLE))) eqn:Hst.
  { apply IH; [done|done|done|set_solver|done]. }
  apply negb_false_iff, bool_decide_eq_true in Hst. destruct (send (pid w)); cbn [negb].
  - split; [|done]. pose proof (find_of_elem _ _ w Hok (Hin w ltac:(set_solver))) as Hfw.
    destruct (find_worker_split d g _ w Hok Hfw) as (l1 & l2 & Hl & _ & Hon & _).
    set (d1 := on_worker _ _ (worker_ref _ _)).
    assert (worker_list d1 = l1 ++ given id (pid w) :: l2) as Hd1.
    { unfold d1, worker_ref. set (h1 := fun w : worker => w <| w_event := _ |> <| w_state := _ |>).
      set (h2 := fun w : worker => w <| refcount := _ |>).
      assert (worker_list (on_worker (pid w) h2 (act (Send (pid w) id) d)) = l1 ++ h2 w :: l2) as E by apply (Hon h2).
      change (worker_list (on_worker (pid w) h1 ?x)) with
        ((fun v => if decide (pid v = pid w) then h1 v else v) <$> worker_list x). rewrite E.
      pose proof (s_pids _ _ Hok) as Hp. rewrite Hl in Hp.
      destruct (keyed_at pid l1 (h2 w) l2) as (_ & Hm & _); [by apply (pids_at l1 w)|]. etrans; [apply (Hm h1)|].
      pose proof (worker_elem _ _ _ _ _ Hok Hl) as (Hs & Hrc & Hpos & _). rewrite Hst in Hs.
      unfold refs in Hrc. rewrite Hs in Hrc. assert (refcount w = 1) as Hr1 by (destruct (decide _); lia).
      unfold h1, h2, given. simpl. by rewrite Hr1. }
    by eapply (start_send_ok d g id e Hok Hf Hqd _ w l1 l2).
  - set (d1 := on_worker _ _ _). assert (sys_ok d1 g) as Hok1 by (by apply kill_one_ok).
    specialize (IH d1 Hok1 Hf Hq). destruct (run_loop send ws id d1) as [d' b]. apply IH; [|done].
    intros w0 Hw0. apply list_elem_of_fmap. exists w0. split; [|apply Hin; set_solver].
    rewrite decide_False; [done|]. intros E. apply Hw. rewrite <- E. by apply list_elem_of_fmap_2.
Qed.

(** New processes have a number of their own. *)
Definition fork_ok (fork : daemon -> option Z) : Prop := forall d p, fork d = Some p -> p ∉ forked d.
Lemma event_run_ok send fork id e d g :
  sys_ok d g -> fork_ok fork -> find_event d id = Some e -> e_state e = EVENT_QUEUED ->
  queue_inv (on_event id set_running d) -> sys_ok (event_run send fork id d) g.
Proof.
  intros Hok Hfork Hf Hst Hq. unfold event_run.
  pose proof (run_loop_ok send (worker_list d) id e d g Hok Hf Hst Hq ltac:(done) (s_pids _ _ Hok)) as H.
  destruct (run_loop _ _ _ _) as [d' [|]]; destruct H as [Hok' H]; [done|]. destruct (H eq_refl) as (He & Hn & Hfk).
  destruct (_ <=? _); [done|]. unfold worker_new.
  assert (find_event d' id = Some e) as Hf' by (unfold find_event; by rewrite He).
  destruct (fork d') as [p|] eqn:Efork.
  - eapply (start_fork_ok d' g id e Hok' Hf' Hst _ p); try done; [|by apply Hfork].
    eapply (queue_inv_same (on_event id set_running d)); simpl; [by rewrite He|done|done].
  - eapply (sys_ok_same d'); try done. destruct (find_event_split d' id e (s_queue _ _ Hok') Hf') as (l1 & l2 & Hl & _ & Hon & _).
    rewrite Hon, Hl. do 2 f_equal. rewrite <- Hst. by destruct e.
Qed.

(** What only the search for blocking events changes. *)
Lemma cache_change_ok d g id s :
  sys_ok d g -> queue_inv (on_event id (fun e => e <| delaying_seqnum := s |>) d) ->
  sys_ok (on_event id (fun e => e <| delaying_seqnum := s |>) d) g.
Proof.
  intros [H1 H2 H3 H4 H5 H6 H7 H8] Hq. split; try done.
  - rewrite H3. simpl. clear. induction (event_list d) as [|e l IH]; [done|].
    rewrite fmap_cons, !running_cons, IH. by destruct (decide (e_id e = id)).
  - intros p i Hin. destruct (H8 p i Hin) as [A B]. split; [done|]. intros x Hx Hid.
    apply list_elem_of_fmap in Hx as (y & -> & Hy). destruct (decide (e_id y = id)); by apply (B y).
Qed.
Lemma start_loop_ok send fork ids d g : sys_ok d g -> fork_ok fork -> sys_ok (start_loop send fork ids d) g.
Proof.
  intros Hok Hfork. revert d Hok. induction ids as [|id ids IH]; intros d Hok; [done|]. simpl.
  destruct (find_event d id) as [e|] eqn:E; [|by apply IH]. destruct (negb (bool_decide _)) eqn:Est; [by apply IH|].
  apply negb_false_iff, bool_decide_eq_true in Est. pose proof E as [Hin Hid]%find_key_elem. subst id.
  pose proof (busy_inv e d (s_queue _ _ Hok) Hin Est) as Hb. unfold is_devpath_busy in *.
  destruct (busy_loop e (event_list d)) as [busy s]. set (d1 := on_event _ _ d) in *. destruct Hb as (Hq1 & _ & Hb).
  assert (sys_ok d1 g) as Hok1 by (by apply cache_change_ok). destruct busy; [by apply IH|]. apply IH.
  assert (find_event d1 (e_id e) = Some (e <| delaying_seqnum := s |>)) as Hf1 by (apply (find_updated d (e_id e) e); [apply Hok|done|done]).
  eapply event_run_ok; [done|done|exact Hf1|done|]. apply inv_on_event; [done|done|]. intros x Hx Hid.
  split; [|by auto]. destruct Hq1 as [_ _ _ _ Hc _]. rewrite Forall_forall in Hc. exact (Hc x Hx).
Qed.
End UdevdWorkers.
