(* ===== verification/UdevdSystem.v ===== *)
(** The daemon together with its workers: the steps of the processes and of
    the parts of a round, and the proof that no part uses an event or a worker
    that was freed. *)

From Stdlib Require Import ZArith Lia Ascii Sorted.
From stdpp Require Import prelude gmap strings sorting.
From S2P Require Import Prelude System Device Udevd UdevdQueue UdevdSafety UdevdWorkers.
Import Udevd UdevdQueue UdevdSafety UdevdWorkers.

Module UdevdSystem.

Implicit Types (d : daemon) (g : procs) (i : input).

(** * The parts of a round *)

Lemma insert_ok d g dev :
  sys_ok d g -> queue_inv (event_queue_insert dev d) -> sys_ok (event_queue_insert dev d) g.
Proof.
  intros Hok Hq. pose proof (s_queue _ _ Hok) as [_ _ _ Hlt _ _]. rewrite Forall_forall in Hlt.
  destruct Hok as [H1 H2 H3 H4 H5 H6 H7 H8]. split; try done.
  - simpl. rewrite running_app, running_cons. simpl. by rewrite app_nil_r.
  - intros p id Hh. destruct (H8 p id Hh) as [A B]. simpl. split; [lia|].
    intros e [He|He]%elem_of_app Hid; [by apply B|]. apply list_elem_of_singleton in He as ->. simpl in Hid. lia.
Qed.
Lemma netlink_ok i d g : sys_ok d g -> device_ok i d -> sys_ok (round_netlink i d) g.
Proof.
  intros Hok Hd. pose proof (inv_netlink i d (s_queue _ _ Hok) Hd) as Hq. unfold round_netlink in *.
  destruct (in_device i); [by apply insert_ok|done].
Qed.
Lemma reload_ok i d g : sys_ok d g -> sys_ok (round_reload i d) g.
Proof.
  intros Hok. unfold round_reload. set (d1 := if in_changed i then _ else d).
  assert (sys_ok d1 g) as H1 by (subst d1; destruct (in_changed i); [by eapply (sys_ok_same d)|done]).
  clearbody d1. destruct (Udevd.reload d1); [|done]. apply worker_kill_ok in H1. by eapply (sys_ok_same (worker_kill d1)).
Qed.
Lemma exit_ok d g : sys_ok d g -> sys_ok (round_exit d) g.
Proof.
  intros Hok. apply worker_kill_ok. pose proof (shrinks_cleanup EVENT_QUEUED d) as Hs.
  destruct Hok as [H1 H2 H3 H4 H5 H6 H7 H8]. split; try done.
  - by eapply shrinks_inv.
  - rewrite H3. simpl. clear. induction (event_list d) as [|e l IH]; [done|].
    rewrite running_cons, filter_cons. destruct (decide (EVENT_QUEUED <> EVENT_UNDEF /\ EVENT_QUEUED <> e_state e)) as [Hk|Hk].
    + by rewrite running_cons, IH.
    + rewrite decide_False; [exact IH|]. intros E. apply Hk. by rewrite E.
  - by eapply handed_shrinks.
Qed.
Lemma ctrl_ok i d g : sys_ok d g -> sys_ok (round_ctrl i d) g.
Proof.
  intros Hok. unfold round_ctrl. destruct (udev_exit d); [done|]. destruct (in_ctrl i) as [m|]; [|done].
  unfold handle_ctrl_msg.
  assert (forall (b : bool) d, sys_ok d g -> sys_ok (if b then worker_kill d else d) g) as Hk
    by (intros [] d1 H; [by apply worker_kill_ok|done]).
  assert (forall (b : bool) d d', event_list d' = event_list d -> worker_list d' = worker_list d ->
    next_id d' = next_id d -> children d' = children d -> actions d' = actions d ->
    sys_ok d g -> sys_ok (if b then d' else d) g) as Hset
    by (intros [] d1 d2 E1 E2 E3 E4 E5 H; [by eapply (sys_ok_same d1)|done]).
  apply Hset; [done..|]. apply Hset; [done..|]. apply Hk. apply Hset; [done..|]. apply Hset; [done..|].
  apply Hset; [done..|]. by apply Hk.
Qed.
Lemma reap_cons p ok rest d :
  reap_loop ((p, ok) :: rest) d = d' ← reap_loop [(p, ok)] d; reap_loop rest d'.
Proof.
  simpl. destruct (find_worker d p) as [w|]; [|done].
  destruct (if ok then Some d else match w_event w with
    | Some id => d ← event_queue_delete id d; worker_unref p d | None => Some d end) as [d1|]; [|done]. simpl.
  by destruct (worker_unref p d1).
Qed.
Lemma reap_all_ok l d g :
  sys_ok d g -> NoDup l.*1 -> Forall (fun x => end_ok d g x.1 x.2) l ->
  exists d', reap_loop l d = Some d' /\ sys_ok d' (g <| reaped := rev l.*1 ++ reaped g |>) /\ actions d' = actions d.
Proof.
  revert d g. induction l as [|[p ok] l IH]; intros d g Hok Hnd Hl.
  { exists d. split_and!; [done| |done]. by destruct g. }
  rewrite fmap_cons in *. cbn [fst] in *. apply NoDup_cons in Hnd as [Hp Hnd]. apply Forall_cons in Hl as [Hpok Hl].
  rewrite reap_cons. destruct (reap_ok d g p ok Hok Hpok) as (d1 & -> & Hok1 & Ha1). cbn [mbind option_bind].
  destruct (IH d1 (g <| reaped := p :: reaped g |>) Hok1 Hnd) as (d2 & H2 & Hok2 & Ha2).
  { rewrite Forall_forall in *. intros x Hx. destruct (Hl x Hx) as (A & B & C). unfold end_ok, forked, handed in *.
    rewrite Ha1. split_and!; [done| |done]. simpl. apply not_elem_of_cons. split; [|done].
    intros E. apply Hp. rewrite <- E. by apply list_elem_of_fmap_2. }
  exists d2. split_and!; [done| |congruence]. simpl in *. by rewrite <- app_assoc.
Qed.

(** What a part of a round may see of the processes: all the messages that are
    in the socket or none, no message when the time is over, and new processes
    with a number of their own. *)
Definition work_ok i d g : Prop :=
  (in_msgs i = [] \/ in_msgs i = (sock g).*1) /\ (in_timeout i = true -> sock g = []) /\
  device_ok i d /\ fork_ok (in_fork i).
Definition work_procs i g : procs := match in_msgs i with [] => g | _ => g <| sock := [] |> end.
Definition signal_ok i d g : Prop :=
  match in_signal i with
  | Some (_, ended) => NoDup ended.*1 /\ Forall (fun x => end_ok d g x.1 x.2) ended
  | None => True
  end.
Definition signal_procs i g : procs :=
  match in_signal i with
  | Some (signo, ended) => if signo =? SIGCHLD then g <| reaped := rev ended.*1 ++ reaped g |> else g
  | None => g
  end.

Lemma work_safe i d g :
  sys_ok d g -> work_ok i d g -> exists d', round_work i d = Some d' /\ sys_ok d' (work_procs i g).
Proof.
  intros Hok (Hm & Ht & Hd & Hf). unfold round_work.
  assert (exists d1, (if in_timeout i then round_timeout i d else Some d) = Some d1 /\ sys_ok d1 g /\ shrinks d d1)
    as (d1 & H1 & Hok1 & Hs1).
  { destruct (in_timeout i); [|by exists d]. unfold round_timeout.
    set (d0 := if empty _ then _ else d). assert (sys_ok d0 g) as H0 by (subst d0; destruct (empty _); [by apply worker_kill_ok|done]).
    destruct (hang_ok d0 g (in_hung i) (worker_list d0)) as (d1 & H1 & H2 & _); [done|by apply Ht|done|by apply H0|].
    exists d1. split_and!; [done|done|]. apply (shrinks_timeout i). exact H1. }
  rewrite H1. cbn [mbind option_bind]. pose proof (reload_ok i d1 g Hok1) as Hok2.
  assert (exists d3, worker_returned (in_msgs i) (round_reload i d1) = Some d3 /\ sys_ok d3 (work_procs i g))
    as (d3 & H3 & Hok3).
  { unfold work_procs. destruct Hm as [Hm|Hm]; rewrite Hm; [by eexists|].
    destruct (returned_all_ok _ g (sock g) Hok2 eq_refl) as (d3 & H3 & Hok3 & _). exists d3. split; [done|].
    destruct (sock g) as [|x rest] eqn:E; [|done]. simpl. destruct g. simpl in *. by subst. }
  rewrite H3. cbn [mbind option_bind]. eexists. split; [done|].
  assert (device_ok i d3) as Hd3.
  { eapply shrinks_device_ok; [|exact Hd]. etrans; [exact Hs1|]. etrans; [apply shrinks_reload|]. by eapply shrinks_returned. }
  pose proof (netlink_ok i d3 _ Hok3 Hd3) as Hok4. unfold round_start. destruct (_ && _ && _); [|done].
  by apply start_loop_ok.
Qed.
Lemma signal_safe i d g :
  sys_ok d g -> signal_ok i d g -> exists d', round_signal i d = Some d' /\ sys_ok d' (signal_procs i g).
Proof.
  intros Hok Hs. unfold round_signal, signal_ok, signal_procs in *. destruct (in_signal i) as [[signo ended]|]; [|by exists d].
  destruct Hs as [Hnd Hl]. unfold handle_signal.
  destruct (Z.eqb_spec signo SIGCHLD) as [->|_].
  { destruct (reap_all_ok ended d g Hok Hnd Hl) as (d' & -> & Hok' & _). simpl. by eexists. }
  destruct (_ || _); [eexists; split; [done|by eapply (sys_ok_same d)]|].
  destruct (_ =? SIGHUP); [eexists; split; [done|by eapply (sys_ok_same d)]|by exists d].
Qed.

(** * The system *)

(** The loop of the daemon is a sequence of its parts; in between, a worker
    can answer an event it was given (once, and not after its end). *)
Inductive step : daemon * procs -> daemon * procs -> Prop :=
| step_answer d g p id :
    (p, id) ∈ handed d -> (p, id) ∉ answered g -> p ∉ reaped g ->
    step (d, g) (d, g <| sock := sock g ++ [(p, id)] |> <| answered := (p, id) :: answered g |>)
| step_exit d g : udev_exit d = true -> step (d, g) (round_exit d, g)
| step_work i d d' g : work_ok i d g -> round_work i d = Some d' -> step (d, g) (d', work_procs i g)
| step_signal i d d' g : signal_ok i d g -> round_signal i d = Some d' -> step (d, g) (d', signal_procs i g)
| step_ctrl i d g : step (d, g) (round_ctrl i d, g).

Definition system_start (max : Z) : daemon * procs := (daemon_start max, mk_procs [] [] []).
Definition system_reachable (max : Z) : daemon * procs -> Prop := rtc step (system_start max).

Lemma start_ok max : sys_ok (daemon_start max) (mk_procs [] [] []).
Proof.
  split; try done.
  - split; try constructor; by intros e ?%not_elem_of_nil.
  - constructor.
  - by intros p id ?%not_elem_of_nil.
Qed.
Lemma answer_ok d g p id :
  sys_ok d g -> (p, id) ∈ handed d -> p ∉ reaped g ->
  sys_ok d (g <| sock := sock g ++ [(p, id)] |> <| answered := (p, id) :: answered g |>).
Proof.
  intros [H1 H2 H3 H4 H5 H6 H7 H8] Hh Hr. split; try done.
  - eapply Forall_impl; [exact H4|]. intros w (A & B & C & D & E). split_and!; [done|done|done|done|].
    intros id' Hid'. destruct (E id' Hid') as (F & G & H). simpl. rewrite elem_of_cons, elem_of_app, list_elem_of_singleton.
    split_and!; [done|tauto|tauto].
  - simpl. intros x [->|Hx]%elem_of_cons; [done|by apply H7].
Qed.
Lemma step_inv s s' : step s s' -> sys_ok s.1 s.2 -> sys_ok s'.1 s'.2.
Proof.
  destruct 1 as [d g p id ? ? ?|d g ?|i d d' g Hw H|i d d' g Hs H|i d g]; simpl; intros Hok.
  - by apply answer_ok.
  - by apply exit_ok.
  - destruct (work_safe i d g Hok Hw) as (d1 & H1 & ?). congruence.
  - destruct (signal_safe i d g Hok Hs) as (d1 & H1 & ?). congruence.
  - by apply ctrl_ok.
Qed.
Lemma system_ok max d g : system_reachable max (d, g) -> sys_ok d g.
Proof.
  intros H. change (sys_ok (d, g).1 (d, g).2). revert H.
  unfold system_reachable. generalize (d, g). apply (rtc_ind_r (R := step)); [apply start_ok|eauto using step_inv].
Qed.

(** C3: the daemon and its workers never lose track of each other: in every
    state they reach (the workers answer, end and are waited for in any order,
    are killed, hang, reject messages; fork fails), every running event has
    exactly one worker, [children] counts the workers, and no part of the next
    round uses an event or a worker that was freed, provided that a worker that
    ends with success has answered the events it was given. *)
Theorem no_use_after_free max d g :
  system_reachable max (d, g) ->
  omap w_event (worker_list d) ≡ₚ running (event_list d) /\
  children d = Z.of_nat (length (worker_list d)) /\
  (forall i, work_ok i d g -> is_Some (round_work i d)) /\
  (forall i, signal_ok i d g -> is_Some (round_signal i d)).
Proof.
  intros Hok%system_ok. split_and!; [apply Hok|apply Hok| |]; intros i Hi.
  - destruct (work_safe i d g Hok Hi) as (d' & -> & _). by eexists.
  - destruct (signal_safe i d g Hok Hi) as (d' & -> & _). by eexists.
Qed.
(** ** Examples *)

Definition fresh_fork d : option Z := Some (1 + foldr Z.max 99 (forked d)).
Lemma fresh_fork_ok : fork_ok fresh_fork.
Proof.
  intros d p [= <-] Hin. assert (forall l q, q ∈ l -> q <= foldr Z.max 99 l) as Hm.
  { induction l as [|x l IH]; intros q Hq; [by apply not_elem_of_nil in Hq|]. simpl.
    apply elem_of_cons in Hq as [->|Hq]; [lia|]. specialize (IH q Hq). lia. }
  specialize (Hm _ _ Hin). lia.
Qed.
Definition first_input : input := disk_input <| in_fork := fresh_fork |>.
Definition first_state : daemon := Eval vm_compute in default (daemon_start 0) (round_work first_input (daemon_start 8)).
Lemma first_reachable : system_reachable 8 (first_state, mk_procs [] [] []).
Proof.
  apply rtc_once. change (mk_procs [] [] []) with (work_procs first_input (mk_procs [] [] [])).
  apply step_work; [|vm_compute; reflexivity]. split; [by left|]. split; [done|].
  split; [split; [simpl; lia|constructor]|exact fresh_fork_ok].
Qed.
(** The worker crashes. *)
Definition crash_input : input := quiet <| in_signal := Some (SIGCHLD, [(100, false)]) |>.
Lemma no_use_after_free_witness :
  system_reachable 8 (first_state, mk_procs [] [] []) /\ running (event_list first_state) = [1%nat] /\
  omap w_event (worker_list first_state) ≡ₚ running (event_list first_state) /\
  signal_ok crash_input first_state (mk_procs [] [] []) /\ is_Some (round_signal crash_input first_state).
Proof.
  pose proof (no_use_after_free 8 first_state _ first_reachable) as (H1 & _ & _ & H4).
  assert (signal_ok crash_input first_state (mk_procs [] [] [])) as Hs.
  { split; [apply NoDup_singleton|]. constructor; [|constructor]. split; [left|]. split; [apply not_elem_of_nil|done]. }
  split; [exact first_reachable|]. split; [reflexivity|]. split; [exact H1|]. split; [exact Hs|]. exact (H4 _ Hs).
Defined.

(** What the condition on the workers is for: a worker that ends with status 0
    and has not answered its event keeps its entry, with one reference; when
    its time is over, the daemon drops this reference, which frees the entry,
    and goes on to read the event from it. *)
Definition silent_end : input := quiet <| in_signal := Some (SIGCHLD, [(100, true)]) |>.
Definition time_over : input := quiet <| in_timeout := true |> <| in_hung := (fun _ => true) |>.
Definition silent_state : daemon := Eval vm_compute in get_running (main_round silent_end first_state).
Lemma silent_worker_freed :
  main_round silent_end first_state = Some (Running silent_state) /\ main_round time_over silent_state = None.
Proof. split; vm_compute; reflexivity. Qed.
(** When the rules have changed the daemon ends its workers; one that was just
    sent an event can see the signal first and end with status 0.  The entry
    is not looked at when the time is over, so its event stays in the queue. *)
Definition changed_input : input := silent_end <| in_changed := true |>.
Definition killed_state : daemon := Eval vm_compute in get_running (main_round changed_input first_state).
Lemma killed_worker_stuck :
  main_round changed_input first_state = Some (Running killed_state) /\
  main_round time_over killed_state = Some (Running killed_state) /\ running (event_list killed_state) = [1%nat].
Proof. split; [vm_compute; reflexivity|]. split; vm_compute; reflexivity. Qed.
End UdevdSystem.
