(* ===== verification/UdevdLive.v ===== *)
(** The queue of the daemon is worked off: when the workers answer, the events
    are all finished after as many rounds as there are events. *)

From Stdlib Require Import ZArith Lia Ascii Sorted.
From stdpp Require Import prelude gmap strings sorting.
From S2P Require Import Prelude System Device Udevd UdevdQueue UdevdSafety UdevdWorkers UdevdSystem.
Import Udevd UdevdQueue UdevdSafety UdevdWorkers UdevdSystem.

Module UdevdLive.

Implicit Types (d : daemon) (g : procs) (i : input) (e : event) (w : worker).

(** * What starting and finishing events keeps *)

Definition flags d : Z * bool * bool * bool := (children_max d, stop_exec_queue d, Udevd.reload d, udev_exit d).
(** No worker was killed, and the events are queued or running. *)
Definition calm d : Prop :=
  Forall (fun w => w_state w <> WORKER_KILLED) (worker_list d) /\
  Forall (fun e => e_state e <> EVENT_UNDEF) (event_list d).
(** [d'] has the events of [d], of which at least the same are running. *)
Record more_running d d' : Prop := {
  m_flags : flags d' = flags d;
  m_calm : calm d -> calm d';
  m_ids : e_id <$> event_list d' = e_id <$> event_list d;
  m_running : forall id, id ∈ running (event_list d) -> id ∈ running (event_list d')
}.
#[export] Instance more_running_preorder : PreOrder more_running.
Proof.
  split; [by split|]. intros d1 d2 d3 [A1 A2 A3 A4] [B1 B2 B3 B4]. split; [congruence|auto|congruence|auto].
Qed.
Lemma fmap_ids (l : list event) id (f : event -> event) :
  (forall e, e_id (f e) = e_id e) -> e_id <$> ((fun e => if decide (e_id e = id) then f e else e) <$> l) = e_id <$> l.
Proof.
  intros Hf. rewrite <- list_fmap_compose. apply list_fmap_ext. intros _ e _. simpl. by destruct (decide _).
Qed.
Lemma more_event id (f : event -> event) d :
  (forall e, e_id (f e) = e_id e) ->
  (forall e, e ∈ event_list d -> e_id e = id ->
     (e_state e = EVENT_RUNNING -> e_state (f e) = EVENT_RUNNING) /\ (e_state e <> EVENT_UNDEF -> e_state (f e) <> EVENT_UNDEF)) ->
  more_running d (on_event id f d).
Proof.
  intros Hid Hf. split; [done| |by apply fmap_ids|].
  - intros [H1 H2]. split; [done|]. apply Forall_fmap. rewrite Forall_forall in *. intros e He. simpl.
    destruct (decide (e_id e = id)) as [E|_]; [|by apply H2]. apply (Hf e He E), H2, He.
  - intros i (e & -> & [He Hin]%list_elem_of_filter)%list_elem_of_fmap.
    set (e' := if decide (e_id e = id) then f e else e). assert (e_id e = e_id e') as ->.
    { unfold e'. destruct (decide _); [by rewrite Hid|done]. }
    apply list_elem_of_fmap_2, list_elem_of_filter. split.
    + unfold e'. destruct (decide (e_id e = id)) as [E|_]; [by apply (Hf e Hin E)|done].
    + apply list_elem_of_fmap. by exists e.
Qed.
(** Only the workers have changed. *)
Lemma more_workers d d' :
  flags d' = flags d -> event_list d' = event_list d ->
  (Forall (fun w => w_state w <> WORKER_KILLED) (worker_list d) -> Forall (fun w => w_state w <> WORKER_KILLED) (worker_list d')) ->
  more_running d d'.
Proof. intros Hf He Hw. split; [done| |by rewrite He|by rewrite He]. unfold calm. rewrite He. tauto. Qed.
Lemma calm_on_worker d p f :
  (forall w, w_state w <> WORKER_KILLED -> w_state (f w) <> WORKER_KILLED) ->
  Forall (fun w => w_state w <> WORKER_KILLED) (worker_list d) ->
  Forall (fun w => w_state w <> WORKER_KILLED) (worker_list (on_worker p f d)).
Proof.
  intros Hf H. apply Forall_fmap. eapply Forall_impl; [exact H|]. intros w Hw. simpl. destruct (decide _); auto.
Qed.

(** All the workers accept messages. *)
Definition accept (p : Z) : bool := true.
Lemma more_run_loop ws id d : more_running d (run_loop accept ws id d).1.
Proof.
  revert d. induction ws as [|w ws IH]; intros d; [done|]. simpl. destruct (negb _); [apply IH|]. simpl.
  etrans; [|apply more_event; [done|intros; by split]].
  apply more_workers; [done|done|]. intros H. apply calm_on_worker; [done|]. unfold worker_ref.
  apply calm_on_worker; [done|done].
Qed.
Lemma more_event_run fork id d :
  (forall e, e ∈ event_list d -> e_id e = id -> e_state e = EVENT_QUEUED) ->
  more_running d (event_run accept fork id d).
Proof.
  intros Hq. unfold event_run. pose proof (more_run_loop (worker_list d) id d) as Hm.
  pose proof (run_loop_queue accept (worker_list d) id d) as Hr.
  destruct (run_loop _ _ _ _) as [d1 started]. simpl in Hm. destruct started; [done|]. destruct Hr as [_ He].
  destruct (_ <=? _); [done|]. etrans; [exact Hm|]. unfold worker_new. rewrite <- He in Hq. destruct (fork d1) as [p|].
  - etrans; [|apply (more_workers (on_event id (fun e => e <| e_state := EVENT_RUNNING |>) d1)); [done|done|]].
    + apply more_event; [done|]. by split.
    + intros H. simpl. apply Forall_app. split; [done|]. by repeat constructor.
  - apply more_event; [done|]. intros e Hin Hid. split; [|done]. by rewrite (Hq e Hin Hid).
Qed.
(** The search for blocking events does not change the state. *)
Lemma queued_cached id s e d :
  NoDup (e_id <$> event_list d) -> find_event d id = Some e -> e_state e = EVENT_QUEUED ->
  forall x, x ∈ event_list (on_event id (fun e => e <| delaying_seqnum := s |>) d) -> e_id x = id -> e_state x = EVENT_QUEUED.
Proof.
  intros Hnd E Est x Hx Hid. apply find_key_elem in E as [Hin He].
  apply list_elem_of_fmap in Hx as (y & -> & Hy). assert (e_id y = e_id e) as Hye by (destruct (decide _); simpl in *; congruence).
  pose proof (find_key_in e_id _ e Hnd Hin) as F1. pose proof (find_key_in e_id _ y Hnd Hy) as F2. rewrite Hye, F1 in F2.
  injection F2 as <-. by destruct (decide _).
Qed.
Lemma more_start_loop fork ids d :
  NoDup (e_id <$> event_list d) -> more_running d (start_loop accept fork ids d).
Proof.
  revert d. induction ids as [|id ids IH]; intros d Hnd; [done|]. simpl.
  destruct (find_event d id) as [e|] eqn:E; [|by apply IH]. destruct (negb (bool_decide _)) eqn:Est; [by apply IH|].
  apply negb_false_iff, bool_decide_eq_true in Est. unfold is_devpath_busy.
  destruct (busy_loop e (event_list d)) as [busy s]. set (d1 := on_event _ _ d).
  assert (more_running d d1) as H1 by (apply more_event; [done|by split]).
  assert (NoDup (e_id <$> event_list d1)) as Hnd1 by (by rewrite (m_ids _ _ H1)).
  destruct busy; [etrans; [exact H1|by apply IH]|].
  assert (more_running d1 (event_run accept fork id d1)) as H2.
  { apply more_event_run. pose proof (find_key_elem e_id _ _ _ E) as [_ Hid]. unfold d1. rewrite Hid. by eapply queued_cached. }
  etrans; [exact H1|]. etrans; [exact H2|]. apply IH. by rewrite (m_ids _ _ H2).
Qed.

(** ** The first event is started *)

Lemma run_loop_idle ws id d :
  (exists w, w ∈ ws /\ w_state w = WORKER_IDLE) -> (run_loop accept ws id d).2 = true.
Proof.
  revert d. induction ws as [|w ws IH]; intros d (w0 & Hin & Hst); [by apply not_elem_of_nil in Hin|]. simpl.
  destruct (bool_decide (w_state w = WORKER_IDLE)) eqn:E; [done|]. apply bool_decide_eq_false in E. simpl.
  apply IH. exists w0. split; [|done]. apply elem_of_cons in Hin as [->|Hin]; done.
Qed.
Lemma event_run_starts fork id e d :
  find_event d id = Some e -> (forall d, is_Some (fork d)) ->
  (exists w, w ∈ worker_list d /\ w_state w = WORKER_IDLE) \/ (worker_list d = [] /\ children d < children_max d) ->
  id ∈ running (event_list (event_run accept fork id d)).
Proof.
  intros Hf Hfork Hcap. apply find_key_elem in Hf as [Hin Hid].
  assert (forall d', event_list d' = event_list (on_event id set_running d) -> id ∈ running (event_list d')) as Hrun.
  { intros d' ->. rewrite <- Hid. apply (list_elem_of_fmap_2 e_id _ (set_running e)), list_elem_of_filter.
    split; [done|]. apply list_elem_of_fmap. exists e. by rewrite decide_True. }
  unfold event_run. destruct Hcap as [Hidle|[Hw Hc]].
  - pose proof (run_loop_queue accept (worker_list d) id d) as Hr. pose proof (run_loop_idle _ id d Hidle) as Hs.
    destruct (run_loop _ _ _ _) as [d1 b]. simpl in Hs. subst b. destruct Hr as [_ Hr]. exact (Hrun _ Hr).
  - rewrite Hw. simpl. rewrite (proj2 (Z.leb_gt _ _)) by done. unfold worker_new. destruct (Hfork d) as [p ->]. by apply Hrun.
Qed.
(** Without a running event all the workers are idle. *)
Lemma workers_idle d g :
  sys_ok d g -> calm d -> running (event_list d) = [] -> 1 <= children_max d ->
  (exists w, w ∈ worker_list d /\ w_state w = WORKER_IDLE) \/ (worker_list d = [] /\ children d < children_max d).
Proof.
  intros [_ _ Hev He Hc _ _ _] [Hw _] Hr Hmax. destruct (worker_list d) as [|w ws]; [right; simpl in Hc; split; [done|lia]|].
  left. exists w. split; [left|]. rewrite Hr in Hev. apply Permutation_nil_r in Hev. rewrite omap_cons in Hev.
  apply app_nil in Hev as [Hev _]. apply Forall_cons in He as [(Hst & _) _]. apply Forall_cons in Hw as [Hw _].
  destruct (w_state w); try done. destruct Hst as [id Hid]. by rewrite Hid in Hev.
Qed.
(** Without a running event the first event of the queue is started: it waits
    for no other one, and the workers are idle. *)
Lemma start_first fork d g e l :
  sys_ok d g -> calm d -> (forall d, is_Some (fork d)) -> 1 <= children_max d -> event_list d = e :: l ->
  exists id, id ∈ running (event_list (event_queue_start accept fork d)).
Proof.
  intros Hok Hcalm Hfork Hmax Hl. pose proof (s_queue _ _ Hok) as Hq. pose proof Hq as [Hsort _ Hid _ _ _].
  unfold event_queue_start. destruct (running (event_list d)) as [|id r] eqn:Er.
  2: { exists id. apply (m_running _ _ (more_start_loop fork _ d Hid)). rewrite Er. left. }
  pose proof (workers_idle d g Hok Hcalm Er Hmax) as Hcap. assert (e ∈ event_list d) as Hin by (rewrite Hl; left).
  assert (e_state e = EVENT_QUEUED) as Est.
  { destruct Hcalm as [_ Hs]. rewrite Forall_forall in Hs. specialize (Hs e Hin). rewrite Hl, running_cons in Er.
    by destruct (e_state e). }
  assert (find_event d (e_id e) = Some e) as Hf by (by apply (find_key_in e_id)). exists (e_id e).
  rewrite Hl, fmap_cons. cbn [start_loop]. rewrite Hf, bool_decide_true by done. cbn [negb].
  pose proof (busy_inv e d Hq Hin Est) as Hb. unfold is_devpath_busy in *.
  destruct (busy_loop e (event_list d)) as [busy s]. destruct Hb as (Hq1 & -> & _). set (d1 := on_event _ _ d) in *.
  assert (blocked (event_list d) e = false) as ->.
  { rewrite Hl in Hsort |- *. apply (queue_sorted_app [] e l) in Hsort as [_ Hsort]. apply blocked_behind.
    constructor; [lia|]. eapply Forall_impl; [exact Hsort|]. simpl. lia. }
  assert (find_event d1 (e_id e) = Some (e <| delaying_seqnum := s |>)) as Hf1 by (by apply (find_updated d (e_id e) e)).
  pose proof (more_event_run fork (e_id e) d1 (queued_cached _ _ e d Hid Hf Est)) as Hm.
  apply (m_running _ _ (more_start_loop fork (e_id <$> l) _ ltac:(rewrite (m_ids _ _ Hm); by destruct Hq1))).
  by eapply event_run_starts.
Qed.

(** ** No event is without a state *)

Definition states_ok d : Prop := Forall (fun e => e_state e <> EVENT_UNDEF) (event_list d).
Lemma states_on_event d id f :
  (forall e, e_state e <> EVENT_UNDEF -> e_state (f e) <> EVENT_UNDEF) -> states_ok d -> states_ok (on_event id f d).
Proof.
  intros Hf H. apply Forall_fmap. eapply Forall_impl; [exact H|]. intros e He. simpl. destruct (decide _); auto.
Qed.
Lemma states_run send fork id d : states_ok d -> states_ok (event_run send fork id d).
Proof.
  intros H. unfold states_ok. destruct (event_run_queue send fork id d) as [_ [->|(st & Hst & ->)]]; [done|].
  by apply (states_on_event d id (fun e => e <| e_state := st |>)).
Qed.
Lemma states_start send fork ids d : states_ok d -> states_ok (start_loop send fork ids d).
Proof.
  revert d. induction ids as [|id ids IH]; intros d H; [done|]. simpl. destruct (find_event d id) as [e|]; [|by apply IH].
  destruct (negb _); [by apply IH|]. unfold is_devpath_busy. destruct (busy_loop e (event_list d)) as [[|] s].
  - by apply IH, states_on_event.
  - by apply IH, states_run, states_on_event.
Qed.
Lemma states_step s s' : step s s' -> states_ok s.1 -> states_ok s'.1.
Proof.
  destruct 1 as [d g p id ? ? ?|d g ?|i d d' g Hw H|i d d' g Hs H|i d g]; simpl; intros Hok; [done|..].
  - by apply (shrinks_Forall _ d), Hok; apply shrinks_exit.
  - unfold round_work in H. apply bind_Some in H as (d1 & H1 & H). apply bind_Some in H as (d2 & H2 & H). injection H as <-.
    assert (states_ok d2) as Hd2.
    { apply (shrinks_Forall _ d); [|done]. etrans; [|etrans; [apply shrinks_reload|eapply shrinks_returned, H2]].
      destruct (in_timeout i); [by eapply shrinks_timeout|by injection H1 as <-]. }
    assert (states_ok (round_netlink i d2)) as Hd3.
    { unfold round_netlink. destruct (in_device i); [|done]. apply Forall_app. split; [done|]. by repeat constructor. }
    unfold round_start. destruct (_ && _ && _); [|done]. by apply states_start.
  - apply (shrinks_Forall _ d); [|done]. by eapply shrinks_round_signal.
  - apply (shrinks_Forall _ d); [|done]. apply shrinks_ctrl.
Qed.
Lemma system_states max d g : system_reachable max (d, g) -> states_ok d.
Proof.
  change d with (d, g).1 at 2. unfold system_reachable. generalize (d, g).
  apply (rtc_ind_r (R := step)); [constructor|eauto using states_step].
Qed.

(** * Working off the queue *)

(** The workers answer all the events they were given. *)
Definition unanswered d g : list (Z * nat) := filter (fun x => (x ∉ answered g) /\ (x.1 ∉ reaped g)) (handed d).
Definition settle d g : procs :=
  g <| sock := sock g ++ unanswered d g |> <| answered := unanswered d g ++ answered g |>.
Lemma settle_ok d g : sys_ok d g -> sys_ok d (settle d g).
Proof.
  intros [H1 H2 H3 H4 H5 H6 H7 H8]. split; try done.
  - eapply Forall_impl; [exact H4|]. intros w (A & B & C & D & E). split_and!; [done|done|done|done|].
    intros id Hid. destruct (E id Hid) as (F & G & H). simpl. rewrite !elem_of_app. split_and!; [done|tauto|tauto].
  - simpl. intros x [Hx|Hx]%elem_of_app; [|by apply H7]. by apply list_elem_of_filter in Hx as [_ ?].
Qed.
(** When the answers are handled no event is running. *)
Lemma settled_none d d' g :
  sys_ok d' ((settle d g) <| sock := [] |>) -> actions d' = actions d -> running (event_list d') = [].
Proof.
  intros [_ _ Hev He _ _ _ _] Ha. destruct (running (event_list d')) as [|id r] eqn:E; [done|exfalso].
  assert (id ∈ omap w_event (worker_list d')) as Hin by (rewrite Hev; left).
  apply list_elem_of_omap in Hin as (w & Hw & Hid). rewrite Forall_forall in He.
  destruct (He w Hw) as (_ & _ & _ & _ & Hids). destruct (Hids id Hid) as (Hh & Hs & Hr). simpl in *.
  assert ((pid w, id) ∉ unanswered d g ++ answered g) as Hn by (intros H; by apply Hs, not_elem_of_nil in H).
  apply Hn. rewrite elem_of_app. destruct (decide ((pid w, id) ∈ answered g)) as [|Hna]; [by right|left].
  apply list_elem_of_filter. split; [|unfold handed in *; by rewrite <- Ha]. split; [done|]. intros H. by apply Hn, Hr.
Qed.
Lemma returned_keeps msgs d d' :
  worker_returned msgs d = Some d' -> flags d' = flags d /\
  (Forall (fun w => w_state w <> WORKER_KILLED) (worker_list d) -> Forall (fun w => w_state w <> WORKER_KILLED) (worker_list d')).
Proof.
  revert d. induction msgs as [|p msgs IH]; intros d H; simpl in H; [by injection H as <-|].
  destruct (find_worker d p) as [w|]; [|by apply IH]. apply bind_Some in H as (d1 & H1 & H).
  apply bind_Some in H as (d2 & H2 & H). destruct (IH d2 H) as [-> Hk].
  assert (flags d1 = flags d /\ worker_list d1 = worker_list d) as [<- <-].
  { destruct (w_event w); [|by injection H1 as <-]. unfold event_queue_delete in H1. destruct (find_event d _); [|done].
    by injection H1 as <-. }
  set (f := fun w => w <| w_event := None |> <| w_state := _ |>) in H2. unfold worker_unref in H2.
  destruct (find_worker _ p) as [w'|]; [|done]. injection H2 as <-.
  assert (Forall (fun w => w_state w <> WORKER_KILLED) (worker_list d1) ->
    Forall (fun w => w_state w <> WORKER_KILLED) (worker_list (on_worker p (fun w => w <| refcount := refcount w - 1 |>) (on_worker p f d1)))) as Hf.
  { intros Hw. apply calm_on_worker; [done|]. apply calm_on_worker; [|done]. intros v Hv. unfold f. simpl. by destruct (decide _). }
  destruct (0 <? _); (split; [done|]); intros Hw; apply Hk; [by apply Hf|]. specialize (Hf Hw).
  rewrite Forall_forall in *. intros v [_ Hv]%list_elem_of_filter. by apply Hf.
Qed.

(** A round in which the answers are all there. *)
Definition answer_round (fork : daemon -> option Z) d g : input :=
  quiet <| in_msgs := (sock (settle d g)).*1 |> <| in_send := accept |> <| in_fork := fork |>.
Fixpoint work_off (fork : daemon -> option Z) (n : nat) d g : option (daemon * procs) :=
  match n with
  | O => Some (d, g)
  | S n => match main_round (answer_round fork d g) d with
           | Some (Running d') => work_off fork n d' ((settle d g) <| sock := [] |>)
           | _ => None
           end
  end.
Definition ready d : Prop :=
  1 <= children_max d /\ stop_exec_queue d = false /\ Udevd.reload d = false /\ udev_exit d = false.
Lemma ready_flags d d' : flags d' = flags d -> ready d -> ready d'.
Proof. unfold flags, ready. intros [= -> -> -> ->]. done. Qed.
Lemma sublist_strict {A} (l k : list A) : l `sublist_of` k -> l <> k -> (length l < length k)%nat.
Proof.
  induction 1 as [|x l k Hs IH|x l k Hs IH]; intros Hne; [done| |]; simpl.
  - assert (length l < length k)%nat; [|lia]. apply IH. congruence.
  - apply sublist_length in Hs. lia.
Qed.

Lemma round_progress fork d g :
  sys_ok d g -> calm d -> ready d -> fork_ok fork -> (forall d, is_Some (fork d)) ->
  exists d', main_round (answer_round fork d g) d = Some (Running d') /\
    sys_ok d' ((settle d g) <| sock := [] |>) /\ calm d' /\ ready d' /\
    (length (event_list d') <= length (event_list d))%nat /\
    (running (event_list d) <> [] -> (length (event_list d') < length (event_list d))%nat) /\
    (event_list d' = [] \/ running (event_list d') <> []).
Proof.
  intros Hok [Hw Hst] Hready Hfork Hsome. pose proof (settle_ok d g Hok) as Hok1.
  destruct (returned_all_ok d (settle d g) _ Hok1 eq_refl) as (d1 & H1 & Hok2 & Ha).
  pose proof (settled_none d d1 g Hok2 Ha) as Hnone. pose proof (shrinks_returned _ _ _ H1) as Hshr.
  pose proof (returned_keeps _ _ _ H1) as [Hfl Hk]. specialize (Hk Hw).
  assert (calm d1) as Hcalm1 by (split; [done|by eapply shrinks_Forall]).
  assert (event_list d1 `sublist_of` event_list d) as Hsub.
  { destruct Hshr as [_ HR]. apply (HR (fun l => l `sublist_of` event_list d)); [|done]. intros Q ? l Hl.
    etrans; [apply sublist_filter|exact Hl]. }
  pose proof (ready_flags _ _ Hfl Hready) as Hready1. pose proof Hready as (_ & _ & Hrl & Hex).
  pose proof Hready1 as (Hmax1 & Hstop1 & _ & Hex1).
  set (d2 := round_start (answer_round fork d g) d1).
  assert (main_round (answer_round fork d g) d = Some (Running d2)) as Hmain.
  { unfold main_round. rewrite Hex. cbn [andb]. unfold round_work.
    assert (round_reload (answer_round fork d g) d = d) as Hre by (unfold round_reload; simpl; by rewrite Hrl).
    change (in_timeout (answer_round fork d g)) with false.
    change (in_msgs (answer_round fork d g)) with (sock (settle d g)).*1. cbn [mbind option_bind andb].
    rewrite Hre, H1. cbn [mbind option_bind]. unfold round_signal, round_ctrl.
    change (in_signal (answer_round fork d g)) with (@None (Z * list (Z * bool))).
    change (in_ctrl (answer_round fork d g)) with (@None ctrl_msg). cbn [mbind option_bind].
    change (round_netlink (answer_round fork d g) d1) with d1. fold d2. rewrite Hex. cbn [andb].
    by destruct (udev_exit d2). }
  assert (more_running d1 d2 /\ (event_list d1 = [] \/ running (event_list d2) <> [])) as [Hm Hrun].
  { unfold d2, round_start. rewrite Hex1, Hstop1. destruct (event_list d1) as [|e l] eqn:El; [by split; [|left]|].
    cbn [empty negb andb]. split; [apply more_start_loop; by destruct (s_queue _ _ Hok2)|right].
    destruct (start_first fork d1 _ e l Hok2 Hcalm1 Hsome Hmax1 El) as [id Hid]. intros E.
    change (in_send (answer_round fork d g)) with accept in E. change (in_fork (answer_round fork d g)) with fork in E.
    rewrite E in Hid. by apply not_elem_of_nil in Hid. }
  assert (length (event_list d2) = length (event_list d1)) as Hlen.
  { rewrite <- (length_fmap e_id (event_list d2)), (m_ids _ _ Hm). apply length_fmap. }
  exists d2. split; [done|]. split_and!.
  - unfold d2, round_start. destruct (_ && _ && _); [|done]. by apply start_loop_ok.
  - by apply (m_calm _ _ Hm).
  - by apply (ready_flags d1); [apply Hm|].
  - rewrite Hlen. by apply sublist_length.
  - intros Hr. rewrite Hlen. apply sublist_strict; [done|]. intros E. apply Hr. by rewrite <- E.
  - destruct Hrun as [E|]; [left|by right]. rewrite E in Hlen. by apply nil_length_inv in Hlen.
Qed.
Lemma work_off_step fork n d g d' :
  main_round (answer_round fork d g) d = Some (Running d') ->
  work_off fork (S n) d g = work_off fork n d' ((settle d g) <| sock := [] |>).
Proof. intros H. cbn [work_off]. by rewrite H. Qed.
Lemma work_off_all fork n d g :
  sys_ok d g -> calm d -> ready d -> fork_ok fork -> (forall d, is_Some (fork d)) ->
  (length (event_list d) <= n)%nat -> event_list d = [] \/ running (event_list d) <> [] ->
  exists d' g', work_off fork n d g = Some (d', g') /\ event_list d' = [].
Proof.
  intros Hok Hc Hr Hf Hs. revert d g Hok Hc Hr. induction n as [|n IH]; intros d g Hok Hc Hr Hn Hor.
  - exists d, g. split; [done|]. destruct (event_list d); [done|simpl in Hn; lia].
  - destruct (round_progress fork d g Hok Hc Hr Hf Hs) as (d1 & H1 & Hok1 & Hc1 & Hr1 & Hle & Hlt & Hor1).
    rewrite (work_off_step _ _ _ _ _ H1). apply IH; try done.
    destruct Hor as [E|E]; [rewrite E in Hle; simpl in Hle; lia|]. specialize (Hlt E). lia.
Qed.

(** C4: the daemon works off its queue: from every state it reaches in which
    it takes events (no exit, stop or reload asked for, room for one worker)
    and no worker was killed, when the workers answer what they were given
    before each round, new processes can be made and no new events come, no
    event is left after one round more than there are events; nothing waits
    forever for a blocking event or for a worker. *)
Theorem queue_worked_off max fork d g :
  system_reachable max (d, g) -> Forall (fun w => w_state w <> WORKER_KILLED) (worker_list d) -> ready d ->
  fork_ok fork -> (forall d, is_Some (fork d)) ->
  exists d' g', work_off fork (S (length (event_list d))) d g = Some (d', g') /\ event_list d' = [].
Proof.
  intros Hreach Hw Hr Hf Hs. pose proof (system_ok _ _ _ Hreach) as Hok.
  assert (calm d) as Hc by (split; [done|by eapply system_states]).
  destruct (round_progress fork d g Hok Hc Hr Hf Hs) as (d1 & H1 & Hok1 & Hc1 & Hr1 & Hle & _ & Hor).
  rewrite (work_off_step _ _ _ _ _ H1). by apply work_off_all.
Qed.
Lemma queue_worked_off_witness :
  system_reachable 8 (first_state, mk_procs [] [] []) /\ running (event_list first_state) = [1%nat] /\
  exists d' g', work_off fresh_fork 2 first_state (mk_procs [] [] []) = Some (d', g') /\ event_list d' = [].
Proof.
  split; [exact first_reachable|]. split; [reflexivity|].
  apply (queue_worked_off 8 fresh_fork first_state (mk_procs [] [] []) first_reachable).
  - repeat constructor. discriminate.
  - split; [simpl; lia|]. split; [reflexivity|]. split; reflexivity.
  - exact fresh_fork_ok.
  - intros d. eexists. reflexivity.
Defined.
End UdevdLive.
