(* ===== verification/Hashmap.v ===== *)
(** shared/hashmap.c: hash tables with chained buckets whose entries are also
    in a list in the order they were added, on a heap of entries; and
    shared/siphash24.c.

    A computation is a function from the store to a result and a new store; it
    is [None] when a pointer is followed that is not allocated, or when a loop
    does not end within the number of entries there are. *)

From Stdlib Require Import ZArith Lia Ascii.
From stdpp Require Import prelude gmap strings.
From S2P Require Import Prelude System.

#[local] Set Warnings "-register-all".

(** * shared/siphash24.c *)

Module Siphash.

Definition ROTL (x b : Z) : Z := Z.lor (u64 (Z.shiftl x b)) (Z.shiftr x (64 - b)).
(** The bytes at [p] from the shift [sh] on; [U8TO64_LE] of eight bytes, and
    the switch over the bytes that are left. *)
Fixpoint or_bytes (sh : Z) (p : bytes) : Z :=
  match p with
  | [] => 0
  | c :: p' => Z.lor (Z.shiftl (code c) sh) (or_bytes (sh + 8) p')
  end.
Definition U8TO64_LE (p : bytes) : Z := or_bytes 0 (take 8 p).
Definition U64TO8_LE (v : Z) : bytes := le_bytes 8 v.

Definition SIPROUND (v : Z * Z * Z * Z) : Z * Z * Z * Z :=
  let '(v0, v1, v2, v3) := v in
  let v0 := u64 (v0 + v1) in let v1 := ROTL v1 13 in let v1 := Z.lxor v1 v0 in let v0 := ROTL v0 32 in
  let v2 := u64 (v2 + v3) in let v3 := ROTL v3 16 in let v3 := Z.lxor v3 v2 in
  let v0 := u64 (v0 + v3) in let v3 := ROTL v3 21 in let v3 := Z.lxor v3 v0 in
  let v2 := u64 (v2 + v1) in let v1 := ROTL v1 17 in let v1 := Z.lxor v1 v2 in let v2 := ROTL v2 32 in
  (v0, v1, v2, v3).
Definition compress (m : Z) (v : Z * Z * Z * Z) : Z * Z * Z * Z :=
  let '(v0, v1, v2, v3) := v in
  let '(v0, v1, v2, v3) := SIPROUND (SIPROUND (v0, v1, v2, Z.lxor v3 m)) in
  (Z.lxor v0 m, v1, v2, v3).
(** [n] blocks of eight bytes, and what is behind them. *)
Fixpoint sip_loop (n : nat) (s : bytes) (v : Z * Z * Z * Z) : bytes * (Z * Z * Z * Z) :=
  match n with
  | O => (s, v)
  | S n' => sip_loop n' (drop 8 s) (compress (U8TO64_LE s) v)
  end.
Definition siphash24 (s k : bytes) : bytes :=
  let k0 := U8TO64_LE k in
  let k1 := U8TO64_LE (drop 8 k) in
  let b := u64 (Z.shiftl (Z.of_nat (length s)) 56) in
  let v := (Z.lxor 0x736f6d6570736575 k0, Z.lxor 0x646f72616e646f6d k1,
            Z.lxor 0x6c7967656e657261 k0, Z.lxor 0x7465646279746573 k1) in
  let '(rest, v) := sip_loop (length s / 8) s v in
  let b := Z.lor b (or_bytes 0 rest) in
  let '(v0, v1, v2, v3) := compress b v in
  let '(v0, v1, v2, v3) := SIPROUND (SIPROUND (SIPROUND (SIPROUND (v0, v1, Z.lxor v2 0xff, v3)))) in
  U64TO8_LE (Z.lxor (Z.lxor (Z.lxor v0 v1) v2) v3).

(** The vector of the paper: the key 00 .. 0f and the message 00 .. 0e. *)
Example siphash24_vector :
  siphash24 (chr <$> seqZ 0 15) (chr <$> seqZ 0 16) = le_bytes 8 0xa129ca6149be45e5.
Proof. by vm_compute. Qed.
End Siphash.

Module Hashmap.
Import Siphash.

(** * Keys *)

Definition HASH_KEY_SIZE : nat := 16.

(** The functions a table is made with. *)
Class KeyOps (K : Type) := {
  hash_func : K -> bytes -> Z;
  compare_func : K -> K -> Z
}.
(** What a table relies on: the functions agree on which keys are equal. *)
Class KeyLaws (K : Type) `{KO : KeyOps K} : Prop := {
  compare_refl k : compare_func k k = 0;
  compare_sym a b : compare_func a b = 0 -> compare_func b a = 0;
  compare_trans a b c : compare_func a b = 0 -> compare_func b c = 0 -> compare_func a c = 0;
  hash_compare a b key : compare_func a b = 0 -> hash_func a key = hash_func b key;
  hash_range a key : 0 <= hash_func a key
}.

Definition string_hash_func (p : bytes) (hash_key : bytes) : Z := le_val (siphash24 p hash_key).
Definition string_compare_func (a b : bytes) : Z := match strcmp a b with Lt => -1 | Eq => 0 | Gt => 1 end.
(** Of pointers. *)
Definition trivial_hash_func (p : Z) (hash_key : bytes) : Z := le_val (siphash24 (le_bytes 8 p) hash_key).
Definition trivial_compare_func (a b : Z) : Z := if a <? b then -1 else if b <? a then 1 else 0.
(** Of the numbers that the keys point to. *)
Definition uint64_hash_func (p : Z) (hash_key : bytes) : Z := le_val (siphash24 (le_bytes 8 p) hash_key).
Definition uint64_compare_func (a b : Z) : Z := if a <? b then -1 else if b <? a then 1 else 0.
#[export] Instance string_ops : KeyOps bytes := {| hash_func := string_hash_func; compare_func := string_compare_func |}.
#[export] Instance trivial_ops : KeyOps Z := {| hash_func := trivial_hash_func; compare_func := trivial_compare_func |}.
Definition uint64_ops : KeyOps Z := {| hash_func := uint64_hash_func; compare_func := uint64_compare_func |}.

(** * The store *)

(** A tile: the number of its pool, counted from the first, and its index. *)
Abbreviation ptr := (nat * Z)%type.

Record hashmap_entry {K V : Type} := mk_entry {
  key : K;
  value : V;
  bucket_next : option ptr;
  bucket_previous : option ptr;
  iterate_next : option ptr;
  iterate_previous : option ptr
}.
Arguments hashmap_entry : clear implicits.
#[export] Instance hashmap_entry_eta K V : Eta (hashmap_entry K V) := fun e =>
  mk_entry K V (key e) (value e) (bucket_next e) (bucket_previous e) (iterate_next e) (iterate_previous e).

(** The pools, the last one first. *)
Record pool := mk_pool { n_tiles : Z; n_used : Z }.
Record pools := mk_pools { pool_list : list pool; first_tile : list ptr }.

(** [current] of [get_hash_key], and how many keys were drawn. *)
Record store {K V : Type} := mk_store {
  mem : gmap ptr (hashmap_entry K V);
  entry_pools : pools;
  current : option bytes;
  drawn : nat
}.
Arguments store : clear implicits.
#[export] Instance store_eta K V : Eta (store K V) := fun s => mk_store K V (mem s) (entry_pools s) (current s) (drawn s).

(** Without [from_pool]: the tables of the main thread. *)
Record hashmap := mk_hashmap {
  iterate_list_head : option ptr;
  iterate_list_tail : option ptr;
  buckets : list (option ptr);
  n_buckets : Z;
  n_entries : Z;
  hash_key : bytes
}.
#[export] Instance hashmap_eta : Eta hashmap := fun h =>
  mk_hashmap (iterate_list_head h) (iterate_list_tail h) (buckets h) (n_buckets h) (n_entries h) (hash_key h).
Implicit Types h other : hashmap.

(** ** Tiles *)

Definition PAGE_SIZE : Z := 4096.
Definition PAGE_ALIGN (l : Z) : Z := Z.land (l + PAGE_SIZE - 1) (Z.lnot (PAGE_SIZE - 1)).
(** The size of a struct pool and of a struct hashmap_entry. *)
Definition pool_size : Z := 16.
Definition entry_size : Z := 48.
(** The tiles of a new pool behind one of [n] tiles. *)
Definition new_pool_tiles (n tile_size at_least : Z) : Z :=
  let n := Z.max at_least (u32 (n * 2)) in
  u32 ((PAGE_ALIGN (pool_size + n * tile_size) - pool_size) / tile_size).
Definition allocate_tile (tile_size at_least : Z) (ps : pools) : ptr * pools :=
  match first_tile ps with
  | r :: rest => (r, mk_pools (pool_list ps) rest)
  | [] =>
      match pool_list ps with
      | p :: l =>
          if n_tiles p <=? n_used p then
            ((S (length l), 0), mk_pools (mk_pool (new_pool_tiles (n_tiles p) tile_size at_least) 1 :: p :: l) [])
          else ((length l, n_used p), mk_pools (mk_pool (n_tiles p) (n_used p + 1) :: l) [])
      | [] => ((O, 0), mk_pools [mk_pool (new_pool_tiles 0 tile_size at_least) 1] [])
      end
  end.
Definition deallocate_tile (p : ptr) (ps : pools) : pools := mk_pools (pool_list ps) (p :: first_tile ps).

(** * The monad *)

Section M.
Context {K V : Type}.

Definition M (A : Type) : Type := store K V -> option (A * store K V).
#[export] Instance M_ret : MRet M := fun A x s => Some (x, s).
#[export] Instance M_bind : MBind M := fun A B f m s => match m s with Some (x, s') => f x s' | None => None end.

Definition load (p : ptr) : M (hashmap_entry K V) := fun s => (fun e => (e, s)) <$> mem s !! p.
Definition upd (p : ptr) (f : hashmap_entry K V -> hashmap_entry K V) : M unit :=
  fun s => (fun e => (Datatypes.tt, s <| mem := <[p := f e]> (mem s) |>)) <$> mem s !! p.
(** A write to a pointer that may be NULL. *)
Definition upd_if (p : option ptr) (f : hashmap_entry K V -> hashmap_entry K V) : M unit :=
  match p with Some p => upd p f | None => mret Datatypes.tt end.
(** A bucket. *)
Definition slot (bs : list (option ptr)) (hash : nat) : M (option ptr) := fun s => (fun b => (b, s)) <$> bs !! hash.
(** More than the number of entries: the length of no chain. *)
Definition bound : M nat := fun s => Some (S (size (mem s)), s).
Definition no_end {A} : M A := fun _ => None.
End M.
#[global] Arguments M : clear implicits.

(** * The operations *)

Section table.
Context {K V : Type} {KO : KeyOps K} `{EqDecision V}.
(** The bytes of [random_bytes]. *)
Context (random : nat -> bytes).
#[local] Abbreviation M := (M K V).
#[local] Abbreviation hashmap_entry := (hashmap_entry K V).

Definition get_hash_key (reuse_is_ok : bool) : M bytes := fun s =>
  match current s, reuse_is_ok with
  | Some k, true => Some (k, s)
  | _, _ => let k := random (drawn s) in Some (k, s <| current := Some k |> <| drawn := S (drawn s) |>)
  end.
Definition alloc_entry : M ptr := fun s =>
  let '(p, ps) := allocate_tile entry_size 64 (entry_pools s) in Some (p, s <| entry_pools := ps |>).
(** The fields of a new entry. *)
Definition init_entry (p : ptr) (k : K) (v : V) : M unit := fun s =>
  Some (Datatypes.tt, s <| mem := <[p := mk_entry K V k v None None None None]> (mem s) |>).
Definition free_entry (p : ptr) : M unit := fun s =>
  Some (Datatypes.tt, s <| mem := delete p (mem s) |> <| entry_pools := deallocate_tile p (entry_pools s) |>).

Definition INITIAL_N_BUCKETS : Z := 31.
Definition hashmap_new : M hashmap :=
  k ← get_hash_key true;
  mret (mk_hashmap None None (replicate (Z.to_nat INITIAL_N_BUCKETS) None) INITIAL_N_BUCKETS 0 k).
Definition hashmap_ensure_allocated (h : option hashmap) : M hashmap :=
  match h with Some h => mret h | None => hashmap_new end.

Definition hash_at (k : K) (hash_key : bytes) (n : Z) : nat := Z.to_nat (hash_func k hash_key mod n).
Definition bucket_hash h (k : K) : nat := hash_at k (hash_key h) (n_buckets h).

(** An entry is put in front of a bucket, and taken out of its bucket. *)
Definition bucket_link (bs : list (option ptr)) (e : ptr) (hash : nat) : M (list (option ptr)) :=
  old ← slot bs hash;
  upd e (fun x => x <| bucket_next := old |> <| bucket_previous := None |>) ;;
  upd_if old (fun x => x <| bucket_previous := Some e |>) ;;
  mret (<[hash := Some e]> bs).
Definition bucket_unlink (bs : list (option ptr)) (e : ptr) (hash : nat) : M (list (option ptr)) :=
  x ← load e;
  upd_if (bucket_next x) (fun y => y <| bucket_previous := bucket_previous x |>) ;;
  match bucket_previous x with
  | Some p => upd p (fun y => y <| bucket_next := bucket_next x |>) ;; mret bs
  | None => slot bs hash ;; mret (<[hash := bucket_next x]> bs)
  end.

Definition link_entry h (e : ptr) (hash : nat) : M hashmap :=
  bs ← bucket_link (buckets h) e hash;
  upd e (fun x => x <| iterate_previous := iterate_list_tail h |> <| iterate_next := None |>) ;;
  upd_if (iterate_list_tail h) (fun x => x <| iterate_next := Some e |>) ;;
  let h := h <| buckets := bs |> in
  let h := match iterate_list_tail h with Some _ => h | None => h <| iterate_list_head := Some e |> end in
  mret (h <| iterate_list_tail := Some e |> <| n_entries := u32 (n_entries h + 1) |>).
Definition unlink_entry h (e : ptr) (hash : nat) : M hashmap :=
  x ← load e;
  upd_if (iterate_next x) (fun y => y <| iterate_previous := iterate_previous x |>) ;;
  let h := match iterate_next x with Some _ => h | None => h <| iterate_list_tail := iterate_previous x |> end in
  upd_if (iterate_previous x) (fun y => y <| iterate_next := iterate_next x |>) ;;
  let h := match iterate_previous x with Some _ => h | None => h <| iterate_list_head := iterate_next x |> end in
  bs ← bucket_unlink (buckets h) e hash;
  mret (h <| buckets := bs |> <| n_entries := u32 (n_entries h - 1) |>).
Definition remove_entry h (e : ptr) : M hashmap :=
  x ← load e;
  h ← unlink_entry h e (bucket_hash h (key x));
  free_entry e ;;
  mret h.

Fixpoint scan_loop (fuel : nat) (e : option ptr) (k : K) : M (option ptr) :=
  match e with
  | None => mret None
  | Some p =>
      match fuel with
      | O => no_end
      | S fuel' =>
          x ← load p;
          if compare_func (key x) k =? 0 then mret (Some p) else scan_loop fuel' (bucket_next x) k
      end
  end.
Definition hash_scan h (hash : nat) (k : K) : M (option ptr) :=
  fuel ← bound;
  e ← slot (buckets h) hash;
  scan_loop fuel e k.

(** Every entry goes from its old bucket to its new one. *)
Fixpoint rehash_loop (fuel : nat) h (nkey : bytes) (m : Z) (old new : list (option ptr)) (i : option ptr) :
    M (list (option ptr)) :=
  match i with
  | None => mret new
  | Some p =>
      match fuel with
      | O => no_end
      | S fuel' =>
          x ← load p;
          old ← bucket_unlink old p (hash_at (key x) (hash_key h) (n_buckets h));
          new ← bucket_link new p (hash_at (key x) nkey m);
          rehash_loop fuel' h nkey m old new (iterate_next x)
      end
  end.
Definition resize_buckets h : M (bool * hashmap) :=
  if u32 (n_entries h * 4) <? u32 (n_buckets h * 3) then mret (false, h)
  else
    let m := u32 (u32 ((n_entries h + 1) * 4) - 1) in
    nkey ← get_hash_key false;
    fuel ← bound;
    n ← rehash_loop fuel h nkey m (buckets h) (replicate (Z.to_nat m) None) (iterate_list_head h);
    mret (true, h <| buckets := n |> <| n_buckets := m |> <| hash_key := nkey |>).

Definition hashmap_put h (k : K) (v : V) : M (Z * hashmap) :=
  let hash := bucket_hash h k in
  e ← hash_scan h hash k;
  match e with
  | Some p => x ← load p; mret (if bool_decide (value x = v) then 0 else - EEXIST, h)
  | None =>
      '(resized, h) ← resize_buckets h;
      let hash := if (resized : bool) then bucket_hash h k else hash in
      e ← alloc_entry;
      init_entry e k v ;;
      h ← link_entry h e hash;
      mret (1, h)
  end.
Definition hashmap_replace h (k : K) (v : V) : M (Z * hashmap) :=
  e ← hash_scan h (bucket_hash h k) k;
  match e with
  | Some p => upd p (fun x => x <| key := k |> <| value := v |>) ;; mret (0, h)
  | None => hashmap_put h k v
  end.
Definition hashmap_update h (k : K) (v : V) : M Z :=
  e ← hash_scan h (bucket_hash h k) k;
  match e with
  | Some p => upd p (fun x => x <| value := v |>) ;; mret 0
  | None => mret (- ENOENT)
  end.

(** A table that is NULL is empty. *)
Definition find_entry (h : option hashmap) (k : K) : M (option hashmap_entry) :=
  match h with
  | None => mret None
  | Some h =>
      e ← hash_scan h (bucket_hash h k) k;
      match e with Some p => x ← load p; mret (Some x) | None => mret None end
  end.
Definition hashmap_get (h : option hashmap) (k : K) : M (option V) := e ← find_entry h k; mret (value <$> e).
Definition hashmap_get2 (h : option hashmap) (k : K) : M (option (K * V)) :=
  e ← find_entry h k; mret ((fun x => (key x, value x)) <$> e).
Definition hashmap_contains (h : option hashmap) (k : K) : M bool := e ← find_entry h k; mret (bool_decide (is_Some e)).

Definition hashmap_remove h (k : K) : M (option V * hashmap) :=
  e ← hash_scan h (bucket_hash h k) k;
  match e with
  | Some p => x ← load p; h ← remove_entry h p; mret (Some (value x), h)
  | None => mret (None, h)
  end.
Definition hashmap_remove2 h (k : K) : M (option (K * V) * hashmap) :=
  e ← hash_scan h (bucket_hash h k) k;
  match e with
  | Some p => x ← load p; h ← remove_entry h p; mret (Some (key x, value x), h)
  | None => mret (None, h)
  end.
Definition hashmap_remove_value h (k : K) (v : V) : M (option V * hashmap) :=
  e ← hash_scan h (bucket_hash h k) k;
  match e with
  | Some p =>
      x ← load p;
      if bool_decide (value x = v) then h ← remove_entry h p; mret (Some v, h) else mret (None, h)
  | None => mret (None, h)
  end.

(** The entry [e] gets a new key and moves to the end. *)
Definition rekey h (e : ptr) (old_hash new_hash : nat) (k : K) (v : V) : M hashmap :=
  h ← unlink_entry h e old_hash;
  upd e (fun x => x <| key := k |> <| value := v |>) ;;
  link_entry h e new_hash.
Definition hashmap_remove_and_put h (old_key new_key : K) (v : V) : M (Z * hashmap) :=
  let old_hash := bucket_hash h old_key in
  e ← hash_scan h old_hash old_key;
  match e with
  | None => mret (- ENOENT, h)
  | Some p =>
      let new_hash := bucket_hash h new_key in
      k ← hash_scan h new_hash new_key;
      match k with
      | Some _ => mret (- EEXIST, h)
      | None => h ← rekey h p old_hash new_hash new_key v; mret (0, h)
      end
  end.
Definition hashmap_remove_and_replace h (old_key new_key : K) (v : V) : M (Z * hashmap) :=
  let old_hash := bucket_hash h old_key in
  e ← hash_scan h old_hash old_key;
  match e with
  | None => mret (- ENOENT, h)
  | Some p =>
      let new_hash := bucket_hash h new_key in
      k ← hash_scan h new_hash new_key;
      h ← match k with
          | Some q => if bool_decide (p <> q) then remove_entry h q else mret h
          | None => mret h
          end;
      h ← rekey h p old_hash new_hash new_key v;
      mret (0, h)
  end.

(** ** All entries *)

Fixpoint clear_loop (fuel : nat) h : M hashmap :=
  match iterate_list_head h with
  | None => mret h
  | Some p => match fuel with O => no_end | S fuel' => h ← remove_entry h p; clear_loop fuel' h end
  end.
Definition hashmap_clear h : M hashmap := fuel ← bound; clear_loop fuel h.
Definition hashmap_steal_first h : M (option V * hashmap) :=
  match iterate_list_head h with
  | None => mret (None, h)
  | Some p => x ← load p; h ← remove_entry h p; mret (Some (value x), h)
  end.
Definition hashmap_steal_first_key h : M (option K * hashmap) :=
  match iterate_list_head h with
  | None => mret (None, h)
  | Some p => x ← load p; h ← remove_entry h p; mret (Some (key x), h)
  end.
(** With the values that are freed, and with the values and keys. *)
Fixpoint clear_free_loop (fuel : nat) h (freed : list V) : M (list V * hashmap) :=
  '(p, h) ← hashmap_steal_first h;
  match p with
  | None => mret (freed, h)
  | Some v => match fuel with O => no_end | S fuel' => clear_free_loop fuel' h (freed ++ [v]) end
  end.
Definition hashmap_clear_free h : M (list V * hashmap) := fuel ← bound; clear_free_loop fuel h [].
Fixpoint clear_free_free_loop (fuel : nat) h (freed : list (K * V)) : M (list (K * V) * hashmap) :=
  match iterate_list_head h with
  | None => mret (freed, h)
  | Some p =>
      match fuel with
      | O => no_end
      | S fuel' => x ← load p; h ← remove_entry h p; clear_free_free_loop fuel' h (freed ++ [(key x, value x)])
      end
  end.
Definition hashmap_clear_free_free h : M (list (K * V) * hashmap) := fuel ← bound; clear_free_free_loop fuel h [].
(** The memory of the table itself is not in the store. *)
Definition hashmap_free (h : option hashmap) : M unit :=
  match h with None => mret Datatypes.tt | Some h => hashmap_clear h ;; mret Datatypes.tt end.
Definition hashmap_free_free (h : option hashmap) : M (list V) :=
  match h with
  | None => mret []
  | Some h => '(freed, h) ← hashmap_clear_free h; hashmap_free (Some h) ;; mret freed
  end.
Definition hashmap_free_free_free (h : option hashmap) : M (list (K * V)) :=
  match h with
  | None => mret []
  | Some h => '(freed, h) ← hashmap_clear_free_free h; hashmap_free (Some h) ;; mret freed
  end.

Inductive Iterator := ITERATOR_FIRST | ITERATOR_LAST | ITERATOR_AT (e : ptr).
Definition hashmap_iterate (h : option hashmap) (i : Iterator) : M (option (K * V) * Iterator) :=
  let at_e p :=
    x ← load p;
    mret (Some (key x, value x), match iterate_next x with Some n => ITERATOR_AT n | None => ITERATOR_LAST end) in
  match h, i with
  | None, _ | _, ITERATOR_LAST => mret (None, ITERATOR_LAST)
  | Some h, ITERATOR_FIRST =>
      match iterate_list_head h with None => mret (None, ITERATOR_LAST) | Some p => at_e p end
  | Some _, ITERATOR_AT p => at_e p
  end.
Definition hashmap_iterate_backwards (h : option hashmap) (i : Iterator) : M (option (K * V) * Iterator) :=
  let at_e p :=
    x ← load p;
    mret (Some (key x, value x), match iterate_previous x with Some n => ITERATOR_AT n | None => ITERATOR_FIRST end) in
  match h, i with
  | None, _ | _, ITERATOR_FIRST => mret (None, ITERATOR_FIRST)
  | Some h, ITERATOR_LAST =>
      match iterate_list_tail h with None => mret (None, ITERATOR_FIRST) | Some p => at_e p end
  | Some _, ITERATOR_AT p => at_e p
  end.
(** [None] for the iterator: it is not changed. *)
Definition hashmap_iterate_skip (h : option hashmap) (k : K) : M (option V * option Iterator) :=
  match h with
  | None => mret (None, None)
  | Some h =>
      e ← hash_scan h (bucket_hash h k) k;
      match e with
      | Some p => x ← load p; mret (Some (value x), Some (ITERATOR_AT p))
      | None => mret (None, None)
      end
  end.
(** HASHMAP_FOREACH_KEY, with a body that collects, and
    HASHMAP_FOREACH_BACKWARDS. *)
Fixpoint foreach_loop (next : Iterator -> M (option (K * V) * Iterator)) (fuel : nat) (i : Iterator) (seen : list (K * V)) :
    M (list (K * V)) :=
  '(e, i) ← next i;
  match e with
  | None => mret seen
  | Some kv => match fuel with O => no_end | S fuel' => foreach_loop next fuel' i (seen ++ [kv]) end
  end.
Definition HASHMAP_FOREACH_KEY (h : option hashmap) : M (list (K * V)) :=
  fuel ← bound; foreach_loop (hashmap_iterate h) fuel ITERATOR_FIRST [].
Definition HASHMAP_FOREACH_BACKWARDS (h : option hashmap) : M (list (K * V)) :=
  fuel ← bound; foreach_loop (hashmap_iterate_backwards h) fuel ITERATOR_LAST [].
(** Without the NULL at the end. *)
Definition hashmap_get_strv h : M (list V) := l ← HASHMAP_FOREACH_KEY (Some h); mret l.*2.

Definition first_entry (p : option ptr) : M (option hashmap_entry) :=
  match p with None => mret None | Some p => x ← load p; mret (Some x) end.
Definition hashmap_first (h : option hashmap) : M (option V) :=
  x ← first_entry (h ≫= iterate_list_head); mret (value <$> x).
Definition hashmap_first_key (h : option hashmap) : M (option K) :=
  x ← first_entry (h ≫= iterate_list_head); mret (key <$> x).
Definition hashmap_last (h : option hashmap) : M (option V) :=
  x ← first_entry (h ≫= iterate_list_tail); mret (value <$> x).
Definition hashmap_next h (k : K) : M (option V) :=
  e ← hash_scan h (bucket_hash h k) k;
  match e with
  | None => mret None
  | Some p => x ← load p; y ← first_entry (iterate_next x); mret (value <$> y)
  end.

Definition hashmap_size (h : option hashmap) : Z := from_option n_entries 0 h.
Definition hashmap_buckets (h : option hashmap) : Z := from_option n_buckets 0 h.
Definition hashmap_isempty (h : option hashmap) : bool := match h with None => true | Some h => n_entries h =? 0 end.

(** ** Two tables *)

Fixpoint merge_loop (fuel : nat) h (e : option ptr) : M (Z * hashmap) :=
  match e with
  | None => mret (0, h)
  | Some p =>
      match fuel with
      | O => no_end
      | S fuel' =>
          x ← load p;
          '(r, h) ← hashmap_put h (key x) (value x);
          if (r <? 0) && negb (r =? - EEXIST) then mret (r, h)
          else x ← load p; merge_loop fuel' h (iterate_next x)
      end
  end.
Definition hashmap_merge h (other : option hashmap) : M (Z * hashmap) :=
  match other with
  | None => mret (0, h)
  | Some other => fuel ← bound; merge_loop fuel h (iterate_list_head other)
  end.
Definition hashmap_copy h : M hashmap := copy ← hashmap_new; '(_, copy) ← hashmap_merge copy (Some h); mret copy.

Fixpoint move_loop (fuel : nat) h other (e : option ptr) : M (hashmap * hashmap) :=
  match e with
  | None => mret (h, other)
  | Some p =>
      match fuel with
      | O => no_end
      | S fuel' =>
          x ← load p;
          let h_hash := bucket_hash h (key x) in
          k ← hash_scan h h_hash (key x);
          match k with
          | Some _ => move_loop fuel' h other (iterate_next x)
          | None =>
              other ← unlink_entry other p (bucket_hash other (key x));
              h ← link_entry h p h_hash;
              move_loop fuel' h other (iterate_next x)
          end
      end
  end.
Definition hashmap_move h (other : option hashmap) : M (hashmap * option hashmap) :=
  match other with
  | None => mret (h, None)
  | Some other => fuel ← bound; '(h, other) ← move_loop fuel h other (iterate_list_head other); mret (h, Some other)
  end.
Definition hashmap_move_one h (other : option hashmap) (k : K) : M (Z * hashmap * option hashmap) :=
  match other with
  | None => mret (0, h, None)
  | Some o =>
      let h_hash := bucket_hash h k in
      e ← hash_scan h h_hash k;
      match e with
      | Some _ => mret (- EEXIST, h, other)
      | None =>
          let other_hash := bucket_hash o k in
          e ← hash_scan o other_hash k;
          match e with
          | None => mret (- ENOENT, h, other)
          | Some p =>
              o ← unlink_entry o p other_hash;
              h ← link_entry h p h_hash;
              mret (0, h, Some o)
          end
      end
  end.
End table.
End Hashmap.
