(* ===== verification/HashmapLists.v ===== *)
(** shared/hashmap.c: what the two kinds of lists of a table look like in the
    heap of its entries, and what linking and unlinking do to them. *)

From Stdlib Require Import ZArith Lia Ascii.
From stdpp Require Import prelude gmap strings.
From S2P Require Import Prelude System Hashmap.
Import Hashmap.

#[local] Set Warnings "-register-all".

Module HashmapLists.

(** * Lists that are linked in both directions

    [nx] and [pv] are the links of an element. *)

Section dll.
Context {A : Type} `{EqDecision A}.
Implicit Types (nx pv : A -> option A) (l a b : list A).

Definition dll nx pv l : Prop := forall a p b, l = a ++ p :: b -> nx p = head b /\ pv p = last a.

Lemma dll_ext nx pv nx' pv' l :
  (forall p, p ∈ l -> nx' p = nx p /\ pv' p = pv p) -> dll nx pv l -> dll nx' pv' l.
Proof. intros He H a p b ->. destruct (He p) as [-> ->]; [set_solver|]. by apply H. Qed.
Lemma dll_nil nx pv : dll nx pv [].
Proof. by intros [] ? ?. Qed.

Lemma head_app_cons (b l : list A) : head (b ++ l) = match b with [] => head l | x :: _ => Some x end.
Proof. by destruct b. Qed.
Lemma last_app_r (l b : list A) : last (l ++ b) = match last b with Some x => Some x | None => last l end.
Proof. by rewrite last_app. Qed.

Lemma dll_push_front nx pv nx' pv' e l :
  e ∉ l -> NoDup l -> dll nx pv l ->
  nx' e = head l -> pv' e = None ->
  (forall q, q ∈ l -> nx' q = nx q) ->
  (forall q, q ∈ l -> pv' q = if decide (head l = Some q) then Some e else pv q) ->
  dll nx' pv' (e :: l).
Proof.
  intros He Hnd H He1 He2 Hn Hp [|x a] p b Heq; simplify_eq/=; [done|].
  rewrite Hn, Hp by set_solver. destruct (H a p b eq_refl) as [-> ->]. split; [done|].
  destruct a as [|y a]; simpl in *; [by rewrite decide_True|]. rewrite decide_False; [done|].
  intros [= ->]. apply NoDup_cons in Hnd as [Hnd _]. set_solver.
Qed.
Lemma dll_push_back nx pv nx' pv' e l :
  e ∉ l -> NoDup l -> dll nx pv l ->
  nx' e = None -> pv' e = last l ->
  (forall q, q ∈ l -> pv' q = pv q) ->
  (forall q, q ∈ l -> nx' q = if decide (last l = Some q) then Some e else nx q) ->
  dll nx' pv' (l ++ [e]).
Proof.
  intros He Hnd H He1 He2 Hp Hn a p b Heq.
  destruct b as [|b0 b _] using rev_ind.
  - apply app_inj_tail in Heq as [-> ->]. done.
  - assert (l = a ++ p :: b) as -> by (rewrite app_comm_cons, app_assoc in Heq; by apply app_inj_tail in Heq as [-> _]).
    rewrite app_comm_cons, app_assoc in Heq. apply app_inj_tail in Heq as [_ ->].
    rewrite Hn, Hp by set_solver. destruct (H a p b eq_refl) as [-> ->]. split; [|done].
    rewrite last_app_cons. destruct b as [|y b]; [by rewrite decide_True|]. rewrite decide_False; [done|].
    rewrite last_cons_cons. intros Hl. apply NoDup_app in Hnd as (_ & _ & Hnd). apply NoDup_cons in Hnd as [Hnd _].
    apply Hnd. by apply last_Some_elem_of.
Qed.
Lemma dll_remove nx pv nx' pv' a e b :
  NoDup (a ++ e :: b) -> dll nx pv (a ++ e :: b) ->
  (forall q, q ∈ a ++ b -> nx' q = if decide (last a = Some q) then head b else nx q) ->
  (forall q, q ∈ a ++ b -> pv' q = if decide (head b = Some q) then last a else pv q) ->
  dll nx' pv' (a ++ b).
Proof.
  intros Hnd H Hn Hp a' q b' Heq. rewrite Hn, Hp by (rewrite Heq; set_solver).
  apply NoDup_app in Hnd as (Hna & Hab & Hnb). apply NoDup_cons in Hnb as [Heb Hnb].
  apply app_eq_app in Heq as (l & [[-> Heq]|[-> Heq]]).
  - (* in a *)
    destruct l as [|q' l]; [simpl in Heq; subst b|injection Heq as -> ->].
    + (* at the border: q is the head of b *)
      rewrite app_nil_r in *. destruct (H (a' ++ [e]) q b') as [-> Hpv]; [by rewrite <- app_assoc|].
      rewrite decide_False; [|intros Hl; apply last_Some_elem_of in Hl; destruct (Hab q Hl); set_solver].
      by rewrite (decide_True (P := Some q = Some q)).
    + destruct (H a' q' (l ++ e :: b)) as [Hnx Hpv]; [by rewrite <- app_assoc|]. rewrite Hnx, Hpv. split.
      * rewrite last_app_cons, !head_app_cons. destruct l as [|y l]; [by rewrite decide_True|]. rewrite decide_False; [done|].
        rewrite last_cons_cons. intros Hl%last_Some_elem_of. apply NoDup_app in Hna as (_ & _ & Hna).
        by apply NoDup_cons in Hna as [? _].
      * rewrite decide_False; [done|]. intros Hh%head_Some_elem_of. apply (Hab q'); set_solver.
  - (* in b *)
    destruct (H (a ++ e :: l) q b') as [Hnx Hpv]; [rewrite <- app_assoc; simpl; by rewrite Heq|]. rewrite Hnx, Hpv. subst b. split.
    + rewrite decide_False; [done|]. intros Hl%last_Some_elem_of. apply (Hab q Hl). set_solver.
    + rewrite head_app_cons, last_app_cons, last_app_r. destruct l as [|y l]; [by rewrite decide_True|]. rewrite decide_False.
      * rewrite last_cons_cons. destruct (last (y :: l)) eqn:E; [done|]. by apply last_None in E.
      * intros [= ->]. apply NoDup_cons in Hnb as [Hnb _]. set_solver.
Qed.
End dll.

(** * The heap *)

Section heap.
Context {K V : Type}.
#[local] Abbreviation entry := (hashmap_entry K V).
#[local] Abbreviation heap := (gmap ptr entry).
Implicit Types (m : heap) (s : store K V) (f : entry -> entry) (p q e : ptr) (o pr ne tail : option ptr).

(** A link of an entry. *)
Definition fld (g : entry -> option ptr) m p : option ptr := m !! p ≫= g.
Definition alter_if o f m : heap := match o with Some p => alter f p m | None => m end.
(** What a write to [o] makes of the entry at [q]. *)
Definition hit o q f : entry -> entry := if decide (o = Some q) then f else id.

Lemma lookup_alter_hit f p m q : alter f p m !! q = hit (Some p) q f <$> m !! q.
Proof.
  unfold hit. case_decide as H; [injection H as ->; by rewrite lookup_alter_eq|].
  rewrite lookup_alter_ne by congruence. by destruct (m !! q).
Qed.
Lemma lookup_alter_if o f m q : alter_if o f m !! q = hit o q f <$> m !! q.
Proof. destruct o as [p|]; simpl; [apply lookup_alter_hit|]. unfold hit. rewrite decide_False by done. by destruct (m !! q). Qed.

Definition set_mem s m : store K V := s <| mem := m |>.
Lemma set_mem_mem s : set_mem s (mem s) = s.
Proof. by destruct s. Qed.
Lemma mem_set_mem s m : mem (set_mem s m) = m.
Proof. by destruct s. Qed.
Lemma set_mem_set_mem s m m' : set_mem (set_mem s m) m' = set_mem s m'.
Proof. by destruct s. Qed.

Lemma bind_Some {A B} (c : M K V A) (k : A -> M K V B) s x s' : c s = Some (x, s') -> (c ≫= k) s = k x s'.
Proof. intros H. unfold mbind, M_bind. by rewrite H. Qed.
Lemma load_eq p s x : mem s !! p = Some x -> load p s = Some (x, s).
Proof. intros H. unfold load. by rewrite H. Qed.
Lemma upd_eq p f s : is_Some (mem s !! p) -> upd p f s = Some (Datatypes.tt, set_mem s (alter f p (mem s))).
Proof.
  intros [x H]. assert (<[p := f x]> (mem s) = alter f p (mem s)) as Ha.
  { apply map_eq. intros q. rewrite lookup_alter_hit. unfold hit. case_decide as Hd.
    - injection Hd as ->. by rewrite lookup_insert_eq, H.
    - rewrite lookup_insert_ne by congruence. by destruct (mem s !! q). }
  unfold upd. rewrite H. cbn [fmap option_fmap option_map]. by rewrite Ha.
Qed.
Lemma upd_if_eq o f s :
  (forall p, o = Some p -> is_Some (mem s !! p)) -> upd_if o f s = Some (Datatypes.tt, set_mem s (alter_if o f (mem s))).
Proof. intros H. destruct o as [p|]; simpl; [apply upd_eq; auto|]. unfold mret, M_ret. by rewrite set_mem_mem. Qed.
Lemma slot_eq bs b o s : bs !! b = Some o -> slot bs b s = Some (o, s).
Proof. intros H. unfold slot. by rewrite H. Qed.

(** * Buckets *)

(** A chain that starts at [o]. *)
Definition chain m o (bl : list ptr) : Prop :=
  dll (fld bucket_next m) (fld bucket_previous m) bl /\ NoDup bl /\ o = head bl.
Definition hashes m (hf : K -> nat) p b : Prop := exists x, m !! p = Some x /\ hf (key x) = b.
(** The buckets of the entries [P]. *)
Definition buckets_ok m (bs : list (option ptr)) (hf : K -> nat) (P : ptr -> Prop) : Prop :=
  (forall p, P p -> exists x, m !! p = Some x /\ (hf (key x) < length bs)%nat) /\
  forall b o, bs !! b = Some o -> exists bl, chain m o bl /\ forall p, p ∈ bl <-> P p /\ hashes m hf p b.

(** What is not a link of a bucket. *)
Definition but_bucket (x : entry) := (key x, value x, iterate_next x, iterate_previous x).
Definition bucket_frame (P : ptr -> Prop) m m' : Prop :=
  forall q, but_bucket <$> m' !! q = but_bucket <$> m !! q /\ (~ P q -> m' !! q = m !! q).

Lemma bucket_frame_trans P m m' m'' : bucket_frame P m m' -> bucket_frame P m' m'' -> bucket_frame P m m''.
Proof. intros H H' q. destruct (H' q) as [-> Hn'], (H q) as [-> Hn]. split; [done|]. intros HP. by rewrite Hn', Hn. Qed.
Lemma bucket_frame_weaken (P Q : ptr -> Prop) m m' : (forall q, P q -> Q q) -> bucket_frame P m m' -> bucket_frame Q m m'.
Proof. intros HPQ H q. destruct (H q) as [He Hn]. split; [done|]. auto. Qed.
Lemma bucket_frame_lookup P m m' q x : bucket_frame P m m' -> m !! q = Some x -> exists x', m' !! q = Some x' /\ but_bucket x' = but_bucket x.
Proof. intros H Hx. destruct (H q) as [He _]. rewrite Hx in He. apply fmap_Some in He as (x' & ? & ?). eauto. Qed.
Lemma bucket_frame_sym_lookup P m m' q x' : bucket_frame P m m' -> m' !! q = Some x' -> exists x, m !! q = Some x /\ but_bucket x' = but_bucket x.
Proof. intros H Hx. destruct (H q) as [He _]. rewrite Hx in He. symmetry in He. apply fmap_Some in He as (x & ? & ?). eauto. Qed.
Lemma bucket_frame_key P m m' hf q b : bucket_frame P m m' -> hashes m' hf q b <-> hashes m hf q b.
Proof.
  intros H. split; intros (x & Hx & Hh).
  - destruct (bucket_frame_sym_lookup _ _ _ _ _ H Hx) as (x' & Hx' & He). exists x'. split; [done|]. injection He as Hk _ _ _. congruence.
  - destruct (bucket_frame_lookup _ _ _ _ _ H Hx) as (x' & Hx' & He). exists x'. split; [done|]. injection He as Hk _ _ _. congruence.
Qed.

Lemma buckets_ok_ext m bs hf (P Q : ptr -> Prop) : (forall p, P p <-> Q p) -> buckets_ok m bs hf P -> buckets_ok m bs hf Q.
Proof.
  intros He [H1 H2]. split; [intros p Hp; apply H1; by apply He|]. intros b o Hb. destruct (H2 b o Hb) as (bl & Hc & Hbl).
  exists bl. split; [done|]. intros p. rewrite Hbl. by rewrite He.
Qed.
Lemma buckets_empty m n hf : buckets_ok m (replicate n None) hf (fun _ => False).
Proof.
  split; [done|]. intros b o [-> _]%lookup_replicate. exists []. split; [|set_solver]. split; [apply dll_nil|]. by split; [constructor|].
Qed.
Lemma chain_ext m m' o bl : (forall p, p ∈ bl -> m' !! p = m !! p) -> chain m o bl -> chain m' o bl.
Proof. intros He (H1 & H2 & H3). split; [|done]. eapply dll_ext; [|exact H1]. intros p Hp. unfold fld. by rewrite He. Qed.
Lemma buckets_frame m m' bs hf (P : ptr -> Prop) : (forall p, P p -> m' !! p = m !! p) -> buckets_ok m bs hf P -> buckets_ok m' bs hf P.
Proof.
  intros He [H1 H2]. split; [intros p Hp; rewrite He by done; by apply H1|]. intros b o Hb.
  destruct (H2 b o Hb) as (bl & Hc & Hbl). exists bl. split; [eapply chain_ext; [|exact Hc]; intros p Hp; apply He, Hbl, Hp|].
  intros p. rewrite Hbl. unfold hashes. split; intros [HP Hh]; (split; [done|]); [by rewrite He|by rewrite He in Hh].
Qed.
Lemma buckets_ok_elem m bs hf (P : ptr -> Prop) b o p :
  buckets_ok m bs hf P -> bs !! b = Some o -> o = Some p -> P p /\ hashes m hf p b.
Proof. intros [_ H] Hb ->. destruct (H b _ Hb) as (bl & (_ & _ & Hh) & Hbl). apply Hbl. by apply head_Some_elem_of. Qed.

Lemma hit_none o f q (mx : option entry) : o <> Some q -> hit o q f <$> mx = mx.
Proof. intros H. unfold hit. rewrite decide_False by done. by destruct mx. Qed.
Lemma hit_but_bucket o f q (mx : option entry) :
  (forall x, but_bucket (f x) = but_bucket x) -> but_bucket <$> (hit o q f <$> mx) = but_bucket <$> mx.
Proof. intros H. unfold hit. case_decide; destruct mx; simpl; by rewrite ?H. Qed.
Lemma alter_bucket_frame (P : ptr -> Prop) o f m :
  (forall p, o = Some p -> P p) -> (forall x, but_bucket (f x) = but_bucket x) -> bucket_frame P m (alter_if o f m).
Proof.
  intros HP Hf q. rewrite lookup_alter_if. split; [by apply hit_but_bucket|]. intros Hq. apply hit_none. intros Ho. eauto.
Qed.

(** The effect of linking on the heap. *)
Definition linked_front m (old : option ptr) e : heap :=
  alter_if old (fun x => x <| bucket_previous := Some e |>)
    (alter_if (Some e) (fun x => x <| bucket_next := old |> <| bucket_previous := None |>) m).
Lemma bucket_link_eq s bs e b old :
  bs !! b = Some old -> is_Some (mem s !! e) -> (forall p, old = Some p -> is_Some (mem s !! p)) ->
  bucket_link bs e b s = Some (<[b := Some e]> bs, set_mem s (linked_front (mem s) old e)).
Proof.
  intros Hb He Ho. unfold bucket_link. rewrite (bind_Some _ _ _ _ _ (slot_eq _ _ _ _ Hb)).
  rewrite (bind_Some _ _ _ _ _ (upd_eq _ _ _ He)). erewrite bind_Some.
  2: { apply upd_if_eq. intros p Hp. rewrite mem_set_mem, lookup_alter_hit. apply fmap_is_Some. by apply Ho. }
  rewrite mem_set_mem, set_mem_set_mem. done.
Qed.
Lemma bucket_link_ok s bs hf (P : ptr -> Prop) e x :
  buckets_ok (mem s) bs hf P -> ~ P e -> mem s !! e = Some x -> (hf (key x) < length bs)%nat ->
  exists m', bucket_link bs e (hf (key x)) s = Some (<[hf (key x) := Some e]> bs, set_mem s m') /\
    buckets_ok m' (<[hf (key x) := Some e]> bs) hf (fun p => p = e \/ P p) /\
    bucket_frame (fun p => p = e \/ P p) (mem s) m'.
Proof.
  intros Hok HPe Hx Hlen. remember (hf (key x)) as b eqn:Hbx.
  destruct (lookup_lt_is_Some_2 bs b Hlen) as [old Hold].
  assert (forall p, old = Some p -> P p /\ hashes (mem s) hf p b) as Hhead by (intros p; by eapply buckets_ok_elem).
  exists (linked_front (mem s) old e).
  assert (bucket_frame (fun p => p = e \/ P p) (mem s) (linked_front (mem s) old e)) as Hf.
  { eapply bucket_frame_trans; apply alter_bucket_frame; try done; [intros p [= ->]; by left|].
    intros p Hp. right. by apply Hhead. }
  split; [|split; [|done]].
  { apply bucket_link_eq; [done|by eexists|]. intros p Hp. destruct (Hhead p Hp) as [HP _].
    destruct (proj1 Hok p HP) as (y & ? & _). by eexists. }
  assert (forall q, linked_front (mem s) old e !! q =
    hit old q (fun x => x <| bucket_previous := Some e |>) <$>
      (hit (Some e) q (fun x => x <| bucket_next := old |> <| bucket_previous := None |>) <$> mem s !! q)) as Hl.
  { intros q. unfold linked_front. by rewrite !lookup_alter_if. }
  assert (old <> Some e) as Hoe by (intros Ho; destruct (Hhead e Ho); done).
  split.
  - intros p Hp. rewrite length_insert. assert (exists y, mem s !! p = Some y /\ (hf (key y) < length bs)%nat) as (y & Hy & Hyl).
    { destruct Hp as [->|Hp]; [exists x; by rewrite <- Hbx|by apply Hok]. }
    destruct (bucket_frame_lookup _ _ _ _ _ Hf Hy) as (y' & Hy' & He). exists y'. split; [done|]. injection He as -> _ _ _. done.
  - intros b' o Hb'. destruct (decide (b' = b)) as [->|Hbb].
    + rewrite list_lookup_insert_eq in Hb' by done. injection Hb' as <-.
      destruct (proj2 Hok b old Hold) as (bl & (Hd & Hnd & Hh) & Hbl).
      assert (e ∉ bl) as Hebl by (intros [? _]%Hbl; done).
      exists (e :: bl). split.
      * split; [|split; [by constructor|done]].
        apply (dll_push_front (fld bucket_next (mem s)) (fld bucket_previous (mem s))); [done..| | | |].
        -- unfold fld. rewrite Hl, Hx. rewrite hit_none by done. unfold hit. by rewrite decide_True.
        -- unfold fld. rewrite Hl, Hx. rewrite hit_none by done. unfold hit. by rewrite decide_True.
        -- intros q Hq. unfold fld. rewrite Hl, (hit_none (Some e)) by congruence. unfold hit.
           case_decide; by destruct (mem s !! q).
        -- intros q Hq. unfold fld. rewrite Hl, (hit_none (Some e)) by congruence. unfold hit. rewrite Hh.
           apply Hbl in Hq as [HPq _]. destruct (proj1 Hok q HPq) as (y & -> & _). by case_decide.
      * intros p. rewrite elem_of_cons, Hbl, (bucket_frame_key _ _ _ _ _ _ Hf). unfold hashes. naive_solver.
    + rewrite list_lookup_insert_ne in Hb' by done.
      destruct (proj2 Hok b' o Hb') as (bl & Hc & Hbl). exists bl. split.
      * eapply chain_ext; [|exact Hc]. intros p [HPp (y & Hy & Hyb)]%Hbl. rewrite Hl, !hit_none; [done|congruence|].
        intros Ho. destruct (Hhead p Ho) as [_ (z & Hz & Hzb)]. congruence.
      * intros p. rewrite Hbl, (bucket_frame_key _ _ _ _ _ _ Hf). unfold hashes. split; [naive_solver|].
        intros [[->|HPp] Hh]; [|done]. destruct Hh as (y & Hy & Hyb). congruence.
Qed.

(** The effect of unlinking, between [pr] and [ne]. *)
Definition unlinked_bucket m pr ne : heap :=
  alter_if pr (fun y => y <| bucket_next := ne |>) (alter_if ne (fun y => y <| bucket_previous := pr |>) m).
Definition unlinked_slot bs b pr ne : list (option ptr) := match pr with Some _ => bs | None => <[b := ne]> bs end.
Lemma bucket_unlink_eq s bs e b x old :
  bs !! b = Some old -> mem s !! e = Some x ->
  (forall p, bucket_next x = Some p -> is_Some (mem s !! p)) ->
  (forall p, bucket_previous x = Some p -> is_Some (mem s !! p)) ->
  bucket_unlink bs e b s =
    Some (unlinked_slot bs b (bucket_previous x) (bucket_next x), set_mem s (unlinked_bucket (mem s) (bucket_previous x) (bucket_next x))).
Proof.
  intros Hb Hx Hn Hp. unfold bucket_unlink. rewrite (bind_Some _ _ _ _ _ (load_eq _ _ _ Hx)).
  rewrite (bind_Some _ _ _ _ _ (upd_if_eq _ _ _ Hn)). unfold unlinked_slot, unlinked_bucket.
  destruct (bucket_previous x) as [p|] eqn:Ep.
  - erewrite bind_Some; [|apply upd_eq; rewrite mem_set_mem, lookup_alter_if; apply fmap_is_Some; by apply Hp].
    by rewrite mem_set_mem, set_mem_set_mem.
  - by rewrite (bind_Some _ _ _ _ _ (slot_eq _ _ _ _ Hb)).
Qed.
Lemma dll_ends nx pv (a c : list ptr) e : dll nx pv (a ++ e :: c) -> nx e = head c /\ pv e = last a.
Proof. intros H. by apply H. Qed.

Lemma bucket_unlink_ok s bs hf (P : ptr -> Prop) e x :
  buckets_ok (mem s) bs hf P -> P e -> mem s !! e = Some x ->
  exists m' bs', bucket_unlink bs e (hf (key x)) s = Some (bs', set_mem s m') /\ length bs' = length bs /\
    buckets_ok m' bs' hf (fun p => p <> e /\ P p) /\ bucket_frame P (mem s) m'.
Proof.
  intros Hok HPe Hx. remember (hf (key x)) as b eqn:Hbx.
  assert ((b < length bs)%nat) as Hlen by (destruct (proj1 Hok e HPe) as (x0 & ? & ?); congruence).
  destruct (lookup_lt_is_Some_2 bs b Hlen) as [old Hold].
  destruct (proj2 Hok b old Hold) as (bl & (Hd & Hnd & Hh) & Hbl).
  assert (e ∈ bl) as He by (apply Hbl; split; [done|]; exists x; by rewrite Hbx).
  apply list_elem_of_split in He as (a & c & ->).
  destruct (dll_ends _ _ _ _ _ Hd) as [Hne Hpr]. unfold fld in Hne, Hpr. rewrite Hx in Hne, Hpr. simpl in Hne, Hpr.
  assert (forall p, p ∈ a ++ c -> p <> e /\ P p /\ hashes (mem s) hf p b) as Hac.
  { intros p Hp. assert (p ∈ a ++ e :: c) as [? ?]%Hbl by set_solver. split; [|done]. intros ->.
    apply NoDup_app in Hnd as (_ & Hn1 & Hn2). apply NoDup_cons in Hn2 as [Hn2 _].
    apply elem_of_app in Hp as [Hp|Hp]; [|done]. apply (Hn1 e Hp). by left. }
  assert (forall p, head c = Some p -> p ∈ a ++ c) as Hhc by (intros p Hp%head_Some_elem_of; set_solver).
  assert (forall p, last a = Some p -> p ∈ a ++ c) as Hla by (intros p Hp%last_Some_elem_of; set_solver).
  assert (forall p, P p -> is_Some (mem s !! p)) as HPm by (intros p Hp; destruct (proj1 Hok p Hp) as (y & ? & _); by eexists).
  exists (unlinked_bucket (mem s) (last a) (head c)), (unlinked_slot bs b (last a) (head c)).
  assert (bucket_frame P (mem s) (unlinked_bucket (mem s) (last a) (head c))) as Hf.
  { eapply bucket_frame_trans; apply alter_bucket_frame; try done; intros p Hp; [by apply Hac, Hhc|by apply Hac, Hla]. }
  assert (forall q, unlinked_bucket (mem s) (last a) (head c) !! q =
    hit (last a) q (fun y => y <| bucket_next := head c |>) <$>
      (hit (head c) q (fun y => y <| bucket_previous := last a |>) <$> mem s !! q)) as Hl.
  { intros q. unfold unlinked_bucket. by rewrite !lookup_alter_if. }
  assert (length (unlinked_slot bs b (last a) (head c)) = length bs) as Hlen'.
  { unfold unlinked_slot. destruct (last a); [done|]. by rewrite length_insert. }
  split; [|split; [done|split; [|done]]].
  { rewrite <- Hne, <- Hpr. apply (bucket_unlink_eq _ _ _ _ _ old); [done..| |]; intros p Hp; apply HPm, Hac;
      [apply Hhc|apply Hla]; congruence. }
  split.
  - intros p [_ HPp]. destruct (proj1 Hok p HPp) as (y & Hy & Hyl). rewrite Hlen'.
    destruct (bucket_frame_lookup _ _ _ _ _ Hf Hy) as (y' & Hy' & Hey). exists y'. split; [done|]. by injection Hey as -> _ _ _.
  - intros b' o Hb'. destruct (decide (b' = b)) as [->|Hbb].
    + exists (a ++ c). split.
      * split; [|split].
        -- apply (dll_remove (fld bucket_next (mem s)) (fld bucket_previous (mem s)) _ _ a e c Hnd Hd).
           ++ intros q Hq. unfold fld. rewrite Hl. destruct (HPm q) as [y ->]; [by apply Hac|]. unfold hit.
              by repeat case_decide.
           ++ intros q Hq. unfold fld. rewrite Hl. destruct (HPm q) as [y ->]; [by apply Hac|]. unfold hit.
              by repeat case_decide.
        -- apply NoDup_app in Hnd as (H1 & H2 & H3). apply NoDup_cons in H3 as [_ H3]. apply NoDup_app. split_and!; [done| |done].
           intros p Hp Hq. apply (H2 p Hp). by right.
        -- unfold unlinked_slot in Hb'. destruct a as [|a0 a]; simpl in Hb'.
           ++ rewrite list_lookup_insert_eq in Hb' by done. by injection Hb' as <-.
           ++ destruct (last (a0 :: a)) eqn:El; [|by apply last_None in El]. simpl in Hh. simpl. congruence.
      * intros p. rewrite (bucket_frame_key _ _ _ _ _ _ Hf). split; [intros Hp; by destruct (Hac p Hp) as (? & ? & ?)|].
        intros [[Hpe HPp] Hp]. assert (p ∈ a ++ e :: c) by (by apply Hbl). set_solver.
    + assert (bs !! b' = Some o) as Hb0.
      { unfold unlinked_slot in Hb'. destruct (last a); [done|]. by rewrite list_lookup_insert_ne in Hb'. }
      destruct (proj2 Hok b' o Hb0) as (bl & Hc & Hbl'). exists bl.
      assert (forall p, p ∈ bl -> p ∉ a ++ c) as Hdis.
      { intros p (_ & y & Hy & Hyb)%Hbl' (_ & _ & z & Hz & Hzb)%Hac. congruence. }
      split.
      * eapply chain_ext; [|exact Hc]. intros p Hp. rewrite Hl, !hit_none; [done|..]; intros Ho; apply (Hdis p Hp); auto.
      * intros p. rewrite Hbl', (bucket_frame_key _ _ _ _ _ _ Hf). split; [|naive_solver]. intros [HPp Hh']. split; [|done].
        split; [|done]. intros ->. destruct Hh' as (y & Hy & Hyb). congruence.
Qed.

(** * The list of all entries *)

Definition iter_ok m h (l : list ptr) : Prop :=
  dll (fld iterate_next m) (fld iterate_previous m) l /\ NoDup l /\
  iterate_list_head h = head l /\ iterate_list_tail h = last l /\ forall p, p ∈ l -> is_Some (m !! p).

(** What is not a link of that list. *)
Definition but_iter (x : entry) := (key x, value x, bucket_next x, bucket_previous x).
Definition iter_frame (P : ptr -> Prop) m m' : Prop :=
  forall q, but_iter <$> m' !! q = but_iter <$> m !! q /\ (~ P q -> m' !! q = m !! q).
Lemma iter_frame_trans P m m' m'' : iter_frame P m m' -> iter_frame P m' m'' -> iter_frame P m m''.
Proof. intros H H' q. destruct (H' q) as [-> Hn'], (H q) as [-> Hn]. split; [done|]. intros HP. by rewrite Hn', Hn. Qed.
Lemma alter_iter_frame (P : ptr -> Prop) o f m :
  (forall p, o = Some p -> P p) -> (forall x, but_iter (f x) = but_iter x) -> iter_frame P m (alter_if o f m).
Proof.
  intros HP Hf q. rewrite lookup_alter_if. split.
  - unfold hit. case_decide; destruct (m !! q); simpl; by rewrite ?Hf.
  - intros Hq. apply hit_none. intros Ho. eauto.
Qed.
Lemma iter_frame_eq P m m' q (g : entry -> option ptr) :
  (forall x y, but_iter x = but_iter y -> g x = g y) -> iter_frame P m m' -> fld g m' q = fld g m q.
Proof.
  intros Hg H. destruct (H q) as [He _]. unfold fld. destruct (m' !! q), (m !! q); try done. apply Hg. apply (inj Some). exact He.
Qed.
Lemma iter_frame_buckets P m m' bs hf (Q : ptr -> Prop) : iter_frame P m m' -> buckets_ok m bs hf Q -> buckets_ok m' bs hf Q.
Proof.
  intros H [H1 H2]. assert (forall p b, hashes m' hf p b <-> hashes m hf p b) as Hh.
  { intros p b. unfold hashes. destruct (H p) as [He _].
    destruct (m' !! p), (m !! p); simpl in He; try done. injection He as Hk _ _ _.
    split; intros (x & [= <-] & <-); eexists; (split; [done|congruence]). }
  split.
  - intros p Hp. destruct (H1 p Hp) as (x & Hx & Hl). destruct (H p) as [He _]. rewrite Hx in He.
    apply fmap_Some in He as (x' & Hx' & He). exists x'. split; [done|]. injection He as <- _ _ _. done.
  - intros b o Hb. destruct (H2 b o Hb) as (bl & (Hd & Hc) & Hbl). exists bl. split.
    + split; [|done]. eapply dll_ext; [|exact Hd]. intros p _.
      split; (eapply iter_frame_eq; [|exact H]); intros x y [= _ _ ? ?]; congruence.
    + intros p. by rewrite Hbl, Hh.
Qed.
Lemma bucket_frame_eq P m m' q (g : entry -> option ptr) :
  (forall x y, but_bucket x = but_bucket y -> g x = g y) -> bucket_frame P m m' -> fld g m' q = fld g m q.
Proof.
  intros Hg H. destruct (H q) as [He _]. unfold fld. destruct (m' !! q), (m !! q); try done. apply Hg. apply (inj Some). exact He.
Qed.
Lemma bucket_frame_iter P m m' h l : bucket_frame P m m' -> iter_ok m h l -> iter_ok m' h l.
Proof.
  intros H (Hd & Hnd & Hh & Ht & Hm). split; [|split_and!; [done..|]].
  - eapply dll_ext; [|exact Hd]. intros p _. split; (eapply bucket_frame_eq; [|exact H]); intros x y [= _ _ ? ?]; congruence.
  - intros p Hp. destruct (Hm p Hp) as [x Hx]. destruct (bucket_frame_lookup _ _ _ _ _ H Hx) as (x' & ? & _). by eexists.
Qed.

(** An entry at the end. *)
Definition linked_back m tail e : heap :=
  alter_if tail (fun x => x <| iterate_next := Some e |>)
    (alter_if (Some e) (fun x => x <| iterate_previous := tail |> <| iterate_next := None |>) m).
Lemma linked_back_ok m h h' l e :
  iter_ok m h l -> e ∉ l -> is_Some (m !! e) ->
  iterate_list_head h' = match l with [] => Some e | _ => iterate_list_head h end -> iterate_list_tail h' = Some e ->
  iter_ok (linked_back m (iterate_list_tail h) e) h' (l ++ [e]) /\
  iter_frame (fun p => p = e \/ p ∈ l) m (linked_back m (iterate_list_tail h) e).
Proof.
  intros (Hd & Hnd & Hh & Ht & Hm) He [x Hx] Hh' Ht'. rewrite Ht.
  assert (forall p, last l = Some p -> p ∈ l) as Hla by (intros p; apply last_Some_elem_of).
  assert (last l <> Some e) as Hle by (intros Hl; by apply He, Hla).
  assert (forall q, linked_back m (last l) e !! q =
    hit (last l) q (fun x => x <| iterate_next := Some e |>) <$>
      (hit (Some e) q (fun x => x <| iterate_previous := last l |> <| iterate_next := None |>) <$> m !! q)) as Hl.
  { intros q. unfold linked_back. by rewrite !lookup_alter_if. }
  split; [split|].
  - apply (dll_push_back (fld iterate_next m) (fld iterate_previous m)); [done..| | | |].
    + unfold fld. rewrite Hl, Hx. rewrite hit_none by done. unfold hit. by rewrite decide_True.
    + unfold fld. rewrite Hl, Hx. rewrite hit_none by done. unfold hit. by rewrite decide_True.
    + intros q Hq. unfold fld. rewrite Hl, (hit_none (Some e)) by congruence. unfold hit. case_decide; by destruct (m !! q).
    + intros q Hq. unfold fld. rewrite Hl, (hit_none (Some e)) by congruence. unfold hit. destruct (Hm q Hq) as [y ->].
      by case_decide.
  - split_and!.
    + apply NoDup_app. split_and!; [done|set_solver|apply NoDup_singleton].
    + rewrite Hh'. destruct l; [done|]. by rewrite Hh.
    + rewrite Ht'. by rewrite last_snoc.
    + intros p Hp. rewrite Hl. rewrite !fmap_is_Some. apply elem_of_app in Hp as [Hp| ->%list_elem_of_singleton]; [by apply Hm|by eexists].
  - eapply iter_frame_trans; apply alter_iter_frame; try done; [intros p [= ->]; by left|]. intros p Hp. right. by apply Hla.
Qed.

(** An entry is taken out, between [pr] and [ne]. *)
Definition unlinked_iter m pr ne : heap :=
  alter_if pr (fun y => y <| iterate_next := ne |>) (alter_if ne (fun y => y <| iterate_previous := pr |>) m).
Lemma unlinked_iter_ok m h h' a e c :
  iter_ok m h (a ++ e :: c) ->
  iterate_list_head h' = match last a with None => head c | Some _ => iterate_list_head h end ->
  iterate_list_tail h' = match head c with None => last a | Some _ => iterate_list_tail h end ->
  iter_ok (unlinked_iter m (last a) (head c)) h' (a ++ c) /\
  iter_frame (fun p => p ∈ a ++ c) m (unlinked_iter m (last a) (head c)).
Proof.
  intros (Hd & Hnd & Hh & Ht & Hm) Hh' Ht'.
  assert (forall p, head c = Some p -> p ∈ a ++ c) as Hhc by (intros p Hp%head_Some_elem_of; set_solver).
  assert (forall p, last a = Some p -> p ∈ a ++ c) as Hla by (intros p Hp%last_Some_elem_of; set_solver).
  assert (forall q, unlinked_iter m (last a) (head c) !! q =
    hit (last a) q (fun y => y <| iterate_next := head c |>) <$>
      (hit (head c) q (fun y => y <| iterate_previous := last a |>) <$> m !! q)) as Hl.
  { intros q. unfold unlinked_iter. by rewrite !lookup_alter_if. }
  split; [split|].
  - apply (dll_remove (fld iterate_next m) (fld iterate_previous m) _ _ a e c Hnd Hd); intros q Hq; unfold fld; rewrite Hl;
      (destruct (Hm q) as [y ->]; [set_solver|]); unfold hit; by repeat case_decide.
  - apply NoDup_app in Hnd as (H1 & H2 & H3). apply NoDup_cons in H3 as [_ H3]. split_and!.
    + apply NoDup_app. split_and!; [done| |done]. intros p Hp Hq. apply (H2 p Hp). by right.
    + rewrite Hh', Hh. destruct a as [|a0 a]; [done|]. destruct (last (a0 :: a)) eqn:El; [done|by apply last_None in El].
    + rewrite Ht', Ht. rewrite last_app_cons, last_app_r. destruct c as [|c0 c]; [done|]. rewrite last_cons_cons. simpl.
      destruct (last (c0 :: c)) eqn:El; [done|by apply last_None in El].
    + intros p Hp. rewrite Hl, !fmap_is_Some. apply Hm. set_solver.
  - eapply iter_frame_trans; apply alter_iter_frame; try done.
Qed.
End heap.
End HashmapLists.
