(* ===== verification/HashmapProps.v ===== *)
(** shared/hashmap.c: a table is an association list in the order of
    insertion, whatever its hash function does. *)

From Stdlib Require Import ZArith Lia Ascii.
From stdpp Require Import prelude gmap strings.
From S2P Require Import Prelude System Hashmap HashmapLists.
Import Hashmap HashmapLists.

#[local] Set Warnings "-register-all".

Module HashmapProps.

Section props.
Context {K V : Type} {KO : KeyOps K} {KL : KeyLaws K}.
#[local] Abbreviation entry := (hashmap_entry K V).
#[local] Abbreviation heap := (gmap ptr entry).
#[local] Abbreviation M := (M K V).
Implicit Types (m : heap) (s : store K V) (p q e : ptr) (k : K) (v : V) (kvs : list (K * V)) (l : list ptr) (x : entry).

(** * What a table stands for *)

Abbreviation same k1 k2 := (compare_func k1 k2 = 0).
Definition kv_of (x : entry) : K * V := (key x, value x).
Definition distinct kvs : Prop :=
  forall i j a b, kvs !! i = Some a -> kvs !! j = Some b -> same a.1 b.1 -> i = j.
Definition hash_in h k : nat := hash_at k (hash_key h) (n_buckets h).
Record rep m h l kvs : Prop := {
  rep_iter : iter_ok m h l;
  rep_kvs : Forall2 (fun p kv => kv_of <$> m !! p = Some kv) l kvs;
  rep_distinct : distinct kvs;
  rep_buckets : buckets_ok m (buckets h) (hash_in h) (fun p => p ∈ l);
  rep_length : length (buckets h) = Z.to_nat (n_buckets h);
  rep_positive : 0 < n_buckets h;
  rep_entries : n_entries h = u32 (Z.of_nat (length kvs))
}.

(** Only links of the entries [P] change. *)
Definition kv_frame (P : ptr -> Prop) m m' : Prop :=
  forall q, kv_of <$> m' !! q = kv_of <$> m !! q /\ (~ P q -> m' !! q = m !! q).
Lemma bucket_frame_kv P m m' : bucket_frame P m m' -> kv_frame P m m'.
Proof.
  intros H q. destruct (H q) as [He Hn]. split; [|done]. destruct (m' !! q), (m !! q); try done.
  simpl in *. unfold kv_of. by injection He as -> -> _ _.
Qed.
Lemma iter_frame_kv P m m' : iter_frame P m m' -> kv_frame P m m'.
Proof.
  intros H q. destruct (H q) as [He Hn]. split; [|done]. destruct (m' !! q), (m !! q); try done.
  simpl in *. unfold kv_of. by injection He as -> -> _ _.
Qed.
Lemma kv_frame_trans P m m' m'' : kv_frame P m m' -> kv_frame P m' m'' -> kv_frame P m m''.
Proof. intros H H' q. destruct (H' q) as [-> Hn'], (H q) as [-> Hn]. split; [done|]. intros HP. by rewrite Hn', Hn. Qed.
Lemma kv_frame_weaken (P Q : ptr -> Prop) m m' : (forall q, P q -> Q q) -> kv_frame P m m' -> kv_frame Q m m'.
Proof. intros HPQ H q. destruct (H q) as [He Hn]. split; [done|]. auto. Qed.
Lemma kv_frame_some P m m' q : kv_frame P m m' -> is_Some (m' !! q) <-> is_Some (m !! q).
Proof. intros H. destruct (H q) as [He _]. by rewrite <- (fmap_is_Some kv_of), He, fmap_is_Some. Qed.
Lemma kv_frame_kvs P m m' l kvs :
  kv_frame P m m' -> Forall2 (fun p kv => kv_of <$> m !! p = Some kv) l kvs -> Forall2 (fun p kv => kv_of <$> m' !! p = Some kv) l kvs.
Proof. intros H Hk. eapply Forall2_impl; [exact Hk|]. intros p kv Hp. by destruct (H p) as [-> _]. Qed.

Lemma iter_ok_frame m m' h l : (forall p, p ∈ l -> m' !! p = m !! p) -> iter_ok m h l -> iter_ok m' h l.
Proof.
  intros He (Hd & Hnd & Hh & Ht & Hm). split; [|split_and!; [done..|]].
  - eapply dll_ext; [|exact Hd]. intros p Hp. unfold fld. by rewrite He.
  - intros p Hp. rewrite He by done. by apply Hm.
Qed.
(** A table does not depend on the entries of others. *)
Lemma rep_frame m m' h l kvs : (forall p, p ∈ l -> m' !! p = m !! p) -> rep m h l kvs -> rep m' h l kvs.
Proof.
  intros He []. constructor; try done.
  - by eapply iter_ok_frame.
  - clear -He rep_kvs0. induction rep_kvs0 as [|p kv l kvs Hp _ IH]; constructor; [rewrite He by set_solver; done|].
    apply IH. intros q Hq. apply He. by right.
  - by eapply buckets_frame.
Qed.

Lemma hash_at_lt k hk n : 0 < n -> (hash_at k hk n < Z.to_nat n)%nat.
Proof. intros H. unfold hash_at. pose proof (Z.mod_pos_bound (hash_func k hk) n H). lia. Qed.
Lemma hash_at_same k1 k2 hk n : same k1 k2 -> hash_at k1 hk n = hash_at k2 hk n.
Proof using KL. intros H. unfold hash_at. by rewrite (hash_compare _ _ hk H). Qed.
Lemma rep_lookup m h l kvs i p : rep m h l kvs -> l !! i = Some p -> exists x, m !! p = Some x /\ kvs !! i = Some (kv_of x).
Proof.
  intros H Hi. destruct (Forall2_lookup_l _ _ _ _ _ (rep_kvs _ _ _ _ H) Hi) as (kv & Hkv & Hp).
  apply fmap_Some in Hp as (x & Hx & ->). eauto.
Qed.

(** ** Linking and unlinking *)

Lemma distinct_remove ka kv kc : distinct (ka ++ kv :: kc) -> distinct (ka ++ kc).
Proof.
  intros Hd i j y z Hiy Hjz Hs. apply lookup_app_Some in Hiy, Hjz.
  assert (forall i y, ka !! i = Some y \/ (length ka <= i)%nat /\ kc !! (i - length ka)%nat = Some y ->
    exists i', (ka ++ kv :: kc) !! i' = Some y /\ i' = if decide (i < length ka)%nat then i else S i) as Hsh.
  { clear. intros i y [H|[Hle H]].
    - exists i. rewrite decide_True by (by eapply lookup_lt_Some). split; [by apply lookup_app_l_Some|done].
    - exists (S i). rewrite decide_False by lia. split; [|done]. rewrite lookup_app_r by lia.
      by replace (S i - length ka)%nat with (S (i - length ka)) by lia. }
  destruct (Hsh _ _ Hiy) as (i' & Hi' & ->), (Hsh _ _ Hjz) as (j' & Hj' & ->). pose proof (Hd _ _ _ _ Hi' Hj' Hs).
  repeat case_decide; lia.
Qed.
Lemma distinct_snoc kvs kv : distinct kvs -> Forall (fun kv' => ~ same kv'.1 kv.1) kvs -> distinct (kvs ++ [kv]).
Proof using KL.
  intros Hd Hnew i j a b. rewrite !lookup_snoc_Some. rewrite Forall_lookup in Hnew.
  intros [[_ Hi']|[-> <-]] [[_ Hj]|[-> <-]] Hs; [by eapply Hd|exfalso; by eapply (Hnew _ _ Hi')| |done].
  exfalso. eapply (Hnew _ _ Hj). by apply compare_sym.
Qed.

Lemma link_entry_ok s h l kvs e x :
  rep (mem s) h l kvs -> e ∉ l -> mem s !! e = Some x -> Forall (fun kv => ~ same kv.1 (key x)) kvs ->
  exists h' m', link_entry h e (bucket_hash h (key x)) s = Some (h', set_mem s m') /\
    rep m' h' (l ++ [e]) (kvs ++ [kv_of x]) /\ kv_frame (fun p => p ∈ l ++ [e]) (mem s) m' /\
    n_buckets h' = n_buckets h /\ hash_key h' = hash_key h.
Proof using KL.
  intros Hrep He Hx Hnew. destruct Hrep as [Hi Hk Hd Hb Hl Hp Hn].
  destruct (bucket_link_ok s _ _ _ e x Hb He Hx) as (m1 & Heq & Hb1 & Hf1); [rewrite Hl; by apply hash_at_lt|].
  destruct (bucket_frame_lookup _ _ _ _ _ Hf1 Hx) as (x1 & Hx1 & Hxe).
  set (bs := <[hash_in h (key x):=Some e]> (buckets h)) in *.
  set (h' := (match iterate_list_tail h with Some _ => h <| buckets := bs |> | None => h <| buckets := bs |> <| iterate_list_head := Some e |> end)
               <| iterate_list_tail := Some e |> <| n_entries := u32 (n_entries h + 1) |>).
  pose proof (bucket_frame_iter _ _ _ _ _ Hf1 Hi) as Hi1.
  assert (iterate_list_tail h = last l) as Htail by apply Hi.
  destruct (linked_back_ok m1 h h' l e Hi1 He) as [Hi2 Hf2]; [by eexists| |unfold h'; by destruct (iterate_list_tail h)|].
  { unfold h'. rewrite Htail. destruct l as [|y l]; [done|]. destruct (last (y :: l)) eqn:E; [done|by apply last_None in E]. }
  set (m2 := linked_back m1 (iterate_list_tail h) e) in *.
  assert (kv_frame (fun p => p ∈ l ++ [e]) (mem s) m2) as Hkv.
  { apply (kv_frame_weaken (fun p => p = e \/ p ∈ l)); [set_solver|].
    apply (kv_frame_trans _ _ m1); [by apply bucket_frame_kv|by apply iter_frame_kv]. }
  exists h', m2. split_and!; [| |done|unfold h'; by destruct (iterate_list_tail h)..].
  - unfold link_entry. rewrite (bind_Some _ _ _ _ _ Heq). erewrite bind_Some; [|apply upd_eq; rewrite mem_set_mem; by eexists].
    rewrite mem_set_mem, set_mem_set_mem. erewrite bind_Some.
    2: { apply upd_if_eq. intros p Hpt. rewrite mem_set_mem, lookup_alter_hit. apply fmap_is_Some. apply Hi1.
         rewrite Htail in Hpt. by apply last_Some_elem_of. }
    rewrite mem_set_mem, set_mem_set_mem. unfold h', m2. clear. by destruct h as [? []].
  - assert (n_buckets h' = n_buckets h /\ hash_key h' = hash_key h /\ buckets h' = bs) as (E1 & E2 & E3)
      by (unfold h'; by destruct (iterate_list_tail h)).
    constructor; rewrite ?E1, ?E2, ?E3; try done.
    + apply Forall2_app; [by eapply kv_frame_kvs|]. repeat constructor. destruct (Hkv e) as [-> _]. by rewrite Hx.
    + by apply distinct_snoc.
    + apply (buckets_ok_ext _ _ _ (fun p => p = e \/ p ∈ l)); [set_solver|]. eapply iter_frame_buckets; [exact Hf2|].
      unfold hash_in. rewrite E1, E2. exact Hb1.
    + unfold bs. by rewrite length_insert.
    + unfold h'. destruct (iterate_list_tail h); simpl; rewrite Hn, wrap_add_l, length_app; simpl; f_equal; lia.
Qed.

Lemma unlink_entry_ok s h a e c ka kv kc k :
  rep (mem s) h (a ++ e :: c) (ka ++ kv :: kc) -> length a = length ka -> same k kv.1 ->
  exists h' m', unlink_entry h e (bucket_hash h k) s = Some (h', set_mem s m') /\
    rep m' h' (a ++ c) (ka ++ kc) /\ kv_frame (fun p => p ∈ a ++ e :: c) (mem s) m' /\
    n_buckets h' = n_buckets h /\ hash_key h' = hash_key h.
Proof using KL.
  intros Hrep Hlen Hk. destruct (rep_lookup _ _ _ _ (length a) e Hrep) as (x & Hx & Hkv); [by apply list_lookup_middle|].
  rewrite list_lookup_middle in Hkv by done. injection Hkv as ->. simpl in Hk. destruct Hrep as [Hi Hkvs Hd Hb Hl Hp Hn].
  destruct (dll_ends _ _ _ _ _ (proj1 Hi)) as [Hne Hpr]. unfold fld in Hne, Hpr. rewrite Hx in Hne, Hpr. simpl in Hne, Hpr.
  set (h1 := match iterate_next x with Some _ => h | None => h <| iterate_list_tail := iterate_previous x |> end).
  set (h2 := match iterate_previous x with Some _ => h1 | None => h1 <| iterate_list_head := iterate_next x |> end).
  destruct (unlinked_iter_ok _ h h2 a e c Hi) as [Hi1 Hf1].
  { unfold h2, h1. rewrite <- Hpr, <- Hne. by destruct (iterate_previous x), (iterate_next x). }
  { unfold h2, h1. rewrite <- Hpr, <- Hne. by destruct (iterate_previous x), (iterate_next x). }
  set (m1 := unlinked_iter (mem s) (last a) (head c)) in *.
  assert (kv_of <$> m1 !! e = Some (kv_of x)) as Hx1.
  { destruct (iter_frame_kv _ _ _ Hf1 e) as [-> _]. by rewrite Hx. }
  apply fmap_Some in Hx1 as (x1 & Hx1 & Hkx). injection Hkx as Hkx _.
  assert (n_buckets h2 = n_buckets h /\ hash_key h2 = hash_key h /\ buckets h2 = buckets h /\ n_entries h2 = n_entries h) as (E1 & E2 & E3 & E4).
  { unfold h2, h1. by destruct (iterate_previous x), (iterate_next x). }
  destruct (bucket_unlink_ok (set_mem s m1) (buckets h2) (hash_in h) (fun p => p ∈ a ++ e :: c) e x1) as (m2 & bs & Heq & Hbl & Hb2 & Hf2).
  { rewrite mem_set_mem, E3. by eapply iter_frame_buckets. }
  { set_solver. }
  { by rewrite mem_set_mem. }
  rewrite mem_set_mem in Hf2. rewrite set_mem_set_mem in Heq.
  set (h' := h2 <| buckets := bs |> <| n_entries := u32 (n_entries h2 - 1) |>).
  assert (kv_frame (fun p => p ∈ a ++ e :: c) (mem s) m2) as Hkv.
  { apply (kv_frame_trans _ _ m1); [|by apply bucket_frame_kv].
    apply (kv_frame_weaken (fun p => p ∈ a ++ c)); [set_solver|by apply iter_frame_kv]. }
  exists h', m2. split_and!; [| |done..].
  - unfold unlink_entry. rewrite (bind_Some _ _ _ _ _ (load_eq _ _ _ Hx)).
    erewrite bind_Some; [|apply upd_if_eq; intros p Hpn; apply Hi; rewrite Hne in Hpn; apply head_Some_elem_of in Hpn; set_solver].
    fold h1. erewrite bind_Some.
    2: { apply upd_if_eq. intros p Hpp. rewrite mem_set_mem, lookup_alter_if. apply fmap_is_Some. apply Hi.
         rewrite Hpr in Hpp. apply last_Some_elem_of in Hpp. set_solver. }
    fold h2. rewrite mem_set_mem, set_mem_set_mem, Hne, Hpr.
    change (alter_if (last a) _ (alter_if (head c) _ (mem s))) with m1.
    assert (bucket_hash h k = hash_in h (key x1)) as -> by (unfold bucket_hash, hash_in; apply hash_at_same; by rewrite <- Hkx).
    by rewrite (bind_Some _ _ _ _ _ Heq).
  - constructor.
    + eapply (bucket_frame_iter _ _ _ h2); [done|exact Hi1].
    + apply (kv_frame_kvs _ _ _ _ _ Hkv) in Hkvs. apply Forall2_app_inv in Hkvs as [H1 H2]; [|done].
      apply Forall2_cons in H2 as [_ H2]. by apply Forall2_app.
    + by apply (distinct_remove _ (kv_of x)).
    + change (hash_in h') with (hash_in h2). unfold hash_in. rewrite E1, E2.
      apply (buckets_ok_ext _ _ _ (fun p => p <> e /\ p ∈ a ++ e :: c)); [|exact Hb2].
      intros p. destruct Hi as (_ & Hnd & _). apply NoDup_app in Hnd as (_ & H1 & H2). apply NoDup_cons in H2 as [H2 _].
      specialize (H1 e). set_solver.
    + change (length bs = Z.to_nat (n_buckets h2)). by rewrite Hbl, E3, E1.
    + change (0 < n_buckets h2). by rewrite E1.
    + change (u32 (n_entries h2 - 1) = u32 (Z.of_nat (length (ka ++ kc)))). rewrite E4, Hn. unfold wrap.
      rewrite Zminus_mod_idemp_l, !length_app. simpl. f_equal. lia.
Qed.

(** ** Searching *)

Definition find_key kvs k : option (nat * (K * V)) := list_find (fun kv => same kv.1 k) kvs.

Lemma chain_length m (bl : list ptr) : NoDup bl -> (forall p, p ∈ bl -> is_Some (m !! p)) -> (length bl <= size m)%nat.
Proof.
  intros Hnd Hm. rewrite <- (size_dom m), <- (size_list_to_set (C := gset ptr) bl Hnd). apply subseteq_size.
  intros p. rewrite elem_of_list_to_set. intros Hp. apply elem_of_dom. by apply Hm.
Qed.

Lemma scan_loop_ok s k bl a c fuel :
  dll (fld bucket_next (mem s)) (fld bucket_previous (mem s)) bl -> bl = a ++ c -> (length c <= fuel)%nat ->
  (forall p, p ∈ bl -> is_Some (mem s !! p)) ->
  exists r, scan_loop fuel (head c) k s = Some (r, s) /\
    match r with
    | Some p => p ∈ c /\ exists x, mem s !! p = Some x /\ same (key x) k
    | None => forall p x, p ∈ c -> mem s !! p = Some x -> ~ same (key x) k
    end.
Proof.
  intros Hd. revert a c. induction fuel as [|fuel IH]; intros a c Hbl Hf Hm.
  - destruct c; [|simpl in Hf; lia]. exists None. split; [done|]. set_solver.
  - destruct c as [|p c]; [exists None; split; [done|set_solver]|]. cbn [head scan_loop].
    destruct (Hm p) as [x Hx]; [set_solver|]. rewrite (bind_Some _ _ _ _ _ (load_eq _ _ _ Hx)).
    destruct (Z.eqb_spec (compare_func (key x) k) 0) as [Hs|Hs].
    + exists (Some p). split; [done|]. split; [by left|]. eauto.
    + destruct (IH (a ++ [p]) c) as (r & Hr & Hspec); [by rewrite <- app_assoc|simpl in Hf; lia|done|].
      destruct (Hd a p c Hbl) as [Hn _]. unfold fld in Hn. rewrite Hx in Hn. simpl in Hn. rewrite Hn.
      exists r. split; [done|]. destruct r as [q|].
      * destruct Hspec as [Hq Hspec]. split; [by right|done].
      * intros q y [->|Hq]%elem_of_cons Hy; [congruence|eauto].
Qed.

Lemma table_key_elem m h l kvs k p x :
  rep m h l kvs -> p ∈ l -> m !! p = Some x -> same (key x) k ->
  exists i, l !! i = Some p /\ find_key kvs k = Some (i, kv_of x).
Proof using KL.
  intros Hrep [i Hi]%list_elem_of_lookup Hx Hs. destruct (rep_lookup _ _ _ _ _ _ Hrep Hi) as (x' & Hx' & Hkv). simplify_eq.
  exists i. split; [done|]. apply list_find_Some. split_and!; [done|done|]. intros j y Hy Hj Hs'.
  assert (j = i) as ->; [|lia]. eapply (rep_distinct _ _ _ _ Hrep); [exact Hy|exact Hkv|].
  simpl. eapply compare_trans; [exact Hs'|]. by apply compare_sym.
Qed.

Lemma hash_scan_ok s h l kvs k :
  rep (mem s) h l kvs -> hash_scan h (bucket_hash h k) k s = Some (find_key kvs k ≫= (fun '(i, _) => l !! i), s).
Proof using KL.
  intros Hrep. unfold hash_scan, bound. change (bucket_hash h k) with (hash_in h k).
  erewrite (bind_Some (A := nat)); [|done].
  assert ((hash_in h k < length (buckets h))%nat) as Hlt.
  { rewrite (rep_length _ _ _ _ Hrep). apply hash_at_lt, Hrep. }
  destruct (lookup_lt_is_Some_2 _ _ Hlt) as [o Ho]. rewrite (bind_Some _ _ _ _ _ (slot_eq _ _ _ _ Ho)).
  destruct (proj2 (rep_buckets _ _ _ _ Hrep) _ _ Ho) as (bl & (Hd & Hnd & ->) & Hbl).
  assert (forall p, p ∈ bl -> is_Some (mem s !! p)) as Hm by (intros p [_ (y & Hy & _)]%Hbl; by eexists).
  destruct (scan_loop_ok s k bl [] bl (S (size (mem s))) Hd eq_refl) as (r & -> & Hr); [|done|].
  { pose proof (chain_length _ _ Hnd Hm). lia. }
  do 2 f_equal. destruct r as [p|].
  - destruct Hr as ([Hp _]%Hbl & x & Hx & Hs). by destruct (table_key_elem _ _ _ _ _ _ _ Hrep Hp Hx Hs) as (i & Hi & ->).
  - destruct (find_key kvs k) as [[i kv]|] eqn:E; [|done]. exfalso. apply list_find_Some in E as (Hkv & Hs & _).
    destruct (Forall2_lookup_r _ _ _ _ _ (rep_kvs _ _ _ _ Hrep) Hkv) as (p & Hp & Hpx).
    apply fmap_Some in Hpx as (x & Hx & ->). apply (Hr p x); [|done..]. apply Hbl. split; [by eapply list_elem_of_lookup_2|].
    exists x. split; [done|]. by apply hash_at_same.
Qed.

(** ** The tiles of the entries *)

Fixpoint issued (ps : list pool) p : Prop :=
  match ps with
  | [] => False
  | q :: ps' => (p.1 = length ps' /\ 0 <= p.2 < n_used q) \/ issued ps' p
  end.
(** An entry that is in use is a tile that was handed out and is not free. *)
Record store_ok s : Prop := {
  ok_live p : is_Some (mem s !! p) -> issued (pool_list (entry_pools s)) p /\ p ∉ first_tile (entry_pools s);
  ok_free p : p ∈ first_tile (entry_pools s) -> issued (pool_list (entry_pools s)) p;
  ok_once : NoDup (first_tile (entry_pools s));
  ok_used : Forall (fun q : pool => 0 <= n_used q) (pool_list (entry_pools s))
}.
Lemma issued_lt ps p : issued ps p -> (p.1 < length ps)%nat.
Proof. induction ps as [|q ps IH]; simpl; [done|]. intros [[-> _]|H]; [lia|]. specialize (IH H). lia. Qed.
Lemma store_ok_dom s m' : (forall q, is_Some (m' !! q) -> is_Some (mem s !! q)) -> store_ok s -> store_ok (set_mem s m').
Proof. intros He []. constructor; destruct s; simpl in *; auto. Qed.
Lemma kv_frame_ok P s m' : kv_frame P (mem s) m' -> store_ok s -> store_ok (set_mem s m').
Proof. intros H. apply store_ok_dom. intros q. apply (kv_frame_some _ _ _ _ H). Qed.

Lemma alloc_entry_ok s : store_ok s ->
  exists p s1, alloc_entry s = Some (p, s1) /\ mem s1 = mem s /\ mem s !! p = None /\
    forall x, store_ok (set_mem s1 (<[p := x]> (mem s))).
Proof.
  intros []. unfold alloc_entry. destruct s as [m [ps free] cur dr]. simpl in *.
  assert (forall p ps' free', (forall q, issued ps q -> issued ps' q) -> issued ps' p -> p ∉ free' ->
    (forall q, q ∈ free' -> q ∈ free) -> NoDup free' -> Forall (fun q : pool => 0 <= n_used q) ps' ->
    forall x, store_ok (mk_store K V (<[p := x]> m) (mk_pools ps' free') cur dr)) as Hok.
  { intros p ps' free' Hi Hp Hpf Hf Hnd Hu x. constructor; simpl; auto.
    intros q. destruct (decide (p = q)) as [->|Hne]; [done|]. rewrite lookup_insert_ne by done.
    intros [H1 H2]%ok_live0. auto. }
  assert (forall p, ~ issued ps p -> m !! p = None) as Hnone.
  { intros p Hp. destruct (m !! p) eqn:E; [|done]. destruct (ok_live0 p) as [? _]; [by eexists|done]. }
  unfold allocate_tile. simpl. destruct free as [|p free].
  - destruct ps as [|q ps].
    + eexists _, _. split; [done|]. split; [done|]. split; [apply Hnone; simpl; tauto|].
      apply Hok; [done|left; simpl; lia|set_solver|done|done|]. repeat constructor; simpl; lia.
    + apply Forall_cons in ok_used0 as [Hq Hqs]. destruct (n_tiles q <=? n_used q); (eexists _, _; split; [done|]; split; [done|]; split).
      * apply Hnone. intros H%issued_lt. simpl in H. lia.
      * apply Hok; [intros t Ht; by right|left; simpl; lia|set_solver|done|done|]. by repeat constructor.
      * apply Hnone. simpl. intros [[_ H]|H%issued_lt]; simpl in *; lia.
      * apply Hok; [|left; simpl; lia|set_solver|done|done|].
        -- intros t [[? ?]|?]; [left; simpl; lia|by right].
        -- constructor; [simpl; lia|done].
  - apply NoDup_cons in ok_once0 as [Hp Hnd]. eexists _, _. split; [done|]. split; [done|]. split.
    + destruct (m !! p) eqn:E; [|done]. destruct (ok_live0 p) as [_ Hn]; [by eexists|]. set_solver.
    + apply Hok; [done|apply ok_free0; by left|done| |done|done]. intros q Hq. by right.
Qed.

(** An operation changes the entries of its table and new ones. *)
Definition keeps l m m' (l' : list ptr) : Prop :=
  (forall q, q ∉ l -> is_Some (m !! q) -> m' !! q = m !! q) /\ (forall q, q ∈ l' -> q ∈ l \/ m !! q = None).
Definition post s l s' h' l' kvs' : Prop := rep (mem s') h' l' kvs' /\ store_ok s' /\ keeps l (mem s) (mem s') l'.
Lemma keeps_trans l l' l'' m m' m'' : keeps l m m' l' -> keeps l' m' m'' l'' -> keeps l m m'' l''.
Proof.
  intros [H1 H2] [H3 H4]. split.
  - intros q Hq Hm. specialize (H1 q Hq Hm). rewrite <- H1 in Hm |- *. apply H3; [|done]. intros [?|Hn]%H2; [done|].
    rewrite H1 in Hm. destruct Hm. congruence.
  - intros q [Hq|Hn]%H4; [by apply H2|]. destruct (decide (q ∈ l)); [by left|right]. destruct (m !! q) eqn:E; [|done].
    rewrite (H1 q) in Hn; [congruence|done|by eexists].
Qed.
Lemma kv_frame_keeps (P : ptr -> Prop) l l' m m' :
  kv_frame P m m' -> (forall q, P q -> q ∈ l) -> (forall q, q ∈ l' -> q ∈ l) -> keeps l m m' l'.
Proof. intros H HP Hl. split; [|by auto]. intros q Hq _. apply H. auto. Qed.
Lemma post_same s h l kvs : rep (mem s) h l kvs -> store_ok s -> post s l s h l kvs.
Proof. intros. split_and!; [done..|]. split; auto. Qed.

Lemma remove_entry_ok s h a e c ka kv kc :
  rep (mem s) h (a ++ e :: c) (ka ++ kv :: kc) -> length a = length ka -> store_ok s ->
  exists h' s', remove_entry h e s = Some (h', s') /\ post s (a ++ e :: c) s' h' (a ++ c) (ka ++ kc) /\ mem s' !! e = None /\
    (forall q, q <> e -> kv_of <$> mem s' !! q = kv_of <$> mem s !! q) /\ n_buckets h' = n_buckets h /\ hash_key h' = hash_key h.
Proof using KL.
  intros Hrep Hlen Hok. destruct (rep_lookup _ _ _ _ (length a) e Hrep) as (x & Hx & Hkv); [by apply list_lookup_middle|].
  rewrite list_lookup_middle in Hkv by done. injection Hkv as ->.
  destruct (unlink_entry_ok s h a e c ka (kv_of x) kc (key x) Hrep Hlen) as (h' & m' & Heq & Hrep' & Hf & Hn); [apply compare_refl|].
  assert (e ∉ a ++ c) as He.
  { destruct (rep_iter _ _ _ _ Hrep) as (_ & Hnd & _). apply NoDup_app in Hnd as (_ & H1 & H2). apply NoDup_cons in H2 as [H2 _].
    specialize (H1 e). set_solver. }
  eexists h', _. split.
  { unfold remove_entry. rewrite (bind_Some _ _ _ _ _ (load_eq _ _ _ Hx)), (bind_Some _ _ _ _ _ Heq). done. }
  pose proof (kv_frame_ok _ _ _ Hf Hok) as Hok'. destruct (ok_live _ Hok e) as [Hie Hfe]; [by eexists|].
  destruct s as [m ps cur dr]. simpl in *. split; [|split; [by rewrite lookup_delete_eq|split; [|done]]]; simpl.
  2: { intros q Hq. rewrite lookup_delete_ne by done. apply Hf. }
  split; [|split]; simpl.
  - eapply rep_frame; [|exact Hrep']. intros p Hp. apply lookup_delete_ne. intros ->. done.
  - destruct Hok'. constructor; simpl in *; try done.
    + intros p [Hpe Hp]%lookup_delete_is_Some. destruct (ok_live0 p Hp) as [? ?]. split; [done|]. set_solver.
    + intros p [->|Hp]%elem_of_cons; [done|auto].
    + by constructor.
  - split; [|set_solver]. intros q Hq _. rewrite lookup_delete_ne by set_solver. by apply Hf.
Qed.

(** ** Growing *)

Context (random : nat -> bytes).

Lemma rehash_loop_ok h nkey n l a c s old new fuel :
  l = a ++ c -> iter_ok (mem s) h l -> (length c <= fuel)%nat -> 0 < n -> length new = Z.to_nat n ->
  buckets_ok (mem s) old (hash_in h) (fun p => p ∈ c) ->
  buckets_ok (mem s) new (fun k => hash_at k nkey n) (fun p => p ∈ a) ->
  exists m' new', rehash_loop fuel h nkey n old new (head c) s = Some (new', set_mem s m') /\
    bucket_frame (fun p => p ∈ l) (mem s) m' /\ length new' = Z.to_nat n /\
    buckets_ok m' new' (fun k => hash_at k nkey n) (fun p => p ∈ l).
Proof.
  revert a c s old new. induction fuel as [|fuel IH]; intros a c s old new -> Hi Hf Hn Hlen Hold Hnew;
    (destruct c as [|p c]; [|try (simpl in Hf; lia)]).
  1, 2: exists (mem s), new; rewrite set_mem_mem, app_nil_r; split_and!; [done|by intros q|done..].
  cbn [head rehash_loop].
  pose proof (dll_ends _ _ _ _ _ (proj1 Hi)) as [Hne _]. destruct (proj1 Hold p) as (x & Hx & _); [by left|].
  unfold fld in Hne. rewrite Hx in Hne. simpl in Hne.
  assert (NoDup (a ++ p :: c)) as Hnd by apply Hi.
  apply NoDup_app in Hnd as (_ & H1 & H2). apply NoDup_cons in H2 as [Hpc H2].
  assert (p ∉ a) as Hpa by (intros Hp; apply (H1 p Hp); by left).
  rewrite (bind_Some _ _ _ _ _ (load_eq _ _ _ Hx)).
  destruct (bucket_unlink_ok s old (hash_in h) _ p x Hold ltac:(by left) Hx) as (m1 & old1 & Heq1 & Hl1 & Hb1 & Hf1).
  change (hash_at (key x) (hash_key h) (n_buckets h)) with (hash_in h (key x)). rewrite (bind_Some _ _ _ _ _ Heq1).
  destruct (bucket_frame_lookup _ _ _ _ _ Hf1 Hx) as (x1 & Hx1 & Hxe). injection Hxe as Hxk _ _ _.
  destruct (bucket_link_ok (set_mem s m1) new (fun k => hash_at k nkey n) (fun q => q ∈ a) p x1) as (m2 & Heq2 & Hb2 & Hf2);
    rewrite ?mem_set_mem; [|done|done|rewrite Hlen; by apply hash_at_lt|].
  { eapply buckets_frame; [|exact Hnew]. intros q Hq. apply Hf1. intros [->|Hqc]%elem_of_cons; [done|]. apply (H1 q Hq). by right. }
  rewrite Hxk in Heq2, Hb2. rewrite mem_set_mem in Hf2. rewrite (bind_Some _ _ _ _ _ Heq2), set_mem_set_mem, Hne.
  assert (bucket_frame (fun q => q ∈ a ++ p :: c) (mem s) m2) as Hf02.
  { apply (bucket_frame_trans _ _ m1); eapply bucket_frame_weaken; [|exact Hf1| |exact Hf2]; set_solver. }
  destruct (IH (a ++ [p]) c (set_mem s m2) old1 (<[hash_at (key x) nkey n := Some p]> new)) as (m3 & new3 & Heq3 & Hf3 & Hl3 & Hb3);
    rewrite ?mem_set_mem; [by rewrite <- app_assoc| |simpl in Hf; lia|done|by rewrite length_insert| | |].
  - by eapply bucket_frame_iter.
  - apply (buckets_frame m1).
    + intros q Hq. apply Hf2. intros [->|Hqa]; [done|]. apply (H1 q Hqa). by right.
    + apply (buckets_ok_ext _ _ _ (fun q => q <> p /\ q ∈ p :: c)); [|exact Hb1]. intros q. rewrite elem_of_cons. naive_solver.
  - apply (buckets_ok_ext _ _ _ (fun q => q = p \/ q ∈ a)); [set_solver|exact Hb2].
  - rewrite set_mem_set_mem in Heq3. rewrite mem_set_mem in Hf3. exists m3, new3. split_and!; [done| |done|done].
    by apply (bucket_frame_trans _ _ m2).
Qed.

Lemma resize_positive n : 0 < u32 (u32 ((n + 1) * 4) - 1).
Proof. unfold wrap. change (2 ^ 32) with 4294967296. Z.div_mod_to_equations. lia. Qed.

Lemma resize_buckets_ok s h l kvs :
  rep (mem s) h l kvs -> store_ok s ->
  exists b h' s', resize_buckets random h s = Some ((b, h'), s') /\ rep (mem s') h' l kvs /\ store_ok s' /\
    kv_frame (fun p => p ∈ l) (mem s) (mem s') /\ (b = false -> h' = h).
Proof using KL.
  intros Hrep Hok. unfold resize_buckets. destruct (_ <? _).
  { exists false, h, s. split_and!; [done..|by intros q|done]. }
  set (n := u32 (u32 ((n_entries h + 1) * 4) - 1)). pose proof (resize_positive (n_entries h)) as Hpos. fold n in Hpos.
  set (nkey := random (drawn s)).
  assert (exists s1, get_hash_key random false s = Some (nkey, s1) /\ mem s1 = mem s /\ entry_pools s1 = entry_pools s) as (s1 & Hs1 & Hm1 & Hp1).
  { unfold get_hash_key. by destruct s as [? ? [cur|] ?]; eexists. }
  rewrite (bind_Some _ _ _ _ _ Hs1). unfold bound. erewrite (bind_Some (A := nat)); [|done].
  destruct Hrep as [Hi Hk Hd Hb Hl Hp Hn]. rewrite <- Hm1 in *.
  destruct (rehash_loop_ok h nkey n l [] l s1 (buckets h) (replicate (Z.to_nat n) None) (S (size (mem s1)))) as (m' & bs & Heq & Hf & Hlen & Hbs);
    [done|done| |done|by rewrite length_replicate|done| |].
  { destruct Hi as (_ & Hnd & _ & _ & Hm). pose proof (chain_length _ _ Hnd Hm). lia. }
  { eapply buckets_ok_ext; [|apply buckets_empty]. set_solver. }
  assert (iterate_list_head h = head l) as -> by apply Hi. rewrite (bind_Some _ _ _ _ _ Heq).
  eexists true, _, _. split; [done|]. rewrite mem_set_mem. pose proof (bucket_frame_kv _ _ _ Hf) as Hkv.
  split_and!; [|eapply kv_frame_ok; [exact Hkv|]|done|done].
  - constructor; try done; [by eapply bucket_frame_iter|by eapply kv_frame_kvs].
  - destruct Hok. constructor; rewrite ?Hp1, ?Hm1; done.
Qed.

(** * The association list *)

Definition get_key kvs k : option (K * V) := snd <$> find_key kvs k.
Definition drop_key kvs k : list (K * V) := filter (fun kv => ~ same kv.1 k) kvs.
(** The pair with the key [k] is changed where it is. *)
Definition set_key kvs k (f : K * V -> K * V) : list (K * V) :=
  (fun kv => if decide (same kv.1 k) then f kv else kv) <$> kvs.

Lemma filter_all (P : K * V -> Prop) `{forall kv, Decision (P kv)} kvs : Forall P kvs -> filter P kvs = kvs.
Proof. induction 1 as [|kv kvs Hk _ IH]; [done|]. rewrite filter_cons, decide_True by done. by rewrite IH. Qed.
Lemma fmap_id_on (f : K * V -> K * V) kvs : Forall (fun kv => f kv = kv) kvs -> f <$> kvs = kvs.
Proof. induction 1 as [|kv kvs Hk _ IH]; [done|]. rewrite fmap_cons, IH. by f_equal. Qed.

Lemma distinct_middle ka kv kc k :
  distinct (ka ++ kv :: kc) -> same kv.1 k -> Forall (fun kv' => ~ same kv'.1 k) (ka ++ kc).
Proof using KL.
  intros Hd Hs. assert (forall i kv', (ka ++ kv :: kc) !! i = Some kv' -> same kv'.1 k -> i = length ka) as H.
  { intros i kv' Hi Hs'. eapply Hd; [exact Hi|by apply list_lookup_middle|]. eapply compare_trans; [exact Hs'|by apply compare_sym]. }
  apply Forall_app. split; apply Forall_lookup; intros i kv' Hi Hs'.
  - pose proof (lookup_lt_Some _ _ _ Hi). specialize (H i kv'). rewrite lookup_app_l in H by done. specialize (H Hi Hs'). lia.
  - specialize (H (S (length ka + i)) kv'). rewrite lookup_app_r in H by lia.
    replace (S (length ka + i) - length ka)%nat with (S i) in H by lia. specialize (H Hi Hs'). lia.
Qed.
Lemma key_middle ka kv kc k :
  distinct (ka ++ kv :: kc) -> same kv.1 k ->
  find_key (ka ++ kv :: kc) k = Some (length ka, kv) /\ drop_key (ka ++ kv :: kc) k = ka ++ kc /\
  forall f, set_key (ka ++ kv :: kc) k f = ka ++ f kv :: kc.
Proof using KL.
  intros Hd Hs. pose proof (distinct_middle _ _ _ _ Hd Hs) as Hn. apply Forall_app in Hn as [Ha Hc]. split_and!.
  - apply list_find_Some. split_and!; [by apply list_lookup_middle|done|]. intros j y Hy Hj. rewrite lookup_app_l in Hy by done.
    rewrite Forall_lookup in Ha. by eapply Ha.
  - unfold drop_key. rewrite filter_app, filter_cons, decide_False by (by intros ?). by rewrite !filter_all.
  - intros f. unfold set_key. rewrite fmap_app, fmap_cons, decide_True by done.
    rewrite !fmap_id_on; [done|eapply Forall_impl; [exact Hc|]|eapply Forall_impl; [exact Ha|]]; intros y Hy; simpl; by rewrite decide_False.
Qed.
Lemma key_none kvs k :
  Forall (fun kv => ~ same kv.1 k) kvs -> find_key kvs k = None /\ drop_key kvs k = kvs /\ forall f, set_key kvs k f = kvs.
Proof.
  intros H. split_and!; [by apply list_find_None|by apply filter_all|]. intros f. apply fmap_id_on.
  eapply Forall_impl; [exact H|]. intros kv Hk. simpl. by rewrite decide_False.
Qed.

(** What a search finds: the entry with the key, or none. *)
Inductive scanned s l kvs k : option ptr -> Prop :=
  | scan_found a e c ka x kc :
      l = a ++ e :: c -> kvs = ka ++ kv_of x :: kc -> length a = length ka -> mem s !! e = Some x -> same (key x) k ->
      find_key kvs k = Some (length ka, kv_of x) -> drop_key kvs k = ka ++ kc ->
      (forall f, set_key kvs k f = ka ++ f (kv_of x) :: kc) -> scanned s l kvs k (Some e)
  | scan_none :
      Forall (fun kv => ~ same kv.1 k) kvs -> find_key kvs k = None -> drop_key kvs k = kvs ->
      (forall f, set_key kvs k f = kvs) -> scanned s l kvs k None.
Lemma hash_scan_cases s h l kvs k :
  rep (mem s) h l kvs -> exists r, hash_scan h (bucket_hash h k) k s = Some (r, s) /\ scanned s l kvs k r.
Proof using KL.
  intros Hrep. rewrite (hash_scan_ok s h l kvs k Hrep). destruct (find_key kvs k) as [[i kv]|] eqn:E; simpl.
  - pose proof E as (Hkv & Hs & _)%list_find_Some.
    destruct (Forall2_lookup_r _ _ _ _ _ (rep_kvs _ _ _ _ Hrep) Hkv) as (e & He & Hx). apply fmap_Some in Hx as (x & Hx & ->).
    apply list_elem_of_split_length in Hkv as (ka & kc & -> & ->), He as (a & c & -> & Hlen).
    rewrite Hlen. exists (Some e). rewrite list_lookup_middle by done. split; [done|].
    destruct (key_middle _ _ _ _ (rep_distinct _ _ _ _ Hrep) Hs) as (H1 & H2 & H3).
    by apply (scan_found _ _ _ _ a e c ka x kc).
  - exists None. split; [done|]. apply list_find_None in E. destruct (key_none _ _ E) as (H1 & H2 & H3). by constructor.
Qed.

(** ** Single entries *)

Lemma buckets_ok_links m m' bs hf (P : ptr -> Prop) :
  (forall q b, hashes m' hf q b <-> hashes m hf q b) ->
  (forall q, fld bucket_next m' q = fld bucket_next m q /\ fld bucket_previous m' q = fld bucket_previous m q) ->
  buckets_ok m bs hf P -> buckets_ok m' bs hf P.
Proof.
  intros Hh Hl [H1 H2]. split.
  - intros p Hp. destruct (H1 p Hp) as (x & Hx & Hlt). destruct (proj2 (Hh p (hf (key x)))) as (x' & Hx' & He); [by exists x|].
    exists x'. split; [done|]. by rewrite He.
  - intros b o Hb. destruct (H2 b o Hb) as (bl & (Hd & Hc) & Hbl). exists bl. split; [split; [|done]|].
    + eapply dll_ext; [|exact Hd]. intros p _. apply Hl.
    + intros p. by rewrite Hbl, Hh.
Qed.

(** The contents of an entry are replaced; the new key is the same. *)
Lemma rep_alter m h a e c ka x kc (g : entry -> entry) :
  rep m h (a ++ e :: c) (ka ++ kv_of x :: kc) -> length a = length ka -> m !! e = Some x -> same (key x) (key (g x)) ->
  bucket_next (g x) = bucket_next x -> bucket_previous (g x) = bucket_previous x ->
  iterate_next (g x) = iterate_next x -> iterate_previous (g x) = iterate_previous x ->
  rep (alter g e m) h (a ++ e :: c) (ka ++ kv_of (g x) :: kc).
Proof using KL.
  intros [Hi Hk Hd Hb Hl Hp Hn] Hlen Hx Hs E1 E2 E3 E4.
  assert (forall q, fld bucket_next (alter g e m) q = fld bucket_next m q /\ fld bucket_previous (alter g e m) q = fld bucket_previous m q /\
    fld iterate_next (alter g e m) q = fld iterate_next m q /\ fld iterate_previous (alter g e m) q = fld iterate_previous m q) as Hlinks.
  { intros q. unfold fld. destruct (decide (e = q)) as [<-|Hne]; [by rewrite lookup_alter_eq, Hx|by rewrite lookup_alter_ne]. }
  constructor; try done.
  - destruct Hi as (H1 & H2 & H3 & H4 & H5). split; [|split_and!; [done..|]].
    + eapply dll_ext; [|exact H1]. intros p _. by destruct (Hlinks p) as (_ & _ & ? & ?).
    + intros p Hq. rewrite lookup_alter_hit, fmap_is_Some. by apply H5.
  - destruct Hi as (_ & Hnd & _). apply NoDup_app in Hnd as (_ & Hn1 & Hn2). apply NoDup_cons in Hn2 as [Hn2 _].
    apply Forall2_app_inv in Hk as [Hka Hkc]; [|done]. apply Forall2_cons in Hkc as [_ Hkc].
    assert (forall t kt, e ∉ t -> Forall2 (fun p kv => kv_of <$> m !! p = Some kv) t kt ->
      Forall2 (fun p kv => kv_of <$> alter g e m !! p = Some kv) t kt) as Hext.
    { clear. intros t kt He H. induction H as [|p kv t kt Hp _ IH]; constructor; [|apply IH; set_solver].
      rewrite lookup_alter_ne; [done|set_solver]. }
    apply Forall2_app; [apply Hext; [|done]; intros He; apply (Hn1 e He); by left|]. constructor; [by rewrite lookup_alter_eq, Hx|].
    by apply Hext.
  - intros i j y z Hy Hz Hsame.
    assert (forall i y, (ka ++ kv_of (g x) :: kc) !! i = Some y -> exists y', (ka ++ kv_of x :: kc) !! i = Some y' /\ same y'.1 y.1) as Hch.
    { intros i' y' [H|[Hle H]]%lookup_app_Some.
      - exists y'. split; [by apply lookup_app_l_Some|apply compare_refl].
      - rewrite lookup_app_r by done. destruct (i' - length ka)%nat as [|t]; [injection H as <-; by exists (kv_of x)|].
        exists y'. split; [done|apply compare_refl]. }
    destruct (Hch _ _ Hy) as (y' & Hy' & Hsy), (Hch _ _ Hz) as (z' & Hz' & Hsz). eapply Hd; [exact Hy'|exact Hz'|].
    eapply compare_trans; [exact Hsy|]. eapply compare_trans; [exact Hsame|]. by apply compare_sym.
  - eapply buckets_ok_links; [| |exact Hb]; [|intros q; by destruct (Hlinks q) as (? & ? & _)].
    intros q b. unfold hashes. destruct (decide (e = q)) as [<-|Hne]; [|by rewrite lookup_alter_ne].
    rewrite lookup_alter_eq, Hx. simpl. assert (hash_in h (key (g x)) = hash_in h (key x)) as He by (symmetry; by apply hash_at_same).
    split; intros (y & [= <-] & <-); eauto.
  - rewrite Hn, !length_app. done.
Qed.
Lemma rep_elem m h l kvs p : rep m h l kvs -> p ∈ l -> is_Some (m !! p).
Proof. intros H. apply (rep_iter _ _ _ _ H). Qed.
Lemma upd_post s h a e c ka x kc (g : entry -> entry) :
  rep (mem s) h (a ++ e :: c) (ka ++ kv_of x :: kc) -> length a = length ka -> mem s !! e = Some x -> store_ok s ->
  same (key x) (key (g x)) -> bucket_next (g x) = bucket_next x -> bucket_previous (g x) = bucket_previous x ->
  iterate_next (g x) = iterate_next x -> iterate_previous (g x) = iterate_previous x ->
  exists s', upd e g s = Some (Datatypes.tt, s') /\ post s (a ++ e :: c) s' h (a ++ e :: c) (ka ++ kv_of (g x) :: kc).
Proof using KL.
  intros Hrep Hlen Hx Hok Hs E1 E2 E3 E4. eexists. split; [apply upd_eq; by eexists|]. split; [|split]; rewrite ?mem_set_mem.
  - by apply rep_alter.
  - apply store_ok_dom; [|done]. intros q. by rewrite lookup_alter_hit, fmap_is_Some.
  - split; [|by left]. intros q Hq _. apply lookup_alter_ne. intros ->. apply Hq. set_solver.
Qed.
Lemma post_trans s l s1 h1 l1 kvs1 s2 h2 l2 kvs2 :
  post s l s1 h1 l1 kvs1 -> post s1 l1 s2 h2 l2 kvs2 -> post s l s2 h2 l2 kvs2.
Proof. intros (_ & _ & H1) (H2 & H3 & H4). split_and!; [done..|by eapply keeps_trans]. Qed.

Lemma kv_frame_post s h' l l' kvs' m' :
  kv_frame (fun p => p ∈ l) (mem s) m' -> (forall q, q ∈ l' -> q ∈ l) -> store_ok s -> rep m' h' l' kvs' ->
  post s l (set_mem s m') h' l' kvs'.
Proof.
  intros Hf Hl Hok Hrep. split; [by rewrite mem_set_mem|]. split; [by eapply kv_frame_ok|]. rewrite mem_set_mem.
  by eapply kv_frame_keeps.
Qed.

Lemma link_new_ok s h l kvs k v :
  rep (mem s) h l kvs -> store_ok s -> Forall (fun kv => ~ same kv.1 k) kvs ->
  exists e h' s', (e ← alloc_entry; init_entry e k v ;; h ← link_entry h e (bucket_hash h k); mret (1, h)) s = Some ((1, h'), s') /\
    post s l s' h' (l ++ [e]) (kvs ++ [(k, v)]).
Proof using KL.
  intros Hrep Hok Hnew. destruct (alloc_entry_ok s Hok) as (e & s1 & Heq & Hm & He & Hok1).
  set (x := mk_entry K V k v None None None None). set (s2 := set_mem s1 (<[e := x]> (mem s))).
  assert (e ∉ l) as Hel by (intros Hel; destruct (rep_elem _ _ _ _ _ Hrep Hel); congruence).
  assert (rep (mem s2) h l kvs) as Hrep2.
  { unfold s2. rewrite mem_set_mem. eapply rep_frame; [|exact Hrep]. intros p Hp. apply lookup_insert_ne. intros ->. done. }
  destruct (link_entry_ok s2 h l kvs e x Hrep2 Hel) as (h' & m' & Hlink & Hrep' & Hf & _); [|done|].
  { unfold s2. by rewrite mem_set_mem, lookup_insert_eq. }
  exists e, h', (set_mem s2 m'). split.
  - rewrite (bind_Some _ _ _ _ _ Heq). erewrite bind_Some; [|unfold init_entry; rewrite Hm; reflexivity].
    change (s1 <| mem := <[e := mk_entry K V k v None None None None]> (mem s) |>) with s2.
    change k with (key x) at 1. by rewrite (bind_Some _ _ _ _ _ Hlink).
  - split; [by rewrite mem_set_mem|]. split; [eapply kv_frame_ok; [exact Hf|apply Hok1]|]. rewrite mem_set_mem. split.
    + intros q Hq [y Hy]. assert (q <> e) as Hqe by congruence. destruct (Hf q) as [_ ->]; [|set_solver].
      unfold s2. by rewrite mem_set_mem, lookup_insert_ne.
    + intros q [Hq| ->%list_elem_of_singleton]%elem_of_app; [by left|by right].
Qed.

Context `{EqDecision V}.

Definition s_put kvs k v : Z * list (K * V) :=
  match get_key kvs k with
  | Some kv => (if bool_decide (kv.2 = v) then 0 else - EEXIST, kvs)
  | None => (1, kvs ++ [(k, v)])
  end.
Lemma put_ok s h l kvs k v :
  rep (mem s) h l kvs -> store_ok s ->
  exists h' l' s', hashmap_put random h k v s = Some (((s_put kvs k v).1, h'), s') /\ post s l s' h' l' (s_put kvs k v).2.
Proof using KL.
  intros Hrep Hok. destruct (hash_scan_cases s h l kvs k Hrep) as (r & Hr & Hsc). unfold hashmap_put, s_put, get_key.
  rewrite (bind_Some _ _ _ _ _ Hr). destruct Hsc as [a e c ka x kc Hl Hk _ Hx _ Hfind _ _|Hnew Hfind _ _]; rewrite Hfind.
  - exists h, l, s. rewrite (bind_Some _ _ _ _ _ (load_eq _ _ _ Hx)). split; [done|]. by apply post_same.
  - destruct (resize_buckets_ok s h l kvs Hrep Hok) as (b & h1 & s1 & Heq & Hrep1 & Hok1 & Hf1 & Hb). rewrite (bind_Some _ _ _ _ _ Heq).
    assert ((if b then bucket_hash h1 k else bucket_hash h k) = bucket_hash h1 k) as -> by (destruct b; [done|by rewrite Hb]).
    destruct (link_new_ok s1 h1 l kvs k v Hrep1 Hok1 Hnew) as (e & h' & s' & Heq2 & Hpost).
    exists h', (l ++ [e]), s'. split; [exact Heq2|]. eapply post_trans; [|exact Hpost].
    split_and!; [done..|]. by eapply kv_frame_keeps.
Qed.

Definition s_replace kvs k v : Z * list (K * V) :=
  match get_key kvs k with Some _ => (0, set_key kvs k (fun _ => (k, v))) | None => (1, kvs ++ [(k, v)]) end.
Lemma replace_ok s h l kvs k v :
  rep (mem s) h l kvs -> store_ok s ->
  exists h' l' s', hashmap_replace random h k v s = Some (((s_replace kvs k v).1, h'), s') /\ post s l s' h' l' (s_replace kvs k v).2.
Proof using KL.
  intros Hrep Hok. destruct (hash_scan_cases s h l kvs k Hrep) as (r & Hr & Hsc). unfold hashmap_replace, s_replace, get_key.
  rewrite (bind_Some _ _ _ _ _ Hr). destruct Hsc as [a e c ka x kc -> -> Hlen Hx Hs Hfind _ Hset|Hnew Hfind _ _]; rewrite Hfind.
  - destruct (upd_post s h a e c ka x kc (fun x => x <| key := k |> <| value := v |>) Hrep Hlen Hx Hok) as (s' & Heq & Hpost); [exact Hs|done..|].
    exists h, (a ++ e :: c), s'. rewrite (bind_Some _ _ _ _ _ Heq). split; [done|]. simpl. by rewrite Hset.
  - destruct (put_ok s h l kvs k v Hrep Hok) as (h' & l' & s' & Heq & Hpost). unfold s_put, get_key in *. rewrite Hfind in *.
    by exists h', l', s'.
Qed.
Definition s_update kvs k v : Z * list (K * V) :=
  match get_key kvs k with Some _ => (0, set_key kvs k (fun kv => (kv.1, v))) | None => (- ENOENT, kvs) end.
Lemma update_ok s h l kvs k v :
  rep (mem s) h l kvs -> store_ok s ->
  exists s', hashmap_update h k v s = Some ((s_update kvs k v).1, s') /\ post s l s' h l (s_update kvs k v).2.
Proof using KL.
  intros Hrep Hok. destruct (hash_scan_cases s h l kvs k Hrep) as (r & Hr & Hsc). unfold hashmap_update, s_update, get_key.
  rewrite (bind_Some _ _ _ _ _ Hr). destruct Hsc as [a e c ka x kc -> -> Hlen Hx Hs Hfind _ Hset|Hnew Hfind _ _]; rewrite Hfind.
  - destruct (upd_post s h a e c ka x kc (fun x => x <| value := v |>) Hrep Hlen Hx Hok) as (s' & Heq & Hpost); [apply compare_refl|done..|].
    exists s'. rewrite (bind_Some _ _ _ _ _ Heq). split; [done|]. simpl. by rewrite Hset.
  - exists s. split; [done|]. by apply post_same.
Qed.

Lemma find_entry_ok s h l kvs k :
  rep (mem s) h l kvs -> exists ox : option entry, find_entry (Some h) k s = Some (ox, s) /\ kv_of <$> ox = get_key kvs k.
Proof using KL.
  intros Hrep. destruct (hash_scan_cases s h l kvs k Hrep) as (r & Hr & Hsc). unfold find_entry, get_key.
  rewrite (bind_Some _ _ _ _ _ Hr). destruct Hsc as [a e c ka x kc _ _ _ Hx _ Hfind _ _|_ Hfind _ _]; rewrite Hfind.
  - exists (Some x). by rewrite (bind_Some _ _ _ _ _ (load_eq _ _ _ Hx)).
  - by exists None.
Qed.
Lemma get2_ok s h l kvs k : rep (mem s) h l kvs -> hashmap_get2 (Some h) k s = Some (get_key kvs k, s).
Proof using KL.
  intros Hrep. destruct (find_entry_ok s h l kvs k Hrep) as (x & Hx & Hkv). unfold hashmap_get2.
  rewrite (bind_Some _ _ _ _ _ Hx), <- Hkv. by destruct x.
Qed.
Lemma get_ok s h l kvs k : rep (mem s) h l kvs -> hashmap_get (Some h) k s = Some (snd <$> get_key kvs k, s).
Proof using KL.
  intros Hrep. destruct (find_entry_ok s h l kvs k Hrep) as (x & Hx & Hkv). unfold hashmap_get.
  rewrite (bind_Some _ _ _ _ _ Hx), <- Hkv. by destruct x.
Qed.
Lemma contains_ok s h l kvs k : rep (mem s) h l kvs -> hashmap_contains (Some h) k s = Some (bool_decide (is_Some (get_key kvs k)), s).
Proof using KL.
  intros Hrep. destruct (find_entry_ok s h l kvs k Hrep) as (x & Hx & Hkv). unfold hashmap_contains.
  rewrite (bind_Some _ _ _ _ _ Hx), <- Hkv. by destruct x.
Qed.

(** ** Removing *)

Lemma rep_split m h l kvs p :
  rep m h l kvs -> p ∈ l ->
  exists a c ka x kc, l = a ++ p :: c /\ kvs = ka ++ kv_of x :: kc /\ length a = length ka /\ m !! p = Some x.
Proof.
  intros Hrep [i Hi]%list_elem_of_lookup. destruct (rep_lookup _ _ _ _ _ _ Hrep Hi) as (x & Hx & Hkv).
  apply list_elem_of_split_length in Hkv as (ka & kc & -> & ->), Hi as (a & c & -> & Hlen). by exists a, c, ka, x, kc.
Qed.

Definition s_remove kvs k : option (K * V) * list (K * V) :=
  match get_key kvs k with Some kv => (Some kv, drop_key kvs k) | None => (None, kvs) end.
Lemma remove2_ok s h l kvs k :
  rep (mem s) h l kvs -> store_ok s ->
  exists h' l' s', hashmap_remove2 h k s = Some (((s_remove kvs k).1, h'), s') /\ post s l s' h' l' (s_remove kvs k).2.
Proof using KL.
  intros Hrep Hok. destruct (hash_scan_cases s h l kvs k Hrep) as (r & Hr & Hsc). unfold hashmap_remove2, s_remove, get_key.
  rewrite (bind_Some _ _ _ _ _ Hr). destruct Hsc as [a e c ka x kc -> -> Hlen Hx Hs Hfind Hdrop _|_ Hfind _ _]; rewrite Hfind.
  - destruct (remove_entry_ok s h a e c ka _ kc Hrep Hlen Hok) as (h' & s' & Heq & Hpost & _). exists h', (a ++ c), s'.
    rewrite (bind_Some _ _ _ _ _ (load_eq _ _ _ Hx)), (bind_Some _ _ _ _ _ Heq). split; [done|]. simpl. by rewrite Hdrop.
  - exists h, l, s. split; [done|]. by apply post_same.
Qed.
Lemma remove_ok s h l kvs k :
  rep (mem s) h l kvs -> store_ok s ->
  exists h' l' s', hashmap_remove h k s = Some ((snd <$> (s_remove kvs k).1, h'), s') /\ post s l s' h' l' (s_remove kvs k).2.
Proof using KL.
  intros Hrep Hok. destruct (hash_scan_cases s h l kvs k Hrep) as (r & Hr & Hsc). unfold hashmap_remove, s_remove, get_key.
  rewrite (bind_Some _ _ _ _ _ Hr). destruct Hsc as [a e c ka x kc -> -> Hlen Hx Hs Hfind Hdrop _|_ Hfind _ _]; rewrite Hfind.
  - destruct (remove_entry_ok s h a e c ka _ kc Hrep Hlen Hok) as (h' & s' & Heq & Hpost & _). exists h', (a ++ c), s'.
    rewrite (bind_Some _ _ _ _ _ (load_eq _ _ _ Hx)), (bind_Some _ _ _ _ _ Heq). split; [done|]. simpl. by rewrite Hdrop.
  - exists h, l, s. split; [done|]. by apply post_same.
Qed.
Definition s_remove_value kvs k v : option V * list (K * V) :=
  match get_key kvs k with
  | Some kv => if bool_decide (kv.2 = v) then (Some v, drop_key kvs k) else (None, kvs)
  | None => (None, kvs)
  end.
Lemma remove_value_ok s h l kvs k v :
  rep (mem s) h l kvs -> store_ok s ->
  exists h' l' s', hashmap_remove_value h k v s = Some (((s_remove_value kvs k v).1, h'), s') /\ post s l s' h' l' (s_remove_value kvs k v).2.
Proof using KL.
  intros Hrep Hok. destruct (hash_scan_cases s h l kvs k Hrep) as (r & Hr & Hsc). unfold hashmap_remove_value, s_remove_value, get_key.
  rewrite (bind_Some _ _ _ _ _ Hr). destruct Hsc as [a e c ka x kc -> -> Hlen Hx Hs Hfind Hdrop _|_ Hfind _ _]; rewrite Hfind.
  - rewrite (bind_Some _ _ _ _ _ (load_eq _ _ _ Hx)). simpl. case_bool_decide.
    + destruct (remove_entry_ok s h a e c ka _ kc Hrep Hlen Hok) as (h' & s' & Heq & Hpost & _). exists h', (a ++ c), s'.
      rewrite (bind_Some _ _ _ _ _ Heq). split; [done|]. simpl. by rewrite Hdrop.
    + exists h, (a ++ e :: c), s. split; [done|]. by apply post_same.
  - exists h, l, s. split; [done|]. by apply post_same.
Qed.

(** The entry is unlinked, gets a new key and value, and is linked again. *)
Lemma rekey_ok s h a e c ka x kc old new v :
  rep (mem s) h (a ++ e :: c) (ka ++ kv_of x :: kc) -> length a = length ka -> store_ok s -> same old (key x) ->
  Forall (fun kv => ~ same kv.1 new) (ka ++ kc) ->
  exists h' s', rekey h e (bucket_hash h old) (bucket_hash h new) new v s = Some (h', s') /\
    post s (a ++ e :: c) s' h' ((a ++ c) ++ [e]) ((ka ++ kc) ++ [(new, v)]).
Proof using KL.
  intros Hrep Hlen Hok Hs Hnew.
  destruct (unlink_entry_ok s h a e c ka (kv_of x) kc old Hrep Hlen Hs) as (h1 & m1 & Heq & Hrep1 & Hf1 & Hn1 & Hh1).
  assert (e ∉ a ++ c) as He.
  { destruct (rep_iter _ _ _ _ Hrep) as (_ & Hnd & _). apply NoDup_app in Hnd as (_ & H1 & H2). apply NoDup_cons in H2 as [H2 _].
    specialize (H1 e). set_solver. }
  assert (is_Some (m1 !! e)) as [x1 Hx1] by (apply (kv_frame_some _ _ _ _ Hf1), (rep_elem _ _ _ _ _ Hrep); set_solver).
  set (g := fun x : entry => x <| key := new |> <| value := v |>).
  pose proof (kv_frame_ok _ _ _ Hf1 Hok) as Hok1.
  set (s2 := set_mem s (alter g e m1)).
  assert (mem s2 !! e = Some (g x1)) as Hx2 by (unfold s2; by rewrite mem_set_mem, lookup_alter_eq, Hx1).
  assert (rep (mem s2) h1 (a ++ c) (ka ++ kc)) as Hrep2.
  { unfold s2. rewrite mem_set_mem. eapply rep_frame; [|exact Hrep1]. intros p Hp. apply lookup_alter_ne. by intros ->. }
  destruct (link_entry_ok s2 h1 (a ++ c) (ka ++ kc) e (g x1) Hrep2 He Hx2 Hnew) as (h2 & m2 & Heq2 & Hrep3 & Hf2 & _).
  exists h2, (set_mem s m2). split.
  - unfold rekey. rewrite (bind_Some _ _ _ _ _ Heq). erewrite bind_Some; [|apply upd_eq; rewrite mem_set_mem; by eexists].
    rewrite mem_set_mem, set_mem_set_mem. fold g s2.
    assert (bucket_hash h new = bucket_hash h1 (key (g x1))) as -> by (unfold bucket_hash; by rewrite Hn1, Hh1). exact Heq2.
  - assert (forall q, is_Some (m2 !! q) -> is_Some (m1 !! q)) as Hdom.
    { intros q Hq. apply (kv_frame_some _ _ _ _ Hf2) in Hq. unfold s2 in Hq.
      by rewrite mem_set_mem, lookup_alter_hit, fmap_is_Some in Hq. }
    split; [by rewrite mem_set_mem|]. split.
    + apply store_ok_dom; [|done]. intros q Hq. by apply (kv_frame_some _ _ _ _ Hf1), Hdom.
    + rewrite mem_set_mem. split; [|set_solver]. intros q Hq _. destruct (Hf2 q) as [_ ->]; [|set_solver].
      unfold s2. rewrite mem_set_mem, lookup_alter_ne by set_solver. by apply Hf1.
Qed.

Definition s_remove_and_put kvs old new v : Z * list (K * V) :=
  match get_key kvs old, get_key kvs new with
  | None, _ => (- ENOENT, kvs)
  | Some _, Some _ => (- EEXIST, kvs)
  | Some _, None => (0, drop_key kvs old ++ [(new, v)])
  end.
Lemma remove_and_put_ok s h l kvs old new v :
  rep (mem s) h l kvs -> store_ok s ->
  exists h' l' s', hashmap_remove_and_put h old new v s = Some (((s_remove_and_put kvs old new v).1, h'), s') /\
    post s l s' h' l' (s_remove_and_put kvs old new v).2.
Proof using KL.
  intros Hrep Hok. destruct (hash_scan_cases s h l kvs old Hrep) as (r & Hr & Hsc). unfold hashmap_remove_and_put, s_remove_and_put, get_key.
  rewrite (bind_Some _ _ _ _ _ Hr). destruct Hsc as [a e c ka x kc -> -> Hlen Hx Hs Hfind Hdrop _|_ Hfind _ _]; rewrite Hfind.
  2: { exists h, l, s. split; [done|]. by apply post_same. }
  destruct (hash_scan_cases s h _ _ new Hrep) as (r' & Hr' & Hsc'). rewrite (bind_Some _ _ _ _ _ Hr').
  destruct Hsc' as [? ? ? ? ? ? ? _ _ _ _ Hfind' _ _|Hnew Hfind' _ _]; rewrite Hfind'; simpl.
  { exists h, (a ++ e :: c), s. split; [done|]. by apply post_same. }
  destruct (rekey_ok s h a e c ka x kc old new v Hrep Hlen Hok) as (h' & s' & Heq & Hpost).
  - by apply compare_sym.
  - apply Forall_app in Hnew as [? Hnew]. apply Forall_cons in Hnew as [_ ?]. by apply Forall_app.
  - exists h', ((a ++ c) ++ [e]), s'. rewrite (bind_Some _ _ _ _ _ Heq). split; [done|]. by rewrite Hdrop.
Qed.

Definition s_remove_and_replace kvs old new v : Z * list (K * V) :=
  match get_key kvs old with
  | None => (- ENOENT, kvs)
  | Some _ => (0, drop_key (drop_key kvs new) old ++ [(new, v)])
  end.
Lemma drop_key_new kvs k : Forall (fun kv => ~ same kv.1 k) (drop_key kvs k).
Proof. apply Forall_forall. intros kv [H _]%list_elem_of_filter. done. Qed.
Lemma remove_and_replace_ok s h l kvs old new v :
  rep (mem s) h l kvs -> store_ok s ->
  exists h' l' s', hashmap_remove_and_replace h old new v s = Some (((s_remove_and_replace kvs old new v).1, h'), s') /\
    post s l s' h' l' (s_remove_and_replace kvs old new v).2.
Proof using KL.
  intros Hrep Hok. destruct (hash_scan_cases s h l kvs old Hrep) as (r & Hr & Hsc).
  unfold hashmap_remove_and_replace, s_remove_and_replace, get_key.
  rewrite (bind_Some _ _ _ _ _ Hr). destruct Hsc as [a e c ka x kc Hl Hk Hlen Hx Hs Hfind Hdrop _|_ Hfind _ _]; rewrite Hfind.
  2: { exists h, l, s. split; [done|]. by apply post_same. }
  destruct (hash_scan_cases s h _ _ new Hrep) as (r' & Hr' & Hsc'). rewrite (bind_Some _ _ _ _ _ Hr'). simpl.
  assert (exists h1 l1 s1, (match r' with Some q => if bool_decide (e <> q) then remove_entry h q else mret h | None => mret h end) s = Some (h1, s1) /\
    exists kvs1, post s l s1 h1 l1 kvs1 /\ e ∈ l1 /\ kv_of <$> mem s1 !! e = Some (kv_of x) /\ drop_key kvs1 old = drop_key (drop_key kvs new) old /\
      Forall (fun kv => ~ same kv.1 new) (drop_key kvs1 old) /\ n_buckets h1 = n_buckets h /\ hash_key h1 = hash_key h)
    as (h1 & l1 & s1 & Heq1 & kvs1 & Hpost1 & He1 & Hx1 & Hd1 & Hnew1 & Hn1 & Hh1).
  { destruct Hsc' as [a' q c' ka' y kc' Hl' Hk' Hlen' Hy Hsy Hfind' Hdrop' _|Hnew Hfind' Hdrop' _].
    - case_bool_decide as Heq.
      + subst l kvs. rewrite Hl', Hk' in Hrep. destruct (remove_entry_ok s h a' q c' ka' _ kc' Hrep Hlen' Hok) as (h1 & s1 & Hr1 & Hp1 & _ & Hkv1 & Hn1 & Hh1).
        exists h1, (a' ++ c'), s1. split; [done|]. exists (ka' ++ kc'). rewrite Hl', Hdrop'. split_and!; try done.
        * assert (e ∈ a' ++ q :: c') as He by (rewrite <- Hl'; set_solver). set_solver.
        * by rewrite Hkv1, Hx.
        * rewrite <- Hdrop'. unfold drop_key at 1. apply Forall_forall. intros kv [_ Hin]%list_elem_of_filter.
          pose proof (drop_key_new (ka ++ kv_of x :: kc) new) as Hf. rewrite Forall_forall in Hf. by apply Hf.
      + assert (e = q) as <- by (destruct (decide (e = q)); [done|by destruct Heq]). exists h, l, s. split; [done|]. exists kvs.
        assert (x = y) as <- by congruence.
        assert (drop_key kvs old = drop_key kvs new) as Hdd.
        { unfold drop_key. apply list_filter_iff. intros kv. split; intros Hn Hs'; apply Hn.
          - eapply compare_trans; [exact Hs'|]. eapply compare_trans; [|exact Hs]. by apply compare_sym.
          - eapply compare_trans; [exact Hs'|]. eapply compare_trans; [|exact Hsy]. by apply compare_sym. }
        split_and!; [by apply post_same|subst l; set_solver|by rewrite Hx| |rewrite Hdd; apply drop_key_new|done|done].
        rewrite <- Hdd. unfold drop_key. rewrite list_filter_filter. apply list_filter_iff. naive_solver.
    - exists h, l, s. split; [done|]. exists kvs. rewrite Hdrop'.
      split_and!; [by apply post_same|subst l; set_solver|by rewrite Hx|done| |done|done].
      rewrite Hdrop. subst kvs. apply Forall_app in Hnew as [? Hnew]. apply Forall_cons in Hnew as [_ ?]. by apply Forall_app. }
  rewrite (bind_Some _ _ _ _ _ Heq1). destruct Hpost1 as (Hrep1 & Hok1 & Hkeep1).
  destruct (rep_split _ _ _ _ _ Hrep1 He1) as (a1 & c1 & ka1 & x1 & kc1 & -> & -> & Hlen1 & Hxx).
  rewrite Hxx in Hx1. injection Hx1 as Hx1 _. rewrite <- Hx1 in Hs.
  destruct (key_middle _ _ _ old (rep_distinct _ _ _ _ Hrep1) Hs) as (_ & Hdrop1 & _). rewrite Hdrop1 in *.
  destruct (rekey_ok s1 h1 a1 e c1 ka1 x1 kc1 old new v Hrep1 Hlen1 Hok1) as (h2 & s2 & Heq2 & Hpost2); [by apply compare_sym|done|].
  exists h2, ((a1 ++ c1) ++ [e]), s2. unfold bucket_hash in *. rewrite Hn1, Hh1 in Heq2.
  rewrite (bind_Some _ _ _ _ _ Heq2). split; [done|]. simpl. rewrite <- Hd1. eapply post_trans; [|exact Hpost2]. by split_and!.
Qed.

(** ** All entries *)

Lemma rep_nil_kvs m h kvs : rep m h [] kvs -> kvs = [].
Proof. intros H. apply (Forall2_nil_inv_l _ _ (rep_kvs _ _ _ _ H)). Qed.
Lemma rep_middle m h a e c kvs :
  rep m h (a ++ e :: c) kvs ->
  exists ka x kc, kvs = ka ++ kv_of x :: kc /\ length a = length ka /\ m !! e = Some x /\
    iterate_next x = head c /\ iterate_previous x = last a.
Proof.
  intros H. pose proof (rep_kvs _ _ _ _ H) as Hk. apply Forall2_app_inv_l in Hk as (ka & kc' & Ha & Hc & ->).
  inversion Hc as [|e' kv c' kc Hx Hc' E1 E2]. subst. apply fmap_Some in Hx as (x & Hx & ->).
  destruct (dll_ends _ _ _ _ _ (proj1 (rep_iter _ _ _ _ H))) as [Hn Hp]. unfold fld in Hn, Hp. rewrite Hx in Hn, Hp.
  exists ka, x, kc. split_and!; [done|by eapply Forall2_length|done..].
Qed.

Definition iterator_at (c : list ptr) : Iterator := match c with [] => ITERATOR_LAST | p :: _ => ITERATOR_AT p end.
Lemma foreach_ok s h a c ka kc fuel seen :
  rep (mem s) h (a ++ c) (ka ++ kc) -> length a = length ka -> (length c <= fuel)%nat ->
  foreach_loop (hashmap_iterate (Some h)) fuel (iterator_at c) seen s = Some (seen ++ kc, s).
Proof.
  revert a c ka kc seen. induction fuel as [|fuel IH]; intros a c ka kc seen Hrep Hlen Hf; (destruct c as [|p c]; [|try (simpl in Hf; lia)]).
  1, 2: pose proof (Forall2_length _ _ _ (rep_kvs _ _ _ _ Hrep)) as Hl; rewrite !length_app in Hl; simpl in Hl;
    (destruct kc; [|simpl in Hl; lia]); by rewrite app_nil_r.
  destruct (rep_middle _ _ _ _ _ _ Hrep) as (ka' & x & kc' & Heq & Hlen' & Hx & Hn & _).
  apply app_inj_1 in Heq as [<- ->]; [|congruence]. cbn [iterator_at foreach_loop].
  assert (hashmap_iterate (Some h) (ITERATOR_AT p) s = Some ((Some (kv_of x), iterator_at c), s)) as Heq.
  { unfold hashmap_iterate. rewrite (bind_Some _ _ _ _ _ (load_eq _ _ _ Hx)), Hn. by destruct c. }
  rewrite (bind_Some _ _ _ _ _ Heq). cbn [snd fst]. rewrite (IH (a ++ [p]) c (ka ++ [kv_of x]) kc').
  - by rewrite <- app_assoc.
  - by rewrite <- !app_assoc.
  - rewrite !length_app. simpl. lia.
  - simpl in Hf. lia.
Qed.
Lemma rep_size m h l kvs : rep m h l kvs -> (length l <= size m)%nat.
Proof. intros H. destruct (rep_iter _ _ _ _ H) as (_ & Hnd & _ & _ & Hm). by apply chain_length. Qed.
Lemma foreach_key_ok s h l kvs : rep (mem s) h l kvs -> HASHMAP_FOREACH_KEY (Some h) s = Some (kvs, s).
Proof.
  intros Hrep. unfold HASHMAP_FOREACH_KEY, bound. erewrite (bind_Some (A := nat)); [|done].
  pose proof (foreach_ok s h [] l [] kvs (S (size (mem s))) [] Hrep eq_refl) as H. simpl in H. rewrite <- H.
  - assert (iterate_list_head h = head l) as Hh by apply (rep_iter _ _ _ _ Hrep).
    destruct l as [|p l]; cbn [foreach_loop iterator_at]; unfold hashmap_iterate; by rewrite Hh.
  - pose proof (rep_size _ _ _ _ Hrep). lia.
Qed.
Definition iterator_before (a : list ptr) : Iterator := match last a with None => ITERATOR_FIRST | Some p => ITERATOR_AT p end.
Lemma foreach_back_ok s h a c ka kc fuel seen :
  rep (mem s) h (a ++ c) (ka ++ kc) -> length a = length ka -> (length a <= fuel)%nat ->
  foreach_loop (hashmap_iterate_backwards (Some h)) fuel (iterator_before a) seen s = Some (seen ++ reverse ka, s).
Proof.
  revert a c ka kc seen. induction fuel as [|fuel IH]; intros a c ka kc seen Hrep Hlen Hf;
    (destruct a as [|p a _] using rev_ind; [|try (rewrite length_app in Hf; simpl in Hf; lia)]).
  1, 2: destruct ka; [|done]; by rewrite app_nil_r.
  rewrite <- app_assoc in Hrep. destruct (rep_middle _ _ _ _ _ _ Hrep) as (ka' & x & kc' & Heq & Hlen' & Hx & _ & Hp).
  assert (ka = ka' ++ [kv_of x]) as ->.
  { assert (ka' ++ kv_of x :: kc' = (ka' ++ [kv_of x]) ++ kc') as E by (by rewrite <- app_assoc). rewrite E in Heq.
    apply app_inj_1 in Heq as [-> _]; [done|]. rewrite <- Hlen, !length_app. simpl. lia. }
  rewrite <- app_assoc in Hrep. unfold iterator_before. rewrite last_snoc. cbn [foreach_loop].
  assert (hashmap_iterate_backwards (Some h) (ITERATOR_AT p) s = Some ((Some (kv_of x), iterator_before a), s)) as Hit.
  { unfold hashmap_iterate_backwards. rewrite (bind_Some _ _ _ _ _ (load_eq _ _ _ Hx)), Hp. unfold iterator_before. by destruct (last a). }
  rewrite (bind_Some _ _ _ _ _ Hit). rewrite (IH a (p :: c) ka' (kv_of x :: kc)).
  - rewrite reverse_app. simpl. by rewrite <- app_assoc.
  - exact Hrep.
  - done.
  - rewrite length_app in Hf. simpl in Hf. lia.
Qed.
Lemma foreach_backwards_ok s h l kvs : rep (mem s) h l kvs -> HASHMAP_FOREACH_BACKWARDS (Some h) s = Some (reverse kvs, s).
Proof.
  intros Hrep. unfold HASHMAP_FOREACH_BACKWARDS, bound. erewrite (bind_Some (A := nat)); [|done].
  pose proof (foreach_back_ok s h l [] kvs [] (S (size (mem s))) []) as H. rewrite !app_nil_r in H. simpl in H. rewrite <- H.
  - assert (iterate_list_tail h = last l) as Hh by apply (rep_iter _ _ _ _ Hrep). unfold iterator_before.
    cbn [foreach_loop]. destruct (last l) as [p|] eqn:E; unfold hashmap_iterate_backwards; by rewrite Hh.
  - done.
  - apply (Forall2_length _ _ _ (rep_kvs _ _ _ _ Hrep)).
  - pose proof (rep_size _ _ _ _ Hrep). lia.
Qed.

Definition s_steal_first kvs : option (K * V) * list (K * V) :=
  match kvs with [] => (None, []) | kv :: kvs' => (Some kv, kvs') end.
Lemma remove_head_ok s h p c kvs :
  rep (mem s) h (p :: c) kvs -> store_ok s ->
  exists x kc h' s', kvs = kv_of x :: kc /\ load p s = Some (x, s) /\ remove_entry h p s = Some (h', s') /\ post s (p :: c) s' h' c kc.
Proof using KL.
  intros Hrep Hok. destruct (rep_middle _ _ [] p c _ Hrep) as (ka & x & kc & -> & Hlen & Hx & _). destruct ka; [|done].
  destruct (remove_entry_ok s h [] p c [] _ kc Hrep eq_refl Hok) as (h' & s' & Heq & Hpost & _).
  exists x, kc, h', s'. split_and!; [done|by apply load_eq|done|done].
Qed.
Lemma steal_first_ok s h l kvs :
  rep (mem s) h l kvs -> store_ok s ->
  exists h' l' s', hashmap_steal_first h s = Some ((snd <$> (s_steal_first kvs).1, h'), s') /\
    hashmap_steal_first_key h s = Some ((fst <$> (s_steal_first kvs).1, h'), s') /\
    post s l s' h' l' (s_steal_first kvs).2.
Proof using KL.
  intros Hrep Hok. unfold hashmap_steal_first, hashmap_steal_first_key.
  assert (iterate_list_head h = head l) as -> by apply (rep_iter _ _ _ _ Hrep).
  destruct l as [|p c].
  - apply rep_nil_kvs in Hrep as Hk. subst kvs. exists h, [], s. split_and!; [done..|]. by apply post_same.
  - destruct (remove_head_ok s h p c kvs Hrep Hok) as (x & kc & h' & s' & -> & Hx & Heq & Hpost). exists h', c, s'. simpl.
    by rewrite !(bind_Some _ _ _ _ _ Hx), !(bind_Some _ _ _ _ _ Heq).
Qed.
Lemma clear_loop_ok fuel s h l kvs :
  rep (mem s) h l kvs -> store_ok s -> (length l <= fuel)%nat ->
  exists h' s', clear_loop fuel h s = Some (h', s') /\ post s l s' h' [] [].
Proof using KL.
  revert s h l kvs. induction fuel as [|fuel IH]; intros s h l kvs Hrep Hok Hf; (destruct l as [|p c]; [|try (simpl in Hf; lia)]);
    assert (iterate_list_head h = head _) as Hh by apply (rep_iter _ _ _ _ Hrep).
  1, 2: apply rep_nil_kvs in Hrep as Hk; subst kvs; exists h, s; simpl; rewrite Hh; split; [done|by apply post_same].
  destruct (remove_head_ok s h p c kvs Hrep Hok) as (x & kc & h1 & s1 & -> & _ & Heq & Hpost).
  destruct (IH s1 h1 c kc) as (h' & s' & Heq' & Hpost'); [apply Hpost|apply Hpost|simpl in Hf; lia|].
  exists h', s'. simpl. rewrite Hh. simpl. rewrite (bind_Some _ _ _ _ _ Heq). split; [done|]. by eapply post_trans.
Qed.
Lemma clear_ok s h l kvs :
  rep (mem s) h l kvs -> store_ok s -> exists h' s', hashmap_clear h s = Some (h', s') /\ post s l s' h' [] [].
Proof using KL.
  intros Hrep Hok. unfold hashmap_clear, bound. erewrite (bind_Some (A := nat)); [|done].
  apply (clear_loop_ok _ s h l kvs Hrep Hok). pose proof (rep_size _ _ _ _ Hrep). lia.
Qed.

Lemma clear_free_loop_ok fuel s h l kvs freed :
  rep (mem s) h l kvs -> store_ok s -> (length l <= fuel)%nat ->
  exists h' s', clear_free_loop fuel h freed s = Some ((freed ++ kvs.*2, h'), s') /\ post s l s' h' [] [].
Proof using KL.
  revert s h l kvs freed. induction fuel as [|fuel IH]; intros s h l kvs freed Hrep Hok Hf; (destruct l as [|p c]; [|try (simpl in Hf; lia)]);
    assert (iterate_list_head h = head _) as Hh by apply (rep_iter _ _ _ _ Hrep).
  1, 2: apply rep_nil_kvs in Hrep as Hk; subst kvs; exists h, s; cbn [clear_free_loop]; unfold hashmap_steal_first; rewrite Hh;
    split; [by rewrite app_nil_r|by apply post_same].
  destruct (remove_head_ok s h p c kvs Hrep Hok) as (x & kc & h1 & s1 & -> & Hx & Heq & Hpost).
  destruct (IH s1 h1 c kc (freed ++ [value x])) as (h' & s' & Heq' & Hpost'); [apply Hpost|apply Hpost|simpl in Hf; lia|].
  exists h', s'. cbn [clear_free_loop]. unfold hashmap_steal_first. rewrite Hh. simpl.
  erewrite bind_Some; [|rewrite (bind_Some _ _ _ _ _ Hx), (bind_Some _ _ _ _ _ Heq); done].
  split; [rewrite Heq'; by rewrite <- app_assoc|by eapply post_trans].
Qed.
Lemma clear_free_ok s h l kvs :
  rep (mem s) h l kvs -> store_ok s -> exists h' s', hashmap_clear_free h s = Some ((kvs.*2, h'), s') /\ post s l s' h' [] [].
Proof using KL.
  intros Hrep Hok. unfold hashmap_clear_free, bound. erewrite (bind_Some (A := nat)); [|done].
  apply (clear_free_loop_ok _ s h l kvs [] Hrep Hok). pose proof (rep_size _ _ _ _ Hrep). lia.
Qed.
Lemma clear_free_free_loop_ok fuel s h l kvs freed :
  rep (mem s) h l kvs -> store_ok s -> (length l <= fuel)%nat ->
  exists h' s', clear_free_free_loop fuel h freed s = Some ((freed ++ kvs, h'), s') /\ post s l s' h' [] [].
Proof using KL.
  revert s h l kvs freed. induction fuel as [|fuel IH]; intros s h l kvs freed Hrep Hok Hf; (destruct l as [|p c]; [|try (simpl in Hf; lia)]);
    assert (iterate_list_head h = head _) as Hh by apply (rep_iter _ _ _ _ Hrep).
  1, 2: apply rep_nil_kvs in Hrep as Hk; subst kvs; exists h, s; simpl; rewrite Hh;
    split; [by rewrite app_nil_r|by apply post_same].
  destruct (remove_head_ok s h p c kvs Hrep Hok) as (x & kc & h1 & s1 & -> & Hx & Heq & Hpost).
  destruct (IH s1 h1 c kc (freed ++ [kv_of x])) as (h' & s' & Heq' & Hpost'); [apply Hpost|apply Hpost|simpl in Hf; lia|].
  exists h', s'. simpl. rewrite Hh. simpl. rewrite (bind_Some _ _ _ _ _ Hx), (bind_Some _ _ _ _ _ Heq).
  split; [|by eapply post_trans]. rewrite <- app_assoc in Heq'. exact Heq'.
Qed.
Lemma clear_free_free_ok s h l kvs :
  rep (mem s) h l kvs -> store_ok s -> exists h' s', hashmap_clear_free_free h s = Some ((kvs, h'), s') /\ post s l s' h' [] [].
Proof using KL.
  intros Hrep Hok. unfold hashmap_clear_free_free, bound. erewrite (bind_Some (A := nat)); [|done].
  apply (clear_free_free_loop_ok _ s h l kvs [] Hrep Hok). pose proof (rep_size _ _ _ _ Hrep). lia.
Qed.

Lemma first_entry_ok s o :
  (forall p, o = Some p -> is_Some (mem s !! p)) -> first_entry o s = Some (o ≫= (mem s !!.), s).
Proof. intros H. destruct o as [p|]; [|done]. destruct (H p eq_refl) as [x Hx]. simpl. by rewrite (bind_Some _ _ _ _ _ (load_eq _ _ _ Hx)), Hx. Qed.
Lemma rep_head m h l kvs : rep m h l kvs -> kv_of <$> (iterate_list_head h ≫= (m !!.)) = head kvs.
Proof.
  intros H. assert (iterate_list_head h = head l) as -> by apply (rep_iter _ _ _ _ H). pose proof (rep_kvs _ _ _ _ H) as Hk.
  by destruct Hk as [|p kv l kvs Hp _].
Qed.
Lemma rep_last m h l kvs : rep m h l kvs -> kv_of <$> (iterate_list_tail h ≫= (m !!.)) = last kvs.
Proof.
  intros H. assert (iterate_list_tail h = last l) as -> by apply (rep_iter _ _ _ _ H). pose proof (rep_kvs _ _ _ _ H) as Hk.
  clear H. induction Hk as [|p kv l kvs Hp Hk IH]; [done|]. destruct Hk as [|p' kv' l kvs Hp' Hk]; [done|]. exact IH.
Qed.
Lemma first_last_ok s h l kvs :
  rep (mem s) h l kvs ->
  hashmap_first (Some h) s = Some (snd <$> head kvs, s) /\ hashmap_first_key (Some h) s = Some (fst <$> head kvs, s) /\
  hashmap_last (Some h) s = Some (snd <$> last kvs, s).
Proof.
  intros Hrep. unfold hashmap_first, hashmap_first_key, hashmap_last. rewrite <- (rep_head _ _ _ _ Hrep), <- (rep_last _ _ _ _ Hrep).
  destruct (rep_iter _ _ _ _ Hrep) as (_ & _ & Hh & Ht & Hm). cbn [mbind option_bind].
  rewrite !(bind_Some _ _ _ _ _ (first_entry_ok s (iterate_list_head h) ltac:(intros p Hp; apply Hm, head_Some_elem_of; congruence))).
  rewrite (bind_Some _ _ _ _ _ (first_entry_ok s (iterate_list_tail h) ltac:(intros p Hp; apply Hm, last_Some_elem_of; congruence))).
  split_and!; f_equal; f_equal; [by destruct (_ ≫= _)..].
Qed.
(** The value behind the one with a key. *)
Definition s_next kvs k : option V := '(i, _) ← find_key kvs k; snd <$> kvs !! S i.
Lemma next_ok s h l kvs k : rep (mem s) h l kvs -> hashmap_next h k s = Some (s_next kvs k, s).
Proof using KL.
  intros Hrep. destruct (hash_scan_cases s h l kvs k Hrep) as (r & Hr & Hsc). unfold hashmap_next, s_next.
  rewrite (bind_Some _ _ _ _ _ Hr). destruct Hsc as [a e c ka x kc -> -> Hlen Hx _ Hfind _ _|_ Hfind _ _]; rewrite Hfind; [|done].
  rewrite (bind_Some _ _ _ _ _ (load_eq _ _ _ Hx)).
  destruct (rep_middle _ _ _ _ _ _ Hrep) as (ka' & x' & kc' & Heq & Hlen' & Hx' & Hn & _).
  apply app_inj_1 in Heq as [<- Heq]; [|congruence]. injection Heq as _ _ ->. assert (x' = x) as -> by congruence. rewrite Hn.
  assert (forall p, head c = Some p -> is_Some (mem s !! p)) as Hc.
  { intros p Hp%head_Some_elem_of. apply (rep_elem _ _ _ _ _ Hrep). set_solver. }
  rewrite (bind_Some _ _ _ _ _ (first_entry_ok s _ Hc)). cbn [mbind option_bind].
  rewrite lookup_app_r by lia. replace (S (length ka) - length ka)%nat with 1%nat by lia. unfold mret, M_ret. do 2 f_equal. simpl.
  pose proof (rep_kvs _ _ _ _ Hrep) as Hk. apply Forall2_app_inv in Hk as [_ Hk]; [|done]. apply Forall2_cons in Hk as [_ Hk].
  destruct Hk as [|p kv c kc' Hp _]; [done|]. simpl. apply fmap_Some in Hp as (y & -> & ->). done.
Qed.

(** ** Two tables *)

Record holds s h kvs o kvo : Prop := {
  holds_lists : exists l lo, rep (mem s) h l kvs /\ rep (mem s) o lo kvo /\ l ## lo;
  holds_ok : store_ok s
}.
Lemma holds_sym s h kvs o kvo : holds s h kvs o kvo -> holds s o kvo h kvs.
Proof. intros [(l & lo & ? & ? & Hd) ?]. split; [|done]. exists lo, l. split_and!; [done..|]. intros p H1 H2. by apply (Hd p). Qed.
Lemma post_other s l s' h' l' kvs' o lo kvo :
  post s l s' h' l' kvs' -> rep (mem s) o lo kvo -> l ## lo -> rep (mem s') o lo kvo /\ l' ## lo.
Proof.
  intros (_ & _ & H1 & H2) Ho Hd. split.
  - eapply rep_frame; [|exact Ho]. intros p Hp. apply H1; [by intros ?%(Hd p)|by eapply rep_elem].
  - intros p Hp Hpo. destruct (H2 p Hp) as [?|Hn]; [by apply (Hd p)|]. destruct (rep_elem _ _ _ _ _ Ho Hpo). congruence.
Qed.
Lemma post_holds s l s' h h' l' kvs kvs' o kvo lo :
  rep (mem s) h l kvs -> rep (mem s) o lo kvo -> l ## lo -> post s l s' h' l' kvs' -> holds s' h' kvs' o kvo.
Proof.
  intros Hh Ho Hd Hp. destruct (post_other _ _ _ _ _ _ _ _ _ Hp Ho Hd) as [Ho' Hd']. destruct Hp as (Hp & Hok & _).
  split; [|done]. by exists l', lo.
Qed.

(** An entry goes to the end of the other table. *)
Lemma transfer_ok s h l kvs o a e c ka x kc k :
  rep (mem s) h l kvs -> rep (mem s) o (a ++ e :: c) (ka ++ kv_of x :: kc) -> l ## a ++ e :: c -> length a = length ka -> store_ok s ->
  mem s !! e = Some x -> same k (key x) -> Forall (fun kv => ~ same kv.1 (key x)) kvs ->
  exists o1 s1 h1 s2, unlink_entry o e (bucket_hash o k) s = Some (o1, s1) /\ link_entry h e (bucket_hash h k) s1 = Some (h1, s2) /\
    rep (mem s2) h1 (l ++ [e]) (kvs ++ [kv_of x]) /\ rep (mem s2) o1 (a ++ c) (ka ++ kc) /\ l ++ [e] ## a ++ c /\ store_ok s2.
Proof using KL.
  intros Hh Ho Hd Hlen Hok Hx Hs Hnew.
  destruct (unlink_entry_ok s o a e c ka (kv_of x) kc k Ho Hlen Hs) as (o1 & m1 & Heq1 & Ho1 & Hf1 & _).
  assert (e ∉ a ++ c) as He.
  { destruct (rep_iter _ _ _ _ Ho) as (_ & Hnd & _). apply NoDup_app in Hnd as (_ & H1 & H2). apply NoDup_cons in H2 as [H2 _].
    specialize (H1 e). set_solver. }
  assert (exists x1, m1 !! e = Some x1 /\ kv_of x1 = kv_of x) as (x1 & Hx1 & Hxx).
  { destruct (Hf1 e) as [Hk _]. rewrite Hx in Hk. apply fmap_Some in Hk as (x1 & ? & ?). eauto. }
  injection Hxx as Hkk Hvv.
  assert (rep (mem (set_mem s m1)) h l kvs) as Hh1.
  { rewrite mem_set_mem. eapply rep_frame; [|exact Hh]. intros p Hp. apply Hf1. by intros ?%(Hd p). }
  destruct (link_entry_ok (set_mem s m1) h l kvs e x1 Hh1) as (h1 & m2 & Heq2 & Hh2 & Hf2 & _).
  { intros Hel. apply (Hd e Hel). set_solver. }
  { by rewrite mem_set_mem. }
  { by rewrite Hkk. }
  rewrite mem_set_mem in Hf2. rewrite set_mem_set_mem in Heq2.
  exists o1, (set_mem s m1), h1, (set_mem s m2). rewrite mem_set_mem. split; [done|]. split.
  { assert (bucket_hash h k = bucket_hash h (key x1)) as -> by (apply hash_at_same; by rewrite Hkk). done. }
  split; [by unfold kv_of in *; rewrite Hkk, Hvv in Hh2|]. split; [|split].
  - eapply rep_frame; [|exact Ho1]. intros p Hp. apply Hf2. intros [Hl| ->%list_elem_of_singleton]%elem_of_app; [|done].
    apply (Hd p Hl). set_solver.
  - intros p [Hl| ->%list_elem_of_singleton]%elem_of_app Hp; [|done]. apply (Hd p Hl). set_solver.
  - apply (kv_frame_ok _ _ _ Hf1) in Hok. rewrite <- (set_mem_set_mem s m1). apply (kv_frame_ok (fun p => p ∈ l ++ [e])); [by rewrite mem_set_mem|done].
Qed.

Definition s_merge kvs kvo : list (K * V) := fold_left (fun kvs kv => (s_put kvs kv.1 kv.2).2) kvo kvs.
Lemma merge_loop_ok fuel s h l kvs o a c ka kc :
  rep (mem s) h l kvs -> rep (mem s) o (a ++ c) (ka ++ kc) -> length a = length ka -> l ## a ++ c -> store_ok s -> (length c <= fuel)%nat ->
  exists h' l' s', merge_loop random fuel h (head c) s = Some ((0, h'), s') /\ post s l s' h' l' (s_merge kvs kc).
Proof using KL.
  revert s h l kvs a c ka kc. induction fuel as [|fuel IH]; intros s h l kvs a c ka kc Hh Ho Hlen Hd Hok Hf;
    (destruct c as [|e c]; [|try (simpl in Hf; lia)]).
  1, 2: pose proof (Forall2_length _ _ _ (rep_kvs _ _ _ _ Ho)) as Hl; rewrite !length_app in Hl; simpl in Hl;
    (destruct kc; [|simpl in Hl; lia]); exists h, l, s; (split; [done|]); by apply post_same.
  destruct (rep_middle _ _ _ _ _ _ Ho) as (ka' & x & kc' & Heq & Hlen' & Hx & _ & _).
  apply app_inj_1 in Heq as [<- ->]; [|congruence]. cbn [head merge_loop].
  rewrite (bind_Some _ _ _ _ _ (load_eq _ _ _ Hx)).
  destruct (put_ok s h l kvs (key x) (value x) Hh Hok) as (h1 & l1 & s1 & Hput & Hpost). rewrite (bind_Some _ _ _ _ _ Hput).
  destruct (post_other _ _ _ _ _ _ _ _ _ Hpost Ho Hd) as [Ho1 Hd1].
  destruct (rep_middle _ _ _ _ _ _ Ho1) as (ka' & x1 & kc & Heq & Hlen1 & Hx1 & Hn1 & _).
  apply app_inj_1 in Heq as [<- Heq]; [|congruence]. injection Heq as _ _ <-.
  assert (((s_put kvs (key x) (value x)).1 <? 0) && negb ((s_put kvs (key x) (value x)).1 =? - EEXIST) = false) as ->.
  { unfold s_put. destruct (get_key kvs (key x)); [|done]. simpl. by case_bool_decide. }
  rewrite (bind_Some _ _ _ _ _ (load_eq _ _ _ Hx1)), Hn1.
  destruct (IH s1 h1 l1 (s_put kvs (key x) (value x)).2 (a ++ [e]) c (ka ++ [kv_of x]) kc') as (h' & l' & s' & Hloop & Hpost').
  - apply Hpost.
  - by rewrite <- !app_assoc.
  - rewrite !length_app. simpl. lia.
  - by rewrite <- app_assoc.
  - apply Hpost.
  - simpl in Hf. lia.
  - exists h', l', s'. split; [done|]. by eapply post_trans.
Qed.
Lemma merge_ok s h l kvs o lo kvo :
  rep (mem s) h l kvs -> rep (mem s) o lo kvo -> l ## lo -> store_ok s ->
  exists h' l' s', hashmap_merge random h (Some o) s = Some ((0, h'), s') /\ post s l s' h' l' (s_merge kvs kvo).
Proof using KL.
  intros Hh Ho Hd Hok. unfold hashmap_merge, bound. erewrite (bind_Some (A := nat)); [|done].
  assert (iterate_list_head o = head lo) as -> by apply (rep_iter _ _ _ _ Ho).
  apply (merge_loop_ok _ s h l kvs o [] lo [] kvo); try done. pose proof (rep_size _ _ _ _ Ho). lia.
Qed.

Lemma get_key_None kvs k : get_key kvs k = None <-> Forall (fun kv => ~ same kv.1 k) kvs.
Proof.
  unfold get_key, find_key. destruct (list_find _ kvs) as [[i kv]|] eqn:E.
  - split; [done|]. intros H. apply list_find_Some in E as (Hi & Hs & _). rewrite Forall_lookup in H. by destruct (H i kv Hi).
  - split; [|done]. intros _. by apply list_find_None in E.
Qed.
Lemma get_key_snoc kvs kv k : ~ same kv.1 k -> is_Some (get_key (kvs ++ [kv]) k) <-> is_Some (get_key kvs k).
Proof.
  intros Hn. rewrite <- !not_eq_None_Some, !get_key_None, Forall_app, Forall_singleton. tauto.
Qed.
Lemma filter_ext_on (P Q : K * V -> Prop) `{forall kv, Decision (P kv)} `{forall kv, Decision (Q kv)} kvs :
  (forall kv, kv ∈ kvs -> P kv <-> Q kv) -> filter P kvs = filter Q kvs.
Proof.
  induction kvs as [|kv kvs IH]; intros H'; [done|]. rewrite !filter_cons, IH by (intros; apply H'; by right).
  destruct (H' kv) as [H1 H2]; [by left|]. repeat case_decide; naive_solver.
Qed.
Definition s_move kvs kvo : list (K * V) * list (K * V) :=
  (kvs ++ filter (fun kv => ~ is_Some (get_key kvs kv.1)) kvo, filter (fun kv => is_Some (get_key kvs kv.1)) kvo).
Lemma move_loop_ok fuel s h l kvs o a c ka kc :
  rep (mem s) h l kvs -> rep (mem s) o (a ++ c) (ka ++ kc) -> length a = length ka -> l ## a ++ c -> store_ok s -> (length c <= fuel)%nat ->
  exists h' o' s', move_loop fuel h o (head c) s = Some ((h', o'), s') /\
    holds s' h' (s_move kvs kc).1 o' (ka ++ (s_move kvs kc).2).
Proof using All.
  revert s h l kvs o a c ka kc. induction fuel as [|fuel IH]; intros s h l kvs o a c ka kc Hh Ho Hlen Hd Hok Hf;
    (destruct c as [|e c]; [|try (simpl in Hf; lia)]).
  1, 2: pose proof (Forall2_length _ _ _ (rep_kvs _ _ _ _ Ho)) as Hl; rewrite !length_app in Hl; simpl in Hl;
    (destruct kc; [|simpl in Hl; lia]); exists h, o, s; (split; [done|]); split; [|done]; exists l, a;
    unfold s_move; simpl; rewrite !app_nil_r in *; by split_and!.
  destruct (rep_middle _ _ _ _ _ _ Ho) as (ka' & x & kc' & Heq & Hlen' & Hx & Hn & _).
  apply app_inj_1 in Heq as [<- ->]; [|congruence]. cbn [head move_loop].
  rewrite (bind_Some _ _ _ _ _ (load_eq _ _ _ Hx)).
  destruct (hash_scan_cases s h l kvs (key x) Hh) as (r & Hr & Hsc). rewrite (bind_Some _ _ _ _ _ Hr), Hn.
  unfold s_move. rewrite !filter_cons. change (kv_of x).1 with (key x).
  assert (length (a ++ [e]) = length (ka ++ [kv_of x])) as Hlen2 by (rewrite !length_app; simpl; lia).
  destruct Hsc as [? ? ? ? ? ? _ _ _ _ _ Hfind _ _|Hnew _ _ _].
  - assert (is_Some (get_key kvs (key x))) as Hin by (unfold get_key; rewrite Hfind; by eexists).
    rewrite decide_False by tauto. rewrite decide_True by done.
    destruct (IH s h l kvs o (a ++ [e]) c (ka ++ [kv_of x]) kc') as (h' & o' & s' & Hloop & Hholds);
      [done|by rewrite <- !app_assoc|done|by rewrite <- app_assoc|done|simpl in Hf; lia|].
    exists h', o', s'. split; [done|]. unfold s_move in Hholds. by rewrite <- app_assoc in Hholds.
  - assert (~ is_Some (get_key kvs (key x))) as Hnin by (rewrite <- not_eq_None_Some; intros H; by apply H, get_key_None).
    rewrite decide_True by done. rewrite decide_False by done.
    destruct (transfer_ok s h l kvs o a e c ka x kc' (key x) Hh Ho Hd Hlen Hok Hx) as (o1 & s1 & h1 & s2 & Hun & Hli & Hh2 & Ho2 & Hd2 & Hok2);
      [apply compare_refl|done|].
    rewrite (bind_Some _ _ _ _ _ Hun), (bind_Some _ _ _ _ _ Hli).
    destruct (IH s2 h1 (l ++ [e]) (kvs ++ [kv_of x]) o1 a c ka kc') as (h' & o' & s' & Hloop & Hholds); [done..|simpl in Hf; lia|].
    exists h', o', s'. split; [done|].
    assert (forall kv, kv ∈ kc' -> is_Some (get_key (kvs ++ [kv_of x]) kv.1) <-> is_Some (get_key kvs kv.1)) as Hiff.
    { intros kv Hkv. apply get_key_snoc. intros Hs.
      pose proof (distinct_middle _ _ _ _ (rep_distinct _ _ _ _ Ho) (compare_refl (key x))) as Hdm.
      rewrite Forall_forall in Hdm. apply (Hdm kv); [set_solver|]. by apply compare_sym. }
    assert (filter (fun kv => ~ is_Some (get_key (kvs ++ [kv_of x]) kv.1)) kc' = filter (fun kv => ~ is_Some (get_key kvs kv.1)) kc' /\
      filter (fun kv => is_Some (get_key (kvs ++ [kv_of x]) kv.1)) kc' = filter (fun kv => is_Some (get_key kvs kv.1)) kc') as [E1 E2].
    { split; apply filter_ext_on; intros kv Hkv; by rewrite Hiff. }
    unfold s_move in Hholds. rewrite E1, E2 in Hholds. simpl in *. by rewrite <- app_assoc in Hholds.
Qed.
Lemma move_ok s h kvs o kvo :
  holds s h kvs o kvo ->
  exists h' o' s', hashmap_move h (Some o) s = Some ((h', Some o'), s') /\ holds s' h' (s_move kvs kvo).1 o' (s_move kvs kvo).2.
Proof using All.
  intros [(l & lo & Hh & Ho & Hd) Hok]. unfold hashmap_move, bound. erewrite (bind_Some (A := nat)); [|done].
  assert (iterate_list_head o = head lo) as -> by apply (rep_iter _ _ _ _ Ho).
  destruct (move_loop_ok (S (size (mem s))) s h l kvs o [] lo [] kvo Hh Ho eq_refl Hd Hok) as (h' & o' & s' & Heq & Hholds).
  { pose proof (rep_size _ _ _ _ Ho). lia. }
  exists h', o', s'. by rewrite (bind_Some _ _ _ _ _ Heq).
Qed.

Definition s_move_one kvs kvo k : Z * (list (K * V) * list (K * V)) :=
  match get_key kvs k, get_key kvo k with
  | Some _, _ => (- EEXIST, (kvs, kvo))
  | None, None => (- ENOENT, (kvs, kvo))
  | None, Some kv => (0, (kvs ++ [kv], drop_key kvo k))
  end.
Lemma move_one_ok s h kvs o kvo k :
  holds s h kvs o kvo ->
  exists h' o' s', hashmap_move_one h (Some o) k s = Some (((s_move_one kvs kvo k).1, h', Some o'), s') /\
    holds s' h' (s_move_one kvs kvo k).2.1 o' (s_move_one kvs kvo k).2.2.
Proof using All.
  intros [(l & lo & Hh & Ho & Hd) Hok]. destruct (hash_scan_cases s h l kvs k Hh) as (r & Hr & Hsc).
  unfold hashmap_move_one, s_move_one, get_key. rewrite (bind_Some _ _ _ _ _ Hr).
  destruct Hsc as [? ? ? ? ? ? _ _ _ _ _ Hfind _ _|Hnew Hfind _ _]; rewrite Hfind; simpl.
  { exists h, o, s. split; [done|]. split; [by exists l, lo|done]. }
  destruct (hash_scan_cases s o lo kvo k Ho) as (r' & Hr' & Hsc'). rewrite (bind_Some _ _ _ _ _ Hr').
  destruct Hsc' as [a e c ka x kc -> -> Hlen Hx Hs Hfind' Hdrop _|_ Hfind' _ _]; rewrite Hfind'; simpl.
  2: { exists h, o, s. split; [done|]. split; [by exists l, lo|done]. }
  destruct (transfer_ok s h l kvs o a e c ka x kc k Hh Ho Hd Hlen Hok Hx) as (o1 & s1 & h1 & s2 & Hun & Hli & Hh2 & Ho2 & Hd2 & Hok2).
  { by apply compare_sym. }
  { eapply Forall_impl; [exact Hnew|]. intros kv Hn Hs'. apply Hn. by eapply compare_trans. }
  exists h1, o1, s2. rewrite (bind_Some _ _ _ _ _ Hun), (bind_Some _ _ _ _ _ Hli), Hdrop. split; [done|].
  split; [by exists (l ++ [e]), (a ++ c)|done].
Qed.

Lemma hashmap_new_ok s : store_ok s ->
  exists h s', hashmap_new random s = Some (h, s') /\ rep (mem s') h [] [] /\ store_ok s' /\ mem s' = mem s.
Proof.
  intros Hok. unfold hashmap_new.
  assert (exists (k : bytes) s1, get_hash_key random true s = Some (k, s1) /\ mem s1 = mem s /\ entry_pools s1 = entry_pools s) as (k & s1 & Hk & Hm & Hp).
  { unfold get_hash_key. destruct s as [? ? [cur|] ?]; by eexists _, _. }
  eexists _, s1. rewrite (bind_Some _ _ _ _ _ Hk). split; [done|]. split_and!; [|destruct Hok; constructor; rewrite ?Hp, ?Hm; done|done].
  constructor; try done.
  - split; [apply dll_nil|]. split_and!; [constructor|done..|set_solver].
  - eapply buckets_ok_ext; [|apply buckets_empty]. set_solver.
Qed.
Lemma copy_ok s h l kvs :
  rep (mem s) h l kvs -> store_ok s ->
  exists c lc s', hashmap_copy random h s = Some (c, s') /\ post s [] s' c lc (s_merge [] kvs).
Proof using KL.
  intros Hrep Hok. destruct (hashmap_new_ok s Hok) as (c & s1 & Hnew & Hc & Hok1 & Hm). unfold hashmap_copy.
  rewrite (bind_Some _ _ _ _ _ Hnew). rewrite <- Hm in Hrep.
  destruct (merge_ok s1 c [] [] h l kvs Hc Hrep) as (c' & lc & s' & Heq & Hpost); [set_solver|done|].
  exists c', lc, s'. rewrite (bind_Some _ _ _ _ _ Heq). split; [done|]. destruct Hpost as (H1 & H2 & H3). rewrite Hm in H3. by split_and!.
Qed.

(** * Programs of two tables *)

(** What a program can do with a table; [Swap] exchanges the two tables in
    what follows, and [Copy] makes the other table a copy of the first. *)
Inductive op :=
  | Put (k : K) (v : V) | Replace (k : K) (v : V) | Update (k : K) (v : V)
  | Get (k : K) | Get2 (k : K) | Contains (k : K) | Next (k : K)
  | Remove (k : K) | Remove2 (k : K) | Remove_value (k : K) (v : V)
  | Remove_and_put (old new : K) (v : V) | Remove_and_replace (old new : K) (v : V)
  | Steal_first | Steal_first_key | First | First_key | Last | Size | Isempty
  | Clear | Clear_free | Clear_free_free | Foreach | Foreach_backwards | Get_strv
  | Merge | Move | Move_one (k : K) | Copy | Swap.
Inductive result :=
  | R_int (r : Z) | R_bool (b : bool) | R_key (k : option K) | R_value (v : option V) | R_pair (kv : option (K * V))
  | R_values (vs : list V) | R_pairs (kvs : list (K * V)) | R_done.

Definition exec (o : op) (t : hashmap * hashmap) : M (result * (hashmap * hashmap)) :=
  let '(h, other) := t in
  match o with
  | Put k v => '(r, h) ← hashmap_put random h k v; mret (R_int r, (h, other))
  | Replace k v => '(r, h) ← hashmap_replace random h k v; mret (R_int r, (h, other))
  | Update k v => r ← hashmap_update h k v; mret (R_int r, t)
  | Get k => r ← hashmap_get (Some h) k; mret (R_value r, t)
  | Get2 k => r ← hashmap_get2 (Some h) k; mret (R_pair r, t)
  | Contains k => r ← hashmap_contains (Some h) k; mret (R_bool r, t)
  | Next k => r ← hashmap_next h k; mret (R_value r, t)
  | Remove k => '(r, h) ← hashmap_remove h k; mret (R_value r, (h, other))
  | Remove2 k => '(r, h) ← hashmap_remove2 h k; mret (R_pair r, (h, other))
  | Remove_value k v => '(r, h) ← hashmap_remove_value h k v; mret (R_value r, (h, other))
  | Remove_and_put old new v => '(r, h) ← hashmap_remove_and_put h old new v; mret (R_int r, (h, other))
  | Remove_and_replace old new v => '(r, h) ← hashmap_remove_and_replace h old new v; mret (R_int r, (h, other))
  | Steal_first => '(r, h) ← hashmap_steal_first h; mret (R_value r, (h, other))
  | Steal_first_key => '(r, h) ← hashmap_steal_first_key h; mret (R_key r, (h, other))
  | First => r ← hashmap_first (Some h); mret (R_value r, t)
  | First_key => r ← hashmap_first_key (Some h); mret (R_key r, t)
  | Last => r ← hashmap_last (Some h); mret (R_value r, t)
  | Size => mret (R_int (hashmap_size (Some h)), t)
  | Isempty => mret (R_bool (hashmap_isempty (Some h)), t)
  | Clear => h ← hashmap_clear h; mret (R_done, (h, other))
  | Clear_free => '(r, h) ← hashmap_clear_free h; mret (R_values r, (h, other))
  | Clear_free_free => '(r, h) ← hashmap_clear_free_free h; mret (R_pairs r, (h, other))
  | Foreach => r ← HASHMAP_FOREACH_KEY (Some h); mret (R_pairs r, t)
  | Foreach_backwards => r ← HASHMAP_FOREACH_BACKWARDS (Some h); mret (R_pairs r, t)
  | Get_strv => r ← hashmap_get_strv h; mret (R_values r, t)
  | Merge => '(r, h) ← hashmap_merge random h (Some other); mret (R_int r, (h, other))
  | Move => '(h, other') ← hashmap_move h (Some other); mret (R_done, (h, default other other'))
  | Move_one k => '(r, h, other') ← hashmap_move_one h (Some other) k; mret (R_int r, (h, default other other'))
  | Copy => copy ← hashmap_copy random h; mret (R_done, (h, copy))
  | Swap => mret (R_done, (other, h))
  end.
(** The same on association lists. *)
Definition spec (o : op) (t : list (K * V) * list (K * V)) : result * (list (K * V) * list (K * V)) :=
  let '(kvs, other) := t in
  match o with
  | Put k v => let '(r, kvs) := s_put kvs k v in (R_int r, (kvs, other))
  | Replace k v => let '(r, kvs) := s_replace kvs k v in (R_int r, (kvs, other))
  | Update k v => let '(r, kvs) := s_update kvs k v in (R_int r, (kvs, other))
  | Get k => (R_value (snd <$> get_key kvs k), t)
  | Get2 k => (R_pair (get_key kvs k), t)
  | Contains k => (R_bool (bool_decide (is_Some (get_key kvs k))), t)
  | Next k => (R_value (s_next kvs k), t)
  | Remove k => let '(r, kvs) := s_remove kvs k in (R_value (snd <$> r), (kvs, other))
  | Remove2 k => let '(r, kvs) := s_remove kvs k in (R_pair r, (kvs, other))
  | Remove_value k v => let '(r, kvs) := s_remove_value kvs k v in (R_value r, (kvs, other))
  | Remove_and_put old new v => let '(r, kvs) := s_remove_and_put kvs old new v in (R_int r, (kvs, other))
  | Remove_and_replace old new v => let '(r, kvs) := s_remove_and_replace kvs old new v in (R_int r, (kvs, other))
  | Steal_first => let '(r, kvs) := s_steal_first kvs in (R_value (snd <$> r), (kvs, other))
  | Steal_first_key => let '(r, kvs) := s_steal_first kvs in (R_key (fst <$> r), (kvs, other))
  | First => (R_value (snd <$> head kvs), t)
  | First_key => (R_key (fst <$> head kvs), t)
  | Last => (R_value (snd <$> last kvs), t)
  | Size => (R_int (u32 (Z.of_nat (length kvs))), t)
  | Isempty => (R_bool (u32 (Z.of_nat (length kvs)) =? 0), t)
  | Clear => (R_done, ([], other))
  | Clear_free => (R_values kvs.*2, ([], other))
  | Clear_free_free => (R_pairs kvs, ([], other))
  | Foreach => (R_pairs kvs, t)
  | Foreach_backwards => (R_pairs (reverse kvs), t)
  | Get_strv => (R_values kvs.*2, t)
  | Merge => (R_int 0, (s_merge kvs other, other))
  | Move => (R_done, s_move kvs other)
  | Move_one k => let '(r, t) := s_move_one kvs other k in (R_int r, t)
  | Copy => (R_done, (kvs, s_merge [] kvs))
  | Swap => (R_done, (other, kvs))
  end.

Fixpoint exec_all (ops : list op) (t : hashmap * hashmap) : M (list result) :=
  match ops with
  | [] => mret []
  | o :: ops' => '(r, t) ← exec o t; rs ← exec_all ops' t; mret (r :: rs)
  end.
Fixpoint spec_all (ops : list op) (t : list (K * V) * list (K * V)) : list result :=
  match ops with [] => [] | o :: ops' => let '(r, t) := spec o t in r :: spec_all ops' t end.
Definition empty_store : store K V := mk_store K V ∅ (mk_pools [] []) None 0.
(** Two new tables, and the operations. *)
Definition program (ops : list op) : M (list result) :=
  h ← hashmap_new random; other ← hashmap_new random; exec_all ops (h, other).

Definition simulated (s : store K V) (kvs other : list (K * V)) (m : option (result * (hashmap * hashmap) * store K V))
    (r : result * (list (K * V) * list (K * V))) : Prop :=
  exists h' o' s', m = Some ((r.1, (h', o')), s') /\ holds s' h' r.2.1 o' r.2.2.
(** An operation with the result [Heq], by the case [H]. *)
Ltac changed H Heq Hp := rewrite (bind_Some _ _ _ _ _ Heq); (eapply H; [reflexivity|exact Hp]).
Ltac unchanged H Heq := rewrite (bind_Some _ _ _ _ _ Heq); by apply H.
Lemma exec_ok o s h kvs other kvo :
  holds s h kvs other kvo -> simulated s kvs kvo (exec o (h, other) s) (spec o (kvs, kvo)).
Proof using All.
  intros Hh. pose proof Hh as [(l & lo & Hl & Ho & Hd) Hok].
  assert (forall h' l' s' kvs' r (m : option (result * (hashmap * hashmap) * store K V)),
    m = Some ((r, (h', other)), s') -> post s l s' h' l' kvs' -> simulated s kvs kvo m (r, (kvs', kvo))) as Hone.
  { intros h' l' s' kvs' r m -> Hp. exists h', other, s'. split; [done|].
    exact (post_holds _ _ _ _ _ _ _ _ _ _ _ Hl Ho Hd Hp). }
  assert (forall r (m : option (result * (hashmap * hashmap) * store K V)),
    m = Some ((r, (h, other)), s) -> simulated s kvs kvo m (r, (kvs, kvo))) as Hread.
  { intros r m ->. by exists h, other, s. }
  destruct o; unfold exec, spec.
  - destruct (put_ok s h l kvs k v Hl Hok) as (h' & l' & s' & Heq & Hp). destruct (s_put kvs k v). changed Hone Heq Hp.
  - destruct (replace_ok s h l kvs k v Hl Hok) as (h' & l' & s' & Heq & Hp). destruct (s_replace kvs k v). changed Hone Heq Hp.
  - destruct (update_ok s h l kvs k v Hl Hok) as (s' & Heq & Hp). destruct (s_update kvs k v). changed Hone Heq Hp.
  - unchanged Hread (get_ok s h l kvs k Hl).
  - unchanged Hread (get2_ok s h l kvs k Hl).
  - unchanged Hread (contains_ok s h l kvs k Hl).
  - unchanged Hread (next_ok s h l kvs k Hl).
  - destruct (remove_ok s h l kvs k Hl Hok) as (h' & l' & s' & Heq & Hp). destruct (s_remove kvs k). changed Hone Heq Hp.
  - destruct (remove2_ok s h l kvs k Hl Hok) as (h' & l' & s' & Heq & Hp). destruct (s_remove kvs k). changed Hone Heq Hp.
  - destruct (remove_value_ok s h l kvs k v Hl Hok) as (h' & l' & s' & Heq & Hp). destruct (s_remove_value kvs k v). changed Hone Heq Hp.
  - destruct (remove_and_put_ok s h l kvs old new v Hl Hok) as (h' & l' & s' & Heq & Hp). destruct (s_remove_and_put kvs old new v). changed Hone Heq Hp.
  - destruct (remove_and_replace_ok s h l kvs old new v Hl Hok) as (h' & l' & s' & Heq & Hp). destruct (s_remove_and_replace kvs old new v). changed Hone Heq Hp.
  - destruct (steal_first_ok s h l kvs Hl Hok) as (h' & l' & s' & Heq & _ & Hp). destruct (s_steal_first kvs). changed Hone Heq Hp.
  - destruct (steal_first_ok s h l kvs Hl Hok) as (h' & l' & s' & _ & Heq & Hp). destruct (s_steal_first kvs). changed Hone Heq Hp.
  - unchanged Hread (proj1 (first_last_ok s h l kvs Hl)).
  - unchanged Hread (proj1 (proj2 (first_last_ok s h l kvs Hl))).
  - unchanged Hread (proj2 (proj2 (first_last_ok s h l kvs Hl))).
  - apply Hread. simpl. by rewrite (rep_entries _ _ _ _ Hl).
  - apply Hread. simpl. by rewrite (rep_entries _ _ _ _ Hl).
  - destruct (clear_ok s h l kvs Hl Hok) as (h' & s' & Heq & Hp). changed Hone Heq Hp.
  - destruct (clear_free_ok s h l kvs Hl Hok) as (h' & s' & Heq & Hp). changed Hone Heq Hp.
  - destruct (clear_free_free_ok s h l kvs Hl Hok) as (h' & s' & Heq & Hp). changed Hone Heq Hp.
  - unchanged Hread (foreach_key_ok s h l kvs Hl).
  - unchanged Hread (foreach_backwards_ok s h l kvs Hl).
  - unfold hashmap_get_strv. erewrite bind_Some; [|by rewrite (bind_Some _ _ _ _ _ (foreach_key_ok s h l kvs Hl))]. by apply Hread.
  - destruct (merge_ok s h l kvs other lo kvo Hl Ho Hd Hok) as (h' & l' & s' & Heq & Hp). changed Hone Heq Hp.
  - destruct (move_ok s h kvs other kvo Hh) as (h' & o' & s' & Heq & Hp). rewrite (bind_Some _ _ _ _ _ Heq). by exists h', o', s'.
  - destruct (move_one_ok s h kvs other kvo k Hh) as (h' & o' & s' & Heq & Hp). rewrite (bind_Some _ _ _ _ _ Heq).
    exists h', o', s'. by destruct (s_move_one kvs kvo k).
  - destruct (copy_ok s h l kvs Hl Hok) as (c & lc & s' & Heq & Hp). rewrite (bind_Some _ _ _ _ _ Heq). exists h, c, s'. split; [done|].
    destruct (post_other _ _ _ _ _ _ _ _ _ Hp Hl) as [Hl' Hd']; [set_solver|]. destruct Hp as (Hp & Hok' & _).
    split; [|done]. exists l, lc. split_and!; [done..|]. intros p H1 H2. by apply (Hd' p).
  - exists other, h, s. split; [done|]. by apply holds_sym.
Qed.
Lemma exec_all_ok ops s h kvs other kvo :
  holds s h kvs other kvo -> exists s', exec_all ops (h, other) s = Some (spec_all ops (kvs, kvo), s').
Proof using All.
  revert s h kvs other kvo. induction ops as [|o ops IH]; intros s h kvs other kvo Hh; [by exists s|].
  destruct (exec_ok o s h kvs other kvo Hh) as (h' & o' & s1 & Heq & Hh'). cbn [exec_all spec_all].
  rewrite (bind_Some _ _ _ _ _ Heq). destruct (spec o (kvs, kvo)) as [r [kvs' kvo']]. destruct (IH s1 h' kvs' o' kvo' Hh') as (s' & Heq').
  exists s'. by rewrite (bind_Some _ _ _ _ _ Heq').
Qed.

(** C23: Whatever is done with two hash tables, in any order, gives the results
    of the same operations on association lists that keep the order of
    insertion: every key is found, the iteration has every entry once and in
    order, and no pointer to a free entry is followed, whatever keys the
    tables get when they grow. *)
Theorem hashmap_refines (ops : list op) : exists s', program ops empty_store = Some (spec_all ops ([], []), s').
Proof using All.
  assert (store_ok empty_store) as Hok.
  { constructor; simpl; [intros p [x Hx]; by rewrite lookup_empty in Hx|set_solver|constructor|constructor]. }
  unfold program. destruct (hashmap_new_ok empty_store Hok) as (h & s1 & Hh & Hr & Hok1 & Hm1). rewrite (bind_Some _ _ _ _ _ Hh).
  destruct (hashmap_new_ok s1 Hok1) as (o & s2 & Ho & Hr2 & Hok2 & Hm2). rewrite (bind_Some _ _ _ _ _ Ho).
  apply exec_all_ok. split; [|done]. exists [], []. split_and!; [by rewrite Hm2|done|set_solver].
Qed.
End props.

(** * The functions for keys *)

Lemma le_val_range (l : bytes) : 0 <= le_val l.
Proof. induction l as [|c l IH]; simpl; [done|]. pose proof (code_range c). lia. Qed.
#[export] Instance string_laws : KeyLaws bytes.
Proof.
  assert (forall a b, string_compare_func a b = 0 <-> a = b) as H.
  { intros a b. unfold string_compare_func. destruct (strcmp a b) eqn:E.
    - apply strcmp_eq in E. naive_solver.
    - split; [done|]. intros ->. by rewrite strcmp_refl in E.
    - split; [done|]. intros ->. by rewrite strcmp_refl in E. }
  constructor; simpl; intros *; rewrite ?H; try naive_solver; apply le_val_range.
Qed.
Lemma compare_numbers a b : (if a <? b then -1 else if b <? a then 1 else 0) = 0 <-> a = b.
Proof. destruct (Z.ltb_spec a b), (Z.ltb_spec b a); lia. Qed.
#[export] Instance trivial_laws : KeyLaws Z.
Proof. constructor; simpl; unfold trivial_compare_func; intros *; rewrite ?compare_numbers; try naive_solver; apply le_val_range. Qed.
Lemma uint64_laws : @KeyLaws Z uint64_ops.
Proof. constructor; simpl; unfold uint64_compare_func; intros *; rewrite ?compare_numbers; try naive_solver; apply le_val_range. Qed.

(** ** Examples *)

Definition draws (n : nat) : bytes := replicate HASH_KEY_SIZE (chr (Z.of_nat n)).
(** 30 keys make the table grow; the other table takes one of them. *)
Definition sample : list (@op bytes Z) :=
  ((fun i => Put (("key" : bytes) ++ [chr (65 + i)]) i) <$> seqZ 0 30) ++
  [Put ("keyB" : bytes) 7; Get ("keyC" : bytes); Remove ("keyA" : bytes); Replace ("keyD" : bytes) 33; Steal_first; Remove_and_put ("keyC" : bytes) ("new" : bytes) 5; Size;
   Swap; Put ("keyE" : bytes) 1; Move_one ("keyF" : bytes); Move; Foreach; Swap; Foreach_backwards].
Definition sample_results : list (@result bytes Z) := Eval vm_compute in drop 30 (spec_all sample ([], [])).
Example sample_runs : drop 30 <$> (fst <$> program draws sample empty_store) = Some sample_results.
Proof. by vm_compute. Qed.
(** The second table got the 26 entries that are left, but for the two it had;
    what stays is [keyE]. *)
Lemma hashmap_refines_witness :
  exists s', program draws sample empty_store = Some (replicate 30 (R_int 1) ++ sample_results, s') /\
    nth 13 sample_results R_done = R_pairs [("keyE" : bytes, 4)].
Proof.
  assert (spec_all sample ([], []) = replicate 30 (R_int 1) ++ sample_results) as H by (by vm_compute). rewrite <- H.
  destruct (hashmap_refines draws sample) as [s' Hs]. exists s'. split; [exact Hs|by vm_compute].
Defined.
End HashmapProps.
