(* ===== verification/ConfFiles.v ===== *)
(** The lists of configuration files: shared/conf-files.c with the string
    vectors of shared/strv.c and the paths of shared/path-util.c.  The rules
    and the sources of the hardware database are found with it: a file hides
    the files of the same name in later directories. *)

From Stdlib Require Import ZArith Lia Ascii.
From stdpp Require Import prelude gmap strings sorting.
From S2P Require Import Prelude System Strbuf Device DeviceProps Hashmap HashmapLists HashmapProps.
Import Device DeviceProps Hashmap HashmapLists HashmapProps.

#[local] Set Warnings "-register-all".

Module ConfFiles.

(** * String vectors *)

Definition strv_isempty (l : list bytes) : bool := match l with [] => true | _ => false end.
Fixpoint strv_remove (l : list bytes) (s : bytes) : list bytes :=
  match l with
  | [] => []
  | f :: l' => if bool_decide (f = s) then strv_remove l' s else f :: strv_remove l' s
  end.
(** Every string is removed from what follows it. *)
Fixpoint strv_uniq_loop (fuel : nat) (l : list bytes) : list bytes :=
  match l, fuel with
  | i :: l', S fuel' => i :: strv_uniq_loop fuel' (strv_remove l' i)
  | _, _ => []
  end.
Definition strv_uniq (l : list bytes) : list bytes := strv_uniq_loop (length l) l.

Lemma strv_remove_filter l s : strv_remove l s = filter (fun x => x <> s) l.
Proof.
  induction l as [|x l IH]; [done|]. simpl. rewrite filter_cons, IH.
  case_bool_decide; case_decide; naive_solver.
Qed.
(** Every string is there once. *)
Lemma strv_uniq_loop_ok fuel l : (length l <= fuel)%nat -> NoDup (strv_uniq_loop fuel l) /\ forall x, x ∈ strv_uniq_loop fuel l <-> x ∈ l.
Proof.
  revert l. induction fuel as [|fuel IH]; intros [|i l] Hf; try (simpl in Hf; lia); try (split; [constructor|set_solver]).
  simpl. rewrite strv_remove_filter. destruct (IH (filter (fun x => x <> i) l)) as [Hnd He].
  { pose proof (length_filter (fun x => x <> i) l). simpl in Hf. lia. }
  split.
  - constructor; [|done]. rewrite He, list_elem_of_filter. tauto.
  - intros x. rewrite !elem_of_cons, He, list_elem_of_filter. destruct (decide (x = i)); tauto.
Qed.
Lemma strv_uniq_ok l : NoDup (strv_uniq l) /\ forall x, x ∈ strv_uniq l <-> x ∈ l.
Proof. by apply strv_uniq_loop_ok. Qed.

(** * Paths *)

Definition slash : byte := "/"%char.
Definition path_is_absolute (p : bytes) : bool := match p with c :: _ => c ==c slash | [] => false end.
Definition path_make_absolute (p : bytes) (prefix : option bytes) : bytes :=
  match prefix with
  | Some prefix => if path_is_absolute p then p else prefix ++ slash :: p
  | None => p
  end.
Definition path_make_absolute_cwd (cwd : option bytes) (p : bytes) : option bytes :=
  if path_is_absolute p then Some p else (fun cwd => path_make_absolute p (Some cwd)) <$> cwd.

(** [strspn] and [strcspn] of slashes: what follows them, and what is in front
    of the next slash with what follows. *)
Fixpoint skip_slashes (p : bytes) : bytes :=
  match p with
  | c :: p' => if c ==c slash then skip_slashes p' else p
  | [] => []
  end.
Fixpoint component (p : bytes) : bytes * bytes :=
  match p with
  | c :: p' => if c ==c slash then ([], p) else let '(a, r) := component p' in (c :: a, r)
  | [] => ([], [])
  end.
Fixpoint startswith_loop (fuel : nat) (path prefix : bytes) : option bytes :=
  let path := skip_slashes path in
  let prefix := skip_slashes prefix in
  match prefix, path with
  | [], _ => Some path
  | _, [] => None
  | _, _ =>
      let '(a, path) := component path in
      let '(b, prefix) := component prefix in
      if bool_decide (a = b) then match fuel with O => None | S fuel' => startswith_loop fuel' path prefix end else None
  end.
(** What follows the prefix, without slashes in front. *)
Definition path_startswith (path prefix : bytes) : option bytes :=
  if Bool.eqb (path_is_absolute path) (path_is_absolute prefix) then startswith_loop (length prefix) path prefix else None.

(** ** Prefixes of paths are prefixes of their components *)

Fixpoint components (p : bytes) : list bytes :=
  match p with
  | [] => []
  | c :: p' =>
      if c ==c slash then components p'
      else if match p' with d :: _ => d ==c slash | [] => true end then [c] :: components p'
      else match components p' with a :: l => (c :: a) :: l | [] => [[c]] end
  end.
Lemma components_skip p : components (skip_slashes p) = components p.
Proof. induction p as [|c p IH]; [done|]. simpl. destruct (eqbP c slash) as [->|Hc]; [done|]. simpl. by destruct (eqbP c slash). Qed.
Lemma skip_head p : match skip_slashes p with c :: _ => c <> slash | [] => True end.
Proof. induction p as [|c p IH]; [done|]. simpl. by destruct (eqbP c slash). Qed.
Lemma skip_suffix p : skip_slashes p `suffix_of` p.
Proof. induction p as [|c p IH]; [done|]. simpl. destruct (c ==c slash); [by apply suffix_cons_r|done]. Qed.
Lemma component_app p : p = fst (component p) ++ snd (component p).
Proof. induction p as [|c p IH]; [done|]. simpl. destruct (c ==c slash); [done|]. destruct (component p). simpl in *. by f_equal. Qed.
Lemma components_cons c p : c <> slash -> components (c :: p) = fst (component (c :: p)) :: components (snd (component (c :: p))).
Proof.
  revert c. induction p as [|d p IH]; intros c Hc; [simpl; by destruct (eqbP c slash)|].
  cbn [components component]. destruct (eqbP c slash); [done|]. destruct (eqbP d slash) as [->|Hd].
  - done.
  - pose proof (IH d Hd) as IHd. cbn [components component] in IHd. destruct (eqbP d slash); [done|].
    destruct (component p) as [a r]. cbn [fst snd] in *. by rewrite IHd.
Qed.
Lemma component_nonempty c p : c <> slash -> exists a, fst (component (c :: p)) = c :: a.
Proof. intros Hc. simpl. destruct (eqbP c slash); [done|]. destruct (component p). by eexists. Qed.

Lemma startswith_loop_ok fuel path prefix :
  (length prefix <= fuel)%nat ->
  match startswith_loop fuel path prefix with
  | Some x => components path = components prefix ++ components x /\ x `suffix_of` path /\ skip_slashes x = x
  | None => ~ components prefix `prefix_of` components path
  end.
Proof.
  revert path prefix. induction fuel as [|fuel IH]; intros path prefix Hf;
    rewrite <- (components_skip path), <- (components_skip prefix); cbn [startswith_loop];
    pose proof (skip_suffix path) as Hps; pose proof (skip_suffix prefix) as Hfs;
    pose proof (skip_head path) as Hp; pose proof (skip_head prefix) as Hpre.
  1: destruct prefix; [|simpl in Hf; lia].
  all: assert (skip_slashes (skip_slashes path) = skip_slashes path) as Hss
         by (destruct (skip_slashes path) as [|c ?]; [done|]; simpl; by destruct (eqbP c slash)).
  1: by split_and!.
  apply suffix_length in Hfs. destruct (skip_slashes prefix) as [|b pre]; [by split_and!|].
  rewrite (components_cons b) by done. destruct (skip_slashes path) as [|a pat].
  - simpl. intros ?%prefix_nil_inv. done.
  - rewrite (components_cons a) by done. pose proof (component_app (a :: pat)) as Ea. pose proof (component_app (b :: pre)) as Eb.
    destruct (component_nonempty b pre Hpre) as [b' Hb]. destruct (component (a :: pat)) as [x r], (component (b :: pre)) as [y q]. cbn [fst snd] in *.
    case_bool_decide as Hxy; [|intros Hpr; by apply prefix_cons_inv_1 in Hpr]. rewrite <- Hxy in *. clear Hxy y.
    assert (length q <= fuel)%nat as Hq by (apply (f_equal length) in Eb; rewrite length_app, Hb in Eb; simpl in Eb, Hfs; lia).
    specialize (IH r q Hq). destruct (startswith_loop fuel r q) as [z|].
    + destruct IH as (Hc & Hs & Hz). rewrite Hc. split_and!; [done| |done]. etrans; [exact Hs|]. etrans; [|exact Hps].
      exists x. exact Ea.
    + intros Hpr. by apply prefix_cons_inv_2 in Hpr.
Qed.
(** With a relative path of neither or of both, the prefix is one of
    components, and what is returned are the components that follow. *)
Lemma path_startswith_components path prefix :
  path_is_absolute path = path_is_absolute prefix ->
  match path_startswith path prefix with
  | Some x => components path = components prefix ++ components x /\ x `suffix_of` path
  | None => ~ components prefix `prefix_of` components path
  end.
Proof.
  intros He. unfold path_startswith. rewrite He, eqb_reflx. pose proof (startswith_loop_ok (length prefix) path prefix ltac:(done)) as H.
  destruct (startswith_loop _ _ _); [|done]. by destruct H as (? & ? & _).
Qed.

(** [realpath] of the C library, which canonicalize_file_name calls: an error
    number or a path. *)
Class RealPath := canonicalize_file_name : bytes -> Z + bytes.

Section canonicalize.
Context `{RealPath}.
Definition ENOMEM : Z := Strbuf.ENOMEM.

(** One directory: whether memory was short, and the string that replaces it.
    What is canonical is kept below the prefix. *)
Definition canonicalize_item (prefix : option bytes) (s : bytes) : bool * option bytes :=
  if negb (path_is_absolute s) then (false, None)
  else
    let t := default [] prefix ++ s in
    match canonicalize_file_name t with
    | inl e =>
        if e =? ENOENT then (false, Some s)
        else ((e =? ENOMEM) || (e =? 0), None)
    | inr u =>
        match prefix with
        | None => (false, Some u)
        | Some p =>
            match path_startswith u p with
            | Some x => (false, Some (match startswith x "/" with Some _ => x | None => slash :: x end))
            | None => (false, Some s)
            end
        end
    end.
Definition path_strv_canonicalize_absolute (l : list bytes) (prefix : option bytes) : option (list bytes) :=
  if strv_isempty l then Some l
  else
    let items := canonicalize_item prefix <$> l in
    if existsb fst items then None else Some (omap snd items).
Definition path_strv_canonicalize_absolute_uniq (l : list bytes) (prefix : option bytes) : option (list bytes) :=
  if strv_isempty l then Some l else strv_uniq <$> path_strv_canonicalize_absolute l prefix.
End canonicalize.

(** [stat]: the modification time in seconds and nanoseconds. *)
Definition timespec_load (ts : Z * Z) : Z :=
  let '(sec, nsec) := ts in
  if (sec =? -1) && (nsec =? -1) then 2 ^ 64 - 1
  else if u64 (2 ^ 64 - 1 - nsec `quot` 1000) `div` 1000000 <? u64 sec then 2 ^ 64 - 1
  else u64 (u64 sec * 1000000 + u64 nsec `div` 1000).
Fixpoint check_loop (stat : bytes -> option (Z * Z)) (paths : list bytes) (timestamp : Z) (update changed : bool) : bool * Z :=
  match paths with
  | [] => (changed, timestamp)
  | i :: paths' =>
      match stat i with
      | None => check_loop stat paths' timestamp update changed
      | Some st =>
          let u := timespec_load st in
          if u <=? timestamp then check_loop stat paths' timestamp update changed
          else if update then check_loop stat paths' u update true
          else (true, timestamp)
      end
  end.
Definition paths_check_timestamp (stat : bytes -> option (Z * Z)) (paths : option (list bytes)) (timestamp : Z) (update : bool) : bool * Z :=
  match paths with
  | None => (false, timestamp)
  | Some paths => check_loop stat paths timestamp update false
  end.

(** * The files of a directory (shared/util.c) *)

Definition endswith (s postfix : bytes) : option nat :=
  let sl := length s in
  let pl := length postfix in
  if Nat.eqb pl 0 then Some sl
  else if Nat.ltb sl pl then None
  else if bool_decide (drop (sl - pl) s = postfix) then Some (sl - pl)%nat else None.
Definition ignore_file_allow_backup (filename : bytes) : bool :=
  match filename with c :: _ => c ==c "."%char | [] => false end ||
  existsb (fun n : bytes => bool_decide (filename = n)) ["lost+found" : bytes; "aquota.user" : bytes; "aquota.group" : bytes] ||
  existsb (fun x : bytes => bool_decide (is_Some (endswith filename x)))
    [".rpmnew" : bytes; ".rpmsave" : bytes; ".rpmorig" : bytes; ".dpkg-old" : bytes; ".dpkg-new" : bytes; ".swp" : bytes].
(** [d_type] is one of the constants of <dirent.h>. *)
Inductive file_type := DT_UNKNOWN | DT_FIFO | DT_CHR | DT_DIR | DT_BLK | DT_REG | DT_LNK | DT_SOCK.
#[export] Instance file_type_eq : EqDecision file_type.
Proof. solve_decision. Defined.
Record dirent := mk_dirent { d_name : bytes; d_type : file_type }.
Definition dirent_is_file_with_suffix (de : dirent) (suffix : bytes) : bool :=
  if bool_decide (d_type de <> DT_REG /\ d_type de <> DT_LNK /\ d_type de <> DT_UNKNOWN) then false
  else if ignore_file_allow_backup (d_name de) then false
  else bool_decide (is_Some (endswith (d_name de) suffix)).
(** [basename] of <string.h>. *)
Definition basename (p : bytes) : bytes := match strrchr p slash with Some (_, b) => b | None => p end.

(** [opendir] and [readdir]: an error, or the entries and the error that ends
    them (0 at the end of the directory). *)
Class OpenDir := opendir : bytes -> Z + list dirent * Z.

(** * The files of all directories (shared/conf-files.c) *)

(** A string on the heap: the number of its allocation and its bytes. *)
Abbreviation str := (nat * bytes)%type.
Section files.
Context `{RealPath} `{OpenDir} (random : nat -> bytes).
#[local] Abbreviation M := (M bytes str).

(** [n] is the number of the next allocation. *)
Fixpoint files_add_loop (h : hashmap) (n : nat) (dirpath suffix : bytes) (des : list dirent) (err : Z) : M (Z * nat * hashmap) :=
  match des with
  | [] => mret (if err =? 0 then 0 else - err, n, h)
  | de :: des' =>
      if negb (dirent_is_file_with_suffix de suffix) then files_add_loop h n dirpath suffix des' err
      else
        let p := dirpath ++ slash :: d_name de in
        '(r, h) ← hashmap_put random h (basename p) (n, p);
        if (r <? 0) && negb (r =? - EEXIST) then mret (r, S n, h)
        else files_add_loop h (S n) dirpath suffix des' err
  end.
Definition files_add (h : hashmap) (n : nat) (dirpath suffix : bytes) : M (Z * nat * hashmap) :=
  match opendir dirpath with
  | inl e => mret (if e =? ENOENT then 0 else - e, n, h)
  | inr (des, err) => files_add_loop h n dirpath suffix des err
  end.
(** [base_cmp] is negative. *)
Definition base_cmp (a b : str) : bool := match strcmp (basename a.2) (basename b.2) with Lt => true | _ => false end.

Fixpoint dirs_loop (h : hashmap) (n : nat) (suffix : bytes) (dirs : list bytes) : M (Z * hashmap) :=
  match dirs with
  | [] => mret (0, h)
  | p :: dirs' =>
      '(r, n, h) ← files_add h n p suffix;
      if r =? - ENOMEM then hashmap_free_free (Some h) ;; mret (r, h)
      else dirs_loop h n suffix dirs'
  end.
(** The error number, or the files in the order of their names. *)
Definition conf_files_list_strv_internal (suffix : bytes) (root : option bytes) (dirs : list bytes) : M (Z + list bytes) :=
  match path_strv_canonicalize_absolute_uniq dirs root with
  | None => mret (inl (- ENOMEM))
  | Some dirs =>
      fh ← hashmap_new random;
      '(r, fh) ← dirs_loop fh 0 suffix dirs;
      if r <? 0 then mret (inl r)
      else
        files ← hashmap_get_strv fh;
        let size := Z.to_nat (hashmap_size (Some fh)) in
        let files := qsort base_cmp (take size files) ++ drop size files in
        hashmap_free (Some fh) ;;
        mret (inr files.*2)
  end.
Definition conf_files_list_strv (suffix : bytes) (root : option bytes) (dirs : list bytes) : M (Z + list bytes) :=
  conf_files_list_strv_internal suffix root dirs.
End files.

(** * What is listed *)

Lemma basename_join (dir name : bytes) : slash ∉ name -> basename (dir ++ slash :: name) = name.
Proof. intros H. unfold basename. by rewrite strrchr_dir. Qed.
Lemma same_string (a b : bytes) : compare_func a b = 0 <-> a = b.
Proof.
  simpl. unfold string_compare_func. destruct (strcmp a b) eqn:E.
  - apply strcmp_eq in E. naive_solver.
  - split; [done|]. intros ->. by rewrite strcmp_refl in E.
  - split; [done|]. intros ->. by rewrite strcmp_refl in E.
Qed.

Section proofs.
Context `{RealPath} `{OpenDir} (random : nat -> bytes).
Implicit Types (s : store bytes str) (h : hashmap) (kvs : list (bytes * str)) (n : nat).

(** The file [name] with the suffix is an entry of [dir]. *)
Definition listed (suffix dir name : bytes) : Prop :=
  exists des err d, opendir dir = inr (des, err) /\ d ∈ des /\ d_name d = name /\ dirent_is_file_with_suffix d suffix = true.
(** The names and paths of the files that are found, in the order of the search. *)
Definition dir_files (suffix dir : bytes) : list (bytes * bytes) :=
  match opendir dir with
  | inl _ => []
  | inr (des, _) => (fun d => (d_name d, dir ++ slash :: d_name d)) <$> filter (fun d => dirent_is_file_with_suffix d suffix = true) des
  end.
(** The table after these files: the first of a name stays. *)
Definition take_file (kvs : list (bytes * str)) (n : nat) (f : bytes * bytes) : list (bytes * str) :=
  if decide (f.1 ∈ kvs.*1) then kvs else kvs ++ [(f.1, (n, f.2))].
Fixpoint take_files kvs n (fs : list (bytes * bytes)) : list (bytes * str) :=
  match fs with [] => kvs | f :: fs' => take_files (take_file kvs n f) (S n) fs' end.

Definition numbers_below n kvs : Prop := Forall (fun kv => (kv.2.1 < n)%nat) kvs.
Lemma take_file_below n kvs f : numbers_below n kvs -> numbers_below (S n) (take_file kvs n f).
Proof.
  intros Hb. assert (numbers_below (S n) kvs) as Hb' by (eapply Forall_impl; [exact Hb|]; simpl; lia).
  unfold take_file. case_decide; [done|]. apply Forall_app. split; [done|]. repeat constructor.
Qed.
Lemma get_key_elem kvs k kv : get_key kvs k = Some kv -> kv ∈ kvs /\ kv.1 = k.
Proof.
  unfold get_key, find_key. destruct (list_find _ kvs) as [[i x]|] eqn:E; [|done]. intros [= <-].
  apply list_find_Some in E as (Hi & Hs & _). apply same_string in Hs. split; [by eapply list_elem_of_lookup_2|done].
Qed.
Lemma s_put_take n kvs (f : bytes * bytes) :
  numbers_below n kvs -> (s_put kvs f.1 (n, f.2)).2 = take_file kvs n f /\
    ((s_put kvs f.1 (n, f.2)).1 <? 0) && negb ((s_put kvs f.1 (n, f.2)).1 =? - EEXIST) = false.
Proof using.
  intros Hb. unfold s_put, take_file. destruct (get_key kvs f.1) as [kv|] eqn:E.
  - apply get_key_elem in E as [Hkv Hk]. rewrite decide_True by (rewrite <- Hk; by apply list_elem_of_fmap_2).
    rewrite bool_decide_false; [done|]. intros Hv. unfold numbers_below in Hb. rewrite Forall_forall in Hb. apply Hb in Hkv.
    rewrite Hv in Hkv. simpl in Hkv. lia.
  - rewrite decide_False; [done|]. apply get_key_None in E. rewrite Forall_forall in E.
    intros (kv & Hk & Hkv)%list_elem_of_fmap. apply (E kv Hkv). by apply same_string.
Qed.

Definition names_ok (dirs : list bytes) : Prop :=
  forall dir des err d, dir ∈ dirs -> opendir dir = inr (des, err) -> d ∈ des -> slash ∉ d_name d.

Lemma files_add_loop_ok suffix dir des err s h l kvs n :
  rep (mem s) h l kvs -> store_ok s -> numbers_below n kvs -> Forall (fun d => slash ∉ d_name d) des ->
  let fs := (fun d => (d_name d, dir ++ slash :: d_name d)) <$> filter (fun d => dirent_is_file_with_suffix d suffix = true) des in
  exists h' l' s', files_add_loop random h n dir suffix des err s = Some ((if err =? 0 then 0 else - err, (n + length fs)%nat, h'), s') /\
    rep (mem s') h' l' (take_files kvs n fs) /\ store_ok s' /\ numbers_below (n + length fs) (take_files kvs n fs).
Proof using.
  revert s h l kvs n. induction des as [|d des IH]; intros s h l kvs n Hrep Hok Hb Hn fs; subst fs.
  - simpl. rewrite Nat.add_0_r. by exists h, l, s.
  - apply Forall_cons in Hn as [Hd Hn]. cbn [files_add_loop]. rewrite filter_cons.
    destruct (dirent_is_file_with_suffix d suffix); cbn [negb]; [|rewrite decide_False by done; by eapply IH].
    rewrite decide_True by done. set (p := dir ++ slash :: d_name d) in *.
    assert (basename p = d_name d) as -> by by apply basename_join. destruct (put_ok random s h l kvs (d_name d) (n, p) Hrep Hok) as (h1 & l1 & s1 & Heq & Hpost).
    destruct (s_put_take n kvs (d_name d, p) Hb) as [Ht Hr]. cbn [fst snd] in Ht, Hr. rewrite Ht in Hpost.
    destruct (IH s1 h1 l1 (take_file kvs n (d_name d, p)) (S n)) as (h' & l' & s' & Heq' & Hrest);
      [apply Hpost|apply Hpost|by apply take_file_below|done|].
    exists h', l', s'. rewrite (bind_Some _ _ _ _ _ Heq). rewrite Hr, Heq'. simpl.
    rewrite Nat.add_succ_r. by split.
Qed.
Lemma files_add_ok suffix dir s h l kvs n :
  rep (mem s) h l kvs -> store_ok s -> numbers_below n kvs ->
  (forall des err d, opendir dir = inr (des, err) -> d ∈ des -> slash ∉ d_name d) ->
  exists r h' l' s', files_add random h n dir suffix s = Some ((r, (n + length (dir_files suffix dir))%nat, h'), s') /\
    rep (mem s') h' l' (take_files kvs n (dir_files suffix dir)) /\ store_ok s' /\
    numbers_below (n + length (dir_files suffix dir)) (take_files kvs n (dir_files suffix dir)) /\
    (r = - ENOMEM -> opendir dir = inl ENOMEM \/ exists des, opendir dir = inr (des, ENOMEM)).
Proof using.
  intros Hrep Hok Hb Hn. unfold files_add, dir_files. destruct (opendir dir) as [e|[des err]].
  - rewrite Nat.add_0_r. eexists _, h, l, s. split; [done|]. split_and!; [done..|].
    destruct (Z.eqb_spec e ENOENT); [done|]. intros He. left. f_equal. lia.
  - destruct (files_add_loop_ok suffix dir des err s h l kvs n Hrep Hok Hb) as (h' & l' & s' & Heq & Hr & Hok' & Hb').
    { apply Forall_forall. intros d Hd. by eapply Hn. }
    eexists _, h', l', s'. split; [exact Heq|]. split_and!; [done..|].
    destruct (Z.eqb_spec err 0); [done|]. intros He. right. exists des. repeat f_equal. lia.
Qed.

(** Memory is available while a directory is read. *)
Definition memory_ok (dirs : list bytes) : Prop :=
  forall dir, dir ∈ dirs -> opendir dir <> inl ENOMEM /\ forall des, opendir dir <> inr (des, ENOMEM).
Lemma take_files_app kvs n fs fs' : take_files kvs n (fs ++ fs') = take_files (take_files kvs n fs) (n + length fs) fs'.
Proof.
  revert kvs n. induction fs as [|f fs IH]; intros kvs n; simpl; [by rewrite Nat.add_0_r|]. by rewrite IH, Nat.add_succ_r.
Qed.
Lemma dirs_loop_ok suffix dirs s h l kvs n :
  rep (mem s) h l kvs -> store_ok s -> numbers_below n kvs -> names_ok dirs -> memory_ok dirs ->
  exists h' l' s', dirs_loop random h n suffix dirs s = Some ((0, h'), s') /\
    rep (mem s') h' l' (take_files kvs n (dirs ≫= dir_files suffix)) /\ store_ok s'.
Proof using.
  revert s h l kvs n. induction dirs as [|dir dirs IH]; intros s h l kvs n Hrep Hok Hb Hn Hm; [by exists h, l, s|].
  destruct (files_add_ok suffix dir s h l kvs n Hrep Hok Hb) as (r & h1 & l1 & s1 & Heq & Hr & Hok1 & Hb1 & Hmem).
  { intros des err d. apply Hn. by left. }
  assert (r <> - ENOMEM) as Hne.
  { intros He. destruct (Hm dir) as [H1 H2]; [by left|]. destruct (Hmem He) as [?|[des ?]]; [done|by apply (H2 des)]. }
  cbn [dirs_loop]. rewrite (bind_Some _ _ _ _ _ Heq), (proj2 (Z.eqb_neq _ _) Hne).
  rewrite bind_cons, take_files_app. eapply IH; [done..| |].
  - intros dir' des err d Hd. apply Hn. by right.
  - intros dir' Hd. apply Hm. by right.
Qed.

(** The first file of every name. *)
Lemma take_file_elem kvs n f kv : kv ∈ take_file kvs n f <-> kv ∈ kvs \/ (f.1 ∉ kvs.*1) /\ kv = (f.1, (n, f.2)).
Proof. unfold take_file. case_decide; [tauto|]. rewrite elem_of_app, list_elem_of_singleton. tauto. Qed.
Lemma take_file_names kvs n f k : k ∈ (take_file kvs n f).*1 <-> k ∈ kvs.*1 \/ k = f.1.
Proof.
  unfold take_file. case_decide; [naive_solver|]. rewrite fmap_app, elem_of_app. simpl. by rewrite list_elem_of_singleton.
Qed.
Lemma take_files_elem fs kvs n k p :
  (exists i, (k, (i, p)) ∈ take_files kvs n fs) <->
  (exists i, (k, (i, p)) ∈ kvs) \/ (k ∉ kvs.*1) /\ snd <$> list_find (fun f => f.1 = k) fs = Some (k, p).
Proof.
  revert kvs n. induction fs as [|[k1 p1] fs IH]; intros kvs n; simpl; [naive_solver|]. rewrite IH, take_file_names. simpl.
  setoid_rewrite take_file_elem. simpl. destruct (decide (k1 = k)) as [->|Hne]; simpl.
  - split; [naive_solver|]. intros [[i Hi]|[Hk [= ->]]]; [by eauto|]. left. exists n. by auto.
  - destruct (list_find _ fs) as [[j f]|]; simpl; naive_solver.
Qed.
Lemma take_files_NoDup fs kvs n : NoDup kvs.*1 -> NoDup (take_files kvs n fs).*1.
Proof.
  revert kvs n. induction fs as [|f fs IH]; intros kvs n Hnd; [done|]. apply IH. unfold take_file. case_decide; [done|].
  rewrite fmap_app. apply NoDup_app. split; [done|]. split; [|apply NoDup_singleton]. intros x Hx Hx'.
  apply list_elem_of_singleton in Hx'. by subst.
Qed.
Lemma take_files_length fs kvs n : (length (take_files kvs n fs) <= length kvs + length fs)%nat.
Proof.
  revert kvs n. induction fs as [|f fs IH]; intros kvs n; simpl; [lia|]. etrans; [apply IH|]. unfold take_file.
  case_decide; [lia|]. rewrite length_app. simpl. lia.
Qed.

Lemma dir_files_elem suffix dir f : f ∈ dir_files suffix dir <-> listed suffix dir f.1 /\ f.2 = dir ++ slash :: f.1.
Proof.
  unfold dir_files, listed. destruct (opendir dir) as [e|[des err]]; [set_solver|].
  rewrite list_elem_of_fmap. setoid_rewrite list_elem_of_filter. destruct f as [name p]. simpl. split.
  - intros (d & [= -> ->] & Hs & Hd). split; [|done]. by exists des, err, d.
  - intros [(des' & err' & d & [= <- <-] & Hd & <- & Hs) ->]. by exists d.
Qed.
(** The first file of a name is the one of the first directory that has it. *)
Lemma first_file suffix dirs name p :
  snd <$> list_find (fun f => f.1 = name) (dirs ≫= dir_files suffix) = Some (name, p) <->
  exists i dir, dirs !! i = Some dir /\ listed suffix dir name /\ p = dir ++ slash :: name /\
    forall j dir', (j < i)%nat -> dirs !! j = Some dir' -> ~ listed suffix dir' name.
Proof.
  induction dirs as [|dir dirs IH]; [split; [done|by intros (i & dir & ? & _)]|]. rewrite bind_cons.
  destruct (list_find (fun f => f.1 = name) (dir_files suffix dir)) as [[j f]|] eqn:E.
  - rewrite (list_find_app_l _ _ _ j f) by done. simpl. apply list_find_Some in E as (Hf & Hn & _).
    apply list_elem_of_lookup_2, dir_files_elem in Hf as [Hl Hp]. destruct f as [k q]. simpl in *. subst. split.
    + intros [= <-]. exists 0%nat, dir. split_and!; [done..|lia].
    + intros (i & dir' & Hi & _ & -> & Hno). destruct i as [|i]; [by injection Hi as ->|]. by destruct (Hno 0%nat dir ltac:(lia) eq_refl).
  - rewrite list_find_app_r by done. apply list_find_None in E. rewrite Forall_forall in E.
    assert (~ listed suffix dir name) as Hno.
    { intros Hl. by apply (E (name, dir ++ slash :: name)); [apply dir_files_elem|]. }
    transitivity (snd <$> list_find (fun f => f.1 = name) (dirs ≫= dir_files suffix) = Some (name, p)).
    { by destruct (list_find _ (dirs ≫= _)) as [[??]|]. }
    rewrite IH. split.
    + intros (i & dir' & Hi & Hl & Hp & Hj). exists (S i), dir'. split_and!; [done..|].
      intros [|j] d Hlt; [by intros [= <-]|]. apply Hj. lia.
    + intros ([|i] & dir' & Hi & Hl & Hp & Hj); [by injection Hi as ->|]. exists i, dir'. split_and!; [done..|].
      intros j d Hlt. apply (Hj (S j)). lia.
Qed.
Lemma take_found fs n k i p : (k, (i, p)) ∈ take_files [] n fs -> snd <$> list_find (fun f => f.1 = k) fs = Some (k, p).
Proof. intros Hi. assert (exists i, (k, (i, p)) ∈ take_files [] n fs) as [[? Hn]|[_ Hf]]%take_files_elem by eauto; [by apply not_elem_of_nil in Hn|done]. Qed.

Lemma base_cmp_lt (a b : str) : base_cmp a b = true <-> str_lt (basename a.2) (basename b.2).
Proof. unfold base_cmp, str_lt. by destruct (strcmp _ _). Qed.

Lemma conf_files_ok suffix dirs s :
  store_ok s -> names_ok dirs -> memory_ok dirs -> Z.of_nat (length (dirs ≫= dir_files suffix)) < 2 ^ 32 ->
  let kvs := take_files [] 0 (dirs ≫= dir_files suffix) in
  exists h l s1 s2 s', hashmap_new random s = Some (h, s1) /\
    dirs_loop random h 0 suffix dirs s1 = Some ((0, l), s2) /\
    hashmap_get_strv l s2 = Some (kvs.*2, s2) /\ Z.to_nat (hashmap_size (Some l)) = length kvs /\
    hashmap_free (Some l) s2 = Some (Datatypes.tt, s') /\ store_ok s'.
Proof using.
  intros Hok Hn Hm Hlen kvs. destruct (hashmap_new_ok random s Hok) as (h & s1 & Hnew & Hrep & Hok1 & _).
  destruct (dirs_loop_ok suffix dirs s1 h [] [] 0 Hrep Hok1) as (h' & l' & s2 & Heq & Hrep2 & Hok2); [constructor|done..|].
  destruct (clear_ok s2 h' l' kvs Hrep2 Hok2) as (h3 & s' & Hcl & Hpost).
  exists h, h', s1, s2, s'. split_and!; [done..| | | |apply Hpost].
  - unfold hashmap_get_strv. by rewrite (bind_Some _ _ _ _ _ (foreach_key_ok _ _ _ _ Hrep2)).
  - unfold hashmap_size. cbn [from_option]. rewrite (rep_entries _ _ _ _ Hrep2), wrap_small; [by rewrite Nat2Z.id|].
    pose proof (take_files_length (dirs ≫= dir_files suffix) [] 0) as Hl. fold kvs in Hl |- *. simpl in Hl. lia.
  - unfold hashmap_free. by rewrite (bind_Some _ _ _ _ _ Hcl).
Qed.

(** C28: the list of the configuration files: of every name that some
    directory has, the file of the first such directory (after the
    directories are made canonical and double ones are dropped), in the
    strict order of the names; it is found whatever the table's hash
    function does. *)
Theorem conf_files_list_exact suffix root dirs cdirs s :
  store_ok s -> path_strv_canonicalize_absolute_uniq dirs root = Some cdirs -> names_ok cdirs -> memory_ok cdirs ->
  Z.of_nat (length (cdirs ≫= dir_files suffix)) < 2 ^ 32 ->
  exists files s', conf_files_list_strv random suffix root dirs s = Some (inr files, s') /\ store_ok s' /\
    StronglySorted str_lt (basename <$> files) /\
    forall f, f ∈ files <-> exists i dir name, cdirs !! i = Some dir /\ listed suffix dir name /\ f = dir ++ slash :: name /\
      forall j dir', (j < i)%nat -> cdirs !! j = Some dir' -> ~ listed suffix dir' name.
Proof using.
  intros Hok Hc Hn Hm Hlen. set (kvs := take_files [] 0 (cdirs ≫= dir_files suffix)).
  destruct (conf_files_ok suffix cdirs s Hok Hn Hm Hlen) as (h & h' & s1 & s2 & s' & Hnew & Hdirs & Hget & Hsize & Hfree & Hok').
  fold kvs in Hget, Hsize. exists (qsort base_cmp kvs.*2).*2, s'. split_and!; [| done | |].
  - unfold conf_files_list_strv, conf_files_list_strv_internal. rewrite Hc, (bind_Some _ _ _ _ _ Hnew), (bind_Some _ _ _ _ _ Hdirs).
    change (0 <? 0) with false. cbv iota. rewrite (bind_Some _ _ _ _ _ Hget), Hsize, (bind_Some _ _ _ _ _ Hfree).
    rewrite take_ge, drop_ge, app_nil_r by (by rewrite length_fmap). done.
  - rewrite <- list_fmap_compose. apply (qsort_sorted (fun x : str => basename x.2) str_lt); [apply base_cmp_lt|apply str_total|].
    assert (Forall (fun kv : bytes * str => basename kv.2.2 = kv.1) kvs) as Hb.
    { apply Forall_forall. intros [k [i p]] Hkv. apply take_found in Hkv.
      apply first_file in Hkv as (j & dir & Hj & (des & err & d & Ho & Hd & <- & _) & -> & _). apply basename_join.
      eapply Hn; [by eapply list_elem_of_lookup_2|done..]. }
    rewrite <- list_fmap_compose.
    assert ((fun x : str => basename x.2) ∘ snd <$> kvs = kvs.*1) as -> by (apply list_fmap_ext; intros i x Hx;
      rewrite Forall_lookup in Hb; by eapply Hb). apply take_files_NoDup. constructor.
  - intros f. rewrite qsort_perm, <- list_fmap_compose, list_elem_of_fmap. split.
    + intros ([k [i p]] & -> & Hkv). apply take_found in Hkv.
      apply first_file in Hkv as (j & dir & Hj & Hl & -> & Hfirst). by exists j, dir, k.
    + intros (i & dir & name & Hi & Hl & -> & Hfirst).
      assert (exists n, (name, (n, dir ++ slash :: name)) ∈ kvs) as [n Hk].
      { apply take_files_elem. right. split; [set_solver|]. apply first_file. by exists i, dir. }
      by exists (name, (n, dir ++ slash :: name)).
Qed.
End proofs.

(** ** Time stamps *)

Definition stamps (stat : bytes -> option (Z * Z)) (paths : list bytes) : list Z := omap (fun p => timespec_load <$> stat p) paths.
Lemma stamps_cons stat p paths :
  stamps stat (p :: paths) = match stat p with Some st => timespec_load st :: stamps stat paths | None => stamps stat paths end.
Proof. unfold stamps. simpl. by destruct (stat p). Qed.
Lemma check_loop_update stat paths timestamp changed :
  check_loop stat paths timestamp true changed =
    (changed || bool_decide (Exists (fun u => timestamp < u) (stamps stat paths)), foldl Z.max timestamp (stamps stat paths)).
Proof.
  revert timestamp changed. induction paths as [|p paths IH]; intros timestamp changed; [by rewrite orb_false_r|].
  cbn [check_loop]. rewrite stamps_cons. destruct (stat p) as [st|]; [|apply IH]. cbn [foldl].
  destruct (Z.leb_spec (timespec_load st) timestamp) as [Hle|Hlt].
  - rewrite IH, Z.max_l by done. f_equal. f_equal. apply bool_decide_ext. rewrite Exists_cons. split; [by right|intros [?|?]; [lia|done]].
  - rewrite IH, Z.max_r by lia. f_equal. rewrite orb_true_l, (bool_decide_true (Exists _ (_ :: _))); [by rewrite orb_true_r|]. by left.
Qed.
(** Updating: whether some directory is newer than the stamp, and the newest
    stamp is kept. *)
Lemma paths_check_timestamp_update stat paths timestamp :
  paths_check_timestamp stat (Some paths) timestamp true =
    (bool_decide (Exists (fun u => timestamp < u) (stamps stat paths)), foldl Z.max timestamp (stamps stat paths)).
Proof. apply check_loop_update. Qed.

(** ** Examples *)

Definition example_files (d : bytes) : list dirent :=
  if bool_decide (d = ("/etc/udev/rules.d" : bytes)) then
    [mk_dirent ("70-net.rules" : bytes) DT_REG; mk_dirent (".hidden.rules" : bytes) DT_REG; mk_dirent ("sub.rules" : bytes) DT_DIR]
  else if bool_decide (d = ("/lib/udev/rules.d" : bytes)) then
    [mk_dirent ("80-drivers.rules" : bytes) DT_REG; mk_dirent ("70-net.rules" : bytes) DT_LNK; mk_dirent ("README" : bytes) DT_REG;
     mk_dirent ("50-default.rules" : bytes) DT_UNKNOWN]
  else [].
Definition example_dir : OpenDir := fun d => inr (example_files d, 0).
(** A file system in which /usr/lib is the same directory as /lib. *)
Definition example_path : RealPath := fun p =>
  match startswith p "/usr" with Some r => inr r | None => inr p end.
Definition example_dirs : list bytes := ["/etc/udev/rules.d" : bytes; "/lib/udev/rules.d" : bytes; "relative" : bytes; "/usr/lib/udev/rules.d" : bytes].
Definition example_list : list bytes :=
  ["/lib/udev/rules.d/50-default.rules" : bytes; "/etc/udev/rules.d/70-net.rules" : bytes; "/lib/udev/rules.d/80-drivers.rules" : bytes].
Example conf_files_run :
  fst <$> @conf_files_list_strv example_path example_dir draws ".rules" None example_dirs empty_store = Some (inr example_list).
Proof. by vm_compute. Qed.

Lemma example_names dirs : @names_ok example_dir dirs.
Proof.
  intros d des err x _ Ho Hx. injection Ho as <- <-. revert x Hx. rewrite <- Forall_forall. unfold example_files.
  repeat case_bool_decide; repeat constructor; by apply (bool_decide_unpack _).
Qed.
Lemma conf_files_list_exact_witness :
  exists cdirs files s', @path_strv_canonicalize_absolute_uniq example_path example_dirs None = Some cdirs /\ length cdirs = 2%nat /\
    @conf_files_list_strv example_path example_dir draws ".rules" None example_dirs empty_store = Some (inr files, s') /\
    StronglySorted str_lt (basename <$> files).
Proof.
  eexists. destruct (@conf_files_list_exact example_path example_dir draws ".rules" None example_dirs
    ["/etc/udev/rules.d" : bytes; "/lib/udev/rules.d" : bytes] empty_store) as (files & s' & H & _ & Hs & _).
  - constructor; [by intros p [? ?]|by intros p ?%not_elem_of_nil|constructor|constructor].
  - by vm_compute.
  - apply example_names.
  - intros d _. split; [done|]. intros des [= _ ?].
  - by vm_compute.
  - exists files, s'. split_and!; [by vm_compute|done|exact H|exact Hs].
Defined.

(** With a root directory the directories are looked up below the root, but
    read without it: the file below [/root] is not found, and one outside of
    it would be. *)
Definition root_dir : OpenDir := fun d =>
  if bool_decide (d = ("/root/etc" : bytes)) then inr ([mk_dirent ("in.hwdb" : bytes) DT_REG], 0)
  else if bool_decide (d = ("/etc" : bytes)) then inr ([mk_dirent ("out.hwdb" : bytes) DT_REG], 0) else inl ENOENT.
Lemma root_not_opened :
  fst <$> @conf_files_list_strv (fun p => inr p) root_dir draws ".hwdb" (Some ("/root" : bytes)) ["/etc" : bytes] empty_store =
    Some (inr ["/etc/out.hwdb" : bytes]).
Proof. by vm_compute. Qed.
(** With the empty root, which is the default, no directory is made canonical,
    so a link to a directory is another directory. *)
Lemma empty_root_not_canonical :
  @path_strv_canonicalize_absolute_uniq example_path example_dirs (Some []) =
    Some ["/etc/udev/rules.d" : bytes; "/lib/udev/rules.d" : bytes; "/usr/lib/udev/rules.d" : bytes].
Proof. by vm_compute. Qed.
End ConfFiles.
