(* ===== verification/RuleCheck.v ===== *)
(** The checker of rules files: src/udevrule.  A file is read line by line
    into a buffer on the stack, a line is cut into clauses and each clause is
    read and judged by tables of its own.  Here are also the rules parser of
    udev ([RuleParse]) on the lines the checker is silent about. *)

From Stdlib Require Import ZArith Lia Ascii.
From stdpp Require Import prelude gmap strings.
From S2P Require Import Prelude Utils Strings Encode Strbuf RuleTokens RuleParse.
Import Mem ParseValue RuleParse.

Module RuleCheck.

(** * Clauses (udevrule-parse.c) *)

Definition EUNKEY : Z := 0.
Definition EOPEREXP : Z := 1.
Definition EOPER : Z := 2.
Definition EQUOTEXP : Z := 3.
Definition EILOPER : Z := 4.
Definition EBRACEXP : Z := 5.
Definition ENOATTR : Z := 6.
Definition EVALUE : Z := 7.

(** The operations have the numbers of udevrule.h. *)
Definition check_op (o : operation_type) : Z :=
  match o with
  | OP_UNSET => 0 | OP_MATCH => 1 | OP_NOMATCH => 2 | OP_ADD => 3 | OP_ASSIGN => 5 | OP_ASSIGN_FINAL => 6
  | OP_MATCH_MAX => 0
  end.
Definition CHECK_NOMATCH : Z := 2.

Definition rule_getoper (clause : bytes) : option (operation_type * nat) :=
  if nth 1 clause nul ==c "=" then
    let c := nth 0 clause nul in
    if c ==c "=" then Some (OP_MATCH, 2%nat)
    else if c ==c "!" then Some (OP_NOMATCH, 2%nat)
    else if c ==c "+" then Some (OP_ADD, 2%nat)
    else if c ==c ":" then Some (OP_ASSIGN_FINAL, 2%nat)
    else None
  else if nth 0 clause nul ==c "=" then Some (OP_ASSIGN, 1%nat)
  else None.

Definition key_stop (c : byte) : bool := isspace c || (c ==c "=") || (c ==c "+") || (c ==c "!") || (c ==c ":").
Fixpoint read_key (p : bytes) : bytes * bytes :=
  match p with
  | [] => ([], [])
  | c :: p' => if key_stop c then ([], p) else let '(k, r) := read_key p' in (c :: k, r)
  end.
(** The value, and what follows from its closing quote on. *)
Fixpoint read_value (p : bytes) : bytes * bytes :=
  match p with
  | [] => ([], [])
  | c :: p' =>
      if c ==c dquote then ([], p)
      else
        match p' with
        | d :: p'' =>
            if (c ==c "\") && (d ==c dquote) then let '(v, r) := read_value p'' in (d :: v, r)
            else let '(v, r) := read_value p' in (c :: v, r)
        | [] => ([c], [])
        end
  end.
Definition rule_getkey (clause : bytes) : Z + bytes * operation_type * bytes :=
  let '(key, p) := read_key clause in
  match skip_space p with
  | [] => inl (- EOPEREXP)
  | p =>
      match rule_getoper p with
      | None => inl (- EOPER)
      | Some (op, sz) =>
          match skip_space (drop sz p) with
          | [] => inl (- EQUOTEXP)
          | q :: p =>
              if negb (q ==c dquote) then inl (- EQUOTEXP)
              else
                let '(value, p) := read_value p in
                match p with
                | [] => inl (- EQUOTEXP)
                | [_] => inr (key, op, value)
                | _ => inl (- EVALUE)
                end
          end
      end
  end.

(** A pointer into the buffer of the line is what the buffer holds from there
    on; [None] is a read behind its end. *)
Fixpoint strip (p : bytes) : option bytes :=
  match p with
  | [] => None
  | c :: p' => if isspace c then strip p' else Some p
  end.
(** What is copied, and where it ends. *)
Fixpoint rule_getclause (quoted : bool) (p : bytes) : option (bytes * bytes) :=
  match p with
  | [] => None
  | c :: p' =>
      if (c ==c newline) || (negb quoted && (c ==c ",")) then Some ([], p)
      else '(clause, r) ← rule_getclause (if c ==c dquote then negb quoted else quoted) p'; Some (c :: clause, r)
  end.

(** * The tables (udevrule-check.c) *)

Definition no_args_keys : list bytes :=
  ["NAME" : bytes; "SYMLINK" : bytes; "TAG" : bytes; "OWNER" : bytes; "GROUP" : bytes; "MODE" : bytes; "PROGRAM" : bytes; "RUN" : bytes;
   "LABEL" : bytes; "GOTO" : bytes; "WAIT_FOR" : bytes; "WAIT_FOR_SYSFS" : bytes; "OPTIONS" : bytes].
Definition no_args_match_keys : list bytes :=
  ["ACTION" : bytes; "DEVPATH" : bytes; "KERNEL" : bytes; "KERNELS" : bytes; "SUBSYSTEM" : bytes; "SUBSYSTEMS" : bytes; "DRIVER" : bytes;
   "DRIVERS" : bytes; "TAGS" : bytes; "TEST" : bytes; "RESULT" : bytes].
Definition args_keys : list bytes := ["ATTR" : bytes; "ENV" : bytes; "IMPORT" : bytes; "RUN" : bytes; "SECLABEL" : bytes].
Definition args_match_keys : list bytes := ["ATTRS" : bytes; "TEST" : bytes].

Fixpoint check_no_args_loop (keys : list bytes) (key : bytes) : Z :=
  match keys with
  | [] => EUNKEY
  | k :: keys' => if Str.str_eq (Some key) (Some k) then 1 else check_no_args_loop keys' key
  end.
Definition check_no_args (key : bytes) : Z := check_no_args_loop no_args_keys key.
Fixpoint check_no_args_match_loop (keys : list bytes) (key : bytes) (op : operation_type) : Z :=
  match keys with
  | [] => EUNKEY
  | k :: keys' =>
      if Str.str_eq (Some key) (Some k) then if CHECK_NOMATCH <? check_op op then - EILOPER else 1
      else check_no_args_match_loop keys' key op
  end.
Definition check_no_args_match (key : bytes) (op : operation_type) : Z := check_no_args_match_loop no_args_match_keys key op.

(** The part in front of the brace is compared, as [strncmp] does. *)
Fixpoint check_args_loop (keys : list bytes) (key : bytes) (illegal : bool) : Z :=
  match keys with
  | [] => EUNKEY
  | k :: keys' =>
      match split_chr key "{" with
      | (_, None) => EUNKEY
      | (name, Some p) =>
          if bool_decide (is_Some (startswith k name)) then
            if illegal then - EILOPER
            else
              match split_chr p "}" with
              | (_, None) => - EBRACEXP
              | ([], Some _) => - ENOATTR
              | _ => 1
              end
          else check_args_loop keys' key illegal
      end
  end.
Definition check_args (key : bytes) : Z := check_args_loop args_keys key false.
Definition check_args_match (key : bytes) (op : operation_type) : Z :=
  check_args_loop args_match_keys key (CHECK_NOMATCH <? check_op op).

(** * The program (udevrule.c) *)

Definition check (clause : bytes) : Z :=
  match rule_getkey clause with
  | inl res => res
  | inr (key, op, value) =>
      let res := check_no_args key in
      let res := if res =? 0 then check_no_args_match key op else res in
      let res := if res =? 0 then check_args key else res in
      if res =? 0 then check_args_match key op else res
  end.

(** What is printed: the number of the line, and the clause with the number
    of the message. *)
Inductive message :=
  | Empty_clause (lineno : Z)
  | Invalid_line (lineno : Z) (clause : bytes) (msg : Z).
Definition report (lineno : Z) (clause : bytes) : list message :=
  match clause with
  | [] => [Empty_clause lineno]
  | _ => let res := check clause in if res <=? 0 then [Invalid_line lineno clause (- res)] else []
  end.
Fixpoint clauses_loop (fuel : nat) (lineno : Z) (ch : byte) (p : bytes) : option (list message) :=
  if ch ==c newline then Some []
  else
    match fuel with
    | O => None
    | S fuel' =>
        p ← strip p;
        '(clause, p) ← rule_getclause false p;
        rest ← clauses_loop fuel' lineno (nth 0 p nul) (drop 1 p);
        Some (report lineno (until_nul clause) ++ rest)
    end.
(** The clauses of the line that starts at [p]. *)
Definition check_line (lineno : Z) (p : bytes) : option (list message) :=
  clauses_loop (S (length p)) lineno (nth 0 p nul) p.

Definition LINE_SIZE : nat := UTIL_LINE_SIZE.
(** A line with its newline, and the rest of the file. *)
Fixpoint getdelim (f : bytes) : bytes * bytes :=
  match f with
  | [] => ([], [])
  | c :: f' => if c ==c newline then ([c], f') else let '(l, r) := getdelim f' in (c :: l, r)
  end.
Definition failed (m : message) : bool := match m with Invalid_line _ _ _ => true | Empty_clause _ => false end.
(** [before] is the byte in front of the buffer [line].  A line that does not
    fit behind [p] would be written behind the end of the buffer, or makes
    [getdelim] reallocate it. *)
Fixpoint main_loop (fuel : nat) (before : byte) (line : bytes) (p : nat) (lineno : Z) (f : bytes) : option (list message) :=
  match f, fuel with
  | [], _ => Some []
  | _, O => None
  | _, S fuel' =>
      let '(l, f) := getdelim f in
      let sz := length l in
      let lineno := lineno + 1 in
      if Nat.ltb (length line) (p + sz + 1) then None
      else
        let line := take p line ++ l ++ nul :: drop (p + sz + 1) line in
        let last := match (p + sz)%nat with S (S i) => nth i line nul | _ => before end in
        if last ==c "\" then
          match (p + sz)%nat with S (S i) => main_loop fuel' before line i lineno f | _ => None end
        else if Nat.ltb sz 3 then main_loop fuel' before line p lineno f
        else
          q ← strip line;
          if nth 0 q nul ==c "#" then main_loop fuel' before line (length line - length q) lineno f
          else
            out ← check_line lineno q;
            rest ← main_loop fuel' before line 0 lineno f;
            Some (out ++ rest)
  end.
(** The messages and whether the result is EXIT_SUCCESS. *)
Definition main (before : byte) (line f : bytes) : option (list message * bool) :=
  out ← main_loop (length f) before line 0 0 f;
  Some (out, negb (existsb failed out)).

(** * A clause that is read is read by udev *)

Lemma read_key_scan (p k r rest : bytes) :
  read_key p = (k, r) -> r <> [] -> key_end (r ++ rest) = true -> scan_key (p ++ rest) = Some (k, r ++ rest).
Proof.
  revert k r. induction p as [|c p IH]; intros k r; cbn [read_key]; [by intros [= <- <-]|].
  destruct (key_stop c) eqn:Ec.
  - intros [= <- <-] _ He. cbn [app scan_key]. cbn [app] in He. by rewrite He.
  - destruct (read_key p) as [k' r']. intros [= <- <-] Hr He. specialize (IH k' r' eq_refl Hr He).
    unfold key_stop in Ec. rewrite !orb_false_iff in Ec. destruct Ec as [[[[H0 H1] H2] H3] H4].
    cbn [app scan_key key_end]. rewrite H0, H1, H2, H3, H4. simpl. by rewrite IH.
Qed.
Lemma read_key_stop (p k r : bytes) : read_key p = (k, r) -> match r with c :: _ => key_stop c = true | [] => True end.
Proof.
  revert k r. induction p as [|c p IH]; intros k r; cbn [read_key]; [by intros [= <- <-]|].
  destruct (key_stop c) eqn:Ec; [by intros [= <- <-]|]. destruct (read_key p) as [k' r']. intros [= <- <-]. by eapply IH.
Qed.
Lemma rule_getoper_op (p rest : bytes) o n :
  rule_getoper p = Some (o, n) -> drop n p <> [] -> get_op (p ++ rest) = Some (o, drop n p ++ rest).
Proof.
  destruct p as [|c [|d p]]; [done|unfold rule_getoper; simpl; intros H Hd; destruct (c ==c "="); by simplify_eq/=|].
  unfold rule_getoper. cbn [nth app get_op]. destruct (d ==c "="); cbn [andb].
  - destruct (eqbP c "="), (eqbP c "!"), (eqbP c "+"), (eqbP c ":"); subst; try done; by intros [= <- <-].
  - rewrite !andb_false_r. destruct (c ==c "="); [|done]. by intros [= <- <-].
Qed.
Lemma rule_getoper_end (c : byte) (p rest : bytes) o n :
  key_stop c = true -> isspace c = false -> rule_getoper (c :: p) = Some (o, n) -> key_end (c :: p ++ rest) = true.
Proof.
  unfold key_stop, rule_getoper. cbn [nth key_end]. intros Hs Hc. rewrite Hc in *. cbn [orb] in *.
  destruct (eqbP c "="); [done|]. cbn [orb] in *. rewrite <- orb_assoc in Hs. destruct p as [|d p]; [by rewrite (proj2 (Ascii.eqb_neq _ _) n0) || done|].
  cbn [app nth]. destruct (d ==c "="); [|done]. intros _. by rewrite <- orb_assoc, Hs.
Qed.
Lemma skip_space_ext (p rest : bytes) c s : skip_space p = c :: s -> skip_space (p ++ rest) = c :: s ++ rest.
Proof. induction p as [|d p IH]; [done|]. simpl. destruct (isspace d); [done|]. by intros [= -> ->]. Qed.
Lemma skip_space_head (p : bytes) c s : skip_space p = c :: s -> isspace c = false.
Proof. induction p as [|d p IH]; [done|]. simpl. destruct (isspace d) eqn:E; [done|]. by intros [= -> ->]. Qed.

Lemma read_value_unquote (p v r rest : bytes) :
  read_value p = (v, r) -> r <> [] ->
  exists n, unquote dquote (p ++ rest) = Some (v, n) /\ drop n (p ++ rest) = r ++ rest /\ List.hd_error r = Some dquote.
Proof.
  revert v r. induction p as [p IH] using (induction_ltof1 _ (@length byte)). unfold ltof in IH. intros v r.
  destruct p as [|c [|d p]]; [by intros [= <- <-]| |].
  - cbn [read_value]. destruct (eqbP c dquote) as [->|Hc]; [|by intros [= <- <-]]. intros [= <- <-] _. by exists 0%nat.
  - cbn [app]. change (unquote dquote (c :: d :: p ++ rest)) with
      (if c ==c dquote then Some ([], O)
       else if (c ==c "\") && (d ==c dquote) then '(v, n) ← unquote dquote (p ++ rest); Some (d :: v, (n + 2)%nat)
       else '(v, n) ← unquote dquote (d :: p ++ rest); Some (c :: v, (n + 1)%nat)).
    change (read_value (c :: d :: p)) with
      (if c ==c dquote then ([], c :: d :: p)
       else if (c ==c "\") && (d ==c dquote) then let '(v, r) := read_value p in (d :: v, r)
       else let '(v, r) := read_value (d :: p) in (c :: v, r)).
    destruct (eqbP c dquote) as [->|Hc]; [intros [= <- <-] _; by exists 0%nat|].
    destruct ((c ==c "\") && (d ==c dquote)).
    + specialize (IH p ltac:(simpl; lia)). destruct (read_value p) as [v' r']. intros [= <- <-] Hr.
      destruct (IH v' r' eq_refl Hr) as (n & -> & Hd & Hh). exists (n + 2)%nat. split_and!; [done| |done].
      by rewrite Nat.add_comm.
    + specialize (IH (d :: p) ltac:(simpl; lia)). destruct (read_value (d :: p)) as [v' r']. intros [= <- <-] Hr.
      destruct (IH v' r' eq_refl Hr) as (n & Hu & Hd & Hh). cbn [app] in Hu, Hd. rewrite Hu. exists (n + 1)%nat.
      split_and!; [done| |done]. by rewrite Nat.add_comm.
Qed.

(** The parser of udev reads the same key, operation and value, and goes on
    behind the clause. *)
Lemma rule_getkey_agrees (c : byte) (clause k v rest : bytes) o :
  rule_getkey (c :: clause) = inr (k, o, v) -> k <> [] -> c <> ","%char -> get_key (c :: clause ++ rest) = Some (k, o, v, rest).
Proof.
  unfold rule_getkey. cbn [read_key]. destruct (key_stop c) eqn:Ec; [|destruct (read_key clause) as [k' r] eqn:Ek].
  { destruct (skip_space (c :: clause)); [done|]. destruct (rule_getoper _) as [[o' sz]|]; [|done].
    destruct (skip_space (drop _ _)); [done|]. destruct (negb _); [done|]. destruct (read_value _) as [w [|? [|? ?]]]; [done| |done].
    by intros [= <- _ _]. }
  destruct (skip_space r) as [|x p] eqn:Er; [done|]. destruct (rule_getoper (x :: p)) as [[o' sz]|] eqn:Eo; [|done].
  destruct (skip_space (drop sz (x :: p))) as [|q p'] eqn:Eq; [done|]. destruct (eqbP q dquote) as [->|]; [|done]. cbn [negb].
  destruct (read_value p') as [w [|y [|? ?]]] eqn:Ev; [done| |done]. intros [= <- <- <-] _ Hc.
  assert (isspace c = false) as Hsp by (unfold key_stop in Ec; by rewrite !orb_false_iff in Ec; destruct Ec as [[[[? ?] ?] ?] ?]).
  assert (r <> []) as Hr by (by intros ->). assert (key_end (r ++ rest) = true) as Hend.
  { pose proof (read_key_stop _ _ _ Ek) as Hst. destruct r as [|z r]; [done|]. cbn [skip_space] in Er.
    destruct (isspace z) eqn:Ez; [cbn [app key_end]; by rewrite Ez|]. injection Er as -> ->. by eapply rule_getoper_end. }
  unfold get_key. cbn [skip_sep]. rewrite Hsp, (proj2 (Ascii.eqb_neq _ _) Hc). cbn [orb].
  rewrite (read_key_scan _ _ _ rest Ek Hr Hend). cbn [mbind option_bind]. rewrite (skip_space_ext _ rest _ _ Er).
  rewrite app_comm_cons, (rule_getoper_op _ rest _ _ Eo) by (intros E; by rewrite E in Eq). cbn [mbind option_bind].
  rewrite (skip_space_ext _ rest _ _ Eq). cbn [negb Ascii.eqb]. rewrite Ascii.eqb_refl. cbn [negb].
  destruct (read_value_unquote _ _ _ rest Ev ltac:(done)) as (n & -> & Hd & Hh). cbn [mbind option_bind].
  do 2 f_equal. rewrite <- drop_drop, Hd. done.
Qed.

(** * The clauses of a line *)

(** A line is cut at the commas outside of quotes. *)
Fixpoint split_clauses (quoted : bool) (t : bytes) : list bytes :=
  match t with
  | [] => [[]]
  | c :: t' =>
      if negb quoted && (c ==c ",") then [] :: split_clauses false t'
      else
        match split_clauses (if c ==c dquote then negb quoted else quoted) t' with
        | a :: l => (c :: a) :: l
        | [] => []
        end
  end.
Definition clauses (t : bytes) : list bytes := skip_space <$> split_clauses false t.
(** Something is written behind the last comma. *)
Definition ends_well (t : bytes) : Prop := skip_space (List.last (split_clauses false t) []) <> [].

(** What is left of the line behind a clause. *)
Inductive split_at (t : bytes) : bytes -> list bytes -> Prop :=
  | Split_last : split_at t t []
  | Split_comma a t' : t = a ++ ","%char :: t' -> split_at t a (split_clauses false t').
Lemma split_clauses_at q t : exists a l, split_clauses q t = a :: l /\ split_at t a l.
Proof.
  revert q. induction t as [|c t IH]; intros q; [by exists [], []; split; [|constructor]|]. cbn [split_clauses].
  destruct (negb q && (c ==c ",")) eqn:E.
  - apply andb_true_iff in E as [_ Hc%Ascii.eqb_eq]. subst. eexists [], _. split; [done|]. by apply (Split_comma _ []).
  - destruct (IH (if c ==c dquote then negb q else q)) as (a & l & -> & Hs). exists (c :: a), l. split; [done|].
    destruct Hs as [|a t' ->]; [constructor|]. by apply (Split_comma _ (c :: a)).
Qed.
Lemma split_clauses_length q t : (length (split_clauses q t) <= S (length t))%nat.
Proof.
  revert q. induction t as [|c t IH]; intros q; [done|]. cbn [split_clauses].
  destruct (negb q && (c ==c ",")); [simpl; pose proof (IH false); lia|].
  pose proof (IH (if c ==c dquote then negb q else q)) as H. destruct (split_clauses _ t); simpl in *; lia.
Qed.
(** White space in front of a clause is not part of it. *)
Lemma split_clauses_skip t a l : split_clauses false t = a :: l -> split_clauses false (skip_space t) = skip_space a :: l.
Proof.
  revert a l. induction t as [|c t IH]; intros a l; [by intros [= <- <-]|]. cbn [skip_space].
  destruct (isspace c) eqn:Hc.
  - cbn [split_clauses]. assert ((c ==c ",") = false) as -> by (apply Ascii.eqb_neq; by intros ->).
    assert ((c ==c dquote) = false) as -> by (apply Ascii.eqb_neq; by intros ->). cbn [negb andb].
    destruct (split_clauses false t) as [|a' l']; [done|]. intros [= <- <-]. cbn [skip_space]. rewrite Hc. by apply IH.
  - intros H. rewrite H. cbn [split_clauses negb andb] in H. destruct (c ==c ","); [by injection H as <- _|].
    destruct (split_clauses (if c ==c dquote then _ else _) t); [done|]. injection H as <- _. cbn [skip_space]. by rewrite Hc.
Qed.
Lemma clause_head t c s l : split_clauses false t = (c :: s) :: l -> c <> ","%char.
Proof.
  destruct t as [|d t]; [done|]. cbn [split_clauses]. cbn [negb andb]. destruct (eqbP d ","); [done|].
  destruct (split_clauses (if d ==c dquote then _ else _) t); [done|]. by intros [= -> _ _].
Qed.

Lemma strip_skip (t x : bytes) c s : skip_space t = c :: s -> strip (t ++ x) = Some (c :: s ++ x).
Proof. induction t as [|d t IH]; [done|]. simpl. destruct (isspace d); [done|]. by intros [= -> ->]. Qed.
(** The text behind a clause, from its comma or the newline on. *)
Inductive rest_of (x : bytes) : list bytes -> bytes -> Prop :=
  | Rest_end : rest_of x [] (newline :: x)
  | Rest_comma t' : newline ∉ t' -> cstr t' -> rest_of x (split_clauses false t') (","%char :: t' ++ newline :: x).
Lemma rule_getclause_ok q t x a l :
  newline ∉ t -> cstr t -> split_clauses q t = a :: l ->
  exists r, rule_getclause q (t ++ newline :: x) = Some (a, r) /\ rest_of x l r /\ cstr a.
Proof.
  revert q a l. induction t as [|c t IH]; intros q a l Hn Ht.
  - intros [= <- <-]. eexists. split; [done|]. split; constructor.
  - apply not_elem_of_cons in Hn as [Hc Hn]. apply Forall_cons in Ht as [Hc0 Ht]. cbn [split_clauses app rule_getclause].
    rewrite (proj2 (Ascii.eqb_neq c newline)) by done. cbn [orb]. destruct (negb q && (c ==c ",")) eqn:E.
    + apply andb_true_iff in E as [_ He%Ascii.eqb_eq]. subst. intros [= <- <-]. eexists. split; [done|]. by repeat constructor.
    + destruct (split_clauses (if c ==c dquote then negb q else q) t) as [|a' l'] eqn:E'; [done|]. intros [= <- <-].
      destruct (IH _ _ _ Hn Ht E') as (r & -> & Hr & Ha). exists r. split; [done|]. split; [done|]. by constructor.
Qed.
Lemma skip_space_cstr (t : bytes) : cstr t -> cstr (skip_space t).
Proof. apply cstr_skip_space. Qed.
Lemma skip_space_newline (t : bytes) : newline ∉ t -> newline ∉ skip_space t.
Proof. induction t as [|c t IH]; [done|]. simpl. destruct (isspace c); set_solver. Qed.
Lemma split_clauses_cstr q t : cstr t -> Forall cstr (split_clauses q t).
Proof.
  revert q. induction t as [|c t IH]; intros q H; [by repeat constructor|]. apply Forall_cons in H as [Hc H]. cbn [split_clauses].
  destruct (negb q && (c ==c ",")); [constructor; [constructor|by apply IH]|].
  specialize (IH (if c ==c dquote then negb q else q) H). destruct (split_clauses _ t); [done|]. apply Forall_cons in IH as [? ?].
  constructor; [by constructor|done].
Qed.

Lemma clauses_loop_ok fuel lineno t x ch :
  newline ∉ t -> cstr t -> ends_well t -> (length (split_clauses false t) <= fuel)%nat -> ch <> newline ->
  clauses_loop fuel lineno ch (t ++ newline :: x) = Some (clauses t ≫= report lineno).
Proof.
  revert t ch. induction fuel as [|fuel IH]; intros t ch Hn Ht He Hf Hch; destruct (split_clauses_at false t) as (a & l & Hs & _).
  { rewrite Hs in Hf. simpl in Hf. lia. }
  unfold ends_well, clauses in *. rewrite Hs in *. cbn [clauses_loop]. rewrite (proj2 (Ascii.eqb_neq _ _) Hch).
  pose proof (split_clauses_skip _ _ _ Hs) as Hs'.
  assert (exists c s, skip_space t = c :: s) as (c & s & Hsk).
  { destruct (skip_space t) as [|c s] eqn:E; [|eauto]. exfalso. injection Hs' as Ha <-. by apply He. }
  rewrite (strip_skip t (newline :: x) c s Hsk). rewrite Hsk in Hs'. cbn [mbind option_bind].
  destruct (rule_getclause_ok false (c :: s) x (skip_space a) l) as (r & Hr & Hrest & Ha); [rewrite <- Hsk; by apply skip_space_newline| |done|].
  { rewrite <- Hsk. by apply skip_space_cstr. }
  cbn [app] in Hr. rewrite Hr. cbn [mbind option_bind]. rewrite (until_nul_cstr (skip_space a)) by done. cbn [fmap list_fmap]. rewrite bind_cons.
  destruct Hrest as [|t' Hn' Ht']; cbn [nth drop].
  - destruct fuel; reflexivity.
  - rewrite (IH t'); [done|done|done| |simpl in Hf; lia|done].
    unfold ends_well. destruct (split_clauses_at false t') as (a' & l' & E & _). rewrite E in *. exact He.
Qed.

(** A line is judged clause by clause: what is read behind the line does not
    matter, unless nothing follows the last comma. *)
Lemma check_line_clauses lineno t x :
  newline ∉ t -> cstr t -> ends_well t -> check_line lineno (t ++ newline :: x) = Some (clauses t ≫= report lineno).
Proof.
  intros Hn Ht He. unfold check_line. apply clauses_loop_ok; [done..| |].
  - pose proof (split_clauses_length false t). rewrite length_app. simpl. lia.
  - destruct t as [|c t]; [done|]. cbn [app nth]. set_solver.
Qed.

(** * Results are numbers of messages *)

Lemma no_args_range keys key : 0 <= check_no_args_loop keys key <= 1.
Proof. induction keys as [|k keys IH]; simpl; [done|]. by destruct (Str.str_eq_loop _ _). Qed.
Lemma no_args_match_range keys key op : -7 <= check_no_args_match_loop keys key op <= 1.
Proof. induction keys as [|k keys IH]; simpl; [done|]. destruct (Str.str_eq_loop _ _); [by destruct (_ <? _)|done]. Qed.
Lemma args_range keys key illegal : -7 <= check_args_loop keys key illegal <= 1.
Proof.
  induction keys as [|k keys IH]; [done|]. cbn [check_args_loop]. destruct (split_chr key "{") as [name [p|]]; [|done].
  destruct (bool_decide _); [|done]. destruct illegal; [done|]. by destruct (split_chr p "}") as [[|? ?] [?|]].
Qed.
Lemma getkey_range clause : match rule_getkey clause with inl r => -7 <= r < 0 | inr _ => True end.
Proof.
  unfold rule_getkey. destruct (read_key clause) as [k p]. destruct (skip_space p) as [|x q]; [done|].
  destruct (rule_getoper _) as [[o sz]|]; [|done]. destruct (skip_space _) as [|y z]; [done|]. destruct (negb _); [done|].
  by destruct (read_value z) as [v [|? [|? ?]]].
Qed.
(** Every result is 1 or names one of the eight messages. *)
Lemma check_range clause : -7 <= check clause <= 1.
Proof.
  unfold check. pose proof (getkey_range clause) as Hg. destruct (rule_getkey clause) as [r|[[k o] v]]; [lia|]. cbv zeta.
  unfold check_no_args, check_no_args_match, check_args, check_args_match.
  pose proof (no_args_range no_args_keys k). pose proof (no_args_match_range no_args_match_keys k o).
  pose proof (args_range args_keys k false). pose proof (args_range args_match_keys k (CHECK_NOMATCH <? check_op o)).
  repeat match goal with |- context [if ?b then _ else _] => destruct b end; lia.
Qed.

(** * Lines without a message *)

Lemma report_nil lineno c : report lineno c = [] -> exists k o v, rule_getkey c = inr (k, o, v) /\ k <> [] /\ c <> [].
Proof.
  destruct c as [|x c]; [done|]. unfold report, check. destruct (rule_getkey (x :: c)) as [r|[[k o] v]] eqn:E.
  - pose proof (getkey_range (x :: c)) as H. rewrite E in H. destruct (Z.leb_spec r 0); [done|lia].
  - intros H. exists k, o, v. split_and!; [done| |done]. by intros ->.
Qed.

Section parsed.
Context {P : Type} `{Hpool : StringPool P}.
Context (getpwuid : Z -> bool) (getpwnam : bytes -> option Z).
Context (getgrgid : Z -> bool) (getgrnam : bytes -> option Z).
#[local] Abbreviation add_rule_key := (add_rule_key getpwuid getpwnam getgrgid getgrnam).
#[local] Abbreviation add_rule_loop := (add_rule_loop getpwuid getpwnam getgrgid getgrnam).

(** The keys of a rule are added one after the other. *)
Fixpoint add_keys st tmp (kvs : list (bytes * operation_type * bytes)) : key_result :=
  match kvs with
  | [] => Cont st tmp
  | (key, o, value) :: kvs' =>
      match add_rule_key st tmp key o value with
      | Cont st tmp => add_keys st tmp kvs'
      | Invalid st tmp => Invalid st tmp
      end
  end.
Lemma get_key_skip a b : skip_sep a = skip_sep b -> get_key a = get_key b.
Proof.
  intros H. assert (forall x, get_key x = match skip_sep x with [] => None | c :: s => get_key (skip_sep x) end) as He.
  { intros x. assert (skip_sep (skip_sep x) = skip_sep x) as Hi.
    { induction x as [|c x IH]; [done|]. cbn [skip_sep]. destruct (isspace c || (c ==c ",")) eqn:E; [done|]. cbn [skip_sep]. by rewrite E. }
    unfold get_key. rewrite Hi. destruct x as [|c x]; [done|]. by destruct (skip_sep (c :: x)). }
  by rewrite (He a), (He b), H.
Qed.
Lemma skip_sep_space (t : bytes) : skip_sep (skip_space t) = skip_sep t.
Proof. induction t as [|c t IH]; [done|]. cbn [skip_space]. destruct (isspace c) eqn:E; [cbn [skip_sep]; by rewrite E|done]. Qed.

Lemma skip_space_split (a : bytes) c s rest : skip_space a = c :: s -> skip_space (a ++ rest) = c :: s ++ rest.
Proof. apply skip_space_ext. Qed.
Lemma add_rule_loop_silent fuel st tmp t lineno :
  (length (split_clauses false t) <= fuel)%nat -> clauses t ≫= report lineno = [] ->
  exists kvs, Forall2 (fun c kv => rule_getkey c = inr kv) (clauses t) kvs /\ add_rule_loop fuel st tmp t = add_keys st tmp kvs.
Proof.
  revert st tmp t. induction fuel as [|fuel IH]; intros st tmp t Hf; destruct (split_clauses_at false t) as (a & l & Hs & Hat);
    [rewrite Hs in Hf; simpl in Hf; lia|]. unfold clauses at 1. rewrite Hs. cbn [fmap list_fmap]. rewrite bind_cons.
  intros [Ha Hl]%app_nil. destruct (report_nil _ _ Ha) as (k & o & v & Hk & Hk0 & Ha0).
  destruct (skip_space a) as [|c s] eqn:Esk; [done|].
  assert (c <> ","%char) as Hc by (pose proof (split_clauses_skip _ _ _ Hs) as Hs'; rewrite Esk in Hs'; by eapply clause_head).
  assert (exists rest, get_key t = Some (k, o, v, rest) /\ (l = [] /\ rest = [] \/ exists t', rest = ","%char :: t' /\ l = split_clauses false t'))
    as (rest & Hget & Hrest).
  { assert (forall rest, t = a ++ rest -> get_key t = Some (k, o, v, rest)) as Hgo.
    { intros rest ->. rewrite (get_key_skip _ (c :: s ++ rest)); [by apply rule_getkey_agrees|].
      by rewrite <- skip_sep_space, (skip_space_ext _ _ _ _ Esk). }
    destruct Hat as [|a t' ->]; [exists []; split; [apply Hgo; by rewrite app_nil_r|by left]|].
    eexists. split; [by apply Hgo|]. right. by exists t'. }
  cbn [add_rule_loop]. rewrite Hget.
  assert (forall st tmp, exists kvs, Forall2 (fun c kv => rule_getkey c = inr kv) (skip_space <$> l) kvs /\ add_rule_loop fuel st tmp rest = add_keys st tmp kvs) as Hnext.
  { clear st tmp. intros st tmp. destruct Hrest as [[-> ->]|(t' & -> & ->)].
    - exists []. split; [constructor|]. by destruct fuel.
    - destruct (IH st tmp t') as (kvs & Hkvs & Heq); [rewrite Hs in Hf; simpl in Hf; lia|exact Hl|]. exists kvs. split; [done|].
      rewrite <- Heq. destruct fuel; [done|]. cbn [add_rule_loop]. by rewrite (get_key_skip (","%char :: t') t'). }
  unfold clauses. rewrite Hs. cbn [fmap list_fmap]. rewrite Esk. destruct (add_rule_key st tmp k o v) as [st' tmp'|st' tmp'] eqn:Eadd.
  - destruct (Hnext st' tmp') as (kvs & Hkvs & Heq). exists ((k, o, v) :: kvs). split; [by constructor|]. cbn [add_keys]. by rewrite Eadd.
  - destruct (Hnext st tmp) as (kvs & Hkvs & _). exists ((k, o, v) :: kvs). split; [by constructor|]. cbn [add_keys]. by rewrite Eadd.
Qed.

(** C19: the checker and the rules parser of udev agree on a line about which
    the checker prints nothing: the parser reads from the line, to its end,
    the keys, operations and values that the checker read from its clauses,
    and adds them to the rule in this order.  (The line must have something
    behind its last comma; without it the checker reads on behind the line.) *)
Theorem checked_line_parsed lineno t x st tmp :
  newline ∉ t -> cstr t -> ends_well t -> check_line lineno (t ++ newline :: x) = Some [] ->
  exists kvs, Forall2 (fun c kv => rule_getkey c = inr kv) (clauses t) kvs /\
    add_rule_loop (S (length t)) st tmp t = add_keys st tmp kvs.
Proof.
  intros Hn Ht He. rewrite check_line_clauses by done. intros [= Hr].
  apply (add_rule_loop_silent _ _ _ _ lineno); [apply split_clauses_length|done].
Qed.
End parsed.

(** ** Examples *)

Definition quoted (v : bytes) : bytes := dquote :: v ++ [dquote].
Definition example_rule : bytes := ("ACTION==" : bytes) ++ quoted "add" ++ (", ATTR{a}= " : bytes) ++ quoted "x, y".
Lemma checked_line_parsed_witness :
  let st := mk_udev_rules (P := Strbuf.strbuf) 1 (rules_new 8) [] 0 [] 0 false in
  let tmp := mk_rule_tmp (mk_rule_token false false 0 0 0 1) [] false in
  check_line 1 (example_rule ++ newline :: nul :: []) = Some [] /\
  add_rule_loop (fun _ => true) (fun _ => None) (fun _ => true) (fun _ => None) (S (length example_rule)) st tmp example_rule =
    add_keys (fun _ => true) (fun _ => None) (fun _ => true) (fun _ => None) st tmp
      [(("ACTION" : bytes), OP_MATCH, ("add" : bytes)); (("ATTR{a}" : bytes), OP_ASSIGN, ("x, y" : bytes))].
Proof.
  intros st tmp.
  assert (check_line 1 (example_rule ++ newline :: [nul]) = Some []) as Hc by (by vm_compute). split; [exact Hc|].
  destruct (checked_line_parsed (fun _ => true) (fun _ => None) (fun _ => true) (fun _ => None) 1 example_rule [nul] st tmp) as (kvs & Hk & ->);
    [by apply (bool_decide_unpack _); vm_compute|vm_compute; repeat constructor; done| |exact Hc|].
  - intros E. vm_compute in E. discriminate E.
  - f_equal. change (clauses example_rule) with [("ACTION==" : bytes) ++ quoted "add"; ("ATTR{a}= " : bytes) ++ quoted "x, y"] in Hk.
    inversion Hk as [|? ? ? ? H1 Hk1]; subst. inversion Hk1 as [|? ? ? ? H2 Hk2]; subst. inversion Hk2; subst.
    vm_compute in H1, H2. by injection H1 as <-; injection H2 as <-.
Defined.

(** A buffer that holds [old] already. *)
Definition buffer (old : bytes) : bytes := take LINE_SIZE (old ++ replicate LINE_SIZE nul).
Example main_ok : main nul (buffer []) (example_rule ++ [newline] ++ ("# comment" : bytes) ++ [newline]) = Some ([], true).
Proof. by vm_compute. Qed.
(** Behind a comma at the end of a line the checker judges what an earlier,
    longer line has left in the buffer. *)
Lemma trailing_comma_reads_on :
  let long := ("KERNEL==" : bytes) ++ quoted "a" ++ (", BAD=" : bytes) ++ quoted "b" in
  let short := ("NAME=" : bytes) ++ quoted "n" ++ ("," : bytes) in
  main nul (buffer []) (long ++ [newline] ++ short ++ [newline]) =
    Some ([Invalid_line 1 (("BAD=" : bytes) ++ quoted "b") 0; Empty_clause 2; Invalid_line 2 (("BAD=" : bytes) ++ quoted "b") 0], false).
Proof. by vm_compute. Qed.
(** So it does in a line of white space, and in a fresh buffer it runs
    through to the end of it. *)
Lemma blank_line_reads_on : main nul (buffer []) ("   " ++ [newline]) = None.
Proof. by vm_compute. Qed.
(** The last line needs a newline. *)
Lemma no_newline_reads_on : main nul (buffer []) (("NAME=" : bytes) ++ quoted "n") = None.
Proof. by vm_compute. Qed.
(** For an empty line the byte in front of the buffer is looked at. *)
Lemma empty_line_reads_before : main nul (buffer []) [newline] = Some ([], true) /\ main "\" (buffer []) [newline] = None.
Proof. by split; vm_compute. Qed.

(** White space behind a value is an error for the checker, and no error for
    the rules parser. *)
Lemma trailing_space_rejected :
  let c := ("NAME=" : bytes) ++ quoted "n" ++ (" " : bytes) in
  check c = - EVALUE /\ get_key c = Some (("NAME" : bytes), OP_ASSIGN, ("n" : bytes), (" " : bytes)).
Proof. by split; vm_compute. Qed.
(** An escaped quote ends the quotes for the checker's search for commas. *)
Lemma escaped_quote_splits :
  let v := ("say \" : bytes) ++ [dquote] ++ ("a, b\" : bytes) ++ [dquote] in
  let line := ("RUN+=" : bytes) ++ quoted v in
  length (clauses line) = 2%nat /\
  get_key line = Some (("RUN" : bytes), OP_ADD, ("say " : bytes) ++ quoted "a, b", []).
Proof. by split; vm_compute. Qed.
(** A prefix of a name with an attribute passes, also the empty one; the
    rules parser does not know it. *)
Lemma key_prefix_accepted :
  check (("E{x}=" : bytes) ++ quoted "y") = 1 /\ check (("{x}=" : bytes) ++ quoted "y") = 1 /\
  let st := mk_udev_rules (P := Strbuf.strbuf) 1 (rules_new 8) [] 0 [] 0 false in
  let tmp := mk_rule_tmp (mk_rule_token false false 0 0 0 1) [] false in
  match add_rule_key (fun _ => true) (fun _ => None) (fun _ => true) (fun _ => None) st tmp "E{x}" OP_ASSIGN "y" with
  | Invalid _ _ => True | Cont _ _ => False end.
Proof. split_and!; by vm_compute. Qed.
End RuleCheck.
