(* ===== verification/EventProps.v ===== *)
(** The expansion of $ and % in the values of rules, and the output of
    programs: what [Event] computes. *)

From Stdlib Require Import ZArith Lia Ascii.
From stdpp Require Import prelude gmap strings sorting.
From S2P Require Import Prelude Utils Strings Encode System UdevList Device Event.
Import Mem Device Event.

Module EventProps.

(** * Formats *)

(** A format in pieces: text, and substitutions in their short form. *)
Inductive seg := Lit (s : bytes) | Sub (ty : subst_type) (attr : option bytes).
Definition fmt_char (ty : subst_type) : byte :=
  match ty with
  | SUBST_DEVNODE => "N" | SUBST_ATTR => "s" | SUBST_ENV => "E" | SUBST_KERNEL => "k"
  | SUBST_KERNEL_NUMBER => "n" | SUBST_DRIVER => "d" | SUBST_DEVPATH => "p" | SUBST_ID => "b"
  | SUBST_MAJOR => "M" | SUBST_MINOR => "m" | SUBST_RESULT => "c" | SUBST_PARENT => "P"
  | SUBST_NAME => "D" | SUBST_LINKS => "L" | SUBST_ROOT => "r" | SUBST_SYS => "S"
  end%char.
Definition special (c : byte) : bool := (c ==c "$") || (c ==c "%").
(** $ and % are doubled in text. *)
Fixpoint print_lit (s : bytes) : bytes :=
  match s with
  | [] => []
  | c :: s' => (if special c then [c; c] else [c]) ++ print_lit s'
  end.
Definition print_seg (g : seg) : bytes :=
  match g with
  | Lit s => print_lit s
  | Sub ty attr =>
      "%"%char :: fmt_char ty :: match attr with Some a => "{"%char :: a ++ ["}"%char] | None => [] end
  end.
Fixpoint print_segs (gs : list seg) : bytes :=
  match gs with [] => [] | g :: gs' => print_seg g ++ print_segs gs' end.
(** The attribute in braces has no closing brace and fits its buffer; text
    behind a substitution without braces opens none. *)
Fixpoint segs_ok (gs : list seg) : Prop :=
  match gs with
  | [] => True
  | Lit _ :: gs' => segs_ok gs'
  | Sub _ attr :: gs' =>
      match attr with
      | Some a => ("}"%char ∉ a) /\ (length a < UTIL_PATH_SIZE)%nat
      | None => nth 0 (print_segs gs') nul <> "{"%char
      end /\ segs_ok gs'
  end.

Section format.
Context `{SY : System} {PR : Programs}.

(** What the pieces stand for, from left to right. *)
Fixpoint expand (gs : list seg) : E bytes :=
  match gs with
  | [] => mret []
  | Lit s :: gs' => t ← expand gs'; mret (s ++ t)
  | Sub ty attr :: gs' => v ← subst_value ty attr; t ← expand gs'; mret (mjoin v ++ t)
  end.

Lemma next_item_lit c rest :
  next_item ((if special c then [c; c] else [c]) ++ rest) = Some (Copy c rest).
Proof.
  unfold special. destruct (eqbP c "$") as [->|H1]; [done|]. destruct (eqbP c "%") as [->|H2]; [done|].
  simpl. rewrite (proj2 (Ascii.eqb_neq _ _) H1), (proj2 (Ascii.eqb_neq _ _) H2). done.
Qed.
Lemma next_item_sub ty rest : next_item ("%"%char :: fmt_char ty :: rest) = Some (Subst ty rest).
Proof. by destruct ty. Qed.
Lemma subst_attr_none s : nth 0 s nul <> "{"%char -> subst_attr s = Some (None, s).
Proof. destruct s as [|c s]; [done|]. simpl. intros H. by rewrite (proj2 (Ascii.eqb_neq _ _) H). Qed.
Lemma subst_attr_some a s :
  "}"%char ∉ a -> (length a < UTIL_PATH_SIZE)%nat ->
  subst_attr ("{"%char :: a ++ "}"%char :: s) = Some (Some a, s).
Proof. 
  intros Ha Hl. unfold subst_attr. rewrite Ascii.eqb_refl, split_chr_app by done.
  by rewrite (proj2 (Nat.leb_gt _ _)) by done.
 Qed.

Lemma format_lit s rest fuel d st :
  (length (print_lit s ++ rest) < fuel)%nat -> (length s <= left_ d)%nat ->
  exists fuel', (length rest < fuel')%nat /\
    apply_format_loop fuel (print_lit s ++ rest) d st =
    apply_format_loop fuel' rest (mk_dst (out d ++ s) (left_ d - length s)) st.
Proof.
  revert fuel d. induction s as [|c s IH]; intros fuel [o l] Hf Hl; simpl in Hl.
  - exists fuel. rewrite app_nil_r, Nat.sub_0_r. done.
  - destruct fuel as [|fuel]; [lia|]. cbn [print_lit] in *. rewrite <- app_assoc in *.
    cbn [apply_format_loop]. rewrite next_item_lit. cbn [left_ out]. rewrite (proj2 (Nat.eqb_neq l 0)) by lia.
    destruct (IH fuel (mk_dst (o ++ [c]) (l - 1))) as (fuel' & H1 & H2); [|simpl; lia|].
    { rewrite length_app in Hf. destruct (special c); simpl in Hf; lia. }
    exists fuel'. split; [done|]. rewrite H2. simpl. rewrite <- app_assoc. simpl. do 2 f_equal. lia.
Qed.

Lemma format_segs gs fuel d st :
  segs_ok gs -> (length (print_segs gs) < fuel)%nat ->
  let '(t, st') := expand gs st in
  (length t < left_ d)%nat ->
  apply_format_loop fuel (print_segs gs) d st = (mk_dst (out d ++ t) (left_ d - length t), st').
Proof.
  revert fuel d st. induction gs as [|g gs IH]; intros fuel d st Hok Hf.
  { simpl. intros _. destruct fuel; [simpl in Hf; lia|]. simpl. destruct d. by rewrite app_nil_r, Nat.sub_0_r. }
  destruct g as [s|ty attr]; cbn [expand print_segs print_seg] in *; unfold mbind, state_bind.
  - destruct (expand gs st) as [t st'] eqn:E. cbn. rewrite length_app. intros Hl.
    destruct (format_lit s (print_segs gs) fuel d st Hf) as (fuel' & H1 & ->); [lia|].
    specialize (IH fuel' (mk_dst (out d ++ s) (left_ d - length s)) st Hok H1). rewrite E in IH.
    rewrite IH by (simpl; lia). simpl. rewrite <- app_assoc. do 2 f_equal. lia.
  - destruct Hok as [Ha Hok]. destruct fuel as [|fuel]; [lia|].
    destruct (subst_value ty attr st) as [v st1] eqn:Ev. destruct (expand gs st1) as [t st'] eqn:E.
    unfold mret, state_ret. cbv beta iota. rewrite length_app. intros Hl.
    cbn [app apply_format_loop]. rewrite next_item_sub.
    assert (subst_attr (match attr with Some a => "{"%char :: a ++ ["}"%char] | None => [] end ++ print_segs gs)
            = Some (attr, print_segs gs)) as ->.
    { destruct attr as [a|]; [|by apply subst_attr_none]. destruct Ha as [Ha1 Ha2].
      simpl. rewrite <- app_assoc. by apply subst_attr_some. }
    unfold mbind, state_bind. rewrite Ev.
    specialize (IH fuel (strpcpyl d v) st1 Hok). rewrite E in IH.
    rewrite IH; [|simpl in Hf; rewrite length_app in Hf; lia|rewrite strpcpyl_fits by lia; simpl; lia].
    rewrite strpcpyl_fits by lia. simpl. rewrite <- app_assoc. do 2 f_equal. lia.
Qed.

(** Text without $ and % is stored as far as the buffer goes, the last byte
    included. *)
Lemma format_text src fuel d st :
  Forall (fun c => special c = false) src -> (length src < fuel)%nat ->
  apply_format_loop fuel src d st = (mk_dst (out d ++ take (left_ d) src) (left_ d - length src), st).
Proof.
  intros Hs. revert fuel d. induction Hs as [|c src Hc _ IH]; intros fuel [o l] Hf; simpl in Hf.
  - destruct fuel; [lia|]. simpl. by rewrite take_nil, app_nil_r, Nat.sub_0_r.
  - destruct fuel as [|fuel]; [lia|]. cbn [apply_format_loop].
    pose proof (next_item_lit c src) as Hn. rewrite Hc in Hn. cbn [app] in Hn. rewrite Hn. cbn [left_ out].
    destruct l as [|l]; simpl; [by rewrite app_nil_r|]. rewrite IH by lia. simpl.
    by rewrite <- app_assoc, Nat.sub_0_r.
Qed.

Definition inside (size : nat) (d : dst) : Prop := (length (out d) + left_ d <= size)%nat.
Lemma inside_strpcpyl size d v : inside size d -> inside size (strpcpyl d v).
Proof.
  unfold inside. intros H. destruct (decide (left_ d = 0%nat)) as [Hz|Hnz].
  - assert (strpcpyl d v = d) as ->; [|done].
    clear H. destruct d as [o l]. simpl in Hz. subst l. induction v as [|s v IH]; [done|exact IH].
  - rewrite strpcpyl_eq by done. simpl. rewrite length_app, length_take.
    destruct (Nat.ltb_spec (length (mjoin v)) (left_ d)); lia.
Qed.
Lemma inside_loop size fuel from d st : inside size d -> inside size (apply_format_loop fuel from d st).1.
Proof.
  revert from d st. induction fuel as [|fuel IH]; intros from d st Hd; [done|]. cbn [apply_format_loop].
  destruct (next_item from) as [[ty rest|c rest]|]; [| |done].
  - destruct (subst_attr rest) as [[attr rest']|]; [|done]. unfold mbind, state_bind.
    destruct (subst_value ty attr st) as [v st']. by apply IH, inside_strpcpyl.
  - destruct (Nat.eqb_spec (left_ d) 0); [done|]. apply IH. unfold inside in *. simpl. rewrite length_app. simpl. lia.
Qed.

(** C12: the expansion of a format in pieces (text with $ and % doubled, and
    substitutions with or without an attribute in braces) is the text with
    every substitution replaced by its value, computed from left to right,
    whenever the result fits in front of the terminator. *)
Theorem apply_format_expand gs size st :
  segs_ok gs ->
  let '(t, st') := expand gs st in
  (length t < size)%nat ->
  udev_event_apply_format (print_segs gs) size st = ((t, size - length t)%nat, st').
Proof.
  intros Hok. pose proof (format_segs gs (S (length (print_segs gs))) (dst_new size) st Hok ltac:(lia)) as H.
  destruct (expand gs st) as [t st']. intros Hl. specialize (H Hl).
  unfold udev_event_apply_format, mbind, state_bind. by rewrite H.
Qed.

(** For any format and any values the expansion never stores more bytes
    than the buffer has; but text that is as long as the buffer fills it
    completely, so that the terminator, which is stored behind the text, is
    one byte behind the buffer. *)
Lemma apply_format_bound src size st :
  let '((t, room), _) := udev_event_apply_format src size st in
  (length t + room <= size)%nat /\
  (Forall (fun c => special c = false) src -> (size <= length src)%nat -> t = take size src /\ length t = size).
Proof.
  unfold udev_event_apply_format, mbind, state_bind.
  pose proof (inside_loop size (S (length src)) src (dst_new size) st) as Hb.
  pose proof (format_text src (S (length src)) (dst_new size) st) as Ht.
  destruct (apply_format_loop _ _ _ st) as [d st']. split; [by apply Hb; unfold inside; simpl|].
  intros Hs Hl. specialize (Ht Hs ltac:(lia)). simplify_eq/=. split; [done|]. rewrite length_take. lia.
Qed.
End format.

(** The device sda and a format for it. *)
Definition format_device : udev_device :=
  device_new <| d_syspath := Some ("/sys/devices/sda" : bytes) |> <| d_sysname := Some ("sda" : bytes) |>
             <| d_uevent_loaded := true |> <| d_info_loaded := true |>.
Lemma apply_format_expand_witness :
  fst (udev_event_apply_format (SY := file_system) "100%% %k at %S%p" 64
    (∅, event_of format_device)) = (("100% sda at /sys/devices/sda" : bytes), 36%nat).
Proof.
  pose proof (@apply_format_expand file_system
    [Lit "100% "; Sub SUBST_KERNEL None; Lit " at "; Sub SUBST_SYS None; Sub SUBST_DEVPATH None] 64
    (∅, event_of format_device)) as H.
  assert (fst (udev_event_apply_format (SY := file_system)
    (print_segs [Lit "100% "; Sub SUBST_KERNEL None; Lit " at "; Sub SUBST_SYS None; Sub SUBST_DEVPATH None]) 64
    (∅, event_of format_device)) = (("100% sda at /sys/devices/sda" : bytes), 36%nat)) as H'; [|exact H'].
  destruct (expand _ _) as [t st'] eqn:E in H. vm_compute in E. injection E as <- <-.
  rewrite H; [reflexivity|by split_and!|apply Nat.ltb_lt; reflexivity].
Defined.
End EventProps.
