(* ===== verification/RuleApply.v ===== *)
(** src/core/udev-rules.c, last part: the rules are applied to an event
    ([udev_rules_apply_to_event]).  The token array is a program: the loop
    keeps the current token, the current rule and how strings are escaped, and
    a key that does not match skips to the next rule. *)

From Stdlib Require Import ZArith Lia Ascii.
From stdpp Require Import prelude gmap strings sorting.
From S2P Require Import Prelude Utils Strings Encode Strbuf RuleTokens RuleParse System UdevList Device Event.
Import Mem ParseValue Lookup Device Event.

Module RuleApply.

#[local] Abbreviation skip := (mret Datatypes.tt).
#[local] Abbreviation on_dev := (on 0).

Section apply.
Context {P : Type} `{Hpool : StringPool P} `{SY : System} {PR : Programs}.
Implicit Types (r : @rules P) (k : key_token).
#[local] Abbreviation get_subsystem := (udev_device_get_subsystem udev_device_get_properties_list_entry).

(** * Matching *)

Fixpoint match_split (fuel : nat) (s val : bytes) : bool :=
  match fuel with
  | O => false
  | S fuel' =>
      match split_chr s "|" with
      | (a, Some next) => bool_decide (a = val) || match_split fuel' next val
      | (a, None) => bool_decide (a = val)
      end
  end.
Fixpoint match_split_glob (fuel : nat) (s val : bytes) : bool :=
  match fuel with
  | O => false
  | S fuel' =>
      match split_chr s "|" with
      | (a, Some next) => fnmatch a val || match_split_glob fuel' next val
      | (a, None) => fnmatch a val
      end
  end.
(** Whether the value matches the pattern of the key; [None] for a key without
    a pattern. *)
Definition match_value (g : string_glob_type) (key_value val : bytes) : option bool :=
  match g with
  | GL_PLAIN => Some (str_eq (Some key_value) (Some val))
  | GL_GLOB => Some (fnmatch key_value val)
  | GL_SPLIT => Some (match_split (S (length key_value)) key_value val)
  | GL_SPLIT_GLOB =>
      let value := fst (strscpy UTIL_PATH_SIZE key_value) in
      Some (match_split_glob (S (length value)) value val)
  | GL_SOMETHING => Some (negb (nth 0 val nul ==c nul))
  | GL_UNSET => None
  end.
(** [true] is the result 0. *)
Definition match_key r k (val : option bytes) : bool :=
  match match_value (glob k) (rules_str r (value_off k)) (default [] val) with
  | None => false
  | Some m => (m && bool_decide (op k = OP_MATCH)) || (negb m && bool_decide (op k = OP_NOMATCH))
  end.

(** The loop that strips the value starts at the length it had before it was
    copied to the buffer; behind the buffer it finds no space. *)
Definition strip_value r k (value : bytes) : bytes :=
  let len := length value in
  let key_value := rules_str r (value_off k) in
  let klen := length key_value in
  if (0 <? len)%nat && isspace (nth (len - 1) value nul) &&
     (0 <? klen)%nat && negb (isspace (nth (klen - 1) key_value nul))
  then let vbuf := fst (strscpy UTIL_NAME_SIZE value) in take (strip_len vbuf len) vbuf
  else value.
Definition match_attr r (dev : nat) k : E bool :=
  let name := rules_str r (data k) in
  let with_name name :=
    value ← on dev (udev_device_get_sysattr_value name);
    mret (match value with None => false | Some value => match_key r k (Some (strip_value r k value)) end) in
  match attrsubst k with
  | SB_FORMAT => '(nbuf, _) ← udev_event_apply_format name UTIL_NAME_SIZE; with_name nbuf
  | SB_NONE => with_name name
  | SB_SUBSYS =>
      value ← ev_sys (util_resolve_subsys_kernel name UTIL_NAME_SIZE true);
      mret (match value with None => false | Some value => match_key r k (Some (strip_value r k value)) end)
  | SB_UNSET => mret false
  end.

(** * Parents *)

Inductive parent_match := AllMatch | TryParent | WrongKey.
(** One key for the device at [i]; [cur] is the first key of the sequence. *)
Definition match_parent_key r (cur : key_token) (i : nat) k : E parent_match :=
  let check (b : bool) := if b then AllMatch else TryParent in
  e ← ev (fun e => e);
  match type k with
  | TK_M_KERNELS => mret (check (match_key r k (d_sysname (device_at e i))))
  | TK_M_SUBSYSTEMS => s ← on i get_subsystem; mret (check (match_key r k s))
  | TK_M_DRIVERS => s ← on i udev_device_get_driver; mret (check (match_key r k s))
  | TK_M_ATTRS => b ← match_attr r i k; mret (check b)
  | TK_M_TAGS =>
      m ← on i (udev_device_has_tag (rules_str r (value_off cur)));
      mret (if (m && bool_decide (op k = OP_NOMATCH)) || (negb m && bool_decide (op k = OP_MATCH))
            then TryParent else AllMatch)
  | _ => mret WrongKey
  end.
Fixpoint match_parent_keys r (cur : key_token) (i : nat) (keys : list key_token) : E parent_match :=
  match keys with
  | [] => mret AllMatch
  | k :: keys' =>
      m ← match_parent_key r cur i k;
      match m with AllMatch => match_parent_keys r cur i keys' | _ => mret m end
  end.
(** The loop over the device at [i] and its parents; [None] is out of fuel. *)
Fixpoint match_parents (fuel : nat) r (cur : key_token) (keys : list key_token) (i : nat) : E (option bool) :=
  match fuel with
  | O => mret None
  | S fuel' =>
      m ← match_parent_keys r cur i keys;
      match m with
      | AllMatch => mret (Some true)
      | WrongKey => mret (Some false)
      | TryParent =>
          p ← udev_device_get_parent i;
          ev_update (fun e => e <| ev_dev_parent := p |>) ;;
          match p with
          | None => mret (Some false)
          | Some i => match_parents fuel' r cur keys i
          end
      end
  end.

Definition is_parent_key (ty : token_type) : bool := (tt TK_M_PARENTS_MIN <? tt ty) && (tt ty <? tt TK_M_PARENTS_MAX).
(** The whole sequence of parent keys from [i] on. *)
Fixpoint parent_keys (toks : list token) : list key_token :=
  match toks with
  | KeyToken k :: toks' => if is_parent_key (type k) then k :: parent_keys toks' else []
  | _ => []
  end.

(** * Files *)

Fixpoint wait_loop (n : nat) (file devicepath : bytes) : state world Z :=
  match n with
  | O => mret (-1)
  | S n' =>
      st ← sys_stat file;
      match st with
      | Some _ => mret 0
      | None =>
          dev ← (if bool_decide (devicepath <> []) then sys_stat devicepath else mret (Some 0));
          match dev with
          | None => mret (-2)
          | Some _ => wait_loop n' file devicepath
          end
      end
  end.
(** 50 times a second; [while (--loop)] leaves one out. *)
Definition wait_for_file (d : udev_device) (file : bytes) (timeout : nat) : state world Z :=
  if negb (nth 0 file nul ==c "/") then
    let devicepath := fst (strscpyl UTIL_PATH_SIZE [syspath d]) in
    wait_loop (timeout * 50 - 1) (fst (strscpyl UTIL_PATH_SIZE [devicepath; "/" : bytes; file])) devicepath
  else wait_loop (timeout * 50 - 1) file [].

(** The first name in the directory for which the file exists; [attr] is
    overwritten by the names that were tried. *)
Fixpoint subdir_loop (names : list bytes) (dirname tail attr : bytes) (len : nat) : state world bytes :=
  match names with
  | [] => mret attr
  | n :: names' =>
      if nth 0 n nul ==c "." then subdir_loop names' dirname tail attr len
      else
        let attr := fst (strscpyl len [dirname; "/" : bytes; n; tail]) in
        st ← sys_stat attr;
        match st with
        | Some _ => mret attr
        | None => subdir_loop names' dirname tail attr len
        end
  end.
Definition attr_subst_subdir (attr : bytes) (len : nat) : state world bytes :=
  match strstr attr "/*/" with
  | None => mret attr
  | Some _ =>
      let dirname := fst (strscpy UTIL_PATH_SIZE attr) in
      match strstr dirname "/*/" with
      | None => mret attr
      | Some pos =>
          let dir := take (length dirname - length pos) dirname in
          names ← sys_readdir dir;
          match names with
          | None => mret attr
          | Some names => subdir_loop names dir (drop 2 pos) attr len
          end
      end
  end.

(** * Imports *)

Definition set_marked (key : bytes) (e : option bytes) : D unit :=
  if nth 0 key nul ==c "." then skip else udev_list_entry_set_num_of e 1.
(** The key and the value of a line. *)
Definition import_line (line : bytes) : option (bytes * bytes) :=
  let key := skip_space line in
  if (nth 0 key nul ==c "#") || bool_decide (key = []) then None
  else
    match split_chr key "=" with
    | (_, None) => None
    | (key, Some val) =>
        let val := skip_space val in
        if bool_decide (key = []) then None
        else
          let key := strip_spaces key in
          if bool_decide (val = []) then None
          else
            let val := strip_spaces val in
            let len := length val in
            if (len =? 0)%nat then None
            else
              let q := nth 0 val nul in
              if (q ==c dquote) || (q ==c squote) then
                if negb (nth (len - 1) val nul ==c q) then None
                else Some (key, drop 1 (take (len - 1) val))
              else Some (key, val)
    end.

Definition import_property_from_string (line : bytes) : D Z :=
  match import_line line with
  | None => mret (-1)
  | Some (key, val) =>
      e ← udev_device_add_property key (Some val);
      set_marked key e ;; mret 0
  end.
Definition import_file_into_properties (filename : bytes) : D Z :=
  f ← sys (sys_read_file filename);
  match f with
  | None => mret (-1)
  | Some f => for_each (file_lines UTIL_LINE_SIZE f) (fun l => import_property_from_string l ;; skip) ;; mret 0
  end.
Fixpoint import_result (fuel : nat) (line : bytes) : D unit :=
  match fuel with
  | O => skip
  | S fuel' =>
      match split_chr line newline with
      | (line, Some pos) => import_property_from_string line ;; import_result fuel' pos
      | (line, None) => import_property_from_string line ;; skip
      end
  end.
Definition import_program_into_properties (program : bytes) : E Z :=
  envp ← on_dev udev_device_get_properties_envp;
  '(err, result) ← udev_event_spawn program envp UTIL_LINE_SIZE;
  if err <? 0 then mret err
  else on_dev (import_result (S (length result)) result) ;; mret 0.
Definition import_parent_into_properties (filter : bytes) : E Z :=
  p ← udev_device_get_parent 0;
  match p with
  | None => mret (-1)
  | Some p =>
      es ← on p udev_device_get_properties_list_entry;
      for_each es (fun e =>
        if fnmatch filter (e_name e) then
          on_dev (x ← udev_device_add_property (e_name e) (e_value e); set_marked (e_name e) x)
        else skip) ;;
      mret 0
  end.
(** Whether the key is on the command line of the kernel, and its value. *)
Fixpoint take_nonspace (s : bytes) : bytes :=
  match s with
  | c :: s' => if isspace c then [] else c :: take_nonspace s'
  | [] => []
  end.
Definition cmdline_value (cmdline key : bytes) : option bytes :=
  match strstr cmdline key with
  | None => None
  | Some pos =>
      match drop (length key) pos with
      | [] => Some ("1" : bytes)
      | c :: pos =>
          if isspace c then Some ("1" : bytes)
          else if c ==c "=" then Some (take_nonspace pos)
          else None
      end
  end.
Definition import_cmdline (key : bytes) : D bool :=
  f ← sys (sys_read_file "/proc/cmdline");
  match f with
  | None => mret false
  | Some f =>
      match fgets 4096 f with
      | None => mret false
      | Some (cmdline, _) =>
          match cmdline_value (until_nul cmdline) key with
          | None => mret false
          | Some value =>
              e ← udev_device_add_property key (Some value);
              udev_list_entry_set_num_of e 1 ;; mret true
          end
      end
  end.

(** * The keys of a rule

    Every case of the loop over the tokens is a computation that tells whether
    the rule goes on ([false] is [goto nomatch]). *)

Inductive escape_type := ESCAPE_UNSET | ESCAPE_NONE | ESCAPE_REPLACE.
#[export] Instance escape_type_eq_dec : EqDecision escape_type.
Proof. solve_decision. Defined.

Definition value_of r k : bytes := rules_str r (value_off k).
Definition attr_of r k : bytes := rules_str r (data k).
(** The buffer after [udev_event_apply_format]. *)
Definition format (src : bytes) (size : nat) : E bytes :=
  '(s, _) ← udev_event_apply_format src size; mret s.
Definition nomatch_op k : bool := bool_decide (op k = OP_NOMATCH).
Definition is_final k : bool := bool_decide (op k = OP_ASSIGN_FINAL).
Definition assigns k : bool := bool_decide (op k = OP_ASSIGN) || is_final k.
Definition escaped (esc : escape_type) : bool := negb (bool_decide (esc = ESCAPE_NONE)).

Definition m_devlink r k : E bool :=
  es ← on_dev udev_device_get_devlinks_list_entry;
  mret (existsb (fun e => match_key r k (Some (drop 5 (e_name e)))) es).
Definition m_env r k : E bool :=
  v ← on_dev (udev_device_get_property_value (attr_of r k));
  mret (match_key r k (Some (default [] v))).
Definition m_tag r k : E bool :=
  es ← on_dev udev_device_get_tags_list_entry;
  mret (existsb (fun e => str_eq (Some (value_of r k)) (Some (e_name e))) es || nomatch_op k).
Definition m_waitfor r k : E bool :=
  filename ← format (value_of r k) UTIL_PATH_SIZE;
  e ← ev id;
  found ← ev_sys (wait_for_file (device_at e 0) filename 10);
  mret ((found =? 0) || nomatch_op k).
Definition m_test r k : E bool :=
  filename ← format (value_of r k) UTIL_PATH_SIZE;
  e ← ev id;
  path ← ev_sys (util_resolve_subsys_kernel filename UTIL_PATH_SIZE false);
  let filename :=
    match path with
    | Some path => path
    | None =>
        if negb (nth 0 filename nul ==c "/")
        then fst (strscpyl UTIL_PATH_SIZE [syspath (device_at e 0); "/" : bytes; fst (strscpy UTIL_PATH_SIZE filename)])
        else filename
    end in
  filename ← ev_sys (attr_subst_subdir filename UTIL_PATH_SIZE);
  st ← ev_sys (sys_stat filename);
  let found := match st with
               | Some mode => if 0 <? data k then 0 <? Z.land mode (data k) else true
               | None => false
               end in
  mret (negb ((found && nomatch_op k) || (negb found && bool_decide (op k = OP_MATCH)))).
Definition m_program r (esc : escape_type) k : E bool :=
  ev_update (fun e => e <| ev_program_result := None |>) ;;
  program ← format (value_of r k) UTIL_PATH_SIZE;
  envp ← on_dev udev_device_get_properties_envp;
  '(err, result) ← udev_event_spawn program envp UTIL_LINE_SIZE;
  if err <? 0 then mret (nomatch_op k)
  else
    let result := util_remove_trailing_chars result newline in
    let result := if escaped esc then fst (util_replace_chars result (Some UDEV_ALLOWED_CHARS_INPUT)) else result in
    ev_update (fun e => e <| ev_program_result := Some result |>) ;;
    mret (negb (nomatch_op k)).
Definition m_import (import : bytes -> E Z) r k : E bool :=
  s ← format (value_of r k) UTIL_PATH_SIZE;
  res ← import s;
  mret ((res =? 0) || nomatch_op k).
(** blkid, path_id and usb_id. *)
Definition udev_builtin_run_once (cmd : Z) : bool := (cmd =? 0) || (cmd =? 7) || (cmd =? 8).
Definition m_import_builtin r k : E bool :=
  let cmd := data k in
  e ← ev id;
  if udev_builtin_run_once cmd && Z.testbit (ev_builtin_run e) cmd then
    mret (negb (Z.testbit (ev_builtin_ret e) cmd) || nomatch_op k)
  else
    (if udev_builtin_run_once cmd
     then ev_update (fun e => e <| ev_builtin_run := Z.setbit (ev_builtin_run e) cmd |>) else skip) ;;
    command ← format (value_of r k) UTIL_PATH_SIZE;
    res ← udev_builtin_run cmd command;
    if negb (res =? 0) then
      ev_update (fun e => e <| ev_builtin_ret := Z.setbit (ev_builtin_ret e) cmd |>) ;;
      mret (nomatch_op k)
    else mret true.
Definition m_import_db r k : E bool :=
  e ← ev id;
  v ← (match ev_dev_db e with
       | None => mret None
       | Some db =>
           '(v, db) ← ev_sys (run_device db (udev_device_get_property_value (value_of r k)));
           ev_update (fun e => e <| ev_dev_db := Some db |>) ;; mret v
       end);
  match v with
  | Some v =>
      on_dev (x ← udev_device_add_property (value_of r k) (Some v); udev_list_entry_set_num_of x 1) ;;
      mret true
  | None => mret (nomatch_op k)
  end.
Definition m_import_cmdline r k : E bool :=
  imported ← on_dev (import_cmdline (value_of r k));
  mret (imported || nomatch_op k).

Definition a_inotify_watch k : E unit :=
  e ← ev id;
  if ev_inotify_watch_final e then skip
  else ev_update (fun e =>
    (if is_final k then e <| ev_inotify_watch_final := true |> else e)
      <| ev_inotify_watch := negb (data k =? 0) |>).
Definition a_owner r k : E unit :=
  e ← ev id;
  if ev_owner_final e then skip
  else
    ev_update (fun e => if is_final k then e <| ev_owner_final := true |> else e) ;;
    owner ← format (value_of r k) UTIL_NAME_SIZE;
    ev_update (fun e => e <| ev_owner_set := true |>
                          <| ev_uid := default 0 (lookup_user getpwuid getpwnam (Some owner)) |>).
Definition a_group r k : E unit :=
  e ← ev id;
  if ev_group_final e then skip
  else
    ev_update (fun e => if is_final k then e <| ev_group_final := true |> else e) ;;
    group ← format (value_of r k) UTIL_NAME_SIZE;
    ev_update (fun e => e <| ev_group_set := true |>
                          <| ev_gid := default 0 (lookup_group getgrgid getgrnam (Some group)) |>).
Definition set_mode k (mode : Z) : E unit :=
  ev_update (fun e => (if is_final k then e <| ev_mode_final := true |> else e)
                        <| ev_mode_set := true |> <| ev_mode := mode |>).
Definition a_mode r k : E unit :=
  e ← ev id;
  if ev_mode_final e then skip
  else
    mode_str ← format (value_of r k) UTIL_NAME_SIZE;
    match strtol 8 mode_str with
    | (mode, []) => set_mode k (Z.land ACCESSPERMS mode)
    | _ => skip
    end.
Definition a_owner_id k : E unit :=
  e ← ev id;
  if ev_owner_final e then skip
  else ev_update (fun e => (if is_final k then e <| ev_owner_final := true |> else e)
                             <| ev_owner_set := true |> <| ev_uid := data k |>).
Definition a_group_id k : E unit :=
  e ← ev id;
  if ev_group_final e then skip
  else ev_update (fun e => (if is_final k then e <| ev_group_final := true |> else e)
                             <| ev_group_set := true |> <| ev_gid := data k |>).
Definition a_mode_id k : E unit :=
  e ← ev id;
  if ev_mode_final e then skip else set_mode k (data k).
Definition a_seclabel r k : E unit :=
  ev_update (fun e => e <| ev_seclabel_list :=
    spec_add false (if assigns k then [] else ev_seclabel_list e) (attr_of r k) (Some (value_of r k)) |>).
Definition a_env r k : E unit :=
  let name := attr_of r k in
  let value := value_of r k in
  let add := bool_decide (op k = OP_ADD) in
  match value with
  | [] => if add then skip else on_dev (udev_device_add_property name None) ;; skip
  | _ =>
      old ← (if add then on_dev (udev_device_get_property_value name) else mret None);
      value ← format value UTIL_NAME_SIZE;
      let value := match old with
                   | Some old => fst (strscpyl UTIL_NAME_SIZE [old; " " : bytes; value])
                   | None => value
                   end in
      on_dev (e ← udev_device_add_property name (Some value); set_marked name e)
  end.
(** A name with other characters is only logged. *)
Definition a_tag r k : E unit :=
  tag ← format (value_of r k) UTIL_PATH_SIZE;
  (if assigns k then on_dev udev_device_cleanup_tags_list else skip) ;;
  on_dev (udev_device_add_tag tag) ;; skip.
(** A device with a number but without a node is not handled by the code. *)
Definition a_name r (esc : escape_type) k : E unit :=
  e ← ev id;
  if ev_name_final e then skip
  else
    ev_update (fun e => if is_final k then e <| ev_name_final := true |> else e) ;;
    name ← format (value_of r k) UTIL_PATH_SIZE;
    let name := if escaped esc then fst (util_replace_chars name (Some ("/" : bytes))) else name in
    num ← on_dev udev_device_get_devnum;
    node ← (if negb (major num =? 0) then on_dev udev_device_get_devnode else mret None);
    if negb (major num =? 0) && negb (bool_decide (Some name = drop 5 <$> node)) then skip
    else ev_update (fun e => e <| ev_name := Some name |>).
Fixpoint add_links (fuel : nat) (pos : bytes) : D unit :=
  match fuel with
  | O => skip
  | S fuel' =>
      let add pos := udev_device_add_devlink (fst (strscpyl UTIL_PATH_SIZE ["/dev/" : bytes; pos])) in
      match split_chr pos " " with
      | (pos, Some next) => add pos ;; add_links fuel' (skip_space next)
      | (pos, None) => match pos with [] => skip | _ => add pos end
      end
  end.
Definition a_devlink r (esc : escape_type) k : E unit :=
  e ← ev id;
  if ev_devlink_final e then skip
  else
    num ← on_dev udev_device_get_devnum;
    if major num =? 0 then skip
    else
      ev_update (fun e => if is_final k then e <| ev_devlink_final := true |> else e) ;;
      (if assigns k then on_dev udev_device_cleanup_devlinks_list else skip) ;;
      temp ← format (value_of r k) UTIL_PATH_SIZE;
      let temp := match esc with
                  | ESCAPE_UNSET => fst (util_replace_chars temp (Some ("/ " : bytes)))
                  | ESCAPE_REPLACE => fst (util_replace_chars temp (Some ("/" : bytes)))
                  | ESCAPE_NONE => temp
                  end in
      on_dev (add_links (S (length temp)) (skip_space temp)).
Definition a_attr r k : E unit :=
  e ← ev id;
  attr ← ev_sys (util_resolve_subsys_kernel (attr_of r k) UTIL_PATH_SIZE false);
  let attr := match attr with
              | Some attr => attr
              | None => fst (strscpyl UTIL_PATH_SIZE [syspath (device_at e 0); "/" : bytes; attr_of r k])
              end in
  attr ← ev_sys (attr_subst_subdir attr UTIL_PATH_SIZE);
  value ← format (value_of r k) UTIL_NAME_SIZE;
  err ← ev_sys (sys_create attr);
  if err =? 0 then ev_sys (sys_write attr value) ;; skip else skip.
Definition a_run r k : E unit :=
  ev_update (fun e => e <| ev_run_list :=
    (if assigns k then [] else ev_run_list e) ++ [mk_entry (value_of r k) None (data k)] |>).

(** * The walk over the tokens *)

(** What a key asks the walk to do: go on with the next token and strings
    escaped as given, skip the sequence of parent keys, continue at a token,
    or leave the rule; [OutOfFuel] stands for an endless chain of parents. *)
Inductive outcome := Next (esc : escape_type) | NextParents | Jump (cur : nat) | NoMatch | Diverges.
Definition test (esc : escape_type) (b : bool) : outcome := if b then Next esc else NoMatch.

(** The cases of the switch but TK_RULE and TK_END; [ks] is the rest of the
    tokens from the key on, [fuel] bounds the number of parents. *)
Definition apply_key (fuel : nat) r (esc : escape_type) k (rest : list token) : E outcome :=
  let check (m : E bool) : E outcome := b ← m; mret (test esc b) in
  let str (m : E (option bytes)) : E outcome := check (v ← m; mret (match_key r k v)) in
  let act (m : E unit) : E outcome := m ;; mret (Next esc) in
  match type k with
  | TK_M_ACTION => str (on_dev udev_device_get_action)
  | TK_M_DEVPATH => str (on_dev (field devpath))
  | TK_M_KERNEL => str (on_dev (field d_sysname))
  | TK_M_DEVLINK => check (m_devlink r k)
  | TK_M_NAME => str (ev ev_name)
  | TK_M_ENV => check (m_env r k)
  | TK_M_TAG => check (m_tag r k)
  | TK_M_SUBSYSTEM => str (on_dev get_subsystem)
  | TK_M_DRIVER => str (on_dev udev_device_get_driver)
  | TK_M_WAITFOR => check (m_waitfor r k)
  | TK_M_ATTR => check (match_attr r 0 k)
  | TK_M_KERNELS | TK_M_SUBSYSTEMS | TK_M_DRIVERS | TK_M_ATTRS | TK_M_TAGS =>
      ev_update (fun e => e <| ev_dev_parent := Some 0%nat |>) ;;
      b ← match_parents fuel r k (parent_keys rest) 0;
      mret (match b with None => Diverges | Some true => NextParents | Some false => NoMatch end)
  | TK_M_TEST => check (m_test r k)
  | TK_M_PROGRAM => check (m_program r esc k)
  | TK_M_IMPORT_FILE => check (m_import (fun s => on_dev (import_file_into_properties s)) r k)
  | TK_M_IMPORT_PROG => check (m_import import_program_into_properties r k)
  | TK_M_IMPORT_BUILTIN => check (m_import_builtin r k)
  | TK_M_IMPORT_DB => check (m_import_db r k)
  | TK_M_IMPORT_CMDLINE => check (m_import_cmdline r k)
  | TK_M_IMPORT_PARENT => check (m_import import_parent_into_properties r k)
  | TK_M_RESULT => str (ev ev_program_result)
  | TK_A_STRING_ESCAPE_NONE => mret (Next ESCAPE_NONE)
  | TK_A_STRING_ESCAPE_REPLACE => mret (Next ESCAPE_REPLACE)
  | TK_A_DB_PERSIST => act (on_dev udev_device_set_db_persist)
  | TK_A_INOTIFY_WATCH => act (a_inotify_watch k)
  | TK_A_DEVLINK_PRIO => act (on_dev (udev_device_set_devlink_priority (s32 (data k))))
  | TK_A_OWNER => act (a_owner r k)
  | TK_A_GROUP => act (a_group r k)
  | TK_A_MODE => act (a_mode r k)
  | TK_A_OWNER_ID => act (a_owner_id k)
  | TK_A_GROUP_ID => act (a_group_id k)
  | TK_A_MODE_ID => act (a_mode_id k)
  | TK_A_SECLABEL => act (a_seclabel r k)
  | TK_A_ENV => act (a_env r k)
  | TK_A_TAG => act (a_tag r k)
  | TK_A_NAME => act (a_name r esc k)
  | TK_A_DEVLINK => act (a_devlink r esc k)
  | TK_A_ATTR => act (a_attr r k)
  | TK_A_RUN_BUILTIN | TK_A_RUN_PROGRAM => act (a_run r k)
  | TK_A_GOTO => mret (if data k =? 0 then Next esc else Jump (Z.to_nat (data k)))
  | TK_M_PARENTS_MIN | TK_M_PARENTS_MAX | TK_M_MAX | TK_UNSET => mret NoMatch
  | TK_A_STATIC_NODE | TK_RULE | TK_END => mret (Next esc)
  end.

(** How the walk ends: with a result, at an index outside of the array, or
    (in the model only) without fuel. *)
Inductive walk_result := Finished (res : Z) | OutOfArray | OutOfFuel.
(** [cur] and [rule] are indices; the rule token at [rule] tells where the next
    rule is. *)
Definition next_rule r (rule : nat) : option nat :=
  match tokens r !! rule with
  | Some (RuleToken rt) => Some (rule + Z.to_nat (token_count rt))%nat
  | _ => None
  end.
Fixpoint apply_loop (fuel pfuel : nat) r (can_name : bool) (cur rule : nat) (esc : escape_type) : E walk_result :=
  match fuel with
  | O => mret OutOfFuel
  | S fuel' =>
      let nomatch (rule : nat) :=
        match next_rule r rule with
        | Some cur => apply_loop fuel' pfuel r can_name cur rule esc
        | None => mret OutOfArray
        end in
      match tokens r !! cur with
      | None => mret OutOfArray
      | Some (RuleToken rt) =>
          if negb can_name && can_set_name rt then nomatch cur
          else apply_loop fuel' pfuel r can_name (S cur) cur ESCAPE_UNSET
      | Some (KeyToken k) =>
          if bool_decide (type k = TK_END) then mret (Finished 0)
          else
            o ← apply_key pfuel r esc k (drop cur (tokens r));
            match o with
            | Next esc => apply_loop fuel' pfuel r can_name (S cur) rule esc
            | NextParents =>
                apply_loop fuel' pfuel r can_name
                  (cur + length (parent_keys (drop cur (tokens r))))%nat rule esc
            | Jump cur => apply_loop fuel' pfuel r can_name cur rule esc
            | NoMatch => nomatch rule
            | Diverges => mret OutOfFuel
            end
      end
  end.

(** Only a device with a number or a network interface that is not removed
    can be named. *)
Definition can_be_named : D bool :=
  act ← udev_device_action;
  if act =? ACTION_REMOVE then mret false
  else
    num ← udev_device_get_devnum;
    if 0 <? major num then mret true
    else n ← udev_device_get_ifindex; mret (0 <? n).
(** A token is visited at most once, since the walk only goes forward. *)
Definition udev_rules_apply_to_event (pfuel : nat) r : E walk_result :=
  can_name ← on_dev can_be_named;
  apply_loop (S (length (tokens r))) pfuel r can_name 0 0 ESCAPE_UNSET.
End apply.
End RuleApply.
