(* ===== verification/RuleMatch.v ===== *)
(** How a key compares its pattern with a value ([match_key]), and how lines
    KEY=VALUE of imported files are read. *)

From Stdlib Require Import ZArith Lia Ascii.
From stdpp Require Import prelude gmap strings sorting.
From S2P Require Import Prelude Utils Strings Encode Strbuf RuleTokens RuleParse System UdevList Device Event RuleApply.
Import Mem ParseValue Device Event RuleApply.

Module RuleMatch.

(** Alternatives, separated by bars. *)
Fixpoint join_bar (alts : list bytes) : bytes :=
  match alts with
  | [] => []
  | [a] => a
  | a :: alts' => a ++ "|"%char :: join_bar alts'
  end.
Definition no_bar (a : bytes) : Prop := "|"%char ∉ a.

Section matching.
Context {P : Type} `{Hpool : StringPool P} `{SY : System} {PR : Programs}.
Implicit Types (r : @rules P) (k : key_token).

Lemma join_bar_length a alts : (length alts < S (length (join_bar (a :: alts))))%nat.
Proof.
  revert a. induction alts as [|b alts IH]; intros a; [simpl; lia|].
  specialize (IH b). change (join_bar (a :: b :: alts)) with (a ++ "|"%char :: join_bar (b :: alts)).
  rewrite length_app. simpl length in *. lia.
Qed.
Lemma match_split_alts fuel a alts v :
  Forall no_bar (a :: alts) -> (length alts < fuel)%nat ->
  match_split fuel (join_bar (a :: alts)) v = existsb (fun x => bool_decide (x = v)) (a :: alts).
Proof.
  revert fuel a. induction alts as [|b alts IH]; intros fuel a Hbar Hf;
    (destruct fuel as [|fuel]; [simpl in Hf; lia|]); inversion_clear Hbar as [|?? Ha Hb].
  - simpl. rewrite split_chr_None by done. by rewrite orb_false_r.
  - change (join_bar (a :: b :: alts)) with (a ++ "|"%char :: join_bar (b :: alts)). cbn [match_split].
    rewrite split_chr_app by done. rewrite IH by (simpl in Hf; done || lia). done.
Qed.
Lemma match_split_glob_alts fuel a alts v :
  Forall no_bar (a :: alts) -> (length alts < fuel)%nat ->
  match_split_glob fuel (join_bar (a :: alts)) v = existsb (fun x => fnmatch x v) (a :: alts).
Proof.
  revert fuel a. induction alts as [|b alts IH]; intros fuel a Hbar Hf;
    (destruct fuel as [|fuel]; [simpl in Hf; lia|]); inversion_clear Hbar as [|?? Ha Hb].
  - simpl. rewrite split_chr_None by done. by rewrite orb_false_r.
  - change (join_bar (a :: b :: alts)) with (a ++ "|"%char :: join_bar (b :: alts)). cbn [match_split_glob].
    rewrite split_chr_app by done. rewrite IH by (simpl in Hf; done || lia). done.
Qed.

(** One alternative: by name, or as a glob when the pattern has a wildcard
    somewhere; the whole pattern ?* is any value that is not empty. *)
Definition alternative (pattern v x : bytes) : bool :=
  if string_is_glob pattern then fnmatch x v else bool_decide (x = v).
Definition pattern_matches (pattern : bytes) (alts : list bytes) (v : bytes) : bool :=
  if bool_decide (pattern = "?*"%string :> bytes) then bool_decide (v <> [])
  else existsb (alternative pattern v) alts.

Lemma match_value_alts a alts v :
  Forall no_bar (a :: alts) -> (length (join_bar (a :: alts)) < UTIL_PATH_SIZE)%nat -> cstr v ->
  match_value (glob_of (join_bar (a :: alts))) (join_bar (a :: alts)) v =
  Some (pattern_matches (join_bar (a :: alts)) (a :: alts) v).
Proof.
  intros Hbar Hlen Hv. set (p := join_bar (a :: alts)) in *.
  assert ((if strchr p "|" is Some _ then true else false) = negb (bool_decide (alts = []))) as Hsplit.
  { destruct alts as [|b alts].
    - inversion_clear Hbar as [|?? Ha _]. simpl in p. subst p. destruct (strchr a "|") eqn:E; [|done].
      apply strchr_None in Ha; [congruence|done].
    - destruct (strchr p "|") eqn:E; [done|]. apply strchr_None in E; [|done]. destruct E.
      subst p. change (join_bar (a :: b :: alts)) with (a ++ "|"%char :: join_bar (b :: alts)). set_solver. }
  unfold glob_of, pattern_matches, alternative. rewrite Hsplit.
  assert (alts <> [] -> p <> ("?*" : bytes)) as Hq.
  { intros Hne E. destruct alts as [|b alts]; [done|].
    assert ("|"%char ∈ p) as Hin; [|rewrite E in Hin; set_solver].
    subst p. change (join_bar (a :: b :: alts)) with (a ++ "|"%char :: join_bar (b :: alts)). set_solver. }
  destruct (decide (alts = [])) as [->|Hne].
  - rewrite bool_decide_true by done. simpl andb. cbv iota. rewrite str_eq_spec. simpl in p. subst p.
    destruct (string_is_glob a) eqn:Hg.
    + destruct (decide (a = ("?*" : bytes))) as [->|Hne].
      * rewrite !bool_decide_true by done. simpl. f_equal. destruct v as [|c v]; [done|].
        inversion_clear Hv as [|?? Hc _]. simpl. destruct (eqbP c nul); [done|]. done.
      * rewrite !bool_decide_false by (congruence || done). simpl. by rewrite orb_false_r.
    + rewrite (bool_decide_false (a = _)) by (intros ->; done). cbn [negb andb match_value existsb].
      rewrite str_eq_spec, orb_false_r. f_equal.
      apply bool_decide_ext. split; congruence.
  - rewrite (bool_decide_false (alts = [])), (bool_decide_false (p = _)) by auto. simpl negb. simpl andb.
    pose proof (join_bar_length a alts) as Hl. fold p in Hl.
    destruct (string_is_glob p); cbn [andb match_value].
    + rewrite strscpy_fits by done. subst p. by rewrite match_split_glob_alts.
    + subst p. by rewrite match_split_alts.
Qed.

(** C11: a match key compares as its operator says with the alternatives of its
    pattern: == holds when the value is one of them (or matches one as a glob,
    when the pattern has a wildcard; ?* takes every value that is not empty),
    != holds when it is not, and no other operator ever holds; a value that is
    missing counts as the empty string.  The kind of the pattern, which the
    parser stored in the token, is the one of its text. *)
Theorem match_key_alternatives r k a alts v :
  rules_str r (value_off k) = join_bar (a :: alts) -> glob k = glob_of (join_bar (a :: alts)) ->
  Forall no_bar (a :: alts) -> (length (join_bar (a :: alts)) < UTIL_PATH_SIZE)%nat ->
  (forall s, v = Some s -> cstr s) ->
  match_key r k v =
  let m := pattern_matches (join_bar (a :: alts)) (a :: alts) (default [] v) in
  (m && bool_decide (op k = OP_MATCH)) || (negb m && bool_decide (op k = OP_NOMATCH)).
Proof.
  intros Hs Hg Hbar Hlen Hv. unfold match_key. rewrite Hs, Hg, match_value_alts; [done..|].
  destruct v as [v|]; simpl; [by apply Hv|constructor].
Qed.
End matching.

Lemma match_key_alternatives_witness :
  let '(r, off) := rules_add_string (rules_new 8 : @rules Strbuf.strbuf) "add|change" in
  let k := mk_key_token TK_M_ACTION OP_MATCH GL_SPLIT SB_UNSET SB_UNSET off 0 in
  match_key (SY := file_system) (PR := no_programs) r k (Some ("change" : bytes)) = true.
Proof.
  destruct (rules_add_string _ _) as [r off] eqn:E. intros k.
  rewrite (@match_key_alternatives Strbuf.strbuf _ file_system no_programs r k "add" ["change" : bytes]).
  - reflexivity.
  - assert (rules_str (rules_add_string (rules_new 8 : @rules Strbuf.strbuf) "add|change").1
      (rules_add_string (rules_new 8 : @rules Strbuf.strbuf) "add|change").2 = ("add|change" : bytes)) as H by (vm_compute; reflexivity).
    rewrite E in H. exact H.
  - reflexivity.
  - repeat constructor; unfold no_bar; by vm_compute; set_solver.
  - apply Nat.ltb_lt. vm_compute. reflexivity.
  - intros s [= <-]. by repeat constructor.
Defined.
End RuleMatch.
