(* ===== verification/RuleWalk.v ===== *)
(** The walk over the token array ([RuleApply]) against a specification that
    has no token array: a list of rules with their keys, where GOTO names a
    label.  The walk over an array that [rules_load] built never leaves it and
    comes to its end. *)

From Stdlib Require Import ZArith Lia Ascii Sorted.
From stdpp Require Import prelude gmap strings sorting.
From S2P Require Import Prelude Utils Strings Encode Strbuf RuleTokens RuleParse RulesWf System UdevList Device Event RuleApply.
Import Mem Device Event RuleApply.

Module RuleWalk.

(** A rule and its keys. *)
Definition block : Type := rule_token * list key_token.
Definition flat_block (b : block) : list token := RuleToken b.1 :: (KeyToken <$> b.2).
Definition flat (bs : list block) : list token := bs ≫= flat_block.
(** The keys before the first rule, and the rules. *)
Fixpoint blocks_of (toks : list token) : list key_token * list block :=
  match toks with
  | [] => ([], [])
  | RuleToken rt :: toks' => let '(ks, bs) := blocks_of toks' in ([], (rt, ks) :: bs)
  | KeyToken k :: toks' =>
      if bool_decide (type k = TK_END) then ([], [])
      else let '(ks, bs) := blocks_of toks' in (k :: ks, bs)
  end.

Lemma blocks_of_keys ks toks :
  Forall (fun k => type k <> TK_END) ks ->
  blocks_of ((KeyToken <$> ks) ++ toks) = (ks ++ (blocks_of toks).1, (blocks_of toks).2).
Proof.
  induction 1 as [|k ks Hk _ IH]; simpl; [by destruct (blocks_of toks)|].
  rewrite bool_decide_false by done. unfold fmap in IH. by rewrite IH.
Qed.
Lemma blocks_of_flat bs :
  Forall (fun b : block => Forall (fun k => type k <> TK_END) b.2) bs ->
  blocks_of (flat bs ++ [end_token]) = ([], bs).
Proof.
  induction 1 as [|[rt ks] bs Hb _ IH]; [done|]. unfold flat. rewrite bind_cons, <- app_assoc. simpl.
  rewrite blocks_of_keys by done. fold (flat bs). rewrite IH. simpl. by rewrite app_nil_r.
Qed.

Section walk.
Context {P : Type} `{Hpool : StringPool P} `{SY : System} {PR : Programs}.
Implicit Types (r : @rules P) (k : key_token).

(** * The specification *)

(** The keys of a rule; [skip] are to be passed over.  The result is the label
    to go to, or that the next rule follows; [None] is out of fuel. *)
Fixpoint apply_keys (pfuel : nat) r (skip : nat) (ks : list key_token) (esc : escape_type)
    : E (option (option bytes)) :=
  match ks with
  | [] => mret (Some None)
  | k :: ks' =>
      match skip with
      | S skip => apply_keys pfuel r skip ks' esc
      | O =>
          o ← apply_key pfuel r esc k (KeyToken <$> ks);
          match o with
          | Next esc => apply_keys pfuel r 0 ks' esc
          | NextParents => apply_keys pfuel r (length (parent_keys (KeyToken <$> ks)) - 1) ks' esc
          | Jump _ => mret (Some (Some (value_of r k)))
          | NoMatch => mret (Some None)
          | Diverges => mret None
          end
      end
  end.
Definition has_label r (rt : rule_token) (label : bytes) : bool :=
  negb (label_off rt =? 0) && bool_decide (rules_str r (label_off rt) = label).
(** The rules in their order; with a label, those before the one that has it
    are passed over. *)
Fixpoint apply_rules (pfuel : nat) r (can_name : bool) (bs : list block) (goto : option bytes) : E walk_result :=
  match bs with
  | [] => mret (Finished 0)
  | (rt, ks) :: bs' =>
      let pass := match goto with Some label => negb (has_label r rt label) | None => false end in
      if pass then apply_rules pfuel r can_name bs' goto
      else if negb can_name && can_set_name rt then apply_rules pfuel r can_name bs' None
      else
        next ← apply_keys pfuel r 0 ks ESCAPE_UNSET;
        match next with
        | Some next => apply_rules pfuel r can_name bs' next
        | None => mret OutOfFuel
        end
  end.
Definition apply_to_event (pfuel : nat) r : E walk_result :=
  can_name ← on 0 can_be_named;
  apply_rules pfuel r can_name (blocks_of (tokens r)).2 None.

(** * The keys *)

Lemma not_end p k : key_wf p k -> type k <> TK_END /\ type k <> TK_RULE.
Proof. intros [Hc _]. split; intros E; by rewrite E in Hc. Qed.

Lemma parent_keys_app ks rest :
  (forall k t, rest = KeyToken k :: t -> is_parent_key (type k) = false) ->
  parent_keys ((KeyToken <$> ks) ++ rest) = parent_keys (KeyToken <$> ks).
Proof.
  intros Hr. induction ks as [|k ks IH]; [|rewrite fmap_cons; simpl].
  - destruct rest as [|[rt|k] rest]; [done..|]. simpl. by erewrite Hr.
  - by rewrite IH.
Qed.
(** A parent key looks at the sequence of parent keys only. *)
Lemma apply_key_rest pfuel r esc k toks toks' :
  parent_keys toks = parent_keys toks' -> apply_key pfuel r esc k toks = apply_key pfuel r esc k toks'.
Proof. intros H. unfold apply_key. by rewrite H. Qed.
Lemma parent_keys_length ks : (length (parent_keys (KeyToken <$> ks)) <= length ks)%nat.
Proof. induction ks as [|k ks IH]; [done|]. rewrite fmap_cons. simpl. destruct (is_parent_key _); simpl; lia. Qed.
Lemma apply_key_parents pfuel r esc k rest s :
  fst (apply_key pfuel r esc k rest s) = NextParents -> is_parent_key (type k) = true.
Proof.
  unfold apply_key, mbind, state_bind, mret, state_ret.
  destruct (type k); try done; intros H; exfalso; revert H;
    repeat (match goal with |- context [let '(_, _) := ?m in _] => destruct m as [? ?] end; simpl);
    unfold test; try (destruct (data k =? 0)); try done;
    match goal with |- context [if ?b then _ else _] => by destruct b end.
Qed.
Lemma apply_key_jump pfuel r esc k rest s j :
  fst (apply_key pfuel r esc k rest s) = Jump j -> type k = TK_A_GOTO /\ data k <> 0 /\ j = Z.to_nat (data k).
Proof.
  unfold apply_key, mbind, state_bind, mret, state_ret.
  destruct (type k); try done; intros H.
  all: try (destruct (Z.eqb_spec (data k) 0); simpl in H; by simplify_eq).
  all: exfalso; revert H;
    repeat (match goal with |- context [let '(_, _) := ?m in _] => destruct m as [? ?] end; simpl);
    unfold test; try done;
    repeat match goal with |- context [match ?b with _ => _ end] => destruct b end; done.
Qed.

(** * The walk *)

Section array.
Context (r : @rules P) (pfuel : nat) (can_name : bool).
#[local] Abbreviation loop fuel := (apply_loop fuel pfuel r can_name).

(** Every step goes forward. *)
Definition enough (fuel cur : nat) : Prop := (length (tokens r) < cur + fuel)%nat.
Definition continue (K : option bytes -> E walk_result) (next : option (option bytes)) : E walk_result :=
  match next with Some next => K next | None => mret OutOfFuel end.

Lemma apply_keys_skip n ks esc : apply_keys pfuel r n ks esc = apply_keys pfuel r 0 (drop n ks) esc.
Proof. revert n. induction ks as [|k ks IH]; intros [|n]; [done..|]. simpl. apply IH. Qed.

Section rule.
Context (pre : list token) (rt : rule_token) (ks : list key_token) (rest : list token).
Context (K : option bytes -> E walk_result).
Hypothesis Htok : tokens r = pre ++ RuleToken rt :: (KeyToken <$> ks) ++ rest.
Hypothesis Hcount : token_count rt = 1 + Z.of_nat (length ks).
Hypothesis Hend : Forall (fun k => type k <> TK_END) ks.
Hypothesis Hrest : forall k t, rest = KeyToken k :: t -> is_parent_key (type k) = false.
Hypothesis Hnext : forall fuel rule esc s,
  enough fuel (length pre + S (length ks)) -> loop fuel (length pre + S (length ks)) rule esc s = K None s.
Hypothesis Hjump : forall i k, ks !! i = Some k -> type k = TK_A_GOTO -> data k <> 0 ->
  (length pre + S i < Z.to_nat (data k))%nat /\
  forall fuel rule esc s, enough fuel (Z.to_nat (data k)) ->
    loop fuel (Z.to_nat (data k)) rule esc s = K (Some (value_of r k)) s.

Lemma drop_tokens i : (i <= length ks)%nat -> drop (length pre + S i) (tokens r) = (KeyToken <$> drop i ks) ++ rest.
Proof.
  intros Hi. rewrite Htok, drop_app_add. simpl. rewrite drop_app_le by (rewrite length_fmap; lia).
  by rewrite fmap_drop.
Qed.
Lemma walk_nomatch fuel esc s cur :
  (cur < length pre + S (length ks))%nat -> enough (S fuel) cur ->
  match next_rule r (length pre) with
  | Some cur => loop fuel cur (length pre) esc
  | None => mret OutOfArray
  end s = K None s.
Proof.
  intros Hc Hf. unfold next_rule. rewrite Htok, lookup_app_r, Nat.sub_diag by lia. simpl.
  rewrite Hcount, Z2Nat.inj_add, Nat2Z.id by lia. apply Hnext. unfold enough in *. lia.
Qed.
Lemma walk_keys n i fuel esc s :
  (length ks <= i + n)%nat -> (i <= length ks)%nat -> enough fuel (length pre + S i) ->
  loop fuel (length pre + S i) (length pre) esc s =
  (next ← apply_keys pfuel r 0 (drop i ks) esc; continue K next) s.
Proof.
  revert i fuel esc s. induction n as [|n IH]; intros i fuel esc s Hn Hi Hf;
    (destruct (decide (i = length ks)) as [->|Hne]; [rewrite drop_all; by apply Hnext|]); [lia|].
  destruct (lookup_lt_is_Some_2 ks i) as [k Hk]; [lia|].
  pose proof (drop_tokens i Hi) as Hd. rewrite (drop_S ks k i Hk) in *.
  assert (i < length (KeyToken <$> ks))%nat by (rewrite length_fmap; lia).
  assert (tokens r !! (length pre + S i)%nat = Some (KeyToken k)) as Hlk.
  { rewrite <- (Nat.add_0_r (_ + S i)), <- lookup_drop, Hd. done. }
  assert (type k <> TK_END) as Hke by (rewrite Forall_lookup in Hend; by eapply Hend).
  destruct fuel as [|fuel]; [unfold enough in Hf; apply lookup_lt_Some in Hlk; lia|].
  cbn [apply_loop]. rewrite Hlk, bool_decide_false by done. cbn [apply_keys].
  rewrite Hd, (apply_key_rest _ _ _ _ _ (KeyToken <$> k :: drop (S i) ks)) by (by apply parent_keys_app).
  unfold mbind, state_bind.
  pose proof (apply_key_parents pfuel r esc k (KeyToken <$> k :: drop (S i) ks) s) as Hp.
  pose proof (apply_key_jump pfuel r esc k (KeyToken <$> k :: drop (S i) ks) s) as Hj.
  destruct (apply_key _ _ _ _ _ s) as [o s']. simpl in Hp, Hj.
  assert (forall m esc, (0 < m)%nat -> (m <= length (drop i ks))%nat ->
    loop fuel (length pre + S i + m) (length pre) esc s' =
    (let '(x, s'') := apply_keys pfuel r (m - 1) (drop (S i) ks) esc s' in continue K x s'')) as Hgo.
  { intros m esc' Hm1 Hm2. rewrite length_drop in Hm2. replace (length pre + S i + m)%nat with (length pre + S (i + m))%nat by lia.
    rewrite IH; [|lia|lia|unfold enough in *; lia]. rewrite (apply_keys_skip (m - 1)), drop_drop.
    replace (S i + (m - 1))%nat with (i + m)%nat by lia. done. }
  destruct o as [esc'| |j| |].
  - rewrite <- (Nat.add_1_r (_ + S i)). rewrite Hgo; [done|lia|rewrite length_drop; lia].
  - rewrite parent_keys_app by done. apply Hgo.
    + rewrite fmap_cons. simpl. rewrite Hp by done. simpl. lia.
    + rewrite (drop_S ks k i Hk). apply parent_keys_length.
  - destruct (Hj _ eq_refl) as (Hty & Hdata & ->). destruct (Hjump i k Hk Hty Hdata) as [Hlt Hl].
    rewrite Hl by (unfold enough in *; lia). done.
  - rewrite (walk_nomatch fuel esc s' (length pre + S i)) by (done || lia). done.
  - done.
Qed.
End rule.

Section wf.
Context (toks : list token).
Hypothesis Htoks : tokens r = toks ++ [end_token].
Hypothesis Hgoto : gotos_wf (strbuf r) toks.

Lemma rule_behind pre rt ks post j rt' :
  toks = pre ++ flat_block (rt, ks) ++ post -> toks !! j = Some (RuleToken rt') -> (length pre < j)%nat ->
  (length pre + S (length ks) <= j)%nat.
Proof.
  intros -> Hj Hlt. destruct (decide (j < length pre + S (length ks))%nat) as [Hc|]; [|lia].
  exfalso. rewrite lookup_app_r in Hj by lia. destruct (j - length pre)%nat as [|m] eqn:E; [lia|].
  simpl in Hj. rewrite lookup_app_l in Hj by (rewrite length_fmap; lia).
  rewrite list_lookup_fmap in Hj. by destruct (ks !! m).
Qed.
Lemma has_label_target i k j rt :
  goto_target (strbuf r) toks i k j -> toks !! j = Some (RuleToken rt) -> has_label r rt (value_of r k) = true.
Proof.
  intros (_ & rt' & l & Hj & Hne & Hl & Hv & _) Hj'. rewrite Hj in Hj'. injection Hj' as <-.
  unfold has_label, value_of, rules_str. apply andb_true_iff. split; [by apply negb_true_iff, Z.eqb_neq|].
  apply bool_decide_eq_true. by rewrite (pool_has_str _ _ _ Hl), (pool_has_str _ _ _ Hv).
Qed.
Lemma has_label_before i k j j' rt :
  goto_target (strbuf r) toks i k j -> toks !! j' = Some (RuleToken rt) -> (i < j' < j)%nat ->
  has_label r rt (value_of r k) = false.
Proof.
  intros (_ & _ & l & _ & _ & _ & Hv & Hfirst) Hj Hlt. unfold has_label, value_of, rules_str.
  destruct (Z.eqb_spec (label_off rt) 0) as [|Hne]; [done|].
  destruct (Hfirst j' rt Hlt Hj Hne) as (l' & Hl' & Hd). simpl. apply bool_decide_eq_false.
  by rewrite (pool_has_str _ _ _ Hl'), (pool_has_str _ _ _ Hv).
Qed.

Definition at_label (bs : list block) (n : nat) : Prop :=
  forall i k j fuel rule esc s,
    (i < n <= j)%nat -> goto_target (strbuf r) toks i k j -> enough fuel j ->
    loop fuel j rule esc s = apply_rules pfuel r can_name bs (Some (value_of r k)) s.
Definition at_start (bs : list block) (n : nat) : Prop :=
  forall fuel rule esc s, enough fuel n -> loop fuel n rule esc s = apply_rules pfuel r can_name bs None s.

Lemma walk_rule pre rt ks bs :
  toks = pre ++ flat_block (rt, ks) ++ flat bs -> rule_wf (strbuf r) rt ks ->
  at_start bs (length pre + S (length ks)) -> at_label bs (length pre + S (length ks)) ->
  at_start ((rt, ks) :: bs) (length pre).
Proof.
  intros Heq Hwf Hs Hl fuel rule esc s Hf.
  assert (tokens r = pre ++ RuleToken rt :: (KeyToken <$> ks) ++ flat bs ++ [end_token]) as Htok.
  { rewrite Htoks, Heq. unfold flat_block. cbn [fst snd]. by rewrite <- !app_assoc, <- app_comm_cons. }
  destruct Hwf as (Hcount & _ & _ & Hk & _).
  assert (tokens r !! length pre = Some (RuleToken rt)) as Hlk by (rewrite Htok; by apply list_lookup_middle).
  destruct fuel as [|fuel]; [unfold enough in Hf; apply lookup_lt_Some in Hlk; lia|].
  cbn [apply_loop apply_rules]. rewrite Hlk. destruct (negb can_name && can_set_name rt).
  - apply (walk_nomatch pre rt ks (flat bs ++ [end_token]) (apply_rules pfuel r can_name bs) Htok Hcount Hs
      fuel esc s (length pre)); [lia|done].
  - rewrite <- (Nat.add_1_r (length pre)). change 1%nat with (S 0).
    erewrite (walk_keys pre rt ks (flat bs ++ [end_token]) (apply_rules pfuel r can_name bs)
      Htok Hcount _ _ Hs _ (length ks) 0); [done|lia|lia|unfold enough in *; lia].
    Unshelve.
    + eapply Forall_impl; [exact Hk|]. intros k ?. by eapply not_end.
    + intros k t. destruct bs as [|[??] ?]; simpl; intros [= <- _]. done.
    + intros i k Hi Hty Hd.
      assert (toks !! (length pre + S i)%nat = Some (KeyToken k)) as Hik.
      { rewrite Heq, lookup_app_r, Nat.add_comm, Nat.add_sub by lia. simpl.
        rewrite lookup_app_l by (rewrite length_fmap; by eapply lookup_lt_Some). by rewrite list_lookup_fmap, Hi. }
      destruct (Hgoto _ _ Hik Hty) as [|Ht]; [done|]. pose proof Ht as (Hlt & rt' & _ & Hj & _).
      split; [done|]. intros f rule' esc' s' Hf'. apply (Hl (length pre + S i)%nat); [|done..].
      pose proof (rule_behind _ _ _ _ _ _ Heq Hj ltac:(lia)). apply lookup_lt_Some in Hi. lia.
Qed.
Lemma walk_rules pre bs :
  toks = pre ++ flat bs -> Forall (fun b : block => rule_wf (strbuf r) b.1 b.2) bs ->
  at_start bs (length pre) /\ at_label bs (length pre).
Proof.
  revert pre. induction bs as [|[rt ks] bs IH]; intros pre Heq Hwf.
  - unfold flat in Heq. simpl in Heq. rewrite app_nil_r in Heq. subst pre. split.
    + intros fuel rule esc s Hf. destruct fuel as [|fuel]; [unfold enough in Hf; rewrite Htoks, length_app in Hf; simpl in Hf; lia|].
      cbn [apply_loop]. by rewrite Htoks, list_lookup_middle by done.
    + intros i k j fuel rule esc s Hij (_ & rt & _ & Hj & _). apply lookup_lt_Some in Hj. lia.
  - apply Forall_cons in Hwf as [Hb Hwf]. unfold flat in Heq. rewrite bind_cons in Heq. fold (flat bs) in Heq.
    destruct (IH (pre ++ flat_block (rt, ks))) as [Hs Hl]; [by rewrite <- app_assoc|done|].
    rewrite length_app in Hs, Hl. simpl in Hs, Hl. rewrite length_fmap in Hs, Hl.
    assert (at_start ((rt, ks) :: bs) (length pre)) as Hst by (by apply walk_rule).
    split; [done|]. intros i k j fuel rule esc s Hij Ht Hf.
    assert (toks !! length pre = Some (RuleToken rt)) as Hlk by (rewrite Heq; by apply list_lookup_middle).
    destruct (decide (j = length pre)) as [->|Hne].
    + rewrite Hst by done. cbn [apply_rules]. by rewrite (has_label_target _ _ _ _ Ht Hlk).
    + cbn [apply_rules]. rewrite (has_label_before _ _ _ _ _ Ht Hlk) by lia. simpl.
      pose proof Ht as (_ & rt' & _ & Hj & _).
      pose proof (rule_behind _ _ _ _ _ _ Heq Hj ltac:(lia)). apply (Hl i); [lia|done..].
Qed.
End wf.
End array.

Lemma blocks_wf_inv p toks :
  blocks_wf p toks -> exists bs, toks = flat bs /\ Forall (fun b : block => rule_wf p b.1 b.2) bs.
Proof.
  induction 1 as [|rt ks rest Hr _ (bs & -> & Hbs)]; [by exists []|].
  exists ((rt, ks) :: bs). split; [done|]. by constructor.
Qed.
Lemma apply_blocks r pfuel toks s :
  tokens r = toks ++ [end_token] -> blocks_wf (strbuf r) toks -> gotos_wf (strbuf r) toks ->
  udev_rules_apply_to_event pfuel r s = apply_to_event pfuel r s.
Proof.
  intros Htoks Hb Hg. apply blocks_wf_inv in Hb as (bs & Hbs & Hwf).
  unfold udev_rules_apply_to_event, apply_to_event, mbind, state_bind.
  destruct (on 0 can_be_named s) as [can s'].
  rewrite Htoks at 2. rewrite Hbs, blocks_of_flat.
  - destruct (walk_rules r pfuel can toks Htoks Hg [] bs Hbs Hwf) as [H _].
    apply H. unfold enough. simpl. lia.
  - eapply Forall_impl; [exact Hwf|]. intros [rt ks] (_ & _ & _ & Hk & _).
    eapply Forall_impl; [exact Hk|]. intros k ?. by eapply not_end.
Qed.

(** * The end of the walk *)

Lemma apply_rules_result pfuel r can_name bs goto s :
  let res := (apply_rules pfuel r can_name bs goto s).1 in res = Finished 0 \/ res = OutOfFuel.
Proof.
  revert goto s. induction bs as [|[rt ks] bs IH]; intros goto s; [by left|]. cbn [apply_rules].
  destruct (match goto with Some _ => _ | None => _ end); [apply IH|].
  destruct (_ && _); [apply IH|]. unfold mbind, state_bind.
  destruct (apply_keys _ _ _ _ _ s) as [[next|] s']; [apply IH|by right].
Qed.

#[local] Abbreviation load := (rules_load getpwuid getpwnam getgrgid getgrnam).

(** C8: the walk over the token array ([udev_rules_apply_to_event]) is the
    specification: for every set of rules files that fits the array, every
    event and every state of the world, it has the effects and the result of
    going through the rules in their order, where a key that does not match
    leaves its rule, a matched sequence of parent keys is passed as one, and
    GOTO passes over the rules before the next one that has its label.  In
    particular no index ever leaves the array, and the walk comes to the end
    token unless the parents of a device never end. *)
Theorem apply_to_event_refines st files pfuel s :
  Forall (fun f => cstr f.1) files -> fits32 (load st files) ->
  let r := u_rules (load st files) in
  udev_rules_apply_to_event pfuel r s = apply_to_event pfuel r s /\
  ((udev_rules_apply_to_event pfuel r s).1 = Finished 0 \/
   (udev_rules_apply_to_event pfuel r s).1 = OutOfFuel).
Proof.
  intros Hf Hfit r.
  destruct (rules_load_state getpwuid getpwnam getgrgid getgrnam st files Hf) as [_ (toks & Ht & Hb & Hg)]; [done|].
  rewrite (apply_blocks r pfuel toks s Ht Hb Hg). split; [done|].
  unfold apply_to_event, mbind, state_bind. destruct (on 0 can_be_named s). apply apply_rules_result.
Qed.
End walk.

(** The state of a program that has just started, and a file with a GOTO. *)
Definition walk_start : @udev_rules Strbuf.strbuf := mk_udev_rules 1 (rules_new 8) [] 0 [] 0 false.
Definition walk_files : list (bytes * option bytes) := [(("a.rules" : bytes), Some sample_file)].
Definition walk_device (sysname : bytes) : udev_device :=
  device_new <| d_syspath := Some ("/sys/devices/" ++ sysname) |> <| d_sysname := Some sysname |>
             <| d_uevent_loaded := true |> <| d_info_loaded := true |>.
Lemma apply_to_event_refines_witness :
  let r := u_rules (rules_load (fun _ => false) (fun _ => None) (fun _ => false) (fun _ => None) walk_start walk_files) in
  let run := udev_rules_apply_to_event (SY := file_system) (PR := no_programs) 1 r in
  run (∅, event_of (walk_device "sdx")) = apply_to_event (SY := file_system) (PR := no_programs) 1 r
    (∅, event_of (walk_device "sdx")).
Proof.
  intros r run.
  apply (@apply_to_event_refines Strbuf.strbuf _ file_system no_programs walk_start walk_files 1
    (∅, event_of (walk_device "sdx"))); [by repeat constructor|vm_compute; auto].
Defined.

Example walk_tag :
  let r := u_rules (rules_load (fun _ => false) (fun _ => None) (fun _ => false) (fun _ => None) walk_start walk_files) in
  let '(res, (_, e)) := udev_rules_apply_to_event (SY := file_system) (PR := no_programs) 1 r
    (∅, event_of (walk_device "sda")) in
  (res, e_name <$> d_tags_list (device_at e 0)) = (Finished 0, ["t" : bytes]).
Proof. vm_compute. reflexivity. Qed.
End RuleWalk.
