(* ===== verification/RuleFinal.v ===== *)
(** What the rules assign to an event with [:=] is final: the value survives
    every later key of the walk over the tokens. *)

From Stdlib Require Import ZArith Lia Ascii.
From stdpp Require Import prelude gmap strings sorting.
From S2P Require Import Prelude Utils Strings Encode Strbuf RuleTokens RuleParse System UdevList Device Event RuleApply.
Import Mem Device Event RuleApply.

Module RuleFinal.

(** The parts of an event that [:=] closes, each with its flag. *)
Inductive part := OWNER | GROUP | MODE | NAME | WATCH | LINKS.
Definition final_of (p : part) (e : udev_event) : bool :=
  match p with
  | OWNER => ev_owner_final e
  | GROUP => ev_group_final e
  | MODE => ev_mode_final e
  | NAME => ev_name_final e
  | WATCH => ev_inotify_watch_final e
  | LINKS => ev_devlink_final e
  end.
Definition same_part (p : part) (e e' : udev_event) : Prop :=
  match p with
  | OWNER => ev_owner_set e' = ev_owner_set e /\ ev_uid e' = ev_uid e
  | GROUP => ev_group_set e' = ev_group_set e /\ ev_gid e' = ev_gid e
  | MODE => ev_mode_set e' = ev_mode_set e /\ ev_mode e' = ev_mode e
  | NAME => ev_name e' = ev_name e
  | WATCH => ev_inotify_watch e' = ev_inotify_watch e
  | LINKS => True
  end.
Definition kept (e e' : udev_event) (p : part) : Prop :=
  final_of p e = true -> final_of p e' = true /\ same_part p e e'.
(** All parts are kept, but perhaps [o]. *)
Definition kept_but (o : option part) (e e' : udev_event) : Prop := forall p, Some p <> o -> kept e e' p.

#[export] Instance kept_but_preorder o : PreOrder (kept_but o).
Proof.
  split.
  - intros e p _ H. by destruct p.
  - intros e1 e2 e3 H1 H2 p Hp H. destruct (H1 p Hp H) as [F1 S1]. destruct (H2 p Hp F1) as [F2 S2].
    split; [done|]. destruct p; simpl in *; intuition congruence.
Qed.

Create HintDb keeps.

Section final.
Context {P : Type} `{Hpool : StringPool P} `{SY : System} {PR : Programs}.
Implicit Types (r : @rules P) (k : key_token).

(** A computation after which final values are kept. *)
Definition keeps (o : option part) {A} (m : E A) : Prop := forall s, kept_but o s.2 (m s).2.2.

Lemma keeps_ret o {A} (x : A) : keeps o (mret x).
Proof. intros s. simpl. reflexivity. Qed.
Lemma keeps_bind o {A B} (m : E A) (f : A -> E B) : keeps o m -> (forall x, keeps o (f x)) -> keeps o (m ≫= f).
Proof.
  intros Hm Hf s. unfold mbind, state_bind. specialize (Hm s). destruct (m s) as [x s']. simpl in Hm.
  etrans; [exact Hm|]. apply Hf.
Qed.
Lemma keeps_ev o {A} (f : udev_event -> A) : keeps o (ev f).
Proof. intros s. simpl. reflexivity. Qed.
Lemma keeps_update o f : (forall e, kept_but o e (f e)) -> keeps o (ev_update f).
Proof. intros H [w e]. apply H. Qed.
Lemma keeps_sys o {A} (m : state world A) : keeps o (ev_sys m).
Proof. intros [w e]. unfold ev_sys. destruct (m w). simpl. reflexivity. Qed.
Lemma keeps_on o {A} i (m : D A) : keeps o (on i m).
Proof. intros [w e]. unfold on. destruct (m _) as [x [w' d]]. simpl. intros p _ H. by destruct p. Qed.
Lemma keeps_chain o {A} (m : state (world * list udev_device) A) : keeps o (on_chain m).
Proof. intros [w e]. unfold on_chain. destruct (m _) as [x [w' l]]. simpl. intros p _ H. by destruct p. Qed.
Lemma keeps_for_each o {A} (l : list A) (f : A -> E unit) : (forall x, keeps o (f x)) -> keeps o (for_each l f).
Proof. intros H. induction l as [|x l IH]; simpl; [apply keeps_ret|]. by apply keeps_bind. Qed.

(** Updates of other fields. *)
Definition unrelated (o : option part) (f : udev_event -> udev_event) : Prop :=
  forall e p, Some p <> o -> final_of p (f e) = final_of p e /\ same_part p e (f e).
Lemma keeps_unrelated o f : unrelated o f -> keeps o (ev_update f).
Proof. intros H. apply keeps_update. intros e p Hp Hf. destruct (H e p Hp) as [E S]. by rewrite E. Qed.

(** Goes through the structure of a computation; an update that leaves the
    final fields alone is seen by computation. *)
Ltac keep :=
  repeat (intros; lazymatch goal with
    | |- keeps _ (mret _) => apply keeps_ret
    | |- keeps _ (ev _) => apply keeps_ev
    | |- keeps _ (ev_sys _) => apply keeps_sys
    | |- keeps _ (on _ _) => apply keeps_on
    | |- keeps _ (udev_builtin_run _ _) => apply keeps_chain
    | |- keeps _ (ev_update _) => apply keeps_unrelated; intros e p Hp; try destruct (is_final _); destruct p; solve [done|congruence]
    | |- keeps _ (for_each _ _) => apply keeps_for_each
    | |- keeps _ (_ ≫= _) => apply keeps_bind
    | |- keeps _ (let '(_, _) := ?x in _) => destruct x
    | |- keeps _ (match ?x with _ => _ end) => destruct x eqn:?
    | |- keeps _ _ => solve [auto 2 with keeps nocore]
    end).

Lemma keeps_parent o i : keeps o (udev_device_get_parent i).
Proof. unfold udev_device_get_parent. keep. Qed.
#[local] Hint Resolve keeps_parent : keeps.
Lemma keeps_subst o ty attr : keeps o (subst_value ty attr).
Proof. unfold subst_value. keep. Qed.
#[local] Hint Resolve keeps_subst : keeps.
Lemma keeps_format_loop o fuel from d : keeps o (apply_format_loop fuel from d).
Proof. revert from d. induction fuel as [|fuel IH]; simpl; keep. Qed.
#[local] Hint Resolve keeps_format_loop : keeps.
Lemma keeps_format o src size : keeps o (format src size).
Proof. unfold format, udev_event_apply_format. keep. Qed.
#[local] Hint Resolve keeps_format : keeps.
Lemma keeps_spawn o cmd envp ressize : keeps o (udev_event_spawn cmd envp ressize).
Proof. unfold udev_event_spawn. keep. Qed.
#[local] Hint Resolve keeps_spawn : keeps.
Lemma keeps_match_attr o r i k : keeps o (match_attr r i k).
Proof. unfold match_attr, udev_event_apply_format. keep. Qed.
#[local] Hint Resolve keeps_match_attr : keeps.
Lemma keeps_match_parent_keys o r cur i ks : keeps o (match_parent_keys r cur i ks).
Proof. induction ks as [|k ks IH]; simpl; [keep|]. unfold match_parent_key. keep. Qed.
#[local] Hint Resolve keeps_match_parent_keys : keeps.
Lemma keeps_match_parents o fuel r cur ks i : keeps o (match_parents fuel r cur ks i).
Proof. revert i. induction fuel as [|fuel IH]; simpl; keep. Qed.
#[local] Hint Resolve keeps_match_parents : keeps.
Lemma keeps_import o import r k : (forall s, keeps o (import s)) -> keeps o (m_import import r k).
Proof. intros H. unfold m_import. keep. Qed.
Lemma keeps_builtin o r k : keeps o (m_import_builtin r k).
Proof. unfold m_import_builtin. keep. Qed.
#[local] Hint Resolve keeps_builtin : keeps.
Lemma keeps_program o r esc k : keeps o (m_program r esc k).
Proof. unfold m_program. keep. Qed.
#[local] Hint Resolve keeps_program : keeps.
Lemma keeps_import_program o s : keeps o (import_program_into_properties s).
Proof. unfold import_program_into_properties. keep. Qed.
#[local] Hint Resolve keeps_import_program : keeps.
Lemma keeps_import_parent o s : keeps o (import_parent_into_properties s).
Proof. unfold import_parent_into_properties. keep. Qed.
#[local] Hint Resolve keeps_import_parent : keeps.

(** An action on a part that is final does nothing. *)
Lemma keeps_guard p (m : E unit) :
  keeps (Some p) m -> keeps None (e ← ev id; if final_of p e then mret Datatypes.tt else m).
Proof.
  intros Hm s. unfold mbind, state_bind, ev, gets. simpl. unfold compose, id.
  destruct (final_of p s.2) eqn:E; [simpl; reflexivity|]. intros q Hq Hf.
  apply (Hm s); [congruence|done].
Qed.
(** Behind the guard the part itself may change. *)
Ltac keep_act p := apply (keeps_guard p); unfold set_mode; keep.

Lemma keeps_owner r k : keeps None (a_owner r k).
Proof. unfold a_owner. keep_act OWNER. Qed.
Lemma keeps_group r k : keeps None (a_group r k).
Proof. unfold a_group. keep_act GROUP. Qed.
Lemma keeps_mode r k : keeps None (a_mode r k).
Proof. unfold a_mode. keep_act MODE. Qed.
Lemma keeps_owner_id k : keeps None (a_owner_id k).
Proof. unfold a_owner_id. keep_act OWNER. Qed.
Lemma keeps_group_id k : keeps None (a_group_id k).
Proof. unfold a_group_id. keep_act GROUP. Qed.
Lemma keeps_mode_id k : keeps None (a_mode_id k).
Proof. unfold a_mode_id. keep_act MODE. Qed.
Lemma keeps_watch k : keeps None (a_inotify_watch k).
Proof. unfold a_inotify_watch. keep_act WATCH. Qed.
Lemma keeps_name r esc k : keeps None (a_name r esc k).
Proof. unfold a_name. keep_act NAME. Qed.
Lemma keeps_devlink r esc k : keeps None (a_devlink r esc k).
Proof. unfold a_devlink. keep_act LINKS. Qed.
#[local] Hint Resolve keeps_owner keeps_group keeps_mode keeps_owner_id keeps_group_id keeps_mode_id
  keeps_watch keeps_name keeps_devlink : keeps.

Lemma keeps_key pfuel r esc k rest : keeps None (apply_key pfuel r esc k rest).
Proof.
  unfold apply_key, m_devlink, m_env, m_tag, m_waitfor, m_test, m_import, m_import_db, m_import_cmdline,
    a_seclabel, a_env, a_tag, a_attr, a_run. keep.
Qed.
#[local] Hint Resolve keeps_key : keeps.
Lemma keeps_loop fuel pfuel r can_name cur rule esc : keeps None (apply_loop fuel pfuel r can_name cur rule esc).
Proof. revert cur rule esc. induction fuel as [|fuel IH]; intros; cbn [apply_loop]; keep. Qed.

(** C10: whatever part of an event a rule has made final (owner, group, mode,
    name, the watch) is the same after any walk over any tokens, and stays
    final; the flag of the links stays set. *)
Theorem final_parts_kept fuel pfuel r can_name cur rule esc s p :
  final_of p s.2 = true ->
  let s' := (apply_loop fuel pfuel r can_name cur rule esc s).2 in
  final_of p s'.2 = true /\ same_part p s.2 s'.2.
Proof. intros Hf. by apply (keeps_loop fuel pfuel r can_name cur rule esc s p). Qed.

(** OWNER, GROUP and MODE with a resolved value. *)
Definition id_part (ty : token_type) : option part :=
  match ty with
  | TK_A_OWNER_ID => Some OWNER | TK_A_GROUP_ID => Some GROUP | TK_A_MODE_ID => Some MODE | _ => None
  end.
Definition id_set (p : part) (e : udev_event) (v : Z) : Prop :=
  match p with
  | OWNER => ev_owner_set e = true /\ ev_uid e = v
  | GROUP => ev_group_set e = true /\ ev_gid e = v
  | MODE => ev_mode_set e = true /\ ev_mode e = v
  | _ => False
  end.

(** a resolved OWNER, GROUP or MODE gives the event its value unless a
    value is final, and with [:=] the value survives every walk that follows. *)
Lemma id_assignment fuel pfuel r can_name cur rule esc esc' k rest s p :
  id_part (type k) = Some p -> final_of p s.2 = false ->
  let '(o, s1) := apply_key pfuel r esc k rest s in
  let s2 := (apply_loop fuel pfuel r can_name cur rule esc' s1).2 in
  o = Next esc /\ id_set p s1.2 (data k) /\ (op k = OP_ASSIGN_FINAL -> id_set p s2.2 (data k)).
Proof.
  intros Hp Hf. destruct s as [w e].
  assert (let '(o, s1) := apply_key pfuel r esc k rest (w, e) in
          o = Next esc /\ id_set p s1.2 (data k) /\ (op k = OP_ASSIGN_FINAL -> final_of p s1.2 = true)) as H.
  { unfold apply_key. destruct (type k); simplify_eq/=;
      unfold a_owner_id, a_group_id, a_mode_id, set_mode, is_final, ev, gets, compose, id, mbind, state_bind; simpl; rewrite Hf; simpl;
      (destruct (decide (op k = OP_ASSIGN_FINAL)); [rewrite bool_decide_true by done|rewrite bool_decide_false by done]);
      done. }
  destruct (apply_key _ _ _ _ _ _) as [o s1]. destruct H as (-> & Hs & Hfin). split_and!; [done|done|].
  intros Ho. specialize (Hfin Ho).
  destruct (keeps_loop fuel pfuel r can_name cur rule esc' s1 p ltac:(done) Hfin) as [_ Hsame].
  destruct p; simpl in *; intuition congruence.
Qed.
End final.

Lemma final_parts_kept_witness :
  let e := (event_of device_new) <| ev_owner_final := true |> <| ev_uid := 5 |> in
  let r := @mk_rules Strbuf.strbuf [KeyToken (mk_key_token TK_A_OWNER_ID OP_ASSIGN GL_UNSET SB_UNSET SB_UNSET 0 7); end_token]
             8 Strbuf.strbuf_new in
  ev_uid ((apply_loop (SY := file_system) (PR := no_programs) 3 0 r true 0 0 ESCAPE_UNSET (∅, e)).2).2 = 5.
Proof.
  intros e r.
  destruct (@final_parts_kept Strbuf.strbuf _ file_system no_programs 3 0 r true 0 0 ESCAPE_UNSET (∅, e) OWNER)
    as (_ & _ & H); [reflexivity|exact H].
Defined.
Lemma id_assignment_witness :
  let k := mk_key_token TK_A_MODE_ID OP_ASSIGN_FINAL GL_UNSET SB_UNSET SB_UNSET 0 384 in
  let k' := mk_key_token TK_A_MODE_ID OP_ASSIGN GL_UNSET SB_UNSET SB_UNSET 0 438 in
  let r := @mk_rules Strbuf.strbuf [KeyToken k'; end_token] 8 Strbuf.strbuf_new in
  let '(o, s1) := apply_key (SY := file_system) (PR := no_programs) 0 r ESCAPE_UNSET k [] (∅, event_of device_new) in
  ev_mode ((apply_loop (SY := file_system) (PR := no_programs) 3 0 r true 0 0 ESCAPE_UNSET s1).2).2 = 384.
Proof.
  intros k k' r.
  pose proof (@id_assignment Strbuf.strbuf _ file_system no_programs 3 0 r true 0 0 ESCAPE_UNSET ESCAPE_UNSET k []
    (∅, event_of device_new) MODE eq_refl eq_refl) as H.
  destruct (apply_key _ _ _ _ _ _) as [o s1]. destruct H as (_ & _ & H). by apply H.
Defined.
End RuleFinal.
