(* ===== verification/EventRun.v ===== *)
(** What an event does besides applying the rules: src/core/udev-watch.c, the
    rest of src/core/udev-event.c (the output and the end of a program, the
    name of a network interface, [udev_event_execute_rules] and
    [udev_event_execute_run]) and the body of a worker of
    src/udevd/udevd.c.

    The result is [None] where the program does not go on as it should: it
    reads what was not initialised, follows NULL or does not end. *)

From Stdlib Require Import ZArith Lia Ascii.
From stdpp Require Import prelude gmap strings sorting.
From S2P Require Import Prelude Utils Strings Encode RuleTokens RuleParse UdevList System Device DeviceNew Node Event Monitor RuleApply.
Import Mem Entries Device DeviceNew Node Event Monitor RuleApply.

Module EventRun.
#[local] Abbreviation tt := Datatypes.tt.

#[local] Notation "x ←! m ; f" := (obind m (fun x => f)) (at level 20, m at level 100, f at level 200, right associativity).

(** * The output of a program *)

(** What epoll reports of a pipe: a piece of output, which is empty when the
    read gives nothing, the end of the output, or something else. *)
Inductive pipe_event := Readable (piece : bytes) | Hangup | Other_event.
(** What a round of the loop sees: the age of the event, and what the wait
    gives. *)
Inductive poll_result :=
  | Poll_interrupted
  | Poll_error
  | Poll_timeout
  | Poll_events (evs : list (bool * pipe_event)).
Record read_state := mk_read { r_stdout : bool; r_stderr : bool; r_result : bytes }.
#[export] Instance read_eta : Eta read_state := fun r => mk_read (r_stdout r) (r_stderr r) (r_result r).
(** An event of a pipe, which is the one of stdout when [out]. *)
Definition pipe_step (result : bool) (ressize : nat) (out : bool) (e : pipe_event) (r : read_state) : read_state :=
  match e with
  | Readable [] | Other_event => r
  | Readable piece =>
      if result && out && (length (r_result r) + length piece <? ressize)%nat
      then r <| r_result := r_result r ++ piece |> else r
  | Hangup => if out then r <| r_stdout := false |> else r <| r_stderr := false |>
  end.
(** With what is returned, and whether the result was terminated; [None] when
    the rounds end first. *)
Fixpoint spawn_read_loop (result : bool) (ressize : nat) (timeout_usec : Z) (rounds : list (Z * poll_result)) (r : read_state) :
    option (bytes * bool) :=
  if r_stdout r || r_stderr r then
    match rounds with
    | [] => None
    | (age_usec, p) :: rounds' =>
        if (0 <? timeout_usec) && (timeout_usec <=? age_usec) then Some (r_result r, false)
        else
          match p with
          | Poll_interrupted => spawn_read_loop result ressize timeout_usec rounds' r
          | Poll_error | Poll_timeout => Some (r_result r, false)
          | Poll_events evs =>
              spawn_read_loop result ressize timeout_usec rounds' (fold_left (fun r '(out, e) => pipe_step result ressize out e r) evs r)
          end
    end
  else Some (r_result r, result).
Definition spawn_read (result : bool) (ressize : nat) (timeout_usec : Z) (fd_stdout fd_stderr : bool) (rounds : list (Z * poll_result)) :
    option (bytes * bool) :=
  if negb fd_stdout && negb fd_stderr then Some ([], false)
  else spawn_read_loop result ressize timeout_usec rounds (mk_read fd_stdout fd_stderr []).

(** * The end of a program *)

Definition USEC_PER_MSEC : Z := 1000.
Definition MSEC_PER_SEC : Z := 1000.
(** The time the poll waits. *)
Definition wait_timeout (timeout_usec age_usec : Z) : Z :=
  if 0 <? timeout_usec then
    if timeout_usec <=? age_usec then 1000
    else s32 ((timeout_usec - age_usec) / USEC_PER_MSEC + MSEC_PER_SEC)
  else -1.
(** What a poll of the signals gives; [Child r status] is SIGCHLD with the
    result of [waitpid] and the status it stores. *)
Inductive wait_event :=
  | Wait_interrupted
  | Wait_error (errno : Z)
  | Wait_timeout
  | Wait_short
  | Sigterm
  | Other_signal
  | Child (r : Z) (status : Z).
Definition WIFEXITED (status : Z) : bool := Z.land status 0x7f =? 0.
Definition WEXITSTATUS (status : Z) : Z := Z.land (Z.shiftr status 8) 0xff.
Record wait_state := mk_wait { w_sigterm : bool; w_kills : nat }.
#[export] Instance wait_eta : Eta wait_state := fun w => mk_wait (w_sigterm w) (w_kills w).
Fixpoint spawn_wait_loop (events : list wait_event) (w : wait_state) : option (Z * wait_state) :=
  match events with
  | [] => None
  | e :: events' =>
      match e with
      | Wait_interrupted | Wait_short | Other_signal => spawn_wait_loop events' w
      | Wait_error errno => Some (- errno, w)
      | Wait_timeout => spawn_wait_loop events' (w <| w_kills := S (w_kills w) |>)
      | Sigterm => spawn_wait_loop events' (w <| w_sigterm := true |>)
      | Child r status =>
          if r <? 0 then spawn_wait_loop events' w
          else if r =? 0 then None (* [status] is not set *)
          else Some (if WIFEXITED status then if WEXITSTATUS status =? 0 then 0 else -1 else -1, w)
      end
  end.
Definition spawn_wait (events : list wait_event) (sigterm : bool) : option (Z * wait_state) :=
  spawn_wait_loop events (mk_wait sigterm 0).

(** * src/core/udev-watch.c *)

(** [inotify_fd] is the descriptor, and the calls give -1 for an error;
    renaming the socket's interface gives 0 or an error; the clock. *)
Class Calls `{SY : System} := {
  inotify_fd : Z;
  inotify_add_watch : bytes -> state world Z;
  inotify_rm_watch : Z -> state world unit;
  sys_ifrename : bytes -> bytes -> state world Z;
  now_monotonic : state world Z;
  (** [open] and [flock] of a node: whether another process has the lock. *)
  sys_locked : option bytes -> state world bool
}.

Definition WATCH_PATH : bytes := UDEVRUNDIR ++ "/watch".
Definition watch_filename (wd : Z) : bytes := fst (strscpy UTIL_PATH_SIZE (WATCH_PATH ++ "/"%char :: fmt_i wd)).

Section run.
Context `{SY : System} {PR : Programs} {NO : Nodes} {IF : Interfaces} {CA : Calls}.

Definition udev_watch_begin : D unit :=
  if inotify_fd <? 0 then mret tt
  else
    devnode ← udev_device_get_devnode;
    wd ← sys (inotify_add_watch (default [] devnode));
    if wd <? 0 then mret tt
    else
      let filename := watch_filename wd in
      sys (path_create filename 0x1ED) ;;
      sys (sys_unlink filename) ;;
      id ← udev_device_get_id_filename;
      sys (sys_symlink (default [] id) filename) ;;
      udev_device_set_watch_handle wd.
Definition udev_watch_end : D unit :=
  if inotify_fd <? 0 then mret tt
  else
    wd ← udev_device_get_watch_handle;
    if wd <? 0 then mret tt
    else
      sys (inotify_rm_watch wd) ;;
      sys (sys_unlink (watch_filename wd)) ;;
      udev_device_set_watch_handle (-1).
(** The target of a link, when it is there and fits. *)
Definition link_target_of (filename : bytes) (size : nat) : state world (option bytes) :=
  l ← sys_readlink filename;
  mret (match l with
        | Some t => if (length t =? 0)%nat || (size <=? length t)%nat then None else Some (until_nul t)
        | None => None
        end).
Definition udev_watch_lookup (wd : Z) : state world (option udev_device) :=
  if (inotify_fd <? 0) || (wd <? 0) then mret None
  else
    t ← link_target_of (watch_filename wd) UTIL_NAME_SIZE;
    match t with Some id => udev_device_new_from_device_id id | None => mret None end.
Fixpoint restore_loop (oldpath : bytes) (names : list bytes) : state world unit :=
  match names with
  | [] => mret tt
  | name :: names' =>
      if nth 0 name nul ==c "." then restore_loop oldpath names'
      else
        let link := oldpath ++ "/"%char :: name in
        t ← link_target_of link UTIL_PATH_SIZE;
        dev ← match t with Some id => udev_device_new_from_device_id id | None => mret None end;
        match dev with Some dev => run_device dev udev_watch_begin ;; mret tt | None => mret tt end ;;
        sys_unlink link ;;
        restore_loop oldpath names'
  end.
Definition udev_watch_restore : state world unit :=
  if inotify_fd <? 0 then mret tt
  else
    let watch_oldpath := WATCH_PATH ++ ".old" in
    r ← sys_rename WATCH_PATH watch_oldpath;
    if r =? 0 then
      dir ← sys_readdir watch_oldpath;
      match dir with
      | None => mret tt
      | Some names => restore_loop watch_oldpath names ;; sys_rmdir watch_oldpath ;; mret tt
      end
    else mret tt.

(** * [udev_device_tag_index] *)

(** A computation on the old device of the event. *)
Definition on_db {A} (m : D A) : E A :=
  fun '(w, e) => let '(x, (w', d)) := m (w, default device_new (ev_dev_db e)) in (x, (w', e <| ev_dev_db := Some d |>)).
Fixpoint drop_old_tags (old : list entry) : E unit :=
  match old with
  | [] => mret tt
  | t :: old' =>
      tags ← on 0 udev_device_get_tags_list_entry;
      (if existsb (fun e => str_eq (Some (e_name e)) (Some (e_name t))) tags then mret tt
       else on_db (udev_device_tag (e_name t) false)) ;;
      drop_old_tags old'
  end.
Definition each_tag (tags : list entry) (add : bool) : D unit :=
  fold_right (fun e m => udev_device_tag (e_name e) add ;; m) (mret tt) tags.
(** Without an old device when a device is removed. *)
Definition udev_device_tag_index (add : bool) : E Z :=
  e ← ev (fun e => e);
  (if add && bool_decide (is_Some (ev_dev_db e)) then
     old ← on_db udev_device_get_tags_list_entry; drop_old_tags old
   else mret tt) ;;
  tags ← on 0 udev_device_get_tags_list_entry;
  on 0 (each_tag tags add) ;;
  mret 0.

(** * The name of a network interface *)

Definition IFNAMSIZ : nat := 16.
Definition rename_netif : E Z :=
  e ← ev (fun e => e);
  let oldname := default [] (d_sysname (device_at e 0)) in
  let name := fst (strscpy IFNAMSIZ (default [] (ev_name e))) in
  ev_sys (sys_ifrename (fst (strscpy IFNAMSIZ oldname)) (fst (strscpy IFNAMSIZ name))).
(** The path with the new name. *)
Definition renamed_syspath (path name : bytes) : option bytes :=
  let path := fst (strscpy UTIL_PATH_SIZE path) in
  match strrchr path "/" with
  | None => None
  | Some (dir, _) =>
      let dir := dir ++ ["/"%char] in
      Some (dir ++ fst (strscpy (UTIL_PATH_SIZE - length dir) name))
  end.
(** After the kernel has renamed it. *)
Definition netif_renamed (name : bytes) : D unit :=
  d ← field (fun d => d);
  udev_device_add_property "INTERFACE_OLD" (d_sysname d) ;;
  d ← field (fun d => d);
  match renamed_syspath (syspath d) name with
  | None => mret tt
  | Some path =>
      udev_device_set_syspath udev_device_get_properties_list_entry path ;;
      d ← field (fun d => d);
      udev_device_add_property "INTERFACE" (d_sysname d) ;;
      mret tt
  end.

(** * [udev_event_execute_rules] *)

(** [fuel] is for links that are created again and again, [pfuel] for the
    chain of parents. *)
Context (fuel pfuel : nat) {P : Type} `{Strbuf.StringPool P}.

(** The rules; their result is not looked at. *)
Definition apply_rules (r : @rules P) : E (option unit) :=
  res ← udev_rules_apply_to_event pfuel r;
  mret (match res with Finished _ => Some tt | _ => None end).
Definition has_devnode : D bool := n ← udev_device_get_devnum; mret (negb (major n =? 0)).
Definition execute_remove (r : @rules P) : E (option unit) :=
  on 0 (udev_device_read_db None) ;;
  on 0 udev_device_delete_db ;;
  udev_device_tag_index false ;;
  node ← on 0 has_devnode;
  (if (node : bool) then on 0 udev_watch_end else mret tt) ;;
  _ ←! apply_rules r;
  node ← on 0 has_devnode;
  if (node : bool) then on 0 (udev_node_remove fuel) else mret (Some tt).
(** The device as the database has it. *)
Definition read_old_db : E unit :=
  e ← ev (fun e => e);
  ev_update (fun e => e <| ev_dev_db := Some udev_device_new |>) ;;
  on_db (udev_device_set_syspath udev_device_get_properties_list_entry (syspath (device_at e 0))) ;;
  subsystem ← on 0 (udev_device_get_subsystem udev_device_get_properties_list_entry);
  on_db (match subsystem with Some s => udev_device_set_subsystem udev_device_get_properties_list_entry s | None => mret tt end) ;;
  on_db (udev_device_read_db None) ;;
  on_db udev_device_set_info_loaded ;;
  node ← on 0 has_devnode;
  if (node : bool) then on_db udev_watch_end else mret tt.
(** A new network interface gets the name of the rules. *)
Definition rename_new_netif : E unit :=
  ifindex ← on 0 udev_device_get_ifindex;
  if 0 <? ifindex then
    act ← on 0 udev_device_action;
    e ← ev (fun e => e);
    match ev_name e with
    | Some name =>
        if (act =? ACTION_ADD) && negb (str_eq (Some name) (d_sysname (device_at e 0))) then
          r ← rename_netif;
          if 0 <=? r then on 0 (netif_renamed name) else mret tt
        else mret tt
    | None => mret tt
    end
  else mret tt.
(** The mode when the rules give none: that of the kernel, or 0660 for a
    group. *)
Definition default_mode : E unit :=
  e ← ev (fun e => e);
  if ev_mode_set e then mret tt
  else
    mode ← on 0 udev_device_get_devnode_mode;
    if 0 <? mode then ev_update (fun e => e <| ev_mode := mode |>)
    else if 0 <? ev_gid e then ev_update (fun e => e <| ev_mode := 0x1B0 |>) else mret tt.
Definition update_node : E (option unit) :=
  node ← on 0 (n ← udev_device_get_devnum; mret (0 <? major n));
  if (node : bool) then
    e ← ev (fun e => e);
    _ ←! (match ev_dev_db e with
          | Some _ =>
              old ← on_db udev_device_get_devlinks_list_entry;
              on 0 (udev_node_update_old_links fuel old)
          | None => mret (Some tt)
          end);
    default_mode ;;
    act ← on 0 udev_device_action;
    e ← ev (fun e => e);
    let apply := (act =? ACTION_ADD) || ev_owner_set e || ev_group_set e || ev_mode_set e in
    on 0 (udev_node_add fuel apply (ev_mode e) (ev_uid e) (ev_gid e))
  else mret (Some tt).
(** The time of the first event of the device is kept. *)
Definition set_initialized_time : E unit :=
  e ← ev (fun e => e);
  let old := match ev_dev_db e with Some d => d_usec_initialized d | None => 0 end in
  if 0 <? old then on 0 (udev_device_set_usec_initialized udev_device_get_properties_list_entry old)
  else if d_usec_initialized (device_at e 0) =? 0 then
    now ← ev_sys now_monotonic;
    on 0 (udev_device_set_usec_initialized udev_device_get_properties_list_entry now)
  else mret tt.
Definition execute_change (r : @rules P) : E (option unit) :=
  read_old_db ;;
  _ ←! apply_rules r;
  rename_new_netif ;;
  _ ←! update_node;
  set_initialized_time ;;
  on 0 udev_device_update_db ;;
  udev_device_tag_index true ;;
  on 0 udev_device_set_is_initialized ;;
  ev_update (fun e => e <| ev_dev_db := None |>) ;;
  mret (Some tt).
Definition udev_event_execute_rules (r : @rules P) : E (option unit) :=
  subsystem ← on 0 (udev_device_get_subsystem udev_device_get_properties_list_entry);
  match subsystem with
  | None => mret (Some tt)
  | Some _ =>
      act ← on 0 udev_device_action;
      if act =? ACTION_REMOVE then execute_remove r else execute_change r
  end.

(** * [udev_event_execute_run] *)

Definition run_entry (r : entry) : E unit :=
  let cmd := e_name r in
  if e_num r <? UDEV_BUILTIN_MAX then
    '(command, _) ← udev_event_apply_format cmd UTIL_PATH_SIZE;
    udev_builtin_run (e_num r) (until_nul command) ;; mret tt
  else
    '(program, _) ← udev_event_apply_format cmd UTIL_PATH_SIZE;
    envp ← on 0 udev_device_get_properties_envp;
    udev_event_spawn (until_nul program) envp 0 ;; mret tt.
Definition run_entries (l : list entry) : E unit := fold_right (fun r m => run_entry r ;; m) (mret tt) l.
Definition udev_event_execute_run : E unit := e ← ev (fun e => e); run_entries (ev_run_list e).

(** * An event in a worker *)

Definition EWOULDBLOCK : Z := 11.
(** Whether the event has to have the lock of a node, and the node: NULL when
    the device of the node is not known. *)
Definition lock_node : E (option (option bytes)) :=
  act ← on 0 udev_device_action;
  subsystem ← on 0 (udev_device_get_subsystem udev_device_get_properties_list_entry);
  e ← ev (fun e => e);
  let sysname := default [] (d_sysname (device_at e 0)) in
  if negb (act =? ACTION_REMOVE) && str_eq (Some ("block" : bytes)) subsystem
     && negb (bool_decide (is_Some (startswith sysname "dm-"))) && negb (bool_decide (is_Some (startswith sysname "md"))) then
    devtype ← on 0 udev_device_get_devtype;
    d ← (if str_eq (Some ("partition" : bytes)) devtype then udev_device_get_parent 0 else mret (Some O));
    match d with
    | Some i => n ← on i udev_device_get_devnode; mret (Some n)
    | None => mret None
    end
  else mret None.
(** From the device to the exit code of the message and the message of the
    monitor; the event tells about SIGTERM. *)
Definition worker_event (r : @rules P) : E (option (Z * option (option (Z + bytes)))) :=
  node ← lock_node;
  locked ← ev_sys (match node with Some n => sys_locked n | None => mret false end);
  if (locked : bool) then mret (Some (- EWOULDBLOCK, None))
  else
    _ ←! udev_event_execute_rules r;
    udev_event_execute_run ;;
    e ← ev (fun e => e);
    (if ev_inotify_watch e then on 0 udev_watch_begin ;; on 0 udev_device_update_db ;; mret tt else mret tt) ;;
    packet ← on 0 monitor_packet;
    mret (Some (0, Some packet)).

(** ** The loop of a worker *)

Context (exec_delay : Z).
(** The message to the daemon, and whether SIGTERM came while a program ran. *)
Definition worker_handle (r : @rules P) (dev : udev_device) : state world (option (Z * bool)) :=
  fun w =>
    let '(e, w) := udev_event_new dev w in
    let e := if 0 <? exec_delay then e <| ev_exec_delay := exec_delay |> else e in
    let '(res, (w, e)) := worker_event r (w, e) in
    ((fun '(exitcode, _) => (exitcode, ev_sigterm e)) <$> res, w).
(** What a worker that waits is woken by. *)
Inductive worker_input := Message (dev : option udev_device) | Terminate | Wake | Wait_failed.
(** The answers of the worker, until it ends or has no more input. *)
Fixpoint worker_wait (r : @rules P) (inputs : list worker_input) : state world (option (list Z)) :=
  match inputs with
  | [] | Terminate :: _ | Wait_failed :: _ => mret (Some [])
  | Wake :: inputs' | Message None :: inputs' => worker_wait r inputs'
  | Message (Some dev) :: inputs' =>
      res ← worker_handle r dev;
      match res with
      | None => mret None
      | Some (exitcode, true) => mret (Some [exitcode])
      | Some (exitcode, false) => rest ← worker_wait r inputs'; mret (cons exitcode <$> rest)
      end
  end.
(** A worker starts with the device of its event. *)
Definition worker_body (r : @rules P) (dev : udev_device) (inputs : list worker_input) : state world (option (list Z)) :=
  worker_wait r (Message (Some dev) :: inputs).
End run.
End EventRun.
