(* ===== verification/EventRunProps.v ===== *)
(** src/core/udev-event.c: what is read from a program, how its end is
    reported, and the names of a network interface after it was renamed; and
    the answers of a worker. *)

From Stdlib Require Import ZArith Lia Ascii.
From stdpp Require Import prelude gmap strings sorting.
From S2P Require Import Prelude Utils Strings Strbuf RuleTokens UdevList System Device DeviceProofs DeviceProps DeviceNew Node Event RuleApply EventRun.
Import Mem Entries EntryFacts Device DeviceProofs DeviceProps Node Event EventRun.

Module EventRunProps.
#[local] Abbreviation tt := Datatypes.tt.

(** * The output *)

(** The pieces of stdout of a round, and of all rounds, up to the end of
    stdout. *)
Definition stdout_piece (x : bool * pipe_event) : option bytes :=
  match x with (true, Readable (c :: s)) => Some (c :: s) | _ => None end.
Definition stdout_pieces (rounds : list (Z * poll_result)) : list bytes :=
  mjoin ((fun r => match r.2 with Poll_events evs => omap stdout_piece evs | _ => [] end) <$> rounds).
Abbreviation store_piece n := (fun res piece => if (length res + length piece <? n)%nat then res ++ piece else res).

(** Whether a pipe has been seen to be closed. *)
Definition closes (out : bool) (x : bool * pipe_event) : bool := match x.2 with Hangup => eqb x.1 out | _ => false end.
Definition closed (out : bool) (rounds : list (Z * poll_result)) : bool :=
  existsb (fun r => match r.2 with Poll_events evs => existsb (closes out) evs | _ => false end) rounds.

Lemma closed_cons out age evs rounds : closed out ((age, Poll_events evs) :: rounds) = existsb (closes out) evs || closed out rounds.
Proof. done. Qed.

Lemma pipe_steps_open n evs r :
  let r' := fold_left (fun r '(out, e) => pipe_step true n out e r) evs r in
  r_stdout r' = r_stdout r && negb (existsb (closes true) evs) /\ r_stderr r' = r_stderr r && negb (existsb (closes false) evs).
Proof.
  revert r. induction evs as [|[out e] evs IH]; intros r; [simpl; by rewrite !andb_true_r|].
  cbn [fold_left existsb]. destruct (IH (pipe_step true n out e r)) as [-> ->]. clear IH.
  destruct e as [[|c s]| |], out; cbn [pipe_step closes existsb andb eqb negb fst snd]; try (by destruct (_ <? _)%nat); cbn; by rewrite ?andb_false_r, ?andb_true_r.
Qed.
Lemma pipe_steps_result n evs r :
  r_result (fold_left (fun r '(out, e) => pipe_step true n out e r) evs r) = fold_left (store_piece n) (omap stdout_piece evs) (r_result r).
Proof.
  revert r. induction evs as [|[out e] evs IH]; intros r; [done|]. cbn [fold_left omap list_omap]. rewrite IH. clear IH.
  destruct out, e as [[|c s]| |]; cbn [stdout_piece pipe_step fold_left]; try done. cbn [andb]. by destruct (_ <? _)%nat.
Qed.
Lemma store_pieces_bound n (pieces : list bytes) (res : bytes) :
  (length res < n)%nat -> (length (fold_left (store_piece n) pieces res) < n)%nat.
Proof.
  revert res. induction pieces as [|p pieces IH]; intros res H; [done|]. apply IH.
  destruct (Nat.ltb_spec (length res + length p) n); [by rewrite length_app|done].
Qed.
Lemma spawn_read_loop_eq n timeout rounds r out :
  spawn_read_loop true n timeout rounds r = Some (out, true) ->
  exists used rest, rounds = used ++ rest /\ closed true used || negb (r_stdout r) = true /\ closed false used || negb (r_stderr r) = true /\
    out = fold_left (store_piece n) (stdout_pieces used) (r_result r).
Proof.
  revert r. induction rounds as [|[age p] rounds IH]; intros r; cbn [spawn_read_loop];
    destruct (r_stdout r || r_stderr r) eqn:Eo; try done.
  2: destruct (_ && _); [done|]; destruct p as [| | |evs]; try done.
  1, 4: intros [= <-]; apply orb_false_elim in Eo as [-> ->].
  - by exists [], [].
  - by exists [], ((age, p) :: rounds).
  - intros H. destruct (IH r H) as (used & rest & -> & H1 & H2 & ->). by exists ((age, Poll_interrupted) :: used), rest.
  - intros H. destruct (IH _ H) as (used & rest & -> & H1 & H2 & ->). exists ((age, Poll_events evs) :: used), rest. split; [done|].
    destruct (pipe_steps_open n evs r) as [E1 E2]. rewrite E1 in H1. rewrite E2 in H2.
    rewrite !closed_cons.
    split; [revert H1|split; [revert H2|]].
    + by destruct (closed true used), (r_stdout r), (existsb (closes true) evs).
    + by destruct (closed false used), (r_stderr r), (existsb (closes false) evs).
    + rewrite pipe_steps_result. unfold stdout_pieces. cbn [fmap list_fmap mjoin list_join snd]. by rewrite fold_left_app.
Qed.

(** C14: When all output of a program has been read, both pipes have been closed,
    and the result is what the pieces of its standard output up to then give
    one after the other, a piece that does not fit being dropped as a whole;
    it leaves room for the terminator, whatever the program writes to its
    other pipe. *)
Theorem spawn_read_result (n : nat) timeout err rounds out :
  (0 < n)%nat -> spawn_read true n timeout true err rounds = Some (out, true) ->
  (length out < n)%nat /\ exists used rest, rounds = used ++ rest /\
    closed true used = true /\ (err = true -> closed false used = true) /\ out = spawn_result n (stdout_pieces used).
Proof.
  intros Hn H. unfold spawn_read in H. cbn [negb andb] in H. apply spawn_read_loop_eq in H as (used & rest & -> & H1 & H2 & ->).
  cbn [r_result r_stdout r_stderr negb] in *. split; [by apply store_pieces_bound|]. exists used, rest. rewrite orb_false_r in H1.
  split; [done|]. split; [done|]. split; [|done]. intros ->. by rewrite orb_false_r in H2.
Qed.
Definition two_pieces : list (Z * poll_result) :=
  [(0, Poll_events [(true, Readable ("ab" : bytes)); (false, Readable ("warning" : bytes))]); (1, Poll_interrupted);
   (2, Poll_events [(true, Readable ("too long" : bytes)); (true, Readable ("c" : bytes)); (true, Hangup); (false, Hangup)])].
Lemma spawn_read_result_witness :
  spawn_read true 8 0 true true two_pieces = Some (("abc" : bytes), true) /\ (length ("abc" : bytes) < 8)%nat.
Proof. split; [done|]. by apply (spawn_read_result 8 0 true two_pieces "abc"); [lia|]. Defined.

(** * The end *)

(** What does not end the wait. *)
Definition goes_on (e : wait_event) : bool :=
  match e with Wait_error _ => false | Child r _ => r <? 0 | _ => true end.
Definition is_sigterm (e : wait_event) : bool := match e with Sigterm => true | _ => false end.
Definition is_timeout (e : wait_event) : bool := match e with Wait_timeout => true | _ => false end.
(** The program has ended by itself, with 0. *)
Definition ended_well (status : Z) : Prop := Z.land status 0x7f = 0 /\ Z.land (Z.shiftr status 8) 0xff = 0.

Lemma spawn_wait_app events rest w :
  forallb goes_on events = true ->
  spawn_wait_loop (events ++ rest) w =
    spawn_wait_loop rest (mk_wait (w_sigterm w || existsb is_sigterm events) (w_kills w + length (filter is_timeout events))).
Proof.
  revert w. induction events as [|e events IH]; intros w H; [destruct w; simpl; by rewrite orb_false_r, Nat.add_0_r|].
  cbn [forallb] in H. apply andb_prop in H as [He H]. cbn [app spawn_wait_loop existsb].
  rewrite filter_cons.
  destruct e; try done; cbn [is_sigterm is_timeout]; rewrite ?decide_True, ?decide_False by done; cbn [goes_on] in He; rewrite ?He, IH by done;
    cbn; rewrite ?orb_true_r, ?orb_true_l, ?orb_false_l; try done.
  do 2 f_equal. lia.
Qed.
(** C13: The wait for a program goes on through interruptions, short reads,
    timeouts, other signals and a waitpid that fails; the program is killed
    once per timeout and a SIGTERM is remembered for the worker.  It ends with
    0 exactly when waitpid tells that the program ended by itself with status
    0, with -1 for every other status, and with the error when poll fails.
    When waitpid has nothing to tell (0) for a SIGCHLD, which happens when the
    signal was about another child, the code reads a status that was never
    set, and the wait has no result that the code defines. *)
Theorem spawn_wait_status (events : list wait_event) (sigterm : bool) :
  forallb goes_on events = true ->
  let w := mk_wait (sigterm || existsb is_sigterm events) (length (filter is_timeout events)) in
  spawn_wait events sigterm = None /\
  (forall r status rest, 0 < r -> exists err, spawn_wait (events ++ Child r status :: rest) sigterm = Some (err, w) /\
     (err = 0 <-> ended_well status) /\ (err <> 0 -> err = -1)) /\
  (forall status rest, spawn_wait (events ++ Child 0 status :: rest) sigterm = None) /\
  (forall errno rest, spawn_wait (events ++ Wait_error errno :: rest) sigterm = Some (- errno, w)).
Proof.
  intros He w. unfold spawn_wait. split_and!; intros; [rewrite <- (app_nil_r events)|..]; rewrite spawn_wait_app by done; cbn [spawn_wait_loop]; try done.
  rewrite (proj2 (Z.ltb_ge r 0)), (proj2 (Z.eqb_neq r 0)) by lia. eexists. split; [reflexivity|].
  unfold ended_well, WIFEXITED, WEXITSTATUS. destruct (Z.eqb_spec (Z.land status 0x7f) 0), (Z.eqb_spec (Z.land (Z.shiftr status 8) 0xff) 0); intuition done.
Qed.
Lemma spawn_wait_status_witness :
  exists err, spawn_wait [Wait_timeout; Sigterm; Child (-1) 0; Child 7 0x100] false = Some (err, mk_wait true 1) /\ err <> 0.
Proof.
  destruct (spawn_wait_status [Wait_timeout; Sigterm; Child (-1) 0] false eq_refl) as (_ & H & _).
  destruct (H 7 0x100 [] ltac:(lia)) as (err & H1 & H2 & _).
  exists err. split; [exact H1|]. intros E. apply H2 in E as [_ E]. by vm_compute in E.
Defined.

(** * The name of a network interface *)

Lemma renamed_syspath_eq (dir old name : bytes) :
  "/"%char ∉ old -> (length dir + 1 + length old < UTIL_PATH_SIZE)%nat -> (length dir + 1 + length name < UTIL_PATH_SIZE)%nat ->
  renamed_syspath (dir ++ "/"%char :: old) name = Some (dir ++ "/"%char :: name).
Proof.
  intros Ho Hl Hl'. unfold renamed_syspath. rewrite strscpy_fits by (rewrite length_app; simpl; lia).
  rewrite strrchr_dir by done. rewrite strscpy_fits by (rewrite length_app; simpl; lia). by rewrite <- app_assoc.
Qed.
(** The kernel name a name stands for. *)
Definition kernel_name (name : bytes) : bytes := (fun c => if c ==c "!" then "/"%char else c) <$> name.

(** [add_prop] sets one value and nothing else. *)
Lemma add_property_eq `{SY : System} {A} k v (m : D A) (w : world) d :
  (udev_device_add_property k (Some v) ;; m) (w, d) = m (w, add_prop k v d).
Proof. done. Qed.
Lemma set_property_eq `{SY : System} {A} self k v (m : D A) (w : world) d :
  (set_property self k v ;; m) (w, d) = m (w, add_prop k v d).
Proof. done. Qed.
Lemma value_of_add_prop k v d key : names_sorted (d_properties_list d) ->
  value_of (add_prop k v d) key = (if decide (key = k) then Some v else value_of d key) /\
  names_sorted (d_properties_list (add_prop k v d)).
Proof.
  intros Hs. unfold add_prop, value_of, props. cbn [d_properties_list set_field]. split; [|by apply insert_sorted_sorted].
  rewrite spec_find_add by done. by case_decide.
Qed.
(** What [udev_device_set_syspath] does to the device besides DEVPATH. *)
Lemma set_syspath_eq `{SY : System} {A} self dir name (m : D A) (w : world) d :
  "/"%char ∉ name ->
  exists num, (udev_device_set_syspath self (dir ++ "/"%char :: name) ;; m) (w, d) =
    m (w, add_prop "DEVPATH" (drop 4 (dir ++ "/"%char :: name)) (d <| d_syspath := Some (dir ++ "/"%char :: name) |>
            <| d_sysname := Some (kernel_name name) |> <| d_sysnum := num |>)).
Proof.
  intros Hn. unfold udev_device_set_syspath. rewrite !bind_assoc, bind_update, !bind_assoc, set_property_eq, strrchr_dir by done.
  rewrite !bind_assoc, bind_update, bind_ret. fold (kernel_name name). destruct (sysnum_loop _ _ _) as [len num]. by eexists.
Qed.

(** After the kernel has renamed a network interface, the path of the
    device ends in the new name, DEVPATH and the kernel name follow it,
    INTERFACE is the new kernel name and INTERFACE_OLD the one from before;
    every other property is as it was. *)
Lemma netif_renamed_names `{SY : System} (w : world) d dir old oldname name :
  d_syspath d = Some (dir ++ "/"%char :: old) -> d_sysname d = Some oldname -> names_sorted (d_properties_list d) ->
  "/"%char ∉ old -> "/"%char ∉ name ->
  (length dir + 1 + length old < UTIL_PATH_SIZE)%nat -> (length dir + 1 + length name < UTIL_PATH_SIZE)%nat ->
  let path := dir ++ "/"%char :: name in
  exists d', netif_renamed name (w, d) = (tt, (w, d')) /\ d_syspath d' = Some path /\ d_sysname d' = Some (kernel_name name) /\
    forall key, value_of d' key =
      if decide (key = ("INTERFACE" : bytes)) then Some (kernel_name name)
      else if decide (key = ("DEVPATH" : bytes)) then Some (drop 4 path)
      else if decide (key = ("INTERFACE_OLD" : bytes)) then Some oldname
      else value_of d key.
Proof.
  intros Hp Hn Hs Ho Hname Hl Hl' path. unfold netif_renamed. rewrite bind_field, Hn, add_property_eq, bind_field.
  destruct (value_of_add_prop "INTERFACE_OLD" oldname d) with (key := path) as [_ Hs1]; [done|].
  set (d1 := add_prop "INTERFACE_OLD" oldname d) in *.
  assert (syspath d1 = dir ++ "/"%char :: old) as -> by (unfold syspath; change (d_syspath d1) with (d_syspath d); by rewrite Hp).
  rewrite renamed_syspath_eq by done.
  destruct (set_syspath_eq udev_device_get_properties_list_entry dir name
    (d ← field (fun d => d); udev_device_add_property "INTERFACE" (d_sysname d) ;; mret tt) w d1 Hname) as [num ->].
  set (d0 := set_field d_sysnum _ _). set (d2 := add_prop "DEVPATH" _ d0). rewrite bind_field.
  change (d_sysname d2) with (Some (kernel_name name)). rewrite add_property_eq.
  eexists. split; [reflexivity|]. split; [done|]. split; [done|]. intros key.
  destruct (value_of_add_prop "DEVPATH" (drop 4 path) d0 key Hs1) as [H2 Hs2].
  rewrite (proj1 (value_of_add_prop "INTERFACE" (kernel_name name) d2 key Hs2)).
  destruct (decide (key = "INTERFACE")); [done|]. etrans; [exact H2|]. destruct (decide (key = "DEVPATH")); [done|].
  exact (proj1 (value_of_add_prop "INTERFACE_OLD" oldname d key Hs)).
Qed.
Definition netif_device : udev_device :=
  device_new <| d_syspath := Some ("/sys/devices/pci/net/eth0" : bytes) |> <| d_sysname := Some ("eth0" : bytes) |>
    <| d_properties_list := [mk_entry "DEVPATH" (Some ("/devices/pci/net/eth0" : bytes)) 0; mk_entry "INTERFACE" (Some ("eth0" : bytes)) 0] |>.
Lemma netif_renamed_names_witness :
  exists d', @netif_renamed file_system "lan!0" (∅, netif_device) = (tt, (∅, d')) /\
    value_of d' "INTERFACE" = Some ("lan/0" : bytes) /\ value_of d' "INTERFACE_OLD" = Some ("eth0" : bytes) /\
    value_of d' "DEVPATH" = Some ("/devices/pci/net/lan!0" : bytes).
Proof.
  destruct (@netif_renamed_names file_system ∅ netif_device "/sys/devices/pci/net" "eth0" "eth0" "lan!0") as (d' & H1 & _ & _ & H2);
    [done|done| |by apply (bool_decide_unpack _)|by apply (bool_decide_unpack _)|cbn; unfold UTIL_PATH_SIZE; lia|cbn; unfold UTIL_PATH_SIZE; lia|].
  { repeat constructor. }
  exists d'. split; [exact H1|]. by rewrite !H2.
Defined.
End EventRunProps.
