(* ===== verification/BuiltinPath.v ===== *)
(** src/core/builtin/udev-builtin-path_id.c: the persistent path of a device,
    which is composed while the walk goes from the device up to its parents.

    A device is its place in the chain of the event, as in [Event].  The result
    of a handler is the device the walk goes on from and the path so far; it is
    [None] where the program follows NULL or leaves an array. *)

From Stdlib Require Import ZArith Lia Ascii.
From stdpp Require Import prelude gmap strings sorting.
From S2P Require Import Prelude Utils Strings Encode UdevList System Device DeviceNew Node Event.
Import Mem Entries Device DeviceNew Node Event.

(** * The conversions of [sscanf] and of [strtoul] with other bases *)

Module Scan.

(** [strtol] and [strtoul] with base 0 or 16, which may have a prefix: sign,
    magnitude and the rest, which is the string when there is no digit. *)
Definition strto_prefix (base : Z) (str : bytes) : bool * Z * bytes :=
  let s := skip_space str in
  let '(neg, s) := match s with
                   | c :: s' => if c ==c "-" then (true, s') else if c ==c "+" then (false, s') else (false, s)
                   | [] => (false, s)
                   end in
  let digits b s := let '(v, rest) := strto_digits b 0 s in if (length rest =? length s)%nat then (false, 0, str) else (neg, v, rest) in
  match s with
  | c :: s' =>
      if c ==c "0" then
        match s' with
        | x :: d :: _ =>
            if ((x ==c "x") || (x ==c "X")) && from_option (fun v => v <? 16) false (digit_val d) then digits 16 (drop 1 s')
            else digits (if base =? 0 then 8 else base) s
        | _ => digits (if base =? 0 then 8 else base) s
        end
      else digits (if base =? 0 then 10 else base) s
  | [] => digits (if base =? 0 then 10 else base) s
  end.
Definition strtoul_prefix (base : Z) (str : bytes) : Z * bytes :=
  let '(neg, v, rest) := strto_prefix base str in
  if 2 ^ 64 <=? v then (2 ^ 64 - 1, rest) else ((if neg then u64 (- v) else v), rest).
Definition strtol_prefix (base : Z) (str : bytes) : Z * bytes :=
  let '(neg, v, rest) := strto_prefix base str in
  (if neg then Z.max (- v) (- 2 ^ 63) else Z.min v (2 ^ 63 - 1), rest).

(** [%d], [%u], [%x] and a character of the format. *)
Definition conversion (conv : bytes -> Z * bytes) (s : bytes) : option (Z * bytes) :=
  let '(v, rest) := conv s in if (length rest =? length s)%nat then None else Some (v, rest).
Definition scan_d (s : bytes) : option (Z * bytes) := '(v, s) ← conversion (strtol 10) s; Some (s32 v, s).
Definition scan_u (s : bytes) : option (Z * bytes) := '(v, s) ← conversion (strtoul 10) s; Some (u32 v, s).
Definition scan_x (s : bytes) : option (Z * bytes) := '(v, s) ← conversion (strtoul_prefix 16) s; Some (u32 v, s).
Definition scan_c (c : byte) (s : bytes) : option bytes :=
  match s with x :: s' => if x ==c c then Some s' else None | [] => None end.
(** [%d:%d:%d:%d] *)
Definition scan_hctl (s : bytes) : option (Z * Z * Z * Z) :=
  '(host, s) ← scan_d s; s ← scan_c ":" s; '(bus, s) ← scan_d s; s ← scan_c ":" s;
  '(target, s) ← scan_d s; s ← scan_c ":" s; '(lun, _) ← scan_d s; Some (host, bus, target, lun).
(** [bcma%*u:%u] *)
Definition scan_bcma (s : bytes) : option Z :=
  s ← startswith s "bcma"; '(_, s) ← scan_u s; s ← scan_c ":" s; '(core, _) ← scan_u s; Some core.
End Scan.
Import Scan.

Module BuiltinPath.
#[local] Abbreviation tt := Datatypes.tt.

(** [%04lx] *)
Definition hex4 (z : Z) : bytes := let s := fmt 16 z in replicate (4 - length s) "0"%char ++ s.
(** [%s] of what may be NULL. *)
Definition str_arg (s : option bytes) : bytes := default ("(null)" : bytes) s.

Definition path_prepend (path : option bytes) (pre : bytes) : option bytes :=
  match path with Some p => Some (pre ++ "-"%char :: p) | None => Some pre end.
Definition lun_number (sysnum : bytes) : bytes :=
  let lun := fst (strtoul 10 sysnum) in
  if lun <? 256 then "lun-" ++ fmt 10 lun
  else "lun-0x" ++ hex4 (Z.land lun 0xffff) ++ hex4 (Z.land (Z.shiftr lun 16) 0xffff) ++ "00000000".

(** The tag of a path: [strip] when the end of the path has been reached. *)
Definition tag_char (c : byte) : bool :=
  ((48 <=? code c) && (code c <=? 57)) || ((65 <=? code c) && (code c <=? 90)) || ((97 <=? code c) && (code c <=? 122)) || (c ==c "-").
Fixpoint tag_loop (p tag : bytes) : bytes :=
  match p with
  | [] => tag
  | c :: p' =>
      if tag_char c then tag_loop p' (tag ++ [c])
      else if (length tag =? 0)%nat then tag_loop p' tag
      else if nth (length tag - 1) tag nul ==c "_" then tag_loop p' tag
      else tag_loop p' (tag ++ ["_"%char])
  end.
Fixpoint strip_loop (i : nat) (tag : bytes) : bytes :=
  match i with
  | S i' => if nth i' tag nul ==c "_" then strip_loop i' tag else take i tag
  | O => []
  end.
Definition path_tag (path : bytes) : bytes := let tag := tag_loop path [] in strip_loop (length tag) tag.
(** The array of the tag is large enough, with its terminator. *)
Definition tag_fits (path : bytes) : bool :=
  (length (tag_loop path []) <=? UTIL_NAME_SIZE)%nat && (length (path_tag path) <? UTIL_NAME_SIZE)%nat.

#[local] Notation "x ←! m ; f" := (obind m (fun x => f)) (at level 20, m at level 100, f at level 200, right associativity).

Section path.
Context `{SY : System} {PR : Programs} {IF : Interfaces}.

Definition sysname_of (i : nat) : E bytes := e ← ev (fun e => e); mret (default [] (d_sysname (device_at e i))).
Definition sysnum_of (i : nat) : E (option bytes) := e ← ev (fun e => e); mret (d_sysnum (device_at e i)).
Definition subsystem_of (i : nat) : E (option bytes) := on i (udev_device_get_subsystem udev_device_get_properties_list_entry).
Definition devtype_of (i : nat) : E (option bytes) := on i udev_device_get_devtype.
Definition sysattr_of (i : nat) (attr : bytes) : E (option bytes) := on i (udev_device_get_sysattr_value attr).
Definition is_str (s : bytes) (x : option bytes) : bool := str_eq (Some s) x.

(** [fuel] is for the parents. *)
Fixpoint parent_with_loop (fuel : nat) (subsystem : bytes) (devtype : option bytes) (i : nat) : E (option (option nat)) :=
  match fuel with
  | O => mret None
  | S fuel' =>
      p ← udev_device_get_parent i;
      match p with
      | None => mret (Some None)
      | Some j =>
          s ← subsystem_of j;
          if is_str subsystem s then
            match devtype with
            | None => mret (Some (Some j))
            | Some t => dt ← devtype_of j; if is_str t dt then mret (Some (Some j)) else parent_with_loop fuel' subsystem devtype j
            end
          else parent_with_loop fuel' subsystem devtype j
      end
  end.

Context (fuel : nat).
Definition udev_device_get_parent_with_subsystem_devtype (i : nat) (subsystem : bytes) (devtype : option bytes) : E (option (option nat)) :=
  parent_with_loop fuel subsystem devtype i.

Fixpoint skip_loop (fuel : nat) (subsys : bytes) (dev : nat) (parent : option nat) : E (option nat) :=
  match parent with
  | None => mret (Some dev)
  | Some p =>
      match fuel with
      | O => mret None
      | S fuel' =>
          s ← subsystem_of p;
          if is_str subsys s then q ← udev_device_get_parent p; skip_loop fuel' subsys p q else mret (Some dev)
      end
  end.
Definition skip_subsystem (dev : nat) (subsys : bytes) : E (option nat) := skip_loop fuel subsys dev (Some dev).

(** The next device and the path. *)
Abbreviation H := (E (option (option nat * option bytes))).

Definition format_lun_number (dev : nat) : E (option bytes) := num ← sysnum_of dev; mret (lun_number <$> num).
(** A device of its own, which is looked up by name. *)
Definition attr_of_device (d : option udev_device) (attr : bytes) : E (option (option bytes)) :=
  match d with
  | None => mret None
  | Some d => '(v, _) ← ev_sys (run_device d (udev_device_get_sysattr_value attr)); mret (Some v)
  end.

Definition handle_scsi_fibre_channel (parent : nat) (path : option bytes) : H :=
  targetdev ←! udev_device_get_parent_with_subsystem_devtype parent "scsi" (Some ("scsi_target" : bytes));
  match targetdev with
  | None => mret (Some (None, path))
  | Some t =>
      name ← sysname_of t;
      fcdev ← ev_sys (udev_device_new_from_subsystem_sysname "fc_transport" name);
      port ← attr_of_device fcdev "port_name";
      match port with
      | Some (Some port) =>
          lun ←! format_lun_number parent;
          mret (Some (Some parent, path_prepend path ("fc-" ++ port ++ "-"%char :: lun)))
      | _ => mret (Some (None, path))
      end
  end.
Definition handle_scsi_sas (parent : nat) (path : option bytes) : H :=
  targetdev ←! udev_device_get_parent_with_subsystem_devtype parent "scsi" (Some ("scsi_target" : bytes));
  match targetdev with
  | None => mret (Some (None, path))
  | Some t =>
      tp ← udev_device_get_parent t;
      match tp with
      | None => mret (Some (None, path))
      | Some tp =>
          name ← sysname_of tp;
          sasdev ← ev_sys (udev_device_new_from_subsystem_sysname "sas_device" name);
          sas_address ← attr_of_device sasdev "sas_address";
          match sas_address with
          | Some (Some a) =>
              lun ←! format_lun_number parent;
              mret (Some (Some parent, path_prepend path ("sas-" ++ a ++ "-"%char :: lun)))
          | _ => mret (Some (None, path))
          end
      end
  end.
Fixpoint session_loop (fuel : nat) (i : nat) : E (option (option nat)) :=
  match fuel with
  | O => mret None
  | S fuel' =>
      p ← udev_device_get_parent i;
      match p with
      | None => mret (Some None)
      | Some j => name ← sysname_of j; if startswith name "session" is Some _ then mret (Some (Some j)) else session_loop fuel' j
      end
  end.
Definition handle_scsi_iscsi (parent : nat) (path : option bytes) : H :=
  transportdev ←! session_loop fuel parent;
  match transportdev with
  | None => mret (Some (None, path))
  | Some t =>
      name ← sysname_of t;
      sessiondev ← ev_sys (udev_device_new_from_subsystem_sysname "iscsi_session" name);
      target ← attr_of_device sessiondev "targetname";
      match target with
      | Some (Some target) =>
          num ← sysnum_of t;
          conndev ← ev_sys (udev_device_new_from_subsystem_sysname "iscsi_connection" ("connection" ++ str_arg num ++ ":0"));
          match conndev with
          | None => mret (Some (None, path))
          | Some c =>
              '(addr, c) ← ev_sys (run_device c (udev_device_get_sysattr_value "persistent_address"));
              '(port, _) ← ev_sys (run_device c (udev_device_get_sysattr_value "persistent_port"));
              match addr, port with
              | Some addr, Some port =>
                  lun ←! format_lun_number parent;
                  mret (Some (Some parent, path_prepend path ("ip-" ++ addr ++ ":" ++ port ++ "-iscsi-" ++ target ++ "-"%char :: lun)))
              | _, _ => mret (Some (None, path))
              end
          end
      | _ => mret (Some (None, path))
      end
  end.

(** The smallest number of the hosts in a directory; -1 when there is none. *)
Fixpoint host_loop (base : bytes) (names : list bytes) (basenum : Z) : state world Z :=
  match names with
  | [] => mret basenum
  | name :: names' =>
      if nth 0 name nul ==c "." then host_loop base names' basenum
      else
        st ← sys_lstat (base ++ "/"%char :: name);
        if from_option (fun m => S_ISDIR m || S_ISLNK m) false st then
          match startswith name "host" with
          | Some s =>
              let '(v, rest) := strtoul 10 s in
              if bool_decide (rest = []) then
                host_loop base names' (if (basenum =? -1) || (s32 v <? basenum) then s32 v else basenum)
              else host_loop base names' basenum
          | None => host_loop base names' basenum
          end
        else host_loop base names' basenum
  end.
Definition handle_scsi_default (parent : nat) (path : option bytes) : H :=
  hostdev ←! udev_device_get_parent_with_subsystem_devtype parent "scsi" (Some ("scsi_host" : bytes));
  match hostdev with
  | None => mret (Some (None, path))
  | Some h =>
      name ← sysname_of parent;
      match scan_hctl name with
      | None => mret (Some (None, path))
      | Some (host, bus, target, lun) =>
          e ← ev (fun e => e);
          match strrchr (syspath (device_at e h)) "/" with
          | None => mret (Some (Some h, path))
          | Some (base, _) =>
              dir ← ev_sys (sys_readdir base);
              match dir with
              | None => mret (Some (Some h, path))
              | Some names =>
                  basenum ← ev_sys (host_loop base names (-1));
                  if basenum =? -1 then mret (Some (Some h, path))
                  else
                    mret (Some (Some h, path_prepend path
                      ("scsi-" ++ fmt_u32 (host - basenum) ++ ":" ++ fmt_u32 bus ++ ":" ++ fmt_u32 target ++ ":" ++ fmt_u32 lun)))
              end
          end
      end
  end.
Definition guid_of (s : bytes) : option bytes :=
  if (length s <? 37)%nat || negb (nth 0 s nul ==c "{") || negb (nth 36 s nul ==c "}") then None
  else Some (filter (fun c => c <> "-"%char) (take 35 (drop 1 s))).
Definition handle_scsi_hyperv (parent : nat) (path : option bytes) : H :=
  hostdev ←! udev_device_get_parent_with_subsystem_devtype parent "scsi" (Some ("scsi_host" : bytes));
  match hostdev with
  | None => mret (Some (None, path))
  | Some h =>
      vmbusdev ← udev_device_get_parent h;
      match vmbusdev with
      | None => mret (Some (None, path))
      | Some v =>
          guid ← sysattr_of v "device_id";
          match g ← guid; guid_of g with
          | None => mret (Some (None, path))
          | Some guid =>
              lun ←! format_lun_number parent;
              mret (Some (Some parent, path_prepend path ("vmbus-" ++ guid ++ "-"%char :: lun)))
          end
      end
  end.

Definition has_part (s part : bytes) : bool := bool_decide (is_Some (strstr s part)).
Definition handle_scsi (parent : nat) (path : option bytes) : H :=
  devtype ← devtype_of parent;
  if negb (is_str "scsi_device" devtype) then mret (Some (Some parent, path))
  else
    id ← sysattr_of parent "ieee1394_id";
    match id with
    | Some id =>
        p ←! skip_subsystem parent "scsi";
        mret (Some (Some p, path_prepend path ("ieee1394-0x" ++ id)))
    | None =>
        e ← ev (fun e => e);
        let name := syspath (device_at e parent) in
        if has_part name "/rport-" then handle_scsi_fibre_channel parent path
        else if has_part name "/end_device-" then handle_scsi_sas parent path
        else if has_part name "/session" then handle_scsi_iscsi parent path
        else if has_part name "/ata" then mret (Some (None, path))
        else if has_part name "/vmbus_" then handle_scsi_hyperv parent path
        else handle_scsi_default parent path
    end.
(** [c%ud%u%*s] *)
Definition scan_cciss (s : bytes) : option Z :=
  s ← scan_c "c" s; '(_, s) ← scan_u s; s ← scan_c "d" s; '(disk, _) ← scan_u s; Some disk.
Definition handle_cciss (parent : nat) (path : option bytes) : H :=
  name ← sysname_of parent;
  match scan_cciss name with
  | None => mret (Some (None, path))
  | Some disk =>
      p ←! skip_subsystem parent "cciss";
      mret (Some (Some p, path_prepend path ("cciss-disk" ++ fmt_u32 disk)))
  end.
(** [strchr] also finds the terminator; [%c] then ends the string. *)
Definition tape_mode (name : bytes) (i : nat) : option bytes :=
  let c := nth i name nul in
  if c ==c nul then Some [] else if (c ==c "l") || (c ==c "m") || (c ==c "a") then Some [c] else None.
Definition handle_scsi_tape (dev : nat) (path : option bytes) : E (option bytes) :=
  match path with
  | Some _ => mret path
  | None =>
      name ← sysname_of dev;
      mret (match startswith name "nst", tape_mode name 3, startswith name "st", tape_mode name 2 with
            | Some _, Some c, _, _ => path_prepend path ("nst" ++ c)
            | _, _, Some _, Some c => path_prepend path ("st" ++ c)
            | _, _, _, _ => path
            end)
  end.
Definition handle_usb (parent : nat) (path : option bytes) : H :=
  devtype ← devtype_of parent;
  if negb (is_str "usb_interface" devtype) && negb (is_str "usb_device" devtype) then mret (Some (Some parent, path))
  else
    str ← sysname_of parent;
    match split_chr str "-" with
    | (_, None) => mret (Some (Some parent, path))
    | (_, Some port) =>
        p ←! skip_subsystem parent "usb";
        mret (Some (Some p, path_prepend path ("usb-0:" ++ port)))
    end.
Definition handle_bcma (parent : nat) (path : option bytes) : H :=
  name ← sysname_of parent;
  match scan_bcma name with
  | None => mret (Some (None, path))
  | Some core => mret (Some (Some parent, path_prepend path ("bcma-" ++ fmt_u32 core)))
  end.
Definition handle_ccw (parent dev : nat) (path : option bytes) : H :=
  scsi_dev ←! udev_device_get_parent_with_subsystem_devtype dev "scsi" (Some ("scsi_device" : bytes));
  zfcp ← (match scsi_dev with
          | None => mret None
          | Some d =>
              hba_id ← sysattr_of d "hba_id"; wwpn ← sysattr_of d "wwpn"; lun ← sysattr_of d "fcp_lun";
              mret (hba_id ← hba_id; wwpn ← wwpn; lun ← lun; Some ("ccw-" ++ hba_id ++ "-zfcp-" ++ wwpn ++ ":" ++ lun))
          end);
  name ← sysname_of parent;
  let path := path_prepend path (default ("ccw-" ++ name) zfcp) in
  p ←! skip_subsystem parent "ccw";
  mret (Some (Some p, path)).

(** * The walk *)

Record walk := mk_walk { wk_path : option bytes; wk_transport : bool; wk_parent : bool }.
(** The subsystems whose devices are named by their kernel name. *)
Definition named (subsys : bytes) : option (bool * bool) :=
  if bool_decide (subsys = ("pci" : bytes)) then Some (false, true)
  else if bool_decide (subsys = ("platform" : bytes)) then Some (true, true)
  else if bool_decide (subsys = ("acpi" : bytes)) then Some (false, true)
  else if bool_decide (subsys = ("xen" : bytes)) then Some (false, true)
  else if bool_decide (subsys = ("scm" : bytes)) then Some (true, true)
  else None.
(** The handler of a subsystem, with whether it makes the transport known. *)
Definition handler (subsys : bytes) (parent : nat) (path : option bytes) : option H :=
  if bool_decide (subsys = ("scsi" : bytes)) then Some (handle_scsi parent path)
  else if bool_decide (subsys = ("cciss" : bytes)) then Some (handle_cciss parent path)
  else if bool_decide (subsys = ("usb" : bytes)) then Some (handle_usb parent path)
  else if bool_decide (subsys = ("bcma" : bytes)) then Some (handle_bcma parent path)
  else None.
(** One device of the walk: where it goes on, and what is known then. *)
Definition path_step (subsys : option bytes) (parent : nat) (k : walk) : E (option (option nat * walk)) :=
  match subsys with
  | None => mret (Some (Some parent, k))
  | Some s =>
      if bool_decide (s = ("scsi_tape" : bytes)) then
        path ← handle_scsi_tape parent (wk_path k);
        mret (Some (Some parent, mk_walk path (wk_transport k) (wk_parent k)))
      else
        match handler s parent (wk_path k) with
        | Some h => r ←! h; mret (Some (fst r, mk_walk (snd r) true (wk_parent k)))
        | None =>
            if bool_decide (s = ("serio" : bytes)) then
              num ← sysnum_of parent;
              p ←! skip_subsystem parent "serio";
              mret (Some (Some p, mk_walk (path_prepend (wk_path k) ("serio-" ++ str_arg num)) (wk_transport k) (wk_parent k)))
            else
              match named s with
              | Some (t, b) =>
                  name ← sysname_of parent;
                  p ←! skip_subsystem parent s;
                  mret (Some (Some p, mk_walk (path_prepend (wk_path k) (s ++ "-"%char :: name)) (t || wk_transport k) (b || wk_parent k)))
              | None => mret (Some (Some parent, k))
              end
        end
  end.
Fixpoint path_loop (n : nat) (parent : option nat) (k : walk) : E (option walk) :=
  match parent with
  | None => mret (Some k)
  | Some p =>
      match n with
      | O => mret None
      | S n' =>
          subsys ← subsystem_of p;
          r ←! path_step subsys p k;
          next ← (match fst r with Some q => udev_device_get_parent q | None => mret None end);
          path_loop n' next (snd r)
      end
  end.
(** What the walk found, when it can be used. *)
Definition usable (block : bool) (k : walk) : option bytes :=
  if negb (wk_parent k) || (block && negb (wk_transport k)) then None else wk_path k.

(** [udev_builtin_add_property]: a private key is not kept in the database. *)
Definition udev_builtin_add_property (key : bytes) (val : option bytes) : E unit :=
  on 0 (entry ← udev_device_add_property key val;
        if nth 0 key nul ==c "." then mret tt else udev_list_entry_set_num_of entry 1).
Definition add_path (path : option bytes) : E (option bool) :=
  match path with
  | None => mret (Some false)
  | Some path =>
      if tag_fits path then
        udev_builtin_add_property "ID_PATH" (Some path) ;;
        udev_builtin_add_property "ID_PATH_TAG" (Some (path_tag path)) ;;
        mret (Some true)
      else mret None
  end.
(** Whether it succeeds. *)
Definition builtin_path_id : E (option bool) :=
  parent ←! udev_device_get_parent_with_subsystem_devtype 0 "ccw" None;
  match parent with
  | Some p => r ←! handle_ccw p 0 None; add_path (snd r)
  | None =>
      k ←! path_loop fuel (Some O) (mk_walk None false false);
      subsystem ← subsystem_of 0;
      add_path (usable (is_str "block" subsystem) k)
  end.
End path.
End BuiltinPath.
