(* ===== verification/Parents.v ===== *)
(** The walks from a device to its parents end: what reads a device leaves its
    path alone, and the path of a parent is shorter, since the directories of
    devices are not links. *)

From Stdlib Require Import ZArith Lia Ascii.
From stdpp Require Import prelude gmap strings sorting.
From S2P Require Import Prelude Utils Strings Encode Strbuf RuleTokens RuleParse RulesWf UdevList System Device DeviceProofs DeviceFrame DeviceProps DeviceNew Node Event RuleApply RuleWalk BuiltinPath.
Import Mem Entries ParseValue Strbuf RuleTokens RuleParse RulesWf Device DeviceProofs DeviceFrame DeviceProps Node Event RuleApply RuleWalk BuiltinPath.

Module Parents.
#[local] Abbreviation tt := Datatypes.tt.

(** * The path of a device is kept *)

(** What places a device among its parents. *)
Definition same_place (d d' : udev_device) : Prop := d_syspath d' = d_syspath d /\ d_parent_set d' = d_parent_set d.
Abbreviation keeps := (along same_place).
#[export] Instance same_place_rel : DeviceRel same_place.
Proof.
  split; [split|..].
  - done.
  - intros x y z [H1 H2] [H3 H4]. split; congruence.
  - by intros d d' (H1 & H2 & _).
  - done.
  - done.
  - done.
Qed.

Section keeps.
Context `{SY : System}.
(** What the keys of a rule do to the device. *)
Lemma stays_set_marked key e : keeps (set_marked key e).
Proof. unfold set_marked. along. Qed.
Lemma stays_envp : keeps udev_device_get_properties_envp.
Proof. unfold udev_device_get_properties_envp, update_envp_monitor_buf. along; by intros ? ?. Qed.
#[local] Hint Resolve stays_set_marked : along.
Lemma stays_import_line line : keeps (import_property_from_string line).
Proof. unfold import_property_from_string. along. Qed.
#[local] Hint Resolve stays_import_line : along.
Lemma stays_import_file f : keeps (import_file_into_properties f).
Proof. unfold import_file_into_properties. along. by apply along_for_each; [apply _|]; along. Qed.
Lemma stays_import_result n line : keeps (import_result n line).
Proof. revert line. induction n as [|n IH]; intros line; cbn [import_result]; along. Qed.
Lemma stays_import_cmdline key : keeps (import_cmdline key).
Proof. unfold import_cmdline. along. Qed.
Lemma stays_add_links n pos : keeps (add_links n pos).
Proof. revert pos. induction n as [|n IH]; intros pos; cbn [add_links]; along. Qed.
Lemma stays_can_be_named : keeps can_be_named.
Proof. unfold can_be_named, udev_device_action. along. Qed.
End keeps.
#[export] Hint Resolve stays_set_marked stays_envp stays_import_file stays_import_result stays_import_cmdline stays_add_links
  stays_can_be_named : along.

(** * The chain of parents *)

(** The directories of devices: none is a link, and with a directory the one it
    stands in is one of them. *)
Class Directories `{SY : System} (dir : bytes -> Prop) := {
  dir_no_link p : dir p -> forall w, exists w', sys_readlink p w = (None, w');
  dir_parent a b : dir (a ++ "/"%char :: b) -> dir a;
  dir_length p : dir p -> (length p < UTIL_PATH_SIZE)%nat
}.

Section chain.
Context `{SY : System} {PR : Programs} {dir : bytes -> Prop} {DI : Directories dir}.

(** Each device of the chain is in a directory, the path of a parent is
    shorter, and a device has a parent behind it only when it was looked up. *)
Definition path_at (e : udev_event) (i : nat) : bytes := syspath (device_at e i).
Definition chain_ok (e : udev_event) : Prop :=
  (forall i, (i < length (ev_chain e))%nat -> dir (path_at e i)) /\
  (forall i, (S i < length (ev_chain e))%nat -> (length (path_at e (S i)) < length (path_at e i))%nat /\ d_parent_set (device_at e i) = true).
(** [e'] is [e] with more parents. *)
Definition grown (e e' : udev_event) : Prop :=
  (length (ev_chain e) <= length (ev_chain e'))%nat /\ forall i, (i < length (ev_chain e))%nat -> path_at e' i = path_at e i.
Definition climbs {A} (m : E A) : Prop := forall w e, chain_ok e -> (0 < length (ev_chain e))%nat -> chain_ok (snd (snd (m (w, e)))) /\ grown e (snd (snd (m (w, e)))).

Lemma grown_refl e : grown e e.
Proof. done. Qed.
Lemma grown_trans e1 e2 e3 : grown e1 e2 -> grown e2 e3 -> grown e1 e3.
Proof. intros [H1 H2] [H3 H4]. split; [lia|]. intros i Hi. rewrite H4 by lia. by apply H2. Qed.
Lemma E_bind_eq {A B} (m : E A) (f : A -> E B) s : (m ≫= f) s = f (fst (m s)) (snd (m s)).
Proof. apply bind_eq. Qed.
Lemma climbs_ret {A} (x : A) : climbs (mret x).
Proof. intros w e H _. by split. Qed.
Lemma climbs_bind {A B} (m : E A) (f : A -> E B) : climbs m -> (forall x, climbs (f x)) -> climbs (m ≫= f).
Proof.
  intros Hm Hf w e H Hl. rewrite E_bind_eq. destruct (Hm w e H Hl) as [H1 H2]. destruct (m (w, e)) as [x [w' e']]. cbn [fst snd] in *.
  destruct (Hf x w' e' H1) as [H3 H4]; [by destruct H2; lia|]. split; [exact H3|]. by apply (grown_trans _ e').
Qed.
Lemma climbs_ev {A} (f : udev_event -> A) : climbs (ev f).
Proof. intros w e H _. by split. Qed.
Lemma climbs_sys {A} (c : state world A) : climbs (ev_sys c).
Proof. intros w e H _. unfold ev_sys. destruct (c w). by split. Qed.
Lemma climbs_update f : (forall e, ev_chain (f e) = ev_chain e) -> climbs (ev_update f).
Proof.
  intros Hf w e H _. unfold ev_update, modify. cbn [fst snd].
  assert (forall i, device_at (f e) i = device_at e i) as Hd by (intros i; unfold device_at; by rewrite Hf).
  assert (forall i, path_at (f e) i = path_at e i) as Hp by (intros i; unfold path_at; by rewrite Hd).
  destruct H as [H1 H2]. split; [split|split]; rewrite ?Hf; intros; rewrite ?Hp, ?Hd; auto.
Qed.
(** A computation on one device of the chain. *)
Lemma device_at_insert e i d j :
  device_at (e <| ev_chain := <[i := d]> (ev_chain e) |>) j =
    if decide (i = j /\ (i < length (ev_chain e))%nat) then d else device_at e j.
Proof.
  unfold device_at. cbn [ev_chain set_field]. destruct (decide (i = j)) as [<-|Hne].
  - destruct (Nat.lt_ge_cases i (length (ev_chain e))).
    + rewrite decide_True by done. by rewrite list_lookup_insert_eq by done.
    + rewrite decide_False by lia. by rewrite list_insert_ge by done.
  - rewrite decide_False by tauto. by rewrite list_lookup_insert_ne.
Qed.
Lemma climbs_on {A} i (m : D A) : keeps m -> climbs (on i m).
Proof.
  intros Hm w e [H1 H2] _. unfold on. specialize (Hm w (device_at e i)). destruct (m (w, device_at e i)) as [x [w' d]].
  cbn [fst snd] in *. destruct Hm as [Hp Hs].
  assert (forall j, path_at (e <| ev_chain := <[i := d]> (ev_chain e) |>) j = path_at e j /\
                    d_parent_set (device_at (e <| ev_chain := <[i := d]> (ev_chain e) |>) j) = d_parent_set (device_at e j)) as Hsame.
  { intros j. unfold path_at, syspath. rewrite device_at_insert. case_decide as Hd; [|done]. destruct Hd as [<- _]. by rewrite Hp. }
  split; split; cbn [ev_chain set_field]; rewrite ?length_insert.
  - intros j Hj. rewrite (proj1 (Hsame _)). by apply H1.
  - intros j Hj. rewrite !(proj1 (Hsame _)), (proj2 (Hsame _)). by apply H2.
  - done.
  - intros j _. apply Hsame.
Qed.

(** ** A new parent *)

Lemma set_syspath_path path w d : d_syspath (snd (snd (udev_device_set_syspath udev_device_get_properties_list_entry path (w, d)))) = Some path.
Proof.
  unfold udev_device_set_syspath. rewrite bind_update.
  match goal with |- context [snd (snd (?m (w, ?d')))] => assert (keeps m) as Hm end.
  { pose proof (along_set_property same_place _ _ (along_self same_place _)). along.
    apply along_update; [apply _|]. intros d'. by destruct (sysnum_loop _ _ _). }
  by destruct (Hm w (d <| d_syspath := Some path |>)) as [-> _].
Qed.
Lemma new_from_syspath_path p w d w' :
  dir p -> udev_device_new_from_syspath p w = (Some d, w') -> d_syspath d = Some p.
Proof.
  intros Hp. unfold udev_device_new_from_syspath. destruct (startswith p "/sys"); [|done].
  destruct (strrchr _ _) as [[a b]|]; [|done]. destruct (_ || _); [done|].
  pose proof (dir_length p Hp). rewrite strscpy_fits by done. destruct (dir_no_link p Hp w) as [w1 E].
  assert (util_resolve_sys_link p UTIL_PATH_SIZE w = (p, w1)) as Er.
  { unfold util_resolve_sys_link. rewrite bind_eq, E. done. }
  rewrite bind_eq, Er. cbn [fst snd]. rewrite bind_eq. match goal with |- context [fst (?m w1)] => destruct (m w1) as [[] w2] end; cbn [fst snd]; [|done].
  rewrite bind_eq. unfold run_device. pose proof (set_syspath_path p w2 udev_device_new) as Hs.
  destruct (udev_device_set_syspath _ _ _) as [x [w3 d3]]. cbn [fst snd] in *. by intros [= <- <-].
Qed.
Lemma new_from_parent_path fuel start subdir w d w' :
  dir (start ++ subdir) -> new_from_parent_loop fuel start subdir w = (Some d, w') ->
  exists a, d_syspath d = Some a /\ dir a /\ (length a < length (start ++ subdir))%nat.
Proof.
  revert subdir w. induction fuel as [|fuel IH]; intros subdir w Hd; cbn [new_from_parent_loop]; [done|].
  destruct (strrchr subdir "/") as [[a b]|] eqn:E; [|done]. destruct (_ <? 2)%nat; [done|].
  assert (subdir = a ++ "/"%char :: b) as ->.
  { revert a b E. clear. induction subdir as [|c s IH]; intros a b; cbn [strrchr]; [done|].
    destruct (strrchr s "/") as [[a' b']|] eqn:E'; [intros [= <- <-]; by rewrite (IH a' b')|].
    destruct (eqbP c "/") as [->|]; [by intros [= <- <-]|done]. }
  assert (dir (start ++ a)) as Ha by (apply (dir_parent (start ++ a) b); by rewrite <- app_assoc).
  rewrite bind_eq. destruct (udev_device_new_from_syspath (start ++ a) w) as [[d0|] w1] eqn:En; cbn [fst snd].
  - intros [= -> <-]. exists (start ++ a). split; [by apply (new_from_syspath_path (start ++ a) w d w1)|]. split; [done|].
    rewrite !length_app. simpl. lia.
  - intros H. destruct (IH a w1 Ha H) as (p & H1 & H2 & H3). exists p. split_and!; [done|done|]. rewrite !length_app in *. simpl. lia.
Qed.
Lemma device_parent_path d w p w' :
  dir (syspath d) -> device_new_from_parent d w = (Some p, w') -> dir (syspath p) /\ (length (syspath p) < length (syspath d))%nat.
Proof.
  intros Hd H. unfold device_new_from_parent in H. rewrite strscpy_fits in H by by apply dir_length.
  assert (dir (take 5 (syspath d) ++ drop 5 (syspath d))) as Hd' by by rewrite take_drop.
  destruct (new_from_parent_path _ _ _ _ _ _ Hd' H) as (a & H1 & H2 & H3). rewrite take_drop in H3. unfold syspath. by rewrite H1.
Qed.

(** [udev_device_get_parent]: the parent has a shorter path. *)
Lemma get_parent_climbs i w e :
  chain_ok e -> (i < length (ev_chain e))%nat ->
  let '(p, (w', e')) := udev_device_get_parent i (w, e) in
  chain_ok e' /\ grown e e' /\
  match p with
  | None => True
  | Some j => (j < length (ev_chain e'))%nat /\ (length (path_at e' j) < length (path_at e' i))%nat
  end.
Proof.
  intros Hok Hi. pose proof Hok as [H1 H2]. unfold udev_device_get_parent. rewrite E_bind_eq. cbn [ev gets fst snd compose].
  destruct (d_parent_set (device_at e i)) eqn:Es.
  { cbn [mret state_ret]. split_and!; [done|done|]. destruct (Nat.ltb_spec (S i) (length (ev_chain e))); [|done].
    split; [done|]. by apply H2. }
  assert (length (ev_chain e) = S i) as Hlen.
  { destruct (Nat.lt_ge_cases (S i) (length (ev_chain e))) as [H|H]; [|lia]. destruct (H2 i H) as [_ H3]. congruence. }
  rewrite E_bind_eq. set (d1 := (device_at e i) <| d_parent_set := true |>).
  change (on i (update (fun d => d <| d_parent_set := true |>)) (w, e)) with (tt, (w, e <| ev_chain := <[i := d1]> (ev_chain e) |>)).
  set (e1 := e <| ev_chain := <[i := d1]> (ev_chain e) |>). cbn [fst snd].
  assert (length (ev_chain e1) = S i) as Hlen1 by (cbn [ev_chain set_field e1]; by rewrite length_insert).
  assert (forall j, path_at e1 j = path_at e j) as Hp.
  { intros j. unfold path_at, syspath, e1. rewrite device_at_insert. case_decide as Hd; [|done]. by destruct Hd as [<- _]. }
  assert (chain_ok e1) as Hok1.
  { split; rewrite Hlen1; intros j Hj; rewrite !Hp; [apply H1; lia|]. split; [apply H2; lia|].
    unfold e1. rewrite device_at_insert. case_decide; [done|]. apply H2. lia. }
  assert (grown e e1) as Hg by (split; [lia|intros j _; apply Hp]).
  rewrite E_bind_eq. unfold ev_sys. cbn [fst snd].
  destruct (device_new_from_parent (device_at e i) w) as [[p|] w'] eqn:Ep; cbn [fst snd]; [|cbn [mret state_ret]; by split_and!].
  destruct (device_parent_path (device_at e i) w p w' (H1 i Hi) Ep) as [Hpd Hpl].
  rewrite E_bind_eq. cbn [ev_update modify fst snd mret state_ret].
  set (e2 := e1 <| ev_chain := ev_chain e1 ++ [p] |>).
  assert (length (ev_chain e2) = S (S i)) as Hlen2 by (cbn [ev_chain set_field e2]; rewrite length_app, Hlen1; simpl; lia).
  assert (forall j, (j < S i)%nat -> device_at e2 j = device_at e1 j) as Hold.
  { intros j Hj. unfold device_at, e2. cbn [ev_chain set_field]. by rewrite lookup_app_l by lia. }
  assert (device_at e2 (S i) = p) as Hnew.
  { unfold device_at, e2. cbn [ev_chain set_field]. rewrite lookup_app_r, Hlen1, Nat.sub_diag by lia. done. }
  assert (forall j, (j < S i)%nat -> path_at e2 j = path_at e j) as Hp2 by (intros j Hj; rewrite <- Hp; unfold path_at; by rewrite Hold).
  assert (path_at e2 (S i) = syspath p) as Hpn by (unfold path_at; by rewrite Hnew).
  split_and!; [split|split|lia|].
  - rewrite Hlen2. intros j Hj. destruct (decide (j = S i)) as [->|]; [by rewrite Hpn|]. rewrite Hp2 by lia. apply H1. lia.
  - rewrite Hlen2. intros j Hj. destruct (decide (j = i)) as [->|].
    + rewrite Hpn, Hp2, Hold by lia. split; [exact Hpl|]. unfold e1. rewrite device_at_insert, decide_True by lia. done.
    + rewrite !Hp2, Hold by lia. split; [apply H2; lia|]. apply Hok1. lia.
  - lia.
  - intros j Hj. apply Hp2. lia.
  - rewrite Hpn, Hp2 by lia. exact Hpl.
Qed.
Lemma climbs_get_parent : climbs (udev_device_get_parent 0).
Proof.
  intros w e H Hl. pose proof (get_parent_climbs 0 w e H Hl) as Hc. destruct (udev_device_get_parent 0 (w, e)) as [p [w' e']].
  by destruct Hc as (Hc1 & Hc2 & _).
Qed.

End chain.

(** * The keys of a rule *)

Create HintDb climbs.
#[export] Hint Resolve climbs_ret climbs_ev climbs_sys climbs_get_parent : climbs.
Ltac climbs_step :=
  match goal with
  | |- climbs (_ ≫= _) => apply climbs_bind; [|intros ?]
  | |- climbs (ev_update _) => apply climbs_update; intros ?; try done; repeat case_match; done
  | |- climbs (on _ _) => apply climbs_on; along
  | |- climbs (let '(_, _) := ?x in _) => destruct x
  | |- climbs (if ?b then _ else _) => destruct b
  | |- climbs (match ?x with _ => _ end) => destruct x
  | |- climbs _ => solve [auto with climbs nocore]
  end.
Ltac climbs := intros; cbv beta zeta; repeat climbs_step.

Section keys.
Context {P : Type} `{Hpool : StringPool P} `{SY : System} {PR : Programs} {dir : bytes -> Prop} {DI : Directories dir}.
Implicit Types (r : @rules P) (k : key_token).
Abbreviation climbs := (climbs (dir := dir)).
(** A builtin command may look up parents, but leaves the devices where they
    are. *)
Context (Hbuiltin : forall cmd argv, climbs (on_chain (builtin_cmd cmd argv))).

Lemma climbs_subst_value ty attr : climbs (subst_value ty attr).
Proof using DI. unfold subst_value. climbs. Qed.
#[local] Hint Resolve climbs_subst_value : climbs.
Lemma climbs_format_loop n from s : climbs (apply_format_loop n from s).
Proof using DI. revert from s. induction n as [|n IH]; intros from s; cbn [apply_format_loop]; climbs. Qed.
#[local] Hint Resolve climbs_format_loop : climbs.
Lemma climbs_apply_format src size : climbs (udev_event_apply_format src size).
Proof using DI. unfold udev_event_apply_format. climbs. Qed.
#[local] Hint Resolve climbs_apply_format : climbs.
Lemma climbs_format src size : climbs (format src size).
Proof using DI. unfold format. climbs. Qed.
#[local] Hint Resolve climbs_format : climbs.
Lemma climbs_spawn cmd envp n : climbs (udev_event_spawn cmd envp n).
Proof using DI. unfold udev_event_spawn. climbs. Qed.
#[local] Hint Resolve climbs_spawn : climbs.
Lemma climbs_match_attr r i k : climbs (match_attr r i k).
Proof using DI. unfold match_attr. climbs. Qed.
#[local] Hint Resolve climbs_match_attr : climbs.
Lemma climbs_parent_key r cur i k : climbs (match_parent_key r cur i k).
Proof using DI. unfold match_parent_key. climbs. Qed.
#[local] Hint Resolve climbs_parent_key : climbs.
Lemma climbs_parent_keys r cur i ks : climbs (match_parent_keys r cur i ks).
Proof using DI. induction ks as [|k ks IH]; cbn [match_parent_keys]; climbs. Qed.
Lemma climbs_for_each {A} (l : list A) (f : A -> E unit) : (forall x, climbs (f x)) -> climbs (for_each l f).
Proof using DI. intros Hf. induction l as [|x l IH]; cbn [for_each]; climbs. Qed.
Lemma climbs_import_program program : climbs (import_program_into_properties program).
Proof using DI. unfold import_program_into_properties. climbs. Qed.
Lemma climbs_import_parent filter : climbs (import_parent_into_properties filter).
Proof using DI. unfold import_parent_into_properties. climbs. apply climbs_for_each. climbs. Qed.
Lemma climbs_import import r k : (forall s, climbs (import s)) -> climbs (m_import import r k).
Proof using DI. unfold m_import. climbs. Qed.
#[local] Hint Resolve climbs_import_program climbs_import_parent : climbs.
Lemma climbs_builtin cmd command : climbs (udev_builtin_run cmd command).
Proof using Hbuiltin. apply Hbuiltin. Qed.
#[local] Hint Resolve climbs_builtin : climbs.
Lemma climbs_env r k : climbs (a_env r k).
Proof using DI. unfold a_env. climbs. Qed.
Lemma climbs_assign r esc k :
  climbs (a_tag r k) /\ climbs (a_name r esc k) /\ climbs (a_devlink r esc k) /\ climbs (a_attr r k) /\ climbs (a_owner r k) /\
  climbs (a_group r k) /\ climbs (a_mode r k) /\ climbs (a_owner_id k) /\ climbs (a_group_id k) /\ climbs (a_mode_id k) /\
  climbs (a_seclabel r k) /\ climbs (a_run r k) /\ climbs (a_inotify_watch k).
Proof using DI.
  unfold a_tag, a_name, a_devlink, a_attr, a_owner, a_group, a_mode, a_owner_id, a_group_id, a_mode_id, set_mode, a_seclabel, a_run,
    a_inotify_watch. split_and!; climbs.
Qed.
Lemma climbs_match r esc k :
  climbs (m_devlink r k) /\ climbs (m_env r k) /\ climbs (m_tag r k) /\ climbs (m_waitfor r k) /\ climbs (m_test r k) /\
  climbs (m_program r esc k) /\ climbs (m_import_builtin r k) /\ climbs (m_import_db r k) /\ climbs (m_import_cmdline r k).
Proof using DI Hbuiltin.
  unfold m_devlink, m_env, m_tag, m_waitfor, m_test, m_program, m_import_builtin, m_import_db, m_import_cmdline. split_and!; climbs.
Qed.

(** ** Termination *)

Lemma get_parent_step i w e :
  chain_ok (dir := dir) e -> (i < length (ev_chain e))%nat ->
  exists p w' e', udev_device_get_parent i (w, e) = (p, (w', e')) /\ chain_ok (dir := dir) e' /\ grown e e' /\
    forall j, p = Some j -> (j < length (ev_chain e'))%nat /\ (length (path_at e' j) < length (path_at e i))%nat.
Proof using DI.
  intros Hok Hi. pose proof (get_parent_climbs i w e Hok Hi) as H. destruct (udev_device_get_parent i (w, e)) as [p [w' e']].
  destruct H as (H1 & H2 & H3). exists p, w', e'. split; [done|split; [done|split; [done|]]]. intros j ->. destruct H3 as [H3 H4].
  by rewrite (proj2 H2 i Hi) in H4.
Qed.
(** The search through the parents has an answer when there is fuel for the
    length of the path. *)
Lemma match_parents_ends fuel r cur ks i w e :
  chain_ok (dir := dir) e -> (i < length (ev_chain e))%nat -> (length (path_at e i) < fuel)%nat ->
  exists b w' e', match_parents fuel r cur ks i (w, e) = (Some b, (w', e')) /\ chain_ok (dir := dir) e' /\ grown e e'.
Proof using DI.
  revert i w e. induction fuel as [|fuel IH]; intros i w e Hok Hi Hf; [lia|]. cbn [match_parents]. rewrite E_bind_eq.
  destruct (climbs_parent_keys r cur i ks w e Hok ltac:(lia)) as [H1 H2].
  destruct (match_parent_keys r cur i ks (w, e)) as [m [w1 e1]]. cbn [fst snd] in *.
  destruct m; [by exists true, w1, e1| |by exists false, w1, e1].
  assert (i < length (ev_chain e1))%nat as Hi1 by (destruct H2; lia).
  rewrite E_bind_eq. destruct (get_parent_step i w1 e1 H1 Hi1) as (p & w2 & e2 & -> & H3 & H4 & Hp). cbn [fst snd].
  rewrite E_bind_eq. set (e3 := e2 <| ev_dev_parent := p |>).
  change (ev_update (fun e => e <| ev_dev_parent := p |>) (w2, e2)) with (tt, (w2, e3)). cbn [fst snd].
  assert (chain_ok (dir := dir) e3) as H5 by exact H3.
  assert (grown e e3) as H6 by (apply (grown_trans e e1); [done|]; exact H4).
  destruct p as [j|]; [|by exists false, w2, e3]. destruct (Hp j eq_refl) as [Hj Hl].
  destruct (IH j w2 e3 H5 Hj) as (b & w4 & e4 & E4 & H7 & H8).
  { change (path_at e3 j) with (path_at e2 j). rewrite (proj2 H2 i Hi) in Hl. lia. }
  exists b, w4, e4. split; [exact E4|]. split; [done|]. by apply (grown_trans e e3).
Qed.

Lemma parent_with_ends fuel subsystem devtype i w e :
  chain_ok (dir := dir) e -> (i < length (ev_chain e))%nat -> (length (path_at e i) < fuel)%nat ->
  exists p w' e', parent_with_loop fuel subsystem devtype i (w, e) = (Some p, (w', e')).
Proof using DI.
  revert i w e. induction fuel as [|fuel IH]; intros i w e Hok Hi Hf; [lia|]. cbn [parent_with_loop]. rewrite E_bind_eq.
  destruct (get_parent_step i w e Hok Hi) as (p & w1 & e1 & -> & H1 & H2 & Hp). cbn [fst snd].
  destruct p as [j|]; [|by eexists _, _, _]. destruct (Hp j eq_refl) as [Hj Hlt].
  assert (forall A (m : E A) w1 e1, climbs m -> chain_ok (dir := dir) e1 -> (j < length (ev_chain e1))%nat -> (length (path_at e1 j) < fuel)%nat ->
    exists x w2 e2, m (w1, e1) = (x, (w2, e2)) /\ chain_ok (dir := dir) e2 /\ (j < length (ev_chain e2))%nat /\ (length (path_at e2 j) < fuel)%nat) as Hm.
  { intros A m w0 e0 Hc Hok0 Hj0 Hl0. destruct (Hc w0 e0 Hok0 ltac:(lia)) as [H3 H4]. destruct (m (w0, e0)) as [x [w2 e2]]. cbn [fst snd] in *.
    exists x, w2, e2. split; [done|]. split; [done|]. rewrite (proj2 H4 j Hj0). destruct H4 as [H4 _]. split; [lia|done]. }
  rewrite E_bind_eq. destruct (Hm _ (subsystem_of j) w1 e1 ltac:(unfold subsystem_of; climbs) H1 Hj ltac:(lia)) as (s & w2 & e2 & -> & H3 & H4 & H5).
  cbn [fst snd]. destruct (is_str subsystem s); [|by apply IH]. destruct devtype as [t|]; [|by eexists _, _, _].
  rewrite E_bind_eq. destruct (Hm _ (devtype_of j) w2 e2 ltac:(unfold devtype_of; climbs) H3 H4 H5) as (dt & w3 & e3 & -> & H6 & H7 & H8).
  cbn [fst snd]. destruct (is_str t dt); [by eexists _, _, _|by apply IH].
Qed.

(** With fuel for the longest path no key searches the parents for ever. *)
Lemma apply_key_ends r esc k rest w e :
  chain_ok (dir := dir) e -> (0 < length (ev_chain e))%nat ->
  exists o w' e', apply_key UTIL_PATH_SIZE r esc k rest (w, e) = (o, (w', e')) /\ o <> Diverges /\
    chain_ok (dir := dir) e' /\ (0 < length (ev_chain e'))%nat.
Proof using DI Hbuiltin.
  intros Hok Hl.
  assert (forall A (m : E A) (f : A -> outcome), climbs m -> (forall x, f x <> Diverges) ->
    exists o w' e', (x ← m; mret (f x)) (w, e) = (o, (w', e')) /\ o <> Diverges /\ chain_ok (dir := dir) e' /\ (0 < length (ev_chain e'))%nat) as Hm.
  { intros A m f Hc Hf. destruct (Hc w e Hok Hl) as [H1 H2]. rewrite E_bind_eq. destruct (m (w, e)) as [x [w' e']]. exists (f x), w', e'.
    split; [done|]. split; [done|]. split; [done|]. destruct H2. cbn [snd] in *. lia. }
  assert (forall m : E bool, climbs m ->
    exists o w' e', (b ← m; mret (test esc b)) (w, e) = (o, (w', e')) /\ o <> Diverges /\ chain_ok (dir := dir) e' /\ (0 < length (ev_chain e'))%nat) as Hcheck.
  { intros m Hc. apply Hm; [done|]. by intros []. }
  assert (forall m : E (option bytes), climbs m ->
    exists o w' e', (b ← (v ← m; mret (match_key r k v)); mret (test esc b)) (w, e) = (o, (w', e')) /\ o <> Diverges /\
      chain_ok (dir := dir) e' /\ (0 < length (ev_chain e'))%nat) as Hstr.
  { intros m Hc. apply Hcheck. apply climbs_bind; [done|]. intros x. apply climbs_ret. }
  assert (forall m : E unit, climbs m ->
    exists o w' e', (m ;; mret (Next esc)) (w, e) = (o, (w', e')) /\ o <> Diverges /\ chain_ok (dir := dir) e' /\ (0 < length (ev_chain e'))%nat) as Hact.
  { intros m Hc. by apply (Hm unit m (fun _ => Next esc)). }
  assert (forall o, o <> Diverges -> exists o' w' e', (mret o : E outcome) (w, e) = (o', (w', e')) /\ o' <> Diverges /\
    chain_ok (dir := dir) e' /\ (0 < length (ev_chain e'))%nat) as Hret.
  { intros o Ho. by exists o, w, e. }
  assert (exists o w' e',
    (ev_update (fun e => e <| ev_dev_parent := Some 0%nat |>) ;;
     b ← match_parents UTIL_PATH_SIZE r k (parent_keys rest) 0;
     mret (match b with None => Diverges | Some true => NextParents | Some false => NoMatch end)) (w, e) = (o, (w', e')) /\ o <> Diverges /\
    chain_ok (dir := dir) e' /\ (0 < length (ev_chain e'))%nat) as Hpar.
  { rewrite E_bind_eq. set (e1 := e <| ev_dev_parent := Some 0%nat |>).
    change (ev_update (fun e => e <| ev_dev_parent := Some 0%nat |>) (w, e)) with (tt, (w, e1)). cbn [fst snd].
    assert (chain_ok (dir := dir) e1) as Hok1 by exact Hok.
    destruct (match_parents_ends UTIL_PATH_SIZE r k (parent_keys rest) 0 w e1 Hok1 Hl) as (b & w' & e' & E & H1 & H2).
    { apply (dir_length (dir := dir)). by apply Hok. }
    rewrite E_bind_eq, E. cbn [fst snd]. eexists _, w', e'. split; [reflexivity|]. split; [by destruct b|]. split; [done|].
    destruct H2 as [H2 _]. change (ev_chain e1) with (ev_chain e) in H2. lia. }
  destruct (climbs_assign r esc k) as (A1 & A2 & A3 & A4 & A5 & A6 & A7 & A8 & A9 & A10 & A11 & A12 & A13).
  destruct (climbs_match r esc k) as (M1 & M2 & M3 & M4 & M5 & M6 & M7 & M8 & M9).
  pose proof (climbs_env r k) as A14. pose proof (climbs_match_attr r 0 k) as M10.
  assert (climbs (m_import (fun s => on 0 (import_file_into_properties s)) r k)) as M11 by (apply climbs_import; climbs).
  assert (climbs (m_import import_program_into_properties r k)) as M12 by (apply climbs_import; climbs).
  assert (climbs (m_import import_parent_into_properties r k)) as M13 by (apply climbs_import; climbs).
  unfold apply_key. destruct (type k);
    first [by apply Hret | exact Hpar | apply Hcheck; assumption | apply Hact; assumption | apply Hstr; climbs | apply Hact; climbs
          | apply Hret; by destruct (data k =? 0)].
Qed.

Lemma apply_keys_end r skip ks esc w e :
  chain_ok (dir := dir) e -> (0 < length (ev_chain e))%nat ->
  exists next w' e', apply_keys UTIL_PATH_SIZE r skip ks esc (w, e) = (Some next, (w', e')) /\
    chain_ok (dir := dir) e' /\ (0 < length (ev_chain e'))%nat.
Proof using DI Hbuiltin.
  revert skip esc w e. induction ks as [|k ks IH]; intros skip esc w e Hok Hl; cbn [apply_keys]; [by exists None, w, e|].
  destruct skip as [|skip]; [|by apply IH].
  destruct (apply_key_ends r esc k (KeyToken <$> k :: ks) w e Hok Hl) as (o & w1 & e1 & E & Ho & H1 & H2).
  rewrite E_bind_eq, E. cbn [fst snd]. destruct o; try done; try (by apply IH).
  - by eexists _, w1, e1.
  - by exists None, w1, e1.
Qed.
Lemma apply_rules_end r can_name bs goto w e :
  chain_ok (dir := dir) e -> (0 < length (ev_chain e))%nat ->
  fst (apply_rules UTIL_PATH_SIZE r can_name bs goto (w, e)) = Finished 0.
Proof using DI Hbuiltin.
  revert goto w e. induction bs as [|[rt ks] bs IH]; intros goto w e Hok Hl; cbn [apply_rules]; [done|].
  destruct (match goto with Some _ => _ | None => _ end); [by apply IH|]. destruct (_ && _); [by apply IH|].
  destruct (apply_keys_end r 0 ks ESCAPE_UNSET w e Hok Hl) as (next & w1 & e1 & E & H1 & H2).
  rewrite E_bind_eq, E. cbn [fst snd]. by apply IH.
Qed.

#[local] Abbreviation load := (rules_load getpwuid getpwnam getgrgid getgrnam).
(** The walk ends with every builtin command that moves no device; BuiltinEnd
    proves that of the ones there are. *)
Lemma apply_ends_with st files w e :
  Forall (fun f => cstr f.1) files -> fits32 (load st files) ->
  chain_ok (dir := dir) e -> (0 < length (ev_chain e))%nat ->
  fst (udev_rules_apply_to_event UTIL_PATH_SIZE (u_rules (load st files)) (w, e)) = Finished 0.
Proof using DI Hbuiltin.
  intros Hf Hfit Hok Hl.
  destruct (rules_load_state getpwuid getpwnam getgrgid getgrnam st files Hf) as [_ (toks & Ht & Hb & Hg)]; [done|].
  rewrite (apply_blocks (u_rules (load st files)) UTIL_PATH_SIZE toks (w, e) Ht Hb Hg). unfold apply_to_event. rewrite E_bind_eq.
  assert (climbs (on 0 can_be_named)) as Hc by climbs. destruct (Hc w e Hok Hl) as [H1 H2].
  destruct (on 0 can_be_named (w, e)) as [can [w1 e1]]. cbn [fst snd] in *. apply apply_rules_end; [done|]. destruct H2. lia.
Qed.
End keys.

(** A rule about a parent, and a device two steps below it. *)
Definition parent_file : bytes :=
  "KERNELS==" ++ [dquote] ++ "hub" ++ [dquote] ++ ", TAG+=" ++ [dquote] ++ "t" ++ [dquote; newline].
Definition parent_files : list (bytes * option bytes) := [(("a.rules" : bytes), Some parent_file)].
Definition hub_device : udev_device := walk_device "hub/port/sda".
Definition hub_world : gmap bytes bytes := {[ ("/sys/devices/hub/uevent" : bytes) := []; ("/sys/devices/hub/port/uevent" : bytes) := [] ]}.
#[export] Instance short_paths : @Directories file_system (fun p => (length p < UTIL_PATH_SIZE)%nat).
Proof. split; [by intros p _ w; exists w|intros a b; rewrite length_app; simpl; lia|done]. Qed.
Example hub_tag :
  let r := u_rules (rules_load (fun _ => false) (fun _ => None) (fun _ => false) (fun _ => None) walk_start parent_files) in
  let '(res, (_, e)) := udev_rules_apply_to_event (SY := file_system) (PR := no_programs) 30 r (hub_world, event_of hub_device) in
  (res, syspath <$> ev_chain e, e_name <$> d_tags_list (device_at e 0)) =
    (Finished 0, ["/sys/devices/hub/port/sda" : bytes; "/sys/devices/hub/port" : bytes; "/sys/devices/hub" : bytes], ["t" : bytes]).
Proof. vm_compute. reflexivity. Qed.
End Parents.
