(* ===== verification/BuiltinNet.v ===== *)
(** src/core/builtin/udev-builtin-hwdb.c and udev-builtin-net_id.c: the
    properties of the hardware database, and the names of network interfaces.
    The result is [None] where the program follows NULL or leaves an array. *)

From Stdlib Require Import ZArith Lia Ascii.
From stdpp Require Import prelude gmap strings sorting.
From S2P Require Import Prelude Utils Strings Encode UdevList System Device DeviceNew Node Event HwdbLookup EventRun BuiltinPath.
Import Mem Entries Strxcpyx Device DeviceNew Node Event Scan BuiltinPath.

(** * udev-builtin-hwdb.c *)

Module BuiltinHwdb.
#[local] Abbreviation tt := Datatypes.tt.
#[local] Notation "x ←! m ; f" := (obind m (fun x => f)) (at level 20, m at level 100, f at level 200, right associativity).

(** [%04X] and the like: [width] digits at least. *)
Definition upper (c : byte) : byte := if (97 <=? code c) && (code c <=? 122) then chr (code c - 32) else c.
Definition hex (width : nat) (z : Z) : bytes := let s := fmt 16 z in replicate (width - length s) "0"%char ++ s.
Definition HEX (width : nat) (z : Z) : bytes := upper <$> hex width z.

Section hwdb.
(** [hwdb] is the database that is open, if there is one. *)
Context `{SY : System} {PR : Programs} {IF : Interfaces} (hwdb : option HwdbLookup.udev_hwdb).
#[local] Instance glob : Glob := Event.fnmatch.

(** What the database has for a key, or an error. *)
Definition hwdb_entries (prefix : option bytes) (modalias : bytes) (filter : option bytes) : option (Z + list entry) :=
  match hwdb with
  | None => Some (inl (- ENOENT))
  | Some db =>
      db ← HwdbLookup.udev_hwdb_get_properties_list_entry db (default [] prefix ++ modalias);
      let keep e := match filter with Some f => Event.fnmatch f (e_name e) | None => true end in
      Some (inr (List.filter keep (HwdbLookup.properties_list db)))
  end.
Fixpoint add_entries (list : list entry) : E unit :=
  match list with [] => mret tt | e :: list' => udev_builtin_add_property (e_name e) (e_value e) ;; add_entries list' end.
Definition count (r : Z + list entry) : Z := match r with inl err => err | inr l => Z.of_nat (length l) end.
Definition add_found (r : Z + list entry) : E Z :=
  match r with inl _ => mret tt | inr l => add_entries l end ;; mret (count r).
Definition udev_builtin_hwdb_lookup (prefix : option bytes) (modalias : bytes) (filter : option bytes) : E (option Z) :=
  match hwdb_entries prefix modalias filter with None => mret None | Some r => n ← add_found r; mret (Some n) end.

Definition modalias_usb (i : nat) : E (option bytes) :=
  v ← sysattr_of i "idVendor";
  match v with
  | None => mret None
  | Some v =>
      p ← sysattr_of i "idProduct";
      match p with
      | None => mret None
      | Some p =>
          let vn := s32 (fst (strtol_prefix 16 v)) in
          let pn := s32 (fst (strtol_prefix 16 p)) in
          mret (if vn <=? 0 then None else if pn <=? 0 then None
                else Some (take 15 ("usb:v" ++ HEX 4 vn ++ "p"%char :: HEX 4 pn ++ ["*"%char])))
      end
  end.
(** What is found for the first device that has something; the properties are
    added to the device of the event afterwards. *)
Fixpoint search_loop (fuel : nat) (prefix subsystem filter : option bytes) (d : option nat) (r : Z + list entry) :
    E (option (Z + list entry)) :=
  match d with
  | None => mret (Some r)
  | Some i =>
      match fuel with
      | O => mret None
      | S fuel' =>
          dsubsys ← subsystem_of i;
          let next r := p ← udev_device_get_parent i; search_loop fuel' prefix subsystem filter p r in
          match dsubsys with
          | None => next r
          | Some s =>
              if match subsystem with Some t => negb (bool_decide (s = t)) | None => false end then next r
              else
                modalias ← on i (udev_device_get_property_value "MODALIAS");
                last ← (if bool_decide (s = ("usb" : bytes)) then t ← devtype_of i; mret (is_str "usb_device" t) else mret false);
                modalias ← (match modalias with None => if last : bool then modalias_usb i else mret None | Some _ => mret modalias end);
                match modalias with
                | None => if last : bool then mret (Some r) else next r
                | Some m =>
                    match hwdb_entries prefix m filter with
                    | None => mret None
                    | Some r => if (0 <? count r) || last then mret (Some r) else next r
                    end
                end
          end
      end
  end.

(** What getopt makes of the arguments. *)
Record hwdb_args := mk_args { a_filter : option bytes; a_device : option bytes; a_subsystem : option bytes; a_prefix : option bytes; a_key : option bytes }.
(** Another device, with its own parents. *)
Definition on_other {A} (d : udev_device) (m : E A) : E A := fun '(w, e) => let '(x, (w, _)) := m (w, event_of d) in (x, (w, e)).
Definition udev_builtin_hwdb_search (fuel : nat) (srcdev : option udev_device) (subsystem prefix filter : option bytes) : E (option Z) :=
  let search := search_loop fuel prefix subsystem filter (Some O) (inl 0) in
  r ←! (match srcdev with None => search | Some d => on_other d search end);
  n ← add_found r;
  mret (Some n).
Definition builtin_hwdb (fuel : nat) (a : hwdb_args) : E (option bool) :=
  match hwdb with
  | None => mret (Some false)
  | Some _ =>
      match a_key a with
      | Some key => n ←! udev_builtin_hwdb_lookup (a_prefix a) key (a_filter a); mret (Some (0 <? n))
      | None =>
          match a_device a with
          | None => n ←! udev_builtin_hwdb_search fuel None (a_subsystem a) (a_prefix a) (a_filter a); mret (Some (0 <? n))
          | Some id =>
              srcdev ← ev_sys (udev_device_new_from_device_id id);
              match srcdev with
              | None => mret (Some false)
              | Some d => n ←! udev_builtin_hwdb_search fuel (Some d) (a_subsystem a) (a_prefix a) (a_filter a); mret (Some (0 <? n))
              end
          end
      end
  end.
End hwdb.
End BuiltinHwdb.
Import BuiltinHwdb.

(** * udev-builtin-net_id.c *)

Module BuiltinNet.
#[local] Abbreviation tt := Datatypes.tt.
#[local] Notation "x ←! m ; f" := (obind m (fun x => f)) (at level 20, m at level 100, f at level 200, right associativity).

Definition IFNAMSIZ : nat := EventRun.IFNAMSIZ.
Inductive netname_type := NET_UNDEF | NET_PCI | NET_USB | NET_BCMA | NET_VIRTIO | NET_CCWGROUP.
#[export] Instance netname_type_dec : EqDecision netname_type.
Proof. solve_decision. Defined.
(** The arrays hold C strings.  They stand one behind the other in memory. *)
Record netnames := mk_names {
  n_type : netname_type;
  mac : list Z;
  mac_valid : bool;
  pcidev : option nat;
  pci_slot : bytes;
  pci_path : bytes;
  pci_onboard : bytes;
  pci_onboard_label : option bytes;
  usb_ports : bytes;
  bcma_core : bytes;
  ccw_group : bytes
}.
#[export] Instance netnames_eta : Eta netnames := fun x => mk_names (n_type x) (mac x) (mac_valid x) (pcidev x) (pci_slot x)
  (pci_path x) (pci_onboard x) (pci_onboard_label x) (usb_ports x) (bcma_core x) (ccw_group x).
Definition names_new : netnames := mk_names NET_UNDEF [0; 0; 0; 0; 0; 0] false None [] [] [] None [] [] [].

(** [snprintf] into an array of [size]. *)
Definition snprintf (size : nat) (s : bytes) : bytes := take (size - 1) s.
Definition fmt_d (z : Z) : bytes := fmt_i (s32 z).

(** [P0p0s0f0d0] with the parts that are not zero. *)
Definition slot_name (domain : Z) (place : bytes) (func dev_port : Z) (multi : bool) : dst :=
  let d := dst_new IFNAMSIZ in
  let d := if 0 <? domain then strpcpyf d ("P"%char :: fmt_d domain) else d in
  let d := strpcpyf d place in
  let d := if (0 <? func) || multi then strpcpyf d ("f"%char :: fmt_d func) else d in
  if 0 <? dev_port then strpcpyf d ("d"%char :: fmt_d dev_port) else d.
(** A name that does not fit ends the array behind its own. *)
Definition set_path (d : dst) (n : netnames) : netnames :=
  if (left_ d =? 0)%nat then n <| pci_path := [] |> <| pci_onboard := [] |> else n <| pci_path := out d |>.
Definition set_slot (d : dst) (n : netnames) : netnames :=
  if (left_ d =? 0)%nat then n <| pci_slot := until_nul (out d) |> <| pci_path := [] |> else n <| pci_slot := out d |>.

(** The port numbers, the configuration and the interface of a usb device. *)
Definition split_usb (name : bytes) : option (bytes * bytes * bytes) :=
  match split_chr name "-" with
  | (_, Some s) =>
      match split_chr s ":" with
      | (ports, Some s) => match split_chr s "." with (config, Some interf) => Some (ports, config, interf) | (_, None) => None end
      | (_, None) => None
      end
  | (_, None) => None
  end.
Definition dots_to_u (ports : bytes) : bytes := (fun c => if c ==c "." then "u"%char else c) <$> ports.
(** The text that is stored, and what is left as the last call sees it: every
    call is given the size of the whole array. *)
Definition usb_name (ports config interf : bytes) : bytes * nat :=
  let d := strpcpyl (dst_new IFNAMSIZ) ["u" : bytes; dots_to_u ports] in
  let '(s, l) := (out d, left_ d) in
  let '(s, l) := if bool_decide (config = ("1" : bytes)) then (s, l)
                 else let d := strpcpyl (dst_new IFNAMSIZ) ["c" : bytes; config] in (s ++ out d, left_ d) in
  if bool_decide (interf = ("0" : bytes)) then (s, l)
  else let d := strpcpyl (dst_new IFNAMSIZ) ["i" : bytes; interf] in (s ++ out d, left_ d).

(** [%x:%x:%x.%u] and six times [%x]. *)
Definition scan_pci (s : bytes) : option (Z * Z * Z * Z) :=
  '(domain, s) ← scan_x s; s ← scan_c ":" s; '(bus, s) ← scan_x s; s ← scan_c ":" s;
  '(slot, s) ← scan_x s; s ← scan_c "." s; '(func, _) ← scan_u s; Some (domain, bus, slot, func).
Fixpoint scan_more (n : nat) (s : bytes) : option (list Z) :=
  match n with
  | O => Some []
  | S n' => s ← scan_c ":" s; '(a, s) ← scan_x s; (fun l => a :: l) <$> scan_more n' s
  end.
Definition scan_mac (s : bytes) : option (list Z) := '(a, s) ← scan_x s; (fun l => a :: l) <$> scan_more 5 s.

Section net.
Context `{SY : System} {PR : Programs} {IF : Interfaces} (hwdb : option HwdbLookup.udev_hwdb) (fuel : nat).

Definition dev_pci_onboard (pci : nat) (n : netnames) : E netnames :=
  index ← sysattr_of pci "acpi_index";
  index ← (match index with None => sysattr_of pci "index" | Some _ => mret index end);
  match index with
  | None => mret n
  | Some index =>
      let idx := s32 (fst (strtoul_prefix 0 index)) in
      if idx <=? 0 then mret n
      else
        let n := n <| pci_onboard := snprintf IFNAMSIZ ("o"%char :: fmt_d idx) |> in
        label ← sysattr_of pci "label";
        mret (n <| pci_onboard_label := label |>)
  end.
Definition is_pci_multifunction (pci : nat) : E bool :=
  e ← ev (fun e => e);
  f ← ev_sys (sys_read_file (syspath (device_at e pci) ++ "/config"));
  mret (match f with
        | Some config => if (length config <? 64)%nat then false else Z.testbit (code (nth 14 config nul)) 7
        | None => false
        end).
(** The first line of a file. *)
Definition LINE_MAX : nat := 2048.
Definition truncate_nl (s : bytes) : bytes := fst (split_chr (fst (split_chr s newline)) "013").
Definition read_one_line_file (fn : bytes) : state world (option bytes) :=
  f ← sys_read_file fn;
  mret (match f with
        | None => None
        | Some f => Some (truncate_nl (match fgets LINE_MAX f with Some (t, _) => until_nul t | None => [] end))
        end).
(** The number of the slot whose address the device has; 0 for none. *)
Fixpoint slots_loop (slots sysname : bytes) (names : list bytes) : state world Z :=
  match names with
  | [] => mret 0
  | name :: names' =>
      if nth 0 name nul ==c "." then slots_loop slots sysname names'
      else
        let '(v, rest) := strtol 10 name in
        let i := s32 v in
        if negb (bool_decide (rest = [])) then slots_loop slots sysname names'
        else if i <? 1 then slots_loop slots sysname names'
        else
          address ← read_one_line_file (snprintf 256 (slots ++ "/"%char :: name ++ "/address"));
          match address with
          | Some a => if bool_decide (is_Some (startswith sysname a)) then mret i else slots_loop slots sysname names'
          | None => slots_loop slots sysname names'
          end
  end.
Definition dev_pci_slot (pci : nat) (n : netnames) : E netnames :=
  sysname ← sysname_of pci;
  match scan_pci sysname with
  | None => mret n
  | Some (domain, bus, slot, func) =>
      attr ← sysattr_of 0 "dev_port";
      let dev_port := match attr with Some a => u32 (fst (strtol 10 a)) | None => 0 end in
      multi ← (if 0 <? func then mret true else is_pci_multifunction pci);
      let n := set_path (slot_name domain ("p"%char :: fmt_d bus ++ "s"%char :: fmt_d slot) func dev_port multi) n in
      bus_dev ← ev_sys (udev_device_new_from_subsystem_sysname "subsystem" "pci");
      match bus_dev with
      | None => mret n
      | Some b =>
          let slots := snprintf 256 (syspath b ++ "/slots") in
          dir ← ev_sys (sys_readdir slots);
          match dir with
          | None => mret n
          | Some names =>
              hotplug_slot ← ev_sys (slots_loop slots sysname names);
              if 0 <? hotplug_slot then
                multi ← (if 0 <? func then mret true else is_pci_multifunction pci);
                mret (set_slot (slot_name domain ("s"%char :: fmt_d hotplug_slot) func dev_port multi) n)
              else mret n
          end
      end
  end.
(** [None] in the pair is an error. *)
Definition names_pci (n : netnames) : E (option (bool * netnames)) :=
  parent ← udev_device_get_parent 0;
  match parent with
  | None => mret (Some (false, n))
  | Some p =>
      s ← subsystem_of p;
      r ←! (if is_str "pci" s then mret (Some (Some p, n <| n_type := NET_PCI |>))
            else q ←! udev_device_get_parent_with_subsystem_devtype fuel 0 "pci" None; mret (Some (q, n)));
      match r with
      | (None, n) => mret (Some (false, n))
      | (Some pci, n) =>
          n ← dev_pci_onboard pci (n <| pcidev := Some pci |>);
          n ← dev_pci_slot pci n;
          mret (Some (true, n))
      end
  end.
Definition names_usb (n : netnames) : E (option (bool * netnames)) :=
  usbdev ←! udev_device_get_parent_with_subsystem_devtype fuel 0 "usb" (Some ("usb_interface" : bytes));
  match usbdev with
  | None => mret (Some (false, n))
  | Some i =>
      name ← sysname_of i;
      mret (Some (match split_usb (fst (strscpy 256 name)) with
                  | None => (false, n)
                  | Some (ports, config, interf) =>
                      let '(s, l) := usb_name ports config interf in
                      let n := n <| usb_ports := s |> <| bcma_core := drop IFNAMSIZ s |> in
                      if (l =? 0)%nat then (false, n) else (true, n <| n_type := NET_USB |>)
                  end))
  end.
Definition names_bcma (n : netnames) : E (option (bool * netnames)) :=
  bcmadev ←! udev_device_get_parent_with_subsystem_devtype fuel 0 "bcma" None;
  match bcmadev with
  | None => mret (Some (false, n))
  | Some i =>
      name ← sysname_of i;
      mret (Some (match scan_bcma name with
                  | None => (false, n)
                  | Some core =>
                      let n := if 0 <? core then n <| bcma_core := snprintf IFNAMSIZ ("b"%char :: fmt_u32 core) |> else n in
                      (true, n <| n_type := NET_BCMA |>)
                  end))
  end.
Definition names_ccw (n : netnames) : E (bool * netnames) :=
  cdev ← udev_device_get_parent 0;
  match cdev with
  | None => mret (false, n)
  | Some c =>
      s ← subsystem_of c;
      if is_str "ccwgroup" s then
        bus_id ← sysname_of c;
        if (length bus_id <? 8)%nat || (9 <? length bus_id)%nat then mret (false, n)
        else mret (true, n <| ccw_group := "ccw" ++ bus_id |> <| n_type := NET_CCWGROUP |>)
      else mret (false, n)
  end.
Definition names_mac (n : netnames) : E netnames :=
  s ← sysattr_of 0 "addr_assign_type";
  match s with
  | None => mret n
  | Some s =>
      if negb (u32 (fst (strtoul_prefix 0 s)) =? 0) then mret n
      else
        a ← sysattr_of 0 "address";
        mret (match a ← a; scan_mac a with
              | None => n
              | Some l => if u32 (foldr Z.add 0 l) =? 0 then n else n <| mac := u8 <$> l |> <| mac_valid := true |>
              end)
  end.
Definition ieee_oui (n : netnames) : E (option unit) :=
  if negb (mac_valid n) then mret (Some tt)
  else if bool_decide (take 3 (mac n) = [0; 0; 0]) then mret (Some tt)
  else
    _ ←! udev_builtin_hwdb_lookup hwdb None ("OUI:" ++ mjoin (HEX 2 <$> mac n)) None;
    mret (Some tt).

(** A name is only given when it is short enough for an interface. *)
Definition add_name (key name : bytes) : E unit :=
  if (length name <? IFNAMSIZ)%nat then udev_builtin_add_property key (Some name) ;; mret tt else mret tt.
Definition add_part (key prefix part rest : bytes) : E unit :=
  if bool_decide (part = []) then mret tt else add_name key (prefix ++ part ++ rest).
Definition ARPHRD_ETHER : Z := 1.
Definition ARPHRD_SLIP : Z := 256.
Definition net_prefix (type : Z) (devtype : option bytes) : bytes :=
  if is_str "wlan" devtype then "wl" else if is_str "wwan" devtype then "ww"
  else if type =? ARPHRD_SLIP then "sl" else "en".
(** The names of a device on PCI, directly or through another bus. *)
Definition path_names (prefix : bytes) (n : netnames) : E (option unit) :=
  r ←! names_pci n;
  let '(ok, n) := r in
  if negb ok then mret (Some tt)
  else if bool_decide (n_type n = NET_PCI) then
    add_part "ID_NET_NAME_ONBOARD" prefix (pci_onboard n) [] ;;
    match pci_onboard_label n with Some l => add_name "ID_NET_LABEL_ONBOARD" (prefix ++ l) | None => mret tt end ;;
    add_part "ID_NET_NAME_PATH" prefix (pci_path n) [] ;;
    add_part "ID_NET_NAME_SLOT" prefix (pci_slot n) [] ;;
    mret (Some tt)
  else
    r ←! names_usb n;
    let '(ok, n) := r in
    if ok && bool_decide (n_type n = NET_USB) then
      add_part "ID_NET_NAME_PATH" prefix (pci_path n) (usb_ports n) ;;
      add_part "ID_NET_NAME_SLOT" prefix (pci_slot n) (usb_ports n) ;;
      mret (Some tt)
    else
      r ←! names_bcma n;
      let '(ok, n) := r in
      if ok && bool_decide (n_type n = NET_BCMA) then
        add_part "ID_NET_NAME_PATH" prefix (pci_path n) (bcma_core n) ;;
        add_part "ID_NET_NAME_SLOT" prefix (pci_slot n) (bcma_core n) ;;
        mret (Some tt)
      else mret (Some tt).
Definition mac_names (prefix : bytes) (n : netnames) : E (option unit) :=
  if mac_valid n then
    udev_builtin_add_property "ID_NET_NAME_MAC" (Some (snprintf IFNAMSIZ (prefix ++ "x"%char :: mjoin (hex 2 <$> mac n)))) ;;
    ieee_oui n
  else mret (Some tt).
(** Whether it succeeds. *)
Definition builtin_net_id : E (option bool) :=
  s ← sysattr_of 0 "type";
  match s with
  | None => mret (Some false)
  | Some s =>
      let type := u32 (fst (strtoul_prefix 0 s)) in
      if negb (type =? ARPHRD_ETHER) && negb (type =? ARPHRD_SLIP) then mret (Some true)
      else
        ifindex ← sysattr_of 0 "ifindex";
        match ifindex with
        | None => mret (Some false)
        | Some s =>
            iflink ← sysattr_of 0 "iflink";
            match iflink with
            | None => mret (Some false)
            | Some p =>
                if negb (bool_decide (s = p)) then mret (Some true)
                else
                  devtype ← devtype_of 0;
                  let prefix := net_prefix type devtype in
                  n ← names_mac names_new;
                  _ ←! mac_names prefix n;
                  '(ok, n) ← names_ccw n;
                  if ok && bool_decide (n_type n = NET_CCWGROUP) then
                    add_name "ID_NET_NAME_PATH" (prefix ++ ccw_group n) ;; mret (Some true)
                  else _ ←! path_names prefix n; mret (Some true)
            end
        end
  end.
End net.
End BuiltinNet.
