(* ===== verification/BuiltinUsb.v ===== *)
(** src/core/builtin/udev-builtin-usb_id.c: the properties of a usb device.
    The result is [None] where the program uses an array that is not
    terminated. *)

From Stdlib Require Import ZArith Lia Ascii.
From stdpp Require Import prelude gmap strings sorting.
From S2P Require Import Prelude Utils Strings Encode UdevList System Device Node Event BuiltinPath BuiltinNet.
Import Mem Entries Strxcpyx Encode Device Node Event Scan BuiltinPath BuiltinHwdb.

Module BuiltinUsb.
#[local] Abbreviation tt := Datatypes.tt.
#[local] Notation "x ←! m ; f" := (obind m (fun x => f)) (at level 20, m at level 100, f at level 200, right associativity).

(** * Types *)

Definition set_usb_iftype (if_class_num : Z) : bytes :=
  if if_class_num =? 1 then "audio" else if if_class_num =? 3 then "hid" else if if_class_num =? 6 then "media"
  else if if_class_num =? 7 then "printer" else if if_class_num =? 8 then "storage" else if if_class_num =? 9 then "hub"
  else if if_class_num =? 0x0e then "video" else "generic".
(** The number of an attribute, when it has one. *)
Definition type_number (from : bytes) : Z * bool :=
  let '(v, eptr) := strtoul_prefix 0 from in (s32 v, negb (bool_decide (eptr = from))).
Definition set_usb_mass_storage_ifsubtype (from : bytes) : bytes * Z :=
  let '(type_num, ok) := type_number from in
  let type : bytes :=
    if negb ok then "generic"
    else if type_num =? 1 then "rbc" else if type_num =? 2 then "atapi" else if type_num =? 3 then "tape"
    else if type_num =? 4 then "floppy" else if type_num =? 6 then "scsi" else "generic" in
  (type, type_num).
Definition set_scsi_type (from : bytes) : bytes :=
  let '(type_num, ok) := type_number from in
  if negb ok then "generic"
  else if (type_num =? 0) || (type_num =? 0xe) then "disk" else if type_num =? 1 then "tape"
  else if (type_num =? 4) || (type_num =? 7) || (type_num =? 0xf) then "optical" else if type_num =? 5 then "cd" else "generic".

(** * The interfaces *)

Definition USB_DT_INTERFACE : Z := 0x04.
Definition DESC_SIZE : nat := Z.to_nat 65553.
Definition ifs_record (class subclass protocol : Z) : bytes := ":"%char :: hex 2 class ++ hex 2 subclass ++ hex 2 protocol.

Section packed.
(** What stands in the buffer behind the bytes that were read. *)
Context (buf_rest : nat -> byte) (buf : bytes) (len : nat).
Definition buf_at (i : nat) : Z := code (if (i <? length buf)%nat then nth i buf nul else buf_rest i).
(** [fuel] is the number of bytes. *)
Fixpoint packed_loop (fuel pos : nat) (ifs_str : bytes) : bytes :=
  match fuel with
  | O => ifs_str
  | S fuel' =>
      if (pos <? length buf)%nat && (length ifs_str + 7 <? len - 2)%nat then
        let bLength := buf_at pos in
        if bLength <? 3 then ifs_str
        else
          let next := packed_loop fuel' (pos + Z.to_nat bLength)%nat in
          if negb (buf_at (pos + 1) =? USB_DT_INTERFACE) then next ifs_str
          else
            let if_str := ifs_record (buf_at (pos + 5)) (buf_at (pos + 6)) (buf_at (pos + 7)) in
            if has_part ifs_str if_str then next ifs_str else next (ifs_str ++ if_str)
      else ifs_str
  end.
Definition packed_info : bytes :=
  let ifs_str := packed_loop (length buf) 0 [] in
  match ifs_str with [] => [] | _ => ifs_str ++ [":"%char] end.
End packed.

Section usb.
Context `{SY : System} {PR : Programs} (fuel : nat) (buf_rest : nat -> byte).

Definition dev_if_packed_info (dev : nat) (len : nat) : E bytes :=
  e ← ev (fun e => e);
  f ← ev_sys (sys_read_file (syspath (device_at e dev) ++ "/descriptors"));
  mret (match f with
        | Some f => if (length f <? 18)%nat || (DESC_SIZE <=? length f)%nat then [] else packed_info buf_rest f len
        | None => []
        end).

(** * [builtin_usb_id] *)

(** An encoded string is [None] when its array is not terminated: at the start,
    and when the string did not fit. *)
Record usb_strings := mk_usb {
  vendor_str : bytes; vendor_str_enc : option bytes; model_str : bytes; model_str_enc : option bytes;
  revision_str : bytes; type_str : bytes; instance_str : bytes
}.
#[export] Instance usb_eta : Eta usb_strings := fun x => mk_usb (vendor_str x) (vendor_str_enc x) (model_str x) (model_str_enc x)
  (revision_str x) (type_str x) (instance_str x).
Definition usb_new (type_str : bytes) : usb_strings := mk_usb [] None [] None [] type_str [].

Definition clean (s : bytes) (size : nat) : bytes := fst (util_replace_chars (util_replace_whitespace s (size - 1)) None).
Definition encoded (s : bytes) : option bytes := let '(enc, r) := udev_util_encode_string s 256 in if r <? 0 then None else Some enc.
Definition set_vendor (s : bytes) (u : usb_strings) : usb_strings := u <| vendor_str := clean s 64 |> <| vendor_str_enc := encoded s |>.
Definition set_model (s : bytes) (u : usb_strings) : usb_strings := u <| model_str := clean s 64 |> <| model_str_enc := encoded s |>.

(** The strings of the SCSI device, as far as they are there. *)
Definition scsi_strings (u : usb_strings) : E (option usb_strings) :=
  dev_scsi ←! udev_device_get_parent_with_subsystem_devtype fuel 0 "scsi" (Some ("scsi_device" : bytes));
  match dev_scsi with
  | None => mret (Some u)
  | Some s =>
      name ← sysname_of s;
      match scan_hctl name with
      | None => mret (Some u)
      | Some (_, _, target, lun) =>
          vendor ← sysattr_of s "vendor";
          match vendor with
          | None => mret (Some u)
          | Some vendor =>
              let u := set_vendor vendor u in
              model ← sysattr_of s "model";
              match model with
              | None => mret (Some u)
              | Some model =>
                  let u := set_model model u in
                  type ← sysattr_of s "type";
                  match type with
                  | None => mret (Some u)
                  | Some type =>
                      let u := u <| type_str := set_scsi_type type |> in
                      rev ← sysattr_of s "rev";
                      match rev with
                      | None => mret (Some u)
                      | Some rev =>
                          mret (Some (u <| revision_str := clean rev 64 |>
                                        <| instance_str := fmt_i target ++ ":"%char :: fmt_i lun |>))
                      end
                  end
              end
          end
      end
  end.
(** A serial number has printable characters only, and no comma. *)
Definition serial_ok (s : bytes) : bool := forallb (fun c => negb ((code c <? 0x20) || (0x7f <? code c) || (c ==c ","))) s.
Definition is_empty (s : bytes) : bool := bool_decide (s = []).
Definition add_unless_empty (key s : bytes) : E unit := if is_empty s then mret tt else udev_builtin_add_property key (Some s).
Definition add_if (key : bytes) (s : option bytes) : E unit := match s with None => mret tt | Some _ => udev_builtin_add_property key s end.
Definition usb_serial (u : usb_strings) (serial_str : bytes) : bytes :=
  let d := strpcpyl (dst_new 256) [vendor_str u; "_" : bytes; model_str u] in
  let d := if is_empty serial_str then d else strpcpyl d ["_" : bytes; serial_str] in
  out (if is_empty (instance_str u) then d else strpcpyl d ["-" : bytes; instance_str u]).
(** From the label fallback on; whether it succeeds. *)
Definition usb_fallback (dev_usb : nat) (u : usb_strings) (packed_if_str : bytes) (ifnum driver : option bytes) : E (option bool) :=
  vendor_id ← sysattr_of dev_usb "idVendor";
  product_id ← sysattr_of dev_usb "idProduct";
  u ← (if is_empty (vendor_str u) then
          usb_vendor ← sysattr_of dev_usb "manufacturer";
          match (match usb_vendor with None => vendor_id | Some _ => usb_vendor end) with
          | None => mret None
          | Some v => mret (Some (set_vendor v u))
          end
        else mret (Some u));
  match u with
  | None => mret (Some false)
  | Some u =>
      u ← (if is_empty (model_str u) then
              usb_model ← sysattr_of dev_usb "product";
              match (match usb_model with None => product_id | Some _ => usb_model end) with
              | None => mret None
              | Some m => mret (Some (set_model m u))
              end
            else mret (Some u));
      match u with
      | None => mret (Some false)
      | Some u =>
          u ← (if is_empty (revision_str u) then
                 usb_rev ← sysattr_of dev_usb "bcdDevice";
                 mret (match usb_rev with Some r => u <| revision_str := clean r 64 |> | None => u end)
               else mret u);
          serial ← sysattr_of dev_usb "serial";
          let serial_str := match serial with Some s => if serial_ok s then clean s UTIL_NAME_SIZE else [] | None => [] end in
          match vendor_str_enc u, model_str_enc u with
          | Some vendor_enc, Some model_enc =>
              udev_builtin_add_property "ID_VENDOR" (Some (vendor_str u)) ;;
              udev_builtin_add_property "ID_VENDOR_ENC" (Some vendor_enc) ;;
              udev_builtin_add_property "ID_VENDOR_ID" vendor_id ;;
              udev_builtin_add_property "ID_MODEL" (Some (model_str u)) ;;
              udev_builtin_add_property "ID_MODEL_ENC" (Some model_enc) ;;
              udev_builtin_add_property "ID_MODEL_ID" product_id ;;
              udev_builtin_add_property "ID_REVISION" (Some (revision_str u)) ;;
              udev_builtin_add_property "ID_SERIAL" (Some (usb_serial u serial_str)) ;;
              add_unless_empty "ID_SERIAL_SHORT" serial_str ;;
              add_unless_empty "ID_TYPE" (type_str u) ;;
              add_unless_empty "ID_INSTANCE" (instance_str u) ;;
              udev_builtin_add_property "ID_BUS" (Some ("usb" : bytes)) ;;
              add_unless_empty "ID_USB_INTERFACES" packed_if_str ;;
              add_if "ID_USB_INTERFACE_NUM" ifnum ;;
              add_if "ID_USB_DRIVER" driver ;;
              mret (Some true)
          | _, _ => mret None
          end
      end
  end.
Definition builtin_usb_id : E (option bool) :=
  devtype ← devtype_of 0;
  if is_str "usb_device" devtype then
    packed_if_str ← dev_if_packed_info 0 UTIL_NAME_SIZE;
    usb_fallback 0 (usb_new []) packed_if_str None None
  else
    dev_interface ←! udev_device_get_parent_with_subsystem_devtype fuel 0 "usb" (Some ("usb_interface" : bytes));
    match dev_interface with
    | None => mret (Some false)
    | Some i =>
        ifnum ← sysattr_of i "bInterfaceNumber";
        driver ← sysattr_of i "driver";
        if_class ← sysattr_of i "bInterfaceClass";
        match if_class with
        | None => mret (Some false)
        | Some if_class =>
            let if_class_num := s32 (fst (strtoul_prefix 16 if_class)) in
            '(type_str, protocol) ←
              (if if_class_num =? 8 then
                 if_subclass ← sysattr_of i "bInterfaceSubClass";
                 mret (match if_subclass with Some s => set_usb_mass_storage_ifsubtype s | None => ([], 0) end)
               else mret (set_usb_iftype if_class_num, 0));
            dev_usb ←! udev_device_get_parent_with_subsystem_devtype fuel i "usb" (Some ("usb_device" : bytes));
            match dev_usb with
            | None => mret (Some false)
            | Some dev_usb =>
                packed_if_str ← dev_if_packed_info dev_usb UTIL_NAME_SIZE;
                u ←! (if (protocol =? 6) || (protocol =? 2) then scsi_strings (usb_new type_str) else mret (Some (usb_new type_str)));
                usb_fallback dev_usb u packed_if_str ifnum driver
            end
        end
    end.
End usb.
End BuiltinUsb.
