(* ===== verification/BuiltinInput.v ===== *)
(** src/core/builtin/udev-builtin-input_id.c and udev-builtin-keyboard.c: the
    kinds of an input device from the bit maps of its capabilities, and the
    key codes of a keyboard.  Also [udev_device_set_sysattr_value] of
    lib/device/libudev-device.c. *)

From Stdlib Require Import ZArith Lia Ascii.
From stdpp Require Import prelude gmap strings sorting.
From S2P Require Import Prelude Utils Strings Encode UdevList System Device Node Event BuiltinPath BuiltinNet.
Import Mem Entries Strxcpyx Encode Device Node Event Scan BuiltinPath.

(** * udev-builtin-input_id.c *)

Module BuiltinInput.
#[local] Abbreviation tt := Datatypes.tt.
#[local] Notation "x ←! m ; f" := (obind m (fun x => f)) (at level 20, m at level 100, f at level 200, right associativity).

(** linux/input.h *)
Definition EV_KEY : Z := 0x01.
Definition EV_REL : Z := 0x02.
Definition EV_ABS : Z := 0x03.
Definition EV_MAX : Z := 0x1f.
Definition REL_X : Z := 0x00.
Definition REL_Y : Z := 0x01.
Definition REL_MAX : Z := 0x0f.
Definition ABS_X : Z := 0x00.
Definition ABS_Y : Z := 0x01.
Definition ABS_Z : Z := 0x02.
Definition ABS_RX : Z := 0x03.
Definition ABS_RY : Z := 0x04.
Definition ABS_RZ : Z := 0x05.
Definition ABS_THROTTLE : Z := 0x06.
Definition ABS_RUDDER : Z := 0x07.
Definition ABS_WHEEL : Z := 0x08.
Definition ABS_GAS : Z := 0x09.
Definition ABS_BRAKE : Z := 0x0a.
Definition ABS_MAX : Z := 0x3f.
Definition BTN_MISC : Z := 0x100.
Definition BTN_1 : Z := 0x101.
Definition BTN_MOUSE : Z := 0x110.
Definition BTN_TRIGGER : Z := 0x120.
Definition BTN_A : Z := 0x130.
Definition BTN_TOOL_PEN : Z := 0x140.
Definition BTN_TOOL_FINGER : Z := 0x145.
Definition BTN_TOUCH : Z := 0x14a.
Definition BTN_STYLUS : Z := 0x14b.
Definition KEY_OK : Z := 0x160.
Definition BTN_TRIGGER_HAPPY : Z := 0x2c0.
Definition KEY_MAX : Z := 0x2ff.

Definition BITS_PER_LONG : Z := 64.
Definition NBITS (x : Z) : nat := Z.to_nat ((x - 1) / BITS_PER_LONG + 1).
Definition test_bit (bit : Z) (array : list Z) : bool := Z.testbit (nth (Z.to_nat (bit / BITS_PER_LONG)) array 0) (bit mod BITS_PER_LONG).

(** The words of a text from the last one on; a word too many is dropped. *)
Fixpoint cap_loop (fuel : nat) (text : bytes) (i : nat) (bitmask : list Z) : list Z :=
  match fuel with
  | O => bitmask
  | S fuel' =>
      match strrchr text " " with
      | Some (text', word) => cap_loop fuel' text' (S i) (<[i := fst (strtoul_prefix 16 word)]> bitmask)
      | None => <[i := fst (strtoul_prefix 16 text)]> bitmask
      end
  end.
Definition cap_mask (attr : option bytes) (n : nat) : list Z :=
  let text := take 4095 (str_arg attr) in
  cap_loop (S (length text)) text 0 (replicate n 0).

(** The properties, in their order. *)
Definition test_pointers (ev abs key rel : list Z) : list bytes :=
  if negb (test_bit EV_KEY ev) then
    if test_bit EV_ABS ev && test_bit ABS_X abs && test_bit ABS_Y abs && test_bit ABS_Z abs then ["ID_INPUT_ACCELEROMETER" : bytes] else []
  else
    let '(found, is_touchpad, is_mouse) :=
      if test_bit EV_ABS ev && test_bit ABS_X abs && test_bit ABS_Y abs then
        if test_bit BTN_STYLUS key || test_bit BTN_TOOL_PEN key then (["ID_INPUT_TABLET" : bytes], false, false)
        else if test_bit BTN_TOOL_FINGER key && negb (test_bit BTN_TOOL_PEN key) then ([], true, false)
        else if test_bit BTN_MOUSE key then ([], false, true)
        else if test_bit BTN_TOUCH key then (["ID_INPUT_TOUCHSCREEN" : bytes], false, false)
        else if test_bit BTN_TRIGGER key || test_bit BTN_A key || test_bit BTN_1 key || test_bit ABS_RX abs || test_bit ABS_RY abs
                || test_bit ABS_RZ abs || test_bit ABS_THROTTLE abs || test_bit ABS_RUDDER abs || test_bit ABS_WHEEL abs
                || test_bit ABS_GAS abs || test_bit ABS_BRAKE abs then (["ID_INPUT_JOYSTICK" : bytes], false, false)
        else ([], false, false)
      else ([], false, false) in
    let is_mouse := is_mouse || (test_bit EV_REL ev && test_bit REL_X rel && test_bit REL_Y rel && test_bit BTN_MOUSE key) in
    found ++ (if is_mouse then ["ID_INPUT_MOUSE" : bytes] else []) ++ (if is_touchpad then ["ID_INPUT_TOUCHPAD" : bytes] else []).
Definition test_key (ev key : list Z) : list bytes :=
  if negb (test_bit EV_KEY ev) then []
  else
    let low := foldr Z.lor 0 (take (Z.to_nat (BTN_MISC / BITS_PER_LONG)) key) in
    let high := existsb (fun i => test_bit (KEY_OK + Z.of_nat i) key) (seq 0 (Z.to_nat (BTN_TRIGGER_HAPPY - KEY_OK))) in
    let mask := 0xFFFFFFFE in
    (if negb (low =? 0) || high then ["ID_INPUT_KEY" : bytes] else [])
    ++ (if Z.land (nth 0 key 0) mask =? mask then ["ID_INPUT_KEYBOARD" : bytes] else []).

Section input.
Context `{SY : System} {PR : Programs}.

Fixpoint input_parent (fuel : nat) (pdev : nat) : E (option (option nat)) :=
  match fuel with
  | O => mret None
  | S fuel' =>
      a ← sysattr_of pdev "capabilities/ev";
      match a with
      | Some _ => mret (Some (Some pdev))
      | None =>
          p ←! udev_device_get_parent_with_subsystem_devtype fuel' pdev "input" None;
          match p with Some p => input_parent fuel' p | None => mret (Some None) end
      end
  end.
Definition get_cap_mask (pdev : nat) (attr : bytes) (max : Z) : E (list Z) := a ← sysattr_of pdev attr; mret (cap_mask a (NBITS max)).
Fixpoint add_flags (l : list bytes) : E unit :=
  match l with [] => mret tt | key :: l' => udev_builtin_add_property key (Some ("1" : bytes)) ;; add_flags l' end.
Definition builtin_input_id (fuel : nat) : E (option bool) :=
  pdev ←! input_parent fuel 0;
  match pdev with
  | None => mret (Some true)
  | Some p =>
      udev_builtin_add_property "ID_INPUT" (Some ("1" : bytes)) ;;
      ev ← get_cap_mask p "capabilities/ev" EV_MAX;
      abs ← get_cap_mask p "capabilities/abs" ABS_MAX;
      rel ← get_cap_mask p "capabilities/rel" REL_MAX;
      key ← get_cap_mask p "capabilities/key" KEY_MAX;
      add_flags (test_pointers ev abs key rel) ;;
      add_flags (test_key ev key) ;;
      mret (Some true)
  end.
End input.
End BuiltinInput.

(** * udev-builtin-keyboard.c *)

Module BuiltinKeyboard.
#[local] Abbreviation tt := Datatypes.tt.
#[local] Notation "x ←! m ; f" := (obind m (fun x => f)) (at level 20, m at level 100, f at level 200, right associativity).

Definition EISDIR : Z := 21.
Definition EACCES : Z := 13.
Definition ENXIO : Z := 6.
Definition ENODEV : Z := 19.
(** A file of sysfs takes a value as a whole.  The bytes of the newlines that
    were cut are written as NUL. *)
Definition udev_device_set_sysattr_value `{SY : System} (sysattr value : bytes) : D Z :=
  d ← field (fun d => d);
  let path := fst (strscpyl UTIL_PATH_SIZE [syspath d; "/" : bytes; sysattr]) in
  st ← sys (sys_lstat path);
  match st with
  | None => cache_sysattr sysattr None ;; mret (- ENXIO)
  | Some mode =>
      if S_ISLNK mode then mret (- EINVAL)
      else if S_ISDIR mode then mret (- EISDIR)
      else if Z.land mode S_IRUSR =? 0 then mret (- EACCES)
      else if (4096 <? length value)%nat then mret (- EINVAL)
      else
        let text := util_remove_trailing_chars value newline in
        r ← sys (sys_write path (text ++ replicate (length value - length text) nul));
        if r =? 0 then cache_sysattr sysattr (Some text) ;; mret 0 else mret (- r)
  end.

(** The generated table of key names, and the calls on a node: opening it for
    writing, and EVIOCSKEYCODE. *)
Class Keys `{SY : System} := {
  keyboard_lookup_key : bytes -> option Z;
  sys_open_input : bytes -> state world bool;
  sys_setkeycode : bytes -> Z -> Z -> state world unit
}.

Definition MAP_SIZE : nat := 1024.
(** An array and its count: the last place is used again and again. *)
Definition push {A} (x : A) (l : list A) : list A := if (length l <? MAP_SIZE - 1)%nat then l ++ [x] else l.
Record keys := mk_keys { k_map : list (Z * Z); k_release : list Z }.

Section keyboard.
Context `{SY : System} {PR : Programs} {KE : Keys}.

(** One property; [None] when its value is NULL. *)
Definition key_entry (e : entry) (k : keys) : option keys :=
  match startswith (e_name e) "KEYBOARD_KEY_" with
  | None => Some k
  | Some code =>
      let '(v, endptr) := strtoul_prefix 16 code in
      let scancode := u32 v in
      if negb (bool_decide (endptr = [])) then Some k
      else
        value ← e_value e;
        let '(keycode, k, skip) :=
          match value with
          | c :: keycode' =>
              if c ==c "!" then (keycode', mk_keys (k_map k) (push scancode (k_release k)), bool_decide (keycode' = []))
              else (value, k, false)
          | [] => (value, k, false)
          end in
        if skip : bool then Some k
        else
          let num := match keyboard_lookup_key keycode with
                     | Some id => Some (u32 id)
                     | None => let '(v, endptr) := strtoul_prefix 0 keycode in if bool_decide (endptr = []) then Some (u32 v) else None
                     end in
          match num with
          | None => Some k
          | Some n => Some (mk_keys (push (scancode, n) (k_map k)) (k_release k))
          end
  end.
Fixpoint key_entries (l : list entry) (k : keys) : option keys :=
  match l with [] => Some k | e :: l' => k ← key_entry e k; key_entries l' k end.

Definition release_codes (cur : bytes) (release : list Z) : dst :=
  fold_left (fun d r => strpcpyf d (","%char :: fmt_i (s32 r))) release (strpcpy (dst_new 4096) cur).
Definition install_force_release (fuel : nat) (release : list Z) : E (option Z) :=
  atkbd ←! udev_device_get_parent_with_subsystem_devtype fuel 0 "serio" None;
  match atkbd with
  | None => mret (Some (- ENODEV))
  | Some a =>
      cur ← sysattr_of a "force_release";
      match cur with
      | None => mret (Some (- ENODEV))
      | Some cur =>
          let d := release_codes cur release in
          if (left_ d =? 0)%nat then mret None
          else r ← on a (udev_device_set_sysattr_value "force_release" (out d)); mret (Some r)
      end
  end.
Fixpoint set_keys (node : bytes) (map : list (Z * Z)) : state world unit :=
  match map with [] => mret tt | (scan, key) :: map' => sys_setkeycode node scan key ;; set_keys node map' end.
Definition builtin_keyboard (fuel : nat) : E (option bool) :=
  es ← on 0 udev_device_get_properties_list_entry;
  match key_entries es (mk_keys [] []) with
  | None => mret None
  | Some k =>
      if bool_decide (k_map k = []) && bool_decide (k_release k = []) then mret (Some true)
      else
        node ← on 0 udev_device_get_devnode;
        match node with
        | None => mret (Some false)
        | Some node =>
            ok ← ev_sys (sys_open_input node);
            if negb ok then mret (Some false)
            else
              ev_sys (set_keys node (k_map k)) ;;
              _ ←! (if bool_decide (k_release k = []) then mret (Some 0) else install_force_release fuel (k_release k));
              mret (Some true)
        end
  end.
End keyboard.
End BuiltinKeyboard.
