(* ===== verification/BuiltinProps.v ===== *)
(** The builtin commands: the tag of a path, the interfaces of a usb device,
    the bit maps of an input device and the names of network interfaces. *)

From Stdlib Require Import ZArith Lia Ascii.
From stdpp Require Import prelude gmap strings sorting.
From S2P Require Import Prelude Utils Strings Encode UdevList System Device DeviceProps Node Event BuiltinPath BuiltinNet BuiltinUsb BuiltinInput.
Import Mem Entries Strxcpyx Device DeviceProps Node Event Scan BuiltinPath BuiltinHwdb BuiltinUsb BuiltinInput.

Module BuiltinProps.

(** * The tag of a path *)

(** The words of a path: the runs of characters that are allowed in a tag. *)
Fixpoint words (cur p : bytes) : list bytes :=
  match p with
  | [] => match cur with [] => [] | _ => [cur] end
  | c :: p' =>
      if tag_char c then words (cur ++ [c]) p'
      else match cur with [] => words [] p' | _ => cur :: words [] p' end
  end.
Definition join (ws : list bytes) : bytes := drop 1 (mjoin ((fun w => "_"%char :: w) <$> ws)).

Lemma join_snoc ws w : join (ws ++ [w]) = match ws with [] => w | _ => join ws ++ "_"%char :: w end.
Proof. unfold join. rewrite fmap_app, join_app. destruct ws as [|x ws]; simpl; by rewrite app_nil_r. Qed.
Lemma tag_char_not c : tag_char c = true -> (c ==c "_") = false.
Proof. destruct (eqbP c "_") as [->|]; [done|done]. Qed.
Definition word (w : bytes) : Prop := w <> [] /\ Forall (fun c => tag_char c = true) w.
(** A text ends with the last character of its last word. *)
Lemma join_last ws w : word w -> exists t c, join (ws ++ [w]) = t ++ [c] /\ (c ==c "_") = false.
Proof.
  intros [Hne Hw]. rewrite join_snoc. destruct (exists_last Hne) as (a & c & ->). apply Forall_app in Hw as [_ Hw].
  pose proof (tag_char_not _ (Forall_inv Hw)) as Hc.
  destruct ws as [|x ws]; [by exists a, c|]. exists (join (x :: ws) ++ "_"%char :: a), c. by rewrite <- app_assoc.
Qed.
Lemma strip_snoc t c : strip_loop (length (t ++ [c])) (t ++ [c]) = if c ==c "_" then strip_loop (length t) (t ++ [c]) else t ++ [c].
Proof.
  rewrite length_app. cbn [length]. rewrite Nat.add_1_r. cbn [strip_loop].
  rewrite app_nth2, Nat.sub_diag by lia. cbn [nth]. destruct (c ==c "_"); [done|]. rewrite take_ge; [done|]. rewrite length_app. simpl. lia.
Qed.
Lemma strip_take i t t' : (i <= length t)%nat -> strip_loop i (t ++ t') = strip_loop i t.
Proof.
  induction i as [|i IH]; intros Hi; [done|]. cbn [strip_loop]. rewrite app_nth1, IH by lia.
  destruct (_ ==c _); [done|]. by rewrite take_app_le by lia.
Qed.
Lemma strip_join ws : Forall word ws -> strip_loop (length (join ws)) (join ws) = join ws.
Proof.
  destruct ws as [|x ws] using rev_ind; [done|]. intros [_ Hx]%Forall_app. pose proof (Forall_inv Hx) as H.
  destruct (join_last ws x H) as (t & c & -> & Hc). by rewrite strip_snoc, Hc.
Qed.

(** What is written before the rest [p] of a path: the words [ws] and the
    beginning [cur] of the next. *)
Lemma tag_loop_words p ws cur :
  Forall word ws -> Forall (fun c => tag_char c = true) cur ->
  let tag := tag_loop p (join (ws ++ [cur])) in
  strip_loop (length tag) tag = join (ws ++ words cur p).
Proof.
  revert ws cur. induction p as [|c p IH]; intros ws cur Hws Hcur; cbn [tag_loop words].
  - destruct cur as [|x cur].
    + rewrite app_nil_r, join_snoc. destruct ws as [|w ws']; [done|]. set (ws := w :: ws') in *.
      rewrite strip_snoc, strip_take by done. by apply strip_join.
    + by apply strip_join, Forall_app_2, Forall_singleton.
  - destruct (tag_char c) eqn:Hc.
    + rewrite <- (IH ws (cur ++ [c])) by (try done; by apply Forall_app_2, Forall_singleton).
      f_equal; f_equal; rewrite !join_snoc; destruct ws; [done|by rewrite <- app_assoc|done|by rewrite <- app_assoc].
    + destruct (Nat.eqb_spec (length (join (ws ++ [cur]))) 0) as [H0|H0].
      { apply length_zero_iff_nil in H0. rewrite join_snoc in H0. destruct ws; [subst cur|by destruct (join (l :: ws))]. by apply (IH [] []). }
      destruct cur as [|x cur].
      * rewrite join_snoc in *. destruct ws as [|w ws']; [done|]. set (ws := w :: ws') in *.
        rewrite length_app, app_nth2 by (simpl; lia). cbn [length]. rewrite Nat.add_sub, Nat.sub_diag. cbn [nth Ascii.eqb Bool.eqb].
        rewrite <- (IH ws []) by done. by rewrite join_snoc.
      * assert (word (x :: cur)) as Hw by done. destruct (join_last ws (x :: cur) Hw) as (t & y & E & Hy). rewrite E.
        rewrite length_app, app_nth2 by (simpl; lia). cbn [length]. rewrite Nat.add_sub, Nat.sub_diag. cbn [nth]. rewrite Hy, <- E.
        change ((x :: cur) :: words [] p) with ([x :: cur] ++ words [] p). rewrite app_assoc.
        rewrite <- (IH (ws ++ [x :: cur]) []) by (try done; by apply Forall_app_2, Forall_singleton).
        rewrite (join_snoc (ws ++ _) []). by destruct ws.
Qed.
Lemma tag_loop_length p tag : (length (tag_loop p tag) <= length p + length tag)%nat.
Proof.
  revert tag. induction p as [|c p IH]; intros tag; cbn [tag_loop length]; [lia|].
  repeat case_match; (etrans; [apply IH|]); rewrite ?length_app; simpl; lia.
Qed.
Lemma strip_length i tag : (length (strip_loop i tag) <= length tag)%nat.
Proof. induction i as [|i IH]; cbn [strip_loop]; [simpl; lia|]. destruct (_ ==c _); [done|]. rewrite length_take. lia. Qed.

(** The tag of a path is made of the runs of letters, digits and dashes of
    the path, with one underscore between each two and none at its ends; it
    fits into its array when the path is shorter than it. *)
Lemma path_tag_words (path : bytes) :
  path_tag path = join (words [] path) /\ ((length path < UTIL_NAME_SIZE)%nat -> tag_fits path = true).
Proof.
  split; [apply (tag_loop_words path [] []); done|]. intros H. unfold tag_fits, path_tag.
  pose proof (tag_loop_length path []) as H1. pose proof (strip_length (length (tag_loop path [])) (tag_loop path [])) as H2.
  simpl in H1. apply andb_true_intro. split; [apply Nat.leb_le|apply Nat.ltb_lt]; lia.
Qed.
Lemma path_tag_words_witness :
  tag_fits "pci-0000:00:1d.0-usb-0:1.2:1.0" = true /\ path_tag "pci-0000:00:1d.0-usb-0:1.2:1.0" = ("pci-0000_00_1d_0-usb-0_1_2_1_0" : bytes).
Proof.
  destruct (path_tag_words "pci-0000:00:1d.0-usb-0:1.2:1.0") as [H1 H2]. split; [|exact H1].
  apply H2. cbn. unfold UTIL_NAME_SIZE. lia.
Defined.

(** * Bit maps *)

(** The kernel writes the words of a bit map from the highest on. *)
Fixpoint kernel_text (ws : list Z) : bytes :=
  match ws with
  | [] => []
  | [w] => fmt 16 w
  | w :: ws' => kernel_text ws' ++ " "%char :: fmt 16 w
  end.
Definition is_hex (c : byte) : bool := ((48 <=? code c) && (code c <=? 57)) || ((97 <=? code c) && (code c <=? 102)).
Lemma fmt_hex z : Forall (fun c => is_hex c = true) (fmt 16 z).
Proof.
  apply fmt_Forall_base; [lia|]. intros d Hd. unfold digit_char, is_hex.
  destruct (Z.ltb_spec d 10); rewrite code_chr, Z.mod_small by lia.
  - apply orb_true_intro. left. apply andb_true_intro. split; apply Z.leb_le; lia.
  - apply orb_true_intro. right. apply andb_true_intro. split; apply Z.leb_le; lia.
Qed.
Lemma hex_no_prefix c s d : is_hex c = true -> Forall (fun c => is_hex c = true) s -> nth 0 s nul = d -> (d ==c "x") || (d ==c "X") = false.
Proof.
  intros _ Hs <-. destruct s as [|x s]; [done|]. pose proof (Forall_inv Hs) as H. cbn [nth].
  apply orb_false_intro; [destruct (eqbP x "x") as [->|]|destruct (eqbP x "X") as [->|]]; done.
Qed.
(** [strtoul] reads back what [%lx] wrote. *)
Lemma strtoul_hex w : 0 <= w < 2 ^ 64 -> strtoul_prefix 16 (fmt 16 w) = (w, []).
Proof.
  intros Hw. pose proof (strto_digits_fmt 16 w [] ltac:(lia) ltac:(lia) ltac:(done)) as Hd. rewrite app_nil_r in Hd.
  pose proof (fmt_hex w) as Hx. pose proof (fmt_nonempty 16 w) as Hne. destruct (fmt 16 w) as [|c s] eqn:E; [done|].
  pose proof (Forall_inv Hx) as Hc. pose proof (Forall_inv_tail Hx) as Hs.
  assert (strto_prefix 16 (c :: s) = (false, w, [])) as Hp.
  { unfold strto_prefix. assert (skip_space (c :: s) = c :: s) as ->.
    { cbn [skip_space]. assert (isspace c = false) as ->; [|done]. revert Hc. clear. by destruct c as [[] [] [] [] [] [] [] []]. }
    assert ((c ==c "-") = false /\ (c ==c "+") = false) as [-> ->].
    { revert Hc. clear. split; [destruct (eqbP c "-") as [->|]|destruct (eqbP c "+") as [->|]]; done. }
    cbv zeta beta. change (16 =? 0) with false. cbv iota.
    destruct (c ==c "0"); [destruct s as [|x [|y s']]; try rewrite (hex_no_prefix c (x :: y :: s') x Hc Hs eq_refl); cbn [andb]|];
      by rewrite Hd. }
  unfold strtoul_prefix. rewrite Hp. by rewrite (proj2 (Z.leb_gt _ _)) by lia.
Qed.
Lemma fmt_no_space w : " "%char ∉ fmt 16 w.
Proof. intros H. pose proof (fmt_hex w) as Hx. rewrite Forall_forall in Hx. by specialize (Hx _ H). Qed.

Lemma cap_loop_words ws fuel i mask :
  ws <> [] -> Forall (fun w => 0 <= w < 2 ^ 64) ws -> (length ws <= fuel)%nat -> (i + length ws <= length mask)%nat ->
  cap_loop fuel (kernel_text ws) i mask = take i mask ++ ws ++ drop (i + length ws) mask.
Proof.
  revert fuel i mask. induction ws as [|w ws IH]; intros fuel i mask Hne Hws Hf Hl; [done|].
  pose proof (Forall_inv Hws) as Hw. pose proof (Forall_inv_tail Hws) as Hws'.
  destruct fuel as [|fuel]; [simpl in Hf; lia|]. cbn [cap_loop length] in *. destruct ws as [|w' ws].
  - cbn [kernel_text]. rewrite strrchr_none, strtoul_hex by (try done; apply fmt_no_space). cbn [fst].
    rewrite insert_take_drop by lia. cbn [app length]. by rewrite Nat.add_1_r.
  - change (kernel_text (w :: w' :: ws)) with (kernel_text (w' :: ws) ++ " "%char :: fmt 16 w).
    rewrite strrchr_last by apply fmt_no_space. rewrite strtoul_hex by done. cbn [fst].
    rewrite IH by (try done; rewrite ?length_insert; simpl in *; lia).
    assert (take (S i) (<[i:=w]> mask) = take i mask ++ [w]) as ->.
    { rewrite insert_take_drop by lia. rewrite take_app_ge by (rewrite length_take; lia). rewrite length_take, Nat.min_l by lia.
      by rewrite Nat.sub_succ_l, Nat.sub_diag by lia. }
    rewrite drop_insert_lt by lia. rewrite <- app_assoc. cbn [app]. by rewrite Nat.add_succ_r.
Qed.
Lemma kernel_text_length ws : (length ws <= S (length (kernel_text ws)))%nat.
Proof.
  induction ws as [|w ws IH]; [simpl; lia|]. destruct ws as [|w' ws]; [simpl; lia|].
  change (kernel_text (w :: w' :: ws)) with (kernel_text (w' :: ws) ++ " "%char :: fmt 16 w). rewrite length_app. simpl in *. lia.
Qed.

(** The bit map that the kernel wrote is read back, so that a bit is set in
    it exactly when the kernel set it; missing words are 0. *)
Lemma cap_mask_round_trip (ws : list Z) (n : nat) :
  ws <> [] -> Forall (fun w => 0 <= w < 2 ^ 64) ws -> (length ws <= n)%nat -> (length (kernel_text ws) < 4096)%nat ->
  cap_mask (Some (kernel_text ws)) n = ws ++ replicate (n - length ws) 0 /\
  forall bit, 0 <= bit -> test_bit bit (cap_mask (Some (kernel_text ws)) n) = Z.testbit (nth (Z.to_nat (bit / 64)) ws 0) (bit mod 64).
Proof.
  intros Hne Hws Hn Hl.
  assert (cap_mask (Some (kernel_text ws)) n = ws ++ replicate (n - length ws) 0) as ->.
  { unfold cap_mask. change (str_arg (Some (kernel_text ws))) with (kernel_text ws). cbv zeta. rewrite take_ge by lia.
    rewrite cap_loop_words by (try done; rewrite ?length_replicate; try lia; apply kernel_text_length).
    cbn [take app]. by rewrite drop_replicate. }
  split; [done|]. intros bit Hb. unfold test_bit. change BITS_PER_LONG with 64. f_equal.
  destruct (Nat.lt_ge_cases (Z.to_nat (bit / 64)) (length ws)); [by rewrite app_nth1|].
  rewrite app_nth2, (nth_overflow ws) by lia. generalize (n - length ws)%nat (Z.to_nat (bit / 64) - length ws)%nat. intros k. induction k as [|k IH]; intros [|j]; simpl; auto.
Qed.
Lemma cap_mask_round_trip_witness :
  test_bit BTN_MOUSE (cap_mask (Some ("60000 0 0 0 0" : bytes)) (NBITS KEY_MAX)) = false /\
  test_bit BTN_MOUSE (cap_mask (Some ("10000 0 0 0 0" : bytes)) 12) = true.
Proof.
  split; [done|]. destruct (cap_mask_round_trip [0; 0; 0; 0; 0x10000] 12) as [_ H]; [done|by apply (bool_decide_unpack _)|cbn; lia|by apply Nat.ltb_lt|].
  etrans; [exact (H BTN_MOUSE ltac:(done))|done].
Defined.

(** * The interfaces of a usb device *)

Lemma has_part_true s part : has_part s part = true <-> exists a b, s = a ++ part ++ b.
Proof.
  unfold has_part. rewrite bool_decide_eq_true. induction s as [|c s IH]; cbn [strstr].
  - destruct (startswith [] part) as [r|] eqn:E.
    + apply startswith_Some in E. split; [intros _; by exists [], r|by eexists].
    + split; [by intros [? ?]|]. intros (a & b & H). symmetry in H. apply app_eq_nil in H as [-> H].
      assert (startswith [] part = Some b) by by apply startswith_Some. congruence.
  - destruct (startswith (c :: s) part) as [r|] eqn:E.
    + apply startswith_Some in E. split; [intros _; by exists [], r|by eexists].
    + rewrite IH. split; intros (a & b & H).
      * exists (c :: a), b. by rewrite H.
      * destruct a as [|x a]; [by rewrite (proj2 (startswith_Some (c :: s) part b) H) in E|]. injection H as -> ->. by exists a, b.
Qed.

(** A record of an interface: a colon and six other characters. *)
Definition record (r : bytes) : Prop := length r = 7%nat /\ exists t, r = ":"%char :: t /\ ":"%char ∉ t.
Lemma hex2_ok z : 0 <= z < 256 -> length (hex 2 z) = 2%nat /\ ":"%char ∉ hex 2 z.
Proof.
  intros Hz. assert (forallb (fun n => (length (hex 2 (Z.of_nat n)) =? 2)%nat && bool_decide (":"%char ∉ hex 2 (Z.of_nat n))) (seq 0 256) = true) as H
    by by vm_compute.
  rewrite forallb_forall in H. specialize (H (Z.to_nat z)). rewrite Z2Nat.id in H by lia.
  apply andb_prop in H as [H1 H2]; [|apply in_seq; lia]. apply Nat.eqb_eq in H1. by apply bool_decide_eq_true in H2.
Qed.
Lemma buf_at_range rest buf i : 0 <= buf_at rest buf i < 256.
Proof. apply code_range. Qed.
Lemma ifs_record_ok a b c : 0 <= a < 256 -> 0 <= b < 256 -> 0 <= c < 256 -> record (ifs_record a b c).
Proof.
  intros [Ha Ha']%hex2_ok [Hb Hb']%hex2_ok [Hc Hc']%hex2_ok. unfold ifs_record. split.
  - cbn [length]. rewrite !length_app. lia.
  - eexists. split; [reflexivity|]. rewrite !elem_of_app. tauto.
Qed.
(** In a text of records a record is only found where one stands. *)
Lemma record_aligned rs r a b : Forall record rs -> record r -> mjoin rs = a ++ r ++ b -> r ∈ rs.
Proof.
  intros Hrs [Hl (t & -> & Ht)]. revert a. induction Hrs as [|x rs [Hx (u & -> & Hu)] _ IH]; intros a E; cbn [mjoin list_join] in E.
  { destruct a; simpl in E; discriminate. }
  destruct (Nat.lt_ge_cases (length a) 7) as [H|H].
  - destruct a as [|y a].
    + apply (f_equal (take 7)) in E. cbn [app] in E. rewrite !app_comm_cons, !take_app_le, !take_ge in E by lia.
      rewrite E. apply list_elem_of_here.
    + exfalso. apply Hu. cbn [app] in E. injection E as _ E. apply (f_equal (fun l => nth (length a) l nul)) in E.
      simpl in Hx, H. rewrite app_nth1, app_nth2, Nat.sub_diag in E by lia. cbn [nth app] in E. rewrite <- E.
      apply list_elem_of_In, nth_In. lia.
  - apply list_elem_of_further. apply (IH (drop 7 a)). apply (f_equal (drop 7)) in E.
    rewrite drop_app_ge, Hx, Nat.sub_diag, drop_0, drop_app_le in E by lia. exact E.
Qed.
Lemma has_record acc r : Forall record acc -> record r -> has_part (mjoin acc) r = bool_decide (r ∈ acc).
Proof.
  intros Ha Hr. apply eq_true_iff_eq. rewrite has_part_true, bool_decide_eq_true. split.
  - intros (a & b & E). by apply (record_aligned acc r a b).
  - intros (l1 & l2 & ->)%list_elem_of_split. exists (mjoin l1), (mjoin l2). by rewrite join_app.
Qed.

Section packed.
Context (buf_rest : nat -> byte) (buf : bytes) (len : nat).
#[local] Abbreviation at_ := (buf_at buf_rest buf).
(** The records of the interface descriptors from a place of the buffer on, up
    to its end or to a descriptor that is too short. *)
Inductive interfaces (pos : nat) : list bytes -> Prop :=
  | if_end : (length buf <= pos)%nat -> interfaces pos []
  | if_short : (pos < length buf)%nat -> at_ pos < 3 -> interfaces pos []
  | if_interface rs :
      (pos < length buf)%nat -> 3 <= at_ pos -> at_ (pos + 1) = USB_DT_INTERFACE ->
      interfaces (pos + Z.to_nat (at_ pos)) rs ->
      interfaces pos (ifs_record (at_ (pos + 5)) (at_ (pos + 6)) (at_ (pos + 7)) :: rs)
  | if_other rs :
      (pos < length buf)%nat -> 3 <= at_ pos -> at_ (pos + 1) <> USB_DT_INTERFACE ->
      interfaces (pos + Z.to_nat (at_ pos)) rs -> interfaces pos rs.
Lemma interfaces_total n pos : (length buf <= pos + n)%nat -> exists rs, interfaces pos rs.
Proof.
  revert pos. induction n as [|n IH]; intros pos Hn; [exists []; constructor; lia|].
  destruct (Nat.le_gt_cases (length buf) pos); [exists []; by constructor|].
  destruct (Z.lt_ge_cases (at_ pos) 3); [exists []; by apply if_short|].
  destruct (IH (pos + Z.to_nat (at_ pos))%nat) as [rs Hrs]; [lia|].
  destruct (Z.eq_dec (at_ (pos + 1)) USB_DT_INTERFACE); [eexists; by eapply if_interface|exists rs; by apply if_other].
Qed.

(** The records that are kept: each once, as long as there is room. *)
Definition capacity : nat := ((len - 3) / 7)%nat.
Fixpoint keep_new (acc rs : list bytes) : list bytes :=
  match rs with [] => acc | r :: rs' => keep_new (if bool_decide (r ∈ acc) then acc else acc ++ [r]) rs' end.
Fixpoint keep (acc rs : list bytes) : list bytes :=
  if (length acc <? capacity)%nat then
    match rs with [] => acc | r :: rs' => keep (if bool_decide (r ∈ acc) then acc else acc ++ [r]) rs' end
  else acc.
Lemma keep_new_prefix acc rs : exists more, keep_new acc rs = acc ++ more.
Proof.
  revert acc. induction rs as [|r rs IH]; intros acc; cbn [keep_new]; [exists []; by rewrite app_nil_r|].
  case_bool_decide; [apply IH|]. destruct (IH (acc ++ [r])) as [more ->]. exists (r :: more). by rewrite <- app_assoc.
Qed.
Lemma keep_take acc rs : (length acc <= capacity)%nat -> keep acc rs = take capacity (keep_new acc rs).
Proof.
  revert acc. induction rs as [|r rs IH]; intros acc Hl; cbn [keep keep_new].
  - rewrite take_ge by done. by case_match.
  - destruct (Nat.ltb_spec (length acc) capacity) as [H|H].
    + apply IH. case_bool_decide; rewrite ?length_app; simpl; lia.
    + destruct (keep_new_prefix (if bool_decide (r ∈ acc) then acc else acc ++ [r]) rs) as [more ->].
      case_bool_decide; rewrite <- ?app_assoc; rewrite take_app_le, take_ge by lia; done.
Qed.
Lemma records_length acc : Forall record acc -> length (mjoin acc) = (7 * length acc)%nat.
Proof.
  induction 1 as [|r acc [Hr _] _ IH]; [done|]. change (mjoin (r :: acc)) with (r ++ mjoin acc). rewrite length_app, Hr, IH. simpl. lia.
Qed.

Lemma packed_loop_keep fuel pos rs acc :
  interfaces pos rs -> (length buf <= pos + fuel)%nat -> Forall record acc ->
  packed_loop buf_rest buf len fuel pos (mjoin acc) = mjoin (keep acc rs).
Proof.
  intros Hi. revert fuel acc.
  assert (forall acc, Forall record acc -> (length (mjoin acc) + 7 <? len - 2)%nat = (length acc <? capacity)%nat) as Hroom.
  { intros acc Ha. rewrite records_length by done. unfold capacity. apply eq_true_iff_eq. rewrite !Nat.ltb_lt.
    pose proof (Nat.div_mod_eq (len - 3) 7). pose proof (Nat.mod_upper_bound (len - 3) 7). lia. }
  induction Hi as [pos H|pos H Hs|pos rs H Hs Ht _ IH|pos rs H Hs Ht _ IH]; intros fuel acc Hf Ha; (destruct fuel as [|fuel]; [try (exfalso; lia)|]);
    cbn [packed_loop]; rewrite ?Hroom by done.
  - cbn [keep]. by destruct (_ <? _)%nat.
  - rewrite (proj2 (Nat.ltb_ge _ _)) by done. cbn [andb keep]. by destruct (_ <? _)%nat.
  - rewrite (proj2 (Nat.ltb_lt _ _)) by done. cbn [andb keep]. rewrite (proj2 (Z.ltb_lt _ _)) by done. by destruct (_ <? _)%nat.
  - rewrite (proj2 (Nat.ltb_lt _ _)) by done. cbn [andb keep]. rewrite (proj2 (Z.ltb_ge _ _)) by done. destruct (_ <? _)%nat; [|done].
    rewrite Ht, Z.eqb_refl. cbn [negb]. pose proof (ifs_record_ok _ _ _ (buf_at_range buf_rest buf (pos + 5)) (buf_at_range buf_rest buf (pos + 6))
      (buf_at_range buf_rest buf (pos + 7))) as Hr. set (r := ifs_record _ _ _) in *.
    rewrite has_record by done. case_bool_decide; [by apply IH; [lia|]|].
    rewrite <- (IH fuel (acc ++ [r])) by (try lia; by apply Forall_app_2, Forall_singleton).
    rewrite join_app. cbn [mjoin list_join]. by rewrite app_nil_r.
  - rewrite (proj2 (Nat.ltb_lt _ _)) by done. cbn [andb]. rewrite (proj2 (Z.ltb_ge _ _)) by done.
    rewrite (proj2 (Z.eqb_neq _ _)) by done. cbn [negb]. rewrite IH by (done || lia).
    destruct (Nat.ltb_spec (length acc) capacity); [done|]. destruct rs; cbn [keep]; by rewrite (proj2 (Nat.ltb_ge _ _)) by done.
Qed.
Lemma interfaces_records pos rs : interfaces pos rs -> Forall record rs.
Proof. induction 1; try done. constructor; [|done]. apply ifs_record_ok; apply buf_at_range. Qed.
Lemma keep_new_elem acc rs r : r ∈ keep_new acc rs -> r ∈ acc \/ r ∈ rs.
Proof. revert acc. induction rs as [|x rs IH]; intros acc; cbn [keep_new]; [tauto|]. intros H%IH. case_bool_decide; set_solver. Qed.
Lemma keep_new_records pos rs : interfaces pos rs -> forall r, r ∈ keep_new [] rs -> record r.
Proof.
  intros Hi r [H|H]%keep_new_elem; [by apply not_elem_of_nil in H|]. by apply (Forall_forall record rs); [apply (interfaces_records pos)|].
Qed.
End packed.

(** C22: The text of the interfaces has the record of every interface descriptor
    of the buffer once, in the order in which they come first, as many as there
    is room for; the text and its terminator stay inside the array.  What
    stands behind the bytes that were read matters only for a descriptor that
    reaches over their end. *)
Theorem packed_info_exact (buf_rest : nat -> byte) (buf : bytes) (len : nat) :
  (3 <= len)%nat ->
  exists rs, interfaces buf_rest buf 0 rs /\
    packed_info buf_rest buf len = (match take (capacity len) (keep_new [] rs) with [] => [] | kept => mjoin kept ++ [":"%char] end) /\
    (length (packed_info buf_rest buf len) < len)%nat.
Proof.
  intros Hlen. destruct (interfaces_total buf_rest buf (length buf) 0 ltac:(lia)) as [rs Hrs]. exists rs. split; [done|].
  set (kept := take (capacity len) (keep_new [] rs)).
  assert (Forall record kept) as Hk.
  { apply Forall_take, Forall_forall. intros r Hr. eapply keep_new_records; [exact len|exact Hrs|exact Hr]. }
  assert (packed_info buf_rest buf len = match kept with [] => [] | r :: l => mjoin (r :: l) ++ [":"%char] end) as E.
  { unfold packed_info. rewrite (packed_loop_keep buf_rest buf len (length buf) 0 rs [] Hrs ltac:(lia) ltac:(constructor) : packed_loop _ _ _ _ _ [] = _).
    rewrite keep_take by (simpl; lia). fold kept. clearbody kept. destruct Hk as [|r l [Hr _] _]; [done|]. by destruct r. }
  split; [done|]. rewrite E. assert (length kept <= capacity len)%nat as Hc by (unfold kept; rewrite length_take; lia).
  pose proof (records_length kept Hk) as Hl. unfold capacity in Hc. pose proof (Nat.div_mod_eq (len - 3) 7).
  clearbody kept. destruct kept; [simpl; lia|]. rewrite length_app, Hl. cbn [length] in *. lia.
Qed.
Definition usb_descriptors : bytes := chr <$>
  [18; 1; 0; 2; 0; 0; 0; 64; 0x6d; 4; 0x77; 0xc0; 0; 0x72; 1; 2; 0; 1;  9; 2; 59; 0; 2; 1; 0; 0xa0; 49;
   9; 4; 0; 0; 1; 3; 1; 2; 0;  9; 0x21; 0x11; 1; 0; 1; 0x22; 67; 0;  9; 4; 1; 0; 1; 3; 1; 2; 0;  9; 4; 2; 0; 1; 8; 6; 0x50; 0; 1].
Lemma packed_info_exact_witness :
  (length (packed_info (fun _ => nul) usb_descriptors 512) < 512)%nat /\
  packed_info (fun _ => nul) usb_descriptors 512 = (":030102:080650:" : bytes).
Proof.
  destruct (packed_info_exact (fun _ => nul) usb_descriptors 512) as (rs & _ & _ & H); [by apply Nat.leb_le|].
  split; [exact H|]. by vm_compute.
Defined.
End BuiltinProps.
