(* ===== verification/Util.v ===== *)
(** The string functions of shared/util.c: escaping and its inverse, words of
    a line, numbers, and the tests of directory entries. *)

From Stdlib Require Import ZArith Lia Ascii.
From stdpp Require Import prelude gmap strings.
From S2P Require Import Prelude System Strings Encode BuiltinPath ConfFiles.
Import Scan ConfFiles.

Module Util.

Definition EINVAL : Z := 22.
Definition ERANGE : Z := 34.

(** * Sets of characters *)

Definition one_of (set : bytes) (c : byte) : bool := existsb (fun x => c ==c x) set.
(** [strchr (set, c)] is not NULL; the terminator is found too. *)
Definition in_set (set : bytes) (c : byte) : bool := one_of set c || (c ==c nul).
Definition WHITESPACE : bytes := [" "%char; "009"%char; newline; "013"%char].
Definition NEWLINE : bytes := [newline; "013"%char].
Definition QUOTES : bytes := ["034"%char; "'"%char].
Fixpoint skip_set (set : bytes) (s : bytes) : bytes :=
  match s with c :: s' => if one_of set c then skip_set set s' else s | [] => [] end.
(** What is in front of the first character of the set, and the rest. *)
Fixpoint until_set (set : bytes) (s : bytes) : bytes * bytes :=
  match s with
  | c :: s' => if one_of set c then ([], s) else let '(a, r) := until_set set s' in (c :: a, r)
  | [] => ([], [])
  end.

(** * Numbers *)

Definition lower (c : byte) : byte := if (65 <=? code c) && (code c <=? 90) then chr (code c + 32) else c.
Definition ascii_strlower (t : bytes) : bytes := lower <$> t.
Definition parse_boolean (v : bytes) : Z :=
  let c := nth 0 v nul in
  if bool_decide (v = ("1" : bytes)) || one_of "yYtT" c || bool_decide (ascii_strlower v = ("on" : bytes)) then 1
  else if bool_decide (v = ("0" : bytes)) || one_of "nNfF" c || bool_decide (ascii_strlower v = ("off" : bytes)) then 0
  else - EINVAL.
(** The number, or the error. *)
Definition safe_atou (s : bytes) : Z + Z :=
  let '(neg, v, x) := strto_prefix 0 s in
  if 2 ^ 64 <=? v then inl (- ERANGE)
  else if (length x =? length s)%nat || negb (length x =? 0)%nat then inl (- EINVAL)
  else
    let l := fst (strtoul_prefix 0 s) in
    if u32 l =? l then inr l else inl (- ERANGE).
Definition safe_atoi (s : bytes) : Z + Z :=
  let '(neg, v, x) := strto_prefix 0 s in
  if (if neg then 2 ^ 63 <? v else 2 ^ 63 <=? v) then inl (- ERANGE)
  else if (length x =? length s)%nat || negb (length x =? 0)%nat then inl (- EINVAL)
  else
    let l := fst (strtol_prefix 0 s) in
    if s32 l =? l then inr l else inl (- ERANGE).

Definition hexchar (x : Z) : byte := nth (Z.to_nat (Z.land x 15)) ("0123456789abcdef" : bytes) nul.
Definition unhexchar (c : byte) : Z :=
  if (48 <=? code c) && (code c <=? 57) then code c - 48
  else if (97 <=? code c) && (code c <=? 102) then code c - 97 + 10
  else if (65 <=? code c) && (code c <=? 70) then code c - 65 + 10
  else - EINVAL.
Definition octchar (x : Z) : byte := chr (48 + Z.land x 7).
Definition unoctchar (c : byte) : Z := if (48 <=? code c) && (code c <=? 55) then code c - 48 else - EINVAL.
Definition decchar (x : Z) : byte := chr (48 + Z.rem x 10).
Definition undecchar (c : byte) : Z := if (48 <=? code c) && (code c <=? 57) then code c - 48 else - EINVAL.

(** * Escaping *)

(** A [char] that compares below the space is negative or a control
    character. *)
Definition special (c : byte) : bool := (code c <? 32) || (127 <=? code c).
Definition cescape_char (c : byte) : bytes :=
  let n := code c in
  if n =? 7 then "\a" else if n =? 8 then "\b" else if n =? 12 then "\f" else if n =? 10 then "\n"
  else if n =? 13 then "\r" else if n =? 9 then "\t" else if n =? 11 then "\v" else if n =? 92 then "\\"
  else if n =? 34 then ["\"%char; c] else if n =? 39 then "\'"
  else if special c then ["\"%char; octchar (Z.shiftr n 6); octchar (Z.shiftr n 3); octchar n]
  else [c].
Definition cescape (s : bytes) : bytes := s ≫= cescape_char.
Definition xescape_char (bad : bytes) (c : byte) : bytes :=
  if special c || (c ==c "\") || in_set bad c then ["\"%char; "x"%char; hexchar (Z.shiftr (code c) 4); hexchar (code c)] else [c].
Definition xescape (s bad : bytes) : bytes := s ≫= xescape_char bad.

(** The characters that stand for themselves or another one behind a backslash. *)
Definition simple_escape (c : byte) : option byte :=
  let n := code c in
  if n =? 97 then Some (chr 7) else if n =? 98 then Some (chr 8) else if n =? 102 then Some (chr 12)
  else if n =? 110 then Some (chr 10) else if n =? 114 then Some (chr 13) else if n =? 116 then Some (chr 9)
  else if n =? 118 then Some (chr 11) else if n =? 92 then Some c else if n =? 34 then Some c else if n =? 39 then Some c
  else if n =? 115 then Some " "%char else None.
Definition is_octal (c : byte) : bool := (48 <=? code c) && (code c <=? 55).
(** [f] is the rest of the string and [n] what is left of the length. *)
Fixpoint cunescape_loop (fuel n : nat) (f : bytes) : bytes :=
  match n, fuel with
  | O, _ | _, O => []
  | _, S fuel' =>
      let c := nth 0 f nul in
      if negb (c ==c "\") then c :: cunescape_loop fuel' (n - 1) (drop 1 f)
      else
        let f := drop 1 f in
        let c := nth 0 f nul in
        match simple_escape c with
        | Some d => d :: cunescape_loop fuel' (n - 2) (drop 1 f)
        | None =>
            if c ==c "x" then
              let a := unhexchar (nth 1 f nul) in
              let b := unhexchar (nth 2 f nul) in
              if (a <? 0) || (b <? 0) then "\"%char :: "x"%char :: cunescape_loop fuel' (n - 2) (drop 1 f)
              else chr (Z.lor (Z.shiftl a 4) b) :: cunescape_loop fuel' (n - 4) (drop 3 f)
            else if is_octal c then
              let a := unoctchar c in
              let b := unoctchar (nth 1 f nul) in
              let d := unoctchar (nth 2 f nul) in
              if (a <? 0) || (b <? 0) || (d <? 0) then "\"%char :: c :: cunescape_loop fuel' (n - 2) (drop 1 f)
              else chr (Z.lor (Z.lor (Z.shiftl a 6) (Z.shiftl b 3)) d) :: cunescape_loop fuel' (n - 4) (drop 3 f)
            else if c ==c nul then ["\"%char]
            else "\"%char :: c :: cunescape_loop fuel' (n - 2) (drop 1 f)
        end
  end.
Definition cunescape_length_with_prefix (s : bytes) (length : nat) (prefix : option bytes) : bytes :=
  default [] prefix ++ cunescape_loop length length s.
Definition cunescape_length (s : bytes) (length : nat) : bytes := cunescape_length_with_prefix s length None.
Definition cunescape (s : bytes) : bytes := cunescape_length s (length s).

(** ** The inverse *)

Lemma cunescape_cescape_char c rest fuel :
  c <> nul ->
  cunescape_loop (S fuel) (length (cescape_char c ++ rest)) (cescape_char c ++ rest) = c :: cunescape_loop fuel (length rest) rest.
Proof.
  intros Hc. destruct c as [[] [] [] [] [] [] [] []]; try done; destruct rest; reflexivity.
Qed.
Definition hex_escape (c : byte) : bytes := ["\"%char; "x"%char; hexchar (Z.shiftr (code c) 4); hexchar (code c)].
Lemma cunescape_hex c rest fuel :
  cunescape_loop (S fuel) (length (hex_escape c ++ rest)) (hex_escape c ++ rest) = c :: cunescape_loop fuel (length rest) rest.
Proof. destruct c as [[] [] [] [] [] [] [] []]; destruct rest; reflexivity. Qed.
Lemma cunescape_plain c rest fuel :
  c <> "\"%char -> cunescape_loop (S fuel) (length (c :: rest)) (c :: rest) = c :: cunescape_loop fuel (length rest) rest.
Proof.
  intros Hc. cbn [length cunescape_loop nth drop]. rewrite (proj2 (Ascii.eqb_neq _ _) Hc). cbn [negb]. simpl. by rewrite Nat.sub_0_r.
Qed.
Lemma cunescape_escaped (esc : byte -> bytes) s fuel :
  (forall c rest fuel, c <> nul -> cunescape_loop (S fuel) (length (esc c ++ rest)) (esc c ++ rest) = c :: cunescape_loop fuel (length rest) rest) ->
  cstr s -> (length s <= fuel)%nat -> cunescape_loop fuel (length (s ≫= esc)) (s ≫= esc) = s.
Proof.
  intros He Hs. revert fuel. induction Hs as [|c s Hc Hs IH]; intros fuel Hf; [by destruct fuel|].
  destruct fuel as [|fuel]; simpl in Hf; [lia|]. rewrite bind_cons, He by done. f_equal. apply IH. lia.
Qed.
Lemma escape_length (esc : byte -> bytes) s : (forall c, (1 <= length (esc c))%nat) -> (length s <= length (s ≫= esc))%nat.
Proof. intros H. induction s as [|c s IH]; [done|]. rewrite bind_cons, length_app. simpl. pose proof (H c). lia. Qed.

(** Escaping is undone by [cunescape], whichever of the two ways a string
    was escaped and whatever further characters were escaped. *)
Lemma cunescape_inverse s bad : cstr s -> cunescape (cescape s) = s /\ cunescape (xescape s bad) = s.
Proof.
  intros Hs. unfold cunescape, cunescape_length, cunescape_length_with_prefix. cbn [default app]. split.
  - apply cunescape_escaped; [apply cunescape_cescape_char|done|]. apply escape_length. intros c. unfold cescape_char. cbv zeta.
    repeat match goal with |- context [if ?b then _ else _] => destruct b end; simpl; lia.
  - apply cunescape_escaped; [|done|].
    + intros c rest fuel Hc. unfold xescape_char. fold (hex_escape c).
      destruct (special c || (c ==c "\") || in_set bad c) eqn:E; [apply cunescape_hex|]. cbn [app]. apply cunescape_plain.
      intros ->. by rewrite orb_true_r in E.
    + apply escape_length. intros c. unfold xescape_char. destruct (_ || _); simpl; lia.
Qed.
Lemma cunescape_inverse_witness :
  let s : bytes := "a\b" ++ [newline; chr 200] ++ "x" in
  cstr s /\ cescape s = "a\\b\n\310x" /\ cunescape (cescape s) = s /\ cunescape (xescape s " ") = s.
Proof.
  intros s. assert (cstr s) as Hs by (repeat constructor; done). split; [exact Hs|]. split; [by vm_compute|].
  exact (cunescape_inverse s " " Hs).
Defined.

(** * Words *)

(** The length up to a character of [reject] that is not escaped; in front of
    a backslash at the end of the string. *)
Fixpoint cspn_loop (reject : bytes) (escaped : bool) (s : bytes) : nat * bool :=
  match s with
  | [] => (0%nat, escaped)
  | c :: s' =>
      if escaped then let '(n, e) := cspn_loop reject false s' in (S n, e)
      else if c ==c "\" then let '(n, e) := cspn_loop reject true s' in (S n, e)
      else if one_of reject c then (0%nat, false)
      else let '(n, e) := cspn_loop reject false s' in (S n, e)
  end.
Definition strcspn_escaped (s reject : bytes) : nat :=
  let '(n, escaped) := cspn_loop reject false s in if escaped then (n - 1)%nat else n.
(** A result, a failed assertion, or a loop that does not end. *)
Inductive outcome (A : Type) := Done (x : A) | Aborts | No_end.
Arguments Done {A}. Arguments Aborts {A}. Arguments No_end {A}.
(** The word, if there is one, and the new state; the word is what the state
    has at [current], with its length. *)
Definition split (state separator : bytes) (quoted : bool) : outcome (option bytes * bytes) :=
  match state with
  | [] => Done (None, [])
  | _ =>
      match skip_set separator state with
      | [] => Done (None, [])
      | (c :: s) as current =>
          if quoted && one_of QUOTES c then
            let l := strcspn_escaped s [c] in
            if (nth l s nul ==c nul) || (negb (nth (l + 1) s nul ==c nul) && negb (in_set separator (nth (l + 1) s nul))) then Done (None, current)
            else if nth l s nul ==c c then Done (Some (take l s), drop (l + 1) s)
            else Aborts
          else
            let l := if quoted then strcspn_escaped current separator else length (fst (until_set separator current)) in
            Done (Some (take l current), drop l current)
      end
  end.
(** The words of a [FOREACH_WORD] loop; the fuel is more than the length of
    the string. *)
Fixpoint words_loop (fuel : nat) (separator : bytes) (quoted : bool) (state : bytes) : outcome (list bytes) :=
  match split state separator quoted with
  | Aborts => Aborts
  | No_end => No_end
  | Done (None, _) => Done []
  | Done (Some w, state) =>
      match fuel with
      | O => No_end
      | S fuel' =>
          match words_loop fuel' separator quoted state with
          | Done ws => Done (w :: ws)
          | r => r
          end
      end
  end.
Definition FOREACH_WORD_SEPARATOR (s separator : bytes) : outcome (list bytes) := words_loop (S (length s)) separator false s.
Definition FOREACH_WORD_QUOTED (s : bytes) : outcome (list bytes) := words_loop (S (length s)) WHITESPACE true s.

(** ** The loop ends, but for a backslash at the end *)

Definition ends_in_backslash (s : bytes) : Prop := last s = Some "\"%char.
Lemma suffix_last (s t : bytes) x : s `suffix_of` t -> last s = Some x -> last t = Some x.
Proof. intros [u ->] H. by rewrite last_app, H. Qed.
Lemma skip_set_suffix set s : skip_set set s `suffix_of` s.
Proof. induction s as [|c s IH]; [done|]. simpl. destruct (one_of set c); [by apply suffix_cons_r|done]. Qed.
Lemma skip_set_head set s : match skip_set set s with c :: _ => one_of set c = false | [] => True end.
Proof. induction s as [|c s IH]; [done|]. simpl. by destruct (one_of set c) eqn:E. Qed.
(** The flag is set behind a backslash only. *)
Lemma cspn_escaped reject e s : snd (cspn_loop reject e s) = true -> (s = [] /\ e = true) \/ ends_in_backslash s.
Proof.
  revert e. induction s as [|c s IH]; intros e; [by left|]. cbn [cspn_loop]. intros H. right. unfold ends_in_backslash in *.
  assert (forall e', snd (cspn_loop reject e' s) = true -> (e' = true -> c = "\"%char) -> last (c :: s) = Some "\"%char) as Hgo.
  { intros e' He Hc. destruct (IH e' He) as [[-> ->]|Hl]; [by rewrite Hc|]. destruct s; [done|]. exact Hl. }
  destruct e.
  - apply (Hgo false); [|done]. by destruct (cspn_loop reject false s).
  - destruct (eqbP c "\") as [->|]; [apply (Hgo true); [by destruct (cspn_loop reject true s)|done]|].
    destruct (one_of reject c); [done|]. apply (Hgo false); [|done]. by destruct (cspn_loop reject false s).
Qed.
Lemma cspn_stop reject e s n :
  cspn_loop reject e s = (n, false) -> (n <= length s)%nat /\ (forall c, s !! n = Some c -> one_of reject c = true).
Proof.
  revert e n. induction s as [|c s IH]; intros e n; [by intros [= <- _]|]. cbn [cspn_loop].
  assert (forall e', (let '(n, f) := cspn_loop reject e' s in (S n, f)) = (n, false) ->
    (n <= length (c :: s))%nat /\ (forall d, (c :: s) !! n = Some d -> one_of reject d = true)) as Hgo.
  { intros e'. specialize (IH e'). destruct (cspn_loop reject e' s) as [m f]. intros [= <- ->]. destruct (IH m eq_refl). simpl. split; [lia|done]. }
  destruct e; [apply Hgo|]. destruct (c ==c "\"); [apply Hgo|]. destruct (one_of reject c) eqn:E; [|apply Hgo].
  intros [= <-]. split; [simpl; lia|]. by intros d [= <-].
Qed.
Lemma strcspn_exact s reject : ~ ends_in_backslash s -> cspn_loop reject false s = (strcspn_escaped s reject, false).
Proof.
  intros He. unfold strcspn_escaped. pose proof (cspn_escaped reject false s) as H. destruct (cspn_loop reject false s) as [n []]; [|done].
  destruct (H eq_refl) as [[_ ?]|?]; done.
Qed.
Lemma strcspn_positive c s reject : ~ ends_in_backslash (c :: s) -> one_of reject c = false -> (0 < strcspn_escaped (c :: s) reject)%nat.
Proof.
  intros He Hc. pose proof (strcspn_exact _ reject He) as H. cbn [cspn_loop] in H. rewrite Hc in H.
  destruct (c ==c "\"); destruct (cspn_loop _ _ s); injection H as <- _; lia.
Qed.
(** A step consumes something and leaves a rest of the string. *)
Lemma split_ends state separator :
  ~ ends_in_backslash state ->
  match split state separator true with
  | Done (Some _, state') => state' `suffix_of` state /\ (length state' < length state)%nat
  | Done (None, _) => True
  | _ => False
  end.
Proof.
  intros He. unfold split. destruct state as [|c0 state]; [done|]. set (st := c0 :: state) in *. clearbody st.
  pose proof (skip_set_suffix separator st) as Hsuf. pose proof (skip_set_head separator st) as Hh.
  destruct (skip_set separator st) as [|c s] eqn:E; [done|]. cbn [andb].
  assert (~ ends_in_backslash (c :: s)) as He' by (intros Hl; apply He; by eapply suffix_last).
  pose proof (suffix_length _ _ Hsuf) as Hlen. simpl in Hlen. destruct (one_of QUOTES c) eqn:Hq.
  - assert (~ ends_in_backslash s) as Hes by (intros Hl; apply He'; unfold ends_in_backslash in *; by destruct s).
    destruct (cspn_stop _ _ _ _ (strcspn_exact s [c] Hes)) as [Hn Hstop]. cbv zeta. set (l := strcspn_escaped s [c]) in *.
    destruct (_ || _) eqn:Eg; [done|]. apply orb_false_iff in Eg as [Eg _]. destruct (s !! l) as [d|] eqn:El.
    + rewrite (nth_lookup_Some _ _ _ _ El) in *. specialize (Hstop d eq_refl). unfold one_of in Hstop. simpl in Hstop. rewrite orb_false_r in Hstop.
      rewrite Hstop. split; [|rewrite length_drop; lia]. etrans; [|exact Hsuf]. exists (c :: take (l + 1) s). by rewrite <- app_comm_cons, take_drop.
    + apply lookup_ge_None in El. rewrite nth_overflow in Eg by lia. done.
  - cbv beta iota zeta. pose proof (strcspn_positive c s separator He' Hh) as Hpos. set (l := strcspn_escaped (c :: s) separator) in *. split.
    + etrans; [|exact Hsuf]. exists (take l (c :: s)). by rewrite take_drop.
    + rewrite length_drop. simpl. lia.
Qed.
Lemma words_loop_ends fuel s separator : ~ ends_in_backslash s -> (length s <= fuel)%nat -> exists ws, words_loop fuel separator true s = Done ws.
Proof.
  revert s. induction fuel as [|fuel IH]; intros s He Hf; pose proof (split_ends s separator He) as H; cbn [words_loop].
  - destruct s; [by exists []|simpl in Hf; lia].
  - destruct (split s separator true) as [[[w|] s']| |]; [|by exists []|done..]. destruct H as [Hs Hl].
    destruct (IH s') as [ws Hws]; [intros Hb; apply He; by eapply suffix_last|lia|]. rewrite Hws. by eexists.
Qed.
(** The words of a line that does not end in a backslash are found. *)
Lemma foreach_word_quoted_ends s : ~ ends_in_backslash s -> exists ws, FOREACH_WORD_QUOTED s = Done ws.
Proof. intros H. apply words_loop_ends; [done|lia]. Qed.
(** With one, the loop goes on for ever with empty words, or in a quoted word
    the assertion fails. *)
Lemma trailing_backslash : FOREACH_WORD_QUOTED "quiet \" = No_end /\ FOREACH_WORD_QUOTED ("a=1 'b\" : bytes) = Aborts.
Proof. by split; vm_compute. Qed.
Lemma trailing_backslash_repeats : split "\" WHITESPACE true = Done (Some [], "\" : bytes).
Proof. by vm_compute. Qed.

(** * Other strings *)

(** At most [b] bytes of the suffix. *)
Definition strnappend (s suffix : option bytes) (b : nat) : bytes := default [] s ++ take b (default [] suffix).
Definition strappend (s suffix : option bytes) : bytes := strnappend s suffix (length (default [] suffix)).
Definition strjoin (x : bytes) (ts : list bytes) : bytes := x ++ mjoin ts.
Definition strrep (s : bytes) (n : nat) : bytes := mjoin (replicate n s).
Definition strshorten (s : bytes) (l : nat) : bytes := if (l <? length s)%nat then take l s else s.
Definition strstrip (s : bytes) : bytes := reverse (skip_set WHITESPACE (reverse (skip_set WHITESPACE s))).
Definition delete_chars (s bad : bytes) : bytes := filter (fun c => one_of bad c = false) s.
Definition chars_intersect (a b : bytes) : bool := existsb (one_of b) a.
Definition unquote (s quotes : bytes) : bytes :=
  if (length s <? 2)%nat then s
  else if one_of quotes (nth 0 s nul) && (nth (length s - 1) s nul ==c nth 0 s nul) then take (length s - 2) (drop 1 s)
  else s.
Definition normalize_env_assignment (s : bytes) : bytes :=
  match split_chr s "=" with
  | (_, None) => strstrip s
  | (name, Some p) => strstrip name ++ "="%char :: unquote (strstrip p) QUOTES
  end.
(** [None] when the encoded name does not fit. *)
Definition tag_to_udev_node (tagvalue by_ : bytes) : option bytes :=
  let u := unquote tagvalue QUOTES in
  let '(t, r) := encode_devnode_name u (length u * 4 + 1) in
  if r <? 0 then None else Some (("/dev/disk/by-" : bytes) ++ by_ ++ slash :: t).
Definition fstab_node_to_udev_node (p : bytes) : option bytes :=
  if startswith p "LABEL=" is Some t then tag_to_udev_node t "label"
  else if startswith p "UUID=" is Some t then tag_to_udev_node t "uuid"
  else if startswith p "PARTUUID=" is Some t then tag_to_udev_node t "partuuid"
  else if startswith p "PARTLABEL=" is Some t then tag_to_udev_node t "partlabel"
  else Some p.
Definition is_device_path (path : bytes) : bool :=
  bool_decide (is_Some (path_startswith path "/dev/")) || bool_decide (is_Some (path_startswith path "/sys/")).
Definition ignore_file (filename : bytes) : bool :=
  if bool_decide (is_Some (endswith filename "~")) then true else ignore_file_allow_backup filename.
Definition dirent_is_file (de : dirent) : bool :=
  if ignore_file (d_name de) then false
  else bool_decide (d_type de = DT_REG \/ d_type de = DT_LNK \/ d_type de = DT_UNKNOWN).
(** The strings of a table up to an empty one. *)
Fixpoint nulstr_contains (nulstr : list bytes) (needle : bytes) : bool :=
  match nulstr with
  | [] | [] :: _ => false
  | i :: nulstr' => bool_decide (i = needle) || nulstr_contains nulstr' needle
  end.
End Util.
