(* ===== verification/Control.v ===== *)
(** The library context (lib/libudev.c), the messages of the control socket
    (src/core/udev-ctrl.c) and what the daemon does with them and with the
    kernel command line (src/udevd/udevd.c). *)

From Stdlib Require Import ZArith Lia Ascii.
From stdpp Require Import prelude gmap strings.
From S2P Require Import Prelude System Utils Strings Encode UdevList Device BuiltinPath Util MonitorFilter Udevd.
Import Strxcpyx Entries Scan.
#[local] Abbreviation UDEVRUNDIR := Device.UDEVRUNDIR.

(** * The library context *)

Module Context.

(** [struct udev] without the reference count and the pointers of the user. *)
Record udev := mk_udev { properties_list : list entry; log_priority : Z }.
#[export] Instance udev_eta : Eta udev := fun x => mk_udev (properties_list x) (log_priority x).

Definition udev_add_property (u : udev) (key : bytes) (value : option bytes) : udev :=
  match value with
  | None => u <| properties_list := spec_delete (properties_list u) key |>
  | Some v => u <| properties_list := spec_add true (properties_list u) key (Some v) |>
  end.
Definition udev_set_log_priority (u : udev) (priority : Z) : udev :=
  udev_add_property (u <| log_priority := priority |>) "UDEV_LOG" (Some (fmt_u32 priority)).

(** The trailing white space is cut; the text is not all white space. *)
Definition cut_space (s : bytes) : bytes := reverse (skip_space (reverse s)).
(** A line of the configuration file: the key and the value. *)
Definition config_line (line : bytes) : option (bytes * bytes) :=
  match skip_space line with
  | [] => None
  | (c :: _) as key =>
      if c ==c "#" then None
      else
        match split_chr key "=" with
        | (_, None) => None
        | (key, Some val) =>
            let val := skip_space val in
            match key with
            | [] => None
            | _ =>
                let key := cut_space key in
                match val with
                | [] => None
                | _ =>
                    match cut_space val with
                    | [] => None
                    | (q :: rest) as val =>
                        if (q ==c "034") || (q ==c "'") then
                          if List.last val nul ==c q then Some (key, removelast rest) else None
                        else Some (key, val)
                    end
                end
            end
        end
  end.
Fixpoint config_loop (fuel : nat) (f : bytes) (u : udev) : udev :=
  match fuel with
  | O => u
  | S fuel' =>
      match fgets UTIL_LINE_SIZE f with
      | None => u
      | Some (line, f) =>
          let u := match config_line line with
                   | Some (key, val) => if bool_decide (key = ("udev_log" : bytes)) then udev_set_log_priority u (util_log_priority val) else u
                   | None => u
                   end in
          config_loop fuel' f u
      end
  end.
(** The file udev.conf, if it can be read, and the variable UDEV_LOG. *)
Definition udev_new (conf : option bytes) (env : option bytes) : udev :=
  let u := mk_udev [] LOG_INFO in
  let u := match conf with Some f => config_loop (length f) f u | None => u end in
  match env with Some e => udev_set_log_priority u (util_log_priority e) | None => u end.

Example udev_new_runs :
  let conf : bytes := "# comment" ++ [newline] ++ " udev_log = 'debug' " ++ [newline] ++ "other=1" ++ [newline] in
  udev_new (Some conf) None = mk_udev [mk_entry "UDEV_LOG" (Some ("7" : bytes)) 0] LOG_DEBUG.
Proof. by vm_compute. Qed.
End Context.

(** * Control messages *)

Module Ctrl.
Import Context.

Definition UDEV_CTRL_MAGIC : Z := 0xdead1dea.
Definition UDEV_CTRL_SET_LOG_LEVEL : Z := 1.
Definition UDEV_CTRL_STOP_EXEC_QUEUE : Z := 2.
Definition UDEV_CTRL_START_EXEC_QUEUE : Z := 3.
Definition UDEV_CTRL_RELOAD : Z := 4.
Definition UDEV_CTRL_SET_ENV : Z := 5.
Definition UDEV_CTRL_SET_CHILDREN_MAX : Z := 6.
Definition UDEV_CTRL_PING : Z := 7.
Definition UDEV_CTRL_EXIT : Z := 8.

(** [struct udev_ctrl_msg_wire]; the union is its bytes. *)
Record wire := mk_wire { version : bytes; magic : Z; type : Z; union : bytes }.
Definition WIRE_SIZE : nat := 280.
Definition zeros (n : nat) : bytes := replicate n nul.
(** A field of [n] bytes that starts with [s]. *)
Definition field (n : nat) (s : bytes) : bytes := take n (s ++ zeros n).
Definition wire_bytes (w : wire) : bytes :=
  field 16 (version w) ++ le_bytes 4 (magic w) ++ le_bytes 4 (type w) ++ field 256 (union w).
(** What [recvmsg] stores in a struct of zeros. *)
Definition wire_of (data : bytes) : wire :=
  let s := field WIRE_SIZE data in
  mk_wire (take 16 s) (le_val (take 4 (drop 16 s))) (le_val (take 4 (drop 20 s))) (take 256 (drop 24 s)).
Definition intval (w : wire) : Z := s32 (le_val (take 4 (union w))).
(** The string in [buf]; without a terminator it would be read on behind the
    message. *)
Definition buf (w : wire) : option bytes := match split_chr (union w) nul with (s, Some _) => Some s | _ => None end.

(** ** Sending *)

Definition EINTR : Z := 4.
Definition EIO : Z := 5.
Definition ETIMEDOUT : Z := 110.
Inductive poll_result := Poll_error (errno : Z) | Poll_timeout | Poll_ready (pollerr : bool).
(** [None]: [poll] was interrupted all the time. *)
Fixpoint poll_loop (polls : list poll_result) : option Z :=
  match polls with
  | [] => None
  | Poll_error e :: polls' => if e =? EINTR then poll_loop polls' else Some (- e)
  | Poll_timeout :: _ => Some (- ETIMEDOUT)
  | Poll_ready pollerr :: _ => Some (if (pollerr : bool) then - EIO else 0)
  end.
Section send.
(** [VERSION] of the build. *)
Context (VERSION : bytes).
Definition ctrl_msg_wire (type : Z) (intval : Z) (buf : option bytes) : wire :=
  mk_wire (("udev-" : bytes) ++ VERSION) UDEV_CTRL_MAGIC type
    (match buf with Some b => fst (strscpy 256 b) | None => le_bytes 4 (u32 intval) end).
(** The results of [connect] (used when the socket is not connected) and of
    [send], and what [poll] gives: the result, whether the socket is
    connected, and the message that was sent. *)
Definition ctrl_send (connected : bool) (type intval : Z) (buf : option bytes) (conn sent : option Z) (polls : list poll_result) :
    option Z * bool * option bytes :=
  match (if connected then None else conn) with
  | Some e => (Some (- e), connected, None)
  | None =>
      match sent with
      | Some e => (Some (- e), true, None)
      | None => (poll_loop polls, true, Some (wire_bytes (ctrl_msg_wire type intval buf)))
      end
  end.
(** The commands of udevadm control: type, number and string. *)
Inductive command :=
  | Set_log_level (priority : Z) | Stop_exec_queue | Start_exec_queue | Reload | Set_env (key : bytes)
  | Set_children_max (count : Z) | Ping | Exit.
Definition send_args (c : command) : Z * Z * option bytes :=
  match c with
  | Set_log_level priority => (UDEV_CTRL_SET_LOG_LEVEL, priority, None)
  | Stop_exec_queue => (UDEV_CTRL_STOP_EXEC_QUEUE, 0, None)
  | Start_exec_queue => (UDEV_CTRL_START_EXEC_QUEUE, 0, None)
  | Reload => (UDEV_CTRL_RELOAD, 0, None)
  | Set_env key => (UDEV_CTRL_SET_ENV, 0, Some key)
  | Set_children_max count => (UDEV_CTRL_SET_CHILDREN_MAX, count, None)
  | Ping => (UDEV_CTRL_PING, 0, None)
  | Exit => (UDEV_CTRL_EXIT, 0, None)
  end.
Definition udev_ctrl_send (c : command) (connected : bool) (conn sent : option Z) (polls : list poll_result) :=
  let '(type, intval, buf) := send_args c in ctrl_send connected type intval buf conn sent polls.
End send.

(** Binding the socket: the error of [bind] (tried again without the file
    when the address is in use) and of [listen]; the result, whether the socket
    is bound, and whether its file is removed by [udev_ctrl_cleanup]. *)
Definition EADDRINUSE : Z := 98.
Definition udev_ctrl_enable_receiving (bound cleanup_socket : bool) (bind1 bind2 listen : option Z) : Z * bool * bool :=
  if bound then (0, bound, cleanup_socket)
  else
    let err := match bind1 with Some e => if e =? EADDRINUSE then bind2 else bind1 | None => None end in
    match err with
    | Some e => (- e, bound, cleanup_socket)
    | None => match listen with Some e => (- e, bound, cleanup_socket) | None => (0, true, true) end
    end.

(** ** Receiving *)

(** A connection: its references, and whether its socket is open; with it the
    references of the socket it came from. *)
Record connection := mk_conn { c_refs : Z; c_open : bool; u_refs : Z }.
Definition udev_ctrl_connection_ref (c : connection) : connection := mk_conn (c_refs c + 1) (c_open c) (u_refs c).
Definition udev_ctrl_connection_unref (c : connection) : connection :=
  if 0 <? c_refs c - 1 then mk_conn (c_refs c - 1) (c_open c) (u_refs c) else mk_conn 0 false (u_refs c - 1).
(** [accept4] and the user of the peer. *)
Definition udev_ctrl_get_connection (u_refs : Z) (accepted : bool) (uid : option Z) : option connection :=
  if negb accepted then None
  else match uid with
       | Some uid => if 0 <? uid then None else Some (mk_conn 1 true (u_refs + 1))
       | None => None
       end.
(** What the socket gives: the events of [poll] up to the one that ends the
    loop ([POLLIN] or not), the data with the user in the credentials. *)
Inductive wait_result := Wait_error | Wait_timeout | Wait_ready (pollin : bool).
Definition udev_ctrl_receive_msg (c : connection) (wait : wait_result) (data : option (bytes * option Z)) : option wire * connection :=
  let c := udev_ctrl_connection_ref c in
  let err := (None, udev_ctrl_connection_unref c) in
  match wait with
  | Wait_ready true =>
      match data with
      | None | Some (_, None) => err
      | Some (data, Some uid) =>
          if negb (uid =? 0) then err
          else
            let w := wire_of data in
            if negb (magic w =? UDEV_CTRL_MAGIC) then err else (Some w, c)
      end
  | _ => err
  end.
Definition udev_ctrl_msg_unref (c : connection) : connection := udev_ctrl_connection_unref c.

Definition get_number (t : Z) (w : wire) : Z := if type w =? t then intval w else -1.
Definition get_flag (t : Z) (w : wire) : Z := if type w =? t then 1 else -1.
Definition udev_ctrl_get_set_log_level : wire -> Z := get_number UDEV_CTRL_SET_LOG_LEVEL.
Definition udev_ctrl_get_stop_exec_queue : wire -> Z := get_flag UDEV_CTRL_STOP_EXEC_QUEUE.
Definition udev_ctrl_get_start_exec_queue : wire -> Z := get_flag UDEV_CTRL_START_EXEC_QUEUE.
Definition udev_ctrl_get_reload : wire -> Z := get_flag UDEV_CTRL_RELOAD.
Definition udev_ctrl_get_set_env (w : wire) : option (option bytes) := if type w =? UDEV_CTRL_SET_ENV then Some (buf w) else None.
Definition udev_ctrl_get_set_children_max : wire -> Z := get_number UDEV_CTRL_SET_CHILDREN_MAX.
Definition udev_ctrl_get_ping : wire -> Z := get_flag UDEV_CTRL_PING.
Definition udev_ctrl_get_exit : wire -> Z := get_flag UDEV_CTRL_EXIT.

(** ** The daemon *)

(** The daemon with its library context and the level of its log. *)
Record server := mk_server { s_daemon : Udevd.daemon; s_udev : udev; s_log : Z }.
Definition set_env (u : udev) (str : bytes) : udev :=
  match split_chr str "=" with
  | (key, Some []) => udev_add_property u key None
  | (key, Some val) => udev_add_property u key (Some val)
  | (_, None) => u
  end.
(** The part of the message that the daemon's queue sees. *)
Definition ctrl_of (w : wire) : Udevd.ctrl_msg :=
  Udevd.mk_ctrl (udev_ctrl_get_set_log_level w) (0 <? udev_ctrl_get_stop_exec_queue w) (0 <? udev_ctrl_get_start_exec_queue w)
    (0 <? udev_ctrl_get_reload w) (bool_decide (is_Some (udev_ctrl_get_set_env w))) (udev_ctrl_get_set_children_max w)
    (0 <? udev_ctrl_get_exit w).
(** [None] is a string that is read behind the message. *)
Definition handle_msg (w : wire) (s : server) : option server :=
  let level := udev_ctrl_get_set_log_level w in
  let u := if 0 <=? level then udev_set_log_priority (s_udev s) level else s_udev s in
  u ← match udev_ctrl_get_set_env w with None => Some u | Some str => set_env u <$> str end;
  Some (mk_server (Udevd.handle_ctrl_msg (ctrl_of w) (s_daemon s)) u (if 0 <=? level then level else s_log s)).
(** The whole function, with the connection it leaves. *)
Definition handle_ctrl_msg (s : server) (conn : option connection) (wait : wait_result) (data : option (bytes * option Z)) :
    option (server * option connection) :=
  match conn with
  | None => Some (s, None)
  | Some c =>
      match udev_ctrl_receive_msg c wait data with
      | (None, c) => Some (s, Some (udev_ctrl_connection_unref c))
      | (Some w, c) =>
          s ← handle_msg w s;
          let c := if 0 <? udev_ctrl_get_exit w then udev_ctrl_connection_ref c else c in
          Some (s, Some (udev_ctrl_connection_unref (udev_ctrl_msg_unref c)))
      end
  end.

(** * A command has its effect *)

Lemma field_length n s : length (field n s) = n.
Proof. unfold field, zeros. rewrite length_take, length_app, length_replicate. lia. Qed.
Lemma field_fits n s : (length s <= n)%nat -> field n s = s ++ zeros (n - length s).
Proof. intros H. unfold field, zeros. rewrite take_app, take_ge by lia. f_equal. rewrite take_replicate. f_equal. lia. Qed.
Lemma field_id s : field (length s) s = s.
Proof. rewrite field_fits, Nat.sub_diag by done. apply app_nil_r. Qed.
Lemma wire_length w : length (wire_bytes w) = WIRE_SIZE.
Proof. unfold wire_bytes. by rewrite !length_app, !field_length, !le_bytes_length. Qed.
(** What is received is what was sent. *)
Lemma wire_round_trip w :
  wire_of (wire_bytes w) = mk_wire (field 16 (version w)) (u32 (magic w)) (u32 (type w)) (field 256 (union w)).
Proof.
  assert (field WIRE_SIZE (wire_bytes w) = wire_bytes w) as E by (rewrite <- (wire_length w) at 1; apply field_id).
  unfold wire_of. rewrite E. unfold wire_bytes. f_equal.
  - by rewrite take_app_length' by (by rewrite field_length).
  - rewrite drop_app_length' by (by rewrite field_length). rewrite take_app_length' by (by rewrite le_bytes_length). by rewrite le_val_bytes.
  - change 20%nat with (16 + 4)%nat. rewrite <- drop_drop, !drop_app_length' by (by rewrite ?field_length, ?le_bytes_length).
    rewrite take_app_length' by (by rewrite le_bytes_length). by rewrite le_val_bytes.
  - change 24%nat with (16 + (4 + 4))%nat. rewrite <- !drop_drop, !drop_app_length' by (by rewrite ?field_length, ?le_bytes_length).
    apply take_ge. by rewrite field_length.
Qed.

Definition int_ok (z : Z) : Prop := - 2 ^ 31 <= z < 2 ^ 31.
Definition command_ok (c : command) : Prop :=
  match c with
  | Set_log_level i | Set_children_max i => int_ok i
  | Set_env key => cstr key
  | _ => True
  end.
Definition is_exit (c : command) : bool := match c with Exit => true | _ => false end.
#[local] Existing Instance Udevd.daemon_eta.
(** What a command means. *)
Definition command_effect (c : command) (s : server) : server :=
  let '(mk_server d u log) := s in
  match c with
  | Set_log_level i => if 0 <=? i then mk_server (Udevd.worker_kill d) (udev_set_log_priority u i) i else s
  | Stop_exec_queue => mk_server (d <| Udevd.stop_exec_queue := true |>) u log
  | Start_exec_queue => mk_server (d <| Udevd.stop_exec_queue := false |>) u log
  | Reload => mk_server (d <| Udevd.reload := true |>) u log
  | Set_env key => mk_server (Udevd.worker_kill d) (set_env u (take 255 key)) log
  | Set_children_max n => if 0 <=? n then mk_server (d <| Udevd.children_max := n |>) u log else s
  | Ping => s
  | Exit => mk_server (d <| Udevd.udev_exit := true |>) u log
  end.

Lemma int_round_trip VERSION t i : int_ok i -> intval (wire_of (wire_bytes (ctrl_msg_wire VERSION t i None))) = i.
Proof.
  intros Hi. rewrite wire_round_trip. unfold intval. cbn [union ctrl_msg_wire]. rewrite field_fits by (by rewrite le_bytes_length; lia).
  rewrite take_app_length' by (by rewrite le_bytes_length). rewrite le_val_bytes. unfold int_ok, swrap, wrap in *.
  rewrite Zmod_mod, Zplus_mod_idemp_l, Z.mod_small by lia. lia.
Qed.
Lemma buf_round_trip VERSION t i key :
  cstr key -> buf (wire_of (wire_bytes (ctrl_msg_wire VERSION t i (Some key)))) = Some (take 255 key).
Proof.
  intros Hk. rewrite wire_round_trip. unfold buf. cbn [union ctrl_msg_wire].
  change (strscpy 256 key) with (strscpyl 256 [key]). rewrite strscpyl_truncates by lia. cbn [fst].
  unfold mjoin, list_join. rewrite app_nil_r, field_fits by (rewrite length_take; lia).
  replace (256 - length (take (256 - 1) key))%nat with (S (255 - length (take (256 - 1) key))) by (rewrite length_take; lia).
  unfold zeros. cbn [replicate]. rewrite split_chr_app; [done|]. intros Hn.
  assert (Forall (fun c => c <> nul) (take (256 - 1) key)) as Hf by (by apply Forall_take).
  rewrite Forall_forall in Hf. by apply (Hf _ Hn).
Qed.
Lemma getter_number VERSION t t' i b :
  int_ok i -> b = None -> u32 t = t ->
  get_number t' (wire_of (wire_bytes (ctrl_msg_wire VERSION t i b))) = if t =? t' then i else -1.
Proof.
  intros Hi -> Ht. unfold get_number. rewrite int_round_trip by done. rewrite wire_round_trip. cbn [type ctrl_msg_wire]. by rewrite Ht.
Qed.
Lemma wire_type VERSION t i b : u32 t = t -> type (wire_of (wire_bytes (ctrl_msg_wire VERSION t i b))) = t.
Proof. intros Ht. by rewrite wire_round_trip. Qed.

Lemma handle_command VERSION c s :
  command_ok c ->
  let '(t, i, b) := send_args c in
  handle_msg (wire_of (wire_bytes (ctrl_msg_wire VERSION t i b))) s = Some (command_effect c s) /\
  (0 <? udev_ctrl_get_exit (wire_of (wire_bytes (ctrl_msg_wire VERSION t i b)))) = is_exit c.
Proof.
  intros Hc. destruct (send_args c) as [[t i] b] eqn:Ea. set (w := wire_of _).
  assert (type w = t) as Ht by (apply wire_type; destruct c; injection Ea as <- _ _; done).
  assert (forall t', get_flag t' w = if t =? t' then 1 else -1) as Hf by (intros t'; unfold get_flag; by rewrite Ht).
  assert (forall t', get_number t' w = if t =? t' then intval w else -1) as Hn by (intros t'; unfold get_number; by rewrite Ht).
  unfold handle_msg, ctrl_of, udev_ctrl_get_set_log_level, udev_ctrl_get_stop_exec_queue, udev_ctrl_get_start_exec_queue,
    udev_ctrl_get_reload, udev_ctrl_get_set_children_max, udev_ctrl_get_exit, udev_ctrl_get_set_env.
  rewrite !Hf, !Hn, Ht.
  destruct s as [d u log], c; injection Ea as <- <- <-; cbn [Z.eqb UDEV_CTRL_SET_LOG_LEVEL UDEV_CTRL_STOP_EXEC_QUEUE
    UDEV_CTRL_START_EXEC_QUEUE UDEV_CTRL_RELOAD UDEV_CTRL_SET_ENV UDEV_CTRL_SET_CHILDREN_MAX UDEV_CTRL_PING UDEV_CTRL_EXIT Pos.eqb].
  - split; [|done]. subst w. rewrite int_round_trip by done. cbn [command_effect s_daemon s_udev s_log]. unfold Udevd.handle_ctrl_msg. simpl.
    by destruct (0 <=? priority).
  - done.
  - done.
  - done.
  - split; [|done]. subst w. by rewrite buf_round_trip.
  - split; [|done]. subst w. rewrite int_round_trip by done. cbn [command_effect s_daemon s_udev s_log]. unfold Udevd.handle_ctrl_msg. simpl.
    by destruct (0 <=? count).
  - done.
  - done.
Qed.

(** C5: a command that root sends to the control socket arrives as it was
    sent and has exactly its effect on the daemon, its log level and the
    properties for the programs it runs; the connection is closed after it,
    except that the command to exit keeps it open until the daemon ends. *)
Theorem control_command_handled VERSION c s polls u_refs :
  command_ok c -> 0 < u_refs ->
  exists data conn, udev_ctrl_send VERSION c true None None polls = (poll_loop polls, true, Some data) /\
    length data = WIRE_SIZE /\
    handle_ctrl_msg s (udev_ctrl_get_connection u_refs true (Some 0)) (Wait_ready true) (Some (data, Some 0)) =
      Some (command_effect c s, Some conn) /\
    c_open conn = is_exit c /\ Ctrl.u_refs conn = u_refs + (if is_exit c then 1 else 0).
Proof.
  intros Hc Hu. pose proof (handle_command VERSION c s Hc) as H. unfold udev_ctrl_send. destruct (send_args c) as [[t i] b].
  destruct H as [Hh He]. eexists _, _. split; [done|]. split; [apply wire_length|].
  unfold handle_ctrl_msg, udev_ctrl_receive_msg. cbn [udev_ctrl_get_connection negb Z.ltb Z.compare Z.eqb].
  assert (magic (wire_of (wire_bytes (ctrl_msg_wire VERSION t i b))) = UDEV_CTRL_MAGIC) as -> by (by rewrite wire_round_trip).
  rewrite Z.eqb_refl. cbn [negb]. rewrite Hh. cbn [mbind option_bind]. rewrite He. split; [done|].
  destruct (is_exit c); (split; [done|simpl; lia]).
Qed.

Lemma control_command_handled_witness :
  let s := mk_server (Udevd.mk_daemon [] [] 0 8 false false false 0 []) (mk_udev [] 6) 6 in
  exists data conn, udev_ctrl_send "214.4" (Set_env "A=b") true None None [Poll_error EINTR; Poll_ready false] = (Some 0, true, Some data) /\
    handle_ctrl_msg s (udev_ctrl_get_connection 1 true (Some 0)) (Wait_ready true) (Some (data, Some 0)) =
      Some (mk_server (s_daemon s) (mk_udev [mk_entry "A" (Some ("b" : bytes)) 0] 6) 6, Some conn) /\ c_open conn = false.
Proof.
  intros s. destruct (control_command_handled "214.4" (Set_env "A=b") s [Poll_error EINTR; Poll_ready false] 1) as (data & conn & H1 & _ & H2 & H3 & _);
    [repeat constructor; done|done|]. exists data, conn. split_and!; [exact H1|rewrite H2; by vm_compute|exact H3].
Defined.

(** Another user changes nothing, neither as the peer of the connection nor
    as the sender of the message; and the connection is closed. *)
Lemma other_user_ignored s u_refs uid any (data : option bytes) :
  uid <> 0 -> 0 <= uid ->
  handle_ctrl_msg s (udev_ctrl_get_connection u_refs true (Some uid)) (Wait_ready true) any = Some (s, None) /\
  handle_ctrl_msg s (udev_ctrl_get_connection u_refs true (Some 0)) (Wait_ready true) ((fun d => (d, Some uid)) <$> data) =
    Some (s, Some (mk_conn 0 false u_refs)).
Proof.
  intros Hu Hp. unfold udev_ctrl_get_connection. cbn [negb]. rewrite (proj2 (Z.ltb_lt 0 uid)) by lia. split; [done|].
  cbn [Z.ltb Z.compare handle_ctrl_msg]. unfold udev_ctrl_receive_msg.
  destruct data as [data|]; cbn [fmap option_fmap option_map].
  - rewrite (proj2 (Z.eqb_neq uid 0)) by done. unfold udev_ctrl_connection_unref. simpl. do 4 f_equal. lia.
  - unfold udev_ctrl_connection_unref. simpl. do 4 f_equal. lia.
Qed.
(** A message whose string fills its field is read on behind it. *)
Lemma unterminated_read_on :
  handle_msg (mk_wire [] UDEV_CTRL_MAGIC UDEV_CTRL_SET_ENV (replicate 256 "x"%char))
    (mk_server (Udevd.mk_daemon [] [] 0 8 false false false 0 []) (mk_udev [] 6) 6) = None.
Proof. by vm_compute. Qed.
End Ctrl.

(** * The queue as a program sees it (lib/libudev-queue.c) *)

Module Queue.

(** The descriptor, which is -1 before it is asked for.  [access] tells
    whether a file is there. *)
Section queue.
Context (access : bytes -> bool).
Definition QUEUE_PATH : bytes := UDEVRUNDIR ++ "/queue".
Definition udev_queue_get_udev_is_active : bool := access (UDEVRUNDIR ++ "/control").
Definition udev_queue_get_queue_is_empty : bool := negb (access QUEUE_PATH).
(** The deprecated questions are the same. *)
Definition udev_queue_get_seqnum_sequence_is_finished (start end_ : Z) : bool := udev_queue_get_queue_is_empty.
Definition udev_queue_get_seqnum_is_finished (seqnum : Z) : bool := udev_queue_get_queue_is_empty.
(** The results of [inotify_init1] (a descriptor or errno) and of
    [inotify_add_watch]; the answer and the descriptor that is kept. *)
Definition udev_queue_get_fd (fd : Z) (init : Z + Z) (watch : option Z) : Z * Z :=
  if 0 <=? fd then (fd, fd)
  else
    match init with
    | inl e => (- e, fd)
    | inr new => match watch with Some e => (- e, fd) | None => (new, new) end
    end.
Definition udev_queue_flush (fd : Z) (flush_fd : Z -> Z) : Z := if fd <? 0 then - Util.EINVAL else flush_fd fd.
End queue.
(** A descriptor that was given is given again; a failure keeps none. *)
Lemma queue_fd_kept fd init watch init' watch' :
  fd < 0 -> match init with inl e => 0 < e | inr new => 0 <= new end -> match watch with Some e => 0 < e | None => True end ->
  let '(r, fd') := udev_queue_get_fd fd init watch in
  if 0 <=? r then udev_queue_get_fd fd' init' watch' = (r, fd') else fd' = fd.
Proof.
  intros Hfd Hi Hw. unfold udev_queue_get_fd. rewrite (proj2 (Z.leb_gt 0 fd)) by done. destruct init as [e|new].
  - by rewrite (proj2 (Z.leb_gt 0 (- e))) by lia.
  - destruct watch as [e|]; [by rewrite (proj2 (Z.leb_gt 0 (- e))) by lia|]. by rewrite !(proj2 (Z.leb_le 0 new)).
Qed.
End Queue.

(** * Options of the daemon *)

Module Options.
Import Context Util.

Definition USEC_PER_SEC : Z := 1000000.
(** The static variables that the options set, with the context, the level of
    the log and the flags of the command line. *)
Record options := mk_options {
  o_children_max : Z; o_exec_delay : Z; o_event_timeout_usec : Z;
  o_udev : udev; o_max_level : Z; o_debug : bool; o_daemonize : bool; o_resolve_names : Z }.
#[export] Instance options_eta : Eta options := fun x => mk_options
  (o_children_max x) (o_exec_delay x) (o_event_timeout_usec x) (o_udev x) (o_max_level x) (o_debug x) (o_daemonize x) (o_resolve_names x).
Definition default_options (u : udev) : options := mk_options 0 0 (60 * USEC_PER_SEC) u (log_priority u) false false 1.

(** [strtoul] of an option, as an [int] and in microseconds. *)
Definition number (s : bytes) : Z := fst (strtoul_prefix 0 s).
Definition usec (s : bytes) : Z := u64 (number s * USEC_PER_SEC).

(** shared/fileio.c: the first line without its end, with the result 0, or a
    negative error. *)
Definition FILE_LINE_MAX : nat := Z.to_nat 2048.
Definition one_line_file (file : Z + bytes) : Z * option bytes :=
  match file with
  | inl e => (- e, None)
  | inr f => (0, Some (fst (until_set NEWLINE (match fgets FILE_LINE_MAX f with Some (t, _) => t | None => [] end))))
  end.

Definition cmdline_word (o : options) (opt : bytes) : options :=
  if startswith opt "udev.log-priority=" is Some _ then
    let prio := util_log_priority (drop 18 opt) in
    if prio <? 0 then o else o <| o_max_level := prio |> <| o_udev := udev_set_log_priority (o_udev o) prio |>
  else if startswith opt "udev.children-max=" is Some _ then o <| o_children_max := s32 (number (drop 18 opt)) |>
  else if startswith opt "udev.exec-delay=" is Some _ then o <| o_exec_delay := s32 (number (drop 16 opt)) |>
  else if startswith opt "udev.event-timeout=" is Some _ then o <| o_event_timeout_usec := usec (drop 16 opt) |>
  else o.
Definition kernel_cmdline_options (file : Z + bytes) (o : options) : outcome options :=
  let '(r, line) := one_line_file file in
  if r <=? 0 then Done o
  else
    match FOREACH_WORD_QUOTED (default [] line) with
    | Done ws => Done (foldl cmdline_word o ws)
    | Aborts => Aborts
    | No_end => No_end
    end.

(** The options of [getopt_long] with their arguments; [None] when the
    daemon exits. *)
Definition main_option (o : options) (arg : byte * bytes) : option options :=
  let '(c, optarg) := arg in
  if c ==c "d" then Some (o <| o_daemonize := true |>)
  else if c ==c "c" then Some (o <| o_children_max := s32 (number optarg) |>)
  else if c ==c "e" then Some (o <| o_exec_delay := s32 (number optarg) |>)
  else if c ==c "t" then Some (o <| o_event_timeout_usec := usec optarg |>)
  else if c ==c "D" then Some (o <| o_debug := true |> <| o_max_level := LOG_DEBUG |> <| o_udev := udev_set_log_priority (o_udev o) LOG_DEBUG |>)
  else if c ==c "N" then
    if bool_decide (optarg = ("early" : bytes)) then Some (o <| o_resolve_names := 1 |>)
    else if bool_decide (optarg = ("late" : bytes)) then Some (o <| o_resolve_names := 0 |>)
    else if bool_decide (optarg = ("never" : bytes)) then Some (o <| o_resolve_names := -1 |>)
    else None
  else None.
Fixpoint option_loop (o : options) (args : list (byte * bytes)) : option options :=
  match args with [] => Some o | a :: args' => o ← main_option o a; option_loop o args' end.
(** The number of workers when no option gives one, from the number of
    processors if it is known. *)
Definition default_children_max (cpus : option Z) (o : options) : options :=
  if o_children_max o <=? 0 then
    o <| o_children_max := match cpus with Some n => 8 + n * 2 | None => 8 end |>
  else o.

(** The parameters of the kernel command line are never looked at: a line
    that was read has the result 0, and the function returns for it. *)
Lemma cmdline_ignored file o : match file with inl e => 0 < e | inr _ => True end -> kernel_cmdline_options file o = Done o.
Proof.
  intros H. unfold kernel_cmdline_options. destruct file as [e|f]; [|done]. simpl. by rewrite (proj2 (Z.leb_le (- e) 0)) by lia.
Qed.
Lemma strto_no_digit c s :
  isspace c = false -> one_of "-+0" c = false -> from_option (fun d => d <? 10) false (digit_val c) = false ->
  strto_prefix 0 (c :: s) = (false, 0, c :: s).
Proof.
  intros Hs Ho Hd. unfold one_of in Ho. simpl in Ho. rewrite !orb_false_iff in Ho. destruct Ho as (H1 & H2 & H3 & _).
  unfold strto_prefix. cbn [skip_space]. rewrite Hs, H1, H2. cbv zeta. rewrite H3. cbn [Z.eqb strto_digits].
  destruct (digit_val c) as [d|]; simpl in Hd; rewrite ?Hd; by rewrite Nat.eqb_refl.
Qed.
(** If they were, the time limit of an event would be 0 whatever is given: the
    number is looked for behind 16 characters of a name of 19. *)
Lemma event_timeout_word n o : o_event_timeout_usec (cmdline_word o (("udev.event-timeout=" : bytes) ++ n)) = 0.
Proof.
  assert (number (("ut=" : bytes) ++ n) = 0) as E.
  { unfold number, strtoul_prefix. change (("ut=" : bytes) ++ n) with ("u"%char :: ("t=" : bytes) ++ n). by rewrite strto_no_digit. }
  cbn -[usec]. assert (startswith n [] = Some n) as -> by (by destruct n). cbn -[usec]. unfold usec.
  change ("u"%char :: "t"%char :: "="%char :: n) with (("ut=" : bytes) ++ n). by rewrite E.
Qed.
(** A number of processors makes the number of workers. *)
Lemma children_max_positive cpus o : match cpus with Some n => 0 < n | None => True end -> 0 < o_children_max (default_children_max cpus o).
Proof.
  intros H. unfold default_children_max. destruct (Z.leb_spec (o_children_max o) 0); [|done]. destruct cpus; simpl; lia.
Qed.
Example options_run :
  option_map (fun o => (o_children_max o, o_event_timeout_usec o, o_resolve_names o))
    (option_loop (default_options (mk_udev [] 6)) [("c"%char, "0x10" : bytes); ("t"%char, "30" : bytes); ("N"%char, "never" : bytes)]) =
  Some (16, 30000000, -1).
Proof. by vm_compute. Qed.
End Options.
