(* ===== verification/Synth.v ===== *)
(** What the daemon does when a node that is watched was closed after
    writing: [handle_inotify] and [synthesize_change] of src/udevd/udevd.c. *)

From Stdlib Require Import ZArith Lia Ascii.
From stdpp Require Import prelude gmap strings sorting.
From S2P Require Import Prelude Utils Strings Encode UdevList System Device DeviceNew Node Event EventRun Enumerate.
Import Mem Entries Device DeviceNew Node Event EventRun Enumerate.

Module Synth.
#[local] Abbreviation tt := Datatypes.tt.

Section synth.
Context `{SY : System} {PR : Programs} {NO : Nodes} {IF : Interfaces} {CA : Calls} {G : Glob}.
Context (sys_readdir_dirs : bytes -> state world (Z + list bytes)).
(** Opening the node, locking it and BLKRRPART: whether all of it worked. *)
Context (reread_partitions : option bytes -> state world bool).

(** shared/fileio.c: [fputs] with a newline. *)
Definition write_string_file (fn line : bytes) : state world Z :=
  sys_write fn (if bool_decide (last line = Some newline) then line else line ++ [newline]).
Definition write_change (d : udev_device) : state world unit :=
  write_string_file (fst (strscpyl UTIL_PATH_SIZE [syspath d; "/uevent" : bytes])) "change" ;; mret tt.

(** The device of an entry when it is a partition. *)
Definition partition_at (path : bytes) : state world (option udev_device) :=
  d ← udev_device_new_from_syspath path;
  match d with
  | None => mret None
  | Some d =>
      '(devtype, d) ← run_device d udev_device_get_devtype;
      mret (if str_eq (Some ("partition" : bytes)) devtype then Some d else None)
  end.
Fixpoint has_partitions (paths : list bytes) : state world bool :=
  match paths with
  | [] => mret false
  | p :: paths' => d ← partition_at p; match d with Some _ => mret true | None => has_partitions paths' end
  end.
Fixpoint change_partitions (paths : list bytes) : state world unit :=
  match paths with
  | [] => mret tt
  | p :: paths' => d ← partition_at p; match d with Some d => write_change d | None => mret tt end ;; change_partitions paths'
  end.
(** A whole disk, but not one of the device mapper. *)
Definition is_disk : D bool :=
  subsystem ← udev_device_get_subsystem udev_device_get_properties_list_entry;
  if str_eq (Some ("block" : bytes)) subsystem then
    devtype ← udev_device_get_devtype;
    d ← field (fun d => d);
    mret (str_eq (Some ("disk" : bytes)) devtype && negb (bool_decide (is_Some (startswith (default [] (d_sysname d)) "dm-"))))
  else mret false.
Definition synthesize_change (dev : udev_device) : state world Z :=
  '(disk, dev) ← run_device dev is_disk;
  if (disk : bool) then
    '(node, dev) ← run_device dev udev_device_get_devnode;
    part_table_read ← reread_partitions node;
    let e := udev_enumerate_add_match_subsystem (udev_enumerate_add_match_parent udev_enumerate_new (Some dev)) (Some ("block" : bytes)) in
    '(r, e) ← udev_enumerate_scan_devices sys_readdir_dirs e;
    if r <? 0 then mret r
    else
      let items := e_name <$> devices_list (udev_enumerate_get_list_entry e) in
      parts ← has_partitions items;
      if (part_table_read : bool) && (parts : bool) then mret 0
      else write_change dev ;; change_partitions items ;; mret 0
  else write_change dev ;; mret 0.

(** The events in the buffer: the watch and the mask; the record is followed
    by a name of the length in it. *)
Definition IN_CLOSE_WRITE : Z := 0x8.
Definition IN_IGNORED : Z := 0x8000.
Fixpoint inotify_events (fuel : nat) (buf : bytes) : list (Z * Z) :=
  match fuel, buf with
  | O, _ | _, [] => []
  | S fuel', _ =>
      let word i := le_val (take 4 (drop i buf)) in
      (s32 (word 0%nat), word 4%nat) :: inotify_events fuel' (drop (16 + Z.to_nat (word 12%nat)) buf)
  end.
Fixpoint inotify_loop (events : list (Z * Z)) : state world unit :=
  match events with
  | [] => mret tt
  | (wd, mask) :: events' =>
      dev ← udev_watch_lookup wd;
      match dev with
      | None => mret tt
      | Some dev =>
          if negb (Z.land mask IN_CLOSE_WRITE =? 0) then synthesize_change dev ;; mret tt
          else if negb (Z.land mask IN_IGNORED =? 0) then run_device dev udev_watch_end ;; mret tt
          else mret tt
      end ;;
      inotify_loop events'
  end.
(** The result of FIONREAD and what was read. *)
Definition handle_inotify (nbytes : option Z) (errno : Z) (buf : bytes) : state world Z :=
  match nbytes with
  | Some n => if n <=? 0 then mret (- errno) else inotify_loop (inotify_events (length buf) buf) ;; mret 0
  | None => mret (- errno)
  end.

(** * Which files are written *)

(** The writes for the disk and its partitions, in order; the partitions are
    looked up again, with what was written before. *)
Fixpoint change_all (ds : list udev_device) : state world unit :=
  match ds with [] => mret tt | d :: ds' => write_change d ;; change_all ds' end.
(** Looking for partitions is a question: it changes nothing, and a uevent
    file that is written changes no answer. *)
Class QuietSysfs : Prop := {
  partition_quiet p w : snd (partition_at p w) = w;
  partition_stable p d w : fst (partition_at p (snd (write_change d w))) = fst (partition_at p w)
}.
Context `{QS : QuietSysfs}.
Definition partitions (paths : list bytes) (w : world) : list udev_device := omap (fun p => fst (partition_at p w)) paths.

Lemma has_partitions_eq paths w : has_partitions paths w = (bool_decide (partitions paths w <> []), w).
Proof using QS.
  induction paths as [|p paths IH]; [done|]. cbn [has_partitions]. rewrite bind_eq, partition_quiet.
  unfold partitions. cbn [list_omap omap]. destruct (fst (partition_at p w)) as [d|] eqn:E; [by rewrite bool_decide_true|exact IH].
Qed.
Lemma partitions_cons p paths w :
  partitions (p :: paths) w = match fst (partition_at p w) with Some d => d :: partitions paths w | None => partitions paths w end.
Proof. unfold partitions. simpl. by destruct (fst (partition_at p w)). Qed.
Lemma partitions_stable paths d w : partitions paths (snd (write_change d w)) = partitions paths w.
Proof using QS. induction paths as [|p paths IH]; [done|]. by rewrite !partitions_cons, partition_stable, IH. Qed.
Lemma change_partitions_eq paths w : change_partitions paths w = (tt, snd (change_all (partitions paths w) w)).
Proof using QS.
  revert w. induction paths as [|p paths IH]; intros w; [done|]. cbn [change_partitions]. rewrite bind_eq, partition_quiet, bind_eq, partitions_cons.
  destruct (fst (partition_at p w)) as [d|]; cbn [change_all]; [|apply IH].
  by rewrite IH, partitions_stable, (bind_eq (write_change d)).
Qed.

(** A disk whose partition table could be read again, and that has
    partitions, gets no event here, since the kernel has sent them; otherwise
    the disk and each of its partitions get a change event, in this order. *)
Lemma synthesize_change_disk dev dev1 node dev2 reread e r w w1 w2 w3 w4 :
  run_device dev is_disk w = ((true, dev1), w1) -> run_device dev1 udev_device_get_devnode w1 = ((node, dev2), w2) ->
  reread_partitions node w2 = (reread, w3) ->
  udev_enumerate_scan_devices sys_readdir_dirs
    (udev_enumerate_add_match_subsystem (udev_enumerate_add_match_parent udev_enumerate_new (Some dev2)) (Some ("block" : bytes))) w3 = ((r, e), w4) ->
  0 <= r ->
  let parts := partitions (e_name <$> devices_list (udev_enumerate_get_list_entry e)) w4 in
  synthesize_change dev w =
    (0, if reread && bool_decide (parts <> []) then w4 else snd (change_all (dev2 :: parts) w4)).
Proof using QS.
  intros H1 H2 H3 H4 Hr parts. unfold synthesize_change. rewrite bind_eq, H1. cbn [fst snd]. rewrite bind_eq, H2. cbn [fst snd].
  rewrite bind_eq, H3. cbn [fst snd]. rewrite bind_eq, H4. cbn [fst snd]. rewrite (proj2 (Z.ltb_ge r 0)) by done.
  rewrite bind_eq, has_partitions_eq. cbn [fst snd]. fold parts. destruct (reread && bool_decide (parts <> [])); [done|].
  cbn [change_all]. rewrite !bind_eq, change_partitions_eq, partitions_stable. fold parts. done.
Qed.
Lemma synthesize_change_other dev dev1 w w1 :
  run_device dev is_disk w = ((false, dev1), w1) -> synthesize_change dev w = (0, snd (write_change dev1 w1)).
Proof using. intros H1. unfold synthesize_change. rewrite bind_eq, H1. cbn [fst snd]. by rewrite bind_eq. Qed.
End synth.
End Synth.
