(* ===== verification/Getopt.v ===== *)
(** [getopt_long] of the C library, as the programs of the repository use it:
    short options with clusters and arguments, long options with unique
    abbreviations, and arguments that are no options in between. *)

From Stdlib Require Import ZArith Lia Ascii.
From stdpp Require Import prelude strings.
From S2P Require Import Prelude.

Module Getopt.

Inductive has_arg := no_argument | required_argument | optional_argument.
#[export] Instance has_arg_eq_dec : EqDecision has_arg := ltac:(solve_decision).
(** [struct option] without the flag, which no caller uses. *)
Record option_ := mk_option { o_name : bytes; o_has_arg : has_arg; o_val : byte }.
(** An option that was found, with [optarg]. *)
Definition found : Type := byte * option bytes.

(** The colons behind a short option. *)
Definition colons (rest : bytes) : has_arg :=
  if negb (nth 0 rest nul ==c ":") then no_argument
  else if nth 1 rest nul ==c ":" then optional_argument else required_argument.
(** What the string of short options says of a character. *)
Fixpoint short_lookup (optstring : bytes) (c : byte) : option has_arg :=
  match optstring with
  | [] => None
  | o :: rest =>
      if (o ==c c) && negb (c ==c ":") then Some (colons rest)
      else short_lookup rest c
  end.
(** An exact name, or a prefix of one name only. *)
Definition long_lookup (longopts : list option_) (name : bytes) : option option_ :=
  match filter (fun o => o_name o = name) longopts with
  | o :: _ => Some o
  | [] =>
      match filter (fun o => is_Some (startswith (o_name o) name)) longopts with
      | o :: os => if forallb (fun x => bool_decide (o_has_arg x = o_has_arg o /\ o_val x = o_val o)) os then Some o else None
      | [] => None
      end
  end.

Section getopt.
Context (optstring : bytes) (longopts : list option_).
(** The characters of a cluster; the last of them may take the next argument. *)
Fixpoint cluster (s : bytes) (next : option bytes) : list found * bool :=
  match s with
  | [] => ([], false)
  | c :: s' =>
      match short_lookup optstring c with
      | None => let '(fs, used) := cluster s' next in (("?"%char, None) :: fs, used)
      | Some no_argument => let '(fs, used) := cluster s' next in ((c, None) :: fs, used)
      | Some optional_argument => ([(c, match s' with [] => None | _ => Some s' end)], false)
      | Some required_argument =>
          match s', next with
          | _ :: _, _ => ([(c, Some s')], false)
          | [], Some a => ([(c, Some a)], true)
          | [], None => ([("?"%char, None)], false)
          end
      end
  end.
Definition long_option (s : bytes) (next : option bytes) : found * bool :=
  let '(name, value) := split_chr s "=" in
  match long_lookup longopts name with
  | None => (("?"%char, None), false)
  | Some o =>
      match o_has_arg o, value, next with
      | no_argument, None, _ => ((o_val o, None), false)
      | no_argument, Some _, _ => (("?"%char, None), false)
      | optional_argument, _, _ => ((o_val o, value), false)
      | required_argument, Some v, _ => ((o_val o, Some v), false)
      | required_argument, None, Some a => ((o_val o, Some a), true)
      | required_argument, None, None => (("?"%char, None), false)
      end
  end.
(** The options in order and the arguments that are none; the first element
    of [argv] is skipped by the caller. *)
Fixpoint getopt_loop (fuel : nat) (args : list bytes) : list found * list bytes :=
  match fuel, args with
  | O, _ | _, [] => ([], args)
  | S fuel', a :: args' =>
      match a with
      | c :: d :: s =>
          if negb (c ==c "-") then let '(fs, rest) := getopt_loop fuel' args' in (fs, a :: rest)
          else if (d ==c "-") && bool_decide (s = []) then ([], args')
          else
            let '(fs, used) := if d ==c "-" then let '(f, used) := long_option s (head args') in ([f], used) else cluster (d :: s) (head args') in
            let '(fs', rest) := getopt_loop fuel' (if (used : bool) then drop 1 args' else args') in
            (fs ++ fs', rest)
      | _ => let '(fs, rest) := getopt_loop fuel' args' in (fs, a :: rest)
      end
  end.
Definition getopt_long (args : list bytes) : list found * list bytes := getopt_loop (length args) args.

(** A step uses at least one argument, so the fuel is enough. *)
Lemma getopt_loop_fuel fuel args : (length args <= fuel)%nat -> getopt_loop fuel args = getopt_long args.
Proof using.
  unfold getopt_long. remember (length args) as n eqn:Hn. assert (length args <= n)%nat as Hl by lia. clear Hn. intros Hf.
  revert fuel args Hf Hl. induction n as [|n IH]; intros fuel args Hf Hl; [destruct args; [by destruct fuel|simpl in Hl; lia]|].
  destruct fuel as [|fuel]; [lia|]. destruct args as [|a args]; [done|]. simpl in Hl. cbn [getopt_loop].
  assert (getopt_loop fuel args = getopt_loop n args) as E by (apply IH; lia).
  assert (forall b : bool, getopt_loop fuel (if b then drop 1 args else args) = getopt_loop n (if b then drop 1 args else args)) as E'.
  { intros []; apply IH; rewrite ?length_drop; lia. }
  rewrite E. destruct a as [|c [|d s]]; [done..|]. destruct (negb (c ==c "-")); [done|].
  destruct ((d ==c "-") && bool_decide (s = [])); [done|].
  destruct (if d ==c "-" then _ else _) as [fs used]. by rewrite E'.
Qed.
(** Arguments without a leading dash are given back in order. *)
Lemma getopt_no_options args :
  Forall (fun a => nth 0 a nul <> "-"%char) args -> getopt_long args = ([], args).
Proof using.
  intros H. unfold getopt_long. induction H as [|a args Ha H IH]; [done|]. cbn [length getopt_loop]. rewrite IH.
  destruct a as [|c [|d s]]; [done..|]. simpl in Ha. by rewrite (proj2 (Ascii.eqb_neq c "-") Ha).
Qed.
(** An option at the front, alone or with an argument behind it. *)
Lemma getopt_flag c args :
  c <> "-"%char -> short_lookup optstring c = Some no_argument ->
  getopt_long (["-"%char; c] :: args) = let '(fs, rest) := getopt_long args in ((c, None) :: fs, rest).
Proof using.
  intros Hc Hl. unfold getopt_long at 1. cbn [length getopt_loop]. change (negb ("-" ==c "-")) with false. cbv iota.
  rewrite (proj2 (Ascii.eqb_neq c "-") Hc). cbn [andb cluster]. rewrite Hl. fold (getopt_long args). by destruct (getopt_long args).
Qed.
Lemma getopt_arg c a args :
  c <> "-"%char -> short_lookup optstring c = Some required_argument ->
  getopt_long (["-"%char; c] :: a :: args) = let '(fs, rest) := getopt_long args in ((c, Some a) :: fs, rest).
Proof using.
  intros Hc Hl. unfold getopt_long at 1. cbn [length]. remember (S (length args)) as n eqn:Hn. cbn [getopt_loop].
  change (negb ("-" ==c "-")) with false. cbv iota. rewrite (proj2 (Ascii.eqb_neq c "-") Hc). cbn [andb cluster head]. rewrite Hl.
  change (drop 1 (a :: args)) with args. rewrite getopt_loop_fuel by lia. by destruct (getopt_long args).
Qed.

(** With a plus sign in front of the short options: up to the first argument
    that is no option. *)
Fixpoint getopt_first (fuel : nat) (args : list bytes) : list found * list bytes :=
  match fuel, args with
  | O, _ | _, [] => ([], args)
  | S fuel', a :: args' =>
      match a with
      | c :: d :: s =>
          if negb (c ==c "-") then ([], args)
          else if (d ==c "-") && bool_decide (s = []) then ([], args')
          else
            let '(fs, used) := if d ==c "-" then let '(f, used) := long_option s (head args') in ([f], used) else cluster (d :: s) (head args') in
            let '(fs', rest) := getopt_first fuel' (if (used : bool) then drop 1 args' else args') in
            (fs ++ fs', rest)
      | _ => ([], args)
      end
  end.
(** What is left is the end of the arguments as it is. *)
Lemma getopt_first_suffix fuel args : snd (getopt_first fuel args) `suffix_of` args.
Proof using.
  revert args. induction fuel as [|fuel IH]; intros [|a args]; [done..|]. cbn [getopt_first].
  destruct a as [|c [|d s]]; [done..|]. destruct (negb _); [done|].
  destruct (_ && _); [by exists [c :: d :: s]|].
  destruct (if d ==c "-" then _ else _) as [fs used].
  pose proof (IH (if used then drop 1 args else args)) as H. destruct (getopt_first _ _) as [fs' rest]. cbn [snd] in *.
  etrans; [exact H|]. destruct used; [|by apply suffix_cons_r]. apply suffix_cons_r. apply suffix_drop.
Qed.
End getopt.

Example getopt_runs :
  getopt_long "ab:" [mk_option "alpha" no_argument "a"; mk_option "beta" required_argument "b"]
    ["x" : bytes; "-ab1" : bytes; "--be=2" : bytes; "-b" : bytes; "-a" : bytes; "-c" : bytes; "--" : bytes; "-a" : bytes] =
  ([("a"%char, None); ("b"%char, Some ("1" : bytes)); ("b"%char, Some ("2" : bytes)); ("b"%char, Some ("-a" : bytes)); ("?"%char, None)],
   ["x" : bytes; "-a" : bytes]).
Proof. by vm_compute. Qed.
End Getopt.
