(* ===== verification/Scsi.v ===== *)
(** The inquiries of src/scsi_id/scsi_serial.c: the pages of a device and the
    serial number made from them, on the byte arrays of the program. *)

From Stdlib Require Import ZArith Lia Ascii.
From stdpp Require Import prelude strings.
From S2P Require Import Prelude System Strings Encode.

Module Scsi.

(** * Arrays *)

(** An access outside of an array is [None]. *)
Definition zeros (n : nat) : bytes := replicate n nul.
Definition field (n : nat) (s : bytes) : bytes := take n (s ++ zeros n).
Definition put (i : nat) (s a : bytes) : option bytes :=
  if (i + length s <=? length a)%nat then Some (take i a ++ s ++ drop (i + length s) a) else None.
Definition byte_at (a : bytes) (i : nat) : option Z := code <$> a !! i.
Definition slice (a : bytes) (i n : nat) : option bytes := if (i + n <=? length a)%nat then Some (take n (drop i a)) else None.
(** The string at the start of an array, which ends inside of it. *)
Definition cstring (a : bytes) : option bytes := match split_chr a nul with (s, Some _) => Some s | (_, None) => None end.
Definition strncpy (i : nat) (src : bytes) (n : nat) (a : bytes) : option bytes := put i (field n src) a.
Definition strncat (i : nat) (src : bytes) (n : nat) (a : bytes) : option bytes :=
  s ← cstring (drop i a); put (i + length s) (take n src ++ [nul]) a.
(** The source of a copy of at most [n] bytes. *)
Definition upto (a : bytes) (n : nat) : option bytes :=
  let s := fst (split_chr a nul) in if bool_decide (is_Some (cstring a)) || (n <=? length s)%nat then Some s else None.

(** * The device *)

Definition MAX_SERIAL_LEN : nat := 256.
Definition SCSI_INQ_BUFF_LEN : nat := 254.
Definition VENDOR_LENGTH : nat := 8.
Definition MODEL_LENGTH : nat := 16.
(** [struct scsi_id_device] without the name for the log; the first four
    fields are strings, the others arrays. *)
Record scsi_id_device := mk_device {
  vendor : bytes; model : bytes; revision : bytes; dev_type : bytes;
  serial : bytes; serial_short : bytes; use_sg : Z;
  unit_serial_number : bytes; wwn : bytes; wwn_vendor_extension : bytes; tgpt_group : bytes }.
#[export] Instance device_eta : Eta scsi_id_device := fun x => mk_device
  (vendor x) (model x) (revision x) (dev_type x) (serial x) (serial_short x) (use_sg x)
  (unit_serial_number x) (wwn x) (wwn_vendor_extension x) (tgpt_group x).
Definition device_zero (sg : Z) : scsi_id_device :=
  mk_device [] [] [] [] (zeros MAX_SERIAL_LEN) (zeros MAX_SERIAL_LEN) sg (zeros MAX_SERIAL_LEN) (zeros 17) (zeros 17) (zeros 8).

(** ** The category of an answer *)

Definition SCSI_CHECK_CONDITION : Z := 0x2.
Definition SCSI_COMMAND_TERMINATED : Z := 0x22.
Definition DRIVER_SENSE : Z := 0x08.
Definition DRIVER_TIMEOUT : Z := 0x06.
Definition RECOVERED_ERROR : Z := 0x01.
Definition ILLEGAL_REQUEST : Z := 0x05.
Definition UNIT_ATTENTION : Z := 0x06.
Inductive category := Cat_clean | Cat_media_changed | Cat_reset | Cat_timeout | Cat_recovered | Cat_notsupported | Cat_sense | Cat_other.
(** [sense] holds the bytes that were written. *)
Definition sense_at (sense : bytes) (i : nat) : Z := code (nth i sense nul).
Definition sense_category (sense : bytes) : category :=
  if (2 <? length sense)%nat then
    let '(sense_key, asc) :=
      if negb (Z.land (sense_at sense 0) 0x2 =? 0) then (Z.land (sense_at sense 1) 0xf, sense_at sense 2)
      else (Z.land (sense_at sense 2) 0xf, if (12 <? length sense)%nat then sense_at sense 12 else 0) in
    if sense_key =? RECOVERED_ERROR then Cat_recovered
    else if sense_key =? UNIT_ATTENTION then
      if asc =? 0x28 then Cat_media_changed else if asc =? 0x29 then Cat_reset else Cat_sense
    else if sense_key =? ILLEGAL_REQUEST then Cat_notsupported
    else Cat_sense
  else Cat_sense.
Definition sg_err_category_new (scsi_status host_status driver_status : Z) (sense : bytes) : category :=
  let scsi_status := Z.land scsi_status 0x7e in
  if (scsi_status =? 0) && (host_status =? 0) && (driver_status =? 0) then Cat_clean
  else if (scsi_status =? SCSI_CHECK_CONDITION) || (scsi_status =? SCSI_COMMAND_TERMINATED) || (Z.land driver_status 0xf =? DRIVER_SENSE)
  then sense_category sense
  else if (host_status =? 1) || (host_status =? 2) || (host_status =? 3) then Cat_timeout
  else if driver_status =? DRIVER_TIMEOUT then Cat_timeout
  else Cat_other.

(** What [SG_IO] gives: the status bytes, the sense data and the data. *)
Record sg_reply := mk_reply { r_status : Z; r_msg : Z; r_host : Z; r_driver : Z; r_sense : bytes; r_data : bytes }.

(** What is logged about the sense data. *)
Inductive sense_log :=
  | Sense_empty | Sense_short (missing : Z) | Sense_small (s : Z) | Sense_invalid (sense_code : Z)
  | Sense_data (sense_key asc ascq : Z) | Sense_old (sense_class sense_code : Z).
Definition scsi_dump_sense (sense : bytes) : sense_log * Z :=
  let sb_len := Z.of_nat (length sense) in
  if sb_len <? 1 then (Sense_empty, -1)
  else
    let sense_class := Z.land (Z.shiftr (sense_at sense 0) 4) 7 in
    let sense_code := Z.land (sense_at sense 0) 0xf in
    if sense_class =? 7 then
      let s := sense_at sense 7 + 8 in
      if sb_len <? s then (Sense_short (s - sb_len), -1)
      else if (sense_code =? 0) || (sense_code =? 1) then
        if s <? 14 then (Sense_small s, -1)
        else (Sense_data (Z.land (sense_at sense 2) 0xf) (sense_at sense 12) (sense_at sense 13), -1)
      else if (sense_code =? 2) || (sense_code =? 3) then
        (Sense_data (Z.land (sense_at sense 1) 0xf) (sense_at sense 2) (sense_at sense 3), -1)
      else (Sense_invalid sense_code, -1)
    else if sb_len <? 4 then (Sense_short (4 - sb_len), -1)
    else (Sense_old sense_class sense_code, -1).
Definition scsi_dump (io : sg_reply) : Z :=
  if (r_status io =? 0) && (r_host io =? 0) && (r_msg io =? 0) && (r_driver io =? 0) then -1
  else if r_status io =? SCSI_CHECK_CONDITION then snd (scsi_dump_sense (r_sense io)) else -1.
Definition scsi_dump_v4 (io : sg_reply) : Z :=
  if (r_status io =? 0) && (r_host io =? 0) && (r_driver io =? 0) then -1
  else if r_status io =? SCSI_CHECK_CONDITION then snd (scsi_dump_sense (r_sense io)) else -1.

(** * Inquiries *)

Definition EINVAL : Z := 22.
Definition ENOSYS : Z := 38.
Definition PAGE_80 : Z := 0x80.
Definition PAGE_83 : Z := 0x83.
Definition PAGE_83_PRE_SPC3 : Z := -0x83.

Section device.
(** The device and its driver: the interface version, whether a page is asked
    for and which; an error of the call or an answer. *)
Context {dev : Type} (sg_io : Z -> bool -> Z -> dev -> (Z + sg_reply) * dev).

(** The data is stored at the start of the buffer. *)
Definition store_data (buflen : nat) (data buf : bytes) : bytes := let d := take buflen data in d ++ drop (length d) buf.
(** The result with the buffer, the interface version and the device; the
    fuel bounds how often the command is sent. *)
Fixpoint inquiry_loop (fuel : nat) (use_sg retry : Z) (evpd : bool) (page : Z) (buflen : nat) (buf : bytes) (w : dev) : Z * bytes * Z * dev :=
  match fuel with
  | O => (-1, buf, use_sg, w)
  | S fuel' =>
      match sg_io use_sg evpd page w with
      | (inl errno, w) =>
          if ((errno =? EINVAL) || (errno =? ENOSYS)) && (use_sg =? 4) then inquiry_loop fuel' 3 retry evpd page buflen buf w
          else (-1, buf, use_sg, w)
      | (inr r, w) =>
          let buf := store_data buflen (r_data r) buf in
          let dump := if use_sg =? 4 then scsi_dump_v4 r else scsi_dump r in
          let '(retval, buf) :=
            match sg_err_category_new (r_status r) (r_host r) (r_driver r) (r_sense r) with
            | Cat_notsupported => (0, <[1%nat := nul]> buf)
            | Cat_clean | Cat_recovered => (0, buf)
            | _ => (dump, buf)
            end in
          if retval =? 0 then (Z.of_nat buflen, buf, use_sg, w)
          else if 0 <? retval then
            if 0 <? retry - 1 then inquiry_loop fuel' use_sg (retry - 1) evpd page buflen buf w else (-1, buf, use_sg, w)
          else (retval, buf, use_sg, w)
      end
  end.
(** Programs over the device: [None] is an access outside of an array. *)
Definition prog (A : Type) : Type := scsi_id_device -> dev -> option (A * scsi_id_device * dev).
Definition scsi_inquiry (evpd : bool) (page : Z) (buf : bytes) (buflen : nat) : prog (Z * bytes) := fun d w =>
  if (SCSI_INQ_BUFF_LEN <? buflen)%nat then Some ((-1, buf), d, w)
  else
    let '(r, buf, sg, w) := inquiry_loop 5 (use_sg d) 3 evpd page buflen buf w in
    Some ((r, buf), d <| use_sg := sg |>, w).

(** strncmp of [n] bytes of the page with a string. *)
Definition same_start (n : nat) (page : bytes) (s : bytes) : bool :=
  bool_decide (fst (split_chr (take n page) nul) = fst (split_chr (take n s) nul)).
Definition do_scsi_page0_inquiry (len : nat) : prog (Z * bytes) := fun d w =>
  '((r, buffer), d, w) ← scsi_inquiry true 0 (zeros len) len d w;
  if r <? 0 then Some ((1, buffer), d, w)
  else
    b1 ← byte_at buffer 1;
    if negb (b1 =? 0) then Some ((1, buffer), d, w)
    else
      b3 ← byte_at buffer 3;
      if Z.of_nat len <? b3 then Some ((1, buffer), d, w)
      else if (Z.of_nat MODEL_LENGTH <? b3) && same_start VENDOR_LENGTH (drop VENDOR_LENGTH buffer) (vendor d) then Some ((1, buffer), d, w)
      else Some ((0, buffer), d, w).

(** The result is negative when the names are shorter than their fields. *)
Definition prepend_vendor_model (d : scsi_id_device) (i : nat) (a : bytes) : option (Z * bytes) :=
  a ← strncpy i (vendor d) VENDOR_LENGTH a;
  a ← strncat i (model d) MODEL_LENGTH a;
  s ← cstring (drop i a);
  Some (if (length s =? VENDOR_LENGTH + MODEL_LENGTH)%nat then Z.of_nat (length s) else -1, a).

(** ** Page 0x80 *)

(** The arrays for the serial number, if it is wanted, and the short one;
    both have [max_len] bytes. *)
Definition page80 (d : scsi_id_device) (buf : bytes) (serial : option bytes) (serial_short : bytes) (max_len : nat) :
    option (Z * option bytes * bytes) :=
  b1 ← byte_at buf 1;
  if negb (b1 =? PAGE_80) then Some (1, serial, serial_short)
  else
    b3 ← byte_at buf 3;
    let len := Z.to_nat b3 in
    if (max_len <? 1 + VENDOR_LENGTH + MODEL_LENGTH + len)%nat then Some (1, serial, serial_short)
    else
      let short serial := data ← slice buf 4 len; serial_short ← put 0 (data ++ [nul]) serial_short; Some (0, serial, serial_short) in
      match serial with
      | None => short None
      | Some a =>
          a ← put 0 ["S"%char] a;
          '(ser_ind, a) ← prepend_vendor_model d 1 a;
          if ser_ind <? 0 then Some (1, Some a, serial_short)
          else
            data ← slice buf 4 len;
            a ← put (S (Z.to_nat ser_ind)) data a;
            short (Some a)
      end.
Definition do_scsi_page80_inquiry (max_len : nat) : prog Z := fun d w =>
  '((r, buf), d, w) ← scsi_inquiry true PAGE_80 (zeros SCSI_INQ_BUFF_LEN) SCSI_INQ_BUFF_LEN d w;
  if r <? 0 then Some (r, d, w)
  else
    '(r, a, s) ← page80 d buf (Some (serial d)) (serial_short d) max_len;
    Some (r, d <| serial := default (serial d) a |> <| serial_short := s |>, w).
(** The number of the unit only. *)
Definition unit_page80_inquiry : prog Z := fun d w =>
  '((r, buf), d, w) ← scsi_inquiry true PAGE_80 (zeros SCSI_INQ_BUFF_LEN) SCSI_INQ_BUFF_LEN d w;
  if r <? 0 then Some (r, d, w)
  else '(r, _, s) ← page80 d buf None (unit_serial_number d) MAX_SERIAL_LEN; Some (r, d <| unit_serial_number := s |>, w).

(** ** Page 0x83 *)

Definition SCSI_ID_VENDOR_SPECIFIC : Z := 0.
Definition SCSI_ID_T10_VENDOR : Z := 1.
Definition SCSI_ID_EUI_64 : Z := 2.
Definition SCSI_ID_NAA : Z := 3.
Definition SCSI_ID_TGTGROUP : Z := 5.
Definition SCSI_ID_NAA_DONT_CARE : Z := 0xff.
Definition SCSI_ID_NAA_IEEE_REG : Z := 5.
Definition SCSI_ID_NAA_IEEE_REG_EXTENDED : Z := 6.
Definition SCSI_ID_BINARY : Z := 1.
Definition SCSI_ID_ASCII : Z := 2.
Record search_value := mk_search { id_type : Z; naa_type : Z; code_set : Z }.
Definition id_search_list : list search_value := [
  mk_search SCSI_ID_TGTGROUP SCSI_ID_NAA_DONT_CARE SCSI_ID_BINARY;
  mk_search SCSI_ID_NAA SCSI_ID_NAA_IEEE_REG_EXTENDED SCSI_ID_BINARY;
  mk_search SCSI_ID_NAA SCSI_ID_NAA_IEEE_REG_EXTENDED SCSI_ID_ASCII;
  mk_search SCSI_ID_NAA SCSI_ID_NAA_IEEE_REG SCSI_ID_BINARY;
  mk_search SCSI_ID_NAA SCSI_ID_NAA_IEEE_REG SCSI_ID_ASCII;
  mk_search SCSI_ID_NAA SCSI_ID_NAA_DONT_CARE SCSI_ID_BINARY;
  mk_search SCSI_ID_NAA SCSI_ID_NAA_DONT_CARE SCSI_ID_ASCII;
  mk_search SCSI_ID_EUI_64 SCSI_ID_NAA_DONT_CARE SCSI_ID_BINARY;
  mk_search SCSI_ID_EUI_64 SCSI_ID_NAA_DONT_CARE SCSI_ID_ASCII;
  mk_search SCSI_ID_T10_VENDOR SCSI_ID_NAA_DONT_CARE SCSI_ID_BINARY;
  mk_search SCSI_ID_T10_VENDOR SCSI_ID_NAA_DONT_CARE SCSI_ID_ASCII;
  mk_search SCSI_ID_VENDOR_SPECIFIC SCSI_ID_NAA_DONT_CARE SCSI_ID_BINARY;
  mk_search SCSI_ID_VENDOR_SPECIFIC SCSI_ID_NAA_DONT_CARE SCSI_ID_ASCII].
Definition hex_str (i : Z) : byte := nth (Z.to_nat i) ("0123456789abcdef" : bytes) nul.
Definition hex_byte (c : byte) : bytes := [hex_str (Z.shiftr (Z.land (code c) 0xf0) 4); hex_str (Z.land (code c) 0x0f)].

(** The descriptor at [p] is one that is searched for. *)
Definition id_matches (page : bytes) (p : nat) (v : search_value) : option bool :=
  b1 ← byte_at page (p + 1);
  let association := Z.land b1 0x30 in
  if (if association =? 0x10 then negb (id_type v =? SCSI_ID_TGTGROUP) else negb (association =? 0)) then Some false
  else if negb (Z.land b1 0x0f =? id_type v) then Some false
  else
    naa ← (if naa_type v =? SCSI_ID_NAA_DONT_CARE then Some true
           else b4 ← byte_at page (p + 4); Some (naa_type v =? Z.shiftr (Z.land b4 0xf0) 4));
    if negb naa then Some false
    else b0 ← byte_at page p; Some (Z.land b0 0x0f =? code_set v).
(** The identifier as it is written. *)
Definition id_text (page : bytes) (p : nat) : option bytes :=
  b0 ← byte_at page p;
  n ← byte_at page (p + 3);
  data ← slice page (p + 4) (Z.to_nat n);
  Some (if Z.land b0 0x0f =? SCSI_ID_ASCII then data else data ≫= hex_byte).
Definition check_fill_0x83_id (page : bytes) (p : nat) (v : search_value) (max_len : Z) (d : scsi_id_device) : option (Z * scsi_id_device) :=
  found ← id_matches page p v;
  if negb found then Some (1, d)
  else
    n ← byte_at page (p + 3);
    b0 ← byte_at page p;
    let len := (if Z.land b0 0x0f =? SCSI_ID_ASCII then n else n * 2) + 2 +
               (if id_type v =? SCSI_ID_VENDOR_SPECIFIC then Z.of_nat (VENDOR_LENGTH + MODEL_LENGTH) else 0) in
    if max_len <? len then Some (1, d)
    else if id_type v =? SCSI_ID_TGTGROUP then
      b6 ← byte_at page (p + 6);
      b7 ← byte_at page (p + 7);
      group ← put 0 (fmt 16 (Z.lor (Z.shiftl b6 8) b7) ++ [nul]) (tgpt_group d);
      Some (1, d <| tgpt_group := group |>)
    else
      a ← put 0 [hex_str (id_type v)] (serial d);
      '(r, a) ← (if id_type v =? SCSI_ID_VENDOR_SPECIFIC then prepend_vendor_model d 1 a else Some (0, a));
      if r <? 0 then Some (1, d <| serial := a |>)
      else
        s ← length <$> cstring a;
        text ← id_text page p;
        a ← put s text a;
        id ← cstring (drop s a);
        short ← put 0 (id ++ [nul]) (serial_short d);
        let d := d <| serial := a |> <| serial_short := short |> in
        if id_type v =? SCSI_ID_NAA then
          w ← upto (drop s a) 16;
          wwn' ← strncpy 0 w 16 (wwn d);
          e ← upto (drop (s + 16) a) 16;
          ext ← strncpy 0 e 16 (wwn_vendor_extension d);
          Some (0, d <| wwn := wwn' |> <| wwn_vendor_extension := ext |>)
        else Some (0, d).

(** The bytes of the page in hexadecimal, as long as they fit. *)
Fixpoint prespc3_loop (fuel : nat) (page : bytes) (i n max_len : nat) (j : nat) (a : bytes) : option (nat * bytes) :=
  match fuel with
  | O => Some (j, a)
  | S fuel' =>
      if (i <? n)%nat && (j + 3 <? max_len)%nat then
        c ← page !! (4 + i)%nat;
        a ← put j (hex_byte c) a;
        prespc3_loop fuel' page (S i) n max_len (j + 2) a
      else Some (j, a)
  end.
Definition check_fill_0x83_prespc3 (page : bytes) (v : search_value) (max_len : nat) (d : scsi_id_device) : option (Z * scsi_id_device) :=
  a ← put 0 [hex_str (id_type v)] (serial d);
  j ← length <$> cstring a;
  n ← byte_at page 3;
  '(_, a) ← prespc3_loop (Z.to_nat n) page 0 (Z.to_nat n) max_len j a;
  a ← put (max_len - 1) [nul] a;
  s ← upto a (max_len - 1);
  short ← strncpy 0 s (max_len - 1) (serial_short d);
  Some (0, d <| serial := a |> <| serial_short := short |>).

(** The descriptors from [j] for one value. *)
Fixpoint descriptors_loop (fuel : nat) (page : bytes) (v : search_value) (last : Z) (j : nat) (max_len : Z) (d : scsi_id_device) : option (Z * scsi_id_device) :=
  match fuel with
  | O => Some (1, d)
  | S fuel' =>
      if Z.of_nat j <=? last then
        '(r, d) ← check_fill_0x83_id page j v max_len d;
        if r <=? 0 then Some (r, d)
        else n ← byte_at page (j + 3); descriptors_loop fuel' page v last (j + Z.to_nat n + 4) max_len d
      else Some (1, d)
  end.
Fixpoint search_loop (page : bytes) (vs : list search_value) (max_len : Z) (d : scsi_id_device) : option (Z * scsi_id_device) :=
  match vs with
  | [] => Some (1, d)
  | v :: vs' =>
      b3 ← byte_at page 3;
      '(r, d) ← descriptors_loop (length page) page v (b3 + 3) 4 max_len d;
      if r <=? 0 then Some (r, d) else search_loop page vs' max_len d
  end.
Definition page83 (page : bytes) (len : nat) (d : scsi_id_device) : option (Z * scsi_id_device) :=
  b1 ← byte_at page 1;
  if negb (b1 =? PAGE_83) then Some (1, d)
  else
    b6 ← byte_at page 6;
    if negb (b6 =? 0) then check_fill_0x83_prespc3 page (mk_search SCSI_ID_TGTGROUP SCSI_ID_NAA_DONT_CARE SCSI_ID_BINARY) len d
    else search_loop page id_search_list (Z.of_nat len) d.
Definition do_scsi_page83_inquiry (len : nat) : prog Z := fun d w =>
  '(_, d, w) ← unit_page80_inquiry d w;
  '((r, page), d, w) ← scsi_inquiry true PAGE_83 (zeros SCSI_INQ_BUFF_LEN) SCSI_INQ_BUFF_LEN d w;
  if r <? 0 then Some (1, d, w)
  else '(r, d) ← page83 page len d; Some (r, d, w).

(** The format of SCSI-2 only; 2 for another one. *)
Definition page83_prespc3 (page : bytes) (d : scsi_id_device) : option (Z * scsi_id_device) :=
  b1 ← byte_at page 1;
  if negb (b1 =? PAGE_83) then Some (1, d)
  else
    b6 ← byte_at page 6;
    if b6 =? 0 then Some (2, d)
    else
      a ← put 0 [hex_str SCSI_ID_TGTGROUP] (serial d);
      j ← length <$> cstring a;
      n ← byte_at page 3;
      data ← slice page 4 (Z.to_nat n);
      a ← put j (data ≫= hex_byte) a;
      Some (0, d <| serial := a |>).
Definition do_scsi_page83_prespc3_inquiry : prog Z := fun d w =>
  '((r, page), d, w) ← scsi_inquiry true PAGE_83 (zeros SCSI_INQ_BUFF_LEN) SCSI_INQ_BUFF_LEN d w;
  if r <? 0 then Some (1, d, w)
  else '(r, d) ← page83_prespc3 page d; Some (r, d, w).

(** ** The whole *)

(** The pages of page 0 from [ind] on: the first inquiry of [page] that works. *)
Fixpoint pages_loop (fuel : nat) (page0 : bytes) (ind : nat) (last page : Z) (inquiry : prog Z) : prog bool := fun d w =>
  match fuel with
  | O => Some (false, d, w)
  | S fuel' =>
      if Z.of_nat ind <=? last then
        b ← byte_at page0 ind;
        if b =? page then
          '(r, d, w) ← inquiry d w;
          if r =? 0 then Some (true, d, w) else pages_loop fuel' page0 (S ind) last page inquiry d w
        else pages_loop fuel' page0 (S ind) last page inquiry d w
      else Some (false, d, w)
  end.
Definition failed (r : Z) : Z := if r =? 0 then 0 else 1.
(** The device is open. *)
Definition serial_of_pages (page_code : Z) (len : nat) : prog Z := fun d w =>
  if page_code =? PAGE_80 then '(r, d, w) ← do_scsi_page80_inquiry len d w; Some (failed r, d, w)
  else if page_code =? PAGE_83 then '(r, d, w) ← do_scsi_page83_inquiry len d w; Some (failed r, d, w)
  else if page_code =? PAGE_83_PRE_SPC3 then
    '(r, d, w) ← do_scsi_page83_prespc3_inquiry d w;
    if r =? 0 then Some (0, d, w)
    else if r =? 2 then '(r, d, w) ← do_scsi_page83_inquiry len d w; Some (failed r, d, w)
    else Some (1, d, w)
  else if negb (page_code =? 0) then Some (1, d, w)
  else
    '((r, page0), d, w) ← do_scsi_page0_inquiry SCSI_INQ_BUFF_LEN d w;
    if negb (r =? 0) then Some (1, d, w)
    else
      b3 ← byte_at page0 3;
      '(ok, d, w) ← pages_loop 256 page0 4 (b3 + 3) PAGE_83 (do_scsi_page83_inquiry len) d w;
      if (ok : bool) then Some (0, d, w)
      else
        '(ok, d, w) ← pages_loop 256 page0 4 (b3 + 3) PAGE_80 (do_scsi_page80_inquiry len) d w;
        Some (if (ok : bool) then 0 else 1, d, w).

(** Opening the device: [None], or an error. *)
Context (sys_open : dev -> option Z * dev).
Definition EBUSY : Z := 16.
Fixpoint open_loop (cnt : nat) (w : dev) : bool * dev :=
  match cnt with
  | O => (false, w)
  | S cnt' => match sys_open w with (None, w) => (true, w) | (Some e, w) => if e =? EBUSY then open_loop cnt' w else (false, w) end
  end.
Definition scsi_get_serial (page_code : Z) (len : nat) : prog Z := fun d w =>
  a ← put 0 (zeros len) (serial d);
  let d := d <| serial := a |> in
  let '(opened, w) := open_loop 20 w in
  if (opened : bool) then serial_of_pages page_code len d w else Some (1, d, w).

(** [fstat] of the open device works or not. *)
Context (sys_fstat : dev -> bool * dev).
Definition scsi_std_inquiry : prog Z := fun d w =>
  match sys_open w with
  | (Some _, w) => Some (1, d, w)
  | (None, w) =>
      let '(ok, w) := sys_fstat w in
      if negb ok then Some (2, d, w)
      else
        '((err, buf), d, w) ← scsi_inquiry false 0 (zeros SCSI_INQ_BUFF_LEN) SCSI_INQ_BUFF_LEN d w;
        if err <? 0 then Some (err, d, w)
        else
          let str i n := fst (split_chr (take n (drop i buf)) nul) in
          b0 ← byte_at buf 0;
          Some (0, d <| vendor := str 8%nat 8%nat |> <| model := str 16%nat 16%nat |> <| revision := str 32%nat 4%nat |>
                     <| dev_type := fmt 16 (Z.land b0 0x1f) |>, w)
  end.
End device.
End Scsi.
