(* ===== verification/ScsiProps.v ===== *)
(** The serial number of a SCSI device: which descriptor of page 0x83 is
    chosen and what is stored, and where the inquiries leave their arrays. *)

From Stdlib Require Import ZArith Lia Ascii.
From stdpp Require Import prelude strings.
From S2P Require Import Prelude System Strings Encode Scsi.
Import Scsi.

Module ScsiProps.

(** * Arrays that start with a text and are zero behind it *)

Lemma zeros_length n : length (zeros n) = n.
Proof. apply length_replicate. Qed.
Lemma scsi_field_length n s : length (field n s) = n.
Proof. unfold field. rewrite length_take, length_app, zeros_length. lia. Qed.
Lemma scsi_field_fits n s : (length s <= n)%nat -> field n s = s ++ zeros (n - length s).
Proof. intros H. unfold field, zeros. rewrite take_app, take_ge by lia. f_equal. rewrite take_replicate. f_equal. lia. Qed.
Lemma field_nil n : field n [] = zeros n.
Proof. rewrite scsi_field_fits by (simpl; lia). simpl. by rewrite Nat.sub_0_r. Qed.
Lemma field_cut n s : (n <= length s)%nat -> field n s = take n s.
Proof. intros H. unfold field. by rewrite take_app_le by lia. Qed.
Lemma put_field n x s : (length x + length s <= n)%nat -> put (length x) s (field n x) = Some (field n (x ++ s)).
Proof.
  intros H. unfold put. rewrite scsi_field_length, (proj2 (Nat.leb_le _ _)) by lia. do 2 f_equal.
  rewrite !scsi_field_fits, length_app by (rewrite ?length_app; lia). rewrite take_app_length, <- drop_drop, drop_app_length, <- app_assoc. f_equal. f_equal.
  unfold zeros. rewrite drop_replicate. f_equal. lia.
Qed.
Lemma put_zeros n s : (length s <= n)%nat -> put 0 s (zeros n) = Some (field n s).
Proof. intros H. rewrite <- field_nil. by apply (put_field n []). Qed.
Lemma field_drop n k x : (k <= n)%nat -> drop k (field n x) = field (n - k) (drop k x).
Proof.
  intros H. unfold field. rewrite skipn_firstn_comm, drop_app, !take_app, length_drop. f_equal.
  unfold zeros. rewrite drop_replicate, !take_replicate. f_equal. lia.
Qed.
Lemma split_nul_app x n : split_chr (x ++ zeros (S n)) nul = (fst (split_chr x nul), Some (default (zeros n) ((fun r => r ++ zeros (S n)) <$> snd (split_chr x nul)))).
Proof.
  induction x as [|c x IH]; [done|]. cbn [app split_chr]. destruct (c ==c nul); [done|]. rewrite IH. destruct (split_chr x nul) as [a r]. done.
Qed.
Lemma cstring_field n x : (length x < n)%nat -> cstring (field n x) = Some (fst (split_chr x nul)).
Proof.
  intros H. unfold cstring. rewrite scsi_field_fits by lia. replace (n - length x)%nat with (S (n - length x - 1)) by lia. by rewrite split_nul_app.
Qed.
Lemma split_cstr x : cstr x -> split_chr x nul = (x, None).
Proof. intros H. induction H as [|c x Hc H IH]; [done|]. simpl. rewrite (proj2 (Ascii.eqb_neq c nul) Hc). by rewrite IH. Qed.
Lemma cut_length x : (length (fst (split_chr x nul)) <= length x)%nat.
Proof. induction x as [|c x IH]; [done|]. simpl. destruct (c ==c nul); [simpl; lia|]. destruct (split_chr x nul). simpl in *. lia. Qed.
Lemma cut_cstr x : cstr (fst (split_chr x nul)).
Proof.
  induction x as [|c x IH]; [constructor|]. simpl. destruct (eqbP c nul) as [->|Hc]; [constructor|]. destruct (split_chr x nul). by constructor.
Qed.
Lemma upto_field n x m : (length x < n)%nat -> upto (field n x) m = Some (fst (split_chr x nul)).
Proof.
  intros H. unfold upto. rewrite cstring_field by done. rewrite bool_decide_true by done. cbn [orb].
  f_equal. pose proof (cstring_field n x H) as E. unfold cstring in E. destruct (split_chr (field n x) nul) as [a [r|]]; [|done]. simpl in *. congruence.
Qed.
Lemma put_terminated n s : (length s < n)%nat -> put 0 (s ++ [nul]) (zeros n) = Some (field n s).
Proof.
  intros H. rewrite put_zeros by (rewrite length_app; simpl; lia). f_equal. rewrite !scsi_field_fits by (rewrite ?length_app; simpl; lia).
  rewrite <- app_assoc. f_equal. rewrite length_app. simpl. by replace (n - length s)%nat with (S (n - (length s + 1))) by lia.
Qed.
Lemma strncpy_zeros s n m : (n <= m)%nat -> strncpy 0 s n (zeros m) = Some (field m (take n s)).
Proof.
  intros H. unfold strncpy. rewrite put_zeros by (by rewrite scsi_field_length). f_equal.
  rewrite (scsi_field_fits m (field n s)) by (rewrite scsi_field_length; lia). rewrite (scsi_field_fits m (take n s)) by (rewrite length_take; lia).
  rewrite scsi_field_length, length_take.
  unfold field. rewrite take_app, <- app_assoc. f_equal. unfold zeros. rewrite take_replicate, <- replicate_add. f_equal. lia.
Qed.
Lemma nth_byte_at a i : (i < length a)%nat -> byte_at a i = Some (code (nth i a nul)).
Proof. intros H. unfold byte_at. destruct (lookup_lt_is_Some_2 a i H) as [c Hc]. rewrite Hc. by rewrite (nth_lookup_Some _ _ nul _ Hc). Qed.

Lemma hex_cstr z : cstr (fmt 16 z).
Proof.
  apply fmt_Forall_base; [lia|]. intros d Hd.
  assert (forallb (fun n => negb (digit_char (Z.of_nat n) ==c nul)) (seq 0 16) = true) as E by (by vm_compute).
  rewrite forallb_forall in E. specialize (E (Z.to_nat d)). rewrite Z2Nat.id in E by lia. intros Hn. rewrite Hn in E.
  assert (In (Z.to_nat d) (seq 0 16)) by (apply in_seq; lia). by specialize (E ltac:(assumption)).
Qed.
Lemma hex_bytes_length s : length (s ≫= hex_byte) = (2 * length s)%nat.
Proof. induction s as [|c s IH]; [done|]. rewrite bind_cons, length_app, IH. simpl. lia. Qed.
Lemma hex_str_not_nul v : 0 <= v < 16 -> hex_str v <> nul.
Proof.
  intros Hv. assert (forallb (fun n => negb (hex_str (Z.of_nat n) ==c nul)) (seq 0 16) = true) as E by (by vm_compute).
  rewrite forallb_forall in E. specialize (E (Z.to_nat v)). rewrite Z2Nat.id in E by lia. intros Hn. rewrite Hn in E.
  assert (In (Z.to_nat v) (seq 0 16)) by (apply in_seq; lia). by specialize (E ltac:(assumption)).
Qed.

(** * Page 0x83 *)

(** The value that is searched for first, the group of the target port. *)
Definition group_value : search_value := mk_search SCSI_ID_TGTGROUP SCSI_ID_NAA_DONT_CARE SCSI_ID_BINARY.

Section page.
Context (page : bytes).
Definition desc_byte (i : nat) : Z := code (nth i page nul).
Definition desc_len (p : nat) : nat := Z.to_nat (desc_byte (p + 3)).
(** The identifier of the descriptor at [p] as text. *)
Definition desc_text (p : nat) : bytes :=
  let data := take (desc_len p) (drop (p + 4) page) in
  if Z.land (desc_byte p) 0xf =? SCSI_ID_ASCII then data else data ≫= hex_byte.
(** What a descriptor must be for a value: of the device (or of the target
    port for its group), with its type, its kind of name and its code set. *)
Definition desc_matches (p : nat) (v : search_value) : bool :=
  let association := Z.land (desc_byte (p + 1)) 0x30 in
  ((association =? 0) || ((association =? 0x10) && (id_type v =? SCSI_ID_TGTGROUP))) &&
  (Z.land (desc_byte (p + 1)) 0x0f =? id_type v) &&
  ((naa_type v =? SCSI_ID_NAA_DONT_CARE) || (naa_type v =? Z.shiftr (Z.land (desc_byte (p + 4)) 0xf0) 4)) &&
  (Z.land (desc_byte p) 0x0f =? code_set v).
(** The length with the type, the names and the terminator. *)
Definition desc_need (p : nat) (v : search_value) : Z :=
  let n := Z.of_nat (desc_len p) in
  (if Z.land (desc_byte p) 0x0f =? SCSI_ID_ASCII then n else n * 2) + 2 +
  (if id_type v =? SCSI_ID_VENDOR_SPECIFIC then Z.of_nat (VENDOR_LENGTH + MODEL_LENGTH) else 0).
Definition desc_fits (v : search_value) (p : nat) : bool := desc_matches p v && (desc_need p v <=? Z.of_nat MAX_SERIAL_LEN).
Definition desc_group (p : nat) : Z := Z.lor (Z.shiftl (desc_byte (p + 6)) 8) (desc_byte (p + 7)).

(** The descriptor lies in the page; and so do the first byte of a name and the
    four bytes of a group, which are read whatever its length is. *)
Definition desc_ok (p : nat) : Prop :=
  (p + 4 + desc_len p <= length page)%nat /\
  (Z.land (desc_byte (p + 1)) 0x30 = 0 -> Z.land (desc_byte (p + 1)) 0x0f = SCSI_ID_NAA -> (p + 5 <= length page)%nat) /\
  (desc_fits group_value p = true -> (p + 8 <= length page)%nat).
(** The values that are searched for. *)
Definition listed (v : search_value) : Prop :=
  0 <= id_type v < 16 /\ (id_type v = SCSI_ID_TGTGROUP -> v = group_value) /\
  (naa_type v <> SCSI_ID_NAA_DONT_CARE -> id_type v = SCSI_ID_NAA).

Lemma id_matches_eq p v : desc_ok p -> listed v -> id_matches page p v = Some (desc_matches p v).
Proof using.
  intros (Hp & Hnaa & _) (_ & _ & Hv). unfold id_matches, desc_matches. rewrite !(nth_byte_at page (p + 1)), !(nth_byte_at page p) by lia.
  cbn [mbind option_bind]. fold (desc_byte (p + 1)) (desc_byte p). cbv zeta.
  destruct (Z.eqb_spec (naa_type v) SCSI_ID_NAA_DONT_CARE) as [|Hn].
  - destruct (Z.eqb_spec (Z.land (desc_byte (p + 1)) 0x30) 0x10) as [->|].
    + cbn [Z.eqb Pos.eqb orb andb]. destruct (id_type v =? SCSI_ID_TGTGROUP); [|done]. by destruct (_ =? id_type v).
    + rewrite orb_false_r. destruct (_ =? 0); [|done]. by destruct (_ =? id_type v).
  - specialize (Hv Hn). rewrite Hv. change (SCSI_ID_NAA =? SCSI_ID_TGTGROUP) with false. rewrite andb_false_r, orb_false_r. cbn [negb].
    destruct (Z.eqb_spec (Z.land (desc_byte (p + 1)) 0x30) 0x10) as [->|]; [done|].
    destruct (Z.eqb_spec (Z.land (desc_byte (p + 1)) 0x30) 0) as [H0|]; [|done].
    destruct (Z.eqb_spec (Z.land (desc_byte (p + 1)) 0x0f) SCSI_ID_NAA) as [H3|]; [|done]. cbn [negb andb orb].
    rewrite nth_byte_at by (specialize (Hnaa H0 H3); lia). cbn [mbind option_bind]. fold (desc_byte (p + 4)). by destruct (naa_type v =? _).
Qed.
Lemma id_text_eq p : desc_ok p -> id_text page p = Some (desc_text p).
Proof using.
  intros [H2 _]. unfold id_text. rewrite !nth_byte_at by lia. cbn [mbind option_bind]. fold (desc_byte (p + 3)) (desc_byte p) (desc_len p).
  unfold slice. by rewrite (proj2 (Nat.leb_le _ _)) by lia.
Qed.
Lemma desc_text_length p : desc_ok p ->
  Z.of_nat (length (desc_text p)) = if Z.land (desc_byte p) 0x0f =? SCSI_ID_ASCII then Z.of_nat (desc_len p) else Z.of_nat (desc_len p) * 2.
Proof using.
  intros [H2 _]. unfold desc_text. cbv zeta. assert (length (take (desc_len p) (drop (p + 4) page)) = desc_len p) as E by (rewrite length_take, length_drop; lia).
  destruct (_ =? SCSI_ID_ASCII); [by rewrite E|]. rewrite hex_bytes_length, E. lia.
Qed.
Lemma shift8_or a b : 0 <= b < 256 -> Z.lor (Z.shiftl a 8) b = a * 256 + b.
Proof using.
  intros Hb. rewrite Z.shiftl_mul_pow2 by lia. assert (Z.land (a * 2 ^ 8) b = 0) as H0.
  { apply Z.bits_inj'. intros n Hn. rewrite Z.land_spec, Z.bits_0. destruct (Z.ltb_spec n 8); [by rewrite Z.mul_pow2_bits_low by lia|].
    replace b with (b mod 2 ^ 8) by (apply Z.mod_small; lia). rewrite Z.mod_pow2_bits_high by lia. apply andb_false_r. }
  pose proof (Z.add_lor_land (a * 2 ^ 8) b). lia.
Qed.
Lemma desc_group_range p : 0 <= desc_group p < 16 ^ 4.
Proof using.
  unfold desc_group, desc_byte. pose proof (code_range (nth (p + 6) page nul)). pose proof (code_range (nth (p + 7) page nul)).
  rewrite shift8_or by done. lia.
Qed.

(** ** What is stored *)

(** The names of the device fill their fields. *)
Definition full_names (d : scsi_id_device) : Prop :=
  length (vendor d) = VENDOR_LENGTH /\ length (model d) = MODEL_LENGTH /\ cstr (vendor d) /\ cstr (model d).
(** The arrays before the inquiry; a target group may have been stored. *)
Definition fresh (d : scsi_id_device) : Prop :=
  serial d = zeros MAX_SERIAL_LEN /\ serial_short d = zeros MAX_SERIAL_LEN /\ wwn d = zeros 17 /\ wwn_vendor_extension d = zeros 17 /\
  length (tgpt_group d) = 8%nat.
Definition cut (s : bytes) : bytes := fst (split_chr s nul).
(** The serial number for a descriptor: its type as a digit, the names when
    the identifier is not unique without them, and the identifier. *)
Definition id_prefix (d : scsi_id_device) (v : search_value) : bytes :=
  hex_str (id_type v) :: (if id_type v =? SCSI_ID_VENDOR_SPECIFIC then vendor d ++ model d else []).
Definition stored (d : scsi_id_device) (v : search_value) (p : nat) : scsi_id_device :=
  let text := desc_text p in
  let d := d <| serial := field MAX_SERIAL_LEN (id_prefix d v ++ text) |> <| serial_short := field MAX_SERIAL_LEN (cut text) |> in
  if id_type v =? SCSI_ID_NAA then
    d <| wwn := field 17 (take 16 (cut text)) |> <| wwn_vendor_extension := field 17 (take 16 (cut (drop 16 text))) |>
  else d.
Definition store_group (a : bytes) (p : nat) : bytes := let s := fmt 16 (desc_group p) in s ++ [nul] ++ drop (length s + 1) a.

Lemma store_group_put a p : length a = 8%nat -> put 0 (fmt 16 (desc_group p) ++ [nul]) a = Some (store_group a p).
Proof using.
  intros Ha. pose proof (fmt_short 16 (desc_group p) 3 ltac:(lia) (desc_group_range p)) as Hf. unfold put, store_group. rewrite length_app. cbn [length Nat.add].
  rewrite (proj2 (Nat.leb_le _ _)) by lia. cbn [take app]. by rewrite <- app_assoc.
Qed.
Lemma store_group_length a p : length a = 8%nat -> length (store_group a p) = 8%nat.
Proof using.
  intros Ha. pose proof (fmt_short 16 (desc_group p) 3 ltac:(lia) (desc_group_range p)) as Hf. unfold store_group.
  rewrite !length_app, length_drop. simpl. lia.
Qed.
Lemma store_group_string a p : cstring (store_group a p) = Some (fmt 16 (desc_group p)).
Proof using.
  unfold cstring, store_group. cbn [app]. rewrite split_chr_app; [done|]. intros Hn. pose proof (hex_cstr (desc_group p)) as Hc.
  unfold cstr in Hc. rewrite Forall_forall in Hc. by apply (Hc _ Hn).
Qed.

Lemma prepend_full d c : full_names d -> cstr [c] ->
  prepend_vendor_model d 1 (field MAX_SERIAL_LEN [c]) = Some (24, field MAX_SERIAL_LEN (c :: vendor d ++ model d)).
Proof using.
  intros (Hv & Hm & Hcv & Hcm) Hc. unfold prepend_vendor_model, strncpy. rewrite (field_cut VENDOR_LENGTH) by lia.
  unfold MAX_SERIAL_LEN, VENDOR_LENGTH, MODEL_LENGTH in *. rewrite take_ge by lia.
  pose proof (put_field 256 [c] (vendor d) ltac:(simpl; lia)) as E1. cbn [length] in E1. rewrite E1. clear E1.
  cbn [mbind option_bind]. unfold strncat.
  rewrite (field_drop 256 1) by (simpl; lia). change (drop 1 ([c] ++ vendor d)) with (vendor d). rewrite cstring_field by lia.
  cbn [mbind option_bind]. rewrite (split_cstr (vendor d)) by done. cbn [fst].
  rewrite take_ge by lia. replace (1 + length (vendor d))%nat with (length ([c] ++ vendor d)) by done.
  rewrite put_field by (rewrite !length_app; simpl; lia). cbn [mbind option_bind].
  assert (field 256 (([c] ++ vendor d) ++ model d ++ [nul]) = field 256 (c :: vendor d ++ model d)) as ->.
  { rewrite !scsi_field_fits by (rewrite ?length_app; simpl; rewrite ?length_app; simpl; lia). cbn [app]. f_equal. rewrite <- !app_assoc. do 2 f_equal. cbn [app length].
    rewrite !length_app. cbn [length]. rewrite Hv, Hm. done. }
  rewrite (field_drop 256 1) by (simpl; lia). cbn [drop]. rewrite drop_0. rewrite cstring_field by (rewrite length_app; lia). cbn [mbind option_bind].
  rewrite split_cstr by (by apply Forall_app). cbn [fst]. by rewrite length_app, Hv, Hm.
Qed.

(** The names are needed for an identifier that is not unique without. *)
Definition names_ok (d : scsi_id_device) (v : search_value) : Prop := id_type v = SCSI_ID_VENDOR_SPECIFIC -> full_names d.
Lemma id_prefix_ok d v : names_ok d v -> 0 <= id_type v < 16 ->
  cstr (id_prefix d v) /\
  Z.of_nat (length (id_prefix d v)) = 1 + (if id_type v =? SCSI_ID_VENDOR_SPECIFIC then Z.of_nat (VENDOR_LENGTH + MODEL_LENGTH) else 0).
Proof using.
  intros Hn Hi. unfold id_prefix. pose proof (hex_str_not_nul _ Hi).
  destruct (Z.eqb_spec (id_type v) SCSI_ID_VENDOR_SPECIFIC) as [Hv|]; [|split; [by repeat constructor|done]].
  destruct (Hn Hv) as (Hv' & Hm & Hcv & Hcm). split; [constructor; [done|]; by apply Forall_app|].
  cbn [length]. rewrite length_app. lia.
Qed.
(** What one descriptor does: a group is remembered, another identifier that
    fits is stored, and everything else is passed over. *)
Lemma check_fill_eq d p v :
  desc_ok p -> fresh d -> listed v -> (desc_fits v p = true -> names_ok d v) ->
  check_fill_0x83_id page p v (Z.of_nat MAX_SERIAL_LEN) d =
    Some (if desc_fits v p then
            if id_type v =? SCSI_ID_TGTGROUP then (1, d <| tgpt_group := store_group (tgpt_group d) p |>) else (0, stored d v p)
          else (1, d)).
Proof using.
  intros Hp (Hs & Hss & Hw & He & Hg) Hv Hn. pose proof Hv as (Hi & Htg & _). pose proof Hp as (Hp1 & _ & Hp2).
  unfold check_fill_0x83_id. unfold desc_fits in *.
  rewrite id_matches_eq by done. cbn [mbind option_bind]. destruct (desc_matches p v) eqn:Hm; [|done]. cbn [negb andb] in *.
  rewrite !(nth_byte_at page (p + 3)), !(nth_byte_at page p) by lia. cbn [mbind option_bind]. fold (desc_byte (p + 3)) (desc_byte p).
  assert (desc_byte (p + 3) = Z.of_nat (desc_len p)) as En by (unfold desc_len; pose proof (code_range (nth (p + 3) page nul)); unfold desc_byte in *; lia).
  rewrite En. fold (desc_need p v). rewrite Z.ltb_antisym. destruct (Z.leb_spec (desc_need p v) (Z.of_nat MAX_SERIAL_LEN)) as [Hfit|]; [|done]. cbn [negb].
  destruct (Z.eqb_spec (id_type v) SCSI_ID_TGTGROUP) as [Ht0|].
  { rewrite <- (Htg Ht0), Hm, (proj2 (Z.leb_le _ _)) in Hp2 by done. specialize (Hp2 eq_refl). rewrite !nth_byte_at by lia.
    cbn [mbind option_bind]. fold (desc_byte (p + 6)) (desc_byte (p + 7)) (desc_group p). by rewrite store_group_put. }
  specialize (Hn eq_refl). rewrite Hs, put_zeros by (simpl; unfold MAX_SERIAL_LEN; lia).
  cbn [mbind option_bind].
  assert (exists r, (if id_type v =? SCSI_ID_VENDOR_SPECIFIC then prepend_vendor_model d 1 (field MAX_SERIAL_LEN [hex_str (id_type v)])
    else Some (0, field MAX_SERIAL_LEN [hex_str (id_type v)])) = Some (r, field MAX_SERIAL_LEN (id_prefix d v)) /\ 0 <= r) as (r & -> & Hr).
  { unfold id_prefix. destruct (Z.eqb_spec (id_type v) SCSI_ID_VENDOR_SPECIFIC); [|by exists 0]. exists 24. split; [|done].
    apply prepend_full; [by apply Hn|]. constructor; [by apply hex_str_not_nul|constructor]. }
  cbn [mbind option_bind]. rewrite (proj2 (Z.ltb_ge r 0)) by done. destruct (id_prefix_ok d v Hn Hi) as [Hpc Hpl]. pose proof (desc_text_length p Hp) as Ht.
  assert (length (id_prefix d v) + length (desc_text p) < MAX_SERIAL_LEN)%nat as Hlen by (unfold desc_need in Hfit; cbv zeta in Hfit; lia).
  rewrite cstring_field by lia. cbn [fmap option_fmap option_map mbind option_bind]. rewrite (split_cstr (id_prefix d v)) by done. cbn [fst].
  rewrite id_text_eq by done. cbn [mbind option_bind]. rewrite put_field by lia. cbn [mbind option_bind].
  rewrite (field_drop _ (length (id_prefix d v))) by lia. rewrite drop_app_length, cstring_field by lia. cbn [mbind option_bind]. fold (cut (desc_text p)).
  rewrite Hss. pose proof (cut_length (desc_text p)). fold (cut (desc_text p)) in *. rewrite put_terminated by lia. cbn [mbind option_bind]. unfold stored.
  destruct (id_type v =? SCSI_ID_NAA) eqn:Enaa; [|done].
  rewrite upto_field by lia. cbn [mbind option_bind]. fold (cut (desc_text p)).
  assert (length (id_prefix d v) = 1)%nat as Hl1 by (unfold id_prefix; apply Z.eqb_eq in Enaa; by rewrite Enaa).
  change (wwn (d <| serial := _ |> <| serial_short := _ |>)) with (wwn d). rewrite Hw, strncpy_zeros by lia. cbn [mbind option_bind].
  rewrite field_drop by (unfold MAX_SERIAL_LEN; lia). rewrite Hl1. rewrite <- drop_drop, drop_app_length' by done.
  rewrite upto_field by (rewrite length_drop; unfold MAX_SERIAL_LEN in *; lia). cbn [mbind option_bind]. fold (cut (drop 16 (desc_text p))).
  change (wwn_vendor_extension (d <| serial := _ |> <| serial_short := _ |>)) with (wwn_vendor_extension d).
  by rewrite He, strncpy_zeros by lia.
Qed.

(** ** The search *)

(** Where the descriptors start. *)
Fixpoint offsets (fuel : nat) (last : Z) (j : nat) : list nat :=
  match fuel with
  | O => []
  | S fuel' => if Z.of_nat j <=? last then j :: offsets fuel' last (j + desc_len j + 4) else []
  end.
Lemma offsets_fuel fuel fuel' last j :
  last + 1 - Z.of_nat j <= Z.of_nat fuel -> last + 1 - Z.of_nat j <= Z.of_nat fuel' -> offsets fuel last j = offsets fuel' last j.
Proof using.
  revert fuel' j. induction fuel as [|fuel IH]; intros [|fuel'] j H1 H2; cbn [offsets]; [done| |..].
  1-2: by rewrite (proj2 (Z.leb_gt _ _)) by lia.
  destruct (Z.leb_spec (Z.of_nat j) last); [|done]. f_equal. apply IH; lia.
Qed.
Definition fitting (v : search_value) (ps : list nat) : list nat := filter (fun p => desc_fits v p = true) ps.
Definition candidates (vs : list search_value) (ps : list nat) : list (search_value * nat) := vs ≫= fun v => pair v <$> fitting v ps.

Lemma fitting_cons v p ps : fitting v (p :: ps) = if desc_fits v p then p :: fitting v ps else fitting v ps.
Proof using. unfold fitting. rewrite filter_cons. by destruct (desc_fits v p). Qed.
Lemma desc_len_eq p : desc_ok p -> byte_at page (p + 3) = Some (Z.of_nat (desc_len p)).
Proof using.
  intros [H2 _]. rewrite nth_byte_at by lia. f_equal. unfold desc_len, desc_byte. pose proof (code_range (nth (p + 3) page nul)). lia.
Qed.
Lemma fresh_group d p : fresh d -> fresh (d <| tgpt_group := store_group (tgpt_group d) p |>).
Proof using. intros (? & ? & ? & ? & ?). split_and!; try done. by apply store_group_length. Qed.
Lemma descriptors_group fuel v last j d :
  Forall desc_ok (offsets fuel last j) -> fresh d -> v = group_value ->
  descriptors_loop fuel page v last j (Z.of_nat MAX_SERIAL_LEN) d =
    Some (1, d <| tgpt_group := foldl store_group (tgpt_group d) (fitting v (offsets fuel last j)) |>).
Proof using.
  revert j d. induction fuel as [|fuel IH]; intros j d Ho Hf Hv; [by destruct d|]. cbn [descriptors_loop offsets] in *.
  destruct (Z.of_nat j <=? last); [|by destruct d]. inversion_clear Ho as [|? ? Hj Ho']. rewrite check_fill_eq by (rewrite ?Hv; done).
  cbn [mbind option_bind]. rewrite fitting_cons. assert ((id_type v =? SCSI_ID_TGTGROUP) = true) as -> by by rewrite Hv.
  destruct (desc_fits v j); cbn [Z.leb Z.compare foldl mbind option_bind]; rewrite desc_len_eq by done; cbn [mbind option_bind]; rewrite Nat2Z.id.
  - rewrite IH by (try done; by apply fresh_group). by destruct d.
  - by apply IH.
Qed.
Lemma descriptors_search fuel v last j d :
  Forall desc_ok (offsets fuel last j) -> fresh d -> listed v -> id_type v <> SCSI_ID_TGTGROUP ->
  (forall p, head (fitting v (offsets fuel last j)) = Some p -> names_ok d v) ->
  descriptors_loop fuel page v last j (Z.of_nat MAX_SERIAL_LEN) d =
    Some (match head (fitting v (offsets fuel last j)) with Some p => (0, stored d v p) | None => (1, d) end).
Proof using.
  revert j. induction fuel as [|fuel IH]; intros j Ho Hf Hi Hv Hn; [done|]. cbn [descriptors_loop offsets] in *.
  destruct (Z.of_nat j <=? last); [|done]. inversion_clear Ho as [|? ? Hj Ho']. rewrite fitting_cons in Hn |- *.
  rewrite check_fill_eq by (try done; intros Hfit; rewrite Hfit in Hn; by apply (Hn j)).
  cbn [mbind option_bind]. rewrite (proj2 (Z.eqb_neq _ _) Hv). destruct (desc_fits v j); [done|].
  cbn [Z.leb Z.compare]. rewrite desc_len_eq by done. cbn [mbind option_bind]. rewrite Nat2Z.id. by apply IH.
Qed.
Hypothesis page_length : length page = SCSI_INQ_BUFF_LEN.
Definition page_offsets : list nat := offsets (length page) (desc_byte 3 + 3) 4.
Lemma search_eq vs d :
  Forall desc_ok page_offsets -> fresh d -> Forall (fun v => listed v /\ id_type v <> SCSI_ID_TGTGROUP) vs ->
  (forall v p, head (candidates vs page_offsets) = Some (v, p) -> names_ok d v) ->
  search_loop page vs (Z.of_nat MAX_SERIAL_LEN) d =
    Some (match head (candidates vs page_offsets) with Some (v, p) => (0, stored d v p) | None => (1, d) end).
Proof using page_length.
  intros Ho Hf Hvs. induction Hvs as [|v vs [Hi Hv] Hvs IH]; intros Hn; [done|]. cbn [search_loop]. rewrite nth_byte_at by (rewrite page_length; unfold SCSI_INQ_BUFF_LEN; lia).
  cbn [mbind option_bind]. fold (desc_byte 3). unfold candidates in Hn |- *. rewrite bind_cons in Hn |- *. fold (candidates vs page_offsets) in Hn |- *.
  rewrite descriptors_search; [|done..|].
  2: { fold page_offsets. intros p Hp. apply (Hn v p). by destruct (fitting v page_offsets); simplify_eq/=. }
  fold page_offsets. cbn [mbind option_bind]. destruct (fitting v page_offsets) as [|p ps]; cbn [head Z.leb Z.compare fmap list_fmap app] in *; [by apply IH|done].
Qed.
End page.

Lemma fresh_groups page d ps : fresh d -> fresh (d <| tgpt_group := foldl (store_group page) (tgpt_group d) ps |>).
Proof.
  intros (? & ? & ? & ? & Hg). split_and!; try done. cbn [tgpt_group set_field]. simpl. revert Hg. generalize (tgpt_group d) as a.
  induction ps as [|p ps IH]; intros a Ha; [done|]. apply IH. by apply store_group_length.
Qed.
Lemma groups_string page a ps : length a = 8%nat ->
  cstring (foldl (store_group page) a ps) = match last ps with Some p => Some (fmt 16 (desc_group page p)) | None => cstring a end.
Proof.
  revert a. induction ps as [|p ps IH]; intros a Ha; [done|]. cbn [foldl]. rewrite IH by (by apply store_group_length).
  rewrite last_cons. destruct (last ps); [done|apply store_group_string].
Qed.

(** C39: of the descriptors of page 0x83 the first one is taken that fits the
    best kind of identifier that occurs, in the order of [id_search_list];
    the serial number and its short form are stored from it, with the world
    wide name where it is one, and the group of the target port is that of
    the last descriptor that has one.  The page is one in the format of SPC-2
    and later (its seventh byte is 0), and the arrays of the device are empty.
    Nothing is read or written outside of the arrays when the descriptors lie
    in the page together with the byte of a name and the four bytes of a group
    that are read whatever their length is ([desc_ok]; [group_read_behind] is
    what happens otherwise).  When the identifier that is taken is one that
    needs the vendor and the model, these fill their fields
    ([short_names_serial] is what happens otherwise). *)
Theorem page83_exact page d :
  length page = SCSI_INQ_BUFF_LEN -> desc_byte page 1 = PAGE_83 -> desc_byte page 6 = 0 ->
  Forall (desc_ok page) (page_offsets page) -> fresh d ->
  (forall v p, head (candidates page (tail id_search_list) (page_offsets page)) = Some (v, p) ->
     id_type v = SCSI_ID_VENDOR_SPECIFIC -> full_names d) ->
  exists group, let d' := d <| tgpt_group := group |> in
    page83 page MAX_SERIAL_LEN d =
      Some (match head (candidates page (tail id_search_list) (page_offsets page)) with
            | Some (v, p) => (0, stored page d' v p)
            | None => (1, d')
            end) /\
    cstring group =
      match last (fitting page group_value (page_offsets page)) with
      | Some p => Some (fmt 16 (desc_group page p))
      | None => cstring (tgpt_group d)
      end.
Proof.
  intros Hl H1 H6 Ho Hf Hn. exists (foldl (store_group page) (tgpt_group d) (fitting page group_value (page_offsets page))).
  split; [|apply groups_string; apply Hf]. unfold page83. rewrite !nth_byte_at by (rewrite Hl; unfold SCSI_INQ_BUFF_LEN; lia).
  cbn [mbind option_bind]. fold (desc_byte page 1) (desc_byte page 6). rewrite H1, H6, Z.eqb_refl. cbn [negb Z.eqb].
  change id_search_list with (group_value :: tail id_search_list) at 1.
  assert (Forall (fun v => listed v /\ id_type v <> SCSI_ID_TGTGROUP) (tail id_search_list)) as Hvs.
  { repeat constructor; simpl; unfold SCSI_ID_TGTGROUP, SCSI_ID_NAA, SCSI_ID_EUI_64, SCSI_ID_T10_VENDOR, SCSI_ID_VENDOR_SPECIFIC; done || lia. }
  revert Hvs Hn. generalize (tail id_search_list) as vs. intros vs Hvs Hn. cbn [search_loop].
  rewrite nth_byte_at by (rewrite Hl; unfold SCSI_INQ_BUFF_LEN; lia). cbn [mbind option_bind]. fold (desc_byte page 3). rewrite descriptors_group by done.
  fold (page_offsets page). cbn [mbind option_bind Z.leb Z.compare]. apply search_eq; [done|done|by apply fresh_groups|done|exact Hn].
Qed.
Lemma page83_exact_witness :
  let id1 : bytes := [chr 2; chr 1; nul; chr 6] ++ "ACME 7" in
  let id2 : bytes := [chr 1; chr 3; nul; chr 8; chr 0x50; chr 1; chr 2; chr 3; chr 4; chr 5; chr 6; chr 0xff] in
  let page := field SCSI_INQ_BUFF_LEN ([nul; chr 0x83; nul; chr 22] ++ id1 ++ id2) in
  let d := (device_zero 4) <| vendor := "ACME    " |> <| model := "Disk            " |> in
  page_offsets page = [4; 14]%nat /\
  exists d', page83 page MAX_SERIAL_LEN d = Some (0, d') /\ cstring (serial d') = Some ("350010203040506ff" : bytes) /\
    cstring (wwn d') = Some ("50010203040506ff" : bytes).
Proof.
  intros id1 id2 page d. split; [by vm_compute|].
  destruct (page83_exact page d) as (group & H & _); [by vm_compute|by vm_compute|by vm_compute| | | |].
  - assert (page_offsets page = [4; 14]%nat) as -> by (by vm_compute).
    repeat constructor; unfold desc_ok; intros; vm_compute; lia.
  - by split_and!.
  - intros v p _ _. split_and!; [done|done|repeat constructor; done|repeat constructor; done].
  - assert (head (candidates page (tail id_search_list) (page_offsets page)) = Some (mk_search SCSI_ID_NAA SCSI_ID_NAA_IEEE_REG SCSI_ID_BINARY, 14%nat)) as E by (by vm_compute).
    rewrite E in H. eexists. split; [exact H|]. split; by vm_compute.
Defined.

(** * Page 0x80 *)

(** The number of the unit behind the names, when all of it fits; its length
    is then so small that it lies in the page. *)
Lemma page80_exact d buf :
  length buf = SCSI_INQ_BUFF_LEN -> full_names d ->
  let n := Z.to_nat (desc_byte buf 3) in
  let data := take n (drop 4 buf) in
  page80 d buf (Some (zeros MAX_SERIAL_LEN)) (zeros MAX_SERIAL_LEN) MAX_SERIAL_LEN =
    Some (if (desc_byte buf 1 =? PAGE_80) && (25 + n <=? MAX_SERIAL_LEN)%nat
          then (0, Some (field MAX_SERIAL_LEN ("S"%char :: vendor d ++ model d ++ data)), field MAX_SERIAL_LEN data)
          else (1, Some (zeros MAX_SERIAL_LEN), zeros MAX_SERIAL_LEN)).
Proof.
  intros Hl Hn n data. unfold page80. rewrite !nth_byte_at by (rewrite Hl; unfold SCSI_INQ_BUFF_LEN; lia). cbn [mbind option_bind].
  fold (desc_byte buf 1) (desc_byte buf 3). fold n. destruct (desc_byte buf 1 =? PAGE_80); [|done]. cbn [negb andb].
  change (1 + VENDOR_LENGTH + MODEL_LENGTH + n)%nat with (25 + n)%nat. rewrite Nat.ltb_antisym.
  destruct (Nat.leb_spec (25 + n) MAX_SERIAL_LEN) as [Hfit|]; [|done]. cbn [negb]. rewrite put_zeros by (simpl; unfold MAX_SERIAL_LEN; lia).
  cbn [mbind option_bind]. rewrite prepend_full by (try done; repeat constructor; done). cbn [mbind option_bind Z.ltb Z.compare].
  unfold slice. rewrite Hl. unfold MAX_SERIAL_LEN, SCSI_INQ_BUFF_LEN in *. rewrite (proj2 (Nat.leb_le _ _)) by lia. cbn [mbind option_bind].
  fold data. assert (length data = n) as Hd by (unfold data; rewrite length_take, length_drop; lia).
  destruct Hn as (Hv & Hm & _ & _). unfold VENDOR_LENGTH, MODEL_LENGTH in *.
  pose proof (put_field 256 ("S"%char :: vendor d ++ model d) data) as E. cbn [length] in E. rewrite length_app, Hv, Hm in E.
  change (S (Z.to_nat 24)) with (S (8 + 16))%nat. rewrite E by lia. cbn [mbind option_bind]. rewrite put_terminated by lia.
  cbn [mbind option_bind app]. by rewrite <- app_assoc.
Qed.

(** * Outside of the arrays *)

(** The list of pages may be as long as the whole buffer, which starts with
    four other bytes. *)
Lemma page0_read_behind d :
  pages_loop (dev := unit) 256 (field SCSI_INQ_BUFF_LEN [nul; nul; nul; chr 254]) 4 (254 + 3) PAGE_83 (fun d w => Some (1, d, w)) d () = None.
Proof. by vm_compute. Qed.
(** So may the list of descriptors. *)
Lemma page83_read_behind d : page83 (field SCSI_INQ_BUFF_LEN [nul; chr 0x83; nul; chr 255]) MAX_SERIAL_LEN d = None.
Proof. destruct d. by vm_compute. Qed.
(** A group is read at the end of the page although its descriptor, which is
    empty, lies in it. *)
Lemma group_read_behind d :
  let page := field SCSI_INQ_BUFF_LEN ([nul; chr 0x83; nul; chr 247] ++ [chr 1; chr 8; nul; chr 242] ++ zeros 242 ++ [chr 1; chr 0x15; nul; nul]) in
  page_offsets page = [4; 250]%nat /\ desc_len page 250 = 0%nat /\ page83 page MAX_SERIAL_LEN d = None.
Proof. destruct d. by vm_compute. Qed.
(** In the old format the number is written without a test of its length. *)
Lemma prespc3_overflow page d :
  length page = SCSI_INQ_BUFF_LEN -> desc_byte page 1 = PAGE_83 -> desc_byte page 6 <> 0 -> 128 <= desc_byte page 3 ->
  serial d = zeros MAX_SERIAL_LEN -> page83_prespc3 page d = None.
Proof.
  intros Hl H1 H6 H3 Hs. unfold page83_prespc3. rewrite !nth_byte_at by (rewrite Hl; unfold SCSI_INQ_BUFF_LEN; lia). cbn [mbind option_bind].
  fold (desc_byte page 1) (desc_byte page 6) (desc_byte page 3). rewrite H1, Z.eqb_refl, (proj2 (Z.eqb_neq _ _) H6). cbn [negb].
  rewrite Hs, put_zeros by (simpl; unfold MAX_SERIAL_LEN; lia). cbn [mbind option_bind]. rewrite cstring_field by (simpl; unfold MAX_SERIAL_LEN; lia).
  cbn [fmap option_fmap option_map mbind option_bind]. change (length (fst (split_chr [hex_str SCSI_ID_TGTGROUP] nul))) with 1%nat.
  unfold slice. destruct (Nat.leb_spec (4 + Z.to_nat (desc_byte page 3)) (length page)); [|done]. cbn [mbind option_bind]. unfold put.
  rewrite hex_bytes_length, length_take, length_drop, scsi_field_length. rewrite (proj2 (Nat.leb_gt _ _)) by (unfold MAX_SERIAL_LEN; lia). done.
Qed.
(** A vendor name with a NUL in it: the number is refused, but its start stays
    in the array, and the program prints it. *)
Lemma short_names_serial :
  let page := field SCSI_INQ_BUFF_LEN [nul; chr 0x83; nul; chr 6; chr 2; nul; nul; chr 2; "4"%char; "2"%char] in
  let d := (device_zero 4) <| vendor := "ACME" |> <| model := "Disk" |> in
  exists d', page83 page MAX_SERIAL_LEN d = Some (1, d') /\ cstring (serial d') = Some ("0ACMEDisk" : bytes).
Proof. eexists. split; by vm_compute. Qed.
End ScsiProps.
