(* ===== verification/ScsiId.v ===== *)
(** The program src/scsi_id/scsi_id.c: its options, its configuration file and
    what it prints. *)

From Stdlib Require Import ZArith Lia Ascii.
From stdpp Require Import prelude strings.
From S2P Require Import Prelude System Strings Encode BuiltinPath Util Getopt Scsi.
Import Strxcpyx Scan Getopt Scsi.

Module ScsiId.
Import Util.

Definition MAX_PATH_LEN : nat := 512.
Definition MAX_BUFFER_LEN : nat := 256.

(** * Options *)

(** The static variables with the device of the command line, and whether the
    level of the log was raised. *)
Record config := mk_config {
  all_good : bool; dev_specified : bool; config_file : bytes; default_page_code : Z; sg_version : Z;
  reformat_serial : bool; export : bool; verbose : bool; maj_min_dev : bytes }.
#[export] Instance config_eta : Eta config := fun x => mk_config
  (all_good x) (dev_specified x) (config_file x) (default_page_code x) (sg_version x) (reformat_serial x) (export x) (verbose x) (maj_min_dev x).

Definition options : list option_ := [
  mk_option "device" required_argument "d"; mk_option "config" required_argument "f"; mk_option "page" required_argument "p";
  mk_option "blacklisted" no_argument "b"; mk_option "whitelisted" no_argument "g"; mk_option "replace-whitespace" no_argument "u";
  mk_option "sg-version" required_argument "s"; mk_option "verbose" no_argument "v"; mk_option "version" no_argument "V";
  mk_option "export" no_argument "x"; mk_option "help" no_argument "h"].
Definition page_of (optarg : bytes) : option Z :=
  if bool_decide (optarg = ("0x80" : bytes)) then Some PAGE_80
  else if bool_decide (optarg = ("0x83" : bytes)) then Some PAGE_83
  else if bool_decide (optarg = ("pre-spc3-83" : bytes)) then Some PAGE_83_PRE_SPC3
  else None.
(** [inl] is the end with the result -1; what was set stays. *)
Definition set_option (c : config) (f : found) : config + config :=
  let '(option, arg) := f in
  let optarg := default [] arg in
  if option ==c "b" then inr (c <| all_good := false |>)
  else if option ==c "d" then inr (c <| dev_specified := true |> <| maj_min_dev := fst (strscpy MAX_PATH_LEN optarg) |>)
  else if option ==c "f" then inr (c <| config_file := fst (strscpy MAX_PATH_LEN optarg) |>)
  else if option ==c "g" then inr (c <| all_good := true |>)
  else if option ==c "h" then inl c
  else if option ==c "p" then match page_of optarg with Some p => inr (c <| default_page_code := p |>) | None => inl c end
  else if option ==c "s" then
    let c := c <| sg_version := atoi optarg |> in
    if (sg_version c <? 3) || (4 <? sg_version c) then inl c else inr c
  else if option ==c "u" then inr (c <| reformat_serial := true |>)
  else if option ==c "v" then inr (c <| verbose := true |>)
  else if option ==c "x" then inr (c <| export := true |>)
  else inl c.
Fixpoint set_option_loop (c : config) (fs : list found) : config + config :=
  match fs with
  | [] => inr c
  | f :: fs' => match set_option c f with inr c => set_option_loop c fs' | inl c => inl c end
  end.
Definition set_options (argv : list bytes) (c : config) : Z * config :=
  let '(fs, rest) := getopt_long "d:f:gp:uvVxh" options argv in
  match set_option_loop c fs with
  | inl c => (-1, c)
  | inr c =>
      match rest with
      | arg :: _ => if dev_specified c then (0, c) else (0, c <| dev_specified := true |> <| maj_min_dev := fst (strscpy MAX_PATH_LEN arg) |>)
      | [] => (0, c)
      end
  end.

(** * The configuration file *)

(** [strsep]; [None] is a NULL pointer. *)
Definition strsep (set : bytes) (buf : option bytes) : option bytes * option bytes :=
  match buf with
  | None => (None, None)
  | Some s => let '(a, rest) := until_set set s in (Some a, match rest with [] => None | _ :: r => Some r end)
  end.
(** The value and what follows; [None] follows a NULL pointer or reads behind
    the line. *)
Definition get_value (buf : option bytes) : option (bytes * bytes) :=
  s ← buf;
  match s with
  | c :: s' =>
      if c ==c "034" then
        match strsep ["034"%char; newline] (Some s') with
        | (Some val, Some (_ :: rest)) => Some (val, skip_space rest)
        | _ => None
        end
      else match strsep [","%char; newline] (Some s) with
           | (Some val, Some rest) => Some (val, skip_space rest)
           | _ => None
           end
  | [] => None
  end.
Definition is_key (str : option bytes) (key : bytes) : bool :=
  match str with Some s => bool_decide (ascii_strlower s = ascii_strlower key) | None => false end.
(** The vendor, the model and the options of a line. *)
Definition line_values (buf : bytes) : option (option bytes * option bytes * option bytes) :=
  let '(str1, buf) := strsep "=" (Some buf) in
  '(vendor_in, model_in, str1, buf) ←
    (if is_key str1 "VENDOR" then
       '(vendor_in, buf) ← get_value buf;
       let '(str1, buf) := strsep "=" (Some buf) in
       if is_key str1 "MODEL" then
         '(model_in, buf) ← get_value buf;
         let '(str1, buf) := strsep "=" (Some buf) in
         Some (Some vendor_in, Some model_in, str1, buf)
       else Some (Some vendor_in, None, str1, buf)
     else Some (None, None, str1, buf));
  if is_key str1 "OPTIONS" then '(options_in, _) ← get_value buf; Some (vendor_in, model_in, Some options_in)
  else Some (vendor_in, model_in, None).
(** The line is the one that is looked for. *)
Definition line_matches (names : option (bytes * bytes)) (vendor_in model_in : option bytes) : bool :=
  match names with
  | None => match vendor_in with None => true | Some _ => false end
  | Some (vendor, model) =>
      match vendor_in with
      | Some v => bool_decide (is_Some (startswith vendor v)) && match model_in with Some m => bool_decide (is_Some (startswith model m)) | None => true end
      | None => false
      end
  end.
(** The result of the loop: 0 with the options of the line, 1 at the end, -1
    for a line that is wrong. *)
Fixpoint lines_loop (fuel : nat) (names : option (bytes * bytes)) (f : bytes) : option (Z * bytes) :=
  match fuel with
  | O => Some (1, [])
  | S fuel' =>
      match fgets MAX_BUFFER_LEN f with
      | None => Some (1, [])
      | Some (line, f) =>
          if negb (bool_decide (last line = Some newline)) then Some (1, [])
          else
            match skip_space line with
            | [] => lines_loop fuel' names f
            | (c :: _) as buf =>
                if c ==c "#" then lines_loop fuel' names f
                else
                  '(vendor_in, model_in, options_in) ← line_values buf;
                  match options_in with
                  | None => Some (-1, [])
                  | Some o => if line_matches names vendor_in model_in then Some (0, o) else lines_loop fuel' names f
                  end
            end
      end
  end.
Definition argc_count (opts : bytes) : nat := length (filter (fun c => c = " "%char) opts).
(** The first [n] words. *)
Fixpoint words (n : nat) (buf : option bytes) : list bytes :=
  match n with
  | O => []
  | S n' => match strsep [" "%char; "009"%char] buf with (Some w, buf) => w :: words n' buf | (None, _) => [] end
  end.
Definition ENOENT : Z := 2.
(** Opening the file gives an error or its text. *)
Definition get_file_options (names : option (bytes * bytes)) (file : Z + bytes) : option (Z * list bytes) :=
  match file with
  | inl errno => Some (if errno =? ENOENT then 1 else -1, [])
  | inr f =>
      '(retval, options_in) ← lines_loop (S (length f)) names f;
      Some (retval, if retval =? 0 then words (S (argc_count options_in)) (Some options_in) else [])
  end.
Fixpoint per_dev_loop (good_bad : bool) (page_code : Z) (fs : list found) : bool * Z * Z :=
  match fs with
  | [] => (good_bad, page_code, 0)
  | (option, arg) :: fs' =>
      if option ==c "b" then per_dev_loop false page_code fs'
      else if option ==c "g" then per_dev_loop true page_code fs'
      else if option ==c "p" then
        match page_of (default [] arg) with Some p => per_dev_loop good_bad p fs' | None => (good_bad, page_code, -1) end
      else (good_bad, page_code, -1)
  end.
Definition per_dev_options (c : config) (names : bytes * bytes) (file : Z + bytes) : option (bool * Z * Z) :=
  '(retval, argv) ← get_file_options (Some names) file;
  Some (if retval =? 0 then per_dev_loop (all_good c) (default_page_code c) (fst (getopt_long "bgp:" options argv))
        else (all_good c, default_page_code c, retval)).

(** * The values *)

Definition set_type (from : bytes) : bytes :=
  let '(neg, v, rest) := strto_prefix 0 from in
  if (length rest =? length from)%nat then "generic"
  else
    let n := s32 (fst (strtoul_prefix 0 from)) in
    if n =? 0 then "disk" else if n =? 1 then "tape" else if n =? 4 then "optical" else if n =? 5 then "cd"
    else if n =? 7 then "optical" else if n =? 0xe then "disk" else if n =? 0xf then "optical" else "generic".
(** The strings made from the names. *)
Record values := mk_values { vendor_str : bytes; vendor_enc_str : bytes; model_str : bytes; model_enc_str : bytes; revision_str : bytes; type_str : bytes }.
Definition clean (s : bytes) (len : nat) : bytes := fst (util_replace_chars (util_replace_whitespace s len) None).
Definition values_of (d : scsi_id_device) : values :=
  mk_values (clean (vendor d) 64) (fst (udev_util_encode_string (vendor d) 256)) (clean (model d) 64) (fst (udev_util_encode_string (model d) 256))
    (clean (revision d) 16) (fst (strscpy 16 (set_type (dev_type d)))).
Definition no_values : values := mk_values [] [] [] [] [] [].

Section program.
Context {dev : Type} (sg_io : Z -> bool -> Z -> dev -> (Z + sg_reply) * dev).
Context (sys_open : bytes -> dev -> option Z * dev) (sys_fstat : dev -> bool * dev).
Context (read_file : bytes -> Z + bytes).

Definition set_inq_values (c : config) (path : bytes) (w : dev) : option (Z * scsi_id_device * values * dev) :=
  '(r, d, w) ← scsi_std_inquiry sg_io (sys_open path) sys_fstat (device_zero (sg_version c)) w;
  Some (r, d, if r =? 0 then values_of d else no_values, w).
(** A line that is printed. *)
Definition line (name value : bytes) : bytes := name ++ "="%char :: value ++ [newline].
Definition starts_with_nul (a : bytes) : bool := nth 0 a nul ==c nul.
Definition export_lines (v : values) (d : scsi_id_device) : option (list bytes) :=
  serial_lines ← (if starts_with_nul (serial d) then Some []
                  else s ← cstring (serial d); s' ← cstring (serial_short d);
                       Some [line "ID_SERIAL" (clean s MAX_SERIAL_LEN); line "ID_SERIAL_SHORT" (clean s' MAX_SERIAL_LEN)]);
  wwn_lines ← (if starts_with_nul (wwn d) then Some []
               else w ← cstring (wwn d); e ← cstring (wwn_vendor_extension d);
                    let x s := line "ID_WWN_WITH_EXTENSION" (("0x" : bytes) ++ s) in
                    Some (line "ID_WWN" (("0x" : bytes) ++ w) ::
                          if starts_with_nul (wwn_vendor_extension d) then [x w]
                          else [line "ID_WWN_VENDOR_EXTENSION" (("0x" : bytes) ++ e); x (w ++ e)]));
  group_lines ← (if starts_with_nul (tgpt_group d) then Some [] else g ← cstring (tgpt_group d); Some [line "ID_TARGET_PORT" g]);
  unit_lines ← (if starts_with_nul (unit_serial_number d) then Some [] else u ← cstring (unit_serial_number d); Some [line "ID_SCSI_SERIAL" u]);
  Some ([line "ID_SCSI" "1"; line "ID_VENDOR" (vendor_str v); line "ID_VENDOR_ENC" (vendor_enc_str v); line "ID_MODEL" (model_str v);
         line "ID_MODEL_ENC" (model_enc_str v); line "ID_REVISION" (revision_str v); line "ID_TYPE" (type_str v)] ++
        serial_lines ++ wwn_lines ++ group_lines ++ unit_lines).
(** The exit status and the lines. *)
Definition scsi_id (c : config) (w : dev) : option (Z * list bytes * dev) :=
  let path := maj_min_dev c in
  '(r, d, v, w) ← set_inq_values c path w;
  if r <? 0 then Some (1, [], w)
  else
    '(good_dev, page_code, _) ← per_dev_options c (vendor_str v, model_str v) (read_file (config_file c));
    if negb good_dev then Some (1, [], w)
    else
      '(_, d, w) ← scsi_get_serial sg_io (sys_open path) page_code MAX_SERIAL_LEN d w;
      if export c then ls ← export_lines v d; Some (0, ls, w)
      else if starts_with_nul (serial d) then Some (1, [], w)
      else
        s ← cstring (serial d);
        Some (0, [(if reformat_serial c then clean s MAX_SERIAL_LEN else s) ++ [newline]], w).
Definition initial (sysconfdir : bytes) : config := mk_config false false (sysconfdir ++ "/scsi_id.config") 0 4 false false false [].
Definition main (sysconfdir : bytes) (argv : list bytes) (w : dev) : option (Z * list bytes * dev) :=
  let c := initial sysconfdir in
  '(retval, newargv) ← get_file_options None (read_file (config_file c));
  if retval <? 0 then Some (1, [], w)
  else
    let '(r, c) := if retval =? 0 then set_options newargv c else (0, c) in
    if r <? 0 then Some (2, [], w)
    else
      let '(r, c) := set_options argv c in
      if r <? 0 then Some (1, [], w)
      else if negb (dev_specified c) then Some (1, [], w)
      else scsi_id c w.
End program.

(** * The file that is read back *)

Lemma until_set_app set v c rest :
  Forall (fun x => one_of set x = false) v -> one_of set c = true -> until_set set (v ++ c :: rest) = (v, c :: rest).
Proof.
  intros Hv Hc. induction Hv as [|x v Hx Hv IH]; cbn [app until_set]; [by rewrite Hc|]. by rewrite Hx, IH.
Qed.
Definition dquote : byte := "034"%char.
Definition print_value (quoted : bool) (v : bytes) : bytes := if quoted then dquote :: v ++ [dquote] else v.
Definition value_ok (quoted : bool) (v : bytes) : Prop :=
  Forall (fun x => one_of (if quoted then [dquote; newline] else [","%char; newline]) x = false) v /\ (quoted = false -> nth 0 v nul <> dquote).
Lemma get_value_print quoted v c rest :
  value_ok quoted v -> c = ","%char \/ c = newline -> get_value (Some (print_value quoted v ++ c :: rest)) = Some (v, skip_space rest).
Proof.
  intros [Hv Hq] Hc. unfold get_value. cbn [mbind option_bind]. destruct quoted; cbn [print_value app].
  - change (dquote ==c "034") with true. cbv iota. unfold strsep. rewrite <- app_assoc. cbn [app].
    by rewrite (until_set_app _ v dquote) by done.
  - assert (one_of [","%char; newline] c = true) as Hone by (by destruct Hc as [-> | ->]).
    unfold strsep. rewrite until_set_app by done. destruct v as [|x v]; cbn [app].
    + by destruct Hc as [-> | ->].
    + rewrite (proj2 (Ascii.eqb_neq x "034")) by (by apply (Hq eq_refl)). done.
Qed.
(** An entry: the vendor with the model, if there is one, and the options. *)
Record entry := mk_entry { e_quoted : bool; e_names : option (bytes * option bytes); e_options : bytes }.
Definition print_key (q : bool) (key v : bytes) (end_ : byte) : bytes := key ++ "="%char :: print_value q v ++ [end_].
Definition print_entry (e : entry) : bytes :=
  match e_names e with
  | None => []
  | Some (v, None) => print_key (e_quoted e) "VENDOR" v ","
  | Some (v, Some m) => print_key (e_quoted e) "VENDOR" v "," ++ print_key (e_quoted e) "model" m ","
  end ++ print_key (e_quoted e) "OPTIONS" (e_options e) newline.
Definition entry_ok (e : entry) : Prop :=
  value_ok (e_quoted e) (e_options e) /\
  match e_names e with None => True | Some (v, m) => value_ok (e_quoted e) v /\ from_option (value_ok (e_quoted e)) True m end /\
  (length (print_entry e) < MAX_BUFFER_LEN)%nat.
Definition entry_vendor (e : entry) : option bytes := fst <$> e_names e.
Definition entry_model (e : entry) : option bytes := e_names e ≫= snd.

Lemma skip_print_key q key v c rest : isspace (nth 0 key nul) = false -> key <> [] -> skip_space (print_key q key v c ++ rest) = print_key q key v c ++ rest.
Proof. intros H Hk. destruct key as [|k key]; [done|]. simpl in *. by rewrite H. Qed.
Lemma strsep_key q key v c rest : Forall (fun x => one_of "=" x = false) key ->
  strsep "=" (Some (print_key q key v c ++ rest)) = (Some key, Some (print_value q v ++ c :: rest)).
Proof.
  intros Hk. unfold strsep, print_key. rewrite <- app_assoc. cbn [app]. rewrite until_set_app by done. by rewrite <- app_assoc.
Qed.
Lemma line_values_print e : entry_ok e -> line_values (print_entry e) = Some (entry_vendor e, entry_model e, Some (e_options e)).
Proof.
  intros (Ho & Hn & _). unfold line_values, print_entry, entry_vendor, entry_model.
  assert (forall k, Forall (fun x => one_of "=" x = false) k -> strsep "=" (Some (print_key (e_quoted e) k (e_options e) newline)) =
    (Some k, Some (print_value (e_quoted e) (e_options e) ++ [newline]))) as Hlast.
  { intros k Hk. pose proof (strsep_key (e_quoted e) k (e_options e) newline [] Hk) as H. by rewrite app_nil_r in H. }
  assert (Forall (fun x => one_of "=" x = false) "OPTIONS" /\ Forall (fun x => one_of "=" x = false) "VENDOR" /\ Forall (fun x => one_of "=" x = false) "model")
    as (K1 & K2 & K3) by (split_and!; repeat constructor).
  destruct (e_names e) as [[v m]|]; cbn [fmap option_fmap option_map mbind option_bind app fst snd].
  - destruct Hn as [Hv Hm]. destruct m as [m|]; cbn [from_option] in Hm.
    + rewrite <- app_assoc, strsep_key by done. cbv beta iota. change (is_key (Some ("VENDOR" : bytes)) "VENDOR") with true. cbv iota.
      rewrite get_value_print by auto. cbn [mbind option_bind]. rewrite skip_print_key by done. rewrite strsep_key by done.
      change (is_key (Some ("model" : bytes)) "MODEL") with true. cbv iota. rewrite get_value_print by auto. cbn [mbind option_bind].
      pose proof (skip_print_key (e_quoted e) "OPTIONS" (e_options e) newline [] eq_refl ltac:(done)) as Hs. rewrite !app_nil_r in Hs. rewrite Hs, Hlast by done. cbv beta iota. cbn [mbind option_bind].
      change (is_key (Some ("OPTIONS" : bytes)) "OPTIONS") with true. cbv iota. by rewrite get_value_print by auto.
    + rewrite strsep_key by done. cbv beta iota. change (is_key (Some ("VENDOR" : bytes)) "VENDOR") with true. cbv iota.
      rewrite get_value_print by auto. cbn [mbind option_bind].
      pose proof (skip_print_key (e_quoted e) "OPTIONS" (e_options e) newline [] eq_refl ltac:(done)) as Hs. rewrite !app_nil_r in Hs. rewrite Hs, Hlast by done. cbv beta iota. cbn [mbind option_bind].
      change (is_key (Some ("OPTIONS" : bytes)) "MODEL") with false. change (is_key (Some ("OPTIONS" : bytes)) "OPTIONS") with true. cbv iota.
      cbn [mbind option_bind]. by rewrite get_value_print by auto.
  - rewrite Hlast by done. cbv beta iota. change (is_key (Some ("OPTIONS" : bytes)) "VENDOR") with false. cbn [mbind option_bind]. change (is_key (Some ("OPTIONS" : bytes)) "OPTIONS") with true.
    cbv iota. cbn [mbind option_bind]. by rewrite get_value_print by auto.
Qed.

Lemma value_no_newline q v : value_ok q v -> newline ∉ v.
Proof.
  intros [H _] Hn. rewrite Forall_forall in H. specialize (H _ Hn). by destruct q.
Qed.
Lemma value_line q k v : newline ∉ k -> value_ok q v -> newline ∉ k ++ "="%char :: print_value q v.
Proof. intros Hk Hv%value_no_newline. rewrite not_elem_of_app, not_elem_of_cons. split_and!; [done|done|]. unfold print_value. destruct q; [|done].
  rewrite not_elem_of_cons, not_elem_of_app, not_elem_of_cons. split_and!; try done. apply not_elem_of_nil.
Qed.
Lemma print_key_line q k v c : newline ∉ k -> value_ok q v -> newline <> c -> newline ∉ print_key q k v c.
Proof.
  intros Hk Hv Hc. pose proof (value_line q k v Hk Hv) as H. unfold print_key.
  change ("="%char :: print_value q v ++ [c]) with (("="%char :: print_value q v) ++ [c]). rewrite app_assoc, not_elem_of_app. split; [done|].
  rewrite not_elem_of_cons. split; [done|apply not_elem_of_nil].
Qed.
(** The entry is a line, which starts with its first key. *)
Lemma print_entry_line e : entry_ok e -> exists l, print_entry e = l ++ [newline] /\ (newline ∉ l).
Proof.
  intros (Ho & Hn & _).
  exists (match e_names e with
    | None => []
    | Some (v, None) => print_key (e_quoted e) "VENDOR" v ","
    | Some (v, Some m) => print_key (e_quoted e) "VENDOR" v "," ++ print_key (e_quoted e) "model" m ","
    end ++ ("OPTIONS" : bytes) ++ "="%char :: print_value (e_quoted e) (e_options e)).
  split; [unfold print_entry, print_key at 4; by rewrite <- !app_assoc|].
  assert ((newline ∉ ("OPTIONS" : bytes)) /\ (newline ∉ ("VENDOR" : bytes)) /\ (newline ∉ ("model" : bytes))) as (K1 & K2 & K3).
  { split_and!; by apply (bool_decide_unpack _). }
  rewrite not_elem_of_app. split; [|by apply value_line].
  destruct (e_names e) as [[v [m|]]|]; cbn [from_option] in Hn; [| |apply not_elem_of_nil].
  - destruct Hn as [Hv Hm]. rewrite not_elem_of_app. split; by apply print_key_line.
  - destruct Hn as [Hv _]. by apply print_key_line.
Qed.
Lemma print_entry_start e : exists c s, print_entry e = c :: s /\ isspace c = false /\ (c ==c "#") = false.
Proof. unfold print_entry. by destruct (e_names e) as [[v [m|]]|]; eexists _, _. Qed.

(** The options of the first entry that matches are found: all entries are
    read as they were written. *)
Lemma file_options_first es names rest_fuel :
  Forall entry_ok es -> (length es < rest_fuel)%nat ->
  lines_loop rest_fuel names (es ≫= print_entry) =
    Some (match filter (fun e => line_matches names (entry_vendor e) (entry_model e) = true) es with
          | e :: _ => (0, e_options e)
          | [] => (1, [])
          end).
Proof.
  intros H. revert rest_fuel. induction H as [|e es He H IH]; intros fuel Hf; (destruct fuel as [|fuel]; [simpl in Hf; lia|]); [done|].
  rewrite bind_cons. cbn [lines_loop]. destruct (print_entry_line e He) as (l & El & Hl). destruct (print_entry_start e) as (c & s & Es & Hsp & Hc).
  pose proof He as (_ & _ & Hlen). unfold fgets. change (MAX_BUFFER_LEN <=? 1)%nat with false. cbv iota.
  assert (exists x y, print_entry e ++ (es ≫= print_entry) = x :: y) as (x & y & E) by (rewrite Es; by eexists _, _). rewrite E, <- E. clear E x y.
  rewrite El at 1. rewrite <- app_assoc. cbn [app]. rewrite read_line_app by (try done; rewrite El, length_app in Hlen; simpl in Hlen; lia).
  rewrite <- El. rewrite bool_decide_true by (by rewrite El, last_snoc). cbn [negb].
  assert (skip_space (print_entry e) = print_entry e) as -> by (rewrite Es; simpl; by rewrite Hsp).
  rewrite Es at 1. rewrite Hc, <- Es, line_values_print by done. cbn [mbind option_bind]. rewrite filter_cons.
  destruct (line_matches names (entry_vendor e) (entry_model e)); [done|]. rewrite decide_False by done. apply IH. simpl in Hf. lia.
Qed.

(** * Where the program differs from its help *)

(** The short form of two options is not known. *)
Lemma short_options_missing c :
  fst (set_options ["-b" : bytes] c) = -1 /\ fst (set_options ["-s" : bytes; "3" : bytes] c) = -1 /\
  fst (set_options ["--blacklisted" : bytes] c) = 0 /\ fst (set_options ["--sg-version" : bytes; "3" : bytes] c) = 0.
Proof. destruct c. by split_and!; vm_compute. Qed.
(** The type is printed in hexadecimal and read without a prefix, so the disk
    of type 14 and the optical drive of type 15 have no name. *)
Lemma hex_type_lost : set_type (fmt 16 0xe) = "generic" /\ set_type (fmt 16 0xf) = "generic" /\ set_type (fmt 16 7) = "optical".
Proof. by vm_compute. Qed.
(** A quote that is not closed ends at the newline, and the character behind
    the line is skipped. *)
Lemma open_quote_read_behind : line_values (("VENDOR=" : bytes) ++ dquote :: "ACME" ++ [newline]) = None.
Proof. by vm_compute. Qed.
(** A tab separates two options, but only spaces are counted. *)
Lemma tab_options_lost : get_file_options None (inr (("OPTIONS=-g" : bytes) ++ "009"%char :: "-x" ++ [newline])) = Some (0, ["-g" : bytes]).
Proof. by vm_compute. Qed.
(** A device that cannot be opened is not noticed: the result is positive. *)
Lemma not_opened_exported {dev : Type} sg_io (w : dev) fstat e :
  e <> EBUSY ->
  let c := mk_config true true "scsi_id.config" 0 4 false true false "/dev/sdx" in
  exists ls, scsi_id sg_io (fun _ w => (Some e, w)) fstat (fun _ => inl ENOENT) c w = Some (0, ls, w) /\ head ls = Some (line "ID_SCSI" "1").
Proof.
  intros He c. unfold scsi_id, set_inq_values, scsi_std_inquiry. cbn [mbind option_bind fst snd]. change (1 <? 0) with false. cbv iota.
  cbn -[scsi_get_serial export_lines]. unfold scsi_get_serial. cbn [open_loop]. rewrite (proj2 (Z.eqb_neq _ _) He).
  change (put 0 (zeros MAX_SERIAL_LEN) (serial (device_zero 4))) with (Some (zeros MAX_SERIAL_LEN)). cbn [mbind option_bind].
  eexists. split; [reflexivity|reflexivity].
Qed.
End ScsiId.
