(* ===== verification/Cdrom.v ===== *)
(** The program src/cdrom_id/cdrom_id.c: the commands it sends to a drive,
    what it learns from the answers, and what it prints. *)

From Stdlib Require Import ZArith Lia Ascii.
From stdpp Require Import prelude strings.
From S2P Require Import Prelude System Getopt Scsi.
Import Getopt.

Module Cdrom.
#[local] Abbreviation byte_at := Scsi.byte_at.

(** * What is known *)

(** The static variables that are 0 or 1. *)
Inductive flag :=
  | cd_cd_rom | cd_cd_r | cd_cd_rw | cd_dvd_rom | cd_dvd_r | cd_dvd_rw | cd_dvd_ram | cd_dvd_plus_r | cd_dvd_plus_rw
  | cd_dvd_plus_r_dl | cd_dvd_plus_rw_dl | cd_bd | cd_bd_r | cd_bd_re | cd_hddvd | cd_hddvd_r | cd_hddvd_rw | cd_mo | cd_mrw | cd_mrw_w
  | cd_media | cd_media_cd_rom | cd_media_cd_r | cd_media_cd_rw | cd_media_dvd_rom | cd_media_dvd_r | cd_media_dvd_rw
  | cd_media_dvd_rw_ro | cd_media_dvd_rw_seq | cd_media_dvd_ram | cd_media_dvd_plus_r | cd_media_dvd_plus_rw
  | cd_media_dvd_plus_r_dl | cd_media_dvd_plus_rw_dl | cd_media_bd | cd_media_bd_r | cd_media_bd_re
  | cd_media_hddvd | cd_media_hddvd_r | cd_media_hddvd_rw | cd_media_mo | cd_media_mrw | cd_media_mrw_w.
#[export] Instance flag_eq_dec : EqDecision flag := ltac:(solve_decision).
Record cdrom := mk_cdrom {
  flags : list flag;
  cd_media_state : option bytes; cd_media_session_next : Z; cd_media_session_count : Z;
  cd_media_track_count : Z; cd_media_track_count_data : Z; cd_media_track_count_audio : Z; cd_media_session_last_offset : Z }.
#[export] Instance cdrom_eta : Eta cdrom := fun x => mk_cdrom
  (flags x) (cd_media_state x) (cd_media_session_next x) (cd_media_session_count x)
  (cd_media_track_count x) (cd_media_track_count_data x) (cd_media_track_count_audio x) (cd_media_session_last_offset x).
Definition nothing : cdrom := mk_cdrom [] None 0 0 0 0 0 0.
Definition on (c : cdrom) (f : flag) : bool := bool_decide (f ∈ flags c).
Definition set_on (fs : list flag) (c : cdrom) : cdrom := c <| flags := fs ++ flags c |>.
Definition set_off (f : flag) (c : cdrom) : cdrom := c <| flags := filter (fun g => g <> f) (flags c) |>.

(** * The commands *)

(** What [SG_IO] gives: an error, or the information, the status, the sense
    data and what is in the buffer then. *)
Inductive sg_result := Sg_error | Sg_answer (info masked_status : Z) (sense data : bytes).
Definition SG_INFO_OK_MASK : Z := 0x1.
Definition SG_INFO_OK : Z := 0x0.
Definition CHECK_CONDITION : Z := 0x01.
Definition at_ (s : bytes) (i : nat) : Z := code (nth i s nul).
Definition ERRCODE (s : bytes) : Z := Z.lor (Z.lor (Z.shiftl (Z.land (at_ s 2) 0x0F) 16) (Z.shiftl (at_ s 12) 8)) (at_ s 13).
Definition SK (errcode : Z) : Z := Z.land (Z.shiftr errcode 16) 0xF.
Definition ASC (errcode : Z) : Z := Z.land (Z.shiftr errcode 8) 0xFF.

Section drive.
(** The drive: the bytes of a command that are not zero, by their index, and
    the size of the buffer. *)
Context {dev : Type} (sg_io : list (nat * Z) -> nat -> dev -> sg_result * dev).
(** The result of the command and the array of the buffer, whose first
    [bufsize] bytes the drive may fill. *)
Definition scsi_cmd_run (cmd : list (nat * Z)) (bufsize : nat) (array : nat) (w : dev) : Z * bytes * dev :=
  match sg_io cmd bufsize w with
  | (Sg_error, w) => (-1, Scsi.zeros array, w)
  | (Sg_answer info masked_status sense data, w) =>
      let ret :=
        if Z.land info SG_INFO_OK_MASK =? SG_INFO_OK then 0
        else if Z.land masked_status CHECK_CONDITION =? 0 then -1
        else let ret := ERRCODE sense in if ret =? 0 then -1 else ret in
      (ret, Scsi.field array data, w)
  end.

(** The ioctls of the drive: the capabilities or an error, the state, the two
    for the lock of the door. *)
Context (get_capability : dev -> option Z * dev) (drive_status : dev -> Z * dev) (clear_lock_option : dev -> Z * dev) (lockdoor : bool -> dev -> Z * dev).

Definition media_lock (lock : bool) (w : dev) : Z * dev :=
  let '(_, w) := clear_lock_option w in lockdoor lock w.
Definition media_eject (w : dev) : Z * dev :=
  let '(err, _, w) := scsi_cmd_run [(0%nat, 0x1b); (4%nat, 0x02); (5%nat, 0)] 0 0 w in (if err =? 0 then 0 else -1, w).

Definition CDC_CD_R : Z := 0x2000.
Definition CDC_CD_RW : Z := 0x4000.
Definition CDC_DVD : Z := 0x8000.
Definition CDC_DVD_R : Z := 0x10000.
Definition CDC_DVD_RAM : Z := 0x20000.
Definition CDC_MRW : Z := 0x80000.
Definition CDC_MRW_W : Z := 0x100000.
Definition capability_flags (capability : Z) : list flag :=
  concat (map (fun '(mask, f) => if Z.land capability mask =? 0 then [] else [f])
    [(CDC_CD_R, cd_cd_r); (CDC_CD_RW, cd_cd_rw); (CDC_DVD, cd_dvd_rom); (CDC_DVD_R, cd_dvd_r); (CDC_DVD_RAM, cd_dvd_ram);
     (CDC_MRW, cd_mrw); (CDC_MRW_W, cd_mrw_w)]).
Definition cd_capability_compat (c : cdrom) (w : dev) : Z * cdrom * dev :=
  match get_capability w with
  | (None, w) => (-1, c, w)
  | (Some capability, w) => (0, set_on (capability_flags capability) c, w)
  end.
Definition CDS_DISC_OK : Z := 4.
Definition cd_media_compat (c : cdrom) (w : dev) : Z * cdrom * dev :=
  let '(status, w) := drive_status w in
  if status =? CDS_DISC_OK then (0, set_on [cd_media] c, w) else (-1, c, w).
Definition cd_inquiry (w : dev) : Z * dev :=
  let '(err, inq, w) := scsi_cmd_run [(0%nat, 0x12); (4%nat, 36); (5%nat, 0)] 36 128 w in
  if negb (err =? 0) then (-1, w) else if negb (Z.land (at_ inq 0) 0x1F =? 5) then (-1, w) else (0, w).

(** ** Profiles *)

Definition media_profile (cur_profile : Z) : list flag :=
  if (3 <=? cur_profile) && (cur_profile <=? 5) then [cd_media; cd_media_mo]
  else if cur_profile =? 0x08 then [cd_media; cd_media_cd_rom]
  else if cur_profile =? 0x09 then [cd_media; cd_media_cd_r]
  else if cur_profile =? 0x0a then [cd_media; cd_media_cd_rw]
  else if cur_profile =? 0x10 then [cd_media; cd_media_dvd_rom]
  else if cur_profile =? 0x11 then [cd_media; cd_media_dvd_r]
  else if cur_profile =? 0x12 then [cd_media; cd_media_dvd_ram]
  else if cur_profile =? 0x13 then [cd_media; cd_media_dvd_rw; cd_media_dvd_rw_ro]
  else if cur_profile =? 0x14 then [cd_media; cd_media_dvd_rw; cd_media_dvd_rw_seq]
  else if cur_profile =? 0x1B then [cd_media; cd_media_dvd_plus_r]
  else if cur_profile =? 0x1A then [cd_media; cd_media_dvd_plus_rw]
  else if cur_profile =? 0x2A then [cd_media; cd_media_dvd_plus_rw_dl]
  else if cur_profile =? 0x2B then [cd_media; cd_media_dvd_plus_r_dl]
  else if cur_profile =? 0x40 then [cd_media; cd_media_bd]
  else if (cur_profile =? 0x41) || (cur_profile =? 0x42) then [cd_media; cd_media_bd_r]
  else if cur_profile =? 0x43 then [cd_media; cd_media_bd_re]
  else if cur_profile =? 0x50 then [cd_media; cd_media_hddvd]
  else if cur_profile =? 0x51 then [cd_media; cd_media_hddvd_r]
  else if cur_profile =? 0x52 then [cd_media; cd_media_hddvd_rw]
  else [].
Definition feature_profile_media (cur_profile : Z) (c : cdrom) : cdrom := set_on (media_profile cur_profile) c.
Definition device_profile (profile : Z) : list flag :=
  if (3 <=? profile) && (profile <=? 5) then [cd_mo]
  else if profile =? 0x08 then [cd_cd_rom]
  else if profile =? 0x09 then [cd_cd_r]
  else if profile =? 0x0A then [cd_cd_rw]
  else if profile =? 0x10 then [cd_dvd_rom]
  else if profile =? 0x12 then [cd_dvd_ram]
  else if (profile =? 0x13) || (profile =? 0x14) then [cd_dvd_rw]
  else if profile =? 0x1B then [cd_dvd_plus_r]
  else if profile =? 0x1A then [cd_dvd_plus_rw]
  else if profile =? 0x2A then [cd_dvd_plus_rw_dl]
  else if profile =? 0x2B then [cd_dvd_plus_r_dl]
  else if profile =? 0x40 then [cd_bd]
  else if (profile =? 0x41) || (profile =? 0x42) then [cd_bd_r]
  else if profile =? 0x43 then [cd_bd_re]
  else if profile =? 0x50 then [cd_hddvd]
  else if profile =? 0x51 then [cd_hddvd_r]
  else if profile =? 0x52 then [cd_hddvd_rw]
  else [].
(** The profiles at [p], [size] bytes; [None] is a read behind the array. *)
Fixpoint profiles_loop (fuel : nat) (features : bytes) (p i size : nat) (c : cdrom) : option cdrom :=
  match fuel with
  | O => Some c
  | S fuel' =>
      if (i + 4 <=? size)%nat then
        hi ← byte_at features (p + i);
        lo ← byte_at features (p + i + 1);
        profiles_loop fuel' features p (i + 4) size (set_on (device_profile (Z.lor (Z.shiftl hi 8) lo)) c)
      else Some c
  end.
Definition feature_profiles (features : bytes) (p size : nat) (c : cdrom) : option cdrom := profiles_loop size features p 0 size c.
(** The features from [i] on. *)
Fixpoint features_loop (fuel : nat) (features : bytes) (len : Z) (i : nat) (c : cdrom) : option cdrom :=
  match fuel with
  | O => Some c
  | S fuel' =>
      if Z.of_nat i + 4 <? len then
        hi ← byte_at features i;
        lo ← byte_at features (i + 1);
        n ← byte_at features (i + 3);
        c ← (if Z.lor (Z.shiftl hi 8) lo =? 0 then feature_profiles features (i + 4) (Z.to_nat n) c else Some c);
        features_loop fuel' features len (i + (4 + Z.to_nat n)) c
      else Some c
  end.
Definition be32 (s : bytes) (i : nat) : Z :=
  u32 (Z.lor (Z.lor (Z.lor (Z.shiftl (at_ s i) 24) (Z.shiftl (at_ s (i + 1)) 16)) (Z.shiftl (at_ s (i + 2)) 8)) (at_ s (i + 3))).
Definition be16 (s : bytes) (i j : nat) : Z := Z.lor (Z.shiftl (at_ s i) 8) (at_ s j).

Definition cd_profiles_old_mmc (c : cdrom) (w : dev) : Z * cdrom * dev :=
  let '(err, header, w) := scsi_cmd_run [(0%nat, 0x51); (8%nat, 32); (9%nat, 0)] 32 32 w in
  if negb (err =? 0) then
    if on c cd_media then (0, set_on [cd_media_cd_rom] c <| cd_media_track_count := 1 |> <| cd_media_track_count_data := 1 |>, w)
    else (-1, c, w)
  else
    let c := set_on [cd_media] c in
    let f :=
      if negb (Z.land (at_ header 2) 16 =? 0) then cd_media_cd_rw
      else if (Z.land (at_ header 2) 3 <? 2) && on c cd_cd_r then cd_media_cd_r
      else cd_media_cd_rom in
    (0, set_on [f] c, w).
Definition FEATURES_SIZE : nat := Z.to_nat 65530.
Definition features_len (features : bytes) : Z := Z.min (be32 features 0) (Z.of_nat FEATURES_SIZE).
Definition cd_profiles (c : cdrom) (w : dev) : option (Z * cdrom * dev) :=
  let '(err, features, w) := scsi_cmd_run [(0%nat, 0x46); (8%nat, 8); (9%nat, 0)] 8 FEATURES_SIZE w in
  if negb (err =? 0) then
    if (SK err =? 0x5) && ((ASC err =? 0x20) || (ASC err =? 0x24)) then Some (cd_profiles_old_mmc c w) else Some (-1, c, w)
  else
    let cur_profile := be16 features 6 7 in
    let '(ret, c) := if 0 <? cur_profile then (0, feature_profile_media cur_profile c) else (-1, c) in
    let len := features_len features in
    let len := if len <=? 8 then Z.of_nat FEATURES_SIZE else len in
    let '(err, features, w) :=
      scsi_cmd_run [(0%nat, 0x46); (7%nat, Z.land (Z.shiftr len 8) 0xff); (8%nat, Z.land len 0xff); (9%nat, 0)] (Z.to_nat len) FEATURES_SIZE w in
    if negb (err =? 0) then Some (-1, c, w)
    else
      c ← features_loop FEATURES_SIZE features (features_len features) 8 c;
      Some (ret, c, w).

(** ** The state of the medium *)

Definition media_status (i : Z) : bytes :=
  if i =? 0 then "blank" else if i =? 1 then "appendable" else if i =? 2 then "complete" else "other".
Definition BUFFER_SIZE : nat := Z.to_nat 65536.
(** Some byte of [n] from an offset on is not zero. *)
Definition block_result (buffer : bytes) (offset : nat) : bool := existsb (fun c => negb (c ==c nul)) (take 2048 (drop offset buffer)).
(** The answer of the drive to the questions about a DVD-RAM: to go on, to
    stop with the state as it is, or to fail. *)
Inductive step := Go_on | Determined | Failed.
Definition dvd_ram_step (c : cdrom) (w : dev) : step * cdrom * dev :=
  let '(err, dvdstruct, w) := scsi_cmd_run [(0%nat, 0xAD); (7%nat, 0xC0); (9%nat, 8); (11%nat, 0)] 8 8 w in
  if negb (err =? 0) then (Failed, c, w)
  else if negb (Z.land (at_ dvdstruct 4) 0x02 =? 0) then (Determined, c <| cd_media_state := Some (media_status 2) |>, w)
  else
    let '(err, format, w) := scsi_cmd_run [(0%nat, 0x23); (8%nat, 12); (9%nat, 0)] 12 12 w in
    if negb (err =? 0) then (Failed, c, w)
    else
      let len := at_ format 3 in
      if negb (Z.land len 7 =? 0) || (len <? 16) then (Failed, c, w)
      else
        let f := Z.land (at_ format 8) 3 in
        if f =? 1 then (Determined, c, w)
        else if f =? 3 then (Failed, set_off cd_media c, w)
        else (Go_on, c, w).
Definition blank_step (c : cdrom) (w : dev) : step * cdrom * dev :=
  let '(err, buffer, w) := scsi_cmd_run [(0%nat, 0x28); (5%nat, 0); (8%nat, 32); (9%nat, 0)] BUFFER_SIZE BUFFER_SIZE w in
  if negb (err =? 0) then (Failed, set_off cd_media c, w)
  else if block_result buffer (Z.to_nat 32768) || block_result buffer 0 then (Determined, c, w)
  else (Determined, c <| cd_media_state := Some (media_status 0) |>, w).
Definition cd_media_info (c : cdrom) (w : dev) : Z * cdrom * dev :=
  let '(err, header, w) := scsi_cmd_run [(0%nat, 0x51); (8%nat, 32); (9%nat, 0)] 32 32 w in
  if negb (err =? 0) then (-1, c, w)
  else
    let c := set_on [cd_media] c in
    let status := Z.land (at_ header 2) 3 in
    let c := if on c cd_media_cd_rom then c else c <| cd_media_state := Some (media_status status) |> in
    let c := if on c cd_media_dvd_rw_ro && (status =? 1) then c <| cd_media_state := Some (media_status 0) |> else c in
    let '(st, c, w) :=
      if (on c cd_media_dvd_rw_ro || on c cd_media_dvd_plus_rw || on c cd_media_dvd_plus_rw_dl || on c cd_media_dvd_ram) && (1 <? status) then
        let '(st, c, w) := if on c cd_media_dvd_ram then dvd_ram_step c w else (Go_on, c, w) in
        match st with Go_on => blank_step c w | _ => (st, c, w) end
      else (Determined, c, w) in
    match st with
    | Failed => (-1, c, w)
    | _ =>
        let c := if (status <? 2) && negb (on c cd_media_dvd_rw_ro) then c <| cd_media_session_next := be16 header 10 5 |> else c in
        (0, c <| cd_media_session_count := be16 header 9 4 |> <| cd_media_track_count := be16 header 11 6 |>, w)
    end.

(** ** Tracks *)

Fixpoint toc_loop (fuel : nat) (toc : bytes) (len : Z) (i : nat) (num_tracks : Z) (c : cdrom) : cdrom :=
  match fuel with
  | O => c
  | S fuel' =>
      if (Z.of_nat i <? len - 8) && (0 <? num_tracks) then
        let c := if negb (Z.land (at_ toc (i + 1)) 0x04 =? 0) then c <| cd_media_track_count_data := u32 (cd_media_track_count_data c + 1) |>
                 else c <| cd_media_track_count_audio := u32 (cd_media_track_count_audio c + 1) |> in
        toc_loop fuel' toc len (i + 8) (num_tracks - 1) c
      else c
  end.
Definition TOC_SIZE : nat := Z.to_nat 65536.
Definition cd_media_toc (c : cdrom) (w : dev) : Z * cdrom * dev :=
  let '(err, header, w) := scsi_cmd_run [(0%nat, 0x43); (6%nat, 1); (8%nat, 12); (9%nat, 0)] 12 12 w in
  if negb (err =? 0) then (-1, c, w)
  else
    let len := be16 header 0 1 + 2 in
    if Z.of_nat TOC_SIZE <? len then (-1, c, w)
    else if len <? 2 then (-1, c, w)
    else
      let num_tracks := u32 (at_ header 3 - at_ header 2 + 1) in
      if len <? 8 then (0, c, w)
      else
        let '(err, toc, w) :=
          scsi_cmd_run [(0%nat, 0x43); (6%nat, at_ header 2); (7%nat, Z.land (Z.shiftr len 8) 0xff); (8%nat, Z.land len 0xff); (9%nat, 0)] (Z.to_nat len) TOC_SIZE w in
        if negb (err =? 0) then (-1, c, w)
        else
          let c := toc_loop TOC_SIZE toc len 4 num_tracks c in
          let '(err, header, w) := scsi_cmd_run [(0%nat, 0x43); (2%nat, 1); (8%nat, 12); (9%nat, 0)] 12 12 w in
          if negb (err =? 0) then (-1, c, w)
          else (0, c <| cd_media_session_last_offset := be32 header 8 * 2048 |>, w).

(** * The program *)

(** The result of [stat] and the lines of the mount table; an error counts as
    true, since it is returned as a [bool]. *)
Definition is_mounted (st_rdev : option Z) (mounts : option (list Z)) : bool :=
  match st_rdev, mounts with
  | Some rdev, Some devs => bool_decide (rdev ∈ devs)
  | _, _ => true
  end.
Context (mounted : bytes -> dev -> bool) (sys_open : bytes -> bool -> dev -> option Z * dev).
Fixpoint open_loop (cnt : nat) (node : bytes) (w : dev) : bool * dev :=
  match cnt with
  | O => (false, w)
  | S cnt' =>
      match sys_open node (negb (mounted node w)) w with
      | (None, w) => (true, w)
      | (Some e, w) => if e =? Scsi.EBUSY then open_loop cnt' node w else (false, w)
      end
  end.
Definition probe (c : cdrom) (w : dev) : option (cdrom * dev) :=
  let '(_, c, w) := cd_media_compat c w in
  let '(r, w) := cd_inquiry w in
  if r <? 0 then Some (c, w)
  else
    '(r, c, w) ← cd_profiles c w;
    if negb (r =? 0) then Some (c, w)
    else
      let '(_, c, w) := cd_media_toc c w in
      let '(_, c, w) := cd_media_info c w in
      Some (c, w).
Definition flag_lines : list (flag * bytes) := [
  (cd_cd_rom, "CD" : bytes); (cd_cd_r, "CD_R" : bytes); (cd_cd_rw, "CD_RW" : bytes); (cd_dvd_rom, "DVD" : bytes); (cd_dvd_r, "DVD_R" : bytes);
  (cd_dvd_rw, "DVD_RW" : bytes); (cd_dvd_ram, "DVD_RAM" : bytes); (cd_dvd_plus_r, "DVD_PLUS_R" : bytes); (cd_dvd_plus_rw, "DVD_PLUS_RW" : bytes);
  (cd_dvd_plus_r_dl, "DVD_PLUS_R_DL" : bytes); (cd_dvd_plus_rw_dl, "DVD_PLUS_RW_DL" : bytes); (cd_bd, "BD" : bytes); (cd_bd_r, "BD_R" : bytes);
  (cd_bd_re, "BD_RE" : bytes); (cd_hddvd, "HDDVD" : bytes); (cd_hddvd_r, "HDDVD_R" : bytes); (cd_hddvd_rw, "HDDVD_RW" : bytes); (cd_mo, "MO" : bytes);
  (cd_mrw, "MRW" : bytes); (cd_mrw_w, "MRW_W" : bytes); (cd_media, "MEDIA" : bytes); (cd_media_mo, "MEDIA_MO" : bytes); (cd_media_mrw, "MEDIA_MRW" : bytes);
  (cd_media_mrw_w, "MEDIA_MRW_W" : bytes); (cd_media_cd_rom, "MEDIA_CD" : bytes); (cd_media_cd_r, "MEDIA_CD_R" : bytes);
  (cd_media_cd_rw, "MEDIA_CD_RW" : bytes); (cd_media_dvd_rom, "MEDIA_DVD" : bytes); (cd_media_dvd_r, "MEDIA_DVD_R" : bytes);
  (cd_media_dvd_ram, "MEDIA_DVD_RAM" : bytes); (cd_media_dvd_rw, "MEDIA_DVD_RW" : bytes); (cd_media_dvd_plus_r, "MEDIA_DVD_PLUS_R" : bytes);
  (cd_media_dvd_plus_rw, "MEDIA_DVD_PLUS_RW" : bytes); (cd_media_dvd_plus_rw_dl, "MEDIA_DVD_PLUS_RW_DL" : bytes);
  (cd_media_dvd_plus_r_dl, "MEDIA_DVD_PLUS_R_DL" : bytes); (cd_media_bd, "MEDIA_BD" : bytes); (cd_media_bd_r, "MEDIA_BD_R" : bytes);
  (cd_media_bd_re, "MEDIA_BD_RE" : bytes); (cd_media_hddvd, "MEDIA_HDDVD" : bytes); (cd_media_hddvd_r, "MEDIA_HDDVD_R" : bytes);
  (cd_media_hddvd_rw, "MEDIA_HDDVD_RW" : bytes)].
Definition line (name value : bytes) : bytes := ("ID_CDROM" : bytes) ++ name ++ "="%char :: value ++ [newline].
(** [%d] of an [unsigned int]. *)
Definition number_line (name : bytes) (n : Z) : list bytes := if 0 <? n then [line name (fmt_i (s32 n))] else [].
Definition output (c : cdrom) : list bytes :=
  line [] "1" :: concat (map (fun '(f, name) => if on c f then [line ("_"%char :: name) "1"] else []) flag_lines) ++
  match cd_media_state c with Some s => [line "_MEDIA_STATE" s] | None => [] end ++
  number_line "_MEDIA_SESSION_NEXT" (cd_media_session_next c) ++
  number_line "_MEDIA_SESSION_COUNT" (cd_media_session_count c) ++
  (if (1 <? cd_media_session_count c) && (0 <? cd_media_session_last_offset c)
   then [line "_MEDIA_SESSION_LAST_OFFSET" (fmt_u64 (cd_media_session_last_offset c))] else []) ++
  number_line "_MEDIA_TRACK_COUNT" (cd_media_track_count c) ++
  number_line "_MEDIA_TRACK_COUNT_AUDIO" (cd_media_track_count_audio c) ++
  number_line "_MEDIA_TRACK_COUNT_DATA" (cd_media_track_count_data c).

Definition cd_options : list option_ := [
  mk_option "lock-media" no_argument "l"; mk_option "unlock-media" no_argument "u"; mk_option "eject-media" no_argument "e";
  mk_option "debug" no_argument "d"; mk_option "help" no_argument "h"].
Record request := mk_request { q_lock : bool; q_unlock : bool; q_eject : bool }.
(** The options, or the exit status. *)
Fixpoint option_loop (q : request) (fs : list found) : Z + request :=
  match fs with
  | [] => inr q
  | (option, _) :: fs' =>
      if option ==c "l" then option_loop (mk_request true (q_unlock q) (q_eject q)) fs'
      else if option ==c "u" then option_loop (mk_request (q_lock q) true (q_eject q)) fs'
      else if option ==c "e" then option_loop (mk_request (q_lock q) (q_unlock q) true) fs'
      else if option ==c "d" then option_loop q fs'
      else if option ==c "h" then inl 0
      else inl 1
  end.
Definition work (q : request) (c : cdrom) (w : dev) : dev :=
  let w := if q_lock q && on c cd_media then snd (media_lock true w) else w in
  let w := if q_unlock q && on c cd_media then snd (media_lock false w) else w in
  if q_eject q then snd (media_eject (snd (media_lock false w))) else w.
Definition main (argv : list bytes) (w : dev) : option (Z * list bytes * dev) :=
  let '(fs, rest) := getopt_long "deluh" cd_options argv in
  match option_loop (mk_request false false false) fs, rest with
  | inl rc, _ => Some (rc, [], w)
  | inr _, [] => Some (1, [], w)
  | inr q, node :: _ =>
      let '(opened, w) := open_loop 20 node w in
      if negb opened then Some (1, [], w)
      else
        let '(r, c, w) := cd_capability_compat nothing w in
        if r <? 0 then Some (1, [], w)
        else
          '(c, w) ← probe c w;
          Some (0, output c, work q c w)
  end.
End drive.

(** * Lists in the answers *)

(** The 16-bit numbers at the start of every 4 bytes. *)
Fixpoint profiles_of (data : bytes) : list Z :=
  match data with
  | hi :: lo :: _ :: _ :: data' => Z.lor (Z.shiftl (code hi) 8) (code lo) :: profiles_of data'
  | _ => []
  end.
Definition add_profiles (ps : list Z) (c : cdrom) : cdrom := foldl (fun c p => set_on (device_profile p) c) c ps.
Lemma profiles_loop_exact fuel a p i size c :
  (p + size <= length a)%nat -> (size <= i + fuel)%nat ->
  profiles_loop fuel a p i size c = Some (add_profiles (profiles_of (take (size - i) (drop (p + i) a))) c).
Proof.
  revert i c. induction fuel as [|fuel IH]; intros i c Ha Hf; cbn [profiles_loop].
  { by replace (size - i)%nat with 0%nat by lia. }
  destruct (Nat.leb_spec (i + 4) size) as [Hi|Hi].
  - assert (exists x y z t r, drop (p + i) a = x :: y :: z :: t :: r) as (x & y & z & t & r & E).
    { pose proof (length_drop a (p + i)) as Hl. destruct (drop (p + i) a) as [|x [|y [|z [|t r]]]]; simpl in Hl; try lia. by eexists _, _, _, _, _. }
    assert (forall k, a !! (p + i + k)%nat = (x :: y :: z :: t :: r) !! k) as Hk by (intros k; by rewrite <- E, lookup_drop).
    unfold Scsi.byte_at. pose proof (Hk 0%nat) as H0. pose proof (Hk 1%nat) as H1. rewrite Nat.add_0_r in H0. rewrite H0, H1. cbn [lookup list_lookup fmap option_fmap option_map mbind option_bind].
    rewrite IH by lia. f_equal. replace (size - i)%nat with (4 + (size - (i + 4)))%nat by lia. rewrite E. cbn [take Nat.add profiles_of].
    replace (drop (p + (i + 4)) a) with r by (replace (p + (i + 4))%nat with (p + i + 4)%nat by lia; by rewrite <- drop_drop, E). done.
  - assert (profiles_of (take (size - i) (drop (p + i) a)) = []) as ->; [|done].
    destruct (take (size - i) (drop (p + i) a)) as [|x [|y [|z [|t r]]]] eqn:E; try done.
    assert (length (take (size - i) (drop (p + i) a)) = length (x :: y :: z :: t :: r)) as Hl by (by rewrite E).
    rewrite length_take in Hl. simpl in Hl. lia.
Qed.
(** A feature: its code, a byte of flags, and its data. *)
Record feature := mk_feature { ft_code : byte * byte; ft_flags : byte; ft_data : bytes }.
Definition print_feature (f : feature) : bytes :=
  (ft_code f).1 :: (ft_code f).2 :: ft_flags f :: chr (Z.of_nat (length (ft_data f))) :: ft_data f.
Definition feature_profiles_of (f : feature) : list Z :=
  if Z.lor (Z.shiftl (code (ft_code f).1) 8) (code (ft_code f).2) =? 0 then profiles_of (ft_data f) else [].
(** The profiles of the drive are those of its features of code 0, whatever
    the other features are, when the length reaches into the last of them. *)
Lemma features_loop_exact fs pre rest len c fuel :
  Forall (fun f => length (ft_data f) < 256)%nat fs -> (length fs < fuel)%nat ->
  (forall fs' f, fs = fs' ++ [f] -> Z.of_nat (length (pre ++ (fs' ≫= print_feature))) + 4 < len) ->
  len <= Z.of_nat (length (pre ++ (fs ≫= print_feature))) + 4 ->
  features_loop fuel (pre ++ (fs ≫= print_feature) ++ rest) len (length pre) c =
    Some (add_profiles (fs ≫= feature_profiles_of) c).
Proof.
  revert pre c fuel. induction fs as [|f fs IH]; intros pre c fuel Hd Hf Hlast Hlen; (destruct fuel as [|fuel]; [simpl in Hf; lia|]); cbn [features_loop].
  - rewrite (proj2 (Z.ltb_ge _ _)); [done|]. rewrite app_nil_r in Hlen. lia.
  - inversion_clear Hd as [|? ? Hdf Hd']. rewrite (proj2 (Z.ltb_lt _ _)).
    2:{ destruct (exists_last (l := f :: fs)) as (fs' & f' & E); [done|]. specialize (Hlast fs' f' E). rewrite length_app in Hlast. lia. }
    rewrite bind_cons. set (tail := (fs ≫= print_feature) ++ rest). rewrite <- (app_assoc (print_feature f)). fold tail.
    assert (forall k, (pre ++ print_feature f ++ tail) !! (length pre + k)%nat = (print_feature f ++ tail) !! k) as Hk.
    { intros k. rewrite lookup_app_r by lia. f_equal. lia. }
    assert (Scsi.byte_at (pre ++ print_feature f ++ tail) (length pre) = Some (code (ft_code f).1)) as ->.
    { unfold Scsi.byte_at. pose proof (Hk 0%nat) as H0. rewrite Nat.add_0_r in H0. by rewrite H0. }
    assert (Scsi.byte_at (pre ++ print_feature f ++ tail) (length pre + 1) = Some (code (ft_code f).2)) as -> by (unfold Scsi.byte_at; by rewrite Hk).
    assert (Scsi.byte_at (pre ++ print_feature f ++ tail) (length pre + 3) = Some (code (chr (Z.of_nat (length (ft_data f)))))) as ->
      by (unfold Scsi.byte_at; by rewrite Hk).
    cbn [mbind option_bind].
    rewrite code_chr, Z.mod_small by lia. rewrite Nat2Z.id.
    assert (length (print_feature f) = 4 + length (ft_data f))%nat as Hpl by done.
    assert ((if Z.lor (Z.shiftl (code (ft_code f).1) 8) (code (ft_code f).2) =? 0
             then feature_profiles (pre ++ print_feature f ++ tail) (length pre + 4) (length (ft_data f)) c else Some c) =
            Some (add_profiles (feature_profiles_of f) c)) as ->.
    { unfold feature_profiles_of. destruct (_ =? 0); [|done]. unfold feature_profiles. rewrite profiles_loop_exact.
      - rewrite Nat.sub_0_r, Nat.add_0_r, <- drop_drop, drop_app_length. cbn [print_feature drop app]. by rewrite drop_0, take_app_length.
      - rewrite !length_app, Hpl. lia.
      - lia. }
    cbn [mbind option_bind]. unfold tail. rewrite (app_assoc pre). replace (length pre + (4 + length (ft_data f)))%nat with (length (pre ++ print_feature f)) by (rewrite length_app, Hpl; lia).
    rewrite IH; [|done|simpl in Hf; lia| |].
    + unfold add_profiles. by rewrite bind_cons, foldl_app.
    + intros fs' f' ->. specialize (Hlast (f :: fs') f' eq_refl). rewrite bind_cons in Hlast. by rewrite <- app_assoc.
    + rewrite bind_cons in Hlen. by rewrite <- app_assoc.
Qed.
(** The length in front does not count its own four bytes, so the list of a
    drive with one profile and no other feature is not looked at. *)
Lemma last_feature_skipped :
  let reply := [nul; nul; nul; chr 12; nul; nul; nul; chr 8] ++ print_feature (mk_feature (nul, nul) (chr 3) [nul; chr 8; chr 1; nul]) in
  features_loop 20 (Scsi.field 64 reply) (be32 reply 0) 8 nothing = Some nothing.
Proof. by vm_compute. Qed.
(** A list of profiles that is said to be longer than the array is read
    behind it. *)
Lemma profiles_read_behind a size c : (4 <= size)%nat -> feature_profiles a (length a) size c = None.
Proof.
  intros Hs. unfold feature_profiles. destruct size as [|size]; [lia|]. cbn [profiles_loop]. rewrite (proj2 (Nat.leb_le _ _)) by lia.
  assert (Scsi.byte_at a (length a + 0) = None) as -> by (unfold Scsi.byte_at; by rewrite lookup_ge_None_2 by lia). done.
Qed.

(** The tracks that are counted: one for each entry of 8 bytes that lies in
    front of the entry of the end, at most as many as the header says. *)
Definition is_data (entry : bytes) : bool := negb (Z.land (at_ entry 1) 0x04 =? 0).
Fixpoint count_tracks (entries : list bytes) (c : cdrom) : cdrom :=
  match entries with
  | [] => c
  | e :: entries' =>
      count_tracks entries'
        (if is_data e then c <| cd_media_track_count_data := u32 (cd_media_track_count_data c + 1) |>
         else c <| cd_media_track_count_audio := u32 (cd_media_track_count_audio c + 1) |>)
  end.
Lemma toc_counts (entries : list bytes) pre rest n c fuel :
  Forall (fun e => length e = 8%nat) entries -> (length entries < fuel)%nat -> 0 <= n ->
  toc_loop fuel (pre ++ mjoin entries ++ rest) (Z.of_nat (length pre + 8 * length entries + 8)) (length pre) n c =
    count_tracks (take (Z.to_nat n) entries) c.
Proof.
  revert pre n c fuel. induction entries as [|e entries IH]; intros pre n c fuel He Hf Hn; (destruct fuel as [|fuel]; [simpl in Hf; lia|]); cbn [toc_loop].
  - rewrite (proj2 (Z.ltb_ge _ _)) by (simpl; lia). by destruct (Z.to_nat n).
  - inversion_clear He as [|? ? H8 He']. rewrite (proj2 (Z.ltb_lt _ _)) by (simpl; lia). cbn [andb]. destruct (Z.ltb_spec 0 n); [|by replace (Z.to_nat n) with 0%nat by lia].
    replace (Z.to_nat n) with (S (Z.to_nat (n - 1))) by lia. cbn [take count_tracks]. change (mjoin (e :: entries)) with (e ++ mjoin entries). rewrite <- (app_assoc e).
    assert (at_ (pre ++ e ++ mjoin entries ++ rest) (length pre + 1) = at_ e 1) as ->.
    { unfold at_. rewrite app_nth2 by lia. replace (length pre + 1 - length pre)%nat with 1%nat by lia. by rewrite app_nth1 by lia. }
    fold (is_data e). specialize (IH (pre ++ e) (n - 1)). rewrite length_app, H8, <- app_assoc in IH.
    replace (length pre + 8 * length (e :: entries) + 8)%nat with (length pre + 8 + 8 * length entries + 8)%nat by (simpl; lia).
    apply IH; [done|simpl in Hf; lia|lia].
Qed.
End Cdrom.
