(* ===== verification/Collect.v ===== *)
(** The program src/collect/collect.c: the database of the IDs that belong
    together, and how many of them are missing. *)

From Stdlib Require Import ZArith Lia Ascii.
From stdpp Require Import prelude strings.
From S2P Require Import Prelude System Strings Getopt.
Import Strxcpyx Getopt.

Module Collect.

Inductive collect_state := STATE_NONE | STATE_OLD | STATE_CONFIRMED.
#[export] Instance collect_state_eq_dec : EqDecision collect_state := ltac:(solve_decision).
(** [struct _mate]; the list [bunch] in its order. *)
Record mate := mk_mate { m_name : bytes; m_state : collect_state }.
#[export] Instance mate_eq_dec : EqDecision mate := ltac:(solve_decision).
Definition BUFSIZE : nat := 16.

(** * Reading the database *)

Definition is_sep (c : byte) : bool := (c ==c " ") || (c ==c newline) || (c ==c "009") || (c ==c "013").
Definition spaces (n : nat) : bytes := replicate n " "%char.
(** [strpbrk] from an index on: where the first separator is. *)
Fixpoint find_sep (s : bytes) : option nat :=
  match s with
  | [] => None
  | c :: s' => if c ==c nul then None else if is_sep c then Some 0%nat else S <$> find_sep s'
  end.
(** What the inner loop leaves: the list with the buffer and the pointer, or
    the wish for a larger buffer.  The list is kept in any case. *)
Inductive parsed := Parsed (buf : bytes) (ptr : nat) | Restart.
(** The words from [ptr] on, in a buffer of [2 * len] bytes; at its end there
    is a terminator.  A pointer that is NULL is set to the word again. *)
Fixpoint parse_loop (fuel len : nat) (buf : bytes) (ptr : nat) (bunch : list mate) : parsed * list mate :=
  match fuel with
  | O => (Parsed buf ptr, bunch)
  | S fuel' =>
      match buf !! ptr with
      | None => (Parsed buf ptr, bunch)
      | Some c =>
          if c ==c nul then (Parsed buf ptr, bunch)
          else
            match find_sep (drop ptr buf) with
            | None => if (ptr <? len)%nat then (Restart, bunch) else (Parsed buf ptr, bunch)
            | Some k =>
                let word := take k (drop ptr buf) in
                let buf := <[(ptr + k)%nat := nul]> buf in
                parse_loop fuel' len buf (ptr + k + 1) (match word with [] => bunch | _ => bunch ++ [mk_mate word STATE_OLD] end)
            end
      end
  end.
(** [Stuck] is a pointer in front of the buffer. *)
Inductive pass_result := Done | Again | Stuck.
(** The reads of one pass; [f] is the rest of the file. *)
Fixpoint pass_loop (fuel len : nat) (buf : bytes) (ptr : nat) (f : bytes) (bunch : list mate) : pass_result * list mate :=
  match fuel with
  | O => (Done, bunch)
  | S fuel' =>
      let data := take len f in
      if (length data =? 0)%nat then (Done, bunch)
      else
        let buf := take len buf ++ data ++ drop (len + length data) buf in
        match parse_loop (S (length buf)) len buf ptr bunch with
        | (Restart, bunch) => (Again, bunch)
        | (Parsed buf ptr, bunch) =>
            if (ptr <? len)%nat then (Stuck, bunch)
            else pass_loop fuel' len (drop len buf ++ spaces len) (ptr - len) (drop len f) bunch
        end
  end.
(** The passes, with buffers of [bufsize] bytes; the list is not emptied in
    between. *)
Fixpoint checkout_loop (fuel bufsize : nat) (f : bytes) (bunch : list mate) : option (list mate) :=
  match fuel with
  | O => None
  | S fuel' =>
      let len := Nat.div2 bufsize in
      match pass_loop (S (length f)) len (spaces (2 * len)) len f bunch with
      | (Done, bunch) => Some bunch
      | (Again, bunch) => checkout_loop fuel' (2 * bufsize) f bunch
      | (Stuck, _) => None
      end
  end.
Definition checkout (f : bytes) : option (list mate) := checkout_loop (S (length f)) BUFSIZE f [].

(** * The list *)

Definition set_state (name : bytes) (st : collect_state) (m : mate) : mate := if bool_decide (m_name m = name) then mk_mate (m_name m) st else m.
Definition invite (us : bytes) (bunch : list mate) : list mate := set_state us STATE_CONFIRMED <$> bunch.
Definition reject (us : bytes) (bunch : list mate) : list mate := set_state us STATE_NONE <$> bunch.
Definition kickout (bunch : list mate) : list mate := filter (fun m => m_state m <> STATE_OLD) bunch.
(** The last one of the name, if there is one, gets the state. *)
Fixpoint confirm_last (name : bytes) (bunch : list mate) : option (list mate) :=
  match bunch with
  | [] => None
  | m :: bunch' =>
      match confirm_last name bunch' with
      | Some b => Some (m :: b)
      | None => if bool_decide (m_name m = name) then Some (mk_mate (m_name m) STATE_CONFIRMED :: bunch') else None
      end
  end.
Definition add_id (bunch : list mate) (id : bytes) : list mate :=
  match confirm_last id bunch with Some b => b | None => bunch ++ [mk_mate id STATE_NONE] end.
(** How many are missing, and the new database. *)
Definition missing (bunch : list mate) : Z * bytes :=
  (Z.of_nat (length (filter (fun m => m_state m = STATE_NONE) bunch)),
   filter (fun m => m_state m <> STATE_NONE) bunch ≫= fun m => m_name m ++ [" "%char]).

(** * The program *)

Definition options : list option_ := [
  mk_option "add" no_argument "a"; mk_option "remove" no_argument "r"; mk_option "debug" no_argument "d"; mk_option "help" no_argument "h"].
(** The exit status, or whether IDs are removed. *)
Fixpoint option_loop (prune : bool) (fs : list found) : Z + bool :=
  match fs with
  | [] => inr prune
  | (option, _) :: fs' =>
      if option ==c "a" then option_loop false fs'
      else if option ==c "r" then option_loop true fs'
      else if option ==c "d" then option_loop prune fs'
      else if option ==c "h" then inl 0
      else inl 1
  end.
Definition collect_line (checkpoint : bytes) (ret : Z) : bytes := ("COLLECT_" : bytes) ++ checkpoint ++ "="%char :: fmt_i ret ++ [newline].
(** The file of the database if it can be opened; the result, what is printed
    and the new contents.  [None] is an end by an access outside of the buffer,
    which the theorems exclude. *)
Definition main (argv : list bytes) (db : option bytes) : option (Z * list bytes * option bytes) :=
  let '(fs, rest) := getopt_long "ardh" options argv in
  match option_loop false fs with
  | inl rc => Some (rc, [], db)
  | inr prune =>
      match rest with
      | checkpoint :: us :: ids =>
          match db with
          | None => Some (3, [collect_line checkpoint 3], None)
          | Some f =>
              bunch ← checkout f;
              let bunch := foldl add_id bunch ids in
              let bunch := if (prune : bool) then reject us bunch else invite us bunch in
              let '(ret, f) := missing (kickout bunch) in
              Some (ret, [collect_line checkpoint ret], Some f)
          end
      | _ => Some (1, ["Missing parameter(s)" ++ [newline]], db)
      end
  end.
Example collect_runs :
  let db : bytes := "a bb " in
  (main ["chk" : bytes; "bb" : bytes; "a" : bytes; "bb" : bytes; "c" : bytes] (Some db),
   main ["-r" : bytes; "chk" : bytes; "bb" : bytes; "a" : bytes; "bb" : bytes; "c" : bytes] (Some db)) =
  (Some (1, [("COLLECT_chk=1" : bytes) ++ [newline]], Some db), Some (2, [("COLLECT_chk=2" : bytes) ++ [newline]], Some ("a " : bytes))).
Proof. by vm_compute. Qed.
(** The words in front of a long one are read twice. *)
Example restart_duplicates :
  let db : bytes := "a 0123456789abcdef012345 " in
  option_map (map m_name) (checkout db) = Some ["a" : bytes; "a" : bytes; "0123456789abcdef012345" : bytes] /\
  option_map (fun r => fst (fst r)) (main ["-r" : bytes; "chk" : bytes; "a" : bytes; "a" : bytes; "0123456789abcdef012345" : bytes] (Some db)) = Some 2.
Proof. by vm_compute. Qed.

(** * The words of the database *)

(** The words of a text behind an unfinished one, and the unfinished one at
    its end. *)
Fixpoint tokens (cur s : bytes) : list bytes * bytes :=
  match s with
  | [] => ([], cur)
  | c :: s' =>
      if is_sep c then let '(ws, u) := tokens [] s' in (match cur with [] => ws | _ => cur :: ws end, u)
      else tokens (cur ++ [c]) s'
  end.
Definition words (f : bytes) : list bytes := fst (tokens [] f).
Definition old (w : bytes) : mate := mk_mate w STATE_OLD.
Definition no_sep (s : bytes) : Prop := Forall (fun c => is_sep c = false) s.

Lemma tokens_no_sep cur u s : no_sep u -> tokens cur (u ++ s) = tokens (cur ++ u) s.
Proof.
  intros H. revert cur. induction H as [|c u Hc H IH]; intros cur; [by rewrite app_nil_r|]. cbn [app tokens]. rewrite Hc, IH.
  by rewrite <- app_assoc.
Qed.
Lemma tokens_app cur a b :
  tokens cur (a ++ b) = let '(ws, u) := tokens cur a in let '(ws', u') := tokens u b in (ws ++ ws', u').
Proof.
  revert cur. induction a as [|c a IH]; intros cur; cbn [app tokens]; [by destruct (tokens cur b)|].
  destruct (is_sep c); [|apply IH]. rewrite IH. destruct (tokens [] a) as [ws u]. destruct (tokens u b) as [ws' u']. by destruct cur.
Qed.
Lemma tokens_spaces n : tokens [] (spaces n) = ([], []).
Proof. induction n as [|n IH]; [done|]. cbn [spaces replicate tokens]. unfold spaces in IH. by rewrite IH. Qed.
Definition ends_sep (s : bytes) : Prop := exists a c, s = a ++ [c] /\ is_sep c = true.
Lemma tokens_ends cur s : ends_sep s -> snd (tokens cur s) = [].
Proof. intros (a & c & -> & Hc). rewrite tokens_app. destruct (tokens cur a). simpl. by rewrite Hc. Qed.
Lemma tokens_unfinished cur s : no_sep cur -> no_sep (snd (tokens cur s)).
Proof.
  revert cur. induction s as [|c s IH]; intros cur Hc; [done|]. cbn [tokens]. destruct (is_sep c) eqn:E.
  - specialize (IH [] (List.Forall_nil _)). by destruct (tokens [] s).
  - apply IH. apply Forall_app. by repeat constructor.
Qed.
Lemma tokens_cstr cur s : cstr cur -> cstr s -> cstr (snd (tokens cur s)).
Proof.
  intros Hc Hs. revert cur Hc. induction Hs as [|c s Hn Hs IH]; intros cur Hc; [done|]. cbn [tokens]. destruct (is_sep c) eqn:E.
  - specialize (IH [] (List.Forall_nil _)). by destruct (tokens [] s).
  - apply IH. apply Forall_app. by repeat constructor.
Qed.
(** An unfinished word becomes the start of a word when the text ends. *)
Lemma tokens_grows cur s : cur <> [] -> ends_sep s -> exists w, w ∈ fst (tokens cur s) /\ (length cur <= length w)%nat.
Proof.
  intros Hc Hs. revert cur Hc. destruct Hs as (a & c & -> & Hsep). induction a as [|x a IH]; intros cur Hc; cbn [app tokens].
  - rewrite Hsep. destruct cur as [|y cur]; [done|]. exists (y :: cur). split; [by left|done].
  - destruct (is_sep x).
    + destruct (tokens [] (a ++ [c])) as [ws u]. destruct cur as [|y cur]; [done|]. exists (y :: cur). split; [by left|done].
    + destruct (IH (cur ++ [x])) as (w & Hw & Hl); [by destruct cur|]. exists w. split; [done|]. rewrite length_app in Hl. simpl in Hl. lia.
Qed.
Lemma tokens_length cur s :
  Forall (fun w => length w <= length cur + length s)%nat (fst (tokens cur s)) /\ (length (snd (tokens cur s)) <= length cur + length s)%nat.
Proof.
  revert cur. induction s as [|c s IH]; intros cur; [split; [constructor|simpl; lia]|]. cbn [tokens]. destruct (is_sep c).
  - destruct (IH []) as [H1 H2]. destruct (tokens [] s) as [ws u]. simpl in *. split; [|lia].
    assert (Forall (fun w => length w <= length cur + S (length s))%nat ws) by (eapply Forall_impl; [exact H1|simpl; lia]).
    destruct cur; [done|]. constructor; [lia|done].
  - destruct (IH (cur ++ [c])) as [H1 H2]. rewrite length_app in H1, H2. simpl in *. split; [|lia].
    eapply Forall_impl; [exact H1|]. simpl. intros w. lia.
Qed.
(** A text that is ended by a space. *)
Definition spaced (s : bytes) : bytes := s ++ [" "%char].
Lemma spaced_sep s : ends_sep (spaced s).
Proof. by exists s, " "%char. Qed.
Lemma spaced_words_length s w : w ∈ words (spaced s) -> (length w <= length s)%nat.
Proof.
  unfold words, spaced. rewrite tokens_app. pose proof (tokens_length [] s) as [H1 H2]. destruct (tokens [] s) as [ws u].
  cbn [tokens app]. change (is_sep " ") with true. cbv iota. cbn [fst snd length] in *. rewrite Forall_forall in H1.
  intros [Hw|Hw]%elem_of_app; [by apply H1|]. destruct u; [by apply elem_of_nil in Hw|]. apply list_elem_of_singleton in Hw as ->. done.
Qed.

Lemma find_sep_None s : cstr s -> find_sep s = None -> no_sep s.
Proof.
  intros H. induction H as [|c s Hc H IH]; [constructor|]. cbn [find_sep]. rewrite (proj2 (Ascii.eqb_neq _ _) Hc). destruct (is_sep c) eqn:E; [done|].
  intros Hn. constructor; [done|]. apply IH. by destruct (find_sep s).
Qed.
Lemma find_sep_Some s k : find_sep s = Some k -> exists c r, s = take k s ++ c :: r /\ is_sep c = true /\ no_sep (take k s) /\ length (take k s) = k.
Proof.
  revert k. induction s as [|c s IH]; intros k; [done|]. cbn [find_sep]. destruct (c ==c nul); [done|]. destruct (is_sep c) eqn:E.
  - intros [= <-]. exists c, s. by split_and!; [..|constructor|].
  - destruct (find_sep s) as [k'|]; [|done]. intros [= <-]. destruct (IH k' eq_refl) as (d & r & Hs & Hd & Hn & Hl). exists d, r.
    cbn [take length app]. split_and!; [by rewrite <- Hs|done|by constructor|by rewrite Hl].
Qed.

(** The inner loop finds the words that are complete, and leaves the pointer
    at the unfinished one, for which the buffer may be too small. *)
Lemma parse_loop_exact fuel len buf ptr bunch :
  cstr (drop ptr buf) -> (length buf < ptr + fuel)%nat -> (ptr <= length buf)%nat -> (len <= length buf)%nat ->
  let '(ws, u) := tokens [] (drop ptr buf) in
  exists buf', length buf' = length buf /\ drop (length buf - length u) buf' = u /\ (length u <= length buf)%nat /\
    parse_loop fuel len buf ptr bunch =
      (if (length buf - length u <? len)%nat then Restart else Parsed buf' (length buf - length u), bunch ++ (old <$> ws)).
Proof.
  revert buf ptr bunch. induction fuel as [|fuel IH]; intros buf ptr bunch Hc Hf Hp Hl; [lia|]. cbn [parse_loop].
  destruct (buf !! ptr) as [c|] eqn:E.
  2:{ apply lookup_ge_None in E. rewrite drop_ge by lia. cbn [tokens]. exists buf. cbn [length fmap list_fmap]. rewrite Nat.sub_0_r, drop_ge, app_nil_r by lia.
      rewrite (proj2 (Nat.ltb_ge _ _)) by lia. replace ptr with (length buf) by lia. split_and!; [done|done|lia|done]. }
  assert (drop ptr buf = c :: drop (S ptr) buf) as Ed by (by apply drop_S). assert (c <> nul) as Hcn by (rewrite Ed in Hc; by inversion Hc).
  rewrite (proj2 (Ascii.eqb_neq c nul) Hcn). destruct (find_sep (drop ptr buf)) as [k|] eqn:Ef.
  - destruct (find_sep_Some _ _ Ef) as (d & r & Hs & Hd & Hn & Hk). set (w := take k (drop ptr buf)) in *.
    assert (drop (ptr + k + 1) buf = r) as Hr.
    { rewrite <- Nat.add_assoc, <- !drop_drop, Hs. rewrite drop_app_length' by (by rewrite Hk). done. }
    assert (length (drop ptr buf) = k + 1 + length r)%nat as Hlen by (rewrite Hs, length_app, Hk; simpl; lia). rewrite length_drop in Hlen.
    set (buf1 := <[(ptr + k)%nat := nul]> buf). assert (length buf1 = length buf) as Hb1 by apply length_insert.
    assert (drop (ptr + k + 1) buf1 = r) as Hr1 by (unfold buf1; rewrite drop_insert_lt by lia; done).
    specialize (IH buf1 (ptr + k + 1)%nat (match w with [] => bunch | _ => bunch ++ [mk_mate w STATE_OLD] end)).
    rewrite Hr1, Hb1 in IH. rewrite Hs in Hc. apply Forall_app in Hc as [_ Hc]. inversion_clear Hc as [|? ? _ Hcr].
    specialize (IH Hcr ltac:(lia) ltac:(lia) Hl).
    assert (tokens [] (drop ptr buf) = let '(ws, u) := tokens [] r in (match w with [] => ws | _ => w :: ws end, u)) as ->.
    { rewrite Hs. rewrite tokens_no_sep by done. cbn [app tokens]. by rewrite Hd. }
    destruct (tokens [] r) as [ws u]. destruct IH as (buf' & H1 & H2 & H3 & H4). exists buf'. split_and!; [done|done|done|]. rewrite H4. f_equal.
    destruct w; [done|]. by rewrite <- app_assoc.
  - pose proof (find_sep_None _ Hc Ef) as Hn. assert (tokens [] (drop ptr buf) = ([], drop ptr buf)) as ->.
    { pose proof (tokens_no_sep [] (drop ptr buf) [] Hn) as H. by rewrite app_nil_r in H. }
    exists buf. rewrite length_drop. replace (length buf - (length buf - ptr))%nat with ptr by lia. cbn [fmap list_fmap]. rewrite app_nil_r.
    split_and!; [done|done|lia|]. by destruct (ptr <? len)%nat.
Qed.

Lemma spaces_length n : length (spaces n) = n.
Proof. apply length_replicate. Qed.
Lemma spaces_cstr n : cstr (spaces n).
Proof. by apply Forall_replicate. Qed.
(** Spaces end a word, however many they are. *)
Lemma tokens_spaces_end u n : (0 < n)%nat -> tokens u (spaces n) = (match u with [] => [] | _ => [u] end, []).
Proof. destruct n as [|n]; [lia|]. intros _. cbn [spaces replicate tokens]. pose proof (tokens_spaces n) as H. unfold spaces in H. rewrite H. by destruct u. Qed.

Lemma words_spaced f : f = [] \/ ends_sep f -> words (spaced f) = words f.
Proof.
  intros [->|H]; [done|]. unfold words, spaced. rewrite tokens_app. pose proof (tokens_ends [] f H) as Hu.
  destruct (tokens [] f) as [ws u]. cbn [snd] in Hu. subst u. cbn. by rewrite app_nil_r.
Qed.

(** What is read of a file in halves of [len] bytes: a word at its end is
    finished by the spaces of the last half, if there are any. *)
Definition seen (len : nat) (f : bytes) : bytes := if (length f mod len =? 0)%nat then f else spaced f.
(** The part of a half, with its spaces. *)
Definition half (len : nat) (f : bytes) : bytes := take len f ++ spaces (len - length (take len f)).
Lemma half_tokens len u f : (0 < len)%nat -> f <> [] ->
  let '(ws, v) := tokens u (half len f) in
  fst (tokens u (seen len f)) = ws ++ fst (tokens v (seen len (drop len f))) /\
  fst (tokens u (spaced f)) = ws ++ fst (tokens v (spaced (drop len f))).
Proof.
  intros Hl Hne. unfold half, seen. destruct (Nat.le_gt_cases len (length f)) as [Hle|Hgt].
  - assert (length (take len f) = len) as -> by (rewrite length_take; lia). rewrite Nat.sub_diag, app_nil_r.
    assert (length (drop len f) mod len = length f mod len)%nat as Hm.
    { rewrite length_drop. replace (length f) with ((length f - len) + 1 * len)%nat at 2 by lia. by rewrite Nat.Div0.mod_add. }
    rewrite Hm. destruct (tokens u (take len f)) as [ws v] eqn:E.
    assert (forall x, fst (tokens u (f ++ x)) = ws ++ fst (tokens v (drop len f ++ x))) as Hx.
    { intros x. rewrite <- (take_drop len f) at 1. rewrite <- app_assoc, tokens_app, E. by destruct (tokens v _). }
    unfold spaced. split; [|apply Hx].
    destruct (_ =? 0)%nat; [|apply Hx]. pose proof (Hx []) as H0. by rewrite !app_nil_r in H0.
  - rewrite take_ge, drop_ge by lia. rewrite Nat.mod_small by lia. rewrite (proj2 (Nat.eqb_neq (length f) 0)) by (by destruct f).
    cbn [length]. rewrite Nat.Div0.mod_0_l. cbn [Nat.eqb]. rewrite tokens_app. unfold spaced. rewrite tokens_app. destruct (tokens u f) as [ws v].
    rewrite (tokens_spaces_end v) by lia. change [" "%char] with (spaces 1). rewrite (tokens_spaces_end v 1) by lia. cbn [fst tokens app].
    change (is_sep " ") with true. cbv iota. cbn [fst]. by rewrite !app_nil_r.
Qed.

(** A pass appends the words of the file, or some of them when one is too
    long for its buffer. *)
Lemma pass_loop_exact fuel len buf ptr f bunch :
  (0 < len)%nat -> (length f < fuel)%nat -> length buf = (2 * len)%nat -> (ptr <= len)%nat -> drop len buf = spaces len ->
  let u := drop ptr (take len buf) in
  no_sep u -> cstr u -> cstr f ->
  exists r ws, pass_loop fuel len buf ptr f bunch = (r, bunch ++ (old <$> ws)) /\
    ((r = Done /\ ws = fst (tokens u (seen len f))) \/
     (r = Again /\ (ws `prefix_of` fst (tokens u (spaced f))) /\ exists w, w ∈ fst (tokens u (spaced f)) /\ (len < length w)%nat)).
Proof.
  intros Hlen. revert buf ptr f bunch. induction fuel as [|fuel IH]; intros buf ptr f bunch Hf Hb Hp Hsp u Hu Hcu Hcf; [lia|]. cbn [pass_loop].
  destruct (decide (f = [])) as [->|Hne].
  { rewrite take_nil. exists Done, []. rewrite app_nil_r. split; [done|]. left. unfold seen. cbn [length]. by rewrite Nat.Div0.mod_0_l. }
  set (data := take len f). assert (data <> []) as Hd by (unfold data; destruct f; [done|]; by destruct len; [lia|]).
  rewrite (proj2 (Nat.eqb_neq _ _)) by (by destruct data). cbv zeta.
  set (buf1 := take len buf ++ data ++ drop (len + length data) buf).
  assert (length data <= len)%nat as Hdl by (unfold data; rewrite length_take; lia).
  assert (length buf1 = 2 * len)%nat as Hb1 by (unfold buf1; rewrite !length_app, length_take, length_drop; lia).
  assert (drop ptr buf1 = u ++ half len f) as Hdrop.
  { unfold buf1, half. fold data. rewrite drop_app_le by (rewrite length_take; lia). f_equal. f_equal. rewrite <- drop_drop, Hsp. unfold spaces. by rewrite drop_replicate. }
  assert (cstr (half len f)) as Hch by (apply Forall_app; split; [by apply Forall_take|apply spaces_cstr]).
  assert (cstr (drop ptr buf1)) as Hc1 by (rewrite Hdrop; by apply Forall_app).
  pose proof (parse_loop_exact (S (length buf1)) len buf1 ptr bunch Hc1 ltac:(lia) ltac:(lia) ltac:(lia)) as Hparse.
  assert (tokens [] (drop ptr buf1) = tokens u (half len f)) as Hbuf by (by rewrite Hdrop, tokens_no_sep).
  pose proof (half_tokens len u f Hlen Hne) as Hhalf. pose proof (tokens_unfinished u (half len f) Hu) as Hv.
  pose proof (tokens_cstr u (half len f) Hcu Hch) as Hcv.
  destruct (tokens u (half len f)) as [ws v] eqn:Et. rewrite Hbuf in Hparse. destruct Hparse as (buf2 & H1 & H2 & H3 & H4). rewrite H4, Hb1 in *. clear H4.
  destruct Hhalf as [Hseen Hended]. cbn [snd] in Hv, Hcv.
  destruct (Nat.ltb_spec (2 * len - length v) len) as [Hlong|Hfit].
  - assert (v <> []) as Hvne by (intros ->; simpl in Hlong; lia). exists Again, ws. split; [done|]. right. split; [done|].
    rewrite Hended. split; [by eexists|]. destruct (tokens_grows v (spaced (drop len f)) Hvne (spaced_sep _)) as (w & Hw & Hwl). exists w.
    split; [|lia]. rewrite elem_of_app. by right.
  - rewrite (proj2 (Nat.ltb_ge _ _)) by lia.
    assert (length (drop len buf2) = len) as Hl2 by (rewrite length_drop; lia).
    assert (drop (2 * len - length v - len) (drop len buf2) = v) as Hdv.
    { rewrite drop_drop. rewrite <- H2 at 2. f_equal. lia. }
    destruct (IH (drop len buf2 ++ spaces len) (2 * len - length v - len)%nat (drop len f) (bunch ++ (old <$> ws))) as (r & ws' & E & Hr).
    + rewrite length_drop. destruct f; [done|]. simpl in *. lia.
    + rewrite length_app, Hl2, spaces_length. lia.
    + lia.
    + by rewrite drop_app_length' by done.
    + rewrite take_app_length' by done. by rewrite Hdv.
    + rewrite take_app_length' by done. by rewrite Hdv.
    + by apply Forall_drop.
    + rewrite take_app_length' in Hr by done. rewrite Hdv in Hr. exists r, (ws ++ ws'). rewrite E, fmap_app, app_assoc. split; [done|].
      destruct Hr as [[-> ->]|(-> & Hpre & w & Hw & Hwl)]; [by left|]. right. split; [done|].
      rewrite Hended. split; [by apply prefix_app|]. exists w. split; [|done]. rewrite elem_of_app. by right.
Qed.

(** The passes end: the buffer grows until every word fits.  Each one but the
    last leaves some words in front. *)
Lemma checkout_loop_exact fuel bufsize f bunch :
  let len := Nat.div2 bufsize in
  (0 < len)%nat -> bufsize = (2 * len)%nat -> (length f < len + fuel)%nat -> (0 < fuel)%nat -> cstr f ->
  exists wss, let n := length wss in
    checkout_loop fuel bufsize f bunch = Some (bunch ++ (old <$> mjoin wss ++ words (seen (len * 2 ^ n) f))) /\
    Forall (fun ws => ws `prefix_of` words (spaced f)) wss /\
    forall i, (i < n)%nat -> exists w, w ∈ words (spaced f) /\ (len * 2 ^ i < length w)%nat.
Proof.
  revert bufsize bunch. induction fuel as [|fuel IH]; intros bufsize bunch len Hl H2 Hf Hpos Hc; [lia|]. cbn [checkout_loop]. fold len.
  destruct (pass_loop_exact (S (length f)) len (spaces (2 * len)) len f bunch) as (r & ws & E & Hr); try done.
  - lia.
  - by rewrite spaces_length.
  - unfold spaces. rewrite drop_replicate. f_equal. lia.
  - rewrite drop_ge by (rewrite length_take, spaces_length; lia). constructor.
  - rewrite drop_ge by (rewrite length_take, spaces_length; lia). constructor.
  - rewrite drop_ge in Hr by (rewrite length_take, spaces_length; lia). rewrite E. destruct Hr as [[-> ->]|(-> & Hpre & w & Hw & Hwl)].
    + exists []. cbn [length Nat.pow mjoin list_join app]. rewrite Nat.mul_1_r. split_and!; [done|constructor|lia].
    + pose proof (spaced_words_length f w Hw) as Hwf.
      assert (Nat.div2 (2 * bufsize) = 2 * len)%nat as Hd by (rewrite Nat.div2_double; lia).
      destruct (IH (2 * bufsize)%nat (bunch ++ (old <$> ws))) as (wss & Ea & Hin & Hlong); rewrite ?Hd; [lia..|done|]. rewrite Hd in Ea, Hlong.
      exists (ws :: wss). cbn [length mjoin list_join]. rewrite Ea. split_and!.
      * rewrite Nat.pow_succ_r', Nat.mul_assoc, (Nat.mul_comm len 2). by rewrite <- app_assoc, <- fmap_app, <- app_assoc.
      * by constructor.
      * intros [|i] Hi; [exists w; split; [exact Hw|]; simpl; lia|]. destruct (Hlong i ltac:(lia)) as (x & Hx & Hxl). exists x. split; [done|].
        rewrite Nat.pow_succ_r'. lia.
Qed.

(** C40: reading the database into the two halves of a growing buffer finds
    the words of the file in their order, for every file without NUL bytes.
    The halves have 8 bytes first and twice as many after each restart, for
    which a word longer than a half is needed; each restart leaves in front
    some words from the beginning of the file, which are found again, so that
    a word may be there once for every restart and once more.  The last word
    counts also without a separator behind it, unless the length of the file
    is a multiple of that of a half: then it is lost. *)
Theorem checkout_words f :
  cstr f ->
  exists wss, let n := length wss in let len := (8 * 2 ^ n)%nat in
    checkout f = Some (old <$> mjoin wss ++ (if (length f mod len =? 0)%nat then words f else words (f ++ [" "%char]))) /\
    Forall (fun ws => ws `prefix_of` words (f ++ [" "%char])) wss /\
    (forall i, (i < n)%nat -> exists w, w ∈ words (f ++ [" "%char]) /\ (8 * 2 ^ i < length w)%nat) /\
    (f = [] \/ ends_sep f -> words (f ++ [" "%char]) = words f).
Proof.
  intros Hc. destruct (checkout_loop_exact (S (length f)) BUFSIZE f []) as (wss & H1 & H2 & H3); [change (0 < 8)%nat; lia|done| |lia|done|].
  { change (Nat.div2 BUFSIZE) with 8%nat. lia. }
  change (Nat.div2 BUFSIZE) with 8%nat in *. exists wss. cbv zeta. split_and!; [|done|done|by apply words_spaced].
  unfold checkout. rewrite H1. cbn [app]. unfold seen, spaced. by destruct (_ =? 0)%nat.
Qed.
Lemma checkout_words_witness :
  let f : bytes := "one two" ++ "009"%char :: "three0123456789" in
  cstr f /\ words (f ++ [" "%char]) = ["one" : bytes; "two" : bytes; "three0123456789" : bytes] /\
  exists wss n, checkout f = Some (old <$> mjoin wss ++ (if (length f mod n =? 0)%nat then words f else words (f ++ [" "%char]))).
Proof.
  intros f. assert (cstr f) as Hc by (repeat constructor; done).
  split_and!; [exact Hc|by vm_compute|]. destruct (checkout_words f Hc) as (wss & H & _). by exists wss, (8 * 2 ^ length wss)%nat.
Defined.
(** A word is found three times when there are two restarts; a word at the end
    of a half is lost. *)
Lemma found_three_times :
  option_map (map m_name) (checkout ("a 0123456789012345678901234567890123456789 ")) =
    Some ["a" : bytes; "a" : bytes; "a" : bytes; "0123456789012345678901234567890123456789" : bytes].
Proof. by vm_compute. Qed.
Lemma last_word_lost : checkout "abcdefgh" = Some [] /\ option_map (map m_name) (checkout "abcdefg") = Some ["abcdefg" : bytes].
Proof. by vm_compute. Qed.

(** The database that is written is read back. *)
Lemma words_printed (ns : list bytes) :
  Forall (fun n => no_sep n /\ n <> []) ns -> words (ns ≫= fun n => n ++ [" "%char]) = ns.
Proof.
  intros H. unfold words. induction H as [|n ns [Hn Hne] H IH]; [done|]. rewrite bind_cons, <- app_assoc, tokens_no_sep by done.
  cbn [app tokens]. change (is_sep " ") with true. cbv iota. destruct (tokens [] (ns ≫= _)) as [ws u]. simpl in *. subst ws. by destruct n.
Qed.
Lemma missing_written bunch : snd (missing bunch) = (m_name <$> filter (fun m => m_state m <> STATE_NONE) bunch) ≫= fun n => n ++ [" "%char].
Proof. unfold missing. cbn [snd]. induction (filter _ bunch) as [|m ms IH]; [done|]. by rewrite fmap_cons, !bind_cons, IH. Qed.
Lemma missing_words bunch :
  Forall (fun m => no_sep (m_name m) /\ m_name m <> []) bunch ->
  words (snd (missing bunch)) = m_name <$> filter (fun m => m_state m <> STATE_NONE) bunch.
Proof.
  intros H. rewrite missing_written. apply words_printed. apply Forall_fmap. rewrite Forall_forall in *. intros m [_ Hm]%list_elem_of_filter. by apply H.
Qed.
(** The IDs of the command line come into the list once. *)
Lemma confirm_last_names id b b' : confirm_last id b = Some b' -> m_name <$> b' = m_name <$> b.
Proof.
  revert b'. induction b as [|m b IH]; intros b'; [done|]. cbn [confirm_last]. destruct (confirm_last id b) as [b1|].
  - intros [= <-]. rewrite !fmap_cons. f_equal. by apply IH.
  - destruct (bool_decide (m_name m = id)); [|done]. by intros [= <-].
Qed.
Lemma confirm_last_None id b : confirm_last id b = None <-> id ∉ m_name <$> b.
Proof.
  induction b as [|m b IH]; [split; [intros _; apply not_elem_of_nil|done]|]. cbn [confirm_last]. rewrite fmap_cons, not_elem_of_cons, <- IH.
  destruct (confirm_last id b); [split; [done|by intros [_ ?]]|]. destruct (bool_decide_reflect (m_name m = id)) as [->|Hn]; [split; [done|by intros [? _]]|].
  split; [intros _; split; [congruence|done]|done].
Qed.
Lemma add_ids_names ids b : NoDup (m_name <$> b) -> NoDup (m_name <$> foldl add_id b ids).
Proof.
  revert b. induction ids as [|id ids IH]; intros b Hb; [done|]. cbn [foldl]. apply IH. unfold add_id.
  destruct (confirm_last id b) as [b'|] eqn:E; [by rewrite (confirm_last_names _ _ _ E)|]. apply confirm_last_None in E.
  rewrite fmap_app. apply NoDup_app. split_and!; [done| |apply NoDup_singleton]. intros x Hx ->%list_elem_of_singleton. done.
Qed.
End Collect.
