(* ===== verification/AtaId.v ===== *)
(** The program src/ata_id/ata_id.c: the IDENTIFY data of a disk and what is
    printed of it. *)

From Stdlib Require Import ZArith Lia Ascii.
From stdpp Require Import prelude strings.
From S2P Require Import Prelude System Encode Getopt Scsi.
Import Getopt.

Module AtaId.

(** * The commands *)

(** What [SG_IO] gives: an error, or the status of the device, the transport
    and the driver, the sense data, and what is in the buffer then. *)
Inductive sg_result := Sg_error (errno : Z) | Sg_answer (device_status transport_status driver_status : Z) (sense data : bytes).
Definition EINVAL : Z := 22.
Definition at_ (s : bytes) (i : nat) : Z := code (nth i s nul).

Section disk.
(** The disk and its driver: the interface version, the bytes of the command
    that are not zero, and the size of the buffer. *)
Context {dev : Type} (sg_io : Z -> list (nat * Z) -> nat -> dev -> sg_result * dev).

(** Version 4, and version 3 when the driver does not know it: the error or
    the answer. *)
Definition sg_command (cdb : list (nat * Z)) (buf_len : nat) (w : dev) : sg_result * Z * dev :=
  match sg_io 4 cdb buf_len w with
  | (Sg_error e, w) => if e =? EINVAL then let '(r, w) := sg_io 3 cdb buf_len w in (r, 3, w) else (Sg_error e, 4, w)
  | (r, w) => (r, 4, w)
  end.
Definition disk_scsi_inquiry_command (buf_len : nat) (w : dev) : Z * bytes * dev :=
  match sg_command [(0%nat, 0x12); (3%nat, Z.land (Z.shiftr (Z.of_nat buf_len) 8) 0xff); (4%nat, Z.land (Z.of_nat buf_len) 0xff)] buf_len w with
  | (Sg_error _, _, w) => (-1, Scsi.zeros buf_len, w)
  | (Sg_answer d t r _ data, _, w) => (if (d =? 0) && (t =? 0) && (r =? 0) then 0 else -1, Scsi.field buf_len data, w)
  end.
(** The answer must have a descriptor of the ATA status. *)
Definition ata_status (sense : bytes) : bool := (at_ sense 0 =? 0x72) && (at_ sense 8 =? 0x9) && (at_ sense 9 =? 0x0c).
Definition identify_command (cdb : list (nat * Z)) (w : dev) : Z * bytes * dev :=
  match sg_command cdb 512 w with
  | (Sg_error _, _, w) => (-1, Scsi.zeros 512, w)
  | (Sg_answer _ _ _ sense data, _, w) => (if ata_status sense then 0 else -1, Scsi.field 512 data, w)
  end.
Definition disk_identify_command (w : dev) : Z * bytes * dev :=
  identify_command [(0%nat, 0xa1); (1%nat, 8); (2%nat, 0x2e); (4%nat, 1); (9%nat, 0xEC)] w.
Definition disk_identify_packet_device_command (w : dev) : Z * bytes * dev :=
  identify_command [(0%nat, 0x85); (1%nat, 8); (2%nat, 0x2e); (6%nat, 1); (14%nat, 0xA1)] w.
(** The result, the data, and whether it is that of a packet device. *)
Definition disk_identify (w : dev) : Z * bytes * bool * dev :=
  let '(ret, inquiry_buf, w) := disk_scsi_inquiry_command 36 w in
  if negb (ret =? 0) then (ret, Scsi.zeros 512, false, w)
  else
    let check ret (data : bytes) (packet : bool) w :=
      (if forallb (fun c => c ==c nul) data then -1 else ret, data, packet, w) in
    let peripheral_device_type := Z.land (at_ inquiry_buf 0) 0x1f in
    if peripheral_device_type =? 5 then
      let '(ret, data, w) := disk_identify_packet_device_command w in check ret data true w
    else if negb (peripheral_device_type =? 0) then (-1, Scsi.zeros 512, false, w)
    else
      let '(ret, data, w) := disk_identify_command w in
      if negb (ret =? 0) then (ret, data, false, w) else check ret data false w.

(** * The data *)

(** The two bytes of each word change places, for [dest_len] bytes from a
    word on. *)
Fixpoint get_string (fuel : nat) (identify : bytes) (offset_words : nat) : bytes :=
  match fuel with
  | O => []
  | S fuel' => nth (offset_words * 2 + 1) identify nul :: nth (offset_words * 2) identify nul :: get_string fuel' identify (S offset_words)
  end.
Definition disk_identify_get_string (identify : bytes) (offset_words dest_len : nat) : bytes := get_string (Nat.div2 dest_len) identify offset_words.
Definition disk_identify_fixup_string (identify : bytes) (offset_words len : nat) : bytes :=
  let p := (offset_words * 2)%nat in
  take p identify ++ disk_identify_get_string identify offset_words len ++ drop (p + len) identify.
(** A word of the data: little endian, as the machine reads it. *)
Definition word (identify : bytes) (i : nat) : Z := at_ identify (2 * i) + 256 * at_ identify (2 * i + 1).
Definition fixed_up (identify : bytes) : bytes :=
  disk_identify_fixup_string (disk_identify_fixup_string (disk_identify_fixup_string identify 10 20) 23 8) 27 40.

(** ** The fields of [struct hd_driveid] *)

Definition id_serial_no (id : bytes) : bytes := fst (split_chr (drop 20 id) nul).
Definition id_fw_rev (id : bytes) : bytes := fst (split_chr (drop 46 id) nul).
Definition id_model (id : bytes) : bytes := fst (split_chr (drop 54 id) nul).
Definition id_command_set_1 (id : bytes) : Z := word id 82.
Definition id_command_set_2 (id : bytes) : Z := word id 83.
Definition id_cfs_enable_1 (id : bytes) : Z := word id 85.
Definition id_cfs_enable_2 (id : bytes) : Z := word id 86.
Definition id_trseuc (id : bytes) : Z := word id 89.
Definition id_trsEuc (id : bytes) : Z := word id 90.
Definition id_CurAPMvalues (id : bytes) : Z := word id 91.
Definition id_acoustic (id : bytes) : Z := word id 94.
Definition id_dlf (id : bytes) : Z := word id 128.

Definition line (name value : bytes) : bytes := name ++ "="%char :: value ++ [newline].
Definition bit (z : Z) (n : Z) : bool := negb (Z.land z (Z.shiftl 1 n) =? 0).
Definition when (b : bool) (ls : list bytes) : list bytes := if b then ls else [].
(** A feature that is supported, and whether it is enabled. *)
Definition feature (name : bytes) (enabled : bool) : list bytes :=
  [line (("ID_ATA_" : bytes) ++ name) "1"; line (("ID_ATA_" : bytes) ++ name ++ "_ENABLED") (if enabled then "1" else "0")].
Definition clean (s : bytes) (len : nat) : bytes := fst (util_replace_chars (util_replace_whitespace s len) None).
Definition model_of (id : bytes) : bytes := clean (id_model id) 40.
Definition serial_of (id : bytes) : bytes := clean (id_serial_no id) 20.
Definition revision_of (id : bytes) : bytes := clean (id_fw_rev id) 8.
Definition model_enc (id : bytes) : bytes := fst (udev_util_encode_string (fst (split_chr (take 40 (drop 54 id)) nul)) 256).
Definition type_of (id : bytes) : bytes :=
  let config := Z.shiftr (word id 0) 8 in
  if negb (Z.land config 0x80 =? 0) then
    let t := Z.land config 0x1f in
    if t =? 0 then "cd" else if t =? 1 then "tape" else if t =? 5 then "cd" else if t =? 7 then "optical" else "generic"
  else "disk".
Definition security_lines (id : bytes) : list bytes :=
  let s name := ("ID_ATA_FEATURE_SET_SECURITY_" : bytes) ++ name in
  feature "FEATURE_SET_SECURITY" (bit (id_cfs_enable_1 id) 1) ++
  [line (s "ERASE_UNIT_MIN") (fmt_i (id_trseuc id * 2))] ++
  when (bit (id_cfs_enable_1 id) 1) [line (s "LEVEL") (if bit (id_dlf id) 8 then "maximum" else "high")] ++
  when (bit (id_dlf id) 5) [line (s "ENHANCED_ERASE_UNIT_MIN") (fmt_i (id_trsEuc id * 2))] ++
  when (bit (id_dlf id) 4) [line (s "EXPIRE") "1"] ++
  when (bit (id_dlf id) 3) [line (s "FROZEN") "1"] ++
  when (bit (id_dlf id) 2) [line (s "LOCKED") "1"].
Definition set_1_lines (id : bytes) : list bytes :=
  let set := id_command_set_1 id in
  let on := id_cfs_enable_1 id in
  when (bit set 5) (feature "WRITE_CACHE" (bit on 5)) ++
  when (bit set 10) (feature "FEATURE_SET_HPA" (bit on 10)) ++
  when (bit set 3) (feature "FEATURE_SET_PM" (bit on 3)) ++
  when (bit set 1) (security_lines id) ++
  when (bit set 0) (feature "FEATURE_SET_SMART" (bit on 0)).
Definition set_2_lines (id : bytes) : list bytes :=
  let set := id_command_set_2 id in
  let on := id_cfs_enable_2 id in
  when (bit set 9) (feature "FEATURE_SET_AAM" (bit on 9) ++
    [line "ID_ATA_FEATURE_SET_AAM_VENDOR_RECOMMENDED_VALUE" (fmt_i (Z.shiftr (id_acoustic id) 8));
     line "ID_ATA_FEATURE_SET_AAM_CURRENT_VALUE" (fmt_i (Z.land (id_acoustic id) 0xff))]) ++
  when (bit set 5) (feature "FEATURE_SET_PUIS" (bit on 5)) ++
  when (bit set 3) (feature "FEATURE_SET_APM" (bit on 3) ++
    when (bit on 3) [line "ID_ATA_FEATURE_SET_APM_CURRENT_VALUE" (fmt_i (Z.land (id_CurAPMvalues id) 0xff))]) ++
  when (bit set 0) [line "ID_ATA_DOWNLOAD_MICROCODE" "1"].
(** The lines made from the words of the data itself. *)
Definition sata_lines (identify : bytes) : list bytes :=
  let w := word identify 76 in
  when (negb (w =? 0x0000) && negb (w =? 0xffff))
    (line "ID_ATA_SATA" "1" :: when (bit w 2) [line "ID_ATA_SATA_SIGNAL_RATE_GEN2" "1"] ++ when (bit w 1) [line "ID_ATA_SATA_SIGNAL_RATE_GEN1" "1"]).
Definition rotation_lines (identify : bytes) : list bytes :=
  let w := word identify 217 in
  if w =? 0x0001 then [line "ID_ATA_ROTATION_RATE_RPM" "0"]
  else when ((0x0401 <=? w) && (w <=? 0xfffe)) [line "ID_ATA_ROTATION_RATE_RPM" (fmt_i w)].
Definition wwwn (identify : bytes) : Z :=
  Z.lor (Z.shiftl (Z.lor (Z.shiftl (Z.lor (Z.shiftl (word identify 108) 16) (word identify 109)) 16) (word identify 110)) 16) (word identify 111).
Definition wwn_lines (identify : bytes) : list bytes :=
  when (Z.land (word identify 108) 0xf000 =? 0x5000)
    [line "ID_WWN" (("0x" : bytes) ++ fmt 16 (wwwn identify)); line "ID_WWN_WITH_EXTENSION" (("0x" : bytes) ++ fmt 16 (wwwn identify))].
Definition cfa_lines (identify : bytes) : list bytes :=
  when ((word identify 0 =? 0x848a) || (word identify 0 =? 0x844a) || (Z.land (word identify 83) 0xc004 =? 0x4004)) [line "ID_ATA_CFA" "1"].
Definition export_lines (id identify : bytes) : list bytes :=
  let model := model_of id in
  let serial := serial_of id in
  [line "ID_ATA" "1"; line "ID_TYPE" (type_of id); line "ID_BUS" "ata"; line "ID_MODEL" model; line "ID_MODEL_ENC" (model_enc id);
   line "ID_REVISION" (revision_of id)] ++
  match serial with
  | [] => [line "ID_SERIAL" model]
  | _ => [line "ID_SERIAL" (model ++ "_"%char :: serial); line "ID_SERIAL_SHORT" serial]
  end ++
  set_1_lines id ++ set_2_lines id ++ sata_lines identify ++ rotation_lines identify ++ wwn_lines identify ++ cfa_lines identify.
Definition plain_lines (id : bytes) : list bytes :=
  [match serial_of id with [] => model_of id | serial => model_of id ++ "_"%char :: serial end ++ [newline]].

(** * The program *)

Definition options : list option_ := [mk_option "export" no_argument "x"; mk_option "help" no_argument "h"].
(** [None] ends the program with 0; an option that is not known changes
    nothing. *)
Fixpoint option_loop (export : bool) (fs : list found) : option bool :=
  match fs with
  | [] => Some export
  | (option, _) :: fs' =>
      if option ==c "x" then option_loop true fs' else if option ==c "h" then None else option_loop export fs'
  end.
(** Opening the node, and what HDIO_GET_IDENTITY gives. *)
Context (sys_open : bytes -> dev -> bool * dev) (get_identity : dev -> option bytes * dev).
Definition main (argv : list bytes) (w : dev) : Z * list bytes * dev :=
  let '(fs, rest) := getopt_long "xh" options argv in
  match option_loop false fs, rest with
  | None, _ => (0, [], w)
  | Some _, [] => (1, [], w)
  | Some export, node :: _ =>
      let '(opened, w) := sys_open node w in
      if negb opened then (1, [], w)
      else
        let '(ret, identify, _, w) := disk_identify w in
        let '(id, identify, w) :=
          if ret =? 0 then (Some (fixed_up identify), fixed_up identify, w)
          else let '(id, w) := get_identity w in (id, identify, w) in
        match id with
        | None => (2, [], w)
        | Some id => (0, if (export : bool) then export_lines id identify else plain_lines id, w)
        end
  end.
End disk.

(** * The strings come out in order *)

(** A text as the disk stores it: the first character of a word is its high
    byte. *)
Fixpoint stored_text (s : bytes) : bytes :=
  match s with a :: b :: s' => b :: a :: stored_text s' | _ => s end.
Lemma get_string_stored s pre post n :
  length s = (2 * n)%nat -> Nat.even (length pre) = true ->
  get_string n (pre ++ stored_text s ++ post) (Nat.div2 (length pre)) = s.
Proof.
  revert s pre. induction n as [|n IH]; intros s pre Hs Hp; [by destruct s|]. destruct s as [|a [|b s]]; [simpl in Hs; lia|simpl in Hs; lia|].
  apply Nat.even_spec in Hp as [m Hm]. cbn [get_string stored_text]. rewrite Hm, Nat.div2_double.
  assert (forall k, nth (m * 2 + k) (pre ++ (b :: a :: stored_text s) ++ post) nul = nth k ((b :: a :: stored_text s) ++ post) nul) as Hk.
  { intros k. rewrite app_nth2 by lia. f_equal. lia. }
  rewrite (Hk 1%nat). pose proof (Hk 0%nat) as H0. rewrite Nat.add_0_r in H0. rewrite H0. cbn [app nth]. do 2 f_equal.
  specialize (IH s (pre ++ [b; a])). rewrite length_app, Hm in IH. cbn [length] in IH.
  replace (2 * m + 2)%nat with (2 * S m)%nat in IH by lia. rewrite Nat.div2_double in IH. rewrite <- app_assoc in IH. cbn [app] in IH.
  apply IH; [simpl in Hs; lia|]. by rewrite Nat.even_even.
Qed.
(** The serial number, the revision and the model become what they are, and
    nothing else of the data changes. *)
Lemma fixed_up_strings p0 serial p1 rev p2 model rest :
  length p0 = 20%nat -> length serial = 20%nat -> length p1 = 6%nat -> length rev = 8%nat -> length p2 = 0%nat -> length model = 40%nat ->
  fixed_up (p0 ++ stored_text serial ++ p1 ++ stored_text rev ++ p2 ++ stored_text model ++ rest) =
    p0 ++ serial ++ p1 ++ rev ++ p2 ++ model ++ rest.
Proof.
  intros H0 H1 H2 H3 H4 H5.
  assert (forall s, length (stored_text s) = length s) as Hl.
  { intros s. remember (length s) as n eqn:Hn. revert s Hn. induction (lt_wf n) as [n _ IH]. intros s ->. destruct s as [|a [|b s]]; [done|done|].
    cbn [stored_text length]. do 2 f_equal. apply (IH (length s)); [simpl; lia|done]. }
  assert (forall pre s post off n, length pre = (off * 2)%nat -> length s = (2 * n)%nat ->
    disk_identify_fixup_string (pre ++ stored_text s ++ post) off (2 * n) = pre ++ s ++ post) as Hfix.
  { intros pre s post off n Hp Hs. unfold disk_identify_fixup_string, disk_identify_get_string. rewrite Nat.div2_double.
    rewrite take_app_length' by done. replace off with (Nat.div2 (length pre)) at 1 by (rewrite Hp, Nat.mul_comm; apply Nat.div2_double).
    rewrite get_string_stored by (try done; rewrite Hp, Nat.mul_comm; apply Nat.even_even). f_equal. f_equal.
    rewrite <- drop_drop, drop_app_length' by done. apply drop_app_length'. by rewrite Hl. }
  unfold fixed_up. pose proof (Hfix p0 serial (p1 ++ stored_text rev ++ p2 ++ stored_text model ++ rest) 10%nat 10%nat H0 H1) as E0.
  change (2 * 10)%nat with 20%nat in E0. rewrite E0.
  pose proof (Hfix (p0 ++ serial ++ p1) rev (p2 ++ stored_text model ++ rest) 23%nat 4%nat) as E1. change (2 * 4)%nat with 8%nat in E1. rewrite <- !app_assoc in E1.
  rewrite E1 by (rewrite ?length_app; lia).
  pose proof (Hfix (p0 ++ serial ++ p1 ++ rev ++ p2) model rest 27%nat 20%nat) as E2. change (2 * 20)%nat with 40%nat in E2. rewrite <- !app_assoc in E2.
  by rewrite E2 by (rewrite ?length_app; lia).
Qed.
End AtaId.
