(* ===== verification/RuleStatic.v ===== *)
(** src/core/udev-rules.c: the permissions that the rules give to static device
    nodes, those which exist without an event ([udev_rules_apply_static_dev_perms],
    called when the daemon starts).  The walk over the token array is proved
    against a specification without one. *)

From Stdlib Require Import ZArith Lia Ascii Sorted.
From stdpp Require Import prelude gmap strings sorting.
From S2P Require Import Prelude Utils Strings Encode Strbuf RuleTokens RuleParse RulesWf System UdevList Device DeviceProofs DeviceNew Event RuleApply RuleWalk Node Util.
Import ParseValue Mem Device Event RuleApply RuleWalk Node Util.

Module RuleStatic.

(** [stat] with the owner, which [System] does not have. *)
Class StaticNodes `{SY : System} := { sys_stat_node : bytes -> state world (option node_stat) }.

(** The variables [uid], [gid], [mode] and [tags]. *)
Record perms := mk_perms { p_uid : Z; p_gid : Z; p_mode : Z; p_tags : list bytes }.
Definition no_perms : perms := mk_perms 0 0 0 [].
Definition unset (p : perms) : bool := (p_mode p =? 0) && (p_uid p =? 0) && (p_gid p =? 0).
#[export] Instance eta_perms : Eta perms := fun p => mk_perms (p_uid p) (p_gid p) (p_mode p) (p_tags p).

Definition RUN_TAGS : bytes := "/run/udev/static_node-tags/".
Definition S_IALLUGO : Z := 0x3FF. (* 01777 *)

Section static.
Context {P : Type} `{Hpool : StringPool P} `{SY : System} {NO : Nodes} {SN : StaticNodes}.
Implicit Types (r : @rules P) (k : key_token).

(** The link of a tag to the node; [None] goes on, a number is returned. *)
Definition tag_node (value device_node t : bytes) : state world (option Z) :=
  let tags_dir := fst (strscpyl UTIL_PATH_SIZE [RUN_TAGS; t; "/" : bytes]) in
  e ← path_create tags_dir 0x1ED;
  if e <? 0 then n ← sys_errno; mret (Some (- n))
  else
    let tag_symlink := fst (strscpyl UTIL_PATH_SIZE [tags_dir; xescape value "/."]) in
    e ← sys_symlink device_node tag_symlink;
    if negb (e =? 0) && negb (e =? EEXIST) then mret (Some (- e)) else mret None.
Fixpoint tag_nodes (value device_node : bytes) (tags : list bytes) : state world (option Z) :=
  match tags with
  | [] => mret None
  | t :: tags' =>
      e ← tag_node value device_node t;
      match e with Some e => mret (Some e) | None => tag_nodes value device_node tags' end
  end.
Definition static_mode (p : perms) : Z := if p_mode p =? 0 then if 0 <? p_gid p then 0x1B0 else 0x180 else p_mode p.
Definition change_mode (device_node : bytes) (mode : Z) (st : node_stat) : state world (option Z) :=
  if mode =? Z.land (ns_mode st) S_IALLUGO then mret None
  else e ← sys_chmod device_node mode; mret (if e =? 0 then None else Some (- e)).
Definition change_owner (device_node : bytes) (p : perms) (st : node_stat) : state world (option Z) :=
  if (negb (p_uid p =? 0) && negb (p_uid p =? ns_uid st)) || (negb (p_gid p =? 0) && negb (p_gid p =? ns_gid st))
  then e ← sys_chown device_node (p_uid p) (p_gid p); mret (if e =? 0 then None else Some (- e))
  else mret None.
(** A TK_A_STATIC_NODE behind its first test.  The mode that is chosen stays
    for the next one of the rule. *)
Definition static_node (value : bytes) (p : perms) : state world (option Z * perms) :=
  let device_node := fst (strscpyl UTIL_PATH_SIZE ["/dev/" : bytes; value]) in
  stats ← sys_stat_node device_node;
  match stats with
  | None => mret (None, p)
  | Some st =>
      if negb (S_ISBLK (ns_mode st)) && negb (S_ISCHR (ns_mode st)) then mret (None, p)
      else
        e ← tag_nodes value device_node (p_tags p);
        match e with
        | Some e => mret (Some e, p)
        | None =>
            if unset p then mret (None, p)
            else
              let p := p <| p_mode := static_mode p |> in
              e ← change_mode device_node (p_mode p) st;
              match e with
              | Some e => mret (Some e, p)
              | None =>
                  e ← change_owner device_node p st;
                  match e with
                  | Some e => mret (Some e, p)
                  | None => sys_utimens device_node false ;; mret (None, p)
                  end
              end
        end
  end.

(** What a key does to the variables; a static node is [inr]. *)
Definition static_key r k (p : perms) : perms + bytes :=
  match type k with
  | TK_A_OWNER_ID => inl (p <| p_uid := data k |>)
  | TK_A_GROUP_ID => inl (p <| p_gid := data k |>)
  | TK_A_MODE_ID => inl (p <| p_mode := data k |>)
  | TK_A_TAG => inl (p <| p_tags := p_tags p ++ [rules_str r (value_off k)] |>)
  | TK_A_STATIC_NODE => inr (rules_str r (value_off k))
  | _ => inl p
  end.
Fixpoint static_loop (fuel : nat) r (cur rule : nat) (p : perms) : state world walk_result :=
  match fuel with
  | O => mret OutOfFuel
  | S fuel' =>
      let next (rule : nat) :=
        match next_rule r rule with
        | Some cur => static_loop fuel' r cur rule p
        | None => mret OutOfArray
        end in
      match tokens r !! cur with
      | None => mret OutOfArray
      | Some (RuleToken rt) =>
          if has_static_node rt then static_loop fuel' r (S cur) cur no_perms else next cur
      | Some (KeyToken k) =>
          if bool_decide (type k = TK_END) then mret (Finished 0)
          else
            match static_key r k p with
            | inl p => static_loop fuel' r (S cur) rule p
            | inr value =>
                if unset p && bool_decide (p_tags p = []) then next rule
                else
                  '(e, p) ← static_node value p;
                  match e with
                  | Some e => mret (Finished e)
                  | None => static_loop fuel' r (S cur) rule p
                  end
            end
      end
  end.
Definition udev_rules_apply_static_dev_perms r : state world walk_result :=
  match tokens r with
  | [] => mret (Finished 0)
  | _ => static_loop (S (length (tokens r))) r 0 0 no_perms
  end.

(** * The specification *)

(** The permissions of a rule: the last owner, group and mode, and all tags. *)
Definition add_perm r (p : perms) k : perms := match static_key r k p with inl p => p | inr _ => p end.
Definition perms_of r (ks : list key_token) : perms := foldl (add_perm r) no_perms ks.
Definition static_values r (ks : list key_token) : list bytes :=
  rules_str r ∘ value_off <$> filter (fun k => type k = TK_A_STATIC_NODE) ks.
(** Every node gets the same ones. *)
Fixpoint static_nodes (values : list bytes) (p : perms) : state world (option Z) :=
  match values with
  | [] => mret None
  | v :: values' =>
      '(e, _) ← static_node v p;
      match e with Some e => mret (Some e) | None => static_nodes values' p end
  end.
Definition static_rule r (b : block) : state world (option Z) :=
  let p := perms_of r b.2 in
  if has_static_node b.1 && negb (unset p && bool_decide (p_tags p = [])) then static_nodes (static_values r b.2) p
  else mret None.
Fixpoint static_rules r (bs : list block) : state world Z :=
  match bs with
  | [] => mret 0
  | b :: bs' => e ← static_rule r b; match e with Some e => mret e | None => static_rules r bs' end
  end.
Definition apply_static r : state world Z := static_rules r (blocks_of (tokens r)).2.

(** * The keys of a rule *)

Fixpoint static_keys r (ks : list key_token) (p : perms) : state world (option Z) :=
  match ks with
  | [] => mret None
  | k :: ks' =>
      match static_key r k p with
      | inl p => static_keys r ks' p
      | inr v =>
          if unset p && bool_decide (p_tags p = []) then mret None
          else '(e, p) ← static_node v p; match e with Some e => mret (Some e) | None => static_keys r ks' p end
      end
  end.

(** A mode that was chosen makes no difference to the next node. *)
Definition settled (p p' : perms) : Prop := p' = p \/ unset p = false /\ p' = p <| p_mode := static_mode p |>.
Lemma static_mode_nonzero p : static_mode p <> 0.
Proof. unfold static_mode. destruct (Z.eqb_spec (p_mode p) 0); [by destruct (0 <? p_gid p)|done]. Qed.
Lemma settled_unset p p' : settled p p' -> unset p' = unset p.
Proof.
  intros [->|[Hu ->]]; [done|]. rewrite Hu. unfold unset. cbn [p_mode set_field]. simpl.
  by rewrite (proj2 (Z.eqb_neq _ _) (static_mode_nonzero p)).
Qed.
Lemma settled_tags p p' : settled p p' -> p_tags p' = p_tags p.
Proof. by intros [->|[_ ->]]. Qed.
Lemma settled_mode p p' : settled p p' -> p' <| p_mode := static_mode p' |> = p <| p_mode := static_mode p |>.
Proof.
  intros [->|[_ ->]]; [done|]. unfold static_mode at 1. cbn [p_mode set_field]. simpl.
  by rewrite (proj2 (Z.eqb_neq _ _) (static_mode_nonzero p)).
Qed.
Lemma static_node_settled v p p' w : settled p p' ->
  let '((e, q), w1) := static_node v p w in let '((e', q'), w1') := static_node v p' w in
  e' = e /\ w1' = w1 /\ settled p q /\ settled p q'.
Proof.
  intros H. assert (settled p p) as Hr by (by left). unfold static_node, mbind, state_bind, mret, state_ret.
  destruct (sys_stat_node _ w) as [[st|] w1]; [|done]. destruct (_ && _); [done|].
  rewrite (settled_tags _ _ H), (settled_unset _ _ H), (settled_mode _ _ H).
  destruct (tag_nodes _ _ _ w1) as [[e|] w2]; [done|].
  destruct (unset p) eqn:Hu; [done|].
  assert (settled p (p <| p_mode := static_mode p |>)) as Hs by (by right).
  destruct (change_mode _ _ _ w2) as [[e|] w3]; [done|]. destruct (change_owner _ _ _ w3) as [[e|] w4]; [done|].
  by destruct (sys_utimens _ _ w4).
Qed.
Lemma static_key_inl r k p : type k <> TK_A_STATIC_NODE -> static_key r k p = inl (add_perm r p k).
Proof. intros Hk. unfold add_perm, static_key. by destruct (type k). Qed.
Lemma static_key_inr r k p : type k = TK_A_STATIC_NODE -> static_key r k p = inr (rules_str r (value_off k)).
Proof. intros Hk. unfold static_key. by rewrite Hk. Qed.
Lemma add_perm_behind r k p : tt TK_A_STATIC_NODE <= tt (type k) -> add_perm r p k = p.
Proof. unfold add_perm, static_key. destruct (type k); simpl; try done; lia. Qed.
Lemma perms_behind r ks p : Forall (fun k => tt TK_A_STATIC_NODE <= tt (type k)) ks -> foldl (add_perm r) p ks = p.
Proof. induction 1 as [|k ks Hk _ IH]; [done|]. simpl. by rewrite add_perm_behind. Qed.

Lemma static_keys_nodes r ks p p' w :
  Forall (fun k => tt TK_A_STATIC_NODE <= tt (type k)) ks -> settled p p' ->
  static_keys r ks p' w =
    (if unset p && bool_decide (p_tags p = []) then mret None else static_nodes (static_values r ks) p) w.
Proof.
  intros Hks. revert p' w. induction Hks as [|k ks Hk _ IH]; intros p' w Hs; [by destruct (_ && _)|]. cbn [static_keys].
  unfold static_values. rewrite filter_cons. destruct (decide (type k = TK_A_STATIC_NODE)) as [Ht|Ht].
  - rewrite static_key_inr, (settled_unset _ _ Hs), (settled_tags _ _ Hs) by done.
    destruct (unset p && _) eqn:Hu; [done|]. rewrite fmap_cons. cbn [static_nodes].
    pose proof (static_node_settled (rules_str r (value_off k)) p p' w Hs) as Hn.
    unfold mbind, state_bind. cbn [compose] in *.
    unfold compose at 1. destruct (static_node _ p w) as [[e q] w1]. destruct (static_node _ p' w) as [[e' q'] w1'].
    destruct Hn as (-> & -> & _ & Hq). destruct e as [e|]; [done|]. by rewrite (IH q').
  - rewrite static_key_inl by done. rewrite add_perm_behind by done. by apply IH.
Qed.
Lemma static_keys_exact r ks p w : StronglySorted le_type ks ->
  static_keys r ks p w =
    (let p := foldl (add_perm r) p ks in
     if unset p && bool_decide (p_tags p = []) then mret None else static_nodes (static_values r ks) p) w.
Proof.
  intros Hs. revert p. induction Hs as [|k ks Hs IH Hk]; intros p; [simpl; by destruct (unset p && _)|].
  destruct (decide (type k = TK_A_STATIC_NODE)) as [Ht|Ht].
  - assert (Forall (fun k => tt TK_A_STATIC_NODE <= tt (type k)) (k :: ks)) as Hf.
    { constructor; [by rewrite Ht|]. eapply Forall_impl; [exact Hk|]. intros x. unfold le_type. by rewrite Ht. }
    rewrite perms_behind by done. apply static_keys_nodes; [done|by left].
  - cbn [static_keys foldl]. rewrite static_key_inl by done. rewrite IH. unfold static_values. by rewrite filter_cons, decide_False.
Qed.

(** * The walk *)

Section array.
Context (r : @rules P).
Definition enough (fuel cur : nat) : Prop := (length (tokens r) < cur + fuel)%nat.
Definition goes_on (K : state world walk_result) (e : option Z) : state world walk_result :=
  match e with Some e => mret (Finished e) | None => K end.

Lemma static_walk_keys pre rt ks rest K i fuel p w :
  tokens r = pre ++ RuleToken rt :: (KeyToken <$> ks) ++ rest -> token_count rt = 1 + Z.of_nat (length ks) ->
  Forall (fun k => type k <> TK_END) ks ->
  (forall fuel rule p w, enough fuel (length pre + S (length ks)) -> static_loop fuel r (length pre + S (length ks)) rule p w = K w) ->
  (i <= length ks)%nat -> enough fuel (length pre + S i) ->
  static_loop fuel r (length pre + S i) (length pre) p w = (e ← static_keys r (drop i ks) p; goes_on K e) w.
Proof.
  intros Htok Hcount Hend Hnext. remember (length ks - i)%nat as n eqn:Hn. revert i fuel p w Hn.
  induction n as [|n IH]; intros i fuel p w Hn Hi Hf.
  { replace i with (length ks) in * by lia. rewrite drop_all. by apply Hnext. }
  destruct (lookup_lt_is_Some_2 ks i) as [k Hk]; [lia|].
  assert (tokens r !! (length pre + S i)%nat = Some (KeyToken k)) as Hlk.
  { rewrite Htok, lookup_app_r by lia. replace (length pre + S i - length pre)%nat with (S i) by lia. simpl.
    rewrite lookup_app_l by (rewrite length_fmap; lia). by rewrite list_lookup_fmap, Hk. }
  destruct fuel as [|fuel]; [unfold enough in Hf; apply lookup_lt_Some in Hlk; lia|].
  cbn [static_loop]. rewrite Hlk, bool_decide_false by (rewrite Forall_lookup in Hend; by eapply Hend).
  rewrite (drop_S ks k i Hk). cbn [static_keys].
  assert (forall p w, static_loop fuel r (S (length pre + S i)) (length pre) p w = (e ← static_keys r (drop (S i) ks) p; goes_on K e) w) as Hgo.
  { intros q v. rewrite <- Nat.add_succ_r. apply IH; [lia..|]. unfold enough in *. lia. }
  destruct (static_key r k p) as [q|v]; [by apply Hgo|].
  destruct (_ && _).
  - unfold next_rule. rewrite Htok, lookup_app_r, Nat.sub_diag by lia. simpl.
    rewrite Hcount, Z2Nat.inj_add, Nat2Z.id by lia. rewrite Hnext; [done|]. unfold enough in *. lia.
  - unfold mbind, state_bind in *. destruct (static_node v p w) as [[e q] w']. destruct e as [e|]; [done|]. apply Hgo.
Qed.

Lemma static_walk_rules pre bs fuel rule p w :
  tokens r = pre ++ flat bs ++ [end_token] -> Forall (fun b : block => rule_wf (strbuf r) b.1 b.2) bs ->
  enough fuel (length pre) ->
  static_loop fuel r (length pre) rule p w = (e ← static_rules r bs; mret (Finished e)) w.
Proof.
  revert pre fuel rule p w. induction bs as [|[rt ks] bs IH]; intros pre fuel rule p w Htok Hwf Hf.
  - assert (tokens r !! length pre = Some end_token) as Hlk by (rewrite Htok; by apply list_lookup_middle).
    destruct fuel as [|fuel]; [unfold enough in Hf; apply lookup_lt_Some in Hlk; lia|]. cbn [static_loop]. by rewrite Hlk.
  - apply Forall_cons in Hwf as [(Hcount & _ & _ & Hk & Hs) Hwf]. cbn [fst snd] in *.
    unfold flat in Htok. rewrite bind_cons in Htok. fold (flat bs) in Htok. unfold flat_block at 1 in Htok. cbn [fst snd] in Htok.
    rewrite <- app_assoc, <- app_comm_cons in Htok.
    assert (tokens r !! length pre = Some (RuleToken rt)) as Hlk by (rewrite Htok; by apply list_lookup_middle).
    assert (forall fuel rule p w, enough fuel (length pre + S (length ks)) ->
      static_loop fuel r (length pre + S (length ks)) rule p w = (e ← static_rules r bs; mret (Finished e)) w) as Hnext.
    { intros f rl q v Hf'. specialize (IH (pre ++ flat_block (rt, ks)) f rl q v). rewrite length_app in IH. simpl in IH.
      rewrite length_fmap in IH. apply IH; [|done|done]. rewrite Htok. unfold flat_block. cbn [fst snd]. by rewrite <- app_assoc, <- app_comm_cons. }
    destruct fuel as [|fuel]; [unfold enough in Hf; apply lookup_lt_Some in Hlk; lia|].
    cbn [static_loop static_rules]. rewrite Hlk. unfold static_rule. cbn [fst snd]. destruct (has_static_node rt).
    + rewrite <- (Nat.add_1_r (length pre)). change 1%nat with (S 0).
      rewrite (static_walk_keys pre rt ks (flat bs ++ [end_token]) (e ← static_rules r bs; mret (Finished e)) 0 fuel no_perms w Htok Hcount).
      2: { eapply Forall_impl; [exact Hk|]. intros k ?. by eapply not_end. }
      2: exact Hnext. 2: lia. 2: { unfold enough in *. lia. }
      unfold mbind, state_bind. rewrite drop_0, static_keys_exact by done. cbv zeta. unfold perms_of. cbn [andb].
      destruct (unset _ && _); cbn [negb]; [by destruct (static_rules r bs w)|].
      destruct (static_nodes _ _ w) as [[e|] w']; [done|]. reflexivity.
    + unfold next_rule. rewrite Hlk, Hcount, Z2Nat.inj_add, Nat2Z.id by lia. cbn [andb]. cbv iota.
      change (Z.to_nat 1 + length ks)%nat with (S (length ks)). rewrite (Hnext fuel (length pre) p w); [done|]. unfold enough in *. lia.
Qed.
End array.

Context (getpwuid : Z -> bool) (getpwnam : bytes -> option Z) (getgrgid : Z -> bool) (getgrnam : bytes -> option Z).
#[local] Abbreviation load := (rules_load getpwuid getpwnam getgrgid getgrnam).

(** C26: for every set of rules files that fits the token array, the walk over
    it does the following and comes to its end: for each rule in their order,
    whatever its match keys and GOTOs are, every static node of the rule gets
    the last owner, group and mode of this rule and all of its tags, and
    nothing of another rule; and the first call that fails ends it with its
    error. *)
Theorem static_perms_exact st files w :
  Forall (fun f => cstr f.1) files -> fits32 (load st files) ->
  let r := u_rules (load st files) in
  udev_rules_apply_static_dev_perms r w = (e ← apply_static r; mret (Finished e)) w.
Proof.
  intros Hf Hfit r.
  destruct (rules_load_state getpwuid getpwnam getgrgid getgrnam st files Hf) as [_ (toks & Ht & Hb & _)]; [done|]. fold r in Ht, Hb.
  apply blocks_wf_inv in Hb as (bs & Hbs & Hwf). unfold udev_rules_apply_static_dev_perms, apply_static.
  assert (tokens r = flat bs ++ [end_token]) as Htok by (by rewrite Ht, Hbs).
  rewrite Htok, blocks_of_flat.
  - cbn [snd]. pose proof (static_walk_rules r [] bs (S (length (flat bs ++ [end_token]))) 0 no_perms w Htok Hwf) as Hw.
    unfold enough in Hw. rewrite Htok in Hw. specialize (Hw ltac:(simpl; lia)). cbn [length] in Hw.
    destruct (flat bs ++ [end_token]) eqn:E; [by apply app_eq_nil in E as []|]. exact Hw.
  - eapply Forall_impl; [exact Hwf|]. intros [rt ks] (_ & _ & _ & Hk & _).
    eapply Forall_impl; [exact Hk|]. intros k ?. by eapply not_end.
Qed.

(** A rule without owner, group, mode and tags, and a name that is not one of
    a device node, change nothing. *)
Lemma static_rule_unset r b w : perms_of r b.2 = no_perms -> static_rule r b w = (None, w).
Proof. intros H. unfold static_rule. rewrite H. by rewrite andb_false_r. Qed.
Lemma static_node_other v p w :
  (forall st w', sys_stat_node (fst (strscpyl UTIL_PATH_SIZE ["/dev/" : bytes; v])) w = (Some st, w') ->
     S_ISBLK (ns_mode st) = false /\ S_ISCHR (ns_mode st) = false) ->
  snd (static_node v p w) = snd (sys_stat_node (fst (strscpyl UTIL_PATH_SIZE ["/dev/" : bytes; v])) w).
Proof.
  intros H. unfold static_node, mbind, state_bind. destruct (sys_stat_node _ w) as [[st|] w'] eqn:E; [|done].
  destruct (H st w' eq_refl) as [-> ->]. done.
Qed.
Lemma hexchar_plain x : hexchar x <> "/"%char /\ hexchar x <> "."%char.
Proof.
  unfold hexchar. pose proof (Z.land_ones x 4 ltac:(lia)) as H. change (Z.ones 4) with 15 in H. rewrite H.
  pose proof (Z.mod_pos_bound x (2 ^ 4) ltac:(lia)). generalize dependent (x mod 2 ^ 4). intros y _ Hy.
  assert (Z.to_nat y < 16)%nat as Hn by lia. revert Hn. generalize (Z.to_nat y) as n. intros n Hn.
  do 16 (destruct n as [|n]; [done|]). lia.
Qed.
(** The name of the link of a tag has no slash and no dot, so it stays in the
    directory of the tag. *)
Lemma tag_link_name v : Forall (fun c => c <> "/"%char /\ c <> "."%char) (xescape v "/.").
Proof.
  unfold xescape. induction v as [|c v IH]; [constructor|]. simpl. apply Forall_app. split; [|done].
  unfold xescape_char. destruct (_ || _) eqn:E.
  - repeat constructor; try done; apply hexchar_plain.
  - repeat constructor; intros ->; done.
Qed.
End static.

(** A system with the device of the loop control, for examples. *)
Definition static_system : System := {|
  world := list (bytes * Z * Z);
  sys_properties := [];
  sys_read_file := fun p w => (None, w);
  sys_readlink := fun p w => (None, w);
  sys_lstat := fun p w => (None, w);
  sys_stat := fun p w => (None, w);
  sys_readdir := fun p w => (None, w);
  sys_create := fun p w => (0, w);
  sys_chmod := fun p m w => (0, w ++ [(p, m, 0)]);
  sys_write := fun p s w => (0, w);
  sys_mkdir := fun p m w => (EEXIST, w);
  sys_rename := fun p q w => (0, w);
  sys_unlink := fun p w => (0, w)
|}.
Definition static_calls : Nodes (SY := static_system) :=
  @Build_Nodes static_system (fun p w => (None, w)) (fun t p w => (0, w)) (fun p w => (0, w))
    (fun p u g (w : list (bytes * Z * Z)) => (0, w ++ [(p, u, g)])) (fun p n w => (Datatypes.tt, w)) (fun w => (0, w)).
Definition static_stats : StaticNodes (SY := static_system) :=
  @Build_StaticNodes static_system (fun p w => (if bool_decide (p = "/dev/loop-control") then Some (mk_node_stat 0x2180 0xAED 0 0) else None, w)).
Definition quoted (s : bytes) : bytes := dquote :: s ++ [dquote].
(** A rule for an owner, and one for a static node with a group. *)
Definition static_file : bytes :=
  "KERNEL==" ++ quoted "a" ++ ", OWNER=" ++ quoted "7" ++ ", OPTIONS+=" ++ quoted "static_node=fuse" ++ [newline] ++
  "KERNEL==" ++ quoted "b" ++ ", GROUP=" ++ quoted "6" ++ ", OPTIONS+=" ++ quoted "static_node=loop-control" ++ [newline].
Definition static_rules_of : @rules Strbuf.strbuf :=
  u_rules (rules_load (fun _ => true) (fun _ => None) (fun _ => true) (fun _ => None) walk_start [(("a.rules" : bytes), Some static_file)]).
#[local] Abbreviation run := (@udev_rules_apply_static_dev_perms Strbuf.strbuf _ static_system static_calls static_stats).
Lemma static_perms_exact_witness :
  run static_rules_of [] =
    (e ← @apply_static Strbuf.strbuf _ static_system static_calls static_stats static_rules_of; mret (Finished e)) [].
Proof.
  apply (@static_perms_exact Strbuf.strbuf _ static_system static_calls static_stats (fun _ => true) (fun _ => None)
    (fun _ => true) (fun _ => None) walk_start [(("a.rules" : bytes), Some static_file)] []); [by repeat constructor|vm_compute; auto].
Defined.
(** The mode is chosen, and the owner stays. *)
Example static_run : run static_rules_of [] = (Finished 0, [(("/dev/loop-control" : bytes), 0x1B0, 0); (("/dev/loop-control" : bytes), 0, 6)]).
Proof. vm_compute. reflexivity. Qed.
End RuleStatic.
