(* ===== verification/Udevadm.v ===== *)
(** The commands of src/udevadm that act on the daemon and the kernel: trigger,
    settle and control; the others are in UdevadmInfo.  What a command prints is
    part of its result. *)

From Stdlib Require Import ZArith Lia Ascii.
From stdpp Require Import prelude gmap strings sorting.
From S2P Require Import Prelude Utils Strings Encode System UdevList Device DeviceProofs DeviceNew Enumerate Monitor BuiltinPath Udevd Util Control Getopt.
Import Str Strxcpyx Mem Entries UdevList Device DeviceNew Encode.Encode Getopt.

Definition opt (name : bytes) (arg : has_arg) (val : byte) : option_ := mk_option name arg val.
Definition line (s : bytes) : bytes := s ++ [newline].
(** A path of the command line, with /sys in front if that is missing. *)
Definition sys_path (arg : bytes) : bytes :=
  util_remove_trailing_chars
    (fst (if startswith arg "/sys" is Some _ then strscpy UTIL_PATH_SIZE arg else strscpyl UTIL_PATH_SIZE ["/sys" : bytes; arg])) "/".
(** An option changes what was chosen so far, or ends the command. *)
Fixpoint each_option {S A R : Type} (f : A -> found -> state S (A + R)) (a : A) (fs : list found) : state S (A + R) :=
  match fs with
  | [] => mret (inl a)
  | o :: fs' => r ← f a o; match r with inl a => each_option f a fs' | inr rc => mret (inr rc) end
  end.
Definition arg_of (o : found) : bytes := default [] (snd o).

(** * udevadm-trigger.c *)

Module Trigger.
Import Enumerate.

(** The static variables and the local ones of [adm_trigger]. *)
Record trigger := mk_trigger {
  verbose : bool; dry_run : bool; subsystems : bool; action : bytes; enum : udev_enumerate
}.
#[export] Instance eta_trigger : Eta trigger := fun t => mk_trigger (verbose t) (dry_run t) (subsystems t) (action t) (enum t).
Definition trigger_options : list option_ :=
  [opt "verbose" no_argument "v"; opt "dry-run" no_argument "n"; opt "type" required_argument "t"; opt "action" required_argument "c";
   opt "subsystem-match" required_argument "s"; opt "subsystem-nomatch" required_argument "S"; opt "attr-match" required_argument "a";
   opt "attr-nomatch" required_argument "A"; opt "property-match" required_argument "p"; opt "tag-match" required_argument "g";
   opt "sysname-match" required_argument "y"; opt "parent-match" required_argument "b"; opt "help" no_argument "h"].
Definition keyval (str : bytes) : bytes * option bytes := split_chr (fst (strscpy UTIL_PATH_SIZE str)) "=".

Section trigger.
Context `{SY : System} {IF : Interfaces} {G : Glob}.
Context (sys_readdir_dirs : bytes -> state world (Z + list bytes)).

(** What is printed. *)
Fixpoint exec_list (verbose dry_run : bool) (action : bytes) (names : list bytes) : state world bytes :=
  match names with
  | [] => mret []
  | name :: names' =>
      (if dry_run then mret tt
       else let filename := fst (strscpyl UTIL_PATH_SIZE [name; "/uevent" : bytes]) in sys_write filename action ;; mret tt) ;;
      out ← exec_list verbose dry_run action names';
      mret ((if verbose then line name else []) ++ out)
  end.
Definition trigger_option (t : trigger) (o : found) : state world (trigger + Z) :=
  let arg := arg_of o in
  let add en := mret (inl (t <| enum := en |>)) in
  let c := fst o in
  if c ==c "v" then mret (inl (t <| verbose := true |>))
  else if c ==c "n" then mret (inl (t <| dry_run := true |>))
  else if c ==c "t" then
    if bool_decide (arg = ("devices" : bytes)) then mret (inl (t <| subsystems := false |>))
    else if bool_decide (arg = ("subsystems" : bytes)) then mret (inl (t <| subsystems := true |>))
    else mret (inr 2)
  else if c ==c "c" then
    if bool_decide (arg ∈ ["add" : bytes; "remove" : bytes; "change" : bytes]) then mret (inl (t <| action := arg |>)) else mret (inr 2)
  else if c ==c "s" then add (udev_enumerate_add_match_subsystem (enum t) (Some arg))
  else if c ==c "S" then add (udev_enumerate_add_nomatch_subsystem (enum t) (Some arg))
  else if c ==c "a" then let '(key, val) := keyval arg in add (udev_enumerate_add_match_sysattr (enum t) (Some key) val)
  else if c ==c "A" then let '(key, val) := keyval arg in add (udev_enumerate_add_nomatch_sysattr (enum t) (Some key) val)
  else if c ==c "p" then let '(key, val) := keyval arg in add (udev_enumerate_add_match_property (enum t) (Some key) val)
  else if c ==c "g" then add (udev_enumerate_add_match_tag (enum t) (Some arg))
  else if c ==c "y" then add (udev_enumerate_add_match_sysname (enum t) (Some arg))
  else if c ==c "b" then
    dev ← udev_device_new_from_syspath (sys_path arg);
    match dev with None => mret (inr 2) | Some d => add (udev_enumerate_add_match_parent (enum t) (Some d)) end
  else if c ==c "h" then mret (inr 0)
  else mret (inr 1).
Definition names_of (en : udev_enumerate) : list bytes := e_name <$> devices_list (udev_enumerate_get_list_entry en).
Definition adm_trigger (argv : list bytes) : state world (Z * bytes) :=
  let '(fs, rest) := getopt_long "vnt:c:s:S:a:A:p:g:y:b:h" trigger_options argv in
  r ← each_option trigger_option (mk_trigger false false false "change" udev_enumerate_new) fs;
  match r, rest with
  | inr rc, _ => mret (rc, [])
  | inl t, _ :: _ => mret (1, [])
  | inl t, [] =>
      '(_, en) ← (if subsystems t then udev_enumerate_scan_subsystems (enum t) else udev_enumerate_scan_devices sys_readdir_dirs (enum t));
      out ← exec_list (verbose t) (dry_run t) (action t) (names_of en);
      mret (0, out)
  end.
End trigger.
End Trigger.

(** * udevadm-settle.c *)

Module Settle.
Import Queue.

Definition settle_options : list option_ :=
  [opt "timeout" required_argument "t"; opt "exit-if-exists" required_argument "E"; opt "help" no_argument "h"].
(** [timeout] and [exists]; the end is with EXIT_SUCCESS or EXIT_FAILURE. *)
Definition settle_option {S : Type} (t : Z * option bytes) (o : found) : state S (Z * option bytes + Z) :=
  let c := fst o in
  if c ==c "t" then mret (match Util.safe_atou (arg_of o) with inl _ => inr 1 | inr n => inl (n, snd t) end)
  else if c ==c "E" then mret (inl (fst t, Some (arg_of o)))
  else if c ==c "h" then mret (inr 0)
  else mret (inr 1).

Section settle.
Context {W : Type}.
(** Whether a file is there; the descriptor of the queue; one [poll] of a
    second, which tells whether there is something to read, and reading it. *)
Context (access : bytes -> state W bool) (queue_fd : state W Z) (poll : state W bool) (flush : state W unit).
(** The answer to the ping of root, when the control socket can be made. *)
Context (root : bool) (ctrl : bool) (send_ping : Z -> state W Z).

(** A round of the loop: whether it ends. *)
Definition settle_round (exists_ : option bytes) : state W bool :=
  found ← match exists_ with Some f => access f | None => mret false end;
  if (found : bool) then mret true
  else
    queued ← access QUEUE_PATH;
    if negb queued then mret true
    else
      readable ← poll;
      (if (readable : bool) then flush else mret tt) ;;
      mret false.
Fixpoint settle_loop (fuel : nat) (exists_ : option bytes) : state W (option Z) :=
  match fuel with
  | O => mret None
  | S fuel' => e ← settle_round exists_; if (e : bool) then mret (Some 0) else settle_loop fuel' exists_
  end.
(** [None] is still waiting. *)
Definition adm_settle (fuel : nat) (argv : list bytes) : state W (option Z) :=
  let '(fs, rest) := getopt_long "t:E:h" settle_options argv in
  r ← each_option settle_option (120, None) fs;
  match r, rest with
  | inr rc, _ => mret (Some rc)
  | inl _, _ :: _ => mret (Some 1)
  | inl (timeout, exists_), [] =>
      pong ← (if root && ctrl then send_ping timeout else mret 0);
      if pong <? 0 then mret (Some 0)
      else
        fd ← queue_fd;
        if fd <? 0 then mret (Some 0) else settle_loop fuel exists_
  end.

(** The state after [n] rounds that did not end the loop. *)
Fixpoint after_rounds (exists_ : option bytes) (n : nat) (w : W) : W :=
  match n with O => w | S n' => after_rounds exists_ n' (snd (settle_round exists_ w)) end.
(** The loop ends exactly when a round finds that the file exists or that the
    queue is empty, and then with success; nothing else ends it. *)
Lemma settle_loop_ends exists_ w :
  (forall fuel r w', settle_loop fuel exists_ w = (Some r, w') -> r = 0) /\
  ((exists fuel, fst (settle_loop fuel exists_ w) <> None) <->
   (exists n, fst (settle_round exists_ (after_rounds exists_ n w)) = true)).
Proof.
  split.
  - intros fuel. revert w. induction fuel as [|fuel IH]; intros w r w'; [done|]. cbn [settle_loop]. unfold mbind, state_bind.
    destruct (settle_round exists_ w) as [[|] w1]; [by intros [= <- _]|]. apply IH.
  - split.
    + intros [fuel Hf]. revert w Hf. induction fuel as [|fuel IH]; intros w Hf; [done|]. cbn [settle_loop] in Hf. unfold mbind, state_bind in Hf.
      destruct (settle_round exists_ w) as [e w1] eqn:E. destruct e; [exists 0%nat; simpl; by rewrite E|].
      destruct (IH w1 Hf) as [n Hn]. exists (S n). simpl. by rewrite E.
    + intros [n Hn]. exists (S n). revert w Hn. induction n as [|n IH]; intros w Hn.
      * cbn [settle_loop]. unfold mbind, state_bind. simpl in Hn. by destruct (settle_round exists_ w) as [e w1]; simpl in Hn; subst e.
      * cbn [settle_loop]. unfold mbind, state_bind. simpl in Hn. destruct (settle_round exists_ w) as [e w1] eqn:E; simpl in Hn.
        destruct e; [done|]. by apply IH.
Qed.
End settle.
(** With an event that stays in the queue it waits for ever, whatever the time
    given is. *)
Lemma timeout_waits_on n fuel : fst (adm_settle (fun _ => mret true) (mret 3) (mret false) (mret tt) false false (fun _ => mret 0) fuel ["-t" : bytes; n] tt) =
  match Util.safe_atou n with inl _ => Some 1 | inr _ => None end.
Proof.
  unfold adm_settle. destruct n as [|c n].
  - cbn. reflexivity.
  - cbn -[Util.safe_atou]. destruct (Util.safe_atou _); [done|]. unfold state_bind, mret, state_ret. cbn.
    induction fuel as [|fuel IH]; [done|]. cbn [settle_loop]. done.
Qed.
End Settle.

(** * udevadm-control.c *)

Module ControlCmd.
Import Ctrl Scan.

Definition control_options : list option_ :=
  [opt "exit" no_argument "e"; opt "log-priority" required_argument "l"; opt "stop-exec-queue" no_argument "s";
   opt "start-exec-queue" no_argument "S"; opt "reload" no_argument "R"; opt "reload-rules" no_argument "R";
   opt "property" required_argument "p"; opt "env" required_argument "p"; opt "children-max" required_argument "m";
   opt "timeout" required_argument "t"; opt "help" no_argument "h"].

Section control.
Context (VERSION : bytes).
(** What [connect], [send] and [poll] do for the command of a number and the
    time it waits. *)
Context (socket : nat -> Z -> option Z * option Z * list poll_result).

(** The variables [timeout] and [rc], whether the socket is connected, and the
    messages so far. *)
Record control := mk_control { timeout : Z; rc : Z; connected : bool; commands : nat; sent : list bytes }.
Definition control_start : control := mk_control 60 1 false 0 [].
(** [None] waits for ever. *)
Definition send_command (c : command) (s : control) : option control :=
  let '(conn, snt, polls) := socket (commands s) (timeout s) in
  let '(r, up, msg) := udev_ctrl_send VERSION c (connected s) conn snt polls in
  r ← r;
  Some (mk_control (timeout s) (if r <? 0 then 2 else 0) up (S (commands s)) (sent s ++ match msg with Some m => [m] | None => [] end)).
(** [inr] returns. *)
Definition control_option (s : control) (o : found) : option (control + control) :=
  let arg := arg_of o in
  let go c := s ← send_command c s; Some (inl s) in
  let c := fst o in
  if c ==c "e" then go Exit
  else if c ==c "l" then let i := util_log_priority arg in if i <? 0 then Some (inr s) else go (Set_log_level (util_log_priority arg))
  else if c ==c "s" then go Stop_exec_queue
  else if c ==c "S" then go Start_exec_queue
  else if c ==c "R" then go Reload
  else if c ==c "p" then match strchr arg "=" with None => Some (inr s) | Some _ => go (Set_env arg) end
  else if c ==c "m" then
    let '(v, endp) := strtoul_prefix 0 arg in
    let i := s32 v in
    if negb (bool_decide (endp = [])) || (i <? 1) then Some (inr s) else go (Set_children_max i)
  else if c ==c "t" then
    let seconds := atoi arg in
    Some (inl (if 0 <=? seconds then mk_control seconds (rc s) (connected s) (commands s) (sent s) else s))
  else if c ==c "h" then Some (inl (mk_control (timeout s) 0 (connected s) (commands s) (sent s)))
  else Some (inl s).
Fixpoint control_option_loop (s : control) (fs : list found) : option control :=
  match fs with
  | [] => Some s
  | o :: fs' => r ← control_option s o; match r with inl s => control_option_loop s fs' | inr s => Some s end
  end.
(** The exit status and the messages that were sent. *)
Definition adm_control (root ctrl : bool) (argv : list bytes) : option (Z * list bytes) :=
  if negb root then Some (1, [])
  else if negb ctrl then Some (2, [])
  else
    s ← control_option_loop control_start (fst (getopt_long "el:sSRp:m:h" control_options argv));
    Some (rc s, sent s).

(** ** The arguments of a command *)

Definition args_of (c : command) : list bytes :=
  match c with
  | Set_log_level i => ["-l" : bytes; fmt 10 i]
  | Stop_exec_queue => ["-s" : bytes]
  | Start_exec_queue => ["-S" : bytes]
  | Reload => ["-R" : bytes]
  | Set_env key => ["-p" : bytes; key]
  | Set_children_max n => ["-m" : bytes; fmt 10 n]
  | Ping => []
  | Exit => ["-e" : bytes]
  end.
(** The commands that can be given, and their messages. *)
Definition can_be_given (c : command) : Prop :=
  match c with
  | Set_log_level i => 0 <= i < 2 ^ 31
  | Set_children_max n => 1 <= n < 2 ^ 31
  | Set_env key => cstr key /\ "="%char ∈ key
  | Ping => False
  | _ => True
  end.
Definition message (c : command) : bytes := let '(t, i, b) := send_args c in wire_bytes (ctrl_msg_wire VERSION t i b).

(** A number without a leading zero is read as it was printed. *)
Lemma strtoul_prefix_fmt n : 1 <= n < 2 ^ 64 -> strtoul_prefix 0 (fmt 10 n) = (n, []).
Proof using.
  intros Hn. pose proof (strto_digits_fmt 10 n [] ltac:(lia) ltac:(lia) ltac:(done)) as Hd. rewrite app_nil_r in Hd.
  destruct (fmt_head 10 n) as (c & rest & E & H0); [lia|lia|]. rewrite E in *.
  assert (isspace c = false /\ (c ==c "-") = false /\ (c ==c "+") = false) as (H1 & H2 & H3).
  { pose proof (fmt_Forall (fun c => isspace c = false /\ (c ==c "-") = false /\ (c ==c "+") = false) 10 n ltac:(lia)) as Hf. rewrite E in Hf.
    refine (Forall_inv (Hf _)). intros d Hdr.
    pose proof (digit_check (fun c => negb (isspace c) && negb (c ==c "-") && negb (c ==c "+")) eq_refl d Hdr) as Hc.
    simpl in Hc. by destruct (isspace _), (_ ==c "-"), (_ ==c "+"). }
  assert ((c ==c "0") = false) as H4 by (by apply Ascii.eqb_neq).
  unfold strtoul_prefix, strto_prefix. cbn [skip_space]. rewrite H1, H2, H3, H4. cbv zeta. change (0 =? 0) with true. cbv iota.
  rewrite Hd. rewrite (proj2 (Nat.eqb_neq _ _)) by done. by rewrite (proj2 (Z.leb_gt _ _)) by lia.
Qed.
Lemma util_log_priority_fmt i : 0 <= i < 2 ^ 31 -> util_log_priority (fmt 10 i) = i.
Proof using.
  intros Hi. unfold util_log_priority, strtol. rewrite <- (app_nil_r (fmt 10 i)), strto_fmt by (try done; lia). cbn.
  rewrite Z.min_l by lia. unfold swrap. rewrite Z.mod_small by lia. lia.
Qed.
Lemma strchr_in c s : c ∈ s -> strchr s c <> None.
Proof using.
  induction s as [|x s IH]; intros H; [by apply not_elem_of_nil in H|]. simpl. destruct (eqbP x c) as [->|Hn]; [done|].
  apply IH. by apply elem_of_cons in H as [->|H].
Qed.

Lemma send_message c s polls :
  socket (commands s) (timeout s) = (None, None, polls) -> poll_loop polls = Some 0 ->
  send_command c s = Some (mk_control (timeout s) 0 true (S (commands s)) (sent s ++ [message c])).
Proof.
  intros Hs Hp. unfold send_command, udev_ctrl_send, ctrl_send, message. rewrite Hs. destruct (send_args c) as [[t i] b].
  destruct (connected s); rewrite Hp; done.
Qed.
(** The option of a command, as getopt finds it. *)
Definition option_of (c : command) : found :=
  match args_of c with
  | [o; a] => (nth 1 o nul, Some a)
  | [o] => (nth 1 o nul, None)
  | _ => ("?"%char, None)
  end.
Lemma getopt_commands cs : Forall can_be_given cs -> getopt_long "el:sSRp:m:h" control_options (cs ≫= args_of) = (option_of <$> cs, []).
Proof using.
  induction 1 as [|c cs Hc _ IH]; [done|]. rewrite bind_cons, fmap_cons.
  destruct c; try done; cbn [args_of app]; 
    match goal with |- getopt_long _ _ (?o :: _) = _ =>
      let c := eval vm_compute in (nth 1 o nul) in first [rewrite (getopt_flag _ _ c) by done|rewrite (getopt_arg _ _ c) by done]
    end; by rewrite IH.
Qed.
Lemma control_option_command c s polls :
  can_be_given c -> socket (commands s) (timeout s) = (None, None, polls) -> poll_loop polls = Some 0 ->
  control_option s (option_of c) = Some (inl (mk_control (timeout s) 0 true (S (commands s)) (sent s ++ [message c]))).
Proof.
  intros Hc Hs Hp. unfold control_option. destruct c; try done; cbn -[send_command message strtoul_prefix util_log_priority strchr fmt].
  - rewrite util_log_priority_fmt by done. rewrite (proj2 (Z.ltb_ge _ _)) by (simpl in Hc; lia). by erewrite send_message.
  - by erewrite send_message.
  - by erewrite send_message.
  - by erewrite send_message.
  - destruct Hc as [_ Hin]. destruct (strchr key "=") eqn:E; [|by destruct (strchr_in _ _ Hin)]. by erewrite send_message.
  - assert (s32 count = count) as Hw by (simpl in Hc; unfold swrap; rewrite Z.mod_small by lia; lia).
    rewrite strtoul_prefix_fmt by (simpl in Hc; lia). rewrite bool_decide_true by done. cbn [negb orb]. rewrite Hw.
    rewrite (proj2 (Z.ltb_ge _ _)) by (simpl in Hc; lia). by erewrite send_message.
  - by erewrite send_message.
Qed.

(** The messages, one after the other, in the daemon. *)
Definition deliver (s : option server) (m : bytes) : option server := s ← s; handle_msg (wire_of m) s.

(** C6: from the command line to the daemon: for every sequence of commands
    given to udevadm control, each is found again by getopt and its parser, the
    messages are sent in this order, the exit status is 0 when all were
    answered, and the daemon that gets these messages does exactly what the
    commands say, one after the other. *)
Theorem control_round_trip cs s :
  Forall can_be_given cs -> (forall n t, exists polls, socket n t = (None, None, polls) /\ poll_loop polls = Some 0) -> cs <> [] ->
  exists ms, adm_control true true (cs ≫= args_of) = Some (0, ms) /\ length ms = length cs /\
    foldl deliver (Some s) ms = Some (foldl (fun s c => command_effect c s) s cs).
Proof.
  intros Hc Hs Hne. exists (message <$> cs). unfold adm_control. rewrite getopt_commands by done. cbn [negb fst]. split; [|split].
  - assert (forall st, control_option_loop st (option_of <$> cs) =
      Some (mk_control (timeout st) (match cs with [] => rc st | _ => 0 end) (match cs with [] => connected st | _ => true end)
              (commands st + length cs) (sent st ++ (message <$> cs)))) as H.
    { clear Hne. induction Hc as [|c cs Hc _ IH]; intros st.
      - simpl. rewrite Nat.add_0_r, app_nil_r. by destruct st.
      - rewrite !fmap_cons. cbn [control_option_loop]. destruct (Hs (commands st) (timeout st)) as (polls & H1 & H2).
        rewrite (control_option_command c st polls) by done. cbn [mbind option_bind]. rewrite IH. simpl.
        rewrite <- app_assoc, Nat.add_succ_r. by destruct cs. }
    rewrite H. simpl. by destruct cs.
  - apply length_fmap.
  - clear Hne Hs. revert s. induction Hc as [|c cs Hc _ IH]; intros s; [done|]. rewrite fmap_cons. cbn [foldl]. unfold deliver at 2.
    cbn [mbind option_bind]. assert (command_ok c) as Hok.
    { destruct c; simpl in *; unfold int_ok; try done; try lia. by destruct Hc. }
    pose proof (handle_command VERSION c s Hok) as Hh. unfold message. destruct (send_args c) as [[t i] b]. destruct Hh as [-> _]. apply IH.
Qed.
End control.
Lemma control_round_trip_witness :
  let s := mk_server (Udevd.mk_daemon [] [] 0 8 false false false 0 []) (Context.mk_udev [] 6) 6 in
  let cs := [Set_children_max 12; Set_env "A=b"; Stop_exec_queue] in
  cs ≫= args_of = ["-m" : bytes; "12" : bytes; "-p" : bytes; "A=b" : bytes; "-s" : bytes] /\
  exists ms, adm_control "214.4" (fun _ _ => (None, None, [Poll_ready false])) true true (cs ≫= args_of) = Some (0, ms) /\
    foldl deliver (Some s) ms = Some (foldl (fun s c => command_effect c s) s cs).
Proof.
  intros s cs. split; [by vm_compute|].
  destruct (control_round_trip "214.4" (fun _ _ => (None, None, [Poll_ready false])) cs s) as (ms & H1 & _ & H2).
  - repeat constructor; try done.
  - intros _ _. by exists [Poll_ready false].
  - done.
  - exists ms. split; [exact H1|exact H2].
Defined.
(** The option that sets the time has no short name, and a command behind it
    waits that long. *)
Example timeout_used : adm_control "214.4" (fun _ t => (None, None, [if t =? 3 then Poll_timeout else Poll_ready false])) true true
  ["--timeout=3" : bytes; "--reload" : bytes] = Some (2, [message "214.4" Reload]).
Proof. by vm_compute. Qed.
End ControlCmd.
