(* ===== verification/UdevadmInfo.v ===== *)
(** The commands of src/udevadm that show something: info, monitor, test and
    test-builtin; and the choice of the command in udevadm.c. *)

From Stdlib Require Import ZArith Lia Ascii.
From stdpp Require Import prelude gmap strings sorting.
From S2P Require Import Prelude Utils Strings Encode Strbuf RuleTokens RuleParse System UdevList Device DeviceProofs DeviceNew Event Enumerate Node EventRun Monitor RuleStatic Getopt Udevadm.
Import Str Strxcpyx Mem Entries UdevList Device DeviceNew Event Encode.Encode Getopt.
#[local] Abbreviation tt := Datatypes.tt.

(** A string of [printf], which may be NULL. *)
Definition shown (s : option bytes) : bytes := default ("(null)" : bytes) s.
Definition in_quotes (s : bytes) : bytes := ParseValue.dquote :: s ++ [ParseValue.dquote].
(** A link or node without the name of its directory. *)
Definition behind_dev (s : bytes) : bytes := drop 5 s.
Definition property_line (e : entry) : bytes := e_name e ++ "="%char :: shown (e_value e).

(** * udevadm-info.c *)

Module Info.
Import Node RuleStatic.

(** The device that holds a file, and the names in a directory that are links
    or regular files by their [d_type]. *)
Class Files `{SY : System} := {
  sys_stat_dev : bytes -> state world (option Z);
  sys_readdir_files : bytes -> state world (option (list bytes))
}.

Definition skip_names : list bytes :=
  ["uevent" : bytes; "dev" : bytes; "modalias" : bytes; "resource" : bytes; "driver" : bytes; "subsystem" : bytes; "module" : bytes].
Definition skip_attribute (name : bytes) : bool := existsb (fun s => str_eq (Some name) (Some s)) skip_names.
Definition isprint (c : byte) : bool := (32 <=? code c) && (code c <=? 126).
Definition printable (s : bytes) : bool := forallb isprint s.

Section info.
Context `{SY : System} {NO : Nodes} {SN : StaticNodes} {FI : Files} {IF : Interfaces} {G : Glob}.
Context (sys_readdir_dirs : bytes -> state world (Z + list bytes)).

(** lib/device/libudev-device.c: the list is read once for a device. *)
Fixpoint sysattr_names (syspath : bytes) (names : list bytes) : state world (list bytes) :=
  match names with
  | [] => mret []
  | name :: names' =>
      let path := fst (strscpyl UTIL_PATH_SIZE [syspath; "/" : bytes; name]) in
      st ← sys_lstat path;
      rest ← sysattr_names syspath names';
      mret (match st with Some mode => if Z.land mode S_IRUSR =? 0 then rest else name :: rest | None => rest end)
  end.
Definition udev_device_sysattr_list_read (syspath : bytes) : state world (option (list bytes)) :=
  dir ← sys_readdir_files syspath;
  match dir with
  | None => mret None
  | Some names => l ← sysattr_names syspath names; mret (Some l)
  end.
Definition udev_device_get_sysattr_list_entry : D (list bytes) :=
  d ← field (fun d => d);
  l ← sys (udev_device_sysattr_list_read (syspath d));
  mret (default [] l).

Definition attribute_line (key name value : bytes) : bytes :=
  line (("    " : bytes) ++ key ++ "{" ++ name ++ "}==" ++ in_quotes value).
Fixpoint attribute_lines (key : bytes) (names : list bytes) : D bytes :=
  match names with
  | [] => mret []
  | name :: names' =>
      text ← (if skip_attribute name then mret []
              else
                value ← udev_device_get_sysattr_value name;
                mret (match value with
                      | None => []
                      | Some v => if (nth 0 v nul ==c "/") || negb (printable v) then [] else attribute_line key name v
                      end));
      rest ← attribute_lines key names';
      mret (text ++ rest)
  end.
Definition print_all_attributes (key : bytes) : D bytes :=
  names ← udev_device_get_sysattr_list_entry;
  text ← attribute_lines key names;
  mret (text ++ line []).
(** A device of the chain; [plural] is S for a parent. *)
Definition print_device_keys (looking plural : bytes) : D bytes :=
  d ← field (fun d => d);
  subsystem ← udev_device_get_subsystem udev_device_get_properties_list_entry;
  driver ← udev_device_get_driver;
  attributes ← print_all_attributes (("ATTR" : bytes) ++ plural);
  mret (line (("  looking at " : bytes) ++ looking ++ " '" ++ shown (devpath d) ++ "':")
        ++ line (("    KERNEL" : bytes) ++ plural ++ "==" ++ in_quotes (shown (d_sysname d)))
        ++ line (("    SUBSYSTEM" : bytes) ++ plural ++ "==" ++ in_quotes (default [] subsystem))
        ++ line (("    DRIVER" : bytes) ++ plural ++ "==" ++ in_quotes (default [] driver))
        ++ attributes).
Definition chain_header : bytes :=
  line [] ++ line "Udevadm info starts with the device specified by the devpath and then"
  ++ line "walks up the chain of parent devices. It prints for every device"
  ++ line "found, all possible attributes in the udev rules key format."
  ++ line "A rule to match, can be composed by the attributes of the device"
  ++ line "and the attributes from one single parent device." ++ line [].
(** The parents; each is looked for once.  [fuel] bounds their number. *)
Fixpoint parent_chain (fuel : nat) (d : udev_device) : state world (option bytes) :=
  match fuel with
  | O => mret None
  | S fuel' =>
      parent ← device_new_from_parent d;
      match parent with
      | None => mret (Some [])
      | Some p =>
          '(text, p) ← run_device p (print_device_keys "parent device" "S");
          rest ← parent_chain fuel' p;
          mret ((fun r => text ++ r) <$> rest)
      end
  end.
Definition print_device_chain (fuel : nat) (d : udev_device) : state world (option bytes) :=
  '(text, d) ← run_device d (print_device_keys "device" []);
  rest ← parent_chain fuel d;
  mret ((fun r => chain_header ++ text ++ r) <$> rest).

Definition print_record : D bytes :=
  d ← field (fun d => d);
  node ← udev_device_get_devnode;
  priority ← udev_device_get_devlink_priority;
  links ← udev_device_get_devlinks_list_entry;
  properties ← udev_device_get_properties_list_entry;
  mret (line (("P: " : bytes) ++ shown (devpath d))
        ++ (match node with Some n => line (("N: " : bytes) ++ behind_dev n) | None => [] end)
        ++ (if priority =? 0 then [] else line (("L: " : bytes) ++ fmt_i priority))
        ++ (links ≫= fun e => line (("S: " : bytes) ++ behind_dev (e_name e)))
        ++ (properties ≫= fun e => line (("E: " : bytes) ++ property_line e))
        ++ line []).
(** The exit code and the text. *)
Definition stat_device (name : bytes) (export : bool) (prefix : option bytes) : state world (Z * bytes) :=
  dev ← sys_stat_dev name;
  mret (match dev with
        | None => (-1, [])
        | Some dev =>
            let maj := fmt_i (s32 (major dev)) in
            let min := fmt_i (s32 (minor dev)) in
            let prefix := default ("INFO_" : bytes) prefix in
            (0, if export then line (prefix ++ "MAJOR=" ++ maj) ++ line (prefix ++ "MINOR=" ++ min)
                else line (maj ++ ":"%char :: min))
        end).
Fixpoint export_list (names : list bytes) : state world bytes :=
  match names with
  | [] => mret []
  | name :: names' =>
      dev ← udev_device_new_from_syspath name;
      text ← match dev with
             | None => mret []
             | Some d => '(text, _) ← run_device d print_record; mret text
             end;
      rest ← export_list names';
      mret (text ++ rest)
  end.
Definition export_devices : state world bytes :=
  '(_, en) ← Enumerate.udev_enumerate_scan_devices sys_readdir_dirs Enumerate.udev_enumerate_new;
  export_list (Trigger.names_of en).

(** ** Cleaning up *)

(** A directory is read when it can be opened. *)
Definition on_names (f : list bytes -> state world unit) (names : option (list bytes)) : state world unit :=
  match names with Some names => f names | None => mret tt end.
(** [names] are the entries of the open directory [dir]. *)
Fixpoint cleanup_dir (depth : nat) (mask : Z) (dir : bytes) (names : list bytes) : state world unit :=
  match depth with
  | O => mret tt
  | S depth' =>
      for_each names (fun name =>
        let path := dir ++ "/"%char :: name in
        if nth 0 name nul ==c "." then mret tt
        else
          st ← sys_lstat path;
          match st with
          | None => mret tt
          | Some mode =>
              if negb (Z.land mode mask =? 0) then mret tt
              else if S_ISDIR mode then
                dir2 ← sys_readdir path;
                on_names (cleanup_dir depth' mask path) dir2 ;;
                sys_rmdir path ;; mret tt
              else sys_unlink path ;; mret tt
          end)
  end.
Definition S_ISVTX : Z := 0x200.
Definition cleanup_at (depth : nat) (mask : Z) (dir : bytes) : state world unit :=
  names ← sys_readdir dir;
  on_names (cleanup_dir depth mask dir) names.
Definition cleanup_db : state world unit :=
  sys_unlink (UDEVRUNDIR ++ "/queue.bin") ;;
  cleanup_at 1 S_ISVTX (UDEVRUNDIR ++ "/data") ;;
  cleanup_at 2 0 (UDEVRUNDIR ++ "/links") ;;
  cleanup_at 2 0 (UDEVRUNDIR ++ "/tags") ;;
  cleanup_at 2 0 (UDEVRUNDIR ++ "/static_node-tags") ;;
  cleanup_at 1 0 (UDEVRUNDIR ++ "/watch").

(** ** The command *)

Definition find_device (id : bytes) (prefix : option bytes) : state world (option udev_device) :=
  let id :=
    match prefix with
    | Some p => if startswith id p is Some _ then id else fst (strscpyl UTIL_PATH_SIZE [p; id])
    | None => id
    end in
  if startswith id "/dev/" is Some _ then
    st ← sys_stat_node id;
    match st with
    | None => mret None
    | Some st =>
        if S_ISBLK (ns_mode st) then udev_device_new_from_devnum "b" (ns_rdev st)
        else if S_ISCHR (ns_mode st) then udev_device_new_from_devnum "c" (ns_rdev st)
        else mret None
    end
  else if startswith id "/sys/" is Some _ then udev_device_new_from_syspath id
  else mret None.
Inductive action_type := ACTION_QUERY | ACTION_ATTRIBUTE_WALK | ACTION_DEVICE_ID_FILE.
Inductive query_type := QUERY_NAME | QUERY_PATH | QUERY_SYMLINK | QUERY_PROPERTY | QUERY_ALL.
(** The variables of [uinfo]. *)
Record info := mk_info {
  device : option udev_device; root : bool; export : bool; export_prefix : option bytes;
  name : bytes; action : action_type; query : query_type
}.
#[export] Instance eta_info : Eta info := fun i =>
  mk_info (device i) (root i) (export i) (export_prefix i) (name i) (action i) (query i).
Definition info_options : list option_ :=
  [opt "name" required_argument "n"; opt "path" required_argument "p"; opt "query" required_argument "q";
   opt "attribute-walk" no_argument "a"; opt "cleanup-db" no_argument "c"; opt "export-db" no_argument "e"; opt "root" no_argument "r";
   opt "device-id-of-file" required_argument "d"; opt "export" no_argument "x"; opt "export-prefix" required_argument "P";
   opt "version" no_argument "V"; opt "help" no_argument "h"].
(** The version and the text of the help. *)
Context (VERSION usage : bytes).
Definition query_of (arg : bytes) : option query_type :=
  if bool_decide (arg = ("property" : bytes)) || bool_decide (arg = ("env" : bytes)) then Some QUERY_PROPERTY
  else if bool_decide (arg = ("name" : bytes)) then Some QUERY_NAME
  else if bool_decide (arg = ("symlink" : bytes)) then Some QUERY_SYMLINK
  else if bool_decide (arg = ("path" : bytes)) then Some QUERY_PATH
  else if bool_decide (arg = ("all" : bytes)) then Some QUERY_ALL
  else None.
Definition set_device (i : info) (arg prefix : bytes) : state world (info + (Z * bytes)) :=
  match device i with
  | Some _ => mret (inr (2, []))
  | None =>
      dev ← find_device arg (Some prefix);
      mret (match dev with None => inr (2, []) | Some d => inl (i <| device := Some d |>) end)
  end.
(** [inr] returns with an exit code and the text of the standard output. *)
Definition info_option (i : info) (o : found) : state world (info + (Z * bytes)) :=
  let arg := arg_of o in
  let c := fst o in
  if c ==c "n" then set_device i arg "/dev/"
  else if c ==c "p" then set_device i arg "/sys"
  else if c ==c "q" then
    mret (match query_of arg with Some q => inl (i <| action := ACTION_QUERY |> <| query := q |>) | None => inr (3, []) end)
  else if c ==c "r" then mret (inl (i <| root := true |>))
  else if c ==c "d" then mret (inl (i <| action := ACTION_DEVICE_ID_FILE |> <| name := fst (strscpy UTIL_PATH_SIZE arg) |>))
  else if c ==c "a" then mret (inl (i <| action := ACTION_ATTRIBUTE_WALK |>))
  else if c ==c "e" then text ← export_devices; mret (inr (0, text))
  else if c ==c "c" then cleanup_db ;; mret (inr (0, []))
  else if c ==c "x" then mret (inl (i <| export := true |>))
  else if c ==c "P" then mret (inl (i <| export_prefix := Some arg |>))
  else if c ==c "V" then mret (inr (0, line VERSION))
  else if c ==c "h" then mret (inr (0, line usage))
  else mret (inr (1, [])).
Definition join_space (l : list bytes) : bytes :=
  match l with [] => [] | s :: l' => s ++ (l' ≫= fun s => " "%char :: s) end.
Definition export_line (prefix : option bytes) (e : entry) : bytes :=
  line (default [] prefix ++ e_name e ++ "='" ++ shown (e_value e) ++ "'").
Definition run_query (i : info) : D (Z * bytes) :=
  let cut s := if root i then s else behind_dev s in
  match query i with
  | QUERY_NAME =>
      node ← udev_device_get_devnode;
      mret (match node with None => (5, []) | Some n => (0, line (cut n)) end)
  | QUERY_SYMLINK =>
      links ← udev_device_get_devlinks_list_entry;
      mret (0, line (join_space (cut ∘ e_name <$> links)))
  | QUERY_PATH => d ← field (fun d => d); mret (0, line (shown (devpath d)))
  | QUERY_PROPERTY =>
      es ← udev_device_get_properties_list_entry;
      mret (0, es ≫= fun e => if export i then export_line (export_prefix i) e else line (property_line e))
  | QUERY_ALL => text ← print_record; mret (0, text)
  end.
(** The device given, or the one of the first argument. *)
Definition device_or_arg (i : info) (rest : list bytes) : state world (option udev_device) :=
  match device i, rest with
  | Some d, _ => mret (Some d)
  | None, [] => mret None
  | None, arg :: _ => find_device arg None
  end.
(** [None] runs out of parents. *)
Definition uinfo (fuel : nat) (argv : list bytes) : state world (option (Z * bytes)) :=
  let '(fs, rest) := getopt_long "aced:n:p:q:rxP:Vh" info_options argv in
  r ← each_option info_option (mk_info None false false None [] ACTION_QUERY QUERY_ALL) fs;
  match r with
  | inr res => mret (Some res)
  | inl i =>
      match action i with
      | ACTION_QUERY =>
          dev ← device_or_arg i rest;
          match dev with
          | None => mret (Some (if bool_decide (rest = []) then 2 else 4, []))
          | Some d => '(res, _) ← run_device d (run_query i); mret (Some res)
          end
      | ACTION_ATTRIBUTE_WALK =>
          dev ← device_or_arg i rest;
          match dev with
          | None => mret (Some (4, []))
          | Some d => text ← print_device_chain fuel d; mret ((fun t => (0, t)) <$> text)
          end
      | ACTION_DEVICE_ID_FILE =>
          '(e, text) ← stat_device (name i) (export i) (export_prefix i);
          mret (Some (if e =? 0 then 0 else 1, text))
      end
  end.

(** ** What is cleaned up *)

Context (mode_of : world -> bytes -> option Z).
(** The calls as far as the modes of files tell: nothing is created, a file
    that is no directory is removed by [unlink] of its name only. *)
Class ModeLaws : Prop := {
  law_lstat : forall p w, sys_lstat p w = (mode_of w p, w);
  law_readdir : forall d w, snd (sys_readdir d w) = w;
  law_unlink : forall p w q, mode_of (snd (sys_unlink p w)) q =
    if bool_decide (q = p) && match mode_of w q with Some m => negb (S_ISDIR m) | None => false end then None else mode_of w q;
  law_rmdir : forall p w q m, mode_of w q = m -> (forall m', m = Some m' -> S_ISDIR m' = false) -> mode_of (snd (sys_rmdir p w)) q = m
}.
Context {ML : ModeLaws}.
Implicit Types w : world.

(** A property of a state that holds behind every call that can be made. *)
Lemma for_each_keeps {S A} (I : S -> Prop) (l : list A) (f : A -> state S unit) s :
  (forall x s, x ∈ l -> I s -> I (snd (f x s))) -> I s -> I (snd (for_each l f s)).
Proof using.
  revert s. induction l as [|x l IH]; intros s Hf Hs; [done|]. cbn [for_each]. unfold mbind, state_bind.
  pose proof (Hf x s ltac:(by left) Hs) as Hx. destruct (f x s) as [? s']. apply IH; [|done]. intros y s'' Hy. apply Hf. by right.
Qed.
Lemma cleanup_dir_keeps (I : world -> Prop) mask depth dir names w :
  (forall p w m, (dir ++ ["/"%char]) `prefix_of` p -> I w -> mode_of w p = Some m -> Z.land m mask = 0 -> S_ISDIR m = false -> I (snd (sys_unlink p w))) ->
  (forall p w, I w -> I (snd (sys_rmdir p w))) -> I w -> I (snd (cleanup_dir depth mask dir names w)).
Proof.
  revert dir names w. induction depth as [|depth IH]; intros dir names w Hu Hd Hw; [done|]. cbn [cleanup_dir].
  apply for_each_keeps; [|done]. clear w Hw. intros name w _ Hw. cbv zeta. destruct (nth 0 name nul ==c "."); [done|].
  assert ((dir ++ ["/"%char]) `prefix_of` dir ++ "/"%char :: name) as Hp by (exists name; by rewrite <- app_assoc).
  unfold mbind, state_bind. rewrite law_lstat. destruct (mode_of w (dir ++ "/"%char :: name)) as [mode|] eqn:Em; [|done].
  destruct (Z.eqb_spec (Z.land mode mask) 0) as [Hm|]; [|done]. cbn [negb]. destruct (S_ISDIR mode) eqn:Ed.
  - pose proof (law_readdir (dir ++ "/"%char :: name) w) as Hr. destruct (sys_readdir _ w) as [dir2 w']. cbn [snd] in Hr. subst w'.
    assert (I (snd (on_names (cleanup_dir depth mask (dir ++ "/"%char :: name)) dir2 w))) as H2.
    { destruct dir2 as [names2|]; [|done]. apply IH; [|done..]. intros p v m Hpp. apply Hu. etrans; [exact Hp|].
      etrans; [|exact Hpp]. by exists ["/"%char]. }
    destruct (on_names _ dir2 w) as [? w2]. cbn [snd] in H2.
    pose proof (Hd (dir ++ "/"%char :: name) w2 H2) as H3. by destruct (sys_rmdir _ w2).
  - pose proof (Hu _ w mode Hp Hw Em Hm Ed) as H3. by destruct (sys_unlink _ w).
Qed.

Section file.
Context (q : bytes) (m : Z) (Hfile : S_ISDIR m = false).
Lemma rmdir_some p w : mode_of w q = Some m -> mode_of (snd (sys_rmdir p w)) q = Some m.
Proof using Hfile ML. intros H. apply law_rmdir; [done|]. by intros m' [= <-]. Qed.
Lemma rmdir_none p w : mode_of w q = None -> mode_of (snd (sys_rmdir p w)) q = None.
Proof using Hfile ML. intros H. by apply law_rmdir. Qed.
Lemma unlink_other p w : p <> q -> mode_of (snd (sys_unlink p w)) q = mode_of w q.
Proof using ML. intros H. rewrite law_unlink, bool_decide_false by congruence. done. Qed.
Lemma unlink_it w : mode_of w q = Some m -> mode_of (snd (sys_unlink q w)) q = None.
Proof using Hfile ML. intros H. by rewrite law_unlink, bool_decide_true, H, Hfile by done. Qed.
Lemma unlink_none p w : mode_of w q = None -> mode_of (snd (sys_unlink p w)) q = None.
Proof using ML. intros H. rewrite law_unlink, H. by rewrite andb_false_r. Qed.

(** A file with the bit of the mask, and one that is not below the directory. *)
Lemma cleanup_dir_marked mask depth dir names w :
  Z.land m mask <> 0 -> mode_of w q = Some m -> mode_of (snd (cleanup_dir depth mask dir names w)) q = Some m.
Proof using Hfile ML.
  intros Hm. apply (cleanup_dir_keeps (fun w => mode_of w q = Some m)); [|by intros; apply rmdir_some].
  intros p v m' _ Hv Hp Hm' _. rewrite unlink_other; [done|]. intros ->. rewrite Hv in Hp. injection Hp as <-. done.
Qed.
Lemma cleanup_dir_elsewhere mask depth dir names w :
  ~ (dir ++ ["/"%char]) `prefix_of` q ->
  (mode_of w q = Some m -> mode_of (snd (cleanup_dir depth mask dir names w)) q = Some m) /\
  (mode_of w q = None -> mode_of (snd (cleanup_dir depth mask dir names w)) q = None).
Proof using Hfile ML.
  intros Hq. split.
  - apply (cleanup_dir_keeps (fun w => mode_of w q = Some m)); [|by intros; apply rmdir_some].
    intros p v m' Hp Hv _ _ _. rewrite unlink_other; [done|]. by intros ->.
  - apply (cleanup_dir_keeps (fun w => mode_of w q = None)); [|by intros; apply rmdir_none].
    intros p v m' _ Hv _ _ _. by apply unlink_none.
Qed.
(** A file without the bit is removed by its name. *)
Lemma cleanup_dir_removed mask depth dir names n w :
  q = dir ++ "/"%char :: n -> nth 0 n nul <> "."%char -> n ∈ names -> Z.land m mask = 0 ->
  mode_of w q = Some m -> mode_of (snd (cleanup_dir (S depth) mask dir names w)) q = None.
Proof using Hfile ML.
  intros Hq Hdot Hn Hm Hw. assert (mode_of w q = Some m \/ mode_of w q = None) as Ho by (by left). clear Hw. cbn [cleanup_dir].
  set (f := fun name : bytes => _). revert w Ho. induction names as [|x names IH]; intros w Ho; [by apply not_elem_of_nil in Hn|].
  assert (forall x w, mode_of w q = Some m \/ mode_of w q = None -> mode_of (snd (f x w)) q = Some m \/ mode_of (snd (f x w)) q = None) as Hf.
  { intros y v Hv. pose proof (cleanup_dir_keeps (fun w => mode_of w q = Some m \/ mode_of w q = None) mask (S depth) dir [y] v) as Hk.
    assert (snd (cleanup_dir (S depth) mask dir [y] v) = snd (f y v)) as <-.
    { change (cleanup_dir (S depth) mask dir [y] v) with (for_each [y] f v). cbn [for_each]. unfold mbind, state_bind. by destruct (f y v) as [[] ?]. }
    apply Hk; [|by intros p u [Hu|Hu]; [left; apply rmdir_some|right; apply rmdir_none]|done].
    intros p u m' _ Hu _ _ _. destruct Hu as [Hu|Hu]; [|right; by apply unlink_none].
    destruct (decide (p = q)) as [->|Hp]; [right; by apply unlink_it|left; by rewrite unlink_other]. }
  assert (forall l w, mode_of w q = None -> mode_of (snd (for_each l f w)) q = None) as Hnone.
  { intros l v Hv. apply (cleanup_dir_keeps (fun w => mode_of w q = None) mask (S depth) dir l v); [|by intros; apply rmdir_none|done].
    intros p u m' _ Hu _ _ _. by apply unlink_none. }
  cbn [for_each]. unfold mbind, state_bind. specialize (Hf x w Ho). destruct (decide (x = n)) as [->|Hx].
  - assert (mode_of (snd (f n w)) q = None) as H0.
    { unfold f. rewrite (proj2 (Ascii.eqb_neq _ _) Hdot). cbv zeta. rewrite <- Hq. unfold mbind, state_bind. rewrite law_lstat.
      destruct Ho as [Ho|Ho]; rewrite Ho; [|done]. rewrite Hm. change (0 =? 0) with true. cbn [negb]. rewrite Hfile.
      pose proof (unlink_it w Ho) as Hu. by destruct (sys_unlink q w). }
    destruct (f n w) as [? w']. by apply Hnone.
  - apply elem_of_cons in Hn as [->|Hn]; [done|]. destruct (f x w) as [? w']. by apply IH.
Qed.
End file.

(** C27: udevadm info --cleanup-db removes the records of the devices but for
    those that are kept ([OPTIONS+="db_persist"], which sets the sticky bit):
    a file of the database that the directory lists is there afterwards
    exactly if it has the sticky bit, and then with its mode. *)
Theorem cleanup_db_exact w n m names :
  sys_readdir (UDEVRUNDIR ++ "/data") (snd (sys_unlink (UDEVRUNDIR ++ "/queue.bin") w)) =
    (Some names, snd (sys_unlink (UDEVRUNDIR ++ "/queue.bin") w)) ->
  n ∈ names -> nth 0 n nul <> "."%char -> S_ISDIR m = false ->
  mode_of w (UDEVRUNDIR ++ "/data/" ++ n) = Some m ->
  mode_of (snd (cleanup_db w)) (UDEVRUNDIR ++ "/data/" ++ n) = if Z.land m S_ISVTX =? 0 then None else Some m.
Proof.
  intros Hr Hn Hdot Hfile Hw. set (q := UDEVRUNDIR ++ "/data/" ++ n) in *. unfold cleanup_db, mbind, state_bind.
  assert (mode_of (snd (sys_unlink (UDEVRUNDIR ++ "/queue.bin") w)) q = Some m) as H1 by (rewrite unlink_other; done).
  destruct (sys_unlink (UDEVRUNDIR ++ "/queue.bin") w) as [? w1]. cbn [snd] in *.
  assert (forall d mask dir v, ~ (dir ++ ["/"%char]) `prefix_of` q ->
    (mode_of v q = Some m -> mode_of (snd (cleanup_at d mask dir v)) q = Some m) /\
    (mode_of v q = None -> mode_of (snd (cleanup_at d mask dir v)) q = None)) as Hframe.
  { intros d mask dir v Hq. unfold cleanup_at, mbind, state_bind. pose proof (law_readdir dir v) as Hd.
    destruct (sys_readdir dir v) as [[l|] v']; cbn [snd] in Hd; subst v'; [|done]. by apply cleanup_dir_elsewhere. }
  set (goal := if Z.land m S_ISVTX =? 0 then None else Some m).
  assert (mode_of (snd (cleanup_at 1 S_ISVTX (UDEVRUNDIR ++ "/data") w1)) q = goal) as H2.
  { unfold cleanup_at, mbind, state_bind. rewrite Hr. cbn [on_names]. unfold goal. destruct (Z.eqb_spec (Z.land m S_ISVTX) 0) as [Hm|Hm].
    - eapply (cleanup_dir_removed q m Hfile S_ISVTX 0 _ names n); try done.
    - by apply cleanup_dir_marked. }
  destruct (cleanup_at 1 S_ISVTX (UDEVRUNDIR ++ "/data") w1) as [? w2]. cbn [snd] in H2.
  assert (forall d mask dir v, ~ (dir ++ ["/"%char]) `prefix_of` q -> mode_of v q = goal -> mode_of (snd (cleanup_at d mask dir v)) q = goal) as Hg.
  { intros d mask dir v Hq Hv. destruct (Hframe d mask dir v Hq) as [Ha Hb]. unfold goal in *. destruct (_ =? 0); auto. }
  pose proof (Hg 2%nat 0 (UDEVRUNDIR ++ "/links") w2) as H3. destruct (cleanup_at 2 0 (UDEVRUNDIR ++ "/links") w2) as [? w3].
  pose proof (Hg 2%nat 0 (UDEVRUNDIR ++ "/tags") w3) as H4. destruct (cleanup_at 2 0 (UDEVRUNDIR ++ "/tags") w3) as [? w4].
  pose proof (Hg 2%nat 0 (UDEVRUNDIR ++ "/static_node-tags") w4) as H5. destruct (cleanup_at 2 0 (UDEVRUNDIR ++ "/static_node-tags") w4) as [? w5].
  apply (Hg 1%nat 0 (UDEVRUNDIR ++ "/watch") w5); [by intros [k Hk]|]. apply H5; [by intros [k Hk]|]. apply H4; [by intros [k Hk]|]. apply H3; [by intros [k Hk]|done].
Qed.

(** ** The lines of the attribute walk *)

Lemma quote_body_plain q v : q ∉ v -> ParseValue.quote_body q v = v.
Proof using.
  induction v as [|c v IH]; intros H; [done|]. rewrite ParseValue.quote_body_cons. apply not_elem_of_cons in H as [Hc Hv].
  rewrite (proj2 (Ascii.eqb_neq c q)) by congruence. by rewrite IH.
Qed.
(** A line for an attribute is a key that the rules parser reads as it is
    meant, if the value has no quote and no backslash at its end. *)
Lemma attribute_line_parsed plural name value rest :
  plural = [] \/ plural = ["S"%char] -> Forall (fun c => key_char c = true) name ->
  ParseValue.dquote ∉ value -> last value <> Some "\"%char ->
  get_key (attribute_line (("ATTR" : bytes) ++ plural) name value ++ rest) =
    Some (("ATTR" : bytes) ++ plural ++ "{"%char :: name ++ ["}"%char], OP_MATCH, value, newline :: rest).
Proof using.
  intros Hp Hn Hq Hl.
  assert (attribute_line (("ATTR" : bytes) ++ plural) name value ++ rest =
    print_key "    " (("ATTR" : bytes) ++ plural ++ "{"%char :: name ++ ["}"%char]) [] OP_MATCH [] value ++ newline :: rest) as ->.
  { unfold attribute_line, line, print_key, in_quotes. rewrite quote_body_plain by done. cbn [op_str].
    rewrite <- ?app_assoc; simpl; rewrite <- ?app_assoc; simpl; rewrite <- ?app_assoc; done. }
  apply get_key_printed; [by repeat constructor| |by constructor|by constructor|done..|done].
  change (("ATTR" : bytes) ++ ?x) with ("A"%char :: ("TTR" : bytes) ++ x). split; [done|]. split; [done|]. split.
  - apply Forall_app. split; [by repeat constructor|]. apply Forall_app. split; [by destruct Hp as [->| ->]; repeat constructor|].
    constructor; [done|]. apply Forall_app. split; [done|by repeat constructor].
  - intros _ x. rewrite app_comm_cons, !app_assoc, last_snoc. by intros [= <-].
Qed.
(** A value with a quote is printed as it is, so the key is cut short. *)
Lemma quote_not_escaped :
  get_key (attribute_line "ATTR" "model" ("5" ++ [ParseValue.dquote] ++ " disk")) =
    Some (("ATTR{model}" : bytes), OP_MATCH, ("5" : bytes), (" disk" : bytes) ++ [ParseValue.dquote; newline]).
Proof using. by vm_compute. Qed.
(** The same in the lines for a shell. *)
Lemma shell_quote_not_escaped :
  export_line None (mk_entry "ID_MODEL" (Some ("a';b" : bytes)) 0) = line ("ID_MODEL='a';b'" : bytes).
Proof using. by vm_compute. Qed.
End info.

(** Files with their modes, for examples. *)
Definition mode_system : System := {|
  world := gmap bytes Z;
  sys_properties := [];
  sys_read_file := fun p w => (None, w);
  sys_readlink := fun p w => (None, w);
  sys_lstat := fun p w => (w !! p, w);
  sys_stat := fun p w => (w !! p, w);
  sys_readdir := fun p w => (if bool_decide (p = "/run/udev/data") then Some ["b8:0" : bytes; "b8:1" : bytes] else None, w);
  sys_create := fun p w => (0, w);
  sys_chmod := fun p m w => (0, w);
  sys_write := fun p s w => (0, w);
  sys_mkdir := fun p m w => (EEXIST, w);
  sys_rename := fun p q w => (ENOENT, w);
  sys_unlink := fun p w => match w !! p with Some m => if S_ISDIR m then (21, w) else (0, delete p w) | None => (ENOENT, w) end
|}.
Definition mode_nodes : Nodes (SY := mode_system) :=
  @Build_Nodes mode_system (fun p w => (None, w)) (fun t p w => (0, w))
    (fun p (w : gmap bytes Z) => match w !! p with Some m => if S_ISDIR m then (0, delete p w) else (ENOTDIR, w) | None => (ENOENT, w) end)
    (fun p u g w => (0, w)) (fun p n w => (tt, w)) (fun w => (0, w)).
Lemma mode_laws : ModeLaws (SY := mode_system) (NO := mode_nodes) (fun w p => (w : gmap bytes Z) !! p).
Proof.
  split; try done; cbn.
  - intros p w q. destruct (decide (q = p)) as [->|Hq].
    + rewrite bool_decide_true by done. destruct (w !! p) as [m|] eqn:E; cbn; [|by rewrite ?E]. destruct (S_ISDIR m); cbn; [by rewrite ?E|]. apply lookup_delete_eq.
    + rewrite bool_decide_false by done. destruct (w !! p) as [m|]; [|done]. destruct (S_ISDIR m); [done|]. by apply lookup_delete_ne.
  - intros p w q m Hm Hd. destruct (w !! p) as [m'|] eqn:E; [|done]. destruct (S_ISDIR m') eqn:Ed; [|done]. cbn [snd].
    rewrite lookup_delete_ne; [done|]. intros ->. specialize (Hd m'). rewrite Hd in Ed; [done|by rewrite <- Hm].
Qed.
(** One of two records is kept. *)
Lemma cleanup_db_exact_witness :
  let w : gmap bytes Z := <[("/run/udev/data/b8:0" : bytes) := 0x83A4]> (<[("/run/udev/data/b8:1" : bytes) := 0x81A4]> ∅) in
  let after p := (snd (@cleanup_db mode_system mode_nodes w) : gmap bytes Z) !! (UDEVRUNDIR ++ "/data/" ++ p) in
  after "b8:0" = Some 0x83A4 /\ after "b8:1" = None.
Proof.
  intros w after. split.
  - refine (eq_trans (@cleanup_db_exact mode_system mode_nodes (fun w p => (w : gmap bytes Z) !! p) mode_laws w "b8:0" 0x83A4
      ["b8:0" : bytes; "b8:1" : bytes] _ _ _ _ _) _); [vm_compute; reflexivity|by left|done|reflexivity|vm_compute; reflexivity|reflexivity].
  - refine (eq_trans (@cleanup_db_exact mode_system mode_nodes (fun w p => (w : gmap bytes Z) !! p) mode_laws w "b8:1" 0x81A4
      ["b8:0" : bytes; "b8:1" : bytes] _ _ _ _ _) _); [vm_compute; reflexivity|by right; left|done|reflexivity|vm_compute; reflexivity|reflexivity].
Defined.
End Info.

(** * udevadm-monitor.c *)

Module MonitorCmd.
Import Monitor.

Record monitor_options := mk_monitor_options {
  prop : bool; print_kernel : bool; print_udev : bool; subsystem_match_list : list entry; tag_match_list : list entry
}.
Definition monitor_long_options : list option_ :=
  [opt "property" no_argument "p"; opt "environment" no_argument "e"; opt "kernel" no_argument "k"; opt "udev" no_argument "u";
   opt "subsystem-match" required_argument "s"; opt "tag-match" required_argument "t"; opt "help" no_argument "h"].
Definition monitor_option {S : Type} (o : monitor_options) (f : found) : state S (monitor_options + Z) :=
  let '(mk_monitor_options p k u subs tags) := o in
  let arg := arg_of f in
  let c := fst f in
  mret (if (c ==c "p") || (c ==c "e") then inl (mk_monitor_options true k u subs tags)
        else if c ==c "k" then inl (mk_monitor_options p true u subs tags)
        else if c ==c "u" then inl (mk_monitor_options p k true subs tags)
        else if c ==c "s" then
          let '(subsys, devtype) := split_chr (fst (strscpy UTIL_NAME_SIZE arg)) "/" in
          inl (mk_monitor_options p k u (spec_add true subs subsys devtype) tags)
        else if c ==c "t" then inl (mk_monitor_options p k u subs (spec_add true tags arg None))
        else if c ==c "h" then inr 0
        else inr 1).
Definition default_sources (o : monitor_options) : monitor_options :=
  if negb (print_kernel o) && negb (print_udev o) then mk_monitor_options (prop o) true true (subsystem_match_list o) (tag_match_list o) else o.
Definition pad_right (n : nat) (s : bytes) : bytes := s ++ replicate (n - length s) " "%char.
Definition pad_zeros (n : nat) (s : bytes) : bytes := replicate (n - length s) "0"%char ++ s.

Section monitor.
Context `{SY : System} `{NL : Netlink}.
(** The filters of the two monitors, and listening. *)
Definition add_subsystem (with_devtype : bool) (m : udev_monitor) (e : entry) : udev_monitor :=
  snd (udev_monitor_filter_add_match_subsystem_devtype m (Some (e_name e)) (if with_devtype then e_value e else None)).
Definition add_tag (m : udev_monitor) (e : entry) : udev_monitor := snd (udev_monitor_filter_add_match_tag m (Some (e_name e))).
Definition udev_filters (o : monitor_options) (m : udev_monitor) : udev_monitor :=
  foldl add_tag (foldl (add_subsystem true) m (subsystem_match_list o)) (tag_match_list o).
Definition kernel_filters (o : monitor_options) (m : udev_monitor) : udev_monitor :=
  foldl (add_subsystem false) m (subsystem_match_list o).
(** The monitor, or the exit code. *)
Definition listen (filters : udev_monitor -> udev_monitor) (rc : Z) (m : udev_monitor) : state net (option (udev_monitor + Z)) :=
  _ ← udev_monitor_set_receive_buffer_size m (128 * 1024 * 1024);
  r ← udev_monitor_enable_receiving (filters m);
  mret ((fun '(e, m) => if (e : Z) <? 0 then inr rc else inl m) <$> r).
Definition print_device (sec nsec : Z) (source : bytes) (prop : bool) : D bytes :=
  action ← udev_device_get_action;
  d ← field (fun d => d);
  subsystem ← udev_device_get_subsystem udev_device_get_properties_list_entry;
  properties ← (if prop then es ← udev_device_get_properties_list_entry; mret ((es ≫= fun e => line (property_line e)) ++ line [])
                else mret []);
  mret (line (pad_right 6 source ++ "["%char :: fmt_u64 sec ++ "."%char :: pad_zeros 6 (fmt_i (Z.quot nsec 1000)) ++ "] "
              ++ pad_right 8 (shown action) ++ " "%char :: shown (devpath d) ++ " (" ++ shown subsystem ++ ")")
        ++ properties).
End monitor.

(** The filters that the monitor of udev gets are those of the command line. *)
Lemma udev_filters_exact o m :
  filter_subsystem_list m = [] ->
  (fun e => (e_name e, e_value e)) <$> filter_subsystem_list (udev_filters o m) = (fun e => (e_name e, e_value e)) <$> subsystem_match_list o.
Proof.
  intros Hm. unfold udev_filters.
  assert (forall es m, filter_subsystem_list (foldl add_tag m es) = filter_subsystem_list m) as ->.
  { induction es as [|e es IH]; intros m'; [done|]. simpl. by rewrite IH. }
  assert (forall es m, (fun e => (e_name e, e_value e)) <$> filter_subsystem_list (foldl (add_subsystem true) m es) =
    ((fun e => (e_name e, e_value e)) <$> filter_subsystem_list m) ++ ((fun e => (e_name e, e_value e)) <$> es)) as ->.
  { induction es as [|e es IH]; intros m'; simpl; [by rewrite app_nil_r|]. rewrite IH. simpl. unfold spec_add.
    rewrite fmap_app, <- app_assoc. done. }
  by rewrite Hm.
Qed.
(** The list of the subsystems is one of unique names, so of two types of a
    subsystem only the last is watched. *)
Lemma one_devtype_only :
  match @each_option unit _ _ monitor_option (mk_monitor_options false false false [] [])
    (fst (getopt_long "pekus:t:h" monitor_long_options ["-s" : bytes; "usb/usb_device" : bytes; "-s" : bytes; "usb/usb_interface" : bytes])) tt with
  | (inl o, _) => (fun e => (e_name e, e_value e)) <$> subsystem_match_list o = [(("usb" : bytes), Some ("usb_interface" : bytes))]
  | _ => False
  end.
Proof. by vm_compute. Qed.
End MonitorCmd.

(** * udevadm-test.c and udevadm-test-builtin.c *)

Module TestCmd.
Import Node EventRun.

Section test.
Context `{SY : System} {PR : Programs} {NO : Nodes} {IF : Interfaces} {CA : Calls}.
Context (fuel pfuel : nat) {P : Type} `{Hpool : StringPool P}.

Definition test_options : list option_ :=
  [opt "action" required_argument "a"; opt "resolve-names" required_argument "N"; opt "help" no_argument "h"].
(** [action] and [resolve_names]. *)
Definition test_option {S : Type} (t : bytes * Z) (o : found) : state S (bytes * Z + Z) :=
  let c := fst o in
  let arg := arg_of o in
  mret (if c ==c "a" then inl (arg, snd t)
        else if c ==c "N" then
          if bool_decide (arg = ("early" : bytes)) then inl (fst t, 1)
          else if bool_decide (arg = ("late" : bytes)) then inl (fst t, 0)
          else if bool_decide (arg = ("never" : bytes)) then inl (fst t, -1)
          else inr 1
        else if c ==c "h" then inr 0
        else inr 1).
Fixpoint run_lines (es : list entry) : E bytes :=
  match es with
  | [] => mret []
  | e :: es' =>
      '(program, _) ← udev_event_apply_format (e_name e) UTIL_PATH_SIZE;
      rest ← run_lines es';
      mret (line (("run: '" : bytes) ++ program ++ "'") ++ rest)
  end.
(** What is done with the event; [None] does not end. *)
Definition test_event (r : @rules P) : E (option bytes) :=
  done ← udev_event_execute_rules fuel pfuel r;
  match done with
  | None => mret None
  | Some _ =>
      es ← on 0 udev_device_get_properties_list_entry;
      run ← ev ev_run_list;
      runs ← run_lines run;
      mret (Some ((es ≫= fun e => line (property_line e)) ++ runs))
  end.
Definition run_test (r : @rules P) (d : udev_device) : state world (option (Z * bytes)) :=
  fun w => let '(text, (w, _)) := test_event r (w, event_of d) in ((fun t => (0, t)) <$> text, w).
(** [rules_of] are the rules for a time of resolving names, [signalfd] the
    descriptor or an error.  The exit code and the text behind the warning. *)
Definition adm_test (rules_of : Z -> option (@rules P)) (signalfd : Z) (argv : list bytes) : state world (option (Z * bytes)) :=
  let '(fs, rest) := getopt_long "a:N:h" test_options argv in
  o ← each_option test_option (("add" : bytes), 1) fs;
  match o, rest with
  | inr rc, _ => mret (Some (rc, []))
  | inl _, [] => mret (Some (2, []))
  | inl (action, resolve_names), syspath :: _ =>
      match rules_of resolve_names with
      | None => mret (Some (3, []))
      | Some r =>
          dev ← udev_device_new_from_syspath (sys_path syspath);
          match dev with
          | None => mret (Some (4, []))
          | Some d =>
              '(_, d) ← run_device d (udev_device_set_info_loaded ;; udev_device_read_uevent_file ;;
                                      udev_device_set_action udev_device_get_properties_list_entry action);
              if signalfd <? 0 then mret (Some (5, []))
              else
                run_test r d
          end
      end
  end.

Definition builtin_options : list option_ := [opt "help" no_argument "h"].
Definition run_builtin (d : udev_device) (cmd : Z) (command : bytes) : state world Z :=
  fun w => let '(rc, (w, _)) := udev_builtin_run cmd command (w, event_of d) in (rc, w).
(** The exit code. *)
Definition adm_builtin (argv : list bytes) : state world Z :=
  let '(fs, rest) := getopt_long "h" builtin_options argv in
  if existsb (fun o : found => fst o ==c "h") fs then mret 0
  else
    match rest with
    | [] => mret 2
    | [_] => mret 3
    | command :: syspath :: _ =>
        let cmd := udev_builtin_lookup command in
        if UDEV_BUILTIN_MAX <=? cmd then mret 5
        else
          dev ← udev_device_new_from_syspath (sys_path syspath);
          match dev with
          | None => mret 4
          | Some d => rc ← run_builtin d cmd command; mret (if rc <? 0 then 6 else rc)
          end
    end.
End test.
End TestCmd.

(** * udevadm.c *)

Module Udevadm.

Definition main_options : list option_ := [opt "debug" no_argument "d"; opt "help" no_argument "h"; opt "version" no_argument "V"].
Definition udevadm_cmds : list bytes :=
  ["info" : bytes; "trigger" : bytes; "settle" : bytes; "control" : bytes; "monitor" : bytes; "hwdb" : bytes;
   "test" : bytes; "test-builtin" : bytes; "version" : bytes; "help" : bytes].
(** A command with its arguments and whether the messages for debugging are
    shown, or the end with an exit code. *)
Inductive run_or_exit := Run (debug : bool) (cmd : bytes) (args : list bytes) | Exit (rc : Z).
Fixpoint main_option_loop (debug : bool) (fs : list found) : bool + Z :=
  match fs with
  | [] => inl debug
  | o :: fs' =>
      let c := fst o in
      if c ==c "d" then main_option_loop true fs' else if (c ==c "h") || (c ==c "V") then inr 0 else inr 1
  end.
(** The commands test and test-builtin always show them. *)
Definition cmd_debug (cmd : bytes) : bool := bool_decide (cmd ∈ ["test" : bytes; "test-builtin" : bytes]).
Definition main (argv : list bytes) : run_or_exit :=
  let '(fs, rest) := getopt_first "dhV" main_options (length argv) argv in
  match main_option_loop false fs, rest with
  | inr rc, _ => Exit rc
  | inl _, [] => Exit 2
  | inl debug, command :: args => if bool_decide (command ∈ udevadm_cmds) then Run (debug || cmd_debug command) command args else Exit 2
  end.
(** The command gets exactly the arguments behind its name. *)
Lemma main_run argv debug cmd args :
  main argv = Run debug cmd args -> cmd ∈ udevadm_cmds /\ exists front, argv = front ++ cmd :: args.
Proof.
  unfold main. pose proof (getopt_first_suffix "dhV" main_options (length argv) argv) as [front H].
  destruct (getopt_first _ _ _ _) as [fs rest]. cbn [snd] in H. destruct (main_option_loop false fs) as [d|]; [|done].
  destruct rest as [|command rest]; [done|]. destruct (bool_decide (command ∈ udevadm_cmds)) eqn:E; [|done]. intros [= _ <- <-].
  apply bool_decide_eq_true in E. split; [done|]. by exists front.
Qed.
Example main_control : main ["--debug" : bytes; "control" : bytes; "--exit" : bytes; "-d" : bytes] = Run true "control" ["--exit" : bytes; "-d" : bytes].
Proof. by vm_compute. Qed.
End Udevadm.
