(* ===== verification/Helpers.v ===== *)
(** Three of the small programs that rules call: src/accelerometer,
    src/v4l_id and src/mtd_probe.  The texts of the help are left out. *)

From Stdlib Require Import ZArith Lia Ascii.
From stdpp Require Import prelude gmap strings sorting.
From S2P Require Import Prelude Utils Strings Encode System UdevList Device DeviceProofs DeviceNew Enumerate Getopt Udevadm.
Import Str Strxcpyx Mem Entries UdevList Device DeviceNew Encode.Encode Getopt.

(** * accelerometer.c *)

Module Accelerometer.

Inductive OrientationUp := ORIENTATION_UNDEFINED | ORIENTATION_NORMAL | ORIENTATION_BOTTOM_UP | ORIENTATION_LEFT_UP | ORIENTATION_RIGHT_UP.
#[export] Instance orientation_eq_dec : EqDecision OrientationUp := ltac:(solve_decision).
Definition orientations : list (bytes * OrientationUp) :=
  [(("undefined" : bytes), ORIENTATION_UNDEFINED); (("normal" : bytes), ORIENTATION_NORMAL); (("bottom-up" : bytes), ORIENTATION_BOTTOM_UP);
   (("left-up" : bytes), ORIENTATION_LEFT_UP); (("right-up" : bytes), ORIENTATION_RIGHT_UP)].
Definition orientation_to_string (o : OrientationUp) : bytes :=
  match o with
  | ORIENTATION_UNDEFINED => "undefined" | ORIENTATION_NORMAL => "normal" | ORIENTATION_BOTTOM_UP => "bottom-up"
  | ORIENTATION_LEFT_UP => "left-up" | ORIENTATION_RIGHT_UP => "right-up"
  end.
Fixpoint lookup_orientation (l : list (bytes * OrientationUp)) (orientation : bytes) : OrientationUp :=
  match l with
  | [] => ORIENTATION_UNDEFINED
  | (name, o) :: l' => if str_eq (Some orientation) (Some name) then o else lookup_orientation l' orientation
  end.
Definition string_to_orientation (orientation : option bytes) : OrientationUp :=
  match orientation with None => ORIENTATION_UNDEFINED | Some s => lookup_orientation orientations s end.
Definition SAME_AXIS_LIMIT : Z := 5.
Definition THRESHOLD_LANDSCAPE : Z := 25.
Definition THRESHOLD_PORTRAIT : Z := 20.

Section accelerometer.
Context `{SY : System} {IF : Interfaces} {G : Glob}.
Context (sys_readdir_dirs : bytes -> state world (Z + list bytes)).
(** The angle, in whole degrees, of the first axis against the plane of the
    other two, which the C library computes with floating point numbers. *)
Context (degrees : Z -> Z -> Z -> Z).
(** The values of the three axes, when the device can be opened and asked. *)
Context (read_axes : bytes -> state world (option (Z * Z * Z))).

Definition keep_near (prev : OrientationUp) (axis : list OrientationUp) (rotation : Z) (new : OrientationUp) : OrientationUp :=
  if bool_decide (prev ∈ axis) && (Z.abs rotation <? SAME_AXIS_LIMIT) then prev else new.
Definition orientation_calc (prev : OrientationUp) (x y z : Z) : OrientationUp :=
  let rotation := degrees x y z in
  if THRESHOLD_PORTRAIT <? Z.abs rotation then
    keep_near prev [ORIENTATION_LEFT_UP; ORIENTATION_RIGHT_UP] rotation (if rotation <? 0 then ORIENTATION_LEFT_UP else ORIENTATION_RIGHT_UP)
  else
    let rotation := degrees y x z in
    if THRESHOLD_LANDSCAPE <? Z.abs rotation then
      keep_near prev [ORIENTATION_BOTTOM_UP; ORIENTATION_NORMAL] rotation (if rotation <? 0 then ORIENTATION_BOTTOM_UP else ORIENTATION_NORMAL)
    else prev.
Definition get_prev_orientation : D OrientationUp :=
  value ← udev_device_get_property_value "ID_INPUT_ACCELEROMETER_ORIENTATION"; mret (string_to_orientation value).
(** What is printed. *)
Definition test_orientation (devnode : bytes) : D bytes :=
  old ← get_prev_orientation;
  axes ← sys (read_axes devnode);
  mret (match axes with
        | None => []
        | Some (x, y, z) => line (take 63 (("ID_INPUT_ACCELEROMETER_ORIENTATION=" : bytes) ++ orientation_to_string (orientation_calc old x y z)))
        end).
(** [strstr]. *)
Fixpoint has_substring (s sub : bytes) : bool :=
  match s with
  | [] => bool_decide (sub = [])
  | _ :: s' => (if startswith s sub is Some _ then true else false) || has_substring s' sub
  end.
(** The node of the first event device; the others are opened too. *)
Fixpoint find_devnode (names : list bytes) (devnode : option bytes) : state world (option bytes) :=
  match names with
  | [] => mret devnode
  | name :: names' =>
      dev ← udev_device_new_from_syspath name;
      devnode ← match dev, devnode with
                | Some d, None =>
                    '(node, _) ← run_device d udev_device_get_devnode;
                    mret (match node with Some n => if has_substring n "/event" then Some n else None | None => None end)
                | _, _ => mret devnode
                end;
      find_devnode names' devnode
  end.
Definition accelerometer_options : list option_ := [opt "debug" no_argument "d"; opt "help" no_argument "h"].
(** The first option that ends the program. *)
Fixpoint options_end (fs : list found) : option Z :=
  match fs with
  | [] => None
  | o :: fs' => if fst o ==c "d" then options_end fs' else Some (if fst o ==c "h" then 0 else 1)
  end.
Definition accelerometer_main (argv : list bytes) : state world (Z * bytes) :=
  let '(fs, rest) := getopt_long "dxh" accelerometer_options argv in
  match options_end fs, rest with
  | Some rc, _ => mret (rc, [])
  | None, [] => mret (1, [])
  | None, arg :: _ =>
      dev ← udev_device_new_from_syspath (take 4095 (("/sys/" : bytes) ++ arg));
      match dev with
      | None => mret (1, [])
      | Some d =>
          let en := Enumerate.udev_enumerate_add_match_parent Enumerate.udev_enumerate_new (Some d) in
          '(_, en) ← Enumerate.udev_enumerate_scan_devices sys_readdir_dirs en;
          devnode ← find_devnode (Trigger.names_of en) None;
          match devnode with
          | None => mret (0, [])
          | Some n => '(text, _) ← run_device d (test_orientation n); mret (0, text)
          end
      end
  end.

(** The names of the orientations are read back as they are written. *)
Lemma orientation_names o : string_to_orientation (Some (orientation_to_string o)) = o.
Proof using. by destruct o. Qed.
(** The last orientation matters only where the device lies flat: the limit
    for staying on the same axis is below the threshold of the axis, so it
    never applies. *)
Lemma orientation_calc_exact prev x y z :
  orientation_calc prev x y z =
    if 20 <? Z.abs (degrees x y z) then if degrees x y z <? 0 then ORIENTATION_LEFT_UP else ORIENTATION_RIGHT_UP
    else if 25 <? Z.abs (degrees y x z) then if degrees y x z <? 0 then ORIENTATION_BOTTOM_UP else ORIENTATION_NORMAL
    else prev.
Proof.
  unfold orientation_calc, keep_near, THRESHOLD_PORTRAIT, THRESHOLD_LANDSCAPE, SAME_AXIS_LIMIT. cbv zeta.
  destruct (Z.ltb_spec 20 (Z.abs (degrees x y z))).
  - rewrite (proj2 (Z.ltb_ge (Z.abs (degrees x y z)) 5)) by lia. by rewrite andb_false_r.
  - destruct (Z.ltb_spec 25 (Z.abs (degrees y x z))); [|done].
    rewrite (proj2 (Z.ltb_ge (Z.abs (degrees y x z)) 5)) by lia. by rewrite andb_false_r.
Qed.
End accelerometer.
End Accelerometer.

(** * v4l_id.c *)

Module V4lId.

(** The bits of the capabilities in linux/videodev2.h, and their names. *)
Definition capability_names : list (Z * bytes) :=
  [(0x1, ("capture:" : bytes)); (0x2, ("video_output:" : bytes)); (0x4, ("video_overlay:" : bytes)); (0x20000, ("audio:" : bytes));
   (0x10000, ("tuner:" : bytes)); (0x40000, ("radio:" : bytes))].
(** The name of the card, whose array holds a string, and the capabilities. *)
Definition capability_lines (card : bytes) (capabilities : Z) : bytes :=
  line "ID_V4L_VERSION=2" ++ line (("ID_V4L_PRODUCT=" : bytes) ++ card) ++
  line (("ID_V4L_CAPABILITIES=:" : bytes) ++ (capability_names ≫= fun '(bit, name) => if 0 <? Z.land capabilities bit then name else [])).
(** [query] opens the device: an error, or the answer if there is one. *)
Definition v4l_id_main (query : bytes -> option (option (bytes * Z))) (argv : list bytes) : Z * bytes :=
  let '(fs, rest) := getopt_long "h" [opt "help" no_argument "h"] argv in
  match fs, rest with
  | o :: _, _ => ((if fst o ==c "h" then 0 else 1), [])
  | [], [] => (2, [])
  | [], device :: _ =>
      match query device with
      | None => (3, [])
      | Some None => (0, [])
      | Some (Some (card, capabilities)) => (0, capability_lines card capabilities)
      end
  end.
Example webcam : v4l_id_main (fun _ => Some (Some (("Cam" : bytes), 0x5))) ["/dev/video0" : bytes] =
  (0, line "ID_V4L_VERSION=2" ++ line "ID_V4L_PRODUCT=Cam" ++ line "ID_V4L_CAPABILITIES=:capture:video_overlay:").
Proof. by vm_compute. Qed.
End V4lId.

(** * mtd_probe.c and probe_smartmedia.c *)

Module MtdProbe.

Definition SM_SECTOR_SIZE : Z := 512.
Definition SM_SMALL_PAGE : Z := 256.
Definition MTD_NANDFLASH : Z := 4.
(** [mtd_info_t]: the members that are looked at. *)
Record mtd_info := mk_mtd_info { type : Z; size : Z; erasesize : Z; writesize : Z }.
Definition cis_signature : bytes :=
  [chr 0x01; chr 0x03; chr 0xD9; chr 0x01; chr 0xFF; chr 0x18; chr 0x02; chr 0xDF; chr 0x01; chr 0x20].
Definition spare_count (size_in_megs : Z) : Z :=
  if (size_in_megs =? 1) || (size_in_megs =? 2) then 6 else if size_in_megs =? 4 then 12 else 24.

Section probe.
(** What a read of a sector at a position gives, when it is complete. *)
Context (sector : Z -> option bytes).
(** [lseek] with a position and what it counts from: 0 the start, 1 the
    position, anything that is no such number an error. *)
Definition lseek (pos offset whence : Z) : Z :=
  if whence =? 0 then offset else if whence =? 1 then pos + offset else pos.
(** The loop over [offset]; [pos] is the position of the file. *)
Fixpoint find_cis (fuel : nat) (pos offset sector_size limit : Z) : option bytes :=
  match fuel with
  | O => None
  | S fuel' =>
      if offset <? limit then
        let pos := lseek pos 0 offset in
        match sector pos with
        | Some buf => Some buf
        | None => find_cis fuel' pos (offset + sector_size) sector_size limit
        end
      else None
  end.
Definition is_cis (buf : bytes) : bool :=
  bool_decide (take 10 buf = cis_signature) || bool_decide (take 10 (drop (Z.to_nat SM_SMALL_PAGE) buf) = cis_signature).
(** Whether it is smart media; then the program ends with 0, else with -1. *)
Definition probe_smart_media (info : mtd_info) : bool :=
  let sector_size := s32 (writesize info) in
  let block_size := s32 (erasesize info) in
  let size_in_megs := s32 (size info / (1024 * 1024)) in
  if negb (type info =? MTD_NANDFLASH) then false
  else if negb (sector_size =? SM_SECTOR_SIZE) && negb (sector_size =? SM_SMALL_PAGE) then false
  else
    let limit := s32 (block_size * spare_count size_in_megs) in
    match find_cis (S (Z.to_nat (limit / sector_size + 1))) 0 0 sector_size limit with
    | None => false
    | Some buf => is_cis buf
    end.
(** [device] is what can be opened and asked. *)
Definition mtd_probe_main (device : bytes -> option (option mtd_info)) (argv : list bytes) : Z * bytes :=
  match argv with
  | [path] =>
      match device path with
      | Some (Some info) => if probe_smart_media info then (0, line "MTD_FTL=smartmedia") else (255, [])
      | _ => (255, [])
      end
  | _ => (1, line "usage: mtd_probe /dev/mtd[n]")
  end.

(** The loop ends within its fuel. *)
Lemma find_cis_fuel fuel fuel' pos offset sector_size limit :
  0 < sector_size -> limit - offset <= Z.of_nat fuel * sector_size -> limit - offset <= Z.of_nat fuel' * sector_size ->
  find_cis (S fuel) pos offset sector_size limit = find_cis (S fuel') pos offset sector_size limit.
Proof.
  intros Hs. revert fuel' pos offset. induction fuel as [|fuel IH]; intros fuel' pos offset H1 H2; cbn [find_cis].
  - by rewrite (proj2 (Z.ltb_ge _ _)) by lia.
  - destruct (Z.ltb_spec offset limit); [|done]. destruct (sector _); [done|].
    destruct fuel' as [|fuel']; [lia|]. apply IH; lia.
Qed.
(** The arguments of [lseek] are exchanged: a sector that cannot be read is
    read again, and the ones behind it never are. *)
Lemma only_first_sector fuel offset sector_size limit :
  (forall k : nat, offset + Z.of_nat k * sector_size <> 1) ->
  find_cis fuel 0 offset sector_size limit = match fuel with O => None | S _ => if offset <? limit then sector 0 else None end.
Proof.
  revert offset. induction fuel as [|fuel IH]; intros offset Ho; [done|]. cbn [find_cis].
  destruct (Z.ltb_spec offset limit) as [H|H]; [|done].
  assert (lseek 0 0 offset = 0) as ->.
  { unfold lseek. destruct (offset =? 0); [done|]. by destruct (Z.eqb_spec offset 1). }
  destruct (sector 0) eqn:E; [done|]. rewrite IH.
  - destruct fuel; [done|]. by destruct (_ <? _).
  - intros k. specialize (Ho (S k)). lia.
Qed.
End probe.
Example second_sector_missed :
  let signed := cis_signature ++ replicate 502 nul in
  mtd_probe_main (fun pos => if pos =? 512 then Some signed else None) (fun _ => Some (Some (mk_mtd_info MTD_NANDFLASH (16 * 1024 * 1024) 16384 512))) ["/dev/mtd0" : bytes] = (255, []) /\
  mtd_probe_main (fun pos => if pos =? 0 then Some signed else None) (fun _ => Some (Some (mk_mtd_info MTD_NANDFLASH (16 * 1024 * 1024) 16384 512))) ["/dev/mtd0" : bytes] =
    (0, line "MTD_FTL=smartmedia").
Proof. by vm_compute. Qed.
End MtdProbe.
