(* ===== verification/Log.v ===== *)
(** shared/log.c: where a message of the log goes, with the ways out when a
    place cannot be written.  The calls that build a message from a format are
    given its text; [log_struct_internal], whose arguments are a list of
    formats, is left out. *)

From Stdlib Require Import ZArith Lia Ascii.
From stdpp Require Import prelude strings.
From S2P Require Import Prelude System Strings Util.
Import Util.

Module Log.

Inductive LogTarget :=
  | LOG_TARGET_CONSOLE | LOG_TARGET_KMSG | LOG_TARGET_JOURNAL | LOG_TARGET_JOURNAL_OR_KMSG | LOG_TARGET_SYSLOG
  | LOG_TARGET_SYSLOG_OR_KMSG | LOG_TARGET_AUTO | LOG_TARGET_SAFE | LOG_TARGET_NULL.
#[export] Instance target_eq_dec : EqDecision LogTarget := ltac:(solve_decision).
Definition log_target_table : list (LogTarget * bytes) :=
  [(LOG_TARGET_CONSOLE, ("console" : bytes)); (LOG_TARGET_KMSG, ("kmsg" : bytes)); (LOG_TARGET_JOURNAL, ("journal" : bytes));
   (LOG_TARGET_JOURNAL_OR_KMSG, ("journal-or-kmsg" : bytes)); (LOG_TARGET_SYSLOG, ("syslog" : bytes));
   (LOG_TARGET_SYSLOG_OR_KMSG, ("syslog-or-kmsg" : bytes)); (LOG_TARGET_AUTO, ("auto" : bytes)); (LOG_TARGET_SAFE, ("safe" : bytes));
   (LOG_TARGET_NULL, ("null" : bytes))].
(** The first row of a table that has the name; and the name of a row. *)
Definition table_from_string {A} (table : list (A * bytes)) (s : bytes) : option A :=
  fst <$> head (filter (fun row => row.2 = s) table).
Definition table_to_string {A} `{EqDecision A} (table : list (A * bytes)) (a : A) : option bytes :=
  snd <$> head (filter (fun row => row.1 = a) table).
Definition log_target_from_string : bytes -> option LogTarget := table_from_string log_target_table.
Definition log_target_to_string : LogTarget -> option bytes := table_to_string log_target_table.
Definition log_level_table : list (Z * bytes) :=
  [(0, ("emerg" : bytes)); (1, ("alert" : bytes)); (2, ("crit" : bytes)); (3, ("err" : bytes)); (4, ("warning" : bytes));
   (5, ("notice" : bytes)); (6, ("info" : bytes)); (7, ("debug" : bytes))].
(** With numbers as well; -1 for an unknown name. *)
Definition log_level_from_string (s : bytes) : Z :=
  match table_from_string log_level_table s with
  | Some i => i
  | None => match safe_atou s with inr u => if u <=? 7 then u else -1 | inl _ => -1 end
  end.
Definition log_level_to_string_alloc (i : Z) : option bytes :=
  if (i <? 0) || (7 <? i) then None else table_to_string log_level_table i.

Definition LOG_PRI (level : Z) : Z := Z.land level 7.
Definition LOG_FACMASK : Z := 0x3f8.
Definition LOG_FAC (level : Z) : Z := Z.shiftr (Z.land level LOG_FACMASK) 3.
Definition LOG_DAEMON : Z := 24.
Definition LOG_ERR : Z := 3.
Definition LOG_LINE_MAX : nat := Z.to_nat 2048.
Definition EIO : Z := 5.
Definition EAGAIN : Z := 11.

(** A place for messages, and a message that was written: the line it is
    about and its bytes. *)
Inductive sink := Journal | Syslog | Kmsg | Console.
Record sent := mk_sent { s_sink : sink; s_line : bytes; s_bytes : bytes }.
(** The static variables; the number of system calls so far and what was
    written are those of the model. *)
Record logger := mk_logger {
  log_target : LogTarget; log_max_level : Z; log_facility : Z;
  console_fd : Z; syslog_fd : Z; kmsg_fd : Z; journal_fd : Z; syslog_is_stream : bool;
  show_color : bool; show_location : bool;
  calls : nat; log_sent : list sent
}.
#[export] Instance eta_logger : Eta logger := fun l => mk_logger (log_target l) (log_max_level l) (log_facility l)
  (console_fd l) (syslog_fd l) (kmsg_fd l) (journal_fd l) (syslog_is_stream l) (show_color l) (show_location l) (calls l) (log_sent l).
Definition log_start : logger := mk_logger LOG_TARGET_CONSOLE 6 LOG_DAEMON 2 (-1) (-1) (-1) false false false 0 [].
(** Where a message comes from; a line of 0 is none. *)
Record origin := mk_origin { o_file : option bytes; o_line : Z; o_func : option bytes; o_object : option (bytes * bytes) }.

Section log.
(** What the n-th system call gives: a number or [-errno]; opening a file or
    a socket gives a descriptor. *)
Context (answer : nat -> Z).
(** [getpid], the name of the program, the time for syslog if it can be made,
    and whether the error output is a terminal. *)
Context (pid : Z) (name : bytes) (header_time : option bytes) (is_tty : bool).
#[local] Abbreviation L := (state logger).

Definition field {A} (f : logger -> A) : L A := gets f.
Definition set (f : logger -> logger) : L unit := modify f.
Definition call : L Z := fun l => (answer (calls l), l <| calls := S (calls l) |>).
Definition written (s : sink) (line data : bytes) : L unit := set (fun l => l <| log_sent := log_sent l ++ [mk_sent s line data] |>).

(** ** Opening and closing *)

(** The descriptor 1 in the console of init is never closed. *)
Definition log_close_console : L unit :=
  fd ← field console_fd; if fd <? 0 then mret tt else if pid =? 1 then set (fun l => l <| console_fd := -1 |>) else mret tt.
Definition log_open_console : L Z :=
  fd ← field console_fd;
  if 0 <=? fd then mret 0
  else if pid =? 1 then
    r ← call; set (fun l => l <| console_fd := r |>) ;; mret (if r <? 0 then r else 0)
  else set (fun l => l <| console_fd := 2 |>) ;; mret 0.
Definition log_close_kmsg : L unit := set (fun l => l <| kmsg_fd := -1 |>).
Definition log_open_kmsg : L Z :=
  fd ← field kmsg_fd;
  if 0 <=? fd then mret 0
  else r ← call; set (fun l => l <| kmsg_fd := if r <? 0 then -1 else r |>) ;; mret (if r <? 0 then r else 0).
Definition log_close_syslog : L unit := set (fun l => l <| syslog_fd := -1 |>).
Definition create_log_socket : L Z := call.
Definition log_open_syslog : L Z :=
  fd ← field syslog_fd;
  if 0 <=? fd then mret 0
  else
    fd ← create_log_socket;
    if fd <? 0 then log_close_syslog ;; mret fd
    else
      r ← call;
      if r <? 0 then
        fd ← create_log_socket;
        if fd <? 0 then log_close_syslog ;; mret fd
        else
          r ← call;
          if r <? 0 then log_close_syslog ;; mret r
          else set (fun l => l <| syslog_fd := fd |> <| syslog_is_stream := true |>) ;; mret 0
      else set (fun l => l <| syslog_fd := fd |> <| syslog_is_stream := false |>) ;; mret 0.
Definition log_close_journal : L unit := set (fun l => l <| journal_fd := -1 |>).
Definition log_open_journal : L Z :=
  fd ← field journal_fd;
  if 0 <=? fd then mret 0
  else
    fd ← create_log_socket;
    if fd <? 0 then log_close_journal ;; mret fd
    else
      r ← call;
      if r <? 0 then log_close_journal ;; mret r else set (fun l => l <| journal_fd := fd |>) ;; mret 0.
Definition to_journal (t : LogTarget) : bool := bool_decide (t ∈ [LOG_TARGET_AUTO; LOG_TARGET_JOURNAL_OR_KMSG; LOG_TARGET_JOURNAL]).
Definition to_syslog (t : LogTarget) : bool := bool_decide (t ∈ [LOG_TARGET_SYSLOG_OR_KMSG; LOG_TARGET_SYSLOG]).
Definition to_kmsg (t : LogTarget) : bool :=
  bool_decide (t ∈ [LOG_TARGET_AUTO; LOG_TARGET_SAFE; LOG_TARGET_SYSLOG_OR_KMSG; LOG_TARGET_JOURNAL_OR_KMSG; LOG_TARGET_KMSG]).
(** A place is tried when the target names it; [None] goes on. *)
Definition try_open (wanted : bool) (open : L Z) (close : L unit) : L (option Z) :=
  if wanted then r ← open; if 0 <=? r then close ;; mret (Some r) else mret None else mret None.
Definition open_console_only : L Z := log_close_journal ;; log_close_syslog ;; log_open_console.
Definition log_open : L Z :=
  t ← field log_target;
  if bool_decide (t = LOG_TARGET_NULL) then log_close_journal ;; log_close_syslog ;; log_close_console ;; mret 0
  else if negb (bool_decide (t ∈ [LOG_TARGET_AUTO; LOG_TARGET_SAFE])) || (pid =? 1) || negb is_tty then
    r ← try_open (to_journal t) log_open_journal (log_close_syslog ;; log_close_console);
    match r with
    | Some r => mret r
    | None =>
        r ← try_open (to_syslog t) log_open_syslog (log_close_journal ;; log_close_console);
        match r with
        | Some r => mret r
        | None =>
            r ← try_open (to_kmsg t) log_open_kmsg (log_close_journal ;; log_close_syslog ;; log_close_console);
            match r with Some r => mret r | None => open_console_only end
        end
    end
  else open_console_only.
Definition log_close : L unit := log_close_journal ;; log_close_syslog ;; log_close_kmsg ;; log_close_console.
Definition log_forget_fds : L unit :=
  set (fun l => l <| console_fd := -1 |> <| kmsg_fd := -1 |> <| syslog_fd := -1 |> <| journal_fd := -1 |>).

(** ** Writing *)

Definition RED_ON : bytes := chr 27 :: "[1;31m".
Definition HIGHLIGHT_OFF : bytes := chr 27 :: "[0m".
Definition header_pid : bytes := take 15 ("["%char :: fmt_i pid ++ "]: ").
Definition header_priority (level : Z) : bytes := take 15 ("<"%char :: fmt_i level ++ ">").
Definition console_text (l : logger) (level : Z) (o : origin) (buffer : bytes) : bytes :=
  let highlight := (LOG_PRI level <=? LOG_ERR) && show_color l in
  (if show_location l then take 63 (("(" : bytes) ++ default ("(null)" : bytes) (o_file o) ++ ":"%char :: fmt_u32 (o_line o) ++ ") ") else [])
  ++ (if highlight then RED_ON else []) ++ buffer ++ (if highlight then HIGHLIGHT_OFF else []) ++ [newline].
Definition write_to_console (level : Z) (o : origin) (buffer : bytes) : L Z :=
  fd ← field console_fd;
  if fd <? 0 then mret 0
  else
    data ← field (fun l => console_text l level o buffer);
    r ← call;
    if r <? 0 then
      if (r =? - EIO) && (pid =? 1) then
        log_close_console ;; log_open_console ;;
        fd ← field console_fd;
        if fd <? 0 then mret 0
        else r ← call; if r <? 0 then mret r else written Console buffer data ;; mret 1
      else mret r
    else written Console buffer data ;; mret 1.
(** A stream may take a part of the message, but at least a byte. *)
Fixpoint send_stream (fuel rest : nat) : L Z :=
  match fuel with
  | O => mret 0
  | S fuel' =>
      n ← call;
      if n <? 0 then mret n
      else if (rest <=? Nat.max 1 (Z.to_nat n))%nat then mret 0
      else send_stream fuel' (rest - Nat.max 1 (Z.to_nat n))
  end.
Definition write_to_syslog (level : Z) (buffer : bytes) : L Z :=
  fd ← field syslog_fd;
  if fd <? 0 then mret 0
  else
    match header_time with
    | None => mret (- EINVAL)
    | Some time =>
        stream ← field syslog_is_stream;
        let data := header_priority level ++ time ++ name ++ header_pid ++ buffer ++ (if (stream : bool) then [nul] else []) in
        r ← (if stream then send_stream (length data) (length data) else call);
        if r <? 0 then mret r else written Syslog buffer data ;; mret 1
    end.
Definition write_to_kmsg (level : Z) (buffer : bytes) : L Z :=
  fd ← field kmsg_fd;
  if fd <? 0 then mret 0
  else
    r ← call;
    if r <? 0 then mret r
    else written Kmsg buffer (header_priority level ++ name ++ header_pid ++ buffer ++ [newline]) ;; mret 1.
Definition log_do_header (level : Z) (o : origin) : bytes :=
  let entry (key : bytes) (v : option bytes) := match v with Some v => key ++ v ++ [newline] | None => [] end in
  take (LOG_LINE_MAX - 1)
    (("PRIORITY=" : bytes) ++ fmt_i (LOG_PRI level) ++ [newline] ++ "SYSLOG_FACILITY=" ++ fmt_i (LOG_FAC level) ++ [newline]
     ++ entry "CODE_FILE=" (take LOG_LINE_MAX <$> o_file o)
     ++ entry "CODE_LINE=" (if o_line o =? 0 then None else Some (fmt_i (o_line o)))
     ++ entry "CODE_FUNCTION=" (take LOG_LINE_MAX <$> o_func o)
     ++ match o_object o with Some (object_name, object) => object_name ++ take LOG_LINE_MAX object ++ [newline] | None => [] end
     ++ "SYSLOG_IDENTIFIER=" ++ name ++ [newline]).
Definition write_to_journal (level : Z) (o : origin) (buffer : bytes) : L Z :=
  fd ← field journal_fd;
  if fd <? 0 then mret 0
  else
    r ← call;
    if r <? 0 then mret r
    else written Journal buffer (log_do_header level o ++ "MESSAGE=" ++ buffer ++ [newline]) ;; mret 1.

(** ** A message *)

(** What the last write gave ([k]), and how many were written ([r]). *)
Definition stage (wanted : bool) (write : L Z) (after : Z -> L unit) (p : Z * Z) : L (Z * Z) :=
  if wanted then k ← write; after k ;; mret (k, if 0 <? k then p.2 + 1 else p.2) else mret p.
(** Behind a failure the kernel's log is opened. *)
Definition to_kmsg_instead (close : L unit) (k : Z) : L unit :=
  if k <? 0 then (if k =? - EAGAIN then mret tt else close) ;; log_open_kmsg ;; mret tt else mret tt.
Definition to_console_instead (k : Z) : L unit := if k <? 0 then log_close_kmsg ;; log_open_console ;; mret tt else mret tt.
Definition dispatch_line (level : Z) (o : origin) (buffer : bytes) : L (Z * Z) :=
  t ← field log_target;
  p ← stage (to_journal t) (write_to_journal level o buffer) (to_kmsg_instead log_close_journal) (0, 0);
  p ← stage (to_syslog t) (write_to_syslog level buffer) (to_kmsg_instead log_close_syslog) p;
  p ← stage ((p.1 <=? 0) && to_kmsg t) (write_to_kmsg level buffer) to_console_instead p;
  if p.1 <=? 0 then k ← write_to_console level o buffer; mret (k, p.2) else mret p.
(** The lines of the buffer that are not empty. *)
Fixpoint dispatch_loop (fuel : nat) (level : Z) (o : origin) (buffer : bytes) (r : Z) : L Z :=
  match fuel with
  | O => mret r
  | S fuel' =>
      match skip_set NEWLINE buffer with
      | [] => mret r
      | buffer =>
          let '(line, rest) := until_set NEWLINE buffer in
          '(k, n) ← dispatch_line level o line;
          if k <? 0 then mret k
          else match rest with [] => mret (r + n) | _ :: e => dispatch_loop fuel' level o e (r + n) end
      end
  end.
Definition log_dispatch (level : Z) (o : origin) (buffer : bytes) : L Z :=
  t ← field log_target;
  if bool_decide (t = LOG_TARGET_NULL) then mret 0
  else
    facility ← field log_facility;
    let level := if Z.land level LOG_FACMASK =? 0 then Z.lor facility (LOG_PRI level) else level in
    dispatch_loop (S (length buffer)) level o buffer 0.
(** [log_metav] and [log_metav_object], with the text of the format; and
    [log_dump_internal], whose text is not cut. *)
Definition log_dump_internal (level : Z) (o : origin) (buffer : bytes) : L Z :=
  max ← field log_max_level;
  if max <? LOG_PRI level then mret 0 else log_dispatch level o buffer.
Definition log_metav (level : Z) (o : origin) (text : bytes) : L Z := log_dump_internal level o (take (LOG_LINE_MAX - 1) text).

(** A failed assertion; the first two callers end the process afterwards. *)
Definition log_assert (level : Z) (o : origin) (before text ending : bytes) : L unit :=
  log_metav level o (before ++ " '" ++ text ++ "' failed at " ++ default ("(null)" : bytes) (o_file o) ++ ":"%char :: fmt_u32 (o_line o)
                     ++ ", function " ++ default ("(null)" : bytes) (o_func o) ++ "(). " ++ ending) ;; mret tt.
Definition log_assert_failed (o : origin) (text : bytes) : L unit := log_assert 2 o "Assertion" text "Aborting.".
Definition log_assert_failed_return (o : origin) (text : bytes) : L unit := log_assert 7 o "Assertion" text "Ignoring.".
Definition ENOMEM : Z := 12.
Definition log_oom_internal (o : origin) : L Z := log_metav 3 o "Out of memory." ;; mret (- ENOMEM).

(** ** Settings *)

Definition log_set_target (t : LogTarget) : L unit := set (fun l => l <| log_target := t |>).
Definition log_set_max_level (level : Z) : L unit := set (fun l => l <| log_max_level := level |>).
Definition log_set_target_from_string (e : bytes) : L Z :=
  match log_target_from_string e with None => mret (- EINVAL) | Some t => log_set_target t ;; mret 0 end.
Definition log_set_max_level_from_string (e : bytes) : L Z :=
  let t := log_level_from_string e in if t <? 0 then mret t else log_set_max_level t ;; mret 0.
Definition log_show_color_from_string (e : bytes) : L Z :=
  let t := parse_boolean e in if t <? 0 then mret t else set (fun l => l <| show_color := negb (t =? 0) |>) ;; mret 0.
Definition log_show_location_from_string (e : bytes) : L Z :=
  let t := parse_boolean e in if t <? 0 then mret t else set (fun l => l <| show_location := negb (t =? 0) |>) ;; mret 0.
(** A variable of the environment; [what] names it in the warning. *)
Definition from_env (o : origin) (value : option bytes) (what : bytes) (f : bytes -> L Z) : L unit :=
  match value with
  | None => mret tt
  | Some e =>
      r ← f e;
      if r <? 0 then log_metav 4 o (("Failed to parse " : bytes) ++ what ++ " '" ++ e ++ "'. Ignoring.") ;; mret tt else mret tt
  end.
Definition log_parse_environment (o : origin) (env : bytes -> option bytes) : L unit :=
  from_env o (env "SYSTEMD_LOG_TARGET") "log target" log_set_target_from_string ;;
  from_env o (env "SYSTEMD_LOG_LEVEL") "log level" log_set_max_level_from_string ;;
  from_env o (env "SYSTEMD_LOG_COLOR") "bool" log_show_color_from_string ;;
  from_env o (env "SYSTEMD_LOG_LOCATION") "bool" log_show_location_from_string.
Definition log_on_console : L bool :=
  l ← field id;
  mret (bool_decide (log_target l = LOG_TARGET_CONSOLE) || ((syslog_fd l <? 0) && (kmsg_fd l <? 0) && (journal_fd l <? 0))).

(** ** Nothing is lost *)

(** What every call leaves, where the process is not init. *)
Definition quiet (l l' : logger) : Prop :=
  log_target l' = log_target l /\ console_fd l' = console_fd l /\ log_sent l' = log_sent l.
Definition quiet_call {A} (m : L A) : Prop := forall l, 0 <= console_fd l -> quiet l (snd (m l)).
Lemma quiet_mret {A} (a : A) : quiet_call (mret a).
Proof. done. Qed.
Lemma quiet_field {A} (f : logger -> A) : quiet_call (field f).
Proof. done. Qed.
Lemma quiet_answer : quiet_call call.
Proof. done. Qed.
Lemma quiet_mbind {A B} (m : L A) (f : A -> L B) : quiet_call m -> (forall a, quiet_call (f a)) -> quiet_call (m ≫= f).
Proof.
  intros Hm Hf l Hc. unfold mbind, state_bind. destruct (Hm l Hc) as (H1 & H2 & H3). destruct (m l) as [a l']. cbn [snd] in *.
  destruct (Hf a l') as (H4 & H5 & H6); [by rewrite H2|]. split_and!; congruence.
Qed.
Lemma quiet_set f : (forall l, quiet l (f l)) -> quiet_call (set f).
Proof. intros H l _. apply H. Qed.
#[local] Ltac quiet := repeat first
  [ assumption | apply quiet_mbind; [|intros ?] | apply quiet_mret | apply quiet_field | apply quiet_answer
  | apply quiet_set; intros; split_and!; reflexivity
  | match goal with |- quiet_call (if ?b then _ else _) => destruct b end ].
Lemma quiet_open_kmsg : quiet_call log_open_kmsg.
Proof. unfold log_open_kmsg. quiet. Qed.
Lemma quiet_close_kmsg : quiet_call log_close_kmsg.
Proof. unfold log_close_kmsg. quiet. Qed.
Lemma quiet_close_journal : quiet_call log_close_journal.
Proof. unfold log_close_journal. quiet. Qed.
Lemma quiet_close_syslog : quiet_call log_close_syslog.
Proof. unfold log_close_syslog. quiet. Qed.
Lemma quiet_open_console : quiet_call log_open_console.
Proof. intros l Hl. unfold log_open_console, field, gets, mbind, state_bind. by rewrite (proj2 (Z.leb_le 0 (console_fd l))). Qed.
Lemma quiet_stream fuel rest : quiet_call (send_stream fuel rest).
Proof. revert rest. induction fuel as [|fuel IH]; intros rest; cbn [send_stream]; quiet. apply IH. Qed.

(** A write of a line: it is written to one place, or it is not. *)
Definition once (line : bytes) (l l' : logger) : Prop :=
  log_target l' = log_target l /\ console_fd l' = console_fd l /\ exists x, log_sent l' = log_sent l ++ [x] /\ s_line x = line.
Definition attempt (line : bytes) (m : L Z) : Prop :=
  forall l, 0 <= console_fd l -> (fst (m l) <= 0 /\ quiet l (snd (m l))) \/ (fst (m l) = 1 /\ once line l (snd (m l))).
Lemma quiet_trans l1 l2 l3 : quiet l1 l2 -> quiet l2 l3 -> quiet l1 l3.
Proof. intros (? & ? & ?) (? & ? & ?). split_and!; congruence. Qed.
Lemma once_quiet line l1 l2 l3 : once line l1 l2 -> quiet l2 l3 -> once line l1 l3.
Proof. intros (? & ? & x & ? & ?) (? & ? & ?). split_and!; [congruence..|]. exists x. split; congruence. Qed.
Lemma quiet_once line l1 l2 l3 : quiet l1 l2 -> once line l2 l3 -> once line l1 l3.
Proof. intros (? & ? & ?) (? & ? & x & ? & ?). split_and!; [congruence..|]. exists x. split; congruence. Qed.
Lemma attempt_ret line k : k <= 0 -> attempt line (mret k).
Proof. intros Hk l _. by left. Qed.
Lemma attempt_bind {A} line (m : L A) f : quiet_call m -> (forall a, attempt line (f a)) -> attempt line (m ≫= f).
Proof.
  intros Hm Hf l Hc. unfold mbind, state_bind. pose proof (Hm l Hc) as Hq. destruct (m l) as [a l']. cbn [snd] in Hq.
  assert (0 <= console_fd l') as Hc' by (by rewrite (proj1 (proj2 Hq))).
  destruct (Hf a l' Hc') as [[Hk H]|[Hk H]]; [left|right]; (split; [done|]); [by eapply quiet_trans|by eapply quiet_once].
Qed.
Lemma attempt_written s line d : attempt line (written s line d ;; mret 1).
Proof. intros l _. right. split; [done|]. split_and!; [done..|]. by exists (mk_sent s line d). Qed.
#[local] Ltac attempt := repeat first
  [ apply attempt_written | apply attempt_ret; lia | apply attempt_bind; [solve [quiet]|intros ?]
  | match goal with |- attempt _ (if ?b then _ else _) => destruct b eqn:? end ].
Lemma attempt_journal level o line : attempt line (write_to_journal level o line).
Proof. unfold write_to_journal. attempt. Qed.
Lemma attempt_kmsg level line : attempt line (write_to_kmsg level line).
Proof. unfold write_to_kmsg. attempt. Qed.
Lemma attempt_syslog level line : attempt line (write_to_syslog level line).
Proof.
  unfold write_to_syslog. attempt. destruct header_time as [t|]; [|apply attempt_ret; unfold EINVAL; lia].
  apply attempt_bind; [quiet|intros stream]. apply attempt_bind; [destruct stream; [apply quiet_stream|quiet]|intros r]. attempt.
Qed.
Hypothesis Hpid : pid <> 1.
Lemma attempt_console level o line : attempt line (write_to_console level o line).
Proof using Hpid.
  unfold write_to_console. attempt. exfalso. rewrite (proj2 (Z.eqb_neq pid 1)) in * by done. by rewrite andb_false_r in *.
Qed.
Lemma console_done level o line l : 0 <= console_fd l -> fst (write_to_console level o line l) <> 0.
Proof using Hpid.
  intros Hc. unfold write_to_console, field, gets, call, written, set, modify, mbind, state_bind, mret, state_ret.
  rewrite (proj2 (Z.ltb_ge (console_fd l) 0)) by done. destruct (Z.ltb_spec (answer (calls l)) 0); [|done].
  rewrite (proj2 (Z.eqb_neq pid 1)) by done. rewrite andb_false_r. simpl. lia.
Qed.

(** A pair of the last result and the count, after some attempts. *)
Definition tried (line : bytes) (l : logger) (p : Z * Z) (l' : logger) : Prop :=
  (p.1 <= 0 /\ p.2 = 0 /\ quiet l l') \/ (p.1 = 1 /\ p.2 = 1 /\ once line l l').
Lemma tried_stage line l (p : Z * Z) l1 (wanted : bool) (m : L Z) (after : Z -> L unit) :
  0 <= console_fd l -> tried line l p l1 -> attempt line m -> (forall k, quiet_call (after k)) -> (wanted = true -> p.1 <= 0) ->
  tried line l (fst (stage wanted m after p l1)) (snd (stage wanted m after p l1)).
Proof.
  intros Hc Ht Hm Ha Hw. unfold stage. destruct wanted; [|done]. specialize (Hw eq_refl). unfold mbind, state_bind.
  destruct Ht as [(Hk & Hr & Hq)|(Hk & _)]; [|lia]. assert (0 <= console_fd l1) as Hc1 by (by rewrite (proj1 (proj2 Hq))).
  pose proof (Hm l1 Hc1) as H. destruct (m l1) as [k l2]. cbn [fst snd] in H.
  assert (0 <= console_fd l2) as Hc2 by (destruct H as [[_ (_ & H & _)]|[_ (_ & H & _)]]; congruence).
  pose proof (Ha k l2 Hc2) as Hq2. destruct (after k l2) as [? l3]. cbn [snd] in Hq2. unfold tried. cbn [fst snd]. rewrite Hr.
  destruct H as [[Hk' H]|[-> H]].
  - left. rewrite (proj2 (Z.ltb_ge 0 k)) by done. split_and!; [done..|]. eapply quiet_trans; [done|]. by eapply quiet_trans.
  - right. split_and!; [done..|]. eapply quiet_once; [done|]. by eapply once_quiet.
Qed.
Lemma quiet_instead close k : quiet_call close -> quiet_call (to_kmsg_instead close k).
Proof. intros H. pose proof quiet_open_kmsg. unfold to_kmsg_instead. quiet. Qed.
Lemma quiet_console_instead k : quiet_call (to_console_instead k).
Proof. pose proof quiet_open_console. pose proof quiet_close_kmsg. unfold to_console_instead. quiet. Qed.
(** A line is written to one place, unless the console fails too. *)
Lemma dispatch_line_once level o line l :
  0 <= console_fd l ->
  let p := fst (dispatch_line level o line l) in
  (p.1 < 0 /\ quiet l (snd (dispatch_line level o line l))) \/
  (0 < p.1 /\ 0 <= p.2 /\ once line l (snd (dispatch_line level o line l))).
Proof using Hpid.
  intros Hc. set (t := log_target l).
  assert (tried line l (0, 0) l) as H0 by (by left).
  pose proof (tried_stage line l _ l (to_journal t) _ _ Hc H0 (attempt_journal level o line)
    (fun k => quiet_instead _ k quiet_close_journal) (fun _ => Z.le_refl 0)) as H1.
  assert (to_syslog t = true -> (fst (stage (to_journal t) (write_to_journal level o line) (to_kmsg_instead log_close_journal) (0, 0) l)).1 <= 0) as Hs.
  { intros Hs. by destruct t. }
  destruct (dispatch_line level o line l) as [p l'] eqn:E. unfold dispatch_line, mbind, state_bind, field, gets in E. fold t in E.
  cbn [fst snd]. destruct (stage (to_journal t) _ _ (0, 0) l) as [p1 l1]. cbn [fst snd] in H1, Hs.
  pose proof (tried_stage line l _ l1 (to_syslog t) _ _ Hc H1 (attempt_syslog level line)
    (fun k => quiet_instead _ k quiet_close_syslog) Hs) as H2.
  destruct (stage (to_syslog t) _ _ p1 l1) as [p2 l2]. cbn [fst snd] in H2.
  assert (((p2.1 <=? 0) && to_kmsg t) = true -> p2.1 <= 0) as Hk by (intros [Hk _]%andb_true_iff; by apply Z.leb_le).
  pose proof (tried_stage line l _ l2 ((p2.1 <=? 0) && to_kmsg t) _ _ Hc H2 (attempt_kmsg level line) quiet_console_instead Hk) as H3.
  destruct (stage (_ && _) _ _ p2 l2) as [p3 l3]. cbn [fst snd] in H3.
  destruct H3 as [(Hp & Hr & Hq)|(Hp & Hr & Ho)].
  - rewrite (proj2 (Z.leb_le (p3.1) 0)) in E by done. assert (0 <= console_fd l3) as Hc3 by (by rewrite (proj1 (proj2 Hq))).
    pose proof (attempt_console level o line l3 Hc3) as H4. pose proof (console_done level o line l3 Hc3) as Hd.
    destruct (write_to_console level o line l3) as [k l4]. cbn [fst snd] in *. injection E as <- <-.
    destruct H4 as [[Hk4 H4]|[-> H4]]; [left|right]; cbn [fst snd].
    + split; [lia|]. by eapply quiet_trans.
    + split_and!; [lia|lia|]. by eapply quiet_once.
  - rewrite (proj2 (Z.leb_gt (p3.1) 0)) in E by lia. injection E as <- <-. right. split_and!; [lia|lia|done].
Qed.

(** The pieces of a text between its line breaks, and those with text. *)
Fixpoint pieces (s : bytes) : list bytes :=
  match s with
  | [] => [[]]
  | c :: s' =>
      if one_of NEWLINE c then [] :: pieces s'
      else match pieces s' with p :: ps => (c :: p) :: ps | [] => [[c]] end
  end.
Definition message_lines (s : bytes) : list bytes := filter (fun p => p <> []) (pieces s).
Lemma message_lines_skip s : message_lines (skip_set NEWLINE s) = message_lines s.
Proof.
  induction s as [|c s IH]; [done|]. cbn [skip_set]. destruct (one_of NEWLINE c) eqn:E; [|done]. rewrite IH.
  unfold message_lines. cbn [pieces]. rewrite E, filter_cons, decide_False; [done|]. by intros [].
Qed.
Lemma pieces_until s : let '(line, rest) := until_set NEWLINE s in
  pieces s = line :: match rest with [] => [] | _ :: e => pieces e end.
Proof.
  induction s as [|c s IH]; [done|]. cbn [until_set pieces]. destruct (one_of NEWLINE c); [done|].
  destruct (until_set NEWLINE s) as [line rest]. by rewrite IH.
Qed.
Lemma until_set_length s : let '(line, rest) := until_set NEWLINE s in length s = (length line + length rest)%nat.
Proof.
  induction s as [|c s IH]; [done|]. cbn [until_set]. destruct (one_of NEWLINE c); [done|].
  destruct (until_set NEWLINE s) as [line rest]. simpl. by rewrite IH.
Qed.
Lemma dispatch_loop_exact fuel level o buffer r l :
  (length buffer < fuel)%nat -> 0 <= console_fd l -> 0 <= r ->
  let res := fst (dispatch_loop fuel level o buffer r l) in
  exists new, log_sent (snd (dispatch_loop fuel level o buffer r l)) = log_sent l ++ new /\
    (s_line <$> new) `prefix_of` message_lines buffer /\ (0 <= res -> s_line <$> new = message_lines buffer).
Proof using Hpid.
  revert buffer r l. induction fuel as [|fuel IH]; intros buffer r l Hf Hc Hr; [lia|]. cbn [dispatch_loop].
  rewrite <- (message_lines_skip buffer). pose proof (skip_set_head NEWLINE buffer) as Hh.
  assert (length (skip_set NEWLINE buffer) <= length buffer)%nat as Hl by (apply suffix_length, skip_set_suffix).
  destruct (skip_set NEWLINE buffer) as [|c s] eqn:E.
  { exists []. rewrite app_nil_r. split; [done|]. split; [apply prefix_nil|done]. }
  pose proof (pieces_until (c :: s)) as Hp. pose proof (until_set_length (c :: s)) as Hlen.
  assert (fst (until_set NEWLINE (c :: s)) <> []) as Hne by (cbn [until_set]; rewrite Hh; by destruct (until_set NEWLINE s)).
  destruct (until_set NEWLINE (c :: s)) as [line rest]. cbn [fst] in Hne.
  pose proof (dispatch_line_once level o line l Hc) as Hd. unfold mbind, state_bind.
  destruct (dispatch_line level o line l) as [[k n] l']. cbn [fst snd] in Hd.
  assert (message_lines (c :: s) = line :: match rest with [] => [] | _ :: e => message_lines e end) as ->.
  { unfold message_lines. rewrite Hp, filter_cons, decide_True by done. by destruct rest. }
  destruct Hd as [[Hk (_ & _ & Hq)]|(Hk & Hn & _ & Hc' & x & Hx & Hxl)].
  - rewrite (proj2 (Z.ltb_lt k 0)) by done. exists []. rewrite app_nil_r. split; [done|]. split; [apply prefix_nil|]. cbn [fst mret state_ret]. lia.
  - rewrite (proj2 (Z.ltb_ge k 0)) by lia. destruct rest as [|d e].
    + exists [x]. split; [done|]. simpl. rewrite Hxl. done.
    + destruct (IH e (r + n) l') as (new & H1 & H2 & H3); [simpl in *; lia|by rewrite Hc'|lia|].
      exists (x :: new). rewrite H1, Hx, <- app_assoc. split; [done|]. simpl. rewrite Hxl. split; [by apply prefix_cons|].
      intros Hres. f_equal. by apply H3.
Qed.

(** A message is never lost between the places of the log: whatever the
    sockets and files give, each line of it that is not empty is written once
    to one of them, in order, as the places of the target that fail give way
    to the next and at last to the console; only when the console fails too the
    rest of the message is given up, and then the error is returned. *)
Theorem log_lines_written level o buffer l :
  0 <= console_fd l -> log_target l <> LOG_TARGET_NULL ->
  exists new, log_sent (snd (log_dispatch level o buffer l)) = log_sent l ++ new /\
    (s_line <$> new) `prefix_of` message_lines buffer /\
    (0 <= fst (log_dispatch level o buffer l) -> s_line <$> new = message_lines buffer).
Proof using Hpid.
  intros Hc Ht. unfold log_dispatch, mbind, state_bind, field, gets. rewrite bool_decide_false by done.
  apply dispatch_loop_exact; [lia|done|lia].
Qed.
End log.

(** The journal fails for the first line, then there is only the kernel's log,
    which fails for the second one, and the console. *)
Definition log_example : logger := log_start <| log_target := LOG_TARGET_AUTO |> <| journal_fd := 5 |>.
Definition log_answers (n : nat) : Z := match n with O => -32 | 1%nat => 6 | 2%nat => 10 | 3%nat => -5 | _ => 10 end.
Definition log_text : bytes := "one" ++ [newline; newline] ++ "two" ++ [newline].
Lemma log_lines_written_witness :
  let run := log_dispatch log_answers 7 "udevd" None 3 (mk_origin None 0 None None) log_text log_example in
  (exists new, log_sent (snd run) = log_sent log_example ++ new /\ s_line <$> new = ["one" : bytes; "two" : bytes]) /\
  s_sink <$> log_sent (snd run) = [Kmsg; Console].
Proof.
  intros run. split; [|by vm_compute].
  destruct (log_lines_written log_answers 7 "udevd" None ltac:(done) 3 (mk_origin None 0 None None) log_text log_example) as (new & H1 & _ & H2);
    [done|done|]. exists new. split; [exact H1|]. rewrite H2; by vm_compute.
Defined.

(** The names of the targets and levels are read back. *)
Lemma log_names : Forall (fun row => log_target_to_string row.1 = Some row.2 /\ log_target_from_string row.2 = Some row.1) log_target_table /\
  Forall (fun row => log_level_to_string_alloc row.1 = Some row.2 /\ log_level_from_string row.2 = row.1) log_level_table.
Proof. split; repeat constructor. Qed.
(** Above the level that is set nothing is written. *)
Lemma log_level_suppressed answer pid name time level o buffer l :
  log_max_level l < LOG_PRI level -> log_dump_internal answer pid name time level o buffer l = (0, l).
Proof. intros H. unfold log_dump_internal, mbind, state_bind, field, gets. by rewrite (proj2 (Z.ltb_lt _ _)). Qed.
End Log.
