(* ===== verification/BuiltinLib.v ===== *)
(** src/core/builtin: the commands blkid, kmod and btrfs, which call a library
    or the kernel (a class each), the options of hwdb, and the table of the
    builtin commands (udev-builtin.c), with what is done with it when the
    daemon starts, ends, and looks for changes of configuration. *)

From Stdlib Require Import ZArith Lia Ascii.
From stdpp Require Import prelude gmap strings sorting.
From S2P Require Import Prelude Utils Strings Encode UdevList System Device DeviceNew Node Event HwdbLookup EventRun.
From S2P Require Import RuleParse BuiltinPath BuiltinNet BuiltinUsb BuiltinInput Getopt.
Import Mem Entries Strxcpyx Device DeviceNew Node Event Scan BuiltinPath Getopt.

#[local] Abbreviation tt := Datatypes.tt.
#[local] Notation "x ←! m ; f" := (obind m (fun x => f)) (at level 20, m at level 100, f at level 200, right associativity).

Definition EXIT_SUCCESS : Z := 0.
Definition EXIT_FAILURE : Z := 1.

(** * udev-builtin-blkid.c *)

Module BuiltinBlkid.

(** libblkid: a probe is changed by the calls.  [blkid_safe_string] and
    [blkid_encode_string] fill a buffer of a size that holds something
    already.  [sys_open] opens a node for reading, [probe_fstat] is fstat of
    the descriptor of the probe. *)
Class Blkid `{SY : System} := {
  probe : Type;
  blkid_new_probe : state world (option probe);
  blkid_probe_set_superblocks_flags : Z -> state (world * probe) unit;
  blkid_probe_filter_superblocks_usage : Z -> Z -> state (world * probe) unit;
  sys_open : bytes -> state world (option Z);
  blkid_probe_set_device : Z -> Z -> state (world * probe) Z;
  probe_fstat : state (world * probe) (option Z);
  blkid_probe_enable_partitions : bool -> state (world * probe) unit;
  blkid_probe_get_size : state (world * probe) Z;
  blkid_probe_is_wholedisk : state (world * probe) bool;
  blkid_probe_enable_superblocks : bool -> state (world * probe) unit;
  blkid_do_fullprobe : state (world * probe) Z;
  blkid_probe_lookup_value : bytes -> state (world * probe) Z;
  blkid_probe_set_partitions_flags : Z -> state (world * probe) unit;
  blkid_do_safeprobe : state (world * probe) Z;
  blkid_probe_numof_values : state (world * probe) Z;
  blkid_probe_get_value : Z -> state (world * probe) (option (bytes * bytes));
  blkid_safe_string : bytes -> nat -> bytes -> bytes;
  blkid_encode_string : bytes -> nat -> bytes -> bytes
}.

(** Constants of blkid.h. *)
Definition BLKID_SUBLKS_LABEL : Z := 2.
Definition BLKID_SUBLKS_UUID : Z := 8.
Definition BLKID_SUBLKS_TYPE : Z := 32.
Definition BLKID_SUBLKS_SECTYPE : Z := 64.
Definition BLKID_SUBLKS_USAGE : Z := 128.
Definition BLKID_SUBLKS_VERSION : Z := 256.
Definition BLKID_FLTR_NOTIN : Z := 1.
Definition BLKID_USAGE_RAID : Z := 4.
Definition BLKID_PARTS_ENTRY_DETAILS : Z := 4.

Section blkid.
Context `{SY : System} {PR : Programs} {BL : Blkid}.
#[local] Abbreviation L := (state (world * probe)).

Definition safe (value s : bytes) : bytes := blkid_safe_string value 256 s.
Definition encoded (value s : bytes) : bytes := blkid_encode_string value 256 s.
(** A name that stands for a text: as it is and encoded. *)
Definition text_properties (key value : bytes) : list (bytes * bytes) :=
  let s := safe value [] in [(key, s); (key ++ "_ENC", encoded value s)].
(** The properties for a value of the probe. *)
Definition value_properties (name value : bytes) : list (bytes * bytes) :=
  let named s := bool_decide (name = s) in
  if named "TYPE" then [("ID_FS_TYPE" : bytes, value)]
  else if named "USAGE" then [("ID_FS_USAGE" : bytes, value)]
  else if named "VERSION" then [("ID_FS_VERSION" : bytes, value)]
  else if named "UUID" then text_properties "ID_FS_UUID" value
  else if named "UUID_SUB" then text_properties "ID_FS_UUID_SUB" value
  else if named "LABEL" then text_properties "ID_FS_LABEL" value
  else if named "PTTYPE" then [("ID_PART_TABLE_TYPE" : bytes, value)]
  else if named "PTUUID" then [("ID_PART_TABLE_UUID" : bytes, value)]
  else if named "PART_ENTRY_NAME" then [("ID_PART_ENTRY_NAME" : bytes, encoded value [])]
  else if named "PART_ENTRY_TYPE" then [("ID_PART_ENTRY_TYPE" : bytes, encoded value [])]
  else if bool_decide (is_Some (startswith name "PART_ENTRY_")) then [(fst (strscpyl 256 ["ID_" : bytes; name]), value)]
  else if named "SYSTEM_ID" then [("ID_FS_SYSTEM_ID" : bytes, encoded value [])]
  else if named "PUBLISHER_ID" then [("ID_FS_PUBLISHER_ID" : bytes, encoded value [])]
  else if named "APPLICATION_ID" then [("ID_FS_APPLICATION_ID" : bytes, encoded value [])]
  else if named "BOOT_SYSTEM_ID" then [("ID_FS_BOOT_SYSTEM_ID" : bytes, encoded value [])]
  else [].
Definition print_property (name value : bytes) : E unit :=
  for_each (value_properties name value) (fun kv => udev_builtin_add_property kv.1 (Some kv.2)).

Definition probe_superblocks : L Z :=
  st ← probe_fstat;
  match st with
  | None => mret (-1)
  | Some st_mode =>
      blkid_probe_enable_partitions true ;;
      small ← (if S_ISCHR st_mode then mret false
               else size ← blkid_probe_get_size;
                    if 1024 * 1440 <? size then mret false else blkid_probe_is_wholedisk);
      let superblocks :=
        blkid_probe_set_partitions_flags BLKID_PARTS_ENTRY_DETAILS ;;
        blkid_probe_enable_superblocks true ;;
        blkid_do_safeprobe in
      if small : bool then
        blkid_probe_enable_superblocks false ;;
        rc ← blkid_do_fullprobe;
        if rc <? 0 then mret rc
        else
          table ← blkid_probe_lookup_value "PTTYPE";
          if table =? 0 then mret 0 else superblocks
      else superblocks
  end.

(** [offset] and [noraid]; [None] when [strtoull] gets NULL: the short option
    has no argument, and the one of the long option may be missing. *)
Definition blkid_long_options : list option_ := [mk_option "offset" optional_argument "o"; mk_option "noraid" no_argument "R"].
Fixpoint blkid_options (fs : list found) (offset : Z) (noraid : bool) : option (Z * bool) :=
  match fs with
  | [] => Some (offset, noraid)
  | (c, optarg) :: fs' =>
      if c ==c "o" then match optarg with None => None | Some a => blkid_options fs' (swrap 64 (fst (strtoul_prefix 0 a))) noraid end
      else if c ==c "R" then blkid_options fs' offset true
      else blkid_options fs' offset noraid
  end.

(** A call of the library on the probe of the command. *)
Definition lib {A} (m : L A) : state (world * udev_event * probe) A :=
  fun '(w, e, p) => let '(x, (w, p)) := m (w, p) in (x, (w, e, p)).
Definition on_event {A} (m : E A) : state (world * udev_event * probe) A := fun '(s, p) => let '(x, s) := m s in (x, (s, p)).
Definition with_probe {A} (p : probe) (m : state (world * udev_event * probe) A) : E A :=
  fun s => let '(x, (s, _)) := m (s, p) in (x, s).
(** [i] and the number of values left. *)
Fixpoint values_loop (n : nat) (i : Z) : state (world * udev_event * probe) unit :=
  match n with
  | O => mret tt
  | S n' =>
      v ← lib (blkid_probe_get_value i);
      match v with Some (name, data) => on_event (print_property name data) | None => mret tt end ;;
      values_loop n' (i + 1)
  end.
(** From opening the node on; the result is [err]. *)
Definition probe_device (devnode : bytes) (offset : Z) : state (world * udev_event * probe) Z :=
  fd ← on_event (ev_sys (sys_open devnode));
  match fd with
  | None => mret 0
  | Some fd =>
      err ← lib (blkid_probe_set_device fd offset);
      if err <? 0 then mret err
      else
        err ← lib probe_superblocks;
        if err <? 0 then mret err
        else
          nvals ← lib blkid_probe_numof_values;
          values_loop (Z.to_nat nvals) 0 ;;
          mret err
  end.
Definition superblocks_flags : Z :=
  fold_right Z.lor 0 [BLKID_SUBLKS_LABEL; BLKID_SUBLKS_UUID; BLKID_SUBLKS_TYPE; BLKID_SUBLKS_SECTYPE; BLKID_SUBLKS_USAGE; BLKID_SUBLKS_VERSION].
(** A device without a node gives open a NULL, which fails. *)
Definition builtin_blkid (argv : list bytes) : E (option Z) :=
  match blkid_options (fst (getopt_long "oR" blkid_long_options (drop 1 argv))) 0 false with
  | None => mret None
  | Some (offset, noraid) =>
      pr ← ev_sys blkid_new_probe;
      match pr with
      | None => mret (Some EXIT_FAILURE)
      | Some p =>
          let run :=
            lib (blkid_probe_set_superblocks_flags superblocks_flags) ;;
            (if noraid then lib (blkid_probe_filter_superblocks_usage BLKID_FLTR_NOTIN BLKID_USAGE_RAID) else mret tt) ;;
            devnode ← on_event (on 0 udev_device_get_devnode);
            match devnode with None => mret 0 | Some devnode => probe_device devnode offset end in
          err ← with_probe p run;
          mret (Some (if err <? 0 then EXIT_FAILURE else EXIT_SUCCESS))
      end
  end.

(** Whatever the disk says, the keys are those of file systems and
    partitions. *)
Lemma value_keys name value : Forall (fun kv => is_Some (startswith kv.1 "ID_FS_") \/ is_Some (startswith kv.1 "ID_PART_")) (value_properties name value).
Proof using.
  unfold value_properties, text_properties. cbv zeta.
  repeat (case_bool_decide as Hn; [try (repeat constructor; cbn; eauto; fail)|try clear Hn]); [|by constructor].
  constructor; [|done]. right. destruct Hn as [r ->%startswith_Some]. cbn [fst].
  rewrite strscpyl_truncates by lia. eexists. apply startswith_Some. cbn. reflexivity.
Qed.
End blkid.
End BuiltinBlkid.

(** * udev-builtin-kmod.c *)

Module BuiltinKmod.

(** libkmod.  The static [ctx] is whether there is a context. *)
Class Kmod `{SY : System} := {
  kmod_module : Type;
  kmod_new : state world bool;
  kmod_unref : state world unit;
  kmod_load_resources : state world unit;
  kmod_validate_resources : state world Z;
  kmod_module_new_from_lookup : bytes -> state world (Z * list kmod_module);
  kmod_module_probe_insert_module : kmod_module -> Z -> state world Z
}.
Definition KMOD_PROBE_APPLY_BLACKLIST : Z := 0x20000.
Definition KMOD_RESOURCES_OK : Z := 0.
Definition ENOMEM : Z := 12.

Section kmod.
Context `{SY : System} {KM : Kmod}.
Fixpoint insert_modules (l : list kmod_module) (err : Z) : state world Z :=
  match l with
  | [] => mret err
  | m :: l' => err ← kmod_module_probe_insert_module m KMOD_PROBE_APPLY_BLACKLIST; insert_modules l' err
  end.
Definition load_module (alias : bytes) : state world Z :=
  '(err, list) ← kmod_module_new_from_lookup alias;
  if err <? 0 then mret err else insert_modules list err.
(** All the modules that match are inserted, in their order, also after one
    that fails. *)
Lemma insert_modules_all l err w :
  snd (insert_modules l err w) = fold_left (fun w m => snd (kmod_module_probe_insert_module m KMOD_PROBE_APPLY_BLACKLIST w)) l w.
Proof using.
  revert err w. induction l as [|m l IH]; intros err w; [done|]. cbn [insert_modules fold_left]. rewrite bind_eq. apply IH.
Qed.
Definition builtin_kmod (ctx : bool) (argv : list bytes) : state world Z :=
  if negb ctx then mret 0
  else if (length argv <? 3)%nat || negb (str_eq (argv !! 1%nat) (Some ("load" : bytes))) then mret EXIT_FAILURE
  else for_each (drop 2 argv) (fun alias => load_module alias ;; mret tt) ;; mret EXIT_SUCCESS.
Definition builtin_kmod_init (ctx : bool) : state world (Z * bool) :=
  if ctx then mret (0, true)
  else
    ok ← kmod_new;
    if ok : bool then kmod_load_resources ;; mret (0, true) else mret (- ENOMEM, false).
Definition builtin_kmod_exit (ctx : bool) : state world bool := (if ctx then kmod_unref else mret tt) ;; mret false.
Definition builtin_kmod_validate (ctx : bool) : state world bool :=
  if negb ctx then mret false else r ← kmod_validate_resources; mret (negb (r =? KMOD_RESOURCES_OK)).
End kmod.
End BuiltinKmod.

(** * udev-builtin-btrfs.c *)

Module BuiltinBtrfs.

(** Opening for reading and writing, and BTRFS_IOC_DEVICES_READY. *)
Class Btrfs `{SY : System} := {
  sys_open_rdwr : bytes -> state world (option Z);
  btrfs_devices_ready : Z -> bytes -> state world Z
}.
Definition BTRFS_PATH_NAME_MAX : nat := Z.to_nat 4087.
Section btrfs.
Context `{SY : System} {PR : Programs} {BT : Btrfs}.
Definition builtin_btrfs (argv : list bytes) : E Z :=
  match argv with
  | [_; cmd; name] =>
      if negb (bool_decide (cmd = ("ready" : bytes))) then mret EXIT_FAILURE
      else
        fd ← ev_sys (sys_open_rdwr "/dev/btrfs-control");
        match fd with
        | None => mret EXIT_FAILURE
        | Some fd =>
            err ← ev_sys (btrfs_devices_ready fd (fst (strscpy (BTRFS_PATH_NAME_MAX + 1) name)));
            if err <? 0 then mret EXIT_FAILURE
            else udev_builtin_add_property "ID_BTRFS_READY" (Some (if err =? 0 then ("1" : bytes) else ("0" : bytes))) ;; mret EXIT_SUCCESS
        end
  | _ => mret EXIT_FAILURE
  end.
End btrfs.
End BuiltinBtrfs.

(** * udev-builtin.c *)

Module Builtins.
Import BuiltinHwdb BuiltinNet BuiltinUsb BuiltinInput BuiltinKeyboard BuiltinBlkid BuiltinKmod BuiltinBtrfs.

(** The time of the last change of a file. *)
Class FileTimes `{SY : System} := { sys_mtime : bytes -> state world (option Z) }.

Definition hwdb_long_options : list option_ :=
  [mk_option "filter" required_argument "f"; mk_option "device" required_argument "d";
   mk_option "subsystem" required_argument "s"; mk_option "lookup-prefix" required_argument "p"].
Fixpoint hwdb_options (fs : list found) (a : hwdb_args) : hwdb_args :=
  match fs with
  | [] => a
  | (c, optarg) :: fs' =>
      hwdb_options fs'
        (if c ==c "f" then mk_args optarg (a_device a) (a_subsystem a) (a_prefix a) (a_key a)
         else if c ==c "d" then mk_args (a_filter a) optarg (a_subsystem a) (a_prefix a) (a_key a)
         else if c ==c "s" then mk_args (a_filter a) (a_device a) optarg (a_prefix a) (a_key a)
         else if c ==c "p" then mk_args (a_filter a) (a_device a) (a_subsystem a) optarg (a_key a)
         else a)
  end.
Definition hwdb_args_of (argv : list bytes) : hwdb_args :=
  let '(fs, rest) := getopt_long "f:d:s:p:" hwdb_long_options (drop 1 argv) in
  hwdb_options fs (mk_args None None None None (head rest)).

Section table.
Context `{SY : System} {PR : Programs} {IF : Interfaces} {KE : Keys} {BL : Blkid} {KM : Kmod} {BT : Btrfs} {FT : FileTimes}.
(** [buf_rest] is what stands in a buffer of usb_id behind its text. *)
Context (HWDB_BIN : bytes) (buf_rest : nat -> byte).

(** The static variables: whether the commands are initialised, the open
    database with the time of its file, and the context of libkmod. *)
Record builtins := mk_builtins { initialized : bool; b_hwdb : option (HwdbLookup.udev_hwdb * Z); b_ctx : bool }.
Definition builtins_start : builtins := mk_builtins false None false.

(** lib/libudev-hwdb.c *)
Definition hwdb_open : state world (option (HwdbLookup.udev_hwdb * Z)) :=
  map ← sys_read_file HWDB_BIN;
  st ← sys_mtime HWDB_BIN;
  mret (match map, st with
        | Some map, Some t => (fun db => (db, t)) <$> HwdbLookup.udev_hwdb_new map
        | _, _ => None
        end).
Definition udev_hwdb_validate (hwdb : option (HwdbLookup.udev_hwdb * Z)) : state world bool :=
  match hwdb with
  | None => mret false
  | Some (_, t) => st ← sys_mtime HWDB_BIN; mret (match st with None => true | Some t' => negb (t =? t') end)
  end.
Definition builtin_hwdb_init (hwdb : option (HwdbLookup.udev_hwdb * Z)) : state world (Z * option (HwdbLookup.udev_hwdb * Z)) :=
  match hwdb with
  | Some _ => mret (0, hwdb)
  | None => h ← hwdb_open; mret (match h with None => - ENOMEM | Some _ => 0 end, h)
  end.

(** A command has an exit status; [None] where it leaves what C defines. *)
Definition status (r : option bool) : option Z := (fun ok : bool => if ok then EXIT_SUCCESS else EXIT_FAILURE) <$> r.
Definition builtin_main (fuel : nat) (b : builtins) (cmd : Z) (argv : list bytes) : E (option Z) :=
  if cmd =? 0 then builtin_blkid argv
  else if cmd =? 1 then r ← builtin_btrfs argv; mret (Some r)
  else if cmd =? 2 then r ← builtin_hwdb (fst <$> b_hwdb b) fuel (hwdb_args_of argv); mret (status r)
  else if cmd =? 3 then r ← builtin_input_id fuel; mret (status r)
  else if cmd =? 4 then r ← builtin_keyboard fuel; mret (status r)
  else if cmd =? 5 then r ← ev_sys (builtin_kmod (b_ctx b) argv); mret (Some r)
  else if cmd =? 6 then r ← builtin_net_id (fst <$> b_hwdb b) fuel; mret (status r)
  else if cmd =? 7 then r ← builtin_path_id fuel; mret (status r)
  else if cmd =? 8 then r ← builtin_usb_id fuel buf_rest; mret (status r)
  else mret None.
(** The command line is split like that of a program. *)
Definition builtin_call (fuel : nat) (b : builtins) (cmd : Z) (command : bytes) : E (option Z) :=
  builtin_main fuel b cmd (argv_of (fst (strscpy UTIL_PATH_SIZE command))).

Definition udev_builtin_name (cmd : Z) : option bytes := if cmd <? 0 then None else RuleParse.builtin_names !! Z.to_nat cmd.
Definition udev_builtin_init (b : builtins) : state world builtins :=
  if initialized b then mret b
  else
    '(_, h) ← builtin_hwdb_init (b_hwdb b);
    '(_, c) ← builtin_kmod_init (b_ctx b);
    mret (mk_builtins true h c).
Definition udev_builtin_exit (b : builtins) : state world builtins :=
  if negb (initialized b) then mret b
  else c ← builtin_kmod_exit (b_ctx b); mret (mk_builtins false None c).
Definition udev_builtin_validate (b : builtins) : state world bool :=
  h ← udev_hwdb_validate (b_hwdb b);
  if h : bool then mret true else builtin_kmod_validate (b_ctx b).

(** The number of a command is found again by its name. *)
Lemma builtin_lookup_name cmd name : udev_builtin_name cmd = Some name -> RuleParse.udev_builtin_lookup name = cmd.
Proof using.
  unfold udev_builtin_name. destruct (Z.ltb_spec cmd 0) as [|Hc]; [done|]. intros Hn.
  rewrite <-(Z2Nat.id cmd) by done. destruct (Z.to_nat cmd) as [|[|[|[|[|[|[|[|[|n]]]]]]]]]; [..|done].
  all: injection Hn as <-; by vm_compute.
Qed.
(** What was initialised is not initialised again. *)
Lemma builtin_init_once b w :
  let '(b1, w1) := udev_builtin_init b w in initialized b1 = true /\ udev_builtin_init b1 w1 = (b1, w1).
Proof using.
  destruct (udev_builtin_init b w) as [b1 w1] eqn:E. assert (initialized b1 = true) as Hi.
  { unfold udev_builtin_init, mbind, state_bind in E. destruct (initialized b) eqn:Hb; [by injection E as <- <-|].
    destruct (builtin_hwdb_init _ _) as [[? ?] ?], (builtin_kmod_init _ _) as [[? ?] ?]. by injection E as <- <-. }
  split; [done|]. unfold udev_builtin_init. by rewrite Hi.
Qed.
(** The database is looked at again when its file is gone or has another
    time, and only then; one that could not be opened at first is never looked
    for again. *)
Lemma hwdb_validate_exact hwdb w :
  (forall p, snd (sys_mtime p w) = w) ->
  exists r, udev_hwdb_validate hwdb w = (r, w) /\
    (r = true <-> exists db t, hwdb = Some (db, t) /\ fst (sys_mtime HWDB_BIN w) <> Some t).
Proof using.
  intros Hp. unfold udev_hwdb_validate. destruct hwdb as [[db t]|]; [|exists false; split; [done|]; split; [done|]; naive_solver].
  unfold mbind, state_bind. specialize (Hp HWDB_BIN). destruct (sys_mtime HWDB_BIN w) as [st w'] eqn:E. simpl in Hp. subst w'.
  eexists; split; [reflexivity|]. cbn [fst]. destruct st as [t'|]; [|split; [|done]; by exists db, t].
  destruct (Z.eqb_spec t t') as [->|Hne]; (split; [intros H; try discriminate H|]).
  - by intros (? & ? & [= <- <-] & ?).
  - exists db, t. split; [done|congruence].
  - done.
Qed.
End table.
End Builtins.
