(* ===== verification/HwdbCmd.v ===== *)
(** The command udevadm hwdb (src/udevadm/udevadm-hwdb.c): which files the
    database is built from, how the file is replaced, and the query; with
    [fopen_temporary] of shared/util.c. *)

From Stdlib Require Import ZArith Lia Ascii.
From stdpp Require Import prelude gmap strings sorting.
From S2P Require Import Prelude Strbuf UdevList System Device Node Event Hwdb HwdbLookup Hashmap HashmapProps ConfFiles BuiltinPath Getopt BuiltinLib.
Import Entries Device Event Hwdb Hashmap HashmapProps ConfFiles BuiltinPath Getopt Builtins.

#[local] Set Warnings "-register-all".
#[local] Abbreviation tt := Datatypes.tt.

Module HwdbCmd.

(** [mkostemp] makes a file whose name differs from the pattern in its last six
    characters, or gives an error. *)
Class TempFiles `{SY : System} := { mkostemp : bytes -> state world (Z + bytes) }.

Section cmd.
Context `{SY : System} {TF : TempFiles} {FT : FileTimes} {G : Glob} `{RP : RealPath} `{OD : OpenDir} {P : Type} `{StringPool P}.
Context (random : nat -> bytes) (HWDB_BIN : bytes) (conf_file_dirs : list bytes) (VERSION : bytes).

(** shared/util.c: the template is in the directory of the path. *)
Definition temp_pattern (path : bytes) : bytes :=
  let fn := basename path in
  take (length path - length fn) path ++ "."%char :: fn ++ "XXXXXX".
Definition fopen_temporary (path : bytes) : state world (Z + bytes) :=
  t ← mkostemp (temp_pattern path);
  mret (match t with inl e => inl (- e) | inr t => inr t end).

(** The new file takes the place of the old one when it was written. *)
Definition trie_store_file (x : hwtrie) (filename : bytes) : state world Z :=
  let image := trie_store (atoi VERSION) (fst x) (snd x) in
  f ← fopen_temporary filename;
  match f with
  | inl err => mret err
  | inr filename_tmp =>
      sys_chmod filename_tmp 0x124 ;;
      e ← sys_write filename_tmp image;
      if negb (e =? 0) then sys_unlink filename_tmp ;; mret (- e)
      else
        e ← sys_rename filename_tmp filename;
        if negb (e =? 0) then sys_unlink filename_tmp ;; mret (- e) else mret 0
  end.

(** A file that cannot be read is skipped. *)
Fixpoint import_files (files : list bytes) (x : hwtrie) : state world hwtrie :=
  match files with
  | [] => mret x
  | f :: files' => c ← sys_read_file f; import_files files' (match c with Some c => import_file c x | None => x end)
  end.
(** The trie of the files, with its strings complete. *)
Definition hwdb_trie (files : list bytes) : state world hwtrie :=
  x ← import_files files trie_new;
  mret (set_field strings pool_complete (fst x), snd x).

Definition hwdb_long : list option_ :=
  [mk_option "update" no_argument "u"; mk_option "test" required_argument "t";
   mk_option "root" required_argument "r"; mk_option "help" no_argument "h"].
Record hwdb_cmd := mk_cmd { c_update : bool; c_test : option bytes; c_root : bytes }.
(** The options, or the end with an exit code. *)
Fixpoint hwdb_cmd_loop (fs : list found) (c : hwdb_cmd) : hwdb_cmd + Z :=
  match fs with
  | [] => inl c
  | (o, optarg) :: fs' =>
      if o ==c "u" then hwdb_cmd_loop fs' (mk_cmd true (c_test c) (c_root c))
      else if o ==c "t" then hwdb_cmd_loop fs' (mk_cmd (c_update c) optarg (c_root c))
      else if o ==c "r" then hwdb_cmd_loop fs' (mk_cmd (c_update c) (c_test c) (default [] optarg))
      else if o ==c "h" then inr EXIT_SUCCESS
      else inr EXIT_FAILURE
  end.

(** The part for --update: whether the command goes on, and its code. *)
Definition update_database (files : Z + list bytes) (root : bytes) : state world (bool * Z) :=
  match files with
  | inl _ => mret (false, EXIT_FAILURE)
  | inr files =>
      x ← hwdb_trie files;
      let hwdb_bin := root ++ "/" ++ HWDB_BIN in
      path_create hwdb_bin 0x1ED ;;
      err ← trie_store_file x hwdb_bin;
      mret (true, if err <? 0 then EXIT_FAILURE else EXIT_SUCCESS)
  end.
Definition hwdb_line_of (e : entry) : bytes := e_name e ++ "=" ++ str_arg (e_value e).
(** The lines printed for --test; [None] where the lookup leaves the file. *)
Definition test_modalias (modalias : bytes) : state world (option (list bytes)) :=
  hwdb ← hwdb_open HWDB_BIN;
  mret (match hwdb with
        | None => Some []
        | Some (db, _) => (fun db => hwdb_line_of <$> HwdbLookup.properties_list db) <$>
                            HwdbLookup.udev_hwdb_get_properties_list_entry db modalias
        end).
(** The exit code and what was printed. *)
Definition adm_hwdb (heap : store bytes str) (argv : list bytes) : state world (option (Z * list bytes)) :=
  match hwdb_cmd_loop (fst (getopt_long "ut:r:h" hwdb_long argv)) (mk_cmd false None []) with
  | inr rc => mret (Some (rc, []))
  | inl c =>
      if negb (c_update c) && negb (bool_decide (is_Some (c_test c))) then mret (Some (EXIT_FAILURE, []))
      else
        match (if c_update c then fst <$> conf_files_list_strv random ".hwdb" (Some (c_root c)) conf_file_dirs heap else Some (inr [])) with
        | None => mret None
        | Some files =>
            '(go_on, rc) ← (if c_update c then update_database files (c_root c) else mret (true, EXIT_SUCCESS));
            if negb go_on then mret (Some (rc, []))
            else
              match c_test c with
              | None => mret (Some (rc, []))
              | Some modalias => lines ← test_modalias modalias; mret ((fun l => (rc, l)) <$> lines)
              end
        end
  end.

(** The image that is written is the one of [hwdb_update] for the files that
    can be read, in their order. *)
Lemma hwdb_trie_update files contents w :
  Forall2 (fun f c => forall w, sys_read_file f w = (c, w)) files contents ->
  exists x, hwdb_trie files w = (x, w) /\
    trie_store (atoi VERSION) (fst x) (snd x) = hwdb_update (atoi VERSION) (omap id contents).
Proof using.
  intros Hf. assert (forall x, import_files files x w = (fold_left (fun x f => import_file f x) (omap id contents) x, w)) as E.
  { induction Hf as [|f c files contents Hc _ IH]; intros x; [done|].
    cbn [import_files]. rewrite bind_eq, Hc. cbn [fst snd]. rewrite IH. by destruct c. }
  unfold hwdb_trie, hwdb_update. eexists. rewrite bind_eq, E. split; [reflexivity|]. cbn [fst snd].
  by destruct (fold_left _ _ trie_new).
Qed.

(** What the documentation of the calls says of the contents of files. *)
Class FileLaws : Prop := {
  mkostemp_ok pat t w w' : mkostemp pat w = (inr t, w') -> length t = length pat /\ fst (sys_read_file t w') = Some [] /\
    forall q, q <> t -> fst (sys_read_file q w') = fst (sys_read_file q w);
  mkostemp_error pat e w w' : mkostemp pat w = (inl e, w') -> 0 < e /\ forall q, fst (sys_read_file q w') = fst (sys_read_file q w);
  chmod_ok p mode w q : fst (sys_read_file q (snd (sys_chmod p mode w))) = fst (sys_read_file q w);
  write_ok p s w : let '(e, w') := sys_write p s w in
    0 <= e /\ (forall q, q <> p -> fst (sys_read_file q w') = fst (sys_read_file q w)) /\
    (e = 0 -> fst (sys_read_file p w') = Some (default [] (fst (sys_read_file p w)) ++ s));
  unlink_ok p w q : q <> p -> fst (sys_read_file q (snd (sys_unlink p w))) = fst (sys_read_file q w);
  rename_ok p q w : let '(e, w') := sys_rename p q w in
    0 <= e /\ fst (sys_read_file q w') = if e =? 0 then fst (sys_read_file p w) else fst (sys_read_file q w)
}.

Lemma temp_pattern_longer path : (length path < length (temp_pattern path))%nat.
Proof using. unfold temp_pattern. rewrite length_app, length_take. cbn [length]. rewrite length_app. simpl. lia. Qed.
(** The database is replaced as a whole: it is the new one when the command
    reports success, and the old one when it reports an error. *)
Lemma database_replaced `{FL : FileLaws} x filename w :
  let '(r, w') := trie_store_file x filename w in
  r <= 0 /\ fst (sys_read_file filename w') =
    if r =? 0 then Some (trie_store (atoi VERSION) (fst x) (snd x)) else fst (sys_read_file filename w).
Proof using.
  unfold trie_store_file, fopen_temporary, mbind, state_bind, mret, state_ret.
  destruct (mkostemp (temp_pattern filename) w) as [[e|t] w1] eqn:Et.
  - destruct (mkostemp_error _ _ _ _ Et) as [He Hr]. rewrite (proj2 (Z.eqb_neq (- e) 0)) by lia. split; [lia|apply Hr].
  - destruct (mkostemp_ok _ _ _ _ Et) as (Hl & Hn & Hr). pose proof (temp_pattern_longer filename) as Hp.
    assert (filename <> t) as Hne by (intros ->; lia).
    pose proof (chmod_ok t 0x124 w1) as Hc. destruct (sys_chmod t 0x124 w1) as [u w2]. cbn [snd] in Hc.
    set (image := trie_store (atoi VERSION) (fst x) (snd x)).
    pose proof (write_ok t image w2) as Hw. destruct (sys_write t image w2) as [e w3]. destruct Hw as (He & Ho & Hs).
    assert (fst (sys_read_file filename w3) = fst (sys_read_file filename w)) as H3.
    { rewrite Ho by done. by rewrite Hc, Hr. }
    destruct (Z.eqb_spec e 0) as [->|He0]; cbn [negb].
    + pose proof (rename_ok t filename w3) as Hm. destruct (sys_rename t filename w3) as [e w4]. destruct Hm as [He' Hm].
      destruct (Z.eqb_spec e 0) as [->|He0']; cbn [negb].
      * split; [done|]. rewrite Z.eqb_refl, Hm, Hs, Hc, Hn by done. done.
      * pose proof (unlink_ok t w4 filename Hne) as Hu. destruct (sys_unlink t w4) as [u' w5]. cbn [snd] in Hu.
        rewrite (proj2 (Z.eqb_neq (- e) 0)) by lia. split; [lia|]. by rewrite Hu, Hm.
    + pose proof (unlink_ok t w3 filename Hne) as Hu. destruct (sys_unlink t w3) as [u' w4]. cbn [snd] in Hu.
      rewrite (proj2 (Z.eqb_neq (- e) 0)) by lia. split; [lia|]. by rewrite Hu.
Qed.
End cmd.

(** ** An example *)

#[local] Instance example_temp : @TempFiles file_system := {| mkostemp := fun pat w =>
  let t := take (length pat - 6) pat ++ "abcdef" in
  if (length pat <? 6)%nat then (inl Strbuf.EINVAL, w)
  else match w !! t with Some _ => (inl EEXIST, w) | None => (inr t, <[t := []]> w) end |}.
Lemma example_laws : @FileLaws file_system example_temp.
Proof.
  constructor; simpl.
  - intros pat t w w'. destruct (Nat.ltb_spec (length pat) 6); [done|]. destruct (w !! _) eqn:E; [done|]. intros [= <- <-].
    split_and!; [rewrite length_app, length_take; simpl; lia|by rewrite lookup_insert_eq|]. intros q Hq. by rewrite lookup_insert_ne.
  - intros pat e w w'. destruct (_ <? _)%nat; [by intros [= <- <-]|]. destruct (w !! _); [|done]. by intros [= <- <-].
  - done.
  - intros p s w. split_and!; [done| |by rewrite lookup_insert_eq]. intros q Hq. by rewrite lookup_insert_ne.
  - intros p w q Hq. by rewrite lookup_delete_ne.
  - intros p q w. destruct (w !! p) eqn:E; (split; [done|]); [by rewrite lookup_insert_eq|done].
Qed.

Definition hwdb_dir : OpenDir := fun d =>
  if bool_decide (d = ("/etc/udev/hwdb.d" : bytes)) then inr ([mk_dirent ("20-usb.hwdb" : bytes) DT_REG], 0) else inl ENOENT.
#[local] Instance example_times : @FileTimes file_system := {| sys_mtime := fun p w => ((fun _ => 0) <$> w !! p, w) |}.
Example hwdb_updated :
  let '(r, w) := adm_hwdb (SY := file_system) (RP := fun p => inr p) (OD := hwdb_dir) (P := Strbuf.strbuf) (G := HwdbLookup.star_glob)
    draws "/etc/udev/hwdb.bin" ["/etc/udev/hwdb.d" : bytes] "208" empty_store
    ["--update" : bytes] {[ ("/etc/udev/hwdb.d/20-usb.hwdb" : bytes) := HwdbLookup.hwdb_text ]} in
  r = Some (0, []) /\ w !! ("//etc/udev/hwdb.bin" : bytes) = Some HwdbLookup.hwdb_file.
Proof. vm_compute. by split. Qed.
End HwdbCmd.
