(* ===== verification/UtilIo.v ===== *)
(** The calls of shared/util.c that repeat a system call until its work is
    done, its growing arrays and its bisection, and the times of
    shared/time-util.c. *)

From Stdlib Require Import ZArith Lia Ascii.
From stdpp Require Import prelude gmap strings.
From S2P Require Import Prelude System Node ConfFiles Util.
Import Node ConfFiles Util.

Module UtilIo.

Definition EINTR : Z := 4.
Definition EIO : Z := 5.
Definition EAGAIN : Z := 11.

(** * Reading and writing everything

    The system is what it answers to the calls, one after the other: a read
    gives bytes (none at the end of the file) or an error, a write the number
    of bytes taken or an error.  The loops end with the answers; the result is
    [None] when the call that is left has no answer yet.  Waiting for the
    descriptor has no result that is used. *)

(** An error after which the call is made again. *)
Definition again (do_poll : bool) (e : Z) : bool := (e =? EINTR) || ((e =? EAGAIN) && do_poll).
(** The return value for a call that ended the loop with [k]. *)
Definition ended (n : nat) (k : Z) : Z := if (0 <? n)%nat then Z.of_nat n else k.

Fixpoint loop_read (reads : list (Z + bytes)) (nbytes : nat) (do_poll : bool) (buf : bytes) : option Z * bytes :=
  if (nbytes =? 0)%nat then (Some (Z.of_nat (length buf)), buf)
  else
    match reads with
    | [] => (None, buf)
    | inl e :: reads' => if again do_poll e then loop_read reads' nbytes do_poll buf else (Some (ended (length buf) (- e)), buf)
    | inr [] :: _ => (Some (ended (length buf) 0), buf)
    | inr data :: reads' =>
        let data := take nbytes data in
        loop_read reads' (nbytes - length data) do_poll (buf ++ data)
    end.
(** [sent] is what was written before. *)
Fixpoint loop_write (writes : list (Z + nat)) (buf : bytes) (do_poll : bool) (sent : bytes) : option Z * bytes :=
  match buf with
  | [] => (Some (Z.of_nat (length sent)), sent)
  | _ =>
      match writes with
      | [] => (None, sent)
      | inl e :: writes' => if again do_poll e then loop_write writes' buf do_poll sent else (Some (ended (length sent) (- e)), sent)
      | inr O :: _ => (Some (ended (length sent) 0), sent)
      | inr k :: writes' => loop_write writes' (drop k buf) do_poll (sent ++ take k buf)
      end
  end.

(** A result tells the number of bytes, or is an error when there are none. *)
Definition tells (r : Z) (done : bytes) : Prop := if bool_decide (done = []) then r <= 0 else r = Z.of_nat (length done).
Lemma ended_exact (done : bytes) r :
  (done = [] -> r <= 0) -> (done <> [] -> r = Z.of_nat (length done)) -> tells r (done ++ []).
Proof using. intros H1 H2. rewrite app_nil_r. unfold tells. case_bool_decide; auto. Qed.
(** What was written is a part of the buffer from its start, and the result
    tells how long it is: an error is reported only when nothing was written. *)
Lemma loop_write_exact writes buf do_poll sent :
  (forall e, inl e ∈ writes -> 0 < e) ->
  exists new, new `prefix_of` buf /\ snd (loop_write writes buf do_poll sent) = sent ++ new /\
    match fst (loop_write writes buf do_poll sent) with Some r => tells r (sent ++ new) | None => True end.
Proof using.
  revert buf sent. induction writes as [|x writes IH]; intros buf sent He.
  - exists []. split; [apply prefix_nil|]. destruct buf; (split; [by rewrite app_nil_r|]); [|done]. apply ended_exact; [by intros ->|done].
  - assert (forall e, inl e ∈ writes -> 0 < e) as He' by (intros e Hin; apply He; by right).
    destruct buf as [|c buf].
    + exists []. split; [done|]. split; [by rewrite app_nil_r|]. apply ended_exact; [by intros ->|done].
    + cbn [loop_write]. destruct x as [e|[|k]].
      * destruct (again do_poll e); [by apply IH|]. exists []. split; [apply prefix_nil|]. split; [by rewrite app_nil_r|].
        specialize (He e ltac:(left)). apply ended_exact; intros Hs; unfold ended; [subst sent; simpl; lia|by destruct sent].
      * exists []. split; [apply prefix_nil|]. split; [by rewrite app_nil_r|].
        apply ended_exact; intros Hs; unfold ended; [by subst sent|by destruct sent].
      * destruct (IH (drop (S k) (c :: buf)) (sent ++ take (S k) (c :: buf)) He') as (new & [x Hx] & Hs & Hr).
        exists (take (S k) (c :: buf) ++ new). split; [|by rewrite app_assoc].
        exists x. rewrite <- app_assoc, <- Hx. by rewrite take_drop.
Qed.
(** Not more than the buffer holds is read, and nothing is lost: what stands in
    it are the first bytes of what the reads gave. *)
Definition read_data (r : Z + bytes) : bytes := match r with inl _ => [] | inr data => data end.
Lemma loop_read_exact reads nbytes do_poll buf :
  (forall e, inl e ∈ reads -> 0 < e) ->
  exists new, new `prefix_of` mjoin (read_data <$> reads) /\ (length new <= nbytes)%nat /\
    snd (loop_read reads nbytes do_poll buf) = buf ++ new /\
    match fst (loop_read reads nbytes do_poll buf) with Some r => tells r (buf ++ new) | None => True end.
Proof using.
  revert nbytes buf. induction reads as [|x reads IH]; intros nbytes buf He; cbn [loop_read].
  - exists []. split_and!; [apply prefix_nil|simpl; lia|..]; destruct (Nat.eqb_spec nbytes 0); rewrite ?app_nil_r; try done.
    simpl. rewrite <- (app_nil_r buf) at 2. apply ended_exact; [by intros ->|done].
  - assert (forall e, inl e ∈ reads -> 0 < e) as He' by (intros e Hin; apply He; by right).
    destruct (Nat.eqb_spec nbytes 0) as [->|Hn].
    { exists []. split_and!; [apply prefix_nil|simpl; lia|by rewrite app_nil_r|]. apply ended_exact; [by intros ->|done]. }
    destruct x as [e|[|c data]].
    + destruct (again do_poll e); [by apply IH|]. exists []. split_and!; [apply prefix_nil|simpl; lia|by rewrite app_nil_r|].
      specialize (He e ltac:(left)). apply ended_exact; intros Hs; unfold ended; [subst buf; simpl; lia|by destruct buf].
    + exists []. split_and!; [apply prefix_nil|simpl; lia|by rewrite app_nil_r|].
      apply ended_exact; intros Hs; unfold ended; [by subst buf|by destruct buf].
    + set (d := take nbytes (c :: data)). destruct (IH (nbytes - length d)%nat (buf ++ d) He') as (new & Hp & Hl & Hs & Hr).
      assert (length d <= nbytes)%nat by (subst d; rewrite length_take; lia).
      exists (d ++ new). rewrite app_assoc. split_and!; [|rewrite length_app; lia|done|done].
      change (mjoin _) with ((c :: data) ++ mjoin (read_data <$> reads)).
      destruct (decide (length (c :: data) <= nbytes)%nat) as [Hle|Hgt].
      * subst d. rewrite take_ge by done. by apply prefix_app.
      * assert (new = []) as -> by (apply nil_length_inv; subst d; rewrite length_take in Hl; lia).
        rewrite app_nil_r. apply prefix_app_r. subst d. exists (drop nbytes (c :: data)). by rewrite take_drop.
Qed.

(** One round of [flush_fd]: the answer of poll, and that of the read when
    there was something. *)
Inductive flush_step := PollError (e : Z) | PollNone | Ready (r : Z + bytes).
Fixpoint flush_fd (steps : list flush_step) : option Z :=
  match steps with
  | [] => None
  | PollError e :: steps' => if e =? EINTR then flush_fd steps' else Some (- e)
  | PollNone :: _ => Some 0
  | Ready (inl e) :: steps' => if e =? EINTR then flush_fd steps' else if e =? EAGAIN then Some 0 else Some (- e)
  | Ready (inr []) :: _ => Some 0
  | Ready (inr _) :: steps' => flush_fd steps'
  end.

(** * Random bytes *)

Definition ENOSYS : Z := 38.
(** [fd] is what opening the device gives. *)
Definition dev_urandom (fd : Z + unit) (reads : list (Z + bytes)) (n : nat) : option Z * bytes :=
  match fd with
  | inl e => (Some (if e =? ENOENT then - ENOSYS else - e), [])
  | inr _ =>
      let '(k, buf) := loop_read reads n true [] in
      ((fun k => if k <? 0 then k else if k =? Z.of_nat n then 0 else - EIO) <$> k, buf)
  end.
(** [rand] gives the numbers of the generator, seeded when it is first used. *)
Definition random_bytes (rand : nat -> Z) (fd : Z + unit) (reads : list (Z + bytes)) (n : nat) : option bytes :=
  let '(r, buf) := dev_urandom fd reads n in
  (fun r => if 0 <=? r then buf else (fun i => chr (rand i)) <$> seq 0 n) <$> r.
(** The buffer is always filled. *)
Lemma random_bytes_length rand fd reads n buf :
  (forall e, fd = inl e -> 0 < e) -> (forall e, inl e ∈ reads -> 0 < e) ->
  random_bytes rand fd reads n = Some buf -> length buf = n.
Proof using.
  intros Hfd Hreads. unfold random_bytes. destruct (dev_urandom fd reads n) as [[r|] b] eqn:E; [|done]. intros [= <-].
  destruct (Z.leb_spec 0 r) as [Hr|Hr]; [|by rewrite length_fmap, length_seq].
  unfold dev_urandom in E. destruct fd as [e|u].
  - specialize (Hfd e eq_refl). injection E as <- _. unfold ENOSYS in Hr. destruct (e =? ENOENT); lia.
  - destruct (loop_read_exact reads n true [] Hreads) as (new & _ & _ & Hs & Ht). destruct (loop_read reads n true []) as [[k|] buf]; [|done].
    cbn [fst snd app] in Hs, Ht. subst buf. injection E as <- <-. unfold tells in Ht. unfold EIO in Hr.
    destruct (Z.ltb_spec k 0); [lia|]. destruct (Z.eqb_spec k (Z.of_nat n)); [|lia]. case_bool_decide as Hn; [subst new; simpl; lia|lia].
Qed.

(** * Descriptors and files *)

Definition O_NONBLOCK : Z := 0x800.
Definition FD_CLOEXEC : Z := 1.
Definition set_bits (flags mask : Z) (on : bool) : Z := if on then Z.lor flags mask else Z.land flags (Z.lnot mask).
(** The flags as they are, or an error; the result and the flags that are to
    be set, if they change.  [set] is the error of setting them, or 0. *)
Definition fd_flags (mask : Z) (get : Z + Z) (set : Z) (on : bool) : Z * option Z :=
  match get with
  | inl e => (- e, None)
  | inr flags =>
      let nflags := set_bits flags mask on in
      if nflags =? flags then (0, None) else (if set =? 0 then 0 else - set, Some nflags)
  end.
Definition fd_nonblock : Z + Z -> Z -> bool -> Z * option Z := fd_flags O_NONBLOCK.
Definition fd_cloexec : Z + Z -> Z -> bool -> Z * option Z := fd_flags FD_CLOEXEC.

(** [closed] is the error of close, or 0. *)
Definition close_nointr (closed : Z) : Z := if (closed =? 0) || (closed =? EINTR) then 0 else - closed.
(** The error of the last call that failed; the signals end with a 0. *)
Fixpoint sigaction_many (sigaction : Z -> Z) (sigs : list Z) (r : Z) : Z :=
  match sigs with
  | [] => r
  | sig :: sigs' => if 0 <? sig then sigaction_many sigaction sigs' (if sigaction sig =? 0 then r else - sigaction sig) else r
  end.
(** The first signal is not tested. *)
Definition ignore_signals (sigaction : Z -> Z) (sig : Z) (sigs : list Z) : Z :=
  sigaction_many sigaction sigs (if sigaction sig =? 0 then 0 else - sigaction sig).

Definition S_ISREG (m : Z) : bool := Z.land m S_IFMT =? 0x8000.
Definition null_or_empty (st_mode st_size : Z) : bool :=
  (S_ISREG st_mode && (st_size <=? 0)) || S_ISCHR st_mode || S_ISBLK st_mode.
Definition null_or_empty_path (st : Z + Z * Z) : Z :=
  match st with inl e => - e | inr (mode, size) => if null_or_empty mode size then 1 else 0 end.
(** Device and inode of two files. *)
Definition files_same (a b : Z + Z * Z) : Z :=
  match a, b with
  | inl e, _ => - e
  | _, inl e => - e
  | inr a, inr b => if (a.1 =? b.1) && (a.2 =? b.2) then 1 else 0
  end.
Definition running_in_chroot (init_root root : Z + Z * Z) : Z :=
  let ret := files_same init_root root in if ret <? 0 then ret else if ret =? 0 then 1 else 0.

(** [name] is what the database has for the number. *)
Definition uid_to_name (uid : Z) (name : option bytes) : bytes := if uid =? 0 then "root" else default (fmt_u32 uid) name.
Definition gid_to_name (gid : Z) (name : option bytes) : bytes := if gid =? 0 then "root" else default (fmt_u32 gid) name.
Definition in_gid (gid getgid getegid : Z) (getgroups : Z + list Z) : Z :=
  if getgid =? gid then 1 else if getegid =? gid then 1
  else match getgroups with inl e => - e | inr gids => if existsb (fun g => g =? gid) gids then 1 else 0 end.

(** * Memory *)

(** The index of the element; a length is enough fuel. *)
Section xbsearch.
Context {A : Type} (compar : A -> comparison) (base : list A).
Fixpoint xbsearch_loop (fuel l u : nat) : option nat :=
  match fuel with
  | O => None
  | S fuel' =>
      if (l <? u)%nat then
        let idx := ((l + u) / 2)%nat in
        match base !! idx with
        | None => None
        | Some p =>
            match compar p with
            | Lt => xbsearch_loop fuel' l idx
            | Gt => xbsearch_loop fuel' (S idx) u
            | Eq => Some idx
            end
        end
      else None
  end.
Definition xbsearch_r : option nat := xbsearch_loop (S (length base)) 0 (length base).

(** It finds the element of a sorted array that is equal to the key. *)
Lemma xbsearch_loop_ok fuel l u :
  key_sorted compar base -> (u <= length base)%nat -> (u - l < fuel)%nat ->
  match xbsearch_loop fuel l u with
  | Some i => exists x, base !! i = Some x /\ compar x = Eq
  | None => forall i x, (l <= i < u)%nat -> base !! i = Some x -> compar x <> Eq
  end.
Proof using.
  intros Hs. revert l u. induction fuel as [|fuel IH]; intros l u Hu Hf; [lia|]. cbn [xbsearch_loop].
  destruct (Nat.ltb_spec l u) as [Hlu|]; [|lia]. set (idx := ((l + u) / 2)%nat).
  assert (l <= idx < u)%nat as Hi.
  { subst idx. pose proof (Nat.div_mod (l + u) 2 ltac:(lia)). pose proof (Nat.mod_upper_bound (l + u) 2 ltac:(lia)). lia. }
  destruct (lookup_lt_is_Some_2 base idx ltac:(lia)) as [p Hp]. rewrite Hp. destruct (compar p) eqn:Ec; [by exists p|..].
  - specialize (IH l idx ltac:(lia) ltac:(lia)). destruct (xbsearch_loop fuel l idx); [done|]. intros i x Hix Hx.
    destruct (decide (i < idx)%nat); [apply (IH i); [lia|done]|]. destruct (decide (i = idx)) as [->|]; [congruence|].
    destruct (Hs idx i p x ltac:(lia) Hp Hx) as [H1 _]. rewrite H1; [done|congruence].
  - specialize (IH (S idx) u ltac:(lia) ltac:(lia)). destruct (xbsearch_loop fuel (S idx) u); [done|]. intros i x Hix Hx.
    destruct (decide (idx < i)%nat); [apply (IH i); [lia|done]|]. destruct (decide (i = idx)) as [->|]; [congruence|].
    destruct (Hs i idx x p ltac:(lia) Hx Hp) as [_ H2]. rewrite H2; [done|congruence].
Qed.
Lemma xbsearch_r_exact :
  key_sorted compar base ->
  match xbsearch_r with
  | Some i => exists x, base !! i = Some x /\ compar x = Eq
  | None => forall i x, base !! i = Some x -> compar x <> Eq
  end.
Proof using.
  intros Hs. unfold xbsearch_r. pose proof (xbsearch_loop_ok (S (length base)) 0 (length base) Hs ltac:(lia) ltac:(lia)) as H.
  destruct (xbsearch_loop _ _ _); [done|]. intros i x Hx. apply (H i); [|done]. split; [lia|by apply lookup_lt_Some in Hx].
Qed.
End xbsearch.

Definition SIZE_MAX : Z := 2 ^ 64 - 1.
(** The length of the result, when the sum can be stored. *)
Fixpoint extend_length (ts : list bytes) (l : Z) : option Z :=
  match ts with
  | [] => Some l
  | t :: ts' => let n := Z.of_nat (length t) in if SIZE_MAX - l <? n then None else extend_length ts' (l + n)
  end.
Definition strextend (realloc : bool) (x : option bytes) (ts : list bytes) : option bytes :=
  let s := default [] x in
  match extend_length ts (Z.of_nat (length s)) with
  | None => None
  | Some _ => if realloc then Some (s ++ mjoin ts) else None
  end.

(** An array of [allocated] elements of [size] bytes: the new number of
    elements and the bytes asked for, [None] when the size is not right.  The
    types are [size_t] and [unsigned]. *)
Definition greedy_realloc (realloc : Z -> bool) (allocated need size : Z) : option Z :=
  if need <=? allocated then Some allocated
  else
    let newalloc := Z.max (u64 (need * 2)) (64 / size) in
    let a := u64 (newalloc * size) in
    if a <? u64 (size * need) then None else if realloc a then Some newalloc else None.
(** When twice the need can be stored, the array has it afterwards, inside of
    the memory that was asked for. *)
Lemma greedy_realloc_bound realloc allocated need size n :
  0 <= need -> 0 < size -> 2 * need * size < 2 ^ 64 ->
  greedy_realloc realloc allocated need size = Some n ->
  need <= n /\ (allocated < need -> 2 * need <= n /\ u64 (n * size) = n * size).
Proof using.
  intros Hn Hs Hb. unfold greedy_realloc. destruct (Z.leb_spec need allocated); [intros [= <-]; lia|].
  assert (u64 (need * 2) = need * 2) as -> by (apply wrap_small; nia).
  assert (64 / size * size <= 64) by (rewrite Z.mul_comm; by apply Z.mul_div_le).
  assert (0 <= 64 / size) by (apply Z.div_pos; lia).
  destruct (_ <? _); [done|]. destruct (realloc _); [|done]. intros [= <-]. split; [lia|]. intros _. split; [lia|].
  apply wrap_small. destruct (Z.max_spec (need * 2) (64 / size)) as [[_ ->]|[_ ->]]; nia.
Qed.
(** An overflow is not always seen: the number may wrap around to less than the
    need. *)
Lemma greedy_realloc_wraps : greedy_realloc (fun _ => true) 0 (2 ^ 63) 2 = Some 32.
Proof using. by vm_compute. Qed.
End UtilIo.
