(* ===== verification/TimeUtil.v ===== *)
(** shared/time-util.c: times in microseconds, as the system has them and as
    text. *)

From Stdlib Require Import ZArith Lia Ascii.
From stdpp Require Import prelude gmap strings.
From S2P Require Import Prelude Strings System ConfFiles.
Import Strxcpyx ConfFiles.

Module TimeUtil.

(** [(usec_t) -1], which stands for no time. *)
Definition USEC_INFINITY : Z := 2 ^ 64 - 1.
(** Seconds, and nanoseconds or microseconds. *)
Definition timespec_store (u : Z) : Z * Z :=
  if u =? USEC_INFINITY then (-1, -1) else (u / 1000000, u mod 1000000 * 1000).
Definition timeval_store (u : Z) : Z * Z :=
  if u =? USEC_INFINITY then (-1, -1) else (u / 1000000, u mod 1000000).

(** Every time is read as it was stored. *)
Lemma timespec_round_trip u : 0 <= u < 2 ^ 64 -> timespec_load (timespec_store u) = u.
Proof using.
  intros Hu. unfold timespec_store, USEC_INFINITY. destruct (Z.eqb_spec u (2 ^ 64 - 1)) as [->|Hne]; [by vm_compute|].
  pose proof (Z.div_mod u 1000000 ltac:(lia)) as Hd. pose proof (Z.mod_pos_bound u 1000000 ltac:(lia)) as Hm.
  assert (0 <= u / 1000000) by (apply Z.div_pos; lia).
  unfold timespec_load. rewrite (proj2 (Z.eqb_neq (u / 1000000) (-1))) by lia. cbn [andb].
  rewrite Z.quot_mul by lia. assert (u64 (u / 1000000) = u / 1000000) as -> by (apply wrap_small; lia).
  assert (u64 (u mod 1000000 * 1000) = u mod 1000000 * 1000) as -> by (apply wrap_small; lia).
  assert (u64 (2 ^ 64 - 1 - u mod 1000000) = 2 ^ 64 - 1 - u mod 1000000) as -> by (apply wrap_small; lia).
  rewrite Z.div_mul by lia. rewrite (proj2 (Z.ltb_ge _ _)).
  - rewrite wrap_small; lia.
  - apply Z.div_le_lower_bound; lia.
Qed.

(** * Text *)

Definition USEC_PER_MINUTE : Z := 60 * 1000000.
Definition units : list (bytes * Z) :=
  [("y" : bytes, 31557600 * 1000000); ("month" : bytes, 2629800 * 1000000); ("w" : bytes, 7 * 24 * 3600 * 1000000);
   ("d" : bytes, 24 * 3600 * 1000000); ("h" : bytes, 3600 * 1000000); ("min" : bytes, USEC_PER_MINUTE);
   ("s" : bytes, 1000000); ("ms" : bytes, 1000); ("us" : bytes, 1)].
(** The loops over powers of ten: 20 digits are enough for 64 bits. *)
Fixpoint count_digits (fuel : nat) (cc j : Z) : Z :=
  match fuel with O => j | S fuel' => if 1 <? cc then count_digits fuel' (cc / 10) (j + 1) else j end.
Fixpoint cut_digits (fuel : nat) (cc b j : Z) : Z * Z :=
  match fuel with O => (b, j) | S fuel' => if 1 <? cc then cut_digits fuel' (cc / 10) (b / 10) (j - 1) else (b, j) end.
Definition padded (width : Z) (b : Z) : bytes := let s := fmt 10 b in replicate (Z.to_nat width - length s) "0"%char ++ s.

(** The text for a unit, and what is left of the time. *)
Definition unit_text (first : bool) (t accuracy : Z) (suffix : bytes) (usec : Z) : bytes * Z :=
  let space : bytes := if first then [] else " " in
  let a := t / usec in
  let b := t mod usec in
  if (t <? USEC_PER_MINUTE) && (0 <? b) then
    let '(b, j) := cut_digits 20 accuracy b (count_digits 20 usec 0) in
    if 0 <? j then (space ++ fmt 10 a ++ "." ++ padded j b ++ suffix, 0) else (space ++ fmt 10 a ++ suffix, b)
  else (space ++ fmt 10 a ++ suffix, b).
Fixpoint units_loop (table : list (bytes * Z)) (t accuracy : Z) (something : bool) (d : dst) : dst :=
  match table with
  | [] => d
  | (suffix, usec) :: table' =>
      if (t <=? 0) || ((t <? accuracy) && something) then d
      else if t <? usec then units_loop table' t accuracy something d
      else if (left_ d <=? 1)%nat then d
      else
        let '(s, t) := unit_text (length (out d) =? 0)%nat t accuracy suffix usec in
        units_loop table' t accuracy true (strpcpyf d s)
  end.
(** What is written into the buffer of [l] bytes, and whether the last NUL is
    stored inside of it. *)
Definition format_timespan (l : nat) (t accuracy : Z) : option (bytes * bool) :=
  if t =? USEC_INFINITY then None
  else if t <=? 0 then Some (take (l - 1) "0", true)
  else let d := units_loop units t accuracy false (dst_new l) in Some (out d, (0 <? left_ d)%nat).

(** ** The bound *)

Lemma cut_digits_fuel n m cc b j : cc < 10 ^ Z.of_nat n -> (n <= m)%nat -> cut_digits m cc b j = cut_digits n cc b j.
Proof using.
  revert m cc b j. induction n as [|n IH]; intros [|m] cc b j Hc Hm; try lia; cbn [cut_digits].
  - done.
  - by rewrite (proj2 (Z.ltb_ge 1 cc)) by (simpl in Hc; lia).
  - destruct (Z.ltb_spec 1 cc); [|done]. apply IH; [|lia]. apply Z.div_lt_upper_bound; [lia|].
    rewrite <- Z.pow_succ_r by lia. by replace (Z.succ (Z.of_nat n)) with (Z.of_nat (S n)) by lia.
Qed.
(** The fuel is enough for every accuracy. *)
Lemma cut_digits_enough m cc b j : cc < 2 ^ 64 -> (20 <= m)%nat -> cut_digits m cc b j = cut_digits 20 cc b j.
Proof using. intros Hc. apply cut_digits_fuel. etrans; [exact Hc|]. done. Qed.
Lemma cut_digits_le n cc b j : 0 <= b -> 0 <= (cut_digits n cc b j).1 <= b /\ (cut_digits n cc b j).2 <= j.
Proof using.
  revert cc b j. induction n as [|n IH]; intros cc b j Hb; cbn [cut_digits fst snd]; [lia|]. destruct (1 <? cc); [|simpl; lia].
  destruct (IH (cc / 10) (b / 10) (j - 1) ltac:(apply Z.div_pos; lia)) as [H1 H2].
  assert (b / 10 <= b) by (apply Z.div_le_upper_bound; lia). lia.
Qed.

(** The longest text for a time below [T], and what it needs of the table. *)
Definition digits_of (z : Z) : nat := length (fmt 10 z).
Fixpoint budget (table : list (bytes * Z)) (T : Z) : nat :=
  match table with
  | [] => 0
  | (suffix, usec) :: table' => (1 + digits_of (T / usec) + length suffix + Nat.max 7 (budget table' usec))%nat
  end.
Fixpoint table_ok (table : list (bytes * Z)) (T : Z) : bool :=
  match table with
  | [] => true
  | (suffix, usec) :: table' =>
      (0 <? usec) && (T / usec <? 10 ^ Z.of_nat (digits_of (T / usec))) &&
      implb (usec <? USEC_PER_MINUTE) ((usec <=? 10 ^ 6) && (count_digits 20 usec 0 <=? 6)) && table_ok table' usec
  end.

Lemma fmt_digits_of a z : 0 <= a <= z -> z < 10 ^ Z.of_nat (digits_of z) -> (length (fmt 10 a) <= digits_of z)%nat.
Proof using.
  intros Ha Hz. destruct (digits_of z) as [|n] eqn:E; [change (10 ^ Z.of_nat 0) with 1 in Hz|]; [|apply fmt_short; lia].
  unfold digits_of in E. apply nil_length_inv in E. by destruct (fmt_nonempty 10 z).
Qed.
(** A text fits what the table allows it, and the rest of the time is less
    than the unit, or nothing after a fraction. *)
Lemma unit_text_bound first t accuracy suffix usec n :
  0 < usec <= t -> (usec < USEC_PER_MINUTE -> usec <= 10 ^ 6 /\ count_digits 20 usec 0 <= 6) -> (length (fmt 10 (t / usec)) <= n)%nat ->
  let '(s, t') := unit_text first t accuracy suffix usec in
  0 <= t' < usec /\ ((length s <= 1 + n + length suffix)%nat \/ (t' = 0 /\ (length s <= 1 + n + length suffix + 7)%nat)).
Proof using.
  intros Hu Hj Hn. unfold unit_text. pose proof (Z.mod_pos_bound t usec ltac:(lia)) as Hb.
  set (space := if first then [] else (" " : bytes)). assert (length space <= 1)%nat by (by destruct first; simpl; lia).
  destruct (Z.ltb_spec t USEC_PER_MINUTE) as [Ht|]; [|cbn [andb]; rewrite !length_app; split; [lia|left; lia]].
  destruct (Z.ltb_spec 0 (t mod usec)); cbn [andb]; [|rewrite !length_app; split; [lia|left; lia]].
  pose proof (cut_digits_le 20 accuracy (t mod usec) (count_digits 20 usec 0) ltac:(lia)) as [Hc1 Hc2].
  destruct (cut_digits 20 accuracy _ _) as [b j]. cbn [fst snd] in Hc1, Hc2. destruct Hj as [Hu6 Hj6]; [lia|].
  destruct (Z.ltb_spec 0 j); [|rewrite !length_app; split; [lia|left; lia]]. split; [lia|]. right. split; [done|].
  assert (length (fmt 10 b) <= 6)%nat by (apply (fmt_short 10 b 5); [lia|]; change (10 ^ Z.of_nat 6) with (10 ^ 6); lia).
  unfold padded. rewrite !length_app, length_replicate. change (length ("." : bytes)) with 1%nat. lia.
Qed.
Lemma strpcpyf_fits d s : (length s < left_ d)%nat -> left_ (strpcpyf d s) = (left_ d - length s)%nat.
Proof using. intros H. unfold strpcpyf. by rewrite (proj2 (Nat.ltb_lt _ _)). Qed.
Lemma units_loop_fits table T t accuracy something d :
  table_ok table T = true -> 0 <= t <= T -> (budget table T < left_ d)%nat ->
  (0 < left_ (units_loop table t accuracy something d))%nat.
Proof using.
  revert T t something d. induction table as [|[suffix usec] table IH]; intros T t something d Hok Ht Hb; cbn [units_loop]; [lia|].
  cbn [table_ok] in Hok. apply andb_true_iff in Hok as [Hok Hok']. apply andb_true_iff in Hok as [Hok Hj].
  apply andb_true_iff in Hok as [Hu%Z.ltb_lt Hd%Z.ltb_lt]. cbn [budget] in Hb.
  destruct (_ || _); [lia|]. destruct (Z.ltb_spec t usec); [apply (IH usec); [done|lia|lia]|].
  destruct (_ <=? 1)%nat; [lia|]. pose proof (unit_text_bound (length (out d) =? 0)%nat t accuracy suffix usec (digits_of (T / usec))) as Hs.
  destruct (unit_text _ _ _ _ _) as [s t']. destruct Hs as [Ht' Hl]; [lia|..].
  - intros Hm. rewrite (proj2 (Z.ltb_lt _ _)) in Hj by done. cbn [implb] in Hj. apply andb_true_iff in Hj as [?%Z.leb_le ?%Z.leb_le]. lia.
  - apply fmt_digits_of; [|done]. split; [apply Z.div_pos; lia|apply Z.div_le_mono; lia].
  - destruct Hl as [Hl|[-> Hl]].
    + apply (IH usec); [done|lia|]. rewrite strpcpyf_fits by lia. lia.
    + destruct table as [|[? ?] table]; cbn [units_loop]; [|rewrite (proj2 (Z.leb_le 0 0)) by lia; cbn [orb]]; rewrite strpcpyf_fits by lia; lia.
Qed.

Definition FORMAT_TIMESPAN_MAX : nat := 64.
(** A buffer of [FORMAT_TIMESPAN_MAX] is enough for every time and accuracy:
    nothing is cut, and the terminator is inside.  (A shorter one is left by
    the terminator when the text does not fit.) *)
Lemma format_timespan_fits t accuracy :
  0 <= t < USEC_INFINITY -> exists s, format_timespan FORMAT_TIMESPAN_MAX t accuracy = Some (s, true).
Proof using.
  intros Ht. unfold format_timespan. rewrite (proj2 (Z.eqb_neq _ _)) by lia. destruct (t <=? 0); [by eexists|]. eexists. f_equal. f_equal.
  apply Nat.ltb_lt. apply (units_loop_fits units (2 ^ 64)); [by vm_compute|unfold USEC_INFINITY in Ht; lia|].
  apply Nat.ltb_lt. by vm_compute.
Qed.
Example timespans :
  (fun t => fst <$> format_timespan 64 t 0) <$> [0; 1500; 61000000; 93784005000]%Z =
    [Some ("0" : bytes); Some ("1.500ms" : bytes); Some ("1min 1s" : bytes); Some ("1d 2h 3min 4.005000s" : bytes)].
Proof. by vm_compute. Qed.
Lemma terminator_behind : format_timespan 4 61000000 0 = Some (("1mi" : bytes) ++ [nul], false).
Proof. by vm_compute. Qed.
End TimeUtil.
