(* ===== verification/BuiltinEnd.v ===== *)
(** The builtin commands in the rules: the commands of src/core/builtin as the
    parameter of the rules engine, the proof that they leave the devices and
    their parents where they are, and with it that applying the rules ends. *)

From Stdlib Require Import ZArith Lia Ascii.
From stdpp Require Import prelude gmap strings sorting.
From S2P Require Import Prelude Utils Strings Encode Strbuf RuleTokens RuleParse RulesWf UdevList System Device DeviceProofs DeviceFrame DeviceProps DeviceNew Node Event HwdbLookup.
From S2P Require Import EventRun RuleApply RuleWalk BuiltinPath BuiltinNet BuiltinUsb BuiltinInput Parents Getopt BuiltinLib.
Import Mem Entries ParseValue Strbuf RuleTokens RuleParse RulesWf Device DeviceProofs DeviceFrame DeviceProps DeviceNew Node Event RuleApply RuleWalk.
Import BuiltinPath BuiltinHwdb BuiltinNet BuiltinUsb BuiltinInput BuiltinKeyboard Parents BuiltinBlkid BuiltinKmod BuiltinBtrfs Builtins.

Module BuiltinEnd.
#[local] Abbreviation tt := Datatypes.tt.

Section builtins.
Context `{SY : System} {PR : Programs} {IF : Interfaces} {KE : Keys} {BL : Blkid} {KM : Kmod} {BT : Btrfs} {FT : FileTimes}.
Context (fuel : nat) (b : builtins) (buf_rest : nat -> byte).
(** A command that leaves what C defines has no status; it is taken to fail. *)
Definition builtin_on_chain (cmd : Z) (argv : list bytes) : state (world * list udev_device) Z :=
  fun '(w, l) =>
    let '(r, (w', e)) := builtin_main buf_rest fuel b cmd argv (w, (event_of device_new) <| ev_chain := l |>) in
    (default EXIT_FAILURE r, (w', ev_chain e)).
Definition with_builtins : Programs := {|
  run_program := run_program;
  builtin_cmd := builtin_on_chain;
  fnmatch := Event.fnmatch;
  getpwuid := getpwuid;
  getpwnam := getpwnam;
  getgrgid := getgrgid;
  getgrnam := getgrnam;
  udevlibexecdir := udevlibexecdir
|}.

(** * The commands leave the devices where they are *)

Context {dir : bytes -> Prop} {DI : Directories dir}.
Abbreviation climbs := (climbs (dir := dir)).

(** A device that is not in the chain has no path and no parent. *)
Lemma climbs_parent i : climbs (udev_device_get_parent i).
Proof using DI.
  intros w e H Hl. destruct (Nat.lt_ge_cases i (length (ev_chain e))) as [Hi|Hi].
  - pose proof (get_parent_climbs i w e H Hi) as Hc. destruct (udev_device_get_parent i (w, e)) as [p [w' e']].
    by destruct Hc as (Hc1 & Hc2 & _).
  - assert (device_at e i = device_new) as Hd by (unfold device_at; by rewrite lookup_ge_None_2).
    assert (forall d, e <| ev_chain := <[i := d]> (ev_chain e) |> = e) as He.
    { intros d. rewrite list_insert_ge by done. by destruct e. }
    assert (udev_device_get_parent i (w, e) = (None, (w, e))) as ->; [|by split].
    unfold udev_device_get_parent. rewrite E_bind_eq. cbn [ev gets fst snd compose]. rewrite Hd. cbn [d_parent_set device_new].
    rewrite E_bind_eq. unfold on at 1. rewrite Hd. unfold update, modify. cbn [fst snd]. rewrite !He.
    rewrite E_bind_eq. done.
Qed.
Lemma climbs_obind {A B} (m : E (option A)) (f : A -> E (option B)) : climbs m -> (forall x, climbs (f x)) -> climbs (obind m f).
Proof using DI. intros Hm Hf. unfold obind. apply climbs_bind; [done|]. intros [x|]; [apply Hf|apply climbs_ret]. Qed.
#[local] Hint Resolve climbs_parent : climbs.
Ltac climb :=
  intros; cbv beta zeta; repeat (first
    [ match goal with |- Parents.climbs (obind _ _) => apply climbs_obind; [|intros ?] end | climbs_step ]).

Lemma climbs_add_property key val : climbs (BuiltinPath.udev_builtin_add_property key val).
Proof using DI. unfold BuiltinPath.udev_builtin_add_property. climb. Qed.
Lemma climbs_sysname i : climbs (sysname_of i).
Proof using DI. unfold sysname_of. climb. Qed.
Lemma climbs_sysnum i : climbs (sysnum_of i).
Proof using DI. unfold sysnum_of. climb. Qed.
Lemma climbs_subsystem i : climbs (subsystem_of i).
Proof using DI. unfold subsystem_of. climb. Qed.
Lemma climbs_devtype i : climbs (devtype_of i).
Proof using DI. unfold devtype_of. climb. Qed.
Lemma climbs_sysattr i a : climbs (sysattr_of i a).
Proof using DI. unfold sysattr_of. climb. Qed.
#[local] Hint Resolve climbs_add_property climbs_sysname climbs_sysnum climbs_subsystem climbs_devtype climbs_sysattr : climbs.
Lemma climbs_parent_with n s t i : climbs (parent_with_loop n s t i).
Proof using DI. revert i. induction n as [|n IH]; intros i; cbn [parent_with_loop]; climb. Qed.
Lemma climbs_parent_devtype n i s t : climbs (udev_device_get_parent_with_subsystem_devtype n i s t).
Proof using DI. apply climbs_parent_with. Qed.
Lemma climbs_skip n s d p : climbs (skip_loop n s d p).
Proof using DI. revert d p. induction n as [|n IH]; intros d p; destruct p; cbn [skip_loop]; climb. Qed.
Lemma climbs_skip_subsystem d s : climbs (skip_subsystem fuel d s).
Proof using DI. apply climbs_skip. Qed.
#[local] Hint Resolve climbs_parent_with climbs_parent_devtype climbs_skip_subsystem : climbs.

(** ** path_id *)

Lemma climbs_lun d : climbs (format_lun_number d).
Proof using DI. unfold format_lun_number. climb. Qed.
Lemma climbs_attr d a : climbs (attr_of_device d a).
Proof using DI. unfold attr_of_device. climb. Qed.
Lemma climbs_session n i : climbs (session_loop n i).
Proof using DI. revert i. induction n as [|n IH]; intros i; cbn [session_loop]; climb. Qed.
#[local] Hint Resolve climbs_lun climbs_attr climbs_session : climbs.
Lemma climbs_scsi p path : climbs (handle_scsi fuel p path).
Proof using DI.
  unfold handle_scsi, handle_scsi_fibre_channel, handle_scsi_sas, handle_scsi_iscsi, handle_scsi_hyperv, handle_scsi_default. climb.
Qed.
#[local] Hint Resolve climbs_scsi : climbs.
Lemma climbs_handler s p path h : handler fuel s p path = Some h -> climbs h.
Proof using DI.
  unfold handler, handle_cciss, handle_usb, handle_bcma. intros Hh. repeat case_match; try done; injection Hh as <-; climb.
Qed.
Lemma climbs_path_step s p k : climbs (path_step fuel s p k).
Proof using DI.
  unfold path_step, handle_scsi_tape. destruct s as [s|]; [|climb]. case_bool_decide; [climb|].
  destruct (handler fuel s p (wk_path k)) as [h|] eqn:Hh; [apply climbs_handler in Hh|]; climb.
Qed.
#[local] Hint Resolve climbs_path_step : climbs.
Lemma climbs_path_loop n p k : climbs (path_loop fuel n p k).
Proof using DI. revert p k. induction n as [|n IH]; intros [p|] k; cbn [path_loop]; climb. Qed.
#[local] Hint Resolve climbs_path_loop : climbs.
Lemma climbs_path_id : climbs (builtin_path_id fuel).
Proof using DI. unfold builtin_path_id, handle_ccw, add_path. climb. Qed.

(** ** hwdb and net_id *)

Lemma climbs_add_entries l : climbs (add_entries l).
Proof using DI. induction l as [|x l IH]; cbn [add_entries]; climb. Qed.
#[local] Hint Resolve climbs_add_entries : climbs.
Lemma climbs_add_found r : climbs (add_found r).
Proof using DI. unfold add_found. climb. Qed.
#[local] Hint Resolve climbs_add_found : climbs.
Lemma climbs_hwdb_lookup h p m f : climbs (udev_builtin_hwdb_lookup h p m f).
Proof using DI. unfold udev_builtin_hwdb_lookup. climb. Qed.
#[local] Hint Resolve climbs_hwdb_lookup : climbs.
Lemma climbs_search h n p s f d r : climbs (search_loop h n p s f d r).
Proof using DI. revert d r. induction n as [|n IH]; intros d r; destruct d; cbn [search_loop]; unfold modalias_usb; climb. Qed.
#[local] Hint Resolve climbs_search : climbs.
(** Another device has parents of its own. *)
Lemma climbs_other {A} d (m : E A) : climbs (on_other d m).
Proof using DI. intros w e H Hl. unfold on_other. destruct (m _) as [x [w' e']]. by split. Qed.
#[local] Hint Resolve climbs_other : climbs.
Lemma climbs_hwdb h a : climbs (builtin_hwdb h fuel a).
Proof using DI. unfold builtin_hwdb, udev_builtin_hwdb_search. climb. Qed.

Lemma climbs_add_name key name : climbs (add_name key name).
Proof using DI. unfold add_name. climb. Qed.
#[local] Hint Resolve climbs_add_name : climbs.
Lemma climbs_add_part key prefix part rest : climbs (add_part key prefix part rest).
Proof using DI. unfold add_part. climb. Qed.
#[local] Hint Resolve climbs_add_part : climbs.
Lemma climbs_names n : climbs (names_pci fuel n) /\ climbs (names_usb fuel n) /\ climbs (names_bcma fuel n) /\ climbs (names_ccw n) /\ climbs (names_mac n).
Proof using DI.
  unfold names_pci, dev_pci_onboard, dev_pci_slot, is_pci_multifunction, names_usb, names_bcma, names_ccw, names_mac. split_and!; climb.
Qed.
Lemma climbs_path_names prefix n : climbs (path_names fuel prefix n).
Proof using DI.
  assert (forall n, climbs (names_pci fuel n)) by apply climbs_names. assert (forall n, climbs (names_usb fuel n)) by apply climbs_names.
  assert (forall n, climbs (names_bcma fuel n)) by apply climbs_names. unfold path_names. climb.
Qed.
Lemma climbs_mac_names h prefix n : climbs (mac_names h prefix n).
Proof using DI. unfold mac_names, ieee_oui. climb. Qed.
#[local] Hint Resolve climbs_path_names climbs_mac_names : climbs.
Lemma climbs_net_id h : climbs (builtin_net_id h fuel).
Proof using DI.
  assert (forall n, climbs (names_ccw n)) by apply climbs_names. assert (forall n, climbs (names_mac n)) by apply climbs_names.
  unfold builtin_net_id. climb.
Qed.

(** ** usb_id, input_id and keyboard *)

Lemma climbs_packed d n : climbs (dev_if_packed_info buf_rest d n).
Proof using DI. unfold dev_if_packed_info. climb. Qed.
Lemma climbs_scsi_strings u : climbs (scsi_strings fuel u).
Proof using DI. unfold scsi_strings. climb. Qed.
#[local] Hint Resolve climbs_packed climbs_scsi_strings : climbs.
Lemma climbs_fallback d u p n r : climbs (usb_fallback d u p n r).
Proof using DI. unfold usb_fallback, add_unless_empty, add_if. climb. Qed.
#[local] Hint Resolve climbs_fallback : climbs.
Lemma climbs_usb_id : climbs (builtin_usb_id fuel buf_rest).
Proof using DI. unfold builtin_usb_id. climb. Qed.

Lemma climbs_input_parent n d : climbs (input_parent n d).
Proof using DI. revert d. induction n as [|n IH]; intros d; cbn [input_parent]; climb. Qed.
#[local] Hint Resolve climbs_input_parent : climbs.
Lemma climbs_flags l : climbs (add_flags l).
Proof using DI. induction l as [|x l IH]; cbn [add_flags]; climb. Qed.
#[local] Hint Resolve climbs_flags : climbs.
Lemma climbs_input_id : climbs (builtin_input_id fuel).
Proof using DI. unfold builtin_input_id, get_cap_mask. climb. Qed.
Lemma stays_set_sysattr a v : keeps (BuiltinKeyboard.udev_device_set_sysattr_value a v).
Proof using Type. unfold BuiltinKeyboard.udev_device_set_sysattr_value, cache_sysattr. along. Qed.
#[local] Hint Resolve stays_set_sysattr : along.
Lemma climbs_keyboard : climbs (builtin_keyboard fuel).
Proof using DI. unfold builtin_keyboard, install_force_release. climb. Qed.

(** ** blkid and btrfs *)

Lemma climbs_print name value : climbs (print_property name value).
Proof using DI. unfold print_property. apply climbs_for_each. climb. Qed.
(** A computation that has a probe besides. *)
Definition climbs_with {A} (m : state (world * udev_event * probe) A) : Prop := forall p, climbs (with_probe p m).
Lemma climbs_with_ret {A} (x : A) : climbs_with (mret x).
Proof using DI. intros p. apply climbs_ret. Qed.
Lemma climbs_with_bind {A B} (m : state (world * udev_event * probe) A) (f : A -> state (world * udev_event * probe) B) :
  climbs_with m -> (forall x, climbs_with (f x)) -> climbs_with (m ≫= f).
Proof using DI.
  intros Hm Hf p w e H Hl. specialize (Hm p w e H Hl). unfold with_probe in *. rewrite bind_eq.
  destruct (m (w, e, p)) as [x [[w1 e1] p1]]. cbn [fst snd] in *. destruct Hm as [H1 H2].
  destruct (Hf x p1 w1 e1 H1) as [H3 H4]; [destruct H2; lia|]. unfold with_probe in *. cbn [fst snd] in *.
  destruct (f x (w1, e1, p1)) as [y [[w2 e2] p2]]. cbn [fst snd] in *. split; [done|]. by apply (grown_trans _ e1).
Qed.
Lemma climbs_with_lib {A} (m : state (world * probe) A) : climbs_with (lib m).
Proof using DI. intros p w e H _. unfold with_probe, lib. destruct (m (w, p)) as [x [w' p']]. by split. Qed.
Lemma climbs_with_event {A} (m : E A) : climbs m -> climbs_with (on_event m).
Proof using DI.
  intros Hm p w e H Hl. specialize (Hm w e H Hl). unfold with_probe, on_event. by destruct (m (w, e)) as [x [w' e']].
Qed.
Ltac climb_with :=
  repeat (intros; cbv beta zeta; first
    [ solve [auto 2 with nocore] | apply climbs_with_ret | apply climbs_with_lib | apply climbs_with_event; climb | apply climbs_with_bind
    | match goal with
      | |- climbs_with (if ?b then _ else _) => destruct b
      | |- climbs_with (match ?x with _ => _ end) => destruct x
      end ]).
Lemma climbs_values n i : climbs_with (values_loop n i).
Proof using DI. pose proof climbs_print. revert i. induction n as [|n IH]; intros i; cbn [values_loop]; climb_with; try apply IH. Qed.
Lemma climbs_probe_device node offset : climbs_with (probe_device node offset).
Proof using DI. pose proof climbs_values. unfold probe_device. climb_with. Qed.
Lemma climbs_blkid argv : climbs (builtin_blkid argv).
Proof using DI.
  unfold builtin_blkid. pose proof climbs_probe_device. destruct (blkid_options _ _ _) as [[offset noraid]|]; [|climb].
  apply climbs_bind; [climb|]. intros [p|]; [|climb]. apply climbs_bind; [|climb].
  match goal with |- climbs (with_probe p ?m) => assert (climbs_with m) as Hm; [|exact (Hm p)] end. climb_with.
Qed.
Lemma climbs_btrfs argv : climbs (builtin_btrfs argv).
Proof using DI. unfold builtin_btrfs. climb. Qed.

Lemma climbs_main cmd argv : climbs (builtin_main buf_rest fuel b cmd argv).
Proof using DI.
  pose proof climbs_blkid. pose proof climbs_btrfs. pose proof climbs_hwdb. pose proof climbs_input_id. pose proof climbs_keyboard.
  pose proof climbs_net_id. pose proof climbs_path_id. pose proof climbs_usb_id. unfold builtin_main. climb.
Qed.
(** With the commands of src/core/builtin the rules engine may look up parents,
    and does not move a device. *)
Lemma climbs_builtins cmd argv : climbs (on_chain (builtin_cmd (Programs := with_builtins) cmd argv)).
Proof using DI.
  intros w e H Hl. unfold on_chain. cbn [builtin_cmd with_builtins]. unfold builtin_on_chain.
  match goal with |- context [builtin_main _ _ _ _ _ (w, ?e0)] => pose proof (climbs_main cmd argv w e0 H Hl) as Hm end.
  destruct (builtin_main _ _ _ _ _ _) as [r [w' e']]. exact Hm.
Qed.

(** * The rules *)

Context {P : Type} `{Hpool : StringPool P}.
#[local] Abbreviation load := (rules_load getpwuid getpwnam getgrgid getgrnam).
(** C9: Applying the rules to an event comes to its end, whatever the rules and
    the device are, with the builtin commands that there are: for all rules
    files that fit the arrays of the program (the 64 tokens of a rule, and
    32 bits for offsets and indices).  The directories of devices are not links,
    so each parent has a shorter path, and a bound for the length of paths
    bounds the searches through the parents; a builtin command may look up
    parents itself, and does not move a device.  A builtin command and a
    program that the rules run are taken to return. *)
Theorem apply_to_event_ends st (files : list (bytes * option bytes)) w e :
  Forall (fun f => cstr f.1) files -> fits32 (load st files) ->
  chain_ok (dir := dir) e -> (0 < length (ev_chain e))%nat ->
  fst (udev_rules_apply_to_event (PR := with_builtins) UTIL_PATH_SIZE (u_rules (load st files)) (w, e)) = Finished 0.
Proof using DI. apply (apply_ends_with (PR := with_builtins)). apply climbs_builtins. Qed.
End builtins.

(** No libraries and no devices behind the nodes, for examples. *)
#[local] Instance no_keys : Keys (SY := file_system) := {|
  keyboard_lookup_key := fun _ => None; sys_open_input := fun _ w => (false, w); sys_setkeycode := fun _ _ _ w => (tt, w) |}.
#[local] Instance no_blkid : Blkid (SY := file_system) := {|
  probe := unit; blkid_new_probe := fun w => (None, w); blkid_probe_set_superblocks_flags := fun _ s => (tt, s);
  blkid_probe_filter_superblocks_usage := fun _ _ s => (tt, s); sys_open := fun _ w => (None, w); blkid_probe_set_device := fun _ _ s => (-1, s);
  probe_fstat := fun s => (None, s); blkid_probe_enable_partitions := fun _ s => (tt, s); blkid_probe_get_size := fun s => (0, s);
  blkid_probe_is_wholedisk := fun s => (false, s); blkid_probe_enable_superblocks := fun _ s => (tt, s); blkid_do_fullprobe := fun s => (-1, s);
  blkid_probe_lookup_value := fun _ s => (-1, s); blkid_probe_set_partitions_flags := fun _ s => (tt, s); blkid_do_safeprobe := fun s => (-1, s);
  blkid_probe_numof_values := fun s => (0, s); blkid_probe_get_value := fun _ s => (None, s);
  blkid_safe_string := fun v n _ => take (n - 1) v; blkid_encode_string := fun v n _ => take (n - 1) v |}.
#[local] Instance no_kmod : Kmod (SY := file_system) := {|
  kmod_module := unit; kmod_new := fun w => (false, w); kmod_unref := fun w => (tt, w); kmod_load_resources := fun w => (tt, w);
  kmod_validate_resources := fun w => (0, w); kmod_module_new_from_lookup := fun _ w => ((0, []), w);
  kmod_module_probe_insert_module := fun _ _ w => (0, w) |}.
#[local] Instance no_btrfs : Btrfs (SY := file_system) := {|
  sys_open_rdwr := fun _ w => (None, w); btrfs_devices_ready := fun _ _ w => (-1, w) |}.
Definition example_programs : Programs (SY := file_system) :=
  with_builtins (PR := no_programs) 30 builtins_start (fun _ => nul).

(** A rule about a parent that runs path_id, which looks for the parents too. *)
Definition builtin_file : bytes :=
  "KERNELS==" ++ [dquote] ++ "hub" ++ [dquote] ++ ", IMPORT{builtin}=" ++ [dquote] ++ "path_id" ++ [dquote; newline].
Definition builtin_files : list (bytes * option bytes) := [(("a.rules" : bytes), Some builtin_file)].
Lemma apply_to_event_ends_witness :
  let r := u_rules (rules_load (fun _ => false) (fun _ => None) (fun _ => false) (fun _ => None) walk_start builtin_files) in
  fst (udev_rules_apply_to_event (SY := file_system) (PR := example_programs) UTIL_PATH_SIZE r (hub_world, event_of hub_device)) = Finished 0.
Proof.
  intros r.
  refine (@apply_to_event_ends file_system no_programs _ _ _ _ _ 30 builtins_start (fun _ => nul) _ short_paths Strbuf.strbuf _
            walk_start builtin_files hub_world (event_of hub_device) _ _ _ _).
  - by repeat constructor.
  - vm_compute. auto.
  - split; [|simpl; intros i Hi; lia]. intros [|i] Hi; [by apply Nat.ltb_lt|simpl in Hi; lia].
  - simpl. lia.
Defined.
Example builtin_parents :
  let r := u_rules (rules_load (fun _ => false) (fun _ => None) (fun _ => false) (fun _ => None) walk_start builtin_files) in
  let '(res, (_, e)) := udev_rules_apply_to_event (SY := file_system) (PR := example_programs) 30 r (hub_world, event_of hub_device) in
  (res, syspath <$> ev_chain e, ev_builtin_run e, ev_builtin_ret e) =
    (Finished 0, ["/sys/devices/hub/port/sda" : bytes; "/sys/devices/hub/port" : bytes; "/sys/devices/hub" : bytes], 128, 128).
Proof. vm_compute. reflexivity. Qed.
End BuiltinEnd.
